(* ===== verification/_CoqProject ===== *)
-Q . S2P
Prelude.v
Types.v
BitPacking.v
Bitmap.v
Delta.v
Rle.v
Dictionary.v
Compression.v
Double.v
Expr.v
VersionInfo.v
BlockFile.v
BufferManager.v
ColumnChunk.v
ZoneMap.v
RowGroup.v
PartitionInfo.v
Operators.v
HashJoin.v
Pipeline.v
Sorting.v
Sort.v
Aggregate.v
Transaction.v
Schema.v
LogicalPlan.v
PhysicalPlanner.v
Optimizer.v
Catalog.v
Ast.v
Tokenizer.v
Parser.v
Grammar.v
Binder.v
BinderStatements.v
TableScan.v
CatalogCheckpoint.v
Wal.v
TransactionManager.v
TaskScheduler.v
CheckpointManager.v
Dml.v
DmlUpdate.v
UpdateRollback.v
Executor.v
Profiler.v
ClientContext.v
GroupBy.v
JoinQuery.v
Recovery.v
Console.v
