(* ===== verification/Prelude.v ===== *)
(** * CppColDB: a verification library for the embedded columnar database

    CppColDB is an in-process SQL database with columnar storage, multi-version
    concurrency control and a write-ahead log.  This library models all its
    layers, from the SQL text to the bytes of its files, as executable functions
    and proves the properties that make them correct.  All paths below are
    relative to [src/src], but for [src/main.cpp].

    ** The program and the files of this library

    A statement runs inside a transaction, reads and writes row groups through
    the operators of the executor, and leaves records in the undo buffer of its
    transaction; COMMIT writes them to the log, then replays them over the
    version markers and the catalog.  From the bottom up:

    - [Prelude] (this file): errors and the error monad ([result]), integers at
      their width ([u32], [i32], [u64], [i64], little-endian bytes), IEEE doubles as
      [spec_float], generic facts on lists, the tactics and hint databases.
    - [Types] ([common/types]): [TypeId], [Value], [DataVector], [DataChunk].
      A vector of the source is a type tag, typed arrays and a validity array;
      its abstract view is the list of its rows, [dv_rows].
    - [BitPacking], [Bitmap], [Delta], [Rle], [Dictionary], [Compression]
      ([storage/column/compression]): the codecs, the choice among them
      ([SelectCompression]) and the layout of a segment block.
    - [VersionInfo] ([storage/column/version_info]): the per-row markers and
      the visibility test.
    - [BlockFile], [BufferManager] ([storage/block_file], [buffer_manager]):
      blocks in a file and the pool of frames over it.  The class [BlockStore]
      is what the pool promises to the layers above, and its instance is the
      proof that it keeps the promise.
    - [ColumnChunk], [ZoneMap], [RowGroup] ([storage/column]): a column as
      compressed segments and pending rows, its statistics, and a row group as
      columns plus version markers; all written against [BlockStore].
    - [PartitionInfo] ([storage/partition_info]): routing of rows and pruning
      of partitions.  [std::hash] is a parameter ([Hashes]) with the law of the
      standard that equal keys have equal hashes ([HashLaws]).
    - [Transaction], [Schema], [Catalog], [CatalogCheckpoint]
      ([transaction/undo_buffer], [catalog]): undo records, versioned table
      entries, DDL and the checkpoint image of the catalog.  The iteration
      order of [std::unordered_map] is a parameter ([MapOrder]) with the law
      that it lists every key once.
    - [Wal] ([storage/wal], [transaction/transaction.cpp], the payload readers
      of [main/database.cpp]), [TransactionManager]
      ([transaction/transaction_manager]), [CheckpointManager]
      ([checkpoint/checkpoint_manager]): the log, BEGIN, COMMIT, ROLLBACK and
      CHECKPOINT, composed from all of the above.
    - [Double], [Expr] ([execution/operator/expr_evaluator],
      [planner/logical_plan]): IEEE doubles by their object representation,
      expression trees, and the vectorised evaluator beside a row-at-a-time
      semantics ([eval_row]).
    - [Operators], [HashJoin], [Sorting], [Sort], [Aggregate], [TableScan]
      ([execution/operator], [execution/join_hash_table],
      [execution/aggregate_hash_table]): the streaming operators, the hash
      join, ORDER BY with its bounded heap, the hash aggregation and the table
      scan with zone maps, late materialization and partitions.  [Pipeline]
      ([execution/pipeline_executor]) runs a source, a chain of operators and
      a sink.
    - [LogicalPlan], [Optimizer], [PhysicalPlanner] ([planner]): the plan
      trees with their meaning on table rows ([plan_rows]), the four passes of
      the optimizer, and the translation to operators ([phys_rows]).
    - [Ast], [Tokenizer], [Parser], [Grammar] ([parser]): the syntax trees, the
      tokenizer, the recursive-descent parser as functions on the list of
      tokens that remain, and the declared grammar of expressions beside it.
    - [Binder], [BinderStatements] ([planner/binder], [planner/bind_context]):
      name resolution, typing and coercion, from syntax trees to logical plans,
      for every statement.
    - [Dml] ([execution/operator/physical_insert], [physical_delete],
      [physical_update], [physical_create_table], [physical_drop_table],
      [physical_alter_table]): the operators that write.  They run in [step], a
      monad over the block store, the catalog and the transaction that keeps
      what was changed before an exception.  [DmlUpdate] proves what UPDATE does,
      [UpdateRollback] what its rollback does.
    - [Executor] ([execution/executor]): the cut of a plan into pipelines, their
      order, and their execution by [Pipeline] in [step].
    - [ClientContext] ([main/client_context], [main/connection]): a SQL text from
      the tokenizer to its result, EXPLAIN, and the transactions of a connection.
      [Connection_Query] is executable: whole sessions evaluate in the kernel.
      [GroupBy] follows aggregations along this path and [JoinQuery] joins.
    - [Recovery] ([main/database]): opening, replay of the log, and shutdown.
    - [Console] ([src/main.cpp]): the loop that reads statements and prints tables, from
      opening the database to closing it; whole runs of the program evaluate in the
      kernel.
    - [Profiler] ([profiler]): the times of phases, the calls of operators and
      the report, on given readings of the clock.
    - [TaskScheduler] ([parallel/task_scheduler]): the workers, submitters and
      the closing thread as a transition system.

    ** How the code is represented

    A class is a [Record] of its fields under their source names, a method a
    function from the old object to the new one; a method that can throw
    returns a [result], whose error is the exception and its message.  What C++
    leaves undefined (an access past the end of a buffer, a bad enum value) is
    [Err UndefinedBehaviour], so that a theorem that concludes [Ok] also says
    that the call is defined.  Inside one call of the storage layer an
    exception discards the partial effects in the model; the operators that
    write keep what they had changed before the throw ([step] in [Dml]).  Integers are [Z] with
    the wrap-around of their width written out, or [nat] for sizes and indices
    that count elements in memory.  Mutexes make the operations that take them
    atomic; interleavings of transactions are sequences of atomic steps.

    System calls are scripts: [BlockFile] and [Wal] take a list of what the
    next [pread], [pwrite], [read], [write] and [fsync] calls return, short
    transfers and failures included.

    ** What the theorems show

    Many theorems hold under conditions, which the comment of each one lists and
    which exclude inputs on which the program does something else; the most
    frequent ones are that constants fold to what the evaluator computes, that a
    scan reads a column besides those of its filters and has its zone-map
    predicates at their columns' positions, that join and group keys are not
    NULL, that LIMIT plus OFFSET fits [int64_t], and that version markers keep
    the protocol of [vstep], which two INSERTs of one transaction break
    ([double_commit_breaks_fast_path]).  The counterexamples beside them show
    that the conditions are needed.  The list below names the theorems, not their
    conditions.  Plans are compared by an ideal meaning of their operators
    ([query_rows], [phys_rows]); [query_select_rows], [query_group_rows] and
    [query_join_rows] are about the operators as they run.

    - Storage refinement.  Codecs and segments round-trip
      ([segment_roundtrip] and the theorems per codec); the buffer manager over
      a file is a map from block numbers to contents, whatever it evicts
      ([buffer_manager_refines_map]); columns are lists of rows and each
      operation is the list operation ([column_scan_rows],
      [column_append_rows], [column_write_rows], [column_gather_rows]); zone
      maps only skip rows that cannot match ([zone_map_sound]).
    - Visibility.  The marker counters are a sound fast path for every history
      of the marker protocol ([fast_path_sound]), what a transaction reads is
      stable under the others' inserts and deletes ([snapshot_stable]), and a
      row-group scan returns exactly the visible rows
      ([row_group_scan_visible]).
    - Partitions.  A row that satisfies the predicates lies in a partition the
      scan reads ([pruning_sound]).
    - Transactions and catalog.  The clock orders snapshots and commits
      ([clock_orders_snapshots]), commits hide deleted rows from exactly the
      later transactions, rollbacks restore; DDL is snapshot isolated
      ([catalog_snapshot_stable]).
    - Durability.  A log cut anywhere replays a prefix of its entries
      ([torn_log_replays_prefix]), truncation keeps what follows the marker,
      and the catalog checkpoint reads back except for PRIMARY KEY, statistics,
      pending rows and markers ([catalog_checkpoint_roundtrip]).
    - Defects.  Some theorems state what the code does where it does not do
      what it means to: [insert_entry_undefined],
      [first_checkpoint_overwrites_segment], [interleaved_append_dirty_read],
      [composite_range_pruning_loses_row], [bitpack_null_corrupts],
      [covered_scan_ignores_filters], [aggregate_reads_wrong_column],
      [cast_join_is_cross_product] and the other examples of their files.
    - Query execution.  Each operator computes its SQL meaning on the rows of
      its batches: expressions ([Evaluate_rows]), scans ([table_scan_rows]),
      joins ([hash_join_nested_loop]), ORDER BY and its top-k heap
      ([order_by_rows], [top_k_prefix]), GROUP BY ([hash_aggregate_rows]),
      LIMIT ([limit_window]) and a whole pipeline ([select_pipeline_rows]).
    - Planning.  The optimizer keeps the rows of a query ([optimize_rows]), the
      planner keeps the rows of a plan ([planner_rows]), and both together
      hand the operators of a SELECT exactly the columns they read
      ([optimized_select_rows]).
    - The language.  The parser terminates on every text and reads exactly the
      declared grammar ([parse_terminates], [parse_expr_grammar]), printed
      expressions parse back ([print_parse]), integer literals fit
      ([parsed_integers_fit]); bound expressions are well typed
      ([bound_expr_evaluates]), bound statements are what later layers rely on
      ([create_table_partitions], [insert_values_rows]), and a bound SELECT
      keeps its rows through the optimizer and the planner
      ([bound_select_rows]).
    - Statements.  DELETE marks and logs exactly the visible matching rows
      ([delete_marks_matching]), UPDATE gives them the values of its clauses and
      logs the old and new ones ([update_sets_matching]), which its rollback writes
      back ([rollback_undoes_update]), INSERT appends and logs its rows
      ([insert_appends_rows]), DDL statements leave records that undo them
      ([ddl_statement_rolls_back]); an UPDATE that throws does not
      ([failed_update_hides_rows]).
    - The whole path.  The pipelines of every plan run behind their
      dependencies ([pipelines_in_order]); a SELECT over one table with
      WHERE, ORDER BY and LIMIT, given as text, returns the rows of the plan it
      is bound to, on the rows its transaction sees ([query_select_rows]), and so does
      one with GROUP BY or aggregates ([query_group_rows]) and the equi-join of two
      tables whose batches do not overflow ([query_join_rows]); a connection neither
      loses a transaction nor leaves one behind ([connection_transactions]); tables
      created by a replayed log are not found again ([replayed_tables_lost]).
    - Threads.  The scheduler starts tasks in the order of submission and
      executes each once ([tasks_run_once]); a shutdown with no worker asleep or
      about to sleep and no submitter under way terminates behind them all
      ([shutdown_drains]), another one can wait forever ([shutdown_can_hang]) or
      lose a task ([task_lost_at_shutdown]).
    - The console prints a well-formed result as the table of its rows
      ([print_result_rows]) and reads nothing behind a request to stop
      ([console_stops]); a run of the program finds what an earlier one stored
      ([console_keeps_data]).
    - Profiles.  The phases of a query add up to at most its total, and the
      profile of an operator sums its calls ([profile_adds_up]).
    ** Bounds and fuel

    Loops over a buffer or a system-call script recurse on the data they
    consume.  The loops that are not structural take fuel: the transfer loops
    of [BlockFile] one unit per byte still to transfer (each successful call
    moves at least one), the segment walks of [ColumnChunk] one unit per
    segment and row left, the log reader of [Wal] one unit per byte left plus
    one (an entry has at least five), the parser one unit per token.  The fuel
    is computed inside the operation from its input and the theorems conclude
    [Ok], so they also show that it suffices.  The loop of a pipeline takes its
    fuel as an argument, because INSERT ... SELECT from the table it fills need
    not end; [query_select_rows] says how much a SELECT needs: one unit more
    than the table has visible rows, and one operator call per batch.

    ** What is not modelled

    [fsync] has no effect besides its result, and a crash is a cut of the log,
    not of the block file.  Threads are represented only by the order of atomic
    operations; data races are not modelled; the calls of the profiler are not
    part of the operators they surround.  [Value::ToString] is left out.
    Allocations for data that is there succeed; the one allocation sized by a
    number of the query, the heap of ORDER BY with LIMIT, is modelled with the
    memory as a parameter ([reserve] in [Sort]).

    Planned: the path from the text to the rows for chains of joins, for WHERE
    and ORDER BY above a join and for the ORDER BY of groups; partitioned tables
    on that path. *)

From Stdlib Require Import ZArith SpecFloat String Ascii.
From stdpp Require Import base gmap strings list fin_maps.

(** ** Errors and the error monad

    Every C++ function that can throw, or that can run into undefined
    behaviour, is a function into [result].  The first four constructors are
    the exception classes of [common/exception.hpp], where the position of a
    [ParseError] is [None] for [npos]; the others are what the language and its
    standard library add: [std::bad_variant_access], [std::out_of_range],
    [std::invalid_argument], and an access outside a buffer, which C++ leaves
    undefined and the model makes visible as an error. *)

Inductive error : Type :=
  | ParseError (msg : string) (pos : option nat)
  | BindError (msg : string)
  | RuntimeError (msg : string)
  | IOError (msg : string)
  | BadVariantAccess
  | StdOutOfRange
  | StdInvalidArgument
  | StdLengthError
  | StdBadAlloc
  | UndefinedBehaviour.

Inductive result (A : Type) : Type :=
  | Ok (a : A)
  | Err (e : error).
Arguments Ok {A} a.
Arguments Err {A} e.

#[export] Instance error_eq_dec : EqDecision error.
Proof. solve_decision. Defined.

#[export] Instance result_eq_dec `{EqDecision A} : EqDecision (result A).
Proof. solve_decision. Defined.

#[export] Instance result_ret : MRet result := fun A x => Ok x.

#[export] Instance result_bind : MBind result := fun A B f m =>
  match m with
  | Ok x => f x
  | Err e => Err e
  end.

#[export] Instance result_fmap : FMap result := fun A B f m =>
  match m with
  | Ok x => Ok (f x)
  | Err e => Err e
  end.

(** The value of an optional lookup, or the given error. *)
Definition of_option {A} (e : error) (o : option A) : result A :=
  match o with
  | Some x => Ok x
  | None => Err e
  end.

(** A guard of the source: [if (!cond) throw e;]. *)
Definition require (b : bool) (e : error) : result unit :=
  if b then Ok tt else Err e.

(** [std::toupper] in the C locale, on a character and on a string. *)
Definition toupper (c : ascii) : ascii :=
  let n := nat_of_ascii c in if Nat.leb 97 n && Nat.leb n 122 then ascii_of_nat (n - 32) else c.
Fixpoint upper (s : string) : string :=
  match s with EmptyString => EmptyString | String c s => String (toupper c) (upper s) end.

(** Left-to-right loop with an accumulator that may throw. *)
Fixpoint foldM {A B} (f : A -> B -> result A) (a : A) (l : list B) : result A :=
  match l with
  | [] => Ok a
  | x :: l => a' ← f a x; foldM f a' l
  end.

(** Left-to-right loop that collects one result per element. *)
Fixpoint mapM_r {A B} (f : A -> result B) (l : list A) : result (list B) :=
  match l with
  | [] => Ok []
  | x :: l => y ← f x; ys ← mapM_r f l; Ok (y :: ys)
  end.

Lemma bind_Ok_inv {A B} (m : result A) (f : A -> result B) (b : B) :
  (m ≫= f) = Ok b -> exists a, m = Ok a /\ f a = Ok b.
Proof. destruct m; simpl; [eauto | discriminate]. Qed.

Lemma foldM_app {A B} (f : A -> B -> result A) a l1 l2 :
  foldM f a (l1 ++ l2) = (a' ← foldM f a l1; foldM f a' l2).
Proof.
  revert a; induction l1 as [|x l1 IH]; intros a; simpl; [done|].
  destruct (f a x); simpl; [apply IH | done].
Qed.

Lemma mapM_r_Ok {A B} (f : A -> result B) (g : A -> B) l :
  (forall x, x ∈ l -> f x = Ok (g x)) -> mapM_r f l = Ok (map g l).
Proof.
  induction l as [|x l IH]; intros H; simpl; [done|].
  rewrite (H x) by apply list_elem_of_here; simpl.
  rewrite IH by (intros y Hy; apply H; by apply list_elem_of_further). done.
Qed.

(** An invariant of the accumulator goes through a loop that never throws. *)
Lemma foldM_invariant {A B} (P : list B -> A -> Prop) (f : A -> B -> result A) a l :
  P [] a ->
  (forall pre x a, P pre a -> (exists suf, l = pre ++ x :: suf) ->
     exists a', f a x = Ok a' /\ P (pre ++ [x]) a') ->
  exists a', foldM f a l = Ok a' /\ P l a'.
Proof.
  intros H0 Hstep.
  enough (forall pre suf a, l = pre ++ suf -> P pre a ->
            exists a', foldM f a suf = Ok a' /\ P l a') as H
    by (apply (H [] l a); done).
  intros pre suf; revert pre; induction suf as [|x suf IH]; intros pre a' Hl HP; simpl.
  - exists a'. split; [done|]. rewrite Hl, app_nil_r. done.
  - destruct (Hstep pre x a' HP) as (a'' & Hf & HP'); [eauto|].
    rewrite Hf. simpl. apply (IH (pre ++ [x])); [|done].
    by rewrite <- app_assoc.
Qed.

Lemma of_option_Ok_inv {A} e (o : option A) x : of_option e o = Ok x -> o = Some x.
Proof. destruct o; simpl; congruence. Qed.

(** What a loop that did not throw has done. *)
Lemma mapM_r_inv {A B} (f : A -> result B) l k : mapM_r f l = Ok k -> Forall2 (fun x y => f x = Ok y) l k.
Proof.
  revert k. induction l as [|x l IH]; intros k Hk; simpl in Hk; [injection Hk as <-; constructor|].
  apply bind_Ok_inv in Hk as (y & Hy & Hk). apply bind_Ok_inv in Hk as (ys & Hys & Hk). injection Hk as <-. by constructor; auto.
Qed.

Lemma foldM_keeps {A B} (P : A -> Prop) (f : A -> B -> result A) a l a' :
  P a -> (forall a x a', P a -> x ∈ l -> f a x = Ok a' -> P a') -> foldM f a l = Ok a' -> P a'.
Proof.
  revert a. induction l as [|x l IH]; intros a Ha Hstep Hf; simpl in Hf; [by injection Hf as <-|].
  apply bind_Ok_inv in Hf as (a1 & H1 & Hf). eapply IH; [|intros; eapply Hstep; [done|by apply list_elem_of_further|done]|done].
  eapply Hstep; [done|apply list_elem_of_here|done].
Qed.

(** ** Machine integers *)

Definition u8 (z : Z) : Z := (z mod 2 ^ 8)%Z.
Definition u16 (z : Z) : Z := (z mod 2 ^ 16)%Z.
Definition u32 (z : Z) : Z := (z mod 2 ^ 32)%Z.
Definition u64 (z : Z) : Z := (z mod 2 ^ 64)%Z.
Definition i32 (z : Z) : Z := ((z + 2 ^ 31) mod 2 ^ 32 - 2 ^ 31)%Z.
Definition i64 (z : Z) : Z := ((z + 2 ^ 63) mod 2 ^ 64 - 2 ^ 63)%Z.

Definition INT64_MAX : Z := 9223372036854775807%Z.
Definition INT64_MIN : Z := (-9223372036854775808)%Z.

Definition is_u8 (z : Z) : Prop := (0 <= z < 2 ^ 8)%Z.
Definition is_u16 (z : Z) : Prop := (0 <= z < 2 ^ 16)%Z.
Definition is_u32 (z : Z) : Prop := (0 <= z < 2 ^ 32)%Z.
Definition is_u64 (z : Z) : Prop := (0 <= z < 2 ^ 64)%Z.
Definition is_i32 (z : Z) : Prop := (- 2 ^ 31 <= z < 2 ^ 31)%Z.
Definition is_i64 (z : Z) : Prop := (- 2 ^ 63 <= z < 2 ^ 63)%Z.

Lemma i64_id z : is_i64 z -> i64 z = z.
Proof. unfold is_i64, i64. intros H. rewrite Z.mod_small; lia. Qed.

Lemma i32_id z : is_i32 z -> i32 z = z.
Proof. unfold is_i32, i32. intros H. rewrite Z.mod_small; lia. Qed.

Lemma u16_id z : is_u16 z -> u16 z = z.
Proof. apply Z.mod_small. Qed.

Lemma u32_id z : is_u32 z -> u32 z = z.
Proof. apply Z.mod_small. Qed.

Lemma u64_id z : is_u64 z -> u64 z = z.
Proof. apply Z.mod_small. Qed.

Lemma i64_u64 z : i64 (u64 z) = i64 z.
Proof. unfold i64, u64. rewrite Z.add_mod_idemp_l by lia. done. Qed.

Lemma i32_u32 z : i32 (u32 z) = i32 z.
Proof. unfold i32, u32. rewrite Z.add_mod_idemp_l by lia. done. Qed.

Lemma u64_range z : is_u64 (u64 z).
Proof. unfold is_u64, u64. apply Z.mod_pos_bound. lia. Qed.

Lemma i64_range z : is_i64 (i64 z).
Proof.
  unfold is_i64, i64. pose proof (Z.mod_pos_bound (z + 2 ^ 63) (2 ^ 64)). lia.
Qed.

(** ** Little-endian byte sequences

    Bytes are integers of [0, 256).  Every writer of the source emits the
    bytes of an unsigned integer least significant first, every reader
    combines them back with shifts. *)

Fixpoint le_bytes (n : nat) (v : Z) : list Z :=
  match n with
  | O => []
  | S n => Z.land v 255 :: le_bytes n (Z.shiftr v 8)
  end.

Fixpoint le_val (bs : list Z) : Z :=
  match bs with
  | [] => 0%Z
  | b :: bs => Z.lor b (Z.shiftl (le_val bs) 8)
  end.

Definition bytes_ok (bs : list Z) : Prop := Forall is_u8 bs.

Lemma length_le_bytes n v : length (le_bytes n v) = n.
Proof. revert v; induction n; intros v; simpl; auto. Qed.

Lemma land_255_range v : is_u8 (Z.land v 255).
Proof.
  unfold is_u8. change 255%Z with (Z.ones 8). rewrite Z.land_ones by lia.
  apply Z.mod_pos_bound; lia.
Qed.

Lemma le_bytes_ok n v : bytes_ok (le_bytes n v).
Proof.
  revert v; induction n; intros v; simpl; constructor; auto using land_255_range.
  apply IHn.
Qed.

Lemma testbit_above b k i : (0 <= b < 2 ^ k)%Z -> (k <= i)%Z -> Z.testbit b i = false.
Proof.
  intros Hb Hi. destruct (Z.eq_dec b 0%Z) as [->|]; [apply Z.bits_0|].
  assert (0 <= k)%Z by (destruct (Z.lt_ge_cases k 0%Z); [rewrite Z.pow_neg_r in Hb by done|]; lia).
  apply Z.bits_above_log2; [lia|]. apply Z.log2_lt_pow2; [lia|].
  apply Z.lt_le_trans with (2 ^ k)%Z; [lia|]. apply Z.pow_le_mono_r; lia.
Qed.

Lemma lor_shiftl_add b x k :
  (0 <= k)%Z -> (0 <= b < 2 ^ k)%Z -> Z.lor b (Z.shiftl x k) = (b + x * 2 ^ k)%Z.
Proof.
  intros Hk Hb. rewrite <- Z.shiftl_mul_pow2 by done.
  assert (Z.land b (Z.shiftl x k) = 0%Z) as Hland.
  { apply Z.bits_inj'; intros i Hi. rewrite Z.land_spec, Z.bits_0.
    destruct (Z.ltb_spec i k).
    - rewrite Z.shiftl_spec_low by lia. by rewrite andb_false_r.
    - by rewrite (testbit_above b k). }
  by rewrite <- Z.lxor_lor, Z.add_nocarry_lxor.
Qed.

Lemma land_255_mod v : Z.land v 255 = (v mod 2 ^ 8)%Z.
Proof. change 255%Z with (Z.ones 8). by rewrite Z.land_ones by lia. Qed.

Lemma le_val_cons b bs :
  is_u8 b -> le_val (b :: bs) = (b + le_val bs * 2 ^ 8)%Z.
Proof. intros Hb. simpl. apply lor_shiftl_add; [lia | apply Hb]. Qed.

Lemma le_val_one b : le_val [b] = b.
Proof. simpl. apply Z.lor_0_r. Qed.

Lemma le_val_le_bytes n v : le_val (le_bytes n v) = (v mod 2 ^ (8 * Z.of_nat n))%Z.
Proof.
  revert v; induction n as [|n IH]; intros v.
  { simpl. by rewrite Z.mod_1_r. }
  cbn [le_bytes]. rewrite le_val_cons by apply land_255_range.
  rewrite IH, land_255_mod, Z.shiftr_div_pow2 by lia.
  replace (8 * Z.of_nat (S n))%Z with (8 + 8 * Z.of_nat n)%Z by lia.
  rewrite Z.pow_add_r, Z.rem_mul_r by lia. lia.
Qed.

Lemma le_val_range bs :
  bytes_ok bs -> (0 <= le_val bs < 2 ^ (8 * Z.of_nat (length bs)))%Z.
Proof.
  induction 1 as [|b bs Hb Hbs IH]; [simpl; lia|].
  rewrite le_val_cons by done. cbn [length].
  replace (8 * Z.of_nat (S (length bs)))%Z with (8 + 8 * Z.of_nat (length bs))%Z by lia.
  rewrite Z.pow_add_r by lia. unfold is_u8 in Hb. nia.
Qed.

(** ** Byte readers

    A reader consumes a prefix of the remaining bytes.  The pointers of the
    source ([const uint8_t*& p]) are not checked against the end of their
    buffer, so a read past the end is undefined behaviour. *)

Definition reader (A : Type) : Type := list Z -> result (A * list Z).

Definition rd_bytes (n : nat) : reader (list Z) := fun bs =>
  if decide (n <= length bs) then Ok (take n bs, drop n bs) else Err UndefinedBehaviour.

Definition rd_le (n : nat) : reader Z := fun bs =>
  '(b, rest) ← rd_bytes n bs; Ok (le_val b, rest).

(** [n] repetitions of a reader, the [for] loops over a counted list. *)
Fixpoint rd_many {A} (rd : reader A) (n : nat) : reader (list A) := fun bs =>
  match n with
  | O => Ok ([], bs)
  | S n => '(x, bs) ← rd bs; '(xs, bs) ← rd_many rd n bs; Ok (x :: xs, bs)
  end.

Lemma rd_bytes_app b rest : rd_bytes (length b) (b ++ rest) = Ok (b, rest).
Proof.
  unfold rd_bytes. rewrite decide_True by (rewrite length_app; lia).
  by rewrite take_app_length, drop_app_length.
Qed.

Lemma rd_le_bytes n v rest :
  rd_le n (le_bytes n v ++ rest) = Ok ((v mod 2 ^ (8 * Z.of_nat n))%Z, rest).
Proof.
  unfold rd_le. rewrite <- (length_le_bytes n v) at 1. rewrite rd_bytes_app. simpl.
  by rewrite le_val_le_bytes.
Qed.

(** A writer [wr] and a reader [rd] agree on the values satisfying [P]. *)
Definition codec {A} (P : A -> Prop) (wr : A -> list Z) (rd : reader A) : Prop :=
  forall x rest, P x -> rd (wr x ++ rest) = Ok (x, rest).

Lemma rd_many_codec {A} (P : A -> Prop) wr (rd : reader A) :
  codec P wr rd ->
  forall l rest, Forall P l ->
    rd_many rd (length l) (concat (map wr l) ++ rest) = Ok (l, rest).
Proof.
  intros Hc l rest; induction 1 as [|x l Hx Hl IH]; simpl; [done|].
  rewrite <- app_assoc, Hc by done. simpl. by rewrite IH.
Qed.

Lemma codec_le n : codec (fun v => (0 <= v < 2 ^ (8 * Z.of_nat n))%Z) (le_bytes n) (rd_le n).
Proof. intros v rest Hv. rewrite rd_le_bytes, Z.mod_small; done. Qed.

(** ** Strings as byte sequences *)

Definition byte_of_ascii (a : ascii) : Z := Z.of_N (N_of_ascii a).
Definition ascii_of_byte (b : Z) : ascii := ascii_of_N (Z.to_N b).

Definition string_bytes (s : string) : list Z := map byte_of_ascii (list_ascii_of_string s).
Definition bytes_string (bs : list Z) : string := string_of_list_ascii (map ascii_of_byte bs).

Lemma bytes_string_bytes s : bytes_string (string_bytes s) = s.
Proof.
  unfold bytes_string, string_bytes. rewrite map_map.
  rewrite (map_ext _ id).
  - rewrite map_id. apply string_of_list_ascii_of_string.
  - intros a. unfold ascii_of_byte, byte_of_ascii, id. rewrite N2Z.id. apply ascii_N_embedding.
Qed.

Lemma length_string_bytes s : length (string_bytes s) = String.length s.
Proof. unfold string_bytes. rewrite length_map. induction s; simpl; auto. Qed.

Lemma string_bytes_ok s : bytes_ok (string_bytes s).
Proof.
  unfold bytes_ok, string_bytes. apply Forall_map, Forall_forall. intros a _.
  unfold is_u8, byte_of_ascii. simpl. pose proof (N_ascii_bounded a). lia.
Qed.

(** A string with a 16-bit length prefix, the string format of the log, of
    the checkpoint and of the dictionary segments.  The length is truncated to
    16 bits by the cast, the bytes are not. *)
Definition str16 (s : string) : list Z :=
  le_bytes 2 (Z.of_nat (String.length s)) ++ string_bytes s.

Definition rd_str16 : reader string := fun bs =>
  '(len, bs) ← rd_le 2 bs;
  '(b, bs) ← rd_bytes (Z.to_nat len) bs;
  Ok (bytes_string b, bs).

Lemma codec_str16 : codec (fun s => (Z.of_nat (String.length s) < 2 ^ 16)%Z) str16 rd_str16.
Proof.
  intros s rest Hs. unfold rd_str16, str16. rewrite <- app_assoc, rd_le_bytes. simpl.
  rewrite Z.mod_small, Nat2Z.id by lia.
  rewrite <- length_string_bytes, rd_bytes_app. simpl. by rewrite bytes_string_bytes.
Qed.

(** ** Doubles

    A [double] is its 64-bit object representation, which is what [memcpy]
    moves; comparisons decode it to the IEEE 754 value. *)

Definition f64_to_SF (bits : Z) : spec_float :=
  let s := Z.testbit bits 63 in
  let e := Z.land (Z.shiftr bits 52) 2047 in
  let m := Z.land bits (2 ^ 52 - 1) in
  if (e =? 0)%Z then
    match m with
    | Zpos p => S754_finite s p (-1074)
    | _ => S754_zero s
    end
  else if (e =? 2047)%Z then
    if (m =? 0)%Z then S754_infinity s else S754_nan
  else
    match (m + 2 ^ 52)%Z with
    | Zpos p => S754_finite s p (e - 1075)
    | _ => S754_zero s
    end.

Definition f64_ltb (a b : Z) : bool := SFltb (f64_to_SF a) (f64_to_SF b).
Definition f64_eqb (a b : Z) : bool := SFeqb (f64_to_SF a) (f64_to_SF b).

(** ** List helpers *)

(** The [count] elements of [l] from position [start] on. *)
Definition slice {A} (start count : nat) (l : list A) : list A := take count (drop start l).

Lemma length_slice {A} start count (l : list A) :
  start + count <= length l -> length (slice start count l) = count.
Proof. intros H. unfold slice. rewrite length_take, length_drop. lia. Qed.

Lemma lookup_slice {A} start count (l : list A) i :
  i < count -> slice start count l !! i = l !! (start + i).
Proof. intros H. unfold slice. by rewrite lookup_take_lt, lookup_drop. Qed.

Lemma slice_app {A} start c1 c2 (l : list A) :
  slice start (c1 + c2) l = slice start c1 l ++ slice (start + c1) c2 l.
Proof. unfold slice. by rewrite <- drop_drop, take_take_drop. Qed.

Lemma slice_all {A} (l : list A) : slice 0 (length l) l = l.
Proof. unfold slice. rewrite drop_0. apply take_ge. lia. Qed.

Lemma Forall2_impl_in {A B} (P Q : A -> B -> Prop) l k :
  Forall2 P l k -> (forall x y, x ∈ l -> P x y -> Q x y) -> Forall2 Q l k.
Proof.
  induction 1 as [|x y l k Hxy _ IH]; intros HPQ; constructor.
  - apply HPQ; [by left|done].
  - apply IH. intros x' y' Hin. apply HPQ. by right.
Qed.

(** [std::vector::resize(n, d)]: truncates or pads. *)
Definition vec_resize {A} (n : nat) (d : A) (l : list A) : list A :=
  take n l ++ replicate (n - length l) d.

Lemma length_vec_resize {A} n (d : A) l : length (vec_resize n d l) = n.
Proof. unfold vec_resize. rewrite length_app, length_take, length_replicate. lia. Qed.

Lemma lookup_vec_resize_lt {A} n (d : A) l i :
  i < n -> i < length l -> vec_resize n d l !! i = l !! i.
Proof.
  intros Hn Hl. unfold vec_resize. rewrite lookup_app_l by (rewrite length_take; lia).
  by apply lookup_take_lt.
Qed.

(** [(n + 7) / 8], the bytes that [n] bits take. *)
Lemma div8_up n : n <= 8 * ((n + 7) / 8) < n + 8.
Proof.
  pose proof (Nat.div_mod_eq (n + 7) 8). pose proof (Nat.mod_upper_bound (n + 7) 8). lia.
Qed.

(** [memcpy(dst + pos, bs, n)]: the bytes replace those at [pos]; a copy that
    does not fit the buffer is undefined. *)
Definition write_at {A} (pos : nat) (bs dst : list A) : result (list A) :=
  if decide (pos + length bs <= length dst)
  then Ok (take pos dst ++ bs ++ drop (pos + length bs) dst) else Err UndefinedBehaviour.

Lemma write_at_eq {A} pos (bs dst : list A) :
  pos + length bs <= length dst ->
  write_at pos bs dst = Ok (take pos dst ++ bs ++ drop (pos + length bs) dst).
Proof. intros H. unfold write_at. by rewrite decide_True. Qed.

Lemma write_at_Ok {A} pos (bs dst : list A) :
  pos + length bs <= length dst ->
  exists dst', write_at pos bs dst = Ok dst' /\ length dst' = length dst /\
    (forall i, i < length bs -> dst' !! (pos + i) = bs !! i) /\
    (forall i, i < pos \/ pos + length bs <= i -> dst' !! i = dst !! i).
Proof.
  intros H. unfold write_at. rewrite decide_True by done. eexists; split; [done|].
  assert (length (take pos dst) = pos) as Hp by (rewrite length_take; lia).
  split_and!.
  - rewrite !length_app, length_drop, Hp. lia.
  - intros i Hi. rewrite lookup_app_r by lia. rewrite Hp, lookup_app_l by lia. f_equal. lia.
  - intros i [Hi|Hi].
    + rewrite lookup_app_l by lia. by apply lookup_take_lt.
    + rewrite lookup_app_r, lookup_app_r by lia. rewrite lookup_drop. f_equal. lia.
Qed.

Lemma write_at_Forall {A} (P : A -> Prop) pos (bs dst dst' : list A) :
  write_at pos bs dst = Ok dst' -> Forall P bs -> Forall P dst -> Forall P dst'.
Proof.
  unfold write_at. case_decide; [|done]. intros [= <-] Hb Hd.
  apply Forall_app; split; [by apply Forall_take|].
  apply Forall_app; split; [done|by apply Forall_drop].
Qed.

(** ** Automation *)

#[global] Arguments Nat.div : simpl never.
#[global] Arguments Nat.modulo : simpl never.
#[global] Arguments Z.pow : simpl never.
#[global] Arguments Z.modulo : simpl never.
#[global] Arguments Z.of_nat : simpl never.
#[global] Arguments le_bytes : simpl never.
#[global] Arguments le_val : simpl never.
#[global] Arguments rd_le : simpl never.

Create HintDb coldb.
#[export] Hint Resolve le_bytes_ok string_bytes_ok land_255_range u64_range i64_range : coldb.
#[export] Hint Rewrite @length_le_bytes @length_string_bytes @length_vec_resize
  @length_app @length_map @length_take @length_drop @length_replicate @length_insert : coldb.

(** Case analysis on the matches of a computation in the error monad that
    is known to have succeeded. *)
Ltac inv_ok :=
  repeat match goal with
  | H : (_ ≫= _) = Ok _ |- _ => apply bind_Ok_inv in H; destruct H as (? & ? & H)
  | H : Ok _ = Ok _ |- _ => injection H as H
  | H : Err _ = Ok _ |- _ => discriminate H
  end; simplify_eq/=.

Ltac len := autorewrite with coldb in *; try lia.

#[global] Opaque le_bytes le_val.
