(* ===== verification/Types.v ===== *)
(** * Common types: [src/common/types.hpp], [src/common/types.cpp]

    SQL type identifiers, runtime values, the column vectors ([DataVector])
    and row batches ([DataChunk]) every other component exchanges.  The
    abstract view of a vector is the list of its rows, [dv_rows]; each
    operation of the source is related to a list operation on that view. *)

From Stdlib Require Import ZArith SpecFloat String Ascii.
From stdpp Require Import base gmap strings list fin_maps.
From S2P Require Import Prelude.

(** ** Constants and row identifiers *)

Definition STANDARD_VECTOR_SIZE : nat := 1024.
Definition ROW_GROUP_SIZE : Z := 122880%Z.
Definition INVALID_TRANSACTION : Z := 0%Z.
Definition INVALID_TIMESTAMP : Z := (-1)%Z.

(** A row identifier packs the row group in the upper and the offset in the
    lower 32 bits. *)
Definition MakeRowId (rg offset : Z) : Z := Z.lor (u64 (Z.shiftl rg 32)) offset.
Definition RowIdGroup (r : Z) : Z := u32 (Z.shiftr r 32).
Definition RowIdOffset (r : Z) : Z := u32 r.

(** ** Type identifiers *)

Inductive TypeId : Type :=
  | INVALID | BOOLEAN | INT8 | INT16 | INT32 | INT64 | FLOAT32 | FLOAT64 | VARCHAR.

#[export] Instance TypeId_eq_dec : EqDecision TypeId.
Proof. solve_decision. Defined.

(** The underlying [uint8_t] of the enumeration. *)
Definition TypeId_u8 (t : TypeId) : Z :=
  match t with
  | INVALID => 0 | BOOLEAN => 1 | INT8 => 2 | INT16 => 3 | INT32 => 4
  | INT64 => 5 | FLOAT32 => 6 | FLOAT64 => 7 | VARCHAR => 8
  end%Z.

(** A cast back from a byte; a byte that is no enumerator is reported. *)
Definition TypeId_of_u8 (b : Z) : result TypeId :=
  match b with
  | 0 => Ok INVALID | 1 => Ok BOOLEAN | 2 => Ok INT8 | 3 => Ok INT16 | 4 => Ok INT32
  | 5 => Ok INT64 | 6 => Ok FLOAT32 | 7 => Ok FLOAT64 | 8 => Ok VARCHAR
  | _ => Err UndefinedBehaviour
  end%Z.

Definition TypeSize (t : TypeId) : nat :=
  match t with
  | BOOLEAN => 1 | INT8 => 1 | INT16 => 2 | INT32 => 4 | FLOAT32 => 4
  | INT64 => 8 | FLOAT64 => 8 | VARCHAR => 0 | INVALID => 0
  end.

Definition TypeName (t : TypeId) : string :=
  match t with
  | BOOLEAN => "BOOLEAN" | INT8 => "INT8" | INT16 => "INT16" | INT32 => "INT32"
  | INT64 => "INT64" | FLOAT32 => "FLOAT32" | FLOAT64 => "FLOAT64"
  | VARCHAR => "VARCHAR" | INVALID => "INVALID"
  end.

Definition TypeFromString (s : string) : result TypeId :=
  if String.eqb s "BOOLEAN" then Ok BOOLEAN
  else if String.eqb s "INT8" then Ok INT8
  else if String.eqb s "INT16" then Ok INT16
  else if String.eqb s "INT32" then Ok INT32
  else if String.eqb s "INT64" then Ok INT64
  else if String.eqb s "FLOAT32" then Ok FLOAT32
  else if String.eqb s "FLOAT64" then Ok FLOAT64
  else if String.eqb s "VARCHAR" then Ok VARCHAR
  else Err (RuntimeError ("Unknown type name: " +:+ s)).

(** ** Values *)

(** The alternatives of [std::variant<int64_t, double, bool, std::string>]. *)
Inductive vdata : Type :=
  | VInt (z : Z)
  | VDouble (bits : Z)
  | VBool (b : bool)
  | VStr (s : string).

Record Value : Type := mkValue { vtype : TypeId; data : vdata }.

#[export] Instance vdata_eq_dec : EqDecision vdata.
Proof. solve_decision. Defined.
#[export] Instance Value_eq_dec : EqDecision Value.
Proof. solve_decision. Defined.

Definition Value_Integer (v : Z) : Value := mkValue INT64 (VInt v).
Definition Value_Float (v : Z) : Value := mkValue FLOAT64 (VDouble v).
Definition Value_Boolean (v : bool) : Value := mkValue BOOLEAN (VBool v).
Definition Value_Varchar (v : string) : Value := mkValue VARCHAR (VStr v).

(** [Value::Null(t)] leaves the variant at its default, the integer 0, and
    stores [t] as the type. *)
Definition Value_Null (t : TypeId) : Value := mkValue t (VInt 0%Z).

Definition Value_IsNull (v : Value) : bool := bool_decide (vtype v = INVALID).

(** [std::get<T>(data)]. *)
Definition get_int (d : vdata) : result Z :=
  match d with VInt z => Ok z | _ => Err BadVariantAccess end.
Definition get_double (d : vdata) : result Z :=
  match d with VDouble z => Ok z | _ => Err BadVariantAccess end.
Definition get_bool (d : vdata) : result bool :=
  match d with VBool b => Ok b | _ => Err BadVariantAccess end.
Definition get_str (d : vdata) : result string :=
  match d with VStr s => Ok s | _ => Err BadVariantAccess end.

Definition is_int_type (t : TypeId) : bool :=
  match t with INT8 | INT16 | INT32 | INT64 => true | _ => false end.
Definition is_float_type (t : TypeId) : bool :=
  match t with FLOAT32 | FLOAT64 => true | _ => false end.

Definition GetInt64 (v : Value) : result Z :=
  if negb (is_int_type (vtype v))
  then Err (RuntimeError "Value::GetInt64 called on non-integer type")
  else get_int (data v).
Definition GetFloat64 (v : Value) : result Z :=
  if negb (is_float_type (vtype v))
  then Err (RuntimeError "Value::GetFloat64 called on non-float type")
  else get_double (data v).
Definition GetBool (v : Value) : result bool :=
  if negb (bool_decide (vtype v = BOOLEAN))
  then Err (RuntimeError "Value::GetBool called on non-boolean type")
  else get_bool (data v).
Definition GetVarchar (v : Value) : result string :=
  if negb (bool_decide (vtype v = VARCHAR))
  then Err (RuntimeError "Value::GetVarchar called on non-varchar type")
  else get_str (data v).

(** [Value::operator==] *)
Definition Value_eq (v o : Value) : result bool :=
  if negb (bool_decide (vtype v = vtype o)) then Ok false
  else if Value_IsNull v then Ok false
  else match vtype v with
       | INT8 | INT16 | INT32 | INT64 =>
           a ← get_int (data v); b ← get_int (data o); Ok (Z.eqb a b)
       | FLOAT32 | FLOAT64 =>
           a ← get_double (data v); b ← get_double (data o); Ok (f64_eqb a b)
       | BOOLEAN =>
           a ← get_bool (data v); b ← get_bool (data o); Ok (Bool.eqb a b)
       | VARCHAR =>
           a ← get_str (data v); b ← get_str (data o); Ok (String.eqb a b)
       | INVALID => Ok false
       end.

(** [Value::operator<] *)
Definition Value_lt (v o : Value) : result bool :=
  if negb (bool_decide (vtype v = vtype o)) then Ok false
  else if Value_IsNull v then Ok false
  else match vtype v with
       | INT8 | INT16 | INT32 | INT64 =>
           a ← get_int (data v); b ← get_int (data o); Ok (Z.ltb a b)
       | FLOAT32 | FLOAT64 =>
           a ← get_double (data v); b ← get_double (data o); Ok (f64_ltb a b)
       | BOOLEAN =>
           a ← get_bool (data v); b ← get_bool (data o); Ok (negb a && b)
       | VARCHAR =>
           a ← get_str (data v); b ← get_str (data o); Ok (String.ltb a b)
       | INVALID => Ok false
       end.

(** The variant holds the alternative its type says it holds. *)
Definition Value_wf (v : Value) : Prop :=
  match vtype v, data v with
  | (INT8 | INT16 | INT32 | INT64), VInt _ => True
  | (FLOAT32 | FLOAT64), VDouble _ => True
  | BOOLEAN, VBool _ => True
  | VARCHAR, VStr _ => True
  | INVALID, _ => True
  | _, _ => False
  end.

#[export] Instance Value_wf_dec v : Decision (Value_wf v).
Proof. unfold Value_wf. destruct (vtype v), (data v); apply _. Defined.

(** ** Hashing

    [std::hash] is implementation-defined; its three instances are the
    parameters of everything that hashes. *)
Record Hashes : Type := mkHashes {
  hash_int : Z -> Z;
  hash_double : Z -> Z;
  hash_bool : bool -> Z;
  hash_str : string -> Z;
}.

Definition ValueHash (H : Hashes) (v : Value) : result Z :=
  if Value_IsNull v then Ok 0%Z
  else match vtype v with
       | INT8 | INT16 | INT32 | INT64 => z ← get_int (data v); Ok (hash_int H z)
       | FLOAT32 | FLOAT64 => d ← get_double (data v); Ok (hash_double H d)
       | BOOLEAN => b ← get_bool (data v); Ok (hash_bool H b)
       | VARCHAR => s ← get_str (data v); Ok (hash_str H s)
       | INVALID => Ok 0%Z
       end.

(** ** Column vectors *)

(** Which of the three arrays holds the values of a type. *)
Inductive storage : Type := SInt | SFloat | SStr | SNone.

#[export] Instance storage_eq_dec : EqDecision storage.
Proof. solve_decision. Defined.

Definition storage_of (t : TypeId) : storage :=
  match t with
  | BOOLEAN | INT8 | INT16 | INT32 | INT64 => SInt
  | FLOAT32 | FLOAT64 => SFloat
  | VARCHAR => SStr
  | INVALID => SNone
  end.

(** The 1024-bit [validity] bitset is the integer whose bit [i] is set iff
    row [i] is not NULL. *)
Record DataVector : Type := mkDV {
  dv_type : TypeId;
  dv_count : nat;
  int_data : list Z;
  float_data : list Z;
  str_data : list string;
  validity : Z;
}.

#[export] Instance DataVector_eq_dec : EqDecision DataVector.
Proof. solve_decision. Defined.

Definition DV_default : DataVector := mkDV INVALID 0 [] [] [] 0%Z.

Definition with_count (n : nat) (v : DataVector) : DataVector :=
  mkDV (dv_type v) n (int_data v) (float_data v) (str_data v) (validity v).
Definition with_validity (b : Z) (v : DataVector) : DataVector :=
  mkDV (dv_type v) (dv_count v) (int_data v) (float_data v) (str_data v) b.
Definition with_int (l : list Z) (v : DataVector) : DataVector :=
  mkDV (dv_type v) (dv_count v) l (float_data v) (str_data v) (validity v).
Definition with_float (l : list Z) (v : DataVector) : DataVector :=
  mkDV (dv_type v) (dv_count v) (int_data v) l (str_data v) (validity v).
Definition with_str (l : list string) (v : DataVector) : DataVector :=
  mkDV (dv_type v) (dv_count v) (int_data v) (float_data v) l (validity v).

(** [std::bitset::set] and [reset] check their position. *)
Definition bitset_set (b : Z) (i : nat) : result Z :=
  if decide (i < STANDARD_VECTOR_SIZE) then Ok (Z.setbit b (Z.of_nat i)) else Err StdOutOfRange.
Definition bitset_reset (b : Z) (i : nat) : result Z :=
  if decide (i < STANDARD_VECTOR_SIZE) then Ok (Z.clearbit b (Z.of_nat i)) else Err StdOutOfRange.

(** [validity[i]] is not checked: behind the last bit of the [std::bitset] it is
    undefined, and the definition answers true there.  The program asks for rows
    below the count of a vector only, which [dv_wf] bounds by
    [STANDARD_VECTOR_SIZE]. *)
Definition IsNull (v : DataVector) (i : nat) : bool := negb (Z.testbit (validity v) (Z.of_nat i)).

Definition SetNull (v : DataVector) (i : nat) : result DataVector :=
  b ← bitset_reset (validity v) i; Ok (with_validity b v).
Definition SetValid (v : DataVector) (i : nat) : result DataVector :=
  b ← bitset_set (validity v) i; Ok (with_validity b v).

(** [DataVector::Reset] *)
Definition Reset (t : TypeId) (n : nat) : DataVector :=
  match storage_of t with
  | SInt => mkDV t n (replicate n 0%Z) [] [] 0%Z
  | SFloat => mkDV t n [] (replicate n 0%Z) [] 0%Z
  | SStr => mkDV t n [] [] (replicate n ""%string) 0%Z
  | SNone => mkDV t n [] [] [] 0%Z
  end.

(** An operation on the array that the switch on type [t] selects, with the
    element the source pads with; the other arrays are untouched. *)
Definition on_storage (t : TypeId) (op : forall A, A -> list A -> list A -> result (list A))
    (dst src : DataVector) : result DataVector :=
  match storage_of t with
  | SInt => l ← op Z 0%Z (int_data dst) (int_data src); Ok (with_int l dst)
  | SFloat => l ← op Z 0%Z (float_data dst) (float_data src); Ok (with_float l dst)
  | SStr => l ← op string ""%string (str_data dst) (str_data src); Ok (with_str l dst)
  | SNone => Ok dst
  end.

(** [if (dst.size() <= i) dst.resize(i + 1, d); dst[i] = src[si];] *)
Definition store_at (i si : nat) (A : Type) (d : A) (dst src : list A) : result (list A) :=
  x ← of_option UndefinedBehaviour (src !! si);
  Ok (<[i := x]> (if decide (length dst <= i) then vec_resize (S i) d dst else dst)).

Definition DataVectorAppend (dst src : DataVector) (src_idx : nat) : result DataVector :=
  let dst_idx := dv_count dst in
  let dst := with_count (S dst_idx) dst in
  if IsNull src src_idx then SetNull dst dst_idx
  else dst ← SetValid dst dst_idx;
       on_storage (dv_type dst) (store_at dst_idx src_idx) dst src.

(** [DataVectorFill(vec, val, count)]; the [BOOLEAN] case shares the integer
    branch of the source, which reads the variant as an integer. *)
Definition DataVectorFill (val : Value) (count : nat) : result DataVector :=
  let vec := Reset (vtype val) count in
  if Value_IsNull val then Ok vec
  else vec ← foldM SetValid vec (seq 0 count);
       match storage_of (vtype val) with
       | SInt => z ← get_int (data val); Ok (with_int (replicate count z) vec)
       | SFloat => d ← get_double (data val); Ok (with_float (replicate count d) vec)
       | SStr => s ← get_str (data val); Ok (with_str (replicate count s) vec)
       | SNone => Ok vec
       end.

Definition DataVectorAppendValue (dst : DataVector) (val : Value) : result DataVector :=
  let i := dv_count dst in
  let dst := with_count (S i) dst in
  if Value_IsNull val then SetNull dst i
  else dst ← SetValid dst i;
       match dv_type dst with
       | BOOLEAN =>
           b ← get_bool (data val);
           on_storage BOOLEAN (store_at i 0) dst (with_int [if b : bool then 1%Z else 0%Z] dst)
       | INT8 | INT16 | INT32 | INT64 =>
           z ← get_int (data val);
           on_storage INT64 (store_at i 0) dst (with_int [z] dst)
       | FLOAT32 | FLOAT64 =>
           d ← get_double (data val);
           on_storage FLOAT64 (store_at i 0) dst (with_float [d] dst)
       | VARCHAR =>
           s ← get_str (data val);
           on_storage VARCHAR (store_at i 0) dst (with_str [s] dst)
       | INVALID => SetNull dst i
       end.

(** ** Row batches *)

Record DataChunk : Type := mkChunk { columns : list DataVector; ch_count : nat }.

#[export] Instance DataChunk_eq_dec : EqDecision DataChunk.
Proof. solve_decision. Defined.

Definition Chunk_Reset (c : DataChunk) : DataChunk :=
  mkChunk ((fun col => Reset (dv_type col) 0) <$> columns c) 0.
Definition Initialize (types : list TypeId) : DataChunk :=
  mkChunk ((fun t => Reset t 0) <$> types) 0.
Definition ColumnCount (c : DataChunk) : nat := length (columns c).
Definition col_types (c : DataChunk) : list TypeId := dv_type <$> columns c.

(** [resize(n, d)] of the array a type uses, the pre-allocation of the
    slicing and probing loops. *)
Definition presize (n : nat) (v : DataVector) : DataVector :=
  match storage_of (dv_type v) with
  | SInt => with_int (vec_resize n 0%Z (int_data v)) v
  | SFloat => with_float (vec_resize n 0%Z (float_data v)) v
  | SStr => with_str (vec_resize n ""%string (str_data v)) v
  | SNone => v
  end.

(** One column of [DataChunkSlice]. *)
Definition slice_column (idx : list nat) (src : DataVector) : result DataVector :=
  foldM (fun dst i => DataVectorAppend dst src i)
        (presize (length idx) (Reset (dv_type src) 0)) idx.

Definition DataChunkSlice (src : DataChunk) (idx : list nat) : result DataChunk :=
  cols ← mapM_r (slice_column idx) (columns src);
  Ok (mkChunk cols (length idx)).

(** ** The abstract view of a vector *)

Inductive cell : Type := CInt (z : Z) | CFloat (bits : Z) | CStr (s : string).

#[export] Instance cell_eq_dec : EqDecision cell.
Proof. solve_decision. Defined.

(** The array that holds the values of the vector's type. *)
Definition cells (v : DataVector) : list cell :=
  match storage_of (dv_type v) with
  | SInt => CInt <$> int_data v
  | SFloat => CFloat <$> float_data v
  | SStr => CStr <$> str_data v
  | SNone => []
  end.

(** Row [i]: [None] is SQL NULL. *)
Definition dv_row (v : DataVector) (i : nat) : option cell :=
  if IsNull v i then None else cells v !! i.

Definition dv_rows (v : DataVector) : list (option cell) := dv_row v <$> seq 0 (dv_count v).

(** Well-formed: within the batch size, no validity bit at or above [count],
    and every row that is not NULL has a value in the array of its type. *)
Record dv_wf (v : DataVector) : Prop := mk_dv_wf {
  wf_storage : storage_of (dv_type v) <> SNone;
  wf_count : dv_count v <= STANDARD_VECTOR_SIZE;
  wf_clear : forall i, dv_count v <= i -> IsNull v i = true;
  wf_cells : forall i, IsNull v i = false -> i < length (cells v);
}.

(** The array covers every row, NULL or not: what a bulk copy may read. *)
Definition dv_full (v : DataVector) : Prop := dv_count v <= length (cells v).

Lemma length_dv_rows v : length (dv_rows v) = dv_count v.
Proof. unfold dv_rows. by rewrite length_fmap, length_seq. Qed.

Lemma lookup_dv_rows v i : i < dv_count v -> dv_rows v !! i = Some (dv_row v i).
Proof. intros H. unfold dv_rows. by rewrite list_lookup_fmap, lookup_seq_lt. Qed.

#[export] Hint Rewrite length_dv_rows : coldb.

(** Two vectors have the same rows when they agree row by row. *)
Lemma dv_rows_ext v rows :
  dv_count v = length rows ->
  (forall i, i < length rows -> rows !! i = Some (dv_row v i)) ->
  dv_rows v = rows.
Proof.
  intros Hc H. apply list_eq_same_length with (n := length rows); [done| by len |].
  intros i x y Hi Hx Hy. rewrite lookup_dv_rows in Hx by lia. rewrite H in Hy by done.
  congruence.
Qed.

Lemma IsNull_with_count n v i : IsNull (with_count n v) i = IsNull v i.
Proof. done. Qed.

Lemma IsNull_validity b v i : IsNull (with_validity b v) i = negb (Z.testbit b (Z.of_nat i)).
Proof. done. Qed.

Lemma testbit_setbit_nat b i j :
  Z.testbit (Z.setbit b (Z.of_nat i)) (Z.of_nat j) =
  (bool_decide (i = j) || Z.testbit b (Z.of_nat j))%bool.
Proof.
  rewrite Z.setbit_eqb by lia. f_equal.
  destruct (Z.eqb_spec (Z.of_nat i) (Z.of_nat j)), (decide (i = j)); simpl; try lia;
    rewrite ?bool_decide_true, ?bool_decide_false by done; done.
Qed.

Lemma testbit_clearbit_nat b i j :
  Z.testbit (Z.clearbit b (Z.of_nat i)) (Z.of_nat j) =
  (Z.testbit b (Z.of_nat j) && negb (bool_decide (i = j)))%bool.
Proof.
  rewrite Z.clearbit_eqb. f_equal. f_equal.
  destruct (Z.eqb_spec (Z.of_nat i) (Z.of_nat j)), (decide (i = j)); simpl; try lia;
    rewrite ?bool_decide_true, ?bool_decide_false by done; done.
Qed.

Lemma SetNull_Ok v i :
  i < STANDARD_VECTOR_SIZE ->
  exists v', SetNull v i = Ok v' /\ cells v' = cells v /\ dv_type v' = dv_type v /\
    dv_count v' = dv_count v /\
    forall j, IsNull v' j = bool_decide (i = j) || IsNull v j.
Proof.
  intros Hi. unfold SetNull, bitset_reset. rewrite decide_True by done. simpl.
  eexists; split; [done|]. repeat split; try done.
  intros j. rewrite IsNull_validity, testbit_clearbit_nat. unfold IsNull.
  destruct (Z.testbit (validity v) (Z.of_nat j)), (bool_decide (i = j)); done.
Qed.

Lemma SetValid_Ok v i :
  i < STANDARD_VECTOR_SIZE ->
  exists v', SetValid v i = Ok v' /\ cells v' = cells v /\ dv_type v' = dv_type v /\
    dv_count v' = dv_count v /\
    forall j, IsNull v' j = negb (bool_decide (i = j)) && IsNull v j.
Proof.
  intros Hi. unfold SetValid, bitset_set. rewrite decide_True by done. simpl.
  eexists; split; [done|]. repeat split; try done.
  intros j. rewrite IsNull_validity, testbit_setbit_nat. unfold IsNull.
  destruct (Z.testbit (validity v) (Z.of_nat j)), (bool_decide (i = j)); done.
Qed.

(** What an array operation does to the abstract array.  [P] relates the
    destination, the source and the outcome of [op] on every element type. *)
Lemma on_storage_Ok (P : list cell -> list cell -> list cell -> Prop) op t dst src :
  storage_of t = storage_of (dv_type dst) ->
  storage_of (dv_type src) = storage_of (dv_type dst) ->
  storage_of (dv_type dst) <> SNone ->
  (forall A (d : A) (f : A -> cell) (a b : list A),
     f <$> a = cells dst -> f <$> b = cells src ->
     exists c, op A d a b = Ok c /\ P (f <$> a) (f <$> b) (f <$> c)) ->
  exists dst', on_storage t op dst src = Ok dst' /\
    P (cells dst) (cells src) (cells dst') /\
    dv_type dst' = dv_type dst /\ dv_count dst' = dv_count dst /\ validity dst' = validity dst.
Proof.
  unfold on_storage, cells. intros -> Hs Hn Hop. rewrite Hs in *.
  destruct (storage_of (dv_type dst)) eqn:E; [| | |done];
    match goal with
    | |- context [op _ ?d ?a ?b] =>
        edestruct (Hop _ d _ a b eq_refl eq_refl) as (c & Hc & HP)
    end;
    rewrite Hc; simpl; eexists; split_and!; try done; simpl; rewrite E; done.
Qed.

Lemma store_at_Ok A (d : A) i si (dst src : list A) :
  si < length src ->
  exists l, store_at i si A d dst src = Ok l /\
    length l = Nat.max (length dst) (S i) /\
    l !! i = src !! si /\
    forall j, j < length dst -> j <> i -> l !! j = dst !! j.
Proof.
  intros H. unfold store_at. destruct (lookup_lt_is_Some_2 src si H) as [x Hx].
  rewrite Hx. simpl. eexists; split; [done|].
  destruct (decide (length dst <= i)); len.
  - split; [lia|]. split; [rewrite list_lookup_insert_eq; [done|len] |].
    intros j Hj Hji. rewrite list_lookup_insert_ne by done.
    apply lookup_vec_resize_lt; lia.
  - split; [lia|]. split; [rewrite list_lookup_insert_eq; [done|lia] |].
    intros j Hj Hji. by rewrite list_lookup_insert_ne.
Qed.

(** The rows after an append that left the earlier rows alone. *)
Lemma dv_rows_snoc v v' r :
  dv_count v' = S (dv_count v) ->
  (forall j, j < dv_count v -> dv_row v' j = dv_row v j) ->
  dv_row v' (dv_count v) = r ->
  dv_rows v' = dv_rows v ++ [r].
Proof.
  intros Hc Hold Hnew. apply dv_rows_ext; rewrite ?Hc, length_app; simpl; [len|].
  intros j Hj. rewrite length_dv_rows in Hj. destruct (decide (j = dv_count v)) as [->|].
  - rewrite lookup_app_r by len. rewrite length_dv_rows, Nat.sub_diag. simpl. by rewrite Hnew.
  - rewrite lookup_app_l by len. rewrite lookup_dv_rows by lia. by rewrite Hold by lia.
Qed.

(** What appending the row [r] to [dst] gives. *)
Definition appended (dst dst' : DataVector) (r : option cell) : Prop :=
  dv_wf dst' /\ dv_type dst' = dv_type dst /\
  length (cells dst) <= length (cells dst') /\
  dv_rows dst' = dv_rows dst ++ [r].

Lemma append_null_rows dst :
  dv_wf dst -> dv_count dst < STANDARD_VECTOR_SIZE ->
  exists dst', SetNull (with_count (S (dv_count dst)) dst) (dv_count dst) = Ok dst' /\
    appended dst dst' None.
Proof.
  intros [Hst Hc Hcl Hce] Hlt.
  destruct (SetNull_Ok (with_count (S (dv_count dst)) dst) (dv_count dst) Hlt)
    as (v & Hv & Hcells & Ht & Hcnt & Hnull).
  change (cells (with_count _ dst)) with (cells dst) in Hcells. simpl in Hcnt, Ht.
  setoid_rewrite IsNull_with_count in Hnull.
  exists v. split; [done|]. split_and!; [|done|by rewrite Hcells|].
  - split; rewrite ?Ht, ?Hcnt, ?Hcells; [done|lia| |].
    + intros j Hj. by rewrite Hnull, Hcl, orb_true_r by lia.
    + intros j. rewrite Hnull. intros [_ ?]%orb_false_iff. auto.
  - apply dv_rows_snoc; [done| |].
    + intros j Hj. unfold dv_row. by rewrite Hnull, bool_decide_false, Hcells by lia.
    + unfold dv_row. by rewrite Hnull, bool_decide_true.
Qed.

(** Marking the new row valid and storing a value read at [i] of [src]. *)
Lemma append_value_rows dst src i t :
  dv_wf dst -> dv_count dst < STANDARD_VECTOR_SIZE ->
  storage_of t = storage_of (dv_type dst) ->
  storage_of (dv_type src) = storage_of (dv_type dst) ->
  i < length (cells src) ->
  exists dst',
    (v ← SetValid (with_count (S (dv_count dst)) dst) (dv_count dst);
     on_storage t (store_at (dv_count dst) i) v src) = Ok dst' /\
    appended dst dst' (cells src !! i).
Proof.
  intros [Hst Hc Hcl Hce] Hlt Htt Hs Hi.
  destruct (SetValid_Ok (with_count (S (dv_count dst)) dst) (dv_count dst) Hlt)
    as (v & Hv & Hcells & Ht & Hcnt & Hnull).
  change (cells (with_count _ dst)) with (cells dst) in Hcells. simpl in Hcnt, Ht.
  setoid_rewrite IsNull_with_count in Hnull. rewrite Hv. simpl.
  destruct (on_storage_Ok (fun a b c =>
      length c = Nat.max (length a) (S (dv_count dst)) /\
      c !! dv_count dst = b !! i /\
      forall j, j < length a -> j <> dv_count dst -> c !! j = a !! j)
      (store_at (dv_count dst) i) t v src)
    as (w & Hw & (Hlen & Hat & Hother) & Hwt & Hwc & Hwv); [congruence..| |].
  { intros A d f a b Ha Hb.
    destruct (store_at_Ok A d (dv_count dst) i a b) as (l & Hl & Hll & Hli & Hlo).
    - by rewrite <- Hb, length_fmap in Hi.
    - exists l. rewrite !length_fmap. setoid_rewrite list_lookup_fmap.
      split_and!; [done|done|by rewrite Hli|]. intros j Hj Hne. by rewrite Hlo. }
  rewrite Hcells in *.
  assert (forall j, IsNull w j = negb (bool_decide (dv_count dst = j)) && IsNull dst j) as HN
    by (intros; unfold IsNull at 1; rewrite Hwv; apply Hnull).
  exists w. split; [done|]. split_and!; [| congruence | lia |].
  - split; rewrite ?Hwt, ?Hwc, ?Ht, ?Hcnt; [done|lia| |].
    + intros j Hj. by rewrite HN, Hcl, bool_decide_false by lia.
    + intros j. rewrite HN, Hlen. destruct (decide (dv_count dst = j)) as [->|]; [lia|].
      rewrite bool_decide_false by done. intros Hj. apply Hce in Hj. lia.
  - apply dv_rows_snoc; [congruence| |]; unfold dv_row.
    + intros j Hj. rewrite HN, bool_decide_false by lia. simpl.
      destruct (IsNull dst j) eqn:E; [done|]. apply Hother; [auto|lia].
    + by rewrite HN, bool_decide_true.
Qed.

(** [DataVectorAppend] appends one row to the abstract list of rows. *)
Lemma DataVectorAppend_rows dst src i :
  dv_wf dst -> dv_count dst < STANDARD_VECTOR_SIZE ->
  storage_of (dv_type src) = storage_of (dv_type dst) ->
  (IsNull src i = false -> i < length (cells src)) ->
  exists dst', DataVectorAppend dst src i = Ok dst' /\ appended dst dst' (dv_row src i).
Proof.
  intros Hwf Hlt Hs Hi. unfold DataVectorAppend, dv_row. destruct (IsNull src i) eqn:Hn.
  - by apply append_null_rows.
  - destruct (append_value_rows dst src i (dv_type dst)) as (w & Hw & Happ); auto.
    exists w. split; [|done]. rewrite <- Hw.
    unfold SetValid. simpl. by destruct (bitset_set _ _).
Qed.

Lemma Reset0_wf t : storage_of t <> SNone -> dv_wf (Reset t 0) /\ dv_type (Reset t 0) = t.
Proof.
  intros H. unfold Reset. destruct (storage_of t) eqn:E; try done.
  all: split; [|done]; split; simpl; try (rewrite E; congruence); try lia.
  all: intros i; unfold IsNull; simpl; by rewrite Z.bits_0.
Qed.

Lemma dv_rows_Reset0 t : dv_rows (Reset t 0) = [].
Proof. unfold dv_rows, Reset. by destruct (storage_of t). Qed.

Lemma presize_spec n v :
  dv_wf v -> dv_count v <= n -> length (cells v) <= n ->
  dv_wf (presize n v) /\ dv_type (presize n v) = dv_type v /\
  dv_rows (presize n v) = dv_rows v /\ length (cells (presize n v)) = n.
Proof.
  intros [Hst Hc Hcl Hce] Hn Hle.
  assert (dv_type (presize n v) = dv_type v /\ dv_count (presize n v) = dv_count v /\
          validity (presize n v) = validity v /\ length (cells (presize n v)) = n /\
          forall i, i < length (cells v) -> cells (presize n v) !! i = cells v !! i)
    as (Ht & Hcnt & Hval & Hlen & Hlk).
  { unfold presize, cells in *. destruct (storage_of (dv_type v)) eqn:E; [| | |done].
    all: simpl; rewrite ?E, ?length_fmap, ?length_vec_resize in *.
    all: split_and!; try done; intros i Hi; rewrite !list_lookup_fmap; f_equal.
    all: apply lookup_vec_resize_lt; lia. }
  assert (forall i, IsNull (presize n v) i = IsNull v i) as HN
    by (intros; unfold IsNull; by rewrite Hval).
  split_and!; [|done| |done].
  - split; rewrite ?Ht, ?Hcnt, ?Hlen; [done|done| |].
    + intros i Hi. rewrite HN. auto.
    + intros i. rewrite HN. intros Hi. apply Hce in Hi. lia.
  - apply dv_rows_ext; [by rewrite length_dv_rows|]. intros i Hi. rewrite length_dv_rows in Hi.
    rewrite lookup_dv_rows by done. f_equal. unfold dv_row. rewrite HN.
    destruct (IsNull v i) eqn:E; [done|]. symmetry. auto.
Qed.

(** A vector can be read at row [i]. *)
Definition dv_readable (v : DataVector) (i : nat) : Prop :=
  IsNull v i = false -> i < length (cells v).

Lemma dv_wf_readable v i : dv_wf v -> dv_readable v i.
Proof. intros [_ _ _ H]. exact (H i). Qed.

(** The appending loop over a list of source rows. *)
Lemma append_loop_rows src idx dst :
  dv_wf dst -> storage_of (dv_type src) = storage_of (dv_type dst) ->
  Forall (dv_readable src) idx ->
  dv_count dst + length idx <= STANDARD_VECTOR_SIZE ->
  exists dst', foldM (fun d i => DataVectorAppend d src i) dst idx = Ok dst' /\
    dv_wf dst' /\ dv_type dst' = dv_type dst /\ length (cells dst) <= length (cells dst') /\
    dv_rows dst' = dv_rows dst ++ (dv_row src <$> idx).
Proof.
  revert dst; induction idx as [|i idx IH]; intros dst Hwf Hs Hr Hlen; simpl.
  - exists dst. rewrite app_nil_r. done.
  - apply Forall_cons in Hr as [Hi Hr]. simpl in Hlen.
    destruct (DataVectorAppend_rows dst src i) as (d1 & Hd1 & Hwf1 & Ht1 & Hl1 & Hrows1);
      [done|lia|done|done|].
    assert (dv_count d1 = S (dv_count dst)) as Hc1.
    { rewrite <- !length_dv_rows, Hrows1, length_app. simpl. lia. }
    rewrite Hd1. simpl.
    destruct (IH d1) as (d2 & Hd2 & Hwf2 & Ht2 & Hl2 & Hrows2); [done|congruence|done|lia|].
    exists d2. split_and!; [done|done|congruence|lia|].
    by rewrite Hrows2, Hrows1, <- app_assoc.
Qed.

(** One column of a slice holds the selected rows in the given order, and its
    array covers all of them. *)
Lemma slice_column_rows idx src :
  dv_wf src -> Forall (dv_readable src) idx -> length idx <= STANDARD_VECTOR_SIZE ->
  exists v, slice_column idx src = Ok v /\ dv_wf v /\ dv_full v /\
    dv_type v = dv_type src /\ dv_rows v = dv_row src <$> idx.
Proof.
  intros Hwf Hr Hlen. pose proof (wf_storage _ Hwf) as Hst.
  destruct (Reset0_wf (dv_type src) Hst) as [Hw0 Ht0].
  assert (cells (Reset (dv_type src) 0) = []) as Hc0
    by (unfold cells, Reset; destruct (storage_of (dv_type src)) eqn:E; simpl; by rewrite E).
  destruct (presize_spec (length idx) (Reset (dv_type src) 0)) as (Hw1 & Ht1 & Hr1 & Hl1);
    [done| unfold Reset; destruct (storage_of _); simpl; lia | rewrite Hc0; simpl; lia |].
  rewrite dv_rows_Reset0 in Hr1.
  destruct (append_loop_rows src idx (presize (length idx) (Reset (dv_type src) 0)))
    as (d & Hd & Hwd & Htd & Hld & Hrd);
    [done | by rewrite Ht1, Ht0 | done | rewrite <- length_dv_rows, Hr1; simpl; lia |].
  rewrite Hr1, app_nil_l in Hrd. exists d. split_and!; [done|done| |congruence|done].
  unfold dv_full. apply (f_equal length) in Hrd. len.
Qed.

(** ** The values of an order: [Value::operator<] on well-formed values *)

(** The comparison the source performs once both alternatives are known. *)
Definition vdata_ltb (a b : vdata) : bool :=
  match a, b with
  | VInt x, VInt y => Z.ltb x y
  | VDouble x, VDouble y => f64_ltb x y
  | VBool x, VBool y => negb x && y
  | VStr x, VStr y => String.ltb x y
  | _, _ => false
  end.
Definition Value_ltb (v o : Value) : bool :=
  bool_decide (vtype v = vtype o) && negb (Value_IsNull v) && vdata_ltb (data v) (data o).

Lemma Value_lt_wf v o : Value_wf v -> Value_wf o -> Value_lt v o = Ok (Value_ltb v o).
Proof.
  unfold Value_wf, Value_lt, Value_ltb, Value_IsNull.
  destruct v as [t d], o as [t' d']; simpl. intros Hv Ho.
  destruct (decide (t = t')) as [<-|]; [|by rewrite bool_decide_false].
  rewrite bool_decide_true by done. simpl.
  destruct t, d; try done; destruct d'; done.
Qed.

Definition vdata_eqb (a b : vdata) : bool :=
  match a, b with
  | VInt x, VInt y => Z.eqb x y
  | VDouble x, VDouble y => f64_eqb x y
  | VBool x, VBool y => Bool.eqb x y
  | VStr x, VStr y => String.eqb x y
  | _, _ => false
  end.
Definition Value_eqb (v o : Value) : bool :=
  bool_decide (vtype v = vtype o) && negb (Value_IsNull v) && vdata_eqb (data v) (data o).

Lemma Value_eq_wf v o : Value_wf v -> Value_wf o -> Value_eq v o = Ok (Value_eqb v o).
Proof.
  unfold Value_wf, Value_eq, Value_eqb, Value_IsNull.
  destruct v as [t d], o as [t' d']; simpl. intros Hv Ho.
  destruct (decide (t = t')) as [<-|]; [|by rewrite bool_decide_false].
  rewrite bool_decide_true by done. simpl.
  destruct t, d; try done; destruct d'; done.
Qed.

Lemma string_ltb_lt a b : String.ltb a b = true <-> String.compare a b = Lt.
Proof. unfold String.ltb. destruct (String.compare a b); split; congruence. Qed.

(** Case analysis of the comparisons inside [SFcompare]. *)
Ltac sf_cases :=
  repeat match goal with
    | H : context [Z.compare ?a ?b] |- _ => destruct (Z.compare_spec a b); try discriminate H
    end; subst;
  repeat match goal with |- context [Z.compare ?a ?b] => destruct (Z.compare_spec a b) end;
    try lia; try done;
  unfold CompOpp in *;
  repeat match goal with
    | H : context [Pcompare ?a ?b Eq] |- _ =>
        change (Pcompare a b Eq) with (Pos.compare a b) in H;
        destruct (Pos.compare_spec a b); try discriminate H
    end; subst;
  repeat match goal with
    | |- context [Pcompare ?a ?b Eq] =>
        change (Pcompare a b Eq) with (Pos.compare a b); destruct (Pos.compare_spec a b)
    end; try lia; try done.

Lemma SFltb_trans x y z : SFltb x y = true -> SFltb y z = true -> SFltb x z = true.
Proof.
  destruct x as [sx|sx| |sx mx ex], y as [sy|sy| |sy my ey], z as [sz|sz| |sz mz ez];
    try destruct sx; try destruct sy; try destruct sz; try done.
  all: unfold SFltb, SFcompare; intros H1 H2.
  all: sf_cases.
Qed.

(** NaN apart, whatever lies strictly between two values is above the one or
    below the other. *)
Lemma SFltb_cotrans x y z :
  y <> S754_nan -> SFltb x z = true -> SFltb x y = true \/ SFltb y z = true.
Proof.
  intros Hy. destruct x as [sx|sx| |sx mx ex], y as [sy|sy| |sy my ey], z as [sz|sz| |sz mz ez];
    try destruct sx; try destruct sy; try destruct sz; try done; try (by left); try (by right).
  all: unfold SFltb, SFcompare; intros H1.
  all: sf_cases; auto.
Qed.

Lemma SFeqb_ltb x y z : SFeqb x y = true -> SFltb x z = SFltb y z /\ SFltb z x = SFltb z y.
Proof.
  destruct x as [sx|sx| |sx mx ex], y as [sy|sy| |sy my ey];
    try destruct sx; try destruct sy; try done.
  all: unfold SFeqb, SFltb, SFcompare; intros H1.
  all: sf_cases; destruct z as [sz|sz| |sz mz ez]; try destruct sz; try done.
Qed.

Lemma SFeqb_congr x y z : SFeqb x y = true -> SFeqb x z = SFeqb y z.
Proof.
  destruct x as [sx|sx| |sx mx ex], y as [sy|sy| |sy my ey];
    try destruct sx; try destruct sy; try done.
  all: unfold SFeqb, SFcompare; intros H1.
  all: sf_cases; destruct z as [sz|sz| |sz mz ez]; try destruct sz; try done.
Qed.

Lemma SFltb_irrefl x : SFltb x x = false.
Proof.
  destruct x as [s|s| |s m e]; try done; destruct s; try done;
    unfold SFltb, SFcompare; rewrite Z.compare_refl;
    change (Pcompare m m Eq) with (Pos.compare m m); by rewrite Pos.compare_refl.
Qed.

Lemma string_compare_refl s : String.compare s s = Eq.
Proof. induction s; simpl; [done|]. unfold Ascii.compare. by rewrite N.compare_refl. Qed.

(** [<] is a strict order on values of one type, NaN included (NaN compares
    below and above nothing). *)
Lemma Value_ltb_irrefl v : Value_ltb v v = false.
Proof.
  unfold Value_ltb. destruct v as [t d]; simpl. rewrite bool_decide_true by done. simpl.
  apply andb_false_iff. right. destruct d as [z|b|[]|s]; simpl.
  - apply Z.ltb_irrefl.
  - apply SFltb_irrefl.
  - done.
  - done.
  - apply not_true_is_false. rewrite string_ltb_lt. intros H.
    rewrite string_compare_refl in H. discriminate.
Qed.

Lemma string_ltb_trans a b c :
  String.ltb a b = true -> String.ltb b c = true -> String.ltb a c = true.
Proof.
  rewrite !string_ltb_lt. revert b c; induction a as [|x a IH]; intros [|y b] [|z c]; simpl; try done.
  unfold Ascii.compare. intros H1 H2.
  destruct (N.compare_spec (N_of_ascii x) (N_of_ascii y)) as [Exy| |]; try done;
  destruct (N.compare_spec (N_of_ascii y) (N_of_ascii z)) as [Eyz| |]; try done;
  destruct (N.compare_spec (N_of_ascii x) (N_of_ascii z)); try lia; try done.
  eauto.
Qed.

Lemma Value_ltb_trans a b c :
  Value_ltb a b = true -> Value_ltb b c = true -> Value_ltb a c = true.
Proof.
  unfold Value_ltb, Value_IsNull. destruct a as [ta da], b as [tb db], c as [tc dc]; simpl.
  rewrite !andb_true_iff, !bool_decide_eq_true, !negb_true_iff, !bool_decide_eq_false.
  intros [[-> Hn] H1] [[-> _] H2]. split_and!; try done.
  destruct da, db, dc; simpl in *; try done.
  - lia.
  - unfold f64_ltb in *. eauto using SFltb_trans.
  - by destruct b, b0, b1.
  - eauto using string_ltb_trans.
Qed.

Lemma string_ltb_cotrans a b c :
  String.ltb a c = true -> String.ltb a b = true \/ String.ltb b c = true.
Proof.
  rewrite !string_ltb_lt. revert b c; induction a as [|x a IH]; intros [|y b] [|z c]; simpl; try done; auto.
  unfold Ascii.compare. intros H1.
  destruct (N.compare_spec (N_of_ascii x) (N_of_ascii y)) as [Exy| |]; try done;
  destruct (N.compare_spec (N_of_ascii y) (N_of_ascii z)) as [Eyz| |]; try done;
  destruct (N.compare_spec (N_of_ascii x) (N_of_ascii z)); try lia; try done; auto.
Qed.

(** A value that is comparable with the others of its type: not a NaN. *)
Definition ordered (v : Value) : Prop :=
  match data v with VDouble b => f64_to_SF b <> S754_nan | _ => True end.

Lemma Value_ltb_cotrans a b c :
  Value_wf a -> Value_wf b -> Value_wf c -> vtype b = vtype a -> ordered b ->
  Value_ltb a c = true -> Value_ltb a b = true \/ Value_ltb b c = true.
Proof.
  unfold Value_wf, Value_ltb, Value_IsNull, ordered. destruct a as [ta da], b as [tb db], c as [tc dc]; simpl.
  intros Ha Hb Hc -> Ho. rewrite !andb_true_iff, !bool_decide_eq_true, !negb_true_iff, !bool_decide_eq_false.
  intros [[-> Hn] H]. assert (vdata_ltb da db = true \/ vdata_ltb db dc = true) as [?|?];
    [|left; by split_and!|right; by split_and!].
  destruct da as [x|x|x|x], dc as [z|z|z|z]; try done.
  - destruct db as [y|y|y|y]; try (by destruct tc). simpl in *. lia.
  - destruct db as [y|y|y|y]; try (by destruct tc). by apply SFltb_cotrans.
  - destruct db as [y|y|y|y]; try (by destruct tc). destruct x, y, z; simpl in *; auto.
  - destruct db as [y|y|y|y]; try (by destruct tc). by apply string_ltb_cotrans.
Qed.

Lemma Value_eqb_ltb a b c :
  Value_eqb a b = true -> Value_ltb a c = Value_ltb b c /\ Value_ltb c a = Value_ltb c b.
Proof.
  unfold Value_eqb, Value_ltb, Value_IsNull. destruct a as [ta da], b as [tb db], c as [tc dc]; simpl.
  rewrite !andb_true_iff, bool_decide_eq_true. intros [[-> _] H].
  destruct da as [x|x|x|x], db as [y|y|y|y]; simpl in H; try done.
  - apply Z.eqb_eq in H. by subst.
  - destruct dc as [z|z|z|z]; simpl; try done; rewrite ?andb_false_r; try done.
    destruct (SFeqb_ltb _ _ (f64_to_SF z) H) as [H1 H2]. unfold f64_ltb. by rewrite H1, H2.
  - apply eqb_prop in H. by subst.
  - apply String.eqb_eq in H. by subst.
Qed.

Lemma SFeqb_sym x y : SFeqb x y = SFeqb y x.
Proof.
  assert (forall x y, SFeqb x y = true -> SFeqb y x = true) as H.
  { clear. intros x y H. rewrite <- (SFeqb_congr x y x H). destruct x as [sx|sx| |sx mx ex]; try destruct sx; try done.
    all: unfold SFeqb, SFcompare; by rewrite Z.compare_refl, Pos.compare_cont_refl. }
  destruct (SFeqb x y) eqn:E; [by rewrite H|]. destruct (SFeqb y x) eqn:E'; [|done]. apply H in E'. congruence.
Qed.

Lemma Value_eqb_sym a b : Value_eqb a b = Value_eqb b a.
Proof.
  enough (forall a b, Value_eqb a b = true -> Value_eqb b a = true) as Himp.
  { destruct (Value_eqb a b) eqn:E; [by rewrite Himp|]. destruct (Value_eqb b a) eqn:E'; [|done]. apply Himp in E'. congruence. }
  clear. unfold Value_eqb, Value_IsNull. intros [ta da] [tb db]; simpl. rewrite !andb_true_iff, !bool_decide_eq_true.
  intros [[-> Hn] He]. split_and!; try done. destruct da, db; simpl in *; try done.
  - by rewrite Z.eqb_sym.
  - unfold f64_eqb. by rewrite SFeqb_sym.
  - apply eqb_prop in He. subst. by destruct b0.
  - by rewrite String.eqb_sym.
Qed.

Lemma Value_eqb_congr a b c : Value_eqb a b = true -> Value_eqb a c = Value_eqb b c.
Proof.
  unfold Value_eqb, Value_IsNull. destruct a as [ta da], b as [tb db], c as [tc dc]; simpl.
  rewrite !andb_true_iff, bool_decide_eq_true. intros [[-> _] H].
  destruct da as [x|x|x|x], db as [y|y|y|y]; simpl in H; try done.
  - apply Z.eqb_eq in H. by subst.
  - destruct dc as [z|z|z|z]; simpl; try done. unfold f64_eqb. by rewrite (SFeqb_congr _ _ _ H).
  - apply eqb_prop in H. by subst.
  - apply String.eqb_eq in H. by subst.
Qed.

Lemma Value_eqb_type a b : Value_eqb a b = true -> vtype a = vtype b /\ Value_IsNull a = false.
Proof.
  unfold Value_eqb. rewrite !andb_true_iff, bool_decide_eq_true, negb_true_iff. naive_solver.
Qed.

(** ** Slices of chunks *)

(** A chunk whose columns are well formed and all of the chunk's length. *)
Definition chunk_wf (c : DataChunk) : Prop :=
  Forall (fun col => dv_wf col /\ dv_count col = ch_count c) (columns c).

Lemma DataChunkSlice_Ok src idx :
  chunk_wf src -> Forall (fun i => i < ch_count src) idx ->
  length idx <= STANDARD_VECTOR_SIZE ->
  exists dst, DataChunkSlice src idx = Ok dst /\ ch_count dst = length idx /\
    chunk_wf dst /\ Forall dv_full (columns dst) /\
    (dv_rows <$> columns dst) = (fun col => dv_row col <$> idx) <$> columns src /\
    col_types dst = col_types src.
Proof.
  unfold DataChunkSlice, chunk_wf, col_types. intros Hwf Hidx Hlen.
  enough (forall cols, Forall (fun col => dv_wf col /\ dv_count col = ch_count src) cols ->
    exists out, mapM_r (slice_column idx) cols = Ok out /\
      Forall (fun col => dv_wf col /\ dv_count col = length idx) out /\ Forall dv_full out /\
      (dv_rows <$> out) = (fun col => dv_row col <$> idx) <$> cols /\
      (dv_type <$> out) = (dv_type <$> cols)) as H.
  { destruct (H _ Hwf) as (out & -> & H1 & H2 & H3 & H4). simpl. eexists; split_and!; done. }
  clear Hwf. induction 1 as [|col cols [Hc Hcnt] Hcols IH]; simpl.
  { exists []. done. }
  destruct (slice_column_rows idx col) as (v & Hv & Hw & Hf & Ht & Hr); [done| |done|].
  { apply Forall_forall. intros i Hi. by apply dv_wf_readable. }
  destruct IH as (out & Hout & H1 & H2 & H3 & H4).
  exists (v :: out). rewrite Hv. simpl. rewrite Hout. simpl. split_and!; [done| | | |].
  - constructor; [split; [done|] | done].
    by rewrite <- length_dv_rows, Hr, length_fmap.
  - by constructor.
  - exact (f_equal2 cons Hr H3).
  - exact (f_equal2 cons Ht H4).
Qed.

(** ** Claims *)

(** A row identifier decodes to the row group and the offset it was made
    of, and every 64-bit row identifier is made of its two halves. *)
Theorem row_id_roundtrip rg off r :
  is_u32 rg -> is_u32 off -> is_u64 r ->
  RowIdGroup (MakeRowId rg off) = rg /\ RowIdOffset (MakeRowId rg off) = off /\
  MakeRowId (RowIdGroup r) (RowIdOffset r) = r.
Proof.
  unfold is_u32, is_u64, RowIdGroup, RowIdOffset, MakeRowId, u32, u64. intros Hg Ho Hr.
  assert (forall g o, (0 <= g < 2 ^ 32)%Z -> (0 <= o < 2 ^ 32)%Z ->
            Z.lor (Z.shiftl g 32 mod 2 ^ 64) o = (o + g * 2 ^ 32)%Z) as Hmk.
  { intros g o Hg' Ho'. rewrite Z.mod_small by (rewrite Z.shiftl_mul_pow2; lia).
    rewrite Z.lor_comm. apply lor_shiftl_add; lia. }
  rewrite !Hmk; try (apply Z.mod_pos_bound; lia); try done.
  rewrite !Z.shiftr_div_pow2 by lia.
  rewrite Z.div_add, (Z.div_small off), Z.add_0_l, (Z.mod_small rg) by lia.
  rewrite Z.mod_add, (Z.mod_small off) by lia.
  rewrite (Z.mod_small (r / 2 ^ 32)) by (split; [apply Z.div_pos; lia | apply Z.div_lt_upper_bound; lia]).
  pose proof (Z.div_mod r (2 ^ 32)). lia.
Qed.

Lemma row_id_roundtrip_witness :
  RowIdGroup (MakeRowId 7 4096) = 7%Z /\ RowIdOffset (MakeRowId 7 4096) = 4096%Z /\
  MakeRowId (RowIdGroup 30064775168) (RowIdOffset 30064775168) = 30064775168%Z.
Proof. apply row_id_roundtrip; unfold is_u32, is_u64; lia. Defined.

(** Slicing a chunk by a list of row positions never leaves the bounds
    of a vector, and column [c] of the slice holds exactly the selected rows
    of column [c], NULLs included, in the order of the list. *)
Theorem DataChunkSlice_rows src idx :
  chunk_wf src -> Forall (fun i => i < ch_count src) idx ->
  length idx <= STANDARD_VECTOR_SIZE ->
  exists dst, DataChunkSlice src idx = Ok dst /\ ch_count dst = length idx /\
    chunk_wf dst /\ Forall dv_full (columns dst) /\
    (dv_rows <$> columns dst) = (fun col => dv_row col <$> idx) <$> columns src /\
    col_types dst = col_types src.
Proof. apply DataChunkSlice_Ok. Qed.

Definition sample_vec : DataVector := mkDV INT64 3 [10; 0; 30]%Z [] [] 5%Z.

Lemma DataChunkSlice_rows_witness :
  exists dst, DataChunkSlice (mkChunk [sample_vec] 3) [2; 1] = Ok dst /\ ch_count dst = 2 /\
    chunk_wf dst /\ Forall dv_full (columns dst) /\
    (dv_rows <$> columns dst) = [[Some (CInt 30); None]] /\ col_types dst = [INT64].
Proof.
  apply (DataChunkSlice_rows (mkChunk [sample_vec] 3) [2; 1]).
  - constructor; [|constructor]. split; [|done]. split; simpl; [done|unfold STANDARD_VECTOR_SIZE; lia| |].
    + intros i Hi. unfold IsNull. simpl. rewrite (testbit_above 5 3); [done|lia|lia].
    + intros i. unfold IsNull. simpl. destruct (decide (i < 3)); [simpl; lia|].
      rewrite (testbit_above 5 3); [done|lia|lia].
  - repeat constructor.
  - simpl. unfold STANDARD_VECTOR_SIZE. lia.
Defined.

(** Filling a vector with a [BOOLEAN] value throws: the shared integer
    branch of the switch reads the variant as an [int64_t], while
    [Value::Boolean] stores a [bool]. *)
Theorem DataVectorFill_boolean_throws (b : bool) n :
  n <= STANDARD_VECTOR_SIZE ->
  DataVectorFill (Value_Boolean b) n = Err BadVariantAccess.
Proof.
  intros Hn. unfold DataVectorFill. change (vtype (Value_Boolean b)) with BOOLEAN.
  destruct (foldM_invariant (fun _ _ => True) SetValid (Reset BOOLEAN n) (seq 0 n)) as (v & Hv & _).
  - done.
  - intros pre x a _ [suf Hx]. assert (x ∈ seq 0 n) as Hin by (rewrite Hx; set_solver).
    apply elem_of_seq in Hin. destruct (SetValid_Ok a x) as (a' & Ha' & _); [lia|eauto].
  - cbn -[Reset SetValid]. by rewrite Hv.
Qed.

Lemma DataVectorFill_boolean_throws_witness :
  DataVectorFill (Value_Boolean true) 2 = Err BadVariantAccess.
Proof. apply DataVectorFill_boolean_throws. unfold STANDARD_VECTOR_SIZE. lia. Defined.
