(* ===== verification/BitPacking.v ===== *)
(** * Bit packing: [src/storage/column/compression/bit_packing.cpp]

    Integers as offsets from their minimum, [bit_width] bits each, written
    bit by bit into a byte buffer.  The central fact is the bit view of the
    buffer: [WriteNBits] ors the bits of a value into a bit range and
    [ReadNBits] reads a bit range back. *)

From Stdlib Require Import ZArith.
From stdpp Require Import base list sets.
From S2P Require Import Prelude.

(** ** Code *)

(** The loop of [WriteNBits]; every round writes at least one of the
    [remaining] bits, so [width] rounds are enough. *)
Fixpoint WriteNBits_loop (fuel : nat) (buf : list Z) (bit_pos width remaining : nat) (value : Z)
    : result (list Z * nat) :=
  match fuel with
  | O => Ok (buf, bit_pos)
  | S fuel =>
      if decide (remaining = 0) then Ok (buf, bit_pos)
      else
        let byte_idx := bit_pos / 8 in
        let bit_in_byte := bit_pos mod 8 in
        let bits_avail := 8 - bit_in_byte in
        let bits_to_write := Nat.min remaining bits_avail in
        let mask := (Z.shiftl 1 (Z.of_nat bits_to_write) - 1)%Z in
        let chunk := Z.land (Z.shiftr value (Z.of_nat (width - remaining))) mask in
        b ← of_option UndefinedBehaviour (buf !! byte_idx);
        let b' := Z.lor b (u8 (Z.shiftl chunk (Z.of_nat bit_in_byte))) in
        WriteNBits_loop fuel (<[byte_idx := b']> buf) (bit_pos + bits_to_write) width
          (remaining - bits_to_write) value
  end.

Definition WriteNBits (buf : list Z) (bit_pos width : nat) (value : Z) : result (list Z * nat) :=
  WriteNBits_loop width buf bit_pos width width value.

Fixpoint ReadNBits_loop (fuel : nat) (buf : list Z) (bit_pos width bits_read : nat) (res : Z)
    : result (Z * nat) :=
  match fuel with
  | O => Ok (res, bit_pos)
  | S fuel =>
      if decide (bits_read < width) then
        let byte_idx := bit_pos / 8 in
        let bit_in_byte := bit_pos mod 8 in
        let bits_avail := 8 - bit_in_byte in
        let to_read := Nat.min (width - bits_read) bits_avail in
        let mask := (Z.shiftl 1 (Z.of_nat to_read) - 1)%Z in
        b ← of_option UndefinedBehaviour (buf !! byte_idx);
        let chunk := Z.land (Z.shiftr b (Z.of_nat bit_in_byte)) mask in
        ReadNBits_loop fuel buf (bit_pos + to_read) width (bits_read + to_read)
          (Z.lor res (u64 (Z.shiftl chunk (Z.of_nat bits_read))))
      else Ok (res, bit_pos)
  end.

Definition ReadNBits (buf : list Z) (bit_pos width : nat) : result (Z * nat) :=
  ReadNBits_loop width buf bit_pos width 0 0%Z.

(** The scan for the minimum: [values[0]] must exist. *)
Definition min_val (values : list Z) : result Z :=
  match values with
  | [] => Err UndefinedBehaviour
  | v :: vs => Ok (foldl (fun m x => if Z.ltb x m then x else m) v vs)
  end.

Definition pack_step (bit_width : nat) (mn : Z) (st : list Z * nat) (v : Z)
    : result (list Z * nat) :=
  let '(buf, bit_pos) := st in WriteNBits buf bit_pos bit_width (u64 (v - mn)).

(** Returns the buffer and the number of bytes used. *)
Definition BitPackEncode (values : list Z) (bit_width : nat) (dst : list Z)
    : result (list Z * nat) :=
  mn ← min_val values;
  dst ← write_at 0 (le_bytes 8 (u64 mn)) dst;
  dst ← write_at 8 (replicate ((bit_width * length values + 7) / 8 + 1) 0%Z) dst;
  '(dst, bit_pos) ← foldM (pack_step bit_width mn) (dst, 64) values;
  Ok (dst, (bit_pos + 7) / 8).

Fixpoint unpack_loop (src : list Z) (bit_width : nat) (mn : Z) (n bit_pos : nat)
    : result (list Z) :=
  match n with
  | O => Ok []
  | S n =>
      '(delta, bit_pos) ← ReadNBits src bit_pos bit_width;
      vs ← unpack_loop src bit_width mn n bit_pos;
      Ok (i64 (mn + i64 delta)%Z :: vs)
  end.

Definition BitPackDecode (src : list Z) (row_count bit_width : nat) : result (list Z) :=
  '(min_u, _) ← rd_le 8 src;
  unpack_loop src bit_width (i64 min_u) row_count 64.

(** ** The bit view of a buffer *)

Definition buf_bit (buf : list Z) (k : nat) : bool :=
  match buf !! (k / 8) with
  | Some b => Z.testbit b (Z.of_nat (k mod 8))
  | None => false
  end.

Lemma div_mod_8 k i j : j < 8 -> k = 8 * i + j -> k / 8 = i /\ k mod 8 = j.
Proof.
  intros Hj Hk. split; symmetry; [eapply Nat.div_unique | eapply Nat.mod_unique]; eauto.
Qed.

Lemma testbit_mask n i :
  Z.testbit (Z.shiftl 1 (Z.of_nat n) - 1) (Z.of_nat i) = bool_decide (i < n).
Proof.
  rewrite Z.shiftl_1_l, Z.sub_1_r, <- Z.ones_equiv, Z.testbit_ones_nonneg by lia.
  destruct (Z.ltb_spec (Z.of_nat i) (Z.of_nat n));
    [rewrite bool_decide_true | rewrite bool_decide_false]; done || lia.
Qed.

Lemma testbit_u64 x (i : nat) : i < 64 -> Z.testbit (u64 x) (Z.of_nat i) = Z.testbit x (Z.of_nat i).
Proof. intros H. unfold u64. apply Z.mod_pow2_bits_low. lia. Qed.

Lemma testbit_u8 x (i : nat) : i < 8 -> Z.testbit (u8 x) (Z.of_nat i) = Z.testbit x (Z.of_nat i).
Proof. intros H. unfold u8. apply Z.mod_pow2_bits_low. lia. Qed.

(** Bit [j] of a masked chunk shifted left by [s]. *)
Lemma testbit_chunk x r n s j :
  Z.testbit (Z.shiftl (Z.land (Z.shiftr x (Z.of_nat r)) (Z.shiftl 1 (Z.of_nat n) - 1)) (Z.of_nat s))
    (Z.of_nat j)
  = (bool_decide (s <= j < s + n) && Z.testbit x (Z.of_nat (j - s + r)))%bool.
Proof.
  destruct (decide (j < s)) as [Hlt|Hge].
  - rewrite Z.shiftl_spec_low by lia. by rewrite bool_decide_false by lia.
  - rewrite Z.shiftl_spec by lia. replace (Z.of_nat j - Z.of_nat s)%Z with (Z.of_nat (j - s)) by lia.
    rewrite Z.land_spec, testbit_mask, Z.shiftr_spec by lia.
    replace (Z.of_nat (j - s) + Z.of_nat r)%Z with (Z.of_nat (j - s + r)) by lia.
    rewrite andb_comm. f_equal. apply bool_decide_ext. lia.
Qed.

Lemma is_u8_lor a b : is_u8 a -> is_u8 b -> is_u8 (Z.lor a b).
Proof.
  unfold is_u8. intros Ha Hb. split; [apply Z.lor_nonneg; lia|].
  destruct (Z.eq_dec (Z.lor a b) 0%Z) as [->|]; [lia|].
  assert (0 <= Z.lor a b)%Z by (apply Z.lor_nonneg; lia).
  apply Z.log2_lt_pow2; [lia|]. rewrite Z.log2_lor by lia.
  assert (forall x, 0 <= x < 2 ^ 8 -> Z.log2 x < 8)%Z as Hl.
  { intros x Hx. destruct (Z.eq_dec x 0%Z) as [->|]; [simpl; lia|]. apply Z.log2_lt_pow2; lia. }
  apply Z.max_lub_lt; auto.
Qed.

(** Or-ing bits into one byte, seen through the bit view. *)
Lemma buf_bit_or buf i b x k :
  buf !! i = Some b ->
  buf_bit (<[i := Z.lor b (u8 x)]> buf) k =
  (buf_bit buf k || (bool_decide (k / 8 = i) && Z.testbit x (Z.of_nat (k mod 8))))%bool.
Proof.
  intros Hb. unfold buf_bit. destruct (decide (k / 8 = i)) as [<-|Hne].
  - rewrite list_lookup_insert_eq by (by eapply lookup_lt_Some). rewrite Hb.
    rewrite Z.lor_spec, testbit_u8, bool_decide_true by (done || (apply Nat.mod_upper_bound; lia)).
    done.
  - rewrite list_lookup_insert_ne by done. rewrite bool_decide_false by done.
    by rewrite orb_false_r.
Qed.

Lemma WriteNBits_loop_spec fuel buf bit_pos width remaining value :
  remaining <= fuel -> remaining <= width -> bytes_ok buf ->
  bit_pos + remaining <= 8 * length buf ->
  exists buf', WriteNBits_loop fuel buf bit_pos width remaining value = Ok (buf', bit_pos + remaining) /\
    length buf' = length buf /\ bytes_ok buf' /\
    forall k, buf_bit buf' k =
      (buf_bit buf k || (bool_decide (bit_pos <= k < bit_pos + remaining) &&
                         Z.testbit value (Z.of_nat (k - bit_pos + (width - remaining)))))%bool.
Proof.
  revert buf bit_pos remaining; induction fuel as [|fuel IH];
    intros buf bp rem Hf Hw Hok Hlen; cbn [WriteNBits_loop].
  { exists buf. replace rem with 0 by lia. rewrite Nat.add_0_r. split_and!; [done..|].
    intros k. rewrite bool_decide_false by lia. by rewrite orb_false_r. }
  destruct (decide (rem = 0)) as [->|Hrem].
  { exists buf. rewrite Nat.add_0_r. split_and!; [done..|].
    intros k. rewrite bool_decide_false by lia. by rewrite orb_false_r. }
  pose proof (Nat.div_mod_eq bp 8) as Hdm. pose proof (Nat.mod_upper_bound bp 8) as Hm.
  set (n := Nat.min rem (8 - bp mod 8)) in *.
  destruct (lookup_lt_is_Some_2 buf (bp / 8)) as [b Hb]; [lia|]. rewrite Hb.
  cbn [of_option mbind result_bind].
  match goal with |- context [u8 ?y] => set (x := y) end.
  destruct (IH (<[bp / 8 := Z.lor b (u8 x)]> buf) (bp + n) (rem - n))
    as (buf' & -> & Hl' & Hok' & Hbits); [lia|lia| |rewrite length_insert; lia|].
  { apply Forall_insert; [done|]. apply is_u8_lor; [by eapply Forall_lookup_1|].
    apply Z.mod_pos_bound; lia. }
  exists buf'. split_and!; [f_equal; f_equal; lia | by rewrite Hl', length_insert | done |].
  intros k. rewrite Hbits, (buf_bit_or _ _ _ _ _ Hb), <- orb_assoc. f_equal.
  pose proof (Nat.div_mod_eq k 8). pose proof (Nat.mod_upper_bound k 8).
  destruct (decide (bp <= k < bp + n)) as [Hin|Hout].
  - destruct (div_mod_8 k (bp / 8) (bp mod 8 + (k - bp))) as [Hd' Hm']; [lia|lia|].
    rewrite (bool_decide_true (k / 8 = bp / 8)), (bool_decide_false (bp + n <= k < _)),
      (bool_decide_true (bp <= k < bp + rem)) by lia.
    rewrite orb_false_r. subst x. rewrite testbit_chunk, bool_decide_true by lia. simpl.
    f_equal. lia.
  - rewrite (bool_decide_ext (bp + n <= k < bp + n + (rem - n)) (bp <= k < bp + rem)) by lia.
    assert ((bool_decide (k / 8 = bp / 8) && Z.testbit x (Z.of_nat (k mod 8)))%bool = false) as ->.
    { destruct (decide (k / 8 = bp / 8)); [|by rewrite bool_decide_false].
      subst x. rewrite testbit_chunk, (bool_decide_false (bp mod 8 <= _ < _)) by lia.
      by rewrite andb_false_r. }
    rewrite orb_false_l.
    destruct (decide (bp <= k < bp + rem)); [|by rewrite bool_decide_false].
    do 3 f_equal. lia.
Qed.

Lemma ReadNBits_loop_spec fuel buf bit_pos width bits_read res :
  width - bits_read <= fuel -> bits_read <= width <= 64 ->
  bit_pos + (width - bits_read) <= 8 * length buf -> (0 <= res)%Z ->
  exists res', ReadNBits_loop fuel buf bit_pos width bits_read res
      = Ok (res', bit_pos + (width - bits_read)) /\ (0 <= res')%Z /\
    forall j, Z.testbit res' (Z.of_nat j) =
      (Z.testbit res (Z.of_nat j) ||
       (bool_decide (bits_read <= j < width) && buf_bit buf (bit_pos + (j - bits_read))))%bool.
Proof.
  revert bit_pos bits_read res; induction fuel as [|fuel IH];
    intros bp br res Hf Hw Hlen Hres; cbn [ReadNBits_loop].
  { exists res. replace (width - br) with 0 by lia. rewrite Nat.add_0_r. split_and!; [done..|].
    intros j. rewrite bool_decide_false by lia. by rewrite orb_false_r. }
  destruct (decide (br < width)) as [Hlt|Hge].
  2: { exists res. replace (width - br) with 0 by lia. rewrite Nat.add_0_r. split_and!; [done..|].
       intros j. rewrite bool_decide_false by lia. by rewrite orb_false_r. }
  pose proof (Nat.div_mod_eq bp 8) as Hdm. pose proof (Nat.mod_upper_bound bp 8) as Hm.
  set (n := Nat.min (width - br) (8 - bp mod 8)) in *.
  destruct (lookup_lt_is_Some_2 buf (bp / 8)) as [b Hb]; [lia|]. rewrite Hb.
  cbn [of_option mbind result_bind].
  match goal with |- context [u64 ?y] => set (x := y) end.
  destruct (IH (bp + n) (br + n) (Z.lor res (u64 x))) as (res' & -> & Hnn & Hbits); [lia|lia|lia| |].
  { apply Z.lor_nonneg. split; [done|]. apply u64_range. }
  exists res'. split_and!; [do 2 f_equal; lia | done |].
  intros j. rewrite Hbits, Z.lor_spec, <- orb_assoc. f_equal.
  destruct (decide (br <= j < br + n)) as [Hin|Hout].
  - rewrite testbit_u64 by lia. subst x. rewrite testbit_chunk.
    rewrite (bool_decide_true (br <= j < br + n)), (bool_decide_false (br + n <= j < width)),
      (bool_decide_true (br <= j < width)) by lia.
    rewrite orb_false_r, !andb_true_l. unfold buf_bit.
    destruct (div_mod_8 (bp + (j - br)) (bp / 8) (bp mod 8 + (j - br))) as [-> ->]; [lia|lia|].
    rewrite Hb. f_equal. lia.
  - assert (Z.testbit (u64 x) (Z.of_nat j) = false) as ->.
    { destruct (decide (j < 64)) as [Hj|Hj].
      - rewrite testbit_u64 by lia. subst x. by rewrite testbit_chunk, bool_decide_false.
      - unfold u64. apply Z.mod_pow2_bits_high. lia. }
    rewrite orb_false_l.
    destruct (decide (br + n <= j < width)).
    + rewrite !bool_decide_true by lia. do 2 f_equal. lia.
    + by rewrite !bool_decide_false by lia.
Qed.

Lemma ReadNBits_spec buf bit_pos width v :
  width <= 64 -> bit_pos + width <= 8 * length buf -> (0 <= v < 2 ^ Z.of_nat width)%Z ->
  (forall j, j < width -> buf_bit buf (bit_pos + j) = Z.testbit v (Z.of_nat j)) ->
  ReadNBits buf bit_pos width = Ok (v, bit_pos + width).
Proof.
  intros Hw Hlen Hv Hbits. unfold ReadNBits.
  destruct (ReadNBits_loop_spec width buf bit_pos width 0 0%Z) as (r & -> & Hr & Hb); [lia..|].
  rewrite Nat.sub_0_r. do 2 f_equal. apply Z.bits_inj'. intros i Hi.
  rewrite <- (Z2Nat.id i) by done. rewrite Hb, Z.bits_0, Nat.sub_0_r, orb_false_l.
  destruct (decide (Z.to_nat i < width)).
  - rewrite bool_decide_true by lia. by rewrite Hbits by done.
  - rewrite bool_decide_false by lia. symmetry. eapply testbit_above; [done|]. lia.
Qed.

(** ** Packing and unpacking a column *)

(** The buffer holds the offsets of [vs] from [mn], in order, from bit
    [start] on. *)
Definition packed (bw : nat) (mn : Z) (start : nat) (vs : list Z) (buf : list Z) : Prop :=
  forall p v, vs !! p = Some v ->
    forall j, j < bw -> buf_bit buf (start + p * bw + j) = Z.testbit (u64 (v - mn)) (Z.of_nat j).

(** From bit [start] to the end of the area the buffer is zero. *)
Definition zero_from (start stop : nat) (buf : list Z) : Prop :=
  forall k, start <= k < stop -> buf_bit buf k = false.

Lemma pack_loop_spec bw mn vs buf start stop :
  bytes_ok buf -> start + bw * length vs <= stop -> stop <= 8 * length buf ->
  zero_from start stop buf ->
  exists buf', foldM (pack_step bw mn) (buf, start) vs = Ok (buf', start + bw * length vs) /\
    length buf' = length buf /\ bytes_ok buf' /\ packed bw mn start vs buf' /\
    forall k, k < start -> buf_bit buf' k = buf_bit buf k.
Proof.
  revert buf start; induction vs as [|v vs IH]; intros buf start Hok Hfit Hstop Hz; simpl.
  { exists buf. rewrite Nat.mul_0_r, Nat.add_0_r. split_and!; done. }
  simpl in Hfit.
  destruct (WriteNBits_loop_spec bw buf start bw bw (u64 (v - mn)))
    as (b1 & Hw & Hl1 & Hok1 & Hb1); [lia|lia|done|lia|].
  unfold WriteNBits. rewrite Hw. cbn [mbind result_bind].
  destruct (IH b1 (start + bw)) as (b2 & -> & Hl2 & Hok2 & Hp2 & Hsame2); [done|lia|lia| |].
  { intros k Hk. rewrite Hb1, Hz, bool_decide_false by lia. done. }
  exists b2. split_and!; [do 2 f_equal; lia | congruence | done | |].
  - intros [|p] w Hp j Hj; simpl in Hp.
    + injection Hp as <-. rewrite Nat.add_0_r, Hsame2, Hb1, Hz, bool_decide_true by lia.
      rewrite andb_true_l, orb_false_l. do 2 f_equal. lia.
    + rewrite <- (Hp2 p w Hp j Hj). f_equal. lia.
  - intros k Hk. rewrite Hsame2, Hb1, bool_decide_false by lia. by rewrite orb_false_r.
Qed.

Lemma unpack_loop_spec bw mn vs src start :
  bw <= 64 -> start + bw * length vs <= 8 * length src -> packed bw mn start vs src ->
  is_i64 mn ->
  Forall (fun v => is_i64 v /\ mn <= v /\ v - mn < 2 ^ Z.of_nat bw)%Z vs ->
  unpack_loop src bw mn (length vs) start = Ok vs.
Proof.
  intros Hbw Hlen Hp Hmn Hvs. revert start Hlen Hp.
  induction Hvs as [|v vs (Hv & Hle & Hlt) Hvs IH]; intros start Hlen Hp; simpl; [done|].
  simpl in Hlen.
  assert (2 ^ Z.of_nat bw <= 2 ^ 64)%Z by (apply Z.pow_le_mono_r; lia).
  assert (u64 (v - mn) = v - mn)%Z as Hu by (unfold u64; apply Z.mod_small; lia).
  rewrite (ReadNBits_spec src start bw (v - mn)%Z); [|lia|lia|lia|].
  2: { intros j Hj. rewrite <- Hu, <- (Hp 0 v eq_refl j Hj). f_equal. lia. }
  cbn [mbind result_bind]. rewrite IH; [|lia|].
  - cbn [mbind result_bind]. do 2 f_equal.
    assert (i64 (mn + i64 (v - mn)) = i64 (mn + (v - mn)))%Z as ->.
    { unfold i64 at 1 3. f_equal.
      replace (mn + i64 (v - mn) + 2 ^ 63)%Z with
        (mn + ((v - mn + 2 ^ 63) mod 2 ^ 64))%Z by (unfold i64; lia).
      rewrite Z.add_mod_idemp_r by lia. f_equal. lia. }
    rewrite i64_id; [lia|]. replace (mn + (v - mn))%Z with v by lia. done.
  - intros p w Hw j Hj. rewrite <- (Hp (S p) w Hw j Hj). f_equal. lia.
Qed.

Lemma min_val_spec vs :
  vs <> [] -> exists m, min_val vs = Ok m /\ m ∈ vs /\ Forall (fun v => m <= v)%Z vs.
Proof.
  destruct vs as [|v vs]; [done|]. intros _. simpl. eexists; split; [done|].
  revert v; induction vs as [|x vs IH]; intros v; simpl.
  { split; [apply list_elem_of_here|]. repeat constructor. lia. }
  destruct (Z.ltb_spec x v) as [Hx|Hx].
  - destruct (IH x) as [Hin Hall]. split; [rewrite !elem_of_cons in *; tauto|].
    apply Forall_cons_1 in Hall as [H1 H2]. repeat constructor; [lia|done|done].
  - destruct (IH v) as [Hin Hall]. split; [rewrite !elem_of_cons in *; tauto|].
    apply Forall_cons_1 in Hall as [H1 H2]. repeat constructor; [done|lia|done].
Qed.

Lemma buf_bit_lookup a b i j :
  a !! i = b !! i -> j < 8 -> buf_bit a (8 * i + j) = buf_bit b (8 * i + j).
Proof.
  intros H Hj. unfold buf_bit. destruct (div_mod_8 (8 * i + j) i j) as [-> ->]; [done|lia|].
  by rewrite H.
Qed.

(** Byte prefixes agree when their bits agree. *)
Lemma take_of_bits m a b :
  bytes_ok a -> bytes_ok b -> length a = length b ->
  (forall k, k < 8 * m -> buf_bit a k = buf_bit b k) -> take m a = take m b.
Proof.
  intros Ha Hb Hl Hk. apply list_eq_same_length with (n := Nat.min m (length a)); [len|len|].
  intros i x y Hi Hx Hy. rewrite lookup_take_lt in Hx, Hy by lia.
  assert (is_u8 x) by (by eapply Forall_lookup_1 in Hx).
  assert (is_u8 y) by (by eapply Forall_lookup_1 in Hy).
  apply Z.bits_inj'. intros n Hn. destruct (Z.lt_ge_cases n 8) as [Hn8|Hn8].
  - specialize (Hk (8 * i + Z.to_nat n) ltac:(lia)). unfold buf_bit in Hk.
    destruct (div_mod_8 (8 * i + Z.to_nat n) i (Z.to_nat n)) as [Hd Hm]; [lia|lia|].
    rewrite Hd, Hm, Hx, Hy, Z2Nat.id in Hk by lia. done.
  - by rewrite !(testbit_above _ 8).
Qed.

(** Encoding keeps a buffer of bytes a buffer of bytes. *)
Lemma WriteNBits_loop_bytes fuel buf bit_pos width remaining value buf' p :
  WriteNBits_loop fuel buf bit_pos width remaining value = Ok (buf', p) ->
  bytes_ok buf -> bytes_ok buf'.
Proof.
  revert buf bit_pos remaining; induction fuel as [|fuel IH]; intros buf bp rem; cbn [WriteNBits_loop].
  { by intros [= <- _]. }
  destruct (decide (rem = 0)); [by intros [= <- _]|].
  intros (b & Hb & Hrec)%bind_Ok_inv Hok. eapply IH; [exact Hrec|].
  destruct (buf !! (bp / 8)) as [b'|] eqn:E; [|done]. injection Hb as ->.
  apply Forall_insert; [done|]. apply is_u8_lor; [by eapply Forall_lookup_1|].
  apply Z.mod_pos_bound; lia.
Qed.

Lemma BitPackEncode_bytes values bw dst dst' n :
  BitPackEncode values bw dst = Ok (dst', n) -> bytes_ok dst -> bytes_ok dst'.
Proof.
  unfold BitPackEncode.
  intros (mn & _ & (d1 & Hd1 & (d2 & Hd2 & ([d3 p] & Hd3 & Hd4)%bind_Ok_inv)%bind_Ok_inv)%bind_Ok_inv)%bind_Ok_inv Hok.
  injection Hd4 as <- _.
  assert (bytes_ok d2) as Hok2.
  { eapply write_at_Forall; [exact Hd2|apply Forall_replicate; unfold is_u8; lia|].
    eapply write_at_Forall; [exact Hd1|apply le_bytes_ok|done]. }
  clear Hd1 Hd2. revert d2 Hok2 Hd3. generalize 64. induction values as [|v vs IH]; intros pos d2 Hok2; simpl.
  { by intros [= <- _]. }
  intros ([d p'] & Hw & Hrest)%bind_Ok_inv. eapply IH; [|exact Hrest].
  by eapply WriteNBits_loop_bytes.
Qed.

Lemma BitPack_rt values bw dst :
  values <> [] -> Forall is_i64 values -> bw <= 64 ->
  (forall v w, v ∈ values -> w ∈ values -> v - w < 2 ^ Z.of_nat bw)%Z ->
  bytes_ok dst -> 8 + ((bw * length values + 7) / 8 + 1) <= length dst ->
  exists dst', BitPackEncode values bw dst = Ok (dst', (64 + bw * length values + 7) / 8) /\
    length dst' = length dst /\ bytes_ok dst' /\
    BitPackDecode dst' (length values) bw = Ok values.
Proof.
  intros Hne Hi Hbw Hrange Hok Hlen.
  destruct (min_val_spec values Hne) as (mn & Hmn & Hin & Hall).
  unfold BitPackEncode. rewrite Hmn. cbn [mbind result_bind].
  destruct (write_at_Ok 0 (le_bytes 8 (u64 mn)) dst) as (d1 & Hd1 & Hl1 & Hnew1 & _); [len|].
  rewrite Hd1. cbn [mbind result_bind]. set (zs := replicate _ 0%Z).
  assert (length zs = (bw * length values + 7) / 8 + 1) as Hzs by apply length_replicate.
  destruct (write_at_Ok 8 zs d1) as (d2 & Hd2 & Hl2 & Hnew2 & Hold2); [lia|].
  rewrite Hd2. cbn [mbind result_bind].
  assert (bytes_ok d2) as Hok2.
  { eapply write_at_Forall; [exact Hd2| |eapply write_at_Forall; [exact Hd1|apply le_bytes_ok|done]].
    apply Forall_replicate. unfold is_u8. lia. }
  assert (take 8 d2 = le_bytes 8 (u64 mn)) as Htake.
  { apply list_eq_same_length with (n := 8); [len|len|].
    intros i x y Hi8 Hx Hy. rewrite lookup_take_lt, Hold2 in Hx by lia.
    change (d1 !! i) with (d1 !! (0 + i)) in Hx. rewrite Hnew1 in Hx by len. congruence. }
  destruct (pack_loop_spec bw mn values d2 64 (64 + 8 * length zs))
    as (d3 & Hd3 & Hl3 & Hok3 & Hp3 & Hold3).
  { done. }
  { rewrite Hzs. pose proof (div8_up (bw * length values)). lia. }
  { lia. }
  { intros k Hk. pose proof (Nat.div_mod_eq k 8). pose proof (Nat.mod_upper_bound k 8).
    unfold buf_bit. replace (k / 8) with (8 + (k / 8 - 8)) by lia. rewrite Hnew2 by lia.
    destruct (zs !! (k / 8 - 8)) eqn:E; [|done].
    apply lookup_replicate in E as [-> _]. apply Z.bits_0. }
  rewrite Hd3. cbn [mbind result_bind]. exists d3. split_and!; [done|lia|done|].
  assert (is_i64 mn) as Hmi by (rewrite Forall_forall in Hi; auto).
  unfold BitPackDecode, rd_le, rd_bytes. rewrite decide_True by lia. cbn [mbind result_bind].
  rewrite (take_of_bits 8 d3 d2) by (done || (intros; apply Hold3; lia)).
  rewrite Htake, le_val_le_bytes.
  change (u64 mn mod 2 ^ (8 * Z.of_nat 8))%Z with (u64 (u64 mn)).
  rewrite !i64_u64, i64_id by done.
  apply unpack_loop_spec; [done| |done|done|].
  { pose proof (div8_up (bw * length values)). lia. }
  rewrite Forall_forall in Hi, Hall |- *. intros v Hv. split_and!; [auto| |auto].
  by apply Hall.
Qed.

(** Bit packing round trips: when every value is within [2^bit_width] of
    every other one, encoding into a buffer that has room and decoding gives
    the values back. *)
Theorem BitPack_roundtrip values bw dst :
  values <> [] -> Forall is_i64 values -> bw <= 64 ->
  (forall v w, v ∈ values -> w ∈ values -> v - w < 2 ^ Z.of_nat bw)%Z ->
  bytes_ok dst -> 8 + ((bw * length values + 7) / 8 + 1) <= length dst ->
  exists dst', BitPackEncode values bw dst = Ok (dst', (64 + bw * length values + 7) / 8) /\
    length dst' = length dst /\ bytes_ok dst' /\
    BitPackDecode dst' (length values) bw = Ok values.
Proof. apply BitPack_rt. Qed.

Lemma BitPack_roundtrip_witness :
  exists dst', BitPackEncode [1000; 1003; 1001]%Z 2 (replicate 16 7%Z)
      = Ok (dst', (64 + 2 * 3 + 7) / 8) /\
    length dst' = 16 /\ bytes_ok dst' /\ BitPackDecode dst' 3 2 = Ok [1000; 1003; 1001]%Z.
Proof.
  apply (BitPack_roundtrip [1000; 1003; 1001]%Z 2 (replicate 16 7%Z)).
  - done.
  - repeat constructor; unfold is_i64; simpl; lia.
  - lia.
  - intros v w Hv Hw. change (2 ^ Z.of_nat 2)%Z with 4%Z.
    rewrite !elem_of_cons in Hv, Hw. destruct_or! Hv; destruct_or! Hw; subst; try lia;
      by apply not_elem_of_nil in Hv || apply not_elem_of_nil in Hw.
  - apply Forall_replicate. unfold is_u8. lia.
  - vm_compute. lia.
Defined.
