(* ===== verification/Bitmap.v ===== *)
(** * Validity bitmaps: the helpers of [src/storage/column/compression.cpp],
    [compression/rle.cpp] and [compression/dictionary.cpp]

    One bit per row, least significant bit of byte 0 first, set when the row
    is not NULL. *)

From Stdlib Require Import ZArith.
From stdpp Require Import base list.
From S2P Require Import Prelude Types BitPacking.

(** ** Code *)

Definition BitmapBytes (row_count : nat) : nat := (row_count + 7) / 8.

(** [!(bitmap[i / 8] & (1u << (i % 8)))] *)
Definition bm_IsNull (bitmap : list Z) (i : nat) : bool :=
  match bitmap !! (i / 8) with
  | Some b => Z.eqb (Z.land b (Z.shiftl 1 (Z.of_nat (i mod 8)))) 0
  | None => true
  end.

(** [bitmap[i / 8] |= static_cast<uint8_t>(1u << (i % 8))] *)
Definition bm_set (bitmap : list Z) (i : nat) : result (list Z) :=
  b ← of_option UndefinedBehaviour (bitmap !! (i / 8));
  Ok (<[i / 8 := Z.lor b (u8 (Z.shiftl 1 (Z.of_nat (i mod 8))))]> bitmap).

Definition BuildBitmap (vec : DataVector) : result (list Z) :=
  foldM (fun bm i => if IsNull vec i then Ok bm else bm_set bm i)
        (replicate (BitmapBytes (dv_count vec)) 0%Z) (seq 0 (dv_count vec)).

Definition ApplyBitmap (bitmap : list Z) (vec : DataVector) : result DataVector :=
  foldM (fun v i => if bm_IsNull bitmap i then SetNull v i else SetValid v i)
        vec (seq 0 (dv_count vec)).

(** ** Lemmas *)

Lemma bm_IsNull_bit bm i : bm_IsNull bm i = negb (buf_bit bm i).
Proof.
  unfold bm_IsNull, buf_bit. destruct (bm !! (i / 8)) as [b|]; [|done].
  rewrite Z.shiftl_1_l. set (n := Z.of_nat (i mod 8)). assert (0 <= n)%Z by lia.
  destruct (Z.testbit b n) eqn:E; simpl.
  - apply Z.eqb_neq. intros H0. assert (Z.testbit (Z.land b (2 ^ n)) n = true) as Ht.
    { rewrite Z.land_spec, E, Z.pow2_bits_true by done. done. }
    rewrite H0, Z.bits_0 in Ht. done.
  - apply Z.eqb_eq. apply Z.bits_inj'. intros k Hk. rewrite Z.land_spec, Z.bits_0.
    rewrite Z.pow2_bits_eqb by done. destruct (Z.eqb_spec n k) as [<-|]; [by rewrite E|].
    apply andb_false_r.
Qed.

Lemma bm_set_spec bm i :
  i < 8 * length bm ->
  exists bm', bm_set bm i = Ok bm' /\ length bm' = length bm /\
    forall k, buf_bit bm' k = bool_decide (k = i) || buf_bit bm k.
Proof.
  intros Hi. pose proof (Nat.div_mod_eq i 8). pose proof (Nat.mod_upper_bound i 8).
  unfold bm_set. destruct (lookup_lt_is_Some_2 bm (i / 8)) as [b Hb]; [lia|].
  rewrite Hb. cbn [of_option mbind result_bind]. eexists; split; [done|]. split; [by len|].
  intros k. rewrite (buf_bit_or _ _ _ _ _ Hb), orb_comm. f_equal.
  rewrite Z.shiftl_1_l, Z.pow2_bits_eqb by lia.
  pose proof (Nat.div_mod_eq k 8). pose proof (Nat.mod_upper_bound k 8).
  destruct (decide (k = i)) as [->|].
  - rewrite !bool_decide_true by done. apply Z.eqb_refl.
  - rewrite (bool_decide_false (k = i)) by done. apply andb_false_iff.
    destruct (decide (k / 8 = i / 8)); [right; apply Z.eqb_neq; lia | left; by rewrite bool_decide_false].
Qed.

Lemma buf_bit_zero n k : buf_bit (replicate n 0%Z) k = false.
Proof.
  unfold buf_bit. destruct (_ !! _) eqn:E; [|done].
  apply lookup_replicate in E as [-> _]. apply Z.bits_0.
Qed.

Lemma BitmapBytes_cover n i : i < n -> i < 8 * BitmapBytes n.
Proof. unfold BitmapBytes. pose proof (div8_up n). lia. Qed.

(** The bitmap of a vector has the vector's validity. *)
Lemma BuildBitmap_spec vec :
  exists bm, BuildBitmap vec = Ok bm /\ length bm = BitmapBytes (dv_count vec) /\
    forall i, i < dv_count vec -> buf_bit bm i = negb (IsNull vec i).
Proof.
  unfold BuildBitmap.
  destruct (foldM_invariant (fun pre bm =>
      length bm = BitmapBytes (dv_count vec) /\
      forall i, buf_bit bm i = bool_decide (i < length pre) && negb (IsNull vec i))
    (fun bm i => if IsNull vec i then Ok bm else bm_set bm i)
    (replicate (BitmapBytes (dv_count vec)) 0%Z) (seq 0 (dv_count vec)))
    as (bm & -> & Hl & Hb).
  - split; [apply length_replicate|]. intros i. by rewrite buf_bit_zero.
  - intros pre x bm [Hl Hb] [suf Hx].
    assert (x = length pre /\ x < dv_count vec) as [-> Hlt].
    { assert (seq 0 (dv_count vec) !! length pre = Some x) as Hs
        by (rewrite Hx, list_lookup_middle; done).
      apply lookup_seq in Hs. lia. }
    rewrite length_app. simpl.
    assert (forall i, bool_decide (i < length pre + 1) =
              bool_decide (i = length pre) || bool_decide (i < length pre)) as Hdec.
    { intros i. apply Bool.eq_iff_eq_true. rewrite orb_true_iff, !bool_decide_eq_true. lia. }
    destruct (IsNull vec (length pre)) eqn:E.
    + exists bm. split_and!; [done|done|]. intros i. rewrite Hb, Hdec.
      destruct (decide (i = length pre)) as [->|].
      * rewrite E. by rewrite !andb_false_r.
      * by rewrite (bool_decide_false (i = _)) by done.
    + destruct (bm_set_spec bm (length pre)) as (bm' & -> & Hl' & Hb').
      { rewrite Hl. by apply BitmapBytes_cover. }
      exists bm'. split_and!; [done|lia|]. intros i. rewrite Hb', Hb, Hdec.
      destruct (decide (i = length pre)) as [->|].
      * rewrite E, bool_decide_true by done. done.
      * by rewrite (bool_decide_false (i = _)) by done.
  - exists bm. split_and!; [done|done|]. intros i Hi. rewrite Hb, length_seq.
    by rewrite bool_decide_true by done.
Qed.

Lemma BuildBitmap_bytes vec bm : BuildBitmap vec = Ok bm -> bytes_ok bm.
Proof.
  unfold BuildBitmap. assert (bytes_ok (replicate (BitmapBytes (dv_count vec)) 0%Z)) as H0
    by (apply Forall_replicate; unfold is_u8; lia).
  revert H0. generalize (replicate (BitmapBytes (dv_count vec)) 0%Z).
  induction (seq 0 (dv_count vec)) as [|i l IH]; intros b Hb; simpl; [by intros [= <-]|].
  intros (b' & Hb' & Hrest)%bind_Ok_inv. eapply IH; [|exact Hrest].
  destruct (IsNull vec i); [congruence|]. unfold bm_set in Hb'.
  destruct (b !! (i / 8)) as [x|] eqn:E; simpl in Hb'; [|done]. injection Hb' as <-.
  apply Forall_insert; [done|]. apply is_u8_lor; [by eapply Forall_lookup_1|].
  apply Z.mod_pos_bound; lia.
Qed.

(** Applying a bitmap gives a vector its validity and changes nothing else. *)
Lemma ApplyBitmap_spec bm vec :
  dv_count vec <= STANDARD_VECTOR_SIZE ->
  exists v, ApplyBitmap bm vec = Ok v /\ cells v = cells vec /\ dv_type v = dv_type vec /\
    dv_count v = dv_count vec /\
    forall i, IsNull v i = if decide (i < dv_count vec) then negb (buf_bit bm i) else IsNull vec i.
Proof.
  intros Hc. unfold ApplyBitmap.
  destruct (foldM_invariant (fun pre v =>
      cells v = cells vec /\ dv_type v = dv_type vec /\ dv_count v = dv_count vec /\
      forall i, IsNull v i = if decide (i < length pre) then negb (buf_bit bm i) else IsNull vec i)
    (fun v i => if bm_IsNull bm i then SetNull v i else SetValid v i) vec (seq 0 (dv_count vec)))
    as (v & -> & H1 & H2 & H3 & H4).
  - done.
  - intros pre x v (H1 & H2 & H3 & H4) [suf Hx].
    assert (x = length pre /\ x < dv_count vec) as [-> Hlt].
    { assert (seq 0 (dv_count vec) !! length pre = Some x) as Hs
        by (rewrite Hx, list_lookup_middle; done).
      apply lookup_seq in Hs. lia. }
    rewrite bm_IsNull_bit, length_app. simpl. destruct (buf_bit bm (length pre)) eqn:E; simpl.
    + destruct (SetValid_Ok v (length pre)) as (v' & -> & G1 & G2 & G3 & G4); [lia|].
      exists v'. split_and!; [done|congruence..|]. intros i. rewrite G4, H4.
      destruct (decide (length pre = i)) as [<-|]; [rewrite bool_decide_true by done|
        rewrite bool_decide_false by done]; simpl.
      * rewrite decide_True by lia. by rewrite E.
      * destruct (decide (i < length pre)), (decide (i < length pre + 1)); done || lia.
    + destruct (SetNull_Ok v (length pre)) as (v' & -> & G1 & G2 & G3 & G4); [lia|].
      exists v'. split_and!; [done|congruence..|]. intros i. rewrite G4, H4.
      destruct (decide (length pre = i)) as [<-|]; [rewrite bool_decide_true by done|
        rewrite bool_decide_false by done]; simpl.
      * rewrite decide_True by lia. by rewrite E.
      * destruct (decide (i < length pre)), (decide (i < length pre + 1)); done || lia.
  - exists v. rewrite length_seq in H4. done.
Qed.

(** ** Decoding row by row

    The run-length and the dictionary decoder fill a value array and a
    bitmap from row 0 upwards: rows below [i] hold the rows of the input,
    the bits from [i] on are still clear. *)

Definition decoded_upto {A} (i n : nat) (values : list A) (bitmap : list Z)
    (out : list A) (bm : list Z) : Prop :=
  length out = n /\ length bm = BitmapBytes n /\
  (forall j, i <= j -> buf_bit bm j = false) /\
  (forall j, j < i -> buf_bit bm j = buf_bit bitmap j) /\
  (forall j, j < i -> buf_bit bitmap j = true -> out !! j = values !! j).

Lemma decoded_0 {A} n (d : A) values bitmap :
  decoded_upto 0 n values bitmap (replicate n d) (replicate (BitmapBytes n) 0%Z).
Proof.
  split_and!; [apply length_replicate|apply length_replicate| |lia|lia].
  intros j _. apply buf_bit_zero.
Qed.

(** Skipping NULL rows. *)
Lemma decoded_skip {A} i run n (values : list A) bitmap out bm :
  decoded_upto i n values bitmap out bm ->
  (forall j, i <= j < i + run -> buf_bit bitmap j = false) ->
  decoded_upto (i + run) n values bitmap out bm.
Proof.
  intros (Hlo & Hlb & Hclear & Hbits & Hvals) Hnull. split_and!; [done|done| | |].
  - intros j Hj. apply Hclear. lia.
  - intros j Hj. destruct (decide (j < i)); [auto|]. rewrite Hclear, Hnull by lia. done.
  - intros j Hj Hbj. destruct (decide (j < i)); [auto|]. rewrite Hnull in Hbj by lia. done.
Qed.

(** Writing the value of row [i] and setting its bit. *)
Lemma decoded_write {A} i n x (values : list A) bitmap out bm :
  decoded_upto i n values bitmap out bm -> i < n ->
  buf_bit bitmap i = true -> values !! i = Some x ->
  exists out' bm', write_at i [x] out = Ok out' /\ bm_set bm i = Ok bm' /\
    decoded_upto (S i) n values bitmap out' bm'.
Proof.
  intros (Hlo & Hlb & Hclear & Hbits & Hvals) Hi Hbit Hx.
  destruct (write_at_Ok i [x] out) as (out1 & -> & Hl1 & Hnew & Hold); [simpl; lia|].
  destruct (bm_set_spec bm i) as (bm1 & -> & Hlb1 & Hb1); [rewrite Hlb; by apply BitmapBytes_cover|].
  exists out1, bm1. split; [done|]. split; [done|]. split_and!; [lia|lia| | |].
  - intros j Hj. rewrite Hb1, Hclear, bool_decide_false by lia. done.
  - intros j Hj. rewrite Hb1. destruct (decide (j = i)) as [->|].
    + by rewrite bool_decide_true.
    + rewrite bool_decide_false by done. apply Hbits. lia.
  - intros j Hj Hbj. destruct (decide (j = i)) as [->|].
    + rewrite <- (Nat.add_0_r i) at 1. rewrite Hnew by (simpl; lia). by rewrite Hx.
    + rewrite Hold by (simpl; lia). apply Hvals; [lia|done].
Qed.
