(* ===== verification/Delta.v ===== *)
(** * Delta encoding: [src/storage/column/compression/delta.cpp]

    The first value in full, then the difference of each value to its
    predecessor truncated to 32 bits. *)

From Stdlib Require Import ZArith.
From stdpp Require Import base list.
From S2P Require Import Prelude.

(** ** Code *)

Fixpoint delta_bytes (prev : Z) (vs : list Z) : list Z :=
  match vs with
  | [] => []
  | v :: vs => le_bytes 4 (u32 (i32 (v - prev))) ++ delta_bytes v vs
  end.

(** The bytes written; [values[0]] must exist. *)
Definition DeltaEncode (values : list Z) : result (list Z) :=
  match values with
  | [] => Err UndefinedBehaviour
  | v :: vs => Ok (le_bytes 8 (u64 v) ++ delta_bytes v vs)
  end.

Fixpoint delta_loop (n : nat) (prev : Z) (src : list Z) : result (list Z) :=
  match n with
  | O => Ok []
  | S n =>
      '(u, src) ← rd_le 4 src;
      let v := i64 (prev + i32 u) in
      vs ← delta_loop n v src;
      Ok (v :: vs)
  end.

(** [values_out[0]] is written whatever the row count. *)
Definition DeltaDecode (src : list Z) (row_count : nat) : result (list Z) :=
  match row_count with
  | O => Err UndefinedBehaviour
  | S n =>
      '(first, src) ← rd_le 8 src;
      vs ← delta_loop n (i64 first) src;
      Ok (i64 first :: vs)
  end.

(** ** Round trip *)

(** Every value is within 32 signed bits of its predecessor. *)
Fixpoint small_steps (prev : Z) (vs : list Z) : Prop :=
  match vs with
  | [] => True
  | v :: vs => is_i64 v /\ is_i32 (v - prev) /\ small_steps v vs
  end.

Lemma delta_loop_bytes prev vs rest :
  small_steps prev vs -> delta_loop (length vs) prev (delta_bytes prev vs ++ rest) = Ok vs.
Proof.
  revert prev; induction vs as [|v vs IH]; intros prev; [done|].
  cbn [small_steps delta_bytes delta_loop length].
  intros (Hv & Hd & Hs). rewrite <- app_assoc, rd_le_bytes. cbn [mbind result_bind].
  change (u32 (i32 (v - prev)) mod 2 ^ (8 * Z.of_nat 4))%Z with (u32 (u32 (i32 (v - prev)))).
  rewrite !i32_u32, (i32_id (v - prev)), i32_id by done.
  replace (prev + (v - prev))%Z with v by lia. rewrite i64_id by done.
  by rewrite IH.
Qed.

Lemma Delta_rt v vs rest :
  is_i64 v -> small_steps v vs ->
  DeltaDecode ((le_bytes 8 (u64 v) ++ delta_bytes v vs) ++ rest) (S (length vs)) = Ok (v :: vs).
Proof.
  intros Hv Hs. unfold DeltaDecode. rewrite <- app_assoc, rd_le_bytes. cbn [mbind result_bind].
  change (u64 v mod 2 ^ (8 * Z.of_nat 8))%Z with (u64 (u64 v)).
  rewrite !i64_u64, i64_id by done. by rewrite delta_loop_bytes.
Qed.

(** Delta encoding round trips on every column whose consecutive
    differences fit a signed 32-bit integer, whatever bytes follow. *)
Theorem Delta_roundtrip v vs rest :
  is_i64 v -> small_steps v vs ->
  exists bs, DeltaEncode (v :: vs) = Ok bs /\ length bs = 8 + 4 * length vs /\
    DeltaDecode (bs ++ rest) (S (length vs)) = Ok (v :: vs).
Proof.
  intros Hv Hs. eexists; split; [done|]. split.
  - rewrite length_app, length_le_bytes. f_equal. clear. revert v.
    induction vs as [|w vs IH]; intros v; [done|]. cbn [delta_bytes length]. rewrite length_app, length_le_bytes, IH. lia.
  - by apply Delta_rt.
Qed.

Lemma Delta_roundtrip_witness :
  exists bs, DeltaEncode [100000000000; 100000000007; 100000000005]%Z = Ok bs /\
    length bs = 8 + 4 * 2 /\
    DeltaDecode (bs ++ [9%Z]) 3 = Ok [100000000000; 100000000007; 100000000005]%Z.
Proof.
  apply (Delta_roundtrip 100000000000 [100000000007; 100000000005]%Z [9%Z]);
    repeat split; simpl; lia.
Defined.
