(* ===== verification/Rle.v ===== *)
(** * Run-length encoding: [src/storage/column/compression/rle.cpp]

    A stream of runs: tag 0 and a count for NULLs, tag 1, a value and a
    count for equal values. *)

From Stdlib Require Import ZArith.
From stdpp Require Import base list.
From S2P Require Import Prelude Types BitPacking Bitmap.

Definition TAG_NULL : Z := 0%Z.
Definition TAG_VALUE : Z := 1%Z.

(** ** Code *)

(** How many consecutive positions from [i] on satisfy [p], at most [n]. *)
Fixpoint run_length (p : nat -> bool) (i n : nat) : nat :=
  match n with
  | O => 0
  | S n => if p i then S (run_length p (S i) n) else 0
  end.

(** The loop of [RleEncode] from row [i]; every round advances, so
    [row_count] rounds are enough. *)
Fixpoint RleEncode_loop (fuel : nat) (values : list Z) (row_count : nat) (bitmap : list Z) (i : nat)
    : result (list Z) :=
  match fuel with
  | O => Ok []
  | S fuel =>
      if decide (i < row_count) then
        if bm_IsNull bitmap i then
          let run := run_length (bm_IsNull bitmap) i (row_count - i) in
          rest ← RleEncode_loop fuel values row_count bitmap (i + run);
          Ok (TAG_NULL :: le_bytes 4 (u32 (Z.of_nat run)) ++ rest)
        else
          val ← of_option UndefinedBehaviour (values !! i);
          let run := S (run_length
            (fun j => negb (bm_IsNull bitmap j) && bool_decide (values !! j = Some val))
            (S i) (row_count - S i)) in
          rest ← RleEncode_loop fuel values row_count bitmap (i + run);
          Ok (TAG_VALUE :: le_bytes 8 (u64 val) ++ le_bytes 4 (u32 (Z.of_nat run)) ++ rest)
      else Ok []
  end.

Definition RleEncode (values : list Z) (row_count : nat) (bitmap : list Z) : result (list Z) :=
  RleEncode_loop row_count values row_count bitmap 0.

(** The inner loop [for (k = 0; k < count && out_i < row_count; ...)]. *)
Fixpoint rle_fill (count row_count : nat) (val : Z) (out_i : nat) (values bitmap : list Z)
    : result (nat * list Z * list Z) :=
  match count with
  | O => Ok (out_i, values, bitmap)
  | S count =>
      if decide (out_i < row_count) then
        values ← write_at out_i [val] values;
        bitmap ← bm_set bitmap out_i;
        rle_fill count row_count val (S out_i) values bitmap
      else Ok (out_i, values, bitmap)
  end.

(** The loop of [RleDecode]; a round reads at least five bytes of [src]. *)
Fixpoint RleDecode_loop (fuel : nat) (src : list Z) (row_count out_i : nat) (values bitmap : list Z)
    : result (list Z * list Z) :=
  if decide (out_i < row_count) then
    match fuel with
    | O => Err UndefinedBehaviour
    | S fuel =>
        '(tag, src) ← rd_le 1 src;
        if Z.eqb tag TAG_NULL then
          '(count, src) ← rd_le 4 src;
          RleDecode_loop fuel src row_count (out_i + Z.to_nat count) values bitmap
        else
          '(u, src) ← rd_le 8 src;
          '(count, src) ← rd_le 4 src;
          '(out_i, values, bitmap) ← rle_fill (Z.to_nat count) row_count (i64 u) out_i values bitmap;
          RleDecode_loop fuel src row_count out_i values bitmap
    end
  else Ok (values, bitmap).

(** [values_out] is the zeroed array of the destination vector; the bitmap
    is cleared first. *)
Definition RleDecode (src : list Z) (row_count : nat) (values_out : list Z)
    : result (list Z * list Z) :=
  RleDecode_loop (length src) src row_count 0 values_out (replicate (BitmapBytes row_count) 0%Z).

(** ** Round trip *)

Lemma run_length_spec p i n :
  run_length p i n <= n /\
  (forall j, i <= j < i + run_length p i n -> p j = true).
Proof.
  revert i; induction n as [|n IH]; intros i; simpl; [split; [lia|]; intros; lia|].
  destruct (p i) eqn:E; [|split; [lia|]; intros; lia].
  destruct (IH (S i)) as [Hl Hp]. split; [lia|]. intros j Hj.
  destruct (decide (j = i)) as [->|]; [done|]. apply Hp. lia.
Qed.

Lemma run_length_pos p i n : 0 < n -> p i = true -> 0 < run_length p i n.
Proof. destruct n; simpl; [lia|]. intros _ ->. lia. Qed.

Lemma rle_fill_spec count n val i values bitmap out bm :
  decoded_upto i n values bitmap out bm -> i + count <= n ->
  (forall j, i <= j < i + count -> buf_bit bitmap j = true /\ values !! j = Some val) ->
  exists out' bm', rle_fill count n val i out bm = Ok (i + count, out', bm') /\
    decoded_upto (i + count) n values bitmap out' bm'.
Proof.
  revert i out bm; induction count as [|count IH]; intros i out bm Hd Hle Hrun; cbn [rle_fill].
  { rewrite Nat.add_0_r. eauto. }
  rewrite decide_True by lia. destruct (Hrun i ltac:(lia)) as [Hbit Hval].
  destruct (decoded_write i n val values bitmap out bm) as (out1 & bm1 & -> & Hbm & Hd1);
    [done|lia|done|done|].
  cbn [mbind result_bind]. rewrite Hbm. cbn [mbind result_bind].
  destruct (IH (S i) out1 bm1) as (out' & bm' & -> & Hd'); [done|lia|intros; apply Hrun; lia|].
  exists out', bm'. split; [do 3 f_equal; lia|].
  by replace (i + S count) with (S i + count) by lia.
Qed.

(** The rows that are not NULL have a 64-bit value. *)
Definition rle_input (values : list Z) (n : nat) (bitmap : list Z) : Prop :=
  forall i, i < n -> buf_bit bitmap i = true -> exists v, values !! i = Some v /\ is_i64 v.

Lemma rd_le1_cons b src : is_u8 b -> rd_le 1 (b :: src) = Ok (b, src).
Proof.
  intros Hb. unfold rd_le, rd_bytes. rewrite decide_True by (simpl; lia).
  cbn [mbind result_bind take drop]. do 2 f_equal. by apply le_val_one.
Qed.

Lemma RleDecode_Encode_loop values n bitmap fuel i bs :
  rle_input values n bitmap -> (Z.of_nat n < 2 ^ 32)%Z ->
  n - i <= fuel -> i <= n ->
  RleEncode_loop fuel values n bitmap i = Ok bs ->
  forall rest fuel' out bm, length bs <= fuel' ->
    decoded_upto i n values bitmap out bm ->
    exists out' bm', RleDecode_loop fuel' (bs ++ rest) n i out bm = Ok (out', bm') /\
      decoded_upto n n values bitmap out' bm'.
Proof.
  intros Hin Hn. revert i bs; induction fuel as [|fuel IH]; intros i bs Hf Hi Henc rest fuel' out bm Hf' Hd.
  { assert (i = n) as -> by lia. exists out, bm. destruct fuel'; simpl; rewrite decide_False by lia; done. }
  cbn [RleEncode_loop] in Henc. destruct (decide (i < n)) as [Hlt|Hge].
  2: { assert (i = n) as -> by lia. exists out, bm.
       destruct fuel'; simpl; rewrite decide_False by lia; done. }
  destruct (bm_IsNull bitmap i) eqn:Enull.
  - set (run := run_length _ i (n - i)) in *.
    destruct (run_length_spec (bm_IsNull bitmap) i (n - i)) as [Hrl Hrp]. fold run in Hrl, Hrp.
    pose proof (run_length_pos (bm_IsNull bitmap) i (n - i) ltac:(lia) Enull) as Hpos. fold run in Hpos.
    apply bind_Ok_inv in Henc as (tl & Htl & Hbs). injection Hbs as <-.
    destruct fuel' as [|fuel']; [simpl in Hf'; lia|]. cbn [RleDecode_loop].
    rewrite decide_True by done. rewrite <- app_comm_cons, rd_le1_cons by done. cbn [mbind result_bind].
    rewrite Z.eqb_refl, <- app_assoc, rd_le_bytes. cbn [mbind result_bind].
    rewrite u32_id, Z.mod_small, Nat2Z.id by (unfold is_u32; lia).
    apply (IH (i + run) tl); [lia|lia|done|simpl in Hf'; len|].
    apply decoded_skip; [done|]. intros j Hj. apply Hrp in Hj. rewrite bm_IsNull_bit in Hj.
    by destruct (buf_bit bitmap j).
  - apply bind_Ok_inv in Henc as (val & Hval & Henc).
    destruct (values !! i) as [val'|] eqn:Ev; [|done]. injection Hval as ->.
    set (q := fun j => negb (bm_IsNull bitmap j) && bool_decide (values !! j = Some val)) in *.
    destruct (run_length_spec q (S i) (n - S i)) as [Hrl Hrp].
    set (run := run_length q (S i) (n - S i)) in *.
    apply bind_Ok_inv in Henc as (tl & Htl & Hbs). injection Hbs as <-.
    assert (buf_bit bitmap i = true) as Ebit by (rewrite bm_IsNull_bit in Enull; by destruct (buf_bit bitmap i)).
    assert (is_i64 val) as Hv64 by (destruct (Hin i Hlt Ebit) as (v' & Hv' & ?); congruence).
    destruct fuel' as [|fuel']; [simpl in Hf'; lia|]. cbn [RleDecode_loop].
    rewrite decide_True by done. rewrite <- app_comm_cons, rd_le1_cons by done. cbn [mbind result_bind].
    change (Z.eqb TAG_VALUE TAG_NULL) with false. cbn iota.
    rewrite <- !app_assoc, rd_le_bytes. cbn [mbind result_bind]. rewrite rd_le_bytes.
    cbn [mbind result_bind].
    change (u64 val mod 2 ^ (8 * Z.of_nat 8))%Z with (u64 (u64 val)).
    rewrite !i64_u64, i64_id by done.
    rewrite u32_id, Z.mod_small, Nat2Z.id by (unfold is_u32; lia).
    destruct (rle_fill_spec (S run) n val i values bitmap out bm) as (out1 & bm1 & -> & Hd1);
      [done|lia| |].
    { intros j Hj. destruct (decide (j = i)) as [->|]; [done|].
      specialize (Hrp j ltac:(lia)). unfold q in Hrp. rewrite bm_IsNull_bit, negb_involutive in Hrp.
      apply andb_true_iff in Hrp as [Hb Hd']. by apply bool_decide_eq_true in Hd'. }
    cbn [mbind result_bind]. apply (IH (i + S run) tl); [lia|lia|done|simpl in Hf'; len|done].
Qed.

Lemma RleEncode_loop_Ok values n bitmap fuel i :
  rle_input values n bitmap -> exists bs, RleEncode_loop fuel values n bitmap i = Ok bs.
Proof.
  intros Hin. revert i; induction fuel as [|fuel IH]; intros i; cbn [RleEncode_loop]; [eauto|].
  destruct (decide (i < n)) as [Hlt|]; [|eauto]. destruct (bm_IsNull bitmap i) eqn:E.
  - destruct (IH (i + run_length (bm_IsNull bitmap) i (n - i))) as [tl ->]. simpl. eauto.
  - rewrite bm_IsNull_bit in E. destruct (Hin i Hlt) as (v & -> & _); [by destruct (buf_bit bitmap i)|].
    cbn [of_option mbind result_bind].
    match goal with |- context [RleEncode_loop _ _ _ _ ?k] => destruct (IH k) as [tl ->] end.
    simpl. eauto.
Qed.

Lemma Rle_rt values n bitmap bs rest :
  rle_input values n bitmap -> (Z.of_nat n < 2 ^ 32)%Z -> RleEncode values n bitmap = Ok bs ->
  exists out bm, RleDecode (bs ++ rest) n (replicate n 0%Z) = Ok (out, bm) /\
    length out = n /\
    forall i, i < n -> buf_bit bm i = buf_bit bitmap i /\
      (buf_bit bitmap i = true -> out !! i = values !! i).
Proof.
  intros Hin Hn Hbs.
  destruct (RleDecode_Encode_loop values n bitmap n 0 bs Hin Hn ltac:(lia) ltac:(lia) Hbs
    rest (length (bs ++ rest)) (replicate n 0%Z) (replicate (BitmapBytes n) 0%Z))
    as (out & bm & Hdec & Hlo & Hlb & _ & Hbits & Hvals); [len|apply decoded_0|].
  exists out, bm. split_and!; [done|done|]. intros i Hi. split; auto.
Qed.

(** Run-length encoding round trips on every column of 64-bit integers
    and every NULL pattern: the decoder restores the validity of each row and
    the value of each row that is not NULL, whatever bytes follow. *)
Theorem Rle_roundtrip values n bitmap rest :
  rle_input values n bitmap -> (Z.of_nat n < 2 ^ 32)%Z ->
  exists bs out bm, RleEncode values n bitmap = Ok bs /\
    RleDecode (bs ++ rest) n (replicate n 0%Z) = Ok (out, bm) /\
    length out = n /\
    forall i, i < n -> buf_bit bm i = buf_bit bitmap i /\
      (buf_bit bitmap i = true -> out !! i = values !! i).
Proof.
  intros Hin Hn. destruct (RleEncode_loop_Ok values n bitmap n 0 Hin) as [bs Hbs].
  destruct (Rle_rt values n bitmap bs rest Hin Hn Hbs) as (out & bm & H).
  exists bs, out, bm. split; [exact Hbs|exact H].
Qed.

Lemma Rle_roundtrip_witness :
  exists bs out bm, RleEncode [5; 5; 0; 7]%Z 4 [11%Z] = Ok bs /\
    RleDecode (bs ++ [1; 2]%Z) 4 (replicate 4 0%Z) = Ok (out, bm) /\
    length out = 4 /\
    forall i, i < 4 -> buf_bit bm i = buf_bit [11%Z] i /\
      (buf_bit [11%Z] i = true -> out !! i = [5; 5; 0; 7]%Z !! i).
Proof.
  apply (Rle_roundtrip [5; 5; 0; 7]%Z 4 [11%Z] [1; 2]%Z); [|lia].
  intros i Hi _. do 4 (destruct i as [|i]; [eexists; split; [done|unfold is_i64; lia]|]). lia.
Defined.
