(* ===== verification/Dictionary.v ===== *)
(** * Dictionary encoding: [src/storage/column/compression/dictionary.cpp]

    The distinct strings in order of first appearance, then one 16-bit code
    per row, [0xFFFF] for NULL. *)

From Stdlib Require Import ZArith String.
From stdpp Require Import base gmap strings list fin_maps.
From S2P Require Import Prelude Types BitPacking Bitmap.

Definition NULL_CODE : Z := 65535%Z.

(** ** Code *)

Record dict_state : Type := mkDict {
  dict : gmap string Z;          (* string to code *)
  dict_ordered : list string;    (* code to string *)
  codes : list Z;
}.

Definition dict_step (values : list string) (bitmap : list Z) (st : dict_state) (i : nat)
    : result dict_state :=
  if bm_IsNull bitmap i then Ok (mkDict (dict st) (dict_ordered st) (codes st ++ [NULL_CODE]))
  else
    s ← of_option UndefinedBehaviour (values !! i);
    match dict st !! s with
    | None =>
        let code := u16 (Z.of_nat (size (dict st))) in
        Ok (mkDict (<[s := code]> (dict st)) (dict_ordered st ++ [s]) (codes st ++ [code]))
    | Some code => Ok (mkDict (dict st) (dict_ordered st) (codes st ++ [code]))
    end.

Definition DictEncode (values : list string) (row_count : nat) (bitmap : list Z)
    : result (list Z) :=
  st ← foldM (dict_step values bitmap) (mkDict ∅ [] []) (seq 0 row_count);
  Ok (le_bytes 4 (Z.of_nat (length (dict_ordered st)))
      ++ concat (map str16 (dict_ordered st))
      ++ concat (map (le_bytes 2) (codes st))).

Fixpoint dict_codes (n i : nat) (src : list Z) (dict : list string)
    (values : list string) (bitmap : list Z) : result (list string * list Z) :=
  match n with
  | O => Ok (values, bitmap)
  | S n =>
      '(code, src) ← rd_le 2 src;
      if Z.eqb code NULL_CODE then dict_codes n (S i) src dict values bitmap
      else
        s ← of_option UndefinedBehaviour (dict !! Z.to_nat code);
        values ← write_at i [s] values;
        bitmap ← bm_set bitmap i;
        dict_codes n (S i) src dict values bitmap
  end.

Definition DictDecode (src : list Z) (row_count : nat) (values_out : list string)
    : result (list string * list Z) :=
  '(dict_size, src) ← rd_le 4 src;
  '(dict, src) ← rd_many rd_str16 (Z.to_nat dict_size) src;
  dict_codes row_count 0 src dict values_out (replicate (BitmapBytes row_count) 0%Z).

(** ** Round trip *)

(** What the encoder needs of its input: a string for every row that is not
    NULL, with a length that fits 16 bits. *)
Definition dict_input (values : list string) (n : nat) (bitmap : list Z) : Prop :=
  forall i, i < n -> buf_bit bitmap i = true ->
    exists s, values !! i = Some s /\ (Z.of_nat (String.length s) < 2 ^ 16)%Z.

Definition str_fits (s : string) : Prop := (Z.of_nat (String.length s) < 2 ^ 16)%Z.

(** Row [i] is encoded by [c]: NULL, or the index of its string. *)
Definition code_of (values : list string) (bitmap : list Z) (ordered : list string)
    (i : nat) (c : Z) : Prop :=
  if buf_bit bitmap i
  then exists k, c = Z.of_nat k /\ (Z.of_nat k < 65535)%Z /\ ordered !! k = values !! i
  else c = NULL_CODE.

(** The invariant of the encoder after [m] rows. *)
Record dict_inv (values : list string) (bitmap : list Z) (m : nat) (st : dict_state) : Prop := {
  inv_size : size (dict st) = length (dict_ordered st);
  inv_small : length (dict_ordered st) <= m;
  inv_fit : Forall str_fits (dict_ordered st);
  inv_dict : forall s c, dict st !! s = Some c ->
    exists k, c = Z.of_nat k /\ k < m /\ dict_ordered st !! k = Some s;
  inv_len : length (codes st) = m;
  inv_codes : forall i c, codes st !! i = Some c -> code_of values bitmap (dict_ordered st) i c;
}.

Lemma code_of_mono values bitmap o o' i c s :
  code_of values bitmap o i c -> values !! i = Some s \/ buf_bit bitmap i = false ->
  code_of values bitmap (o ++ o') i c.
Proof.
  unfold code_of. destruct (buf_bit bitmap i) eqn:E; [|done]. intros (k & -> & Hk & Hl) [Hs|]; [|done].
  exists k. split_and!; [done|done|]. rewrite lookup_app_l; [done|].
  rewrite Hs in Hl. by eapply lookup_lt_Some.
Qed.

Lemma snoc_codes values bitmap ordered cs c m :
  length cs = m ->
  (forall i c, cs !! i = Some c -> code_of values bitmap ordered i c) ->
  code_of values bitmap ordered m c ->
  forall i c', (cs ++ [c]) !! i = Some c' -> code_of values bitmap ordered i c'.
Proof.
  intros Hl Hall Hc i c' Hi. apply lookup_app_Some in Hi as [Hi|[Hge Hi]]; [auto|].
  destruct (i - length cs) as [|k] eqn:E; [|by destruct k]. simpl in Hi. injection Hi as <-.
  by replace i with m by lia.
Qed.

Lemma dict_step_inv values n bitmap st m :
  dict_input values n bitmap -> m < n -> (Z.of_nat n <= 65535)%Z -> dict_inv values bitmap m st ->
  exists st', dict_step values bitmap st m = Ok st' /\ dict_inv values bitmap (S m) st'.
Proof.
  intros Hin Hm Hn [Hs1 Hs2 Hfit Hd Hlen Hc]. unfold dict_step. rewrite bm_IsNull_bit.
  destruct (buf_bit bitmap m) eqn:E; simpl.
  - destruct (Hin m Hm E) as (s & Hs & Hfs). rewrite Hs. simpl.
    destruct (dict st !! s) as [c|] eqn:El.
    + eexists; split; [done|]. destruct (Hd _ _ El) as (k & -> & Hk & Ho).
      split; simpl; [done|lia|done| |len; simpl; lia|].
      * intros s' c' Hs'. destruct (Hd _ _ Hs') as (k' & -> & ? & ?). exists k'. split_and!; [done|lia|done].
      * eapply snoc_codes; [done|done|]. unfold code_of. rewrite E.
        exists k. split_and!; [done|lia|]. by rewrite Ho, Hs.
    + eexists; split; [done|]. rewrite Hs1, u16_id by (unfold is_u16; lia).
      split; simpl.
      * rewrite map_size_insert_None by done. rewrite length_app. simpl. lia.
      * rewrite length_app. simpl. lia.
      * apply Forall_app. auto.
      * intros s' c'. destruct (decide (s = s')) as [<-|Hne].
        -- rewrite lookup_insert_eq. intros [= <-]. exists (length (dict_ordered st)).
           split_and!; [done|lia|]. by apply list_lookup_middle.
        -- rewrite lookup_insert_ne by done. intros Hs'. destruct (Hd _ _ Hs') as (k' & -> & ? & Ho).
           exists k'. split_and!; [done|lia|]. rewrite lookup_app_l; [done|]. by eapply lookup_lt_Some.
      * len. simpl. lia.
      * eapply snoc_codes; [done| |].
        -- intros i c Hi. pose proof (lookup_lt_Some _ _ _ Hi).
           destruct (buf_bit bitmap i) eqn:Ei.
           ++ destruct (Hin i) as (si & Hsi & _); [lia|done|]. eapply code_of_mono; eauto.
           ++ eapply (code_of_mono _ _ _ _ _ _ s); eauto.
        -- unfold code_of. rewrite E. exists (length (dict_ordered st)).
           split_and!; [done|lia|]. rewrite Hs. by apply list_lookup_middle.
  - eexists; split; [done|]. split; simpl; [done|lia|done| |len; simpl; lia|].
    + intros s' c' Hs'. destruct (Hd _ _ Hs') as (k' & -> & ? & ?). exists k'. split_and!; [done|lia|done].
    + eapply snoc_codes; [done|done|]. unfold code_of. by rewrite E.
Qed.

Lemma dict_loop_inv values n bitmap :
  dict_input values n bitmap -> (Z.of_nat n <= 65535)%Z ->
  exists st, foldM (dict_step values bitmap) (mkDict ∅ [] []) (seq 0 n) = Ok st /\
    dict_inv values bitmap n st.
Proof.
  intros Hin Hn.
  destruct (foldM_invariant (fun pre st => dict_inv values bitmap (length pre) st)
    (dict_step values bitmap) (mkDict ∅ [] []) (seq 0 n)) as (st & Hst & Hinv).
  - split; simpl; done.
  - intros pre x st Hinv [suf Hx].
    assert (seq 0 n !! length pre = Some x) as Hs by (rewrite Hx, list_lookup_middle; done).
    apply lookup_seq in Hs as [-> Hlt]. simpl.
    rewrite length_app, Nat.add_comm. by eapply dict_step_inv.
  - rewrite length_seq in Hinv. eauto.
Qed.

Lemma dict_codes_spec values bitmap ordered n cs i out bm rest :
  (forall k c, cs !! k = Some c -> code_of values bitmap ordered (i + k) c) ->
  (forall k, i <= k < n -> buf_bit bitmap k = true -> is_Some (values !! k)) ->
  i + length cs = n -> decoded_upto i n values bitmap out bm ->
  exists out' bm', dict_codes (length cs) i (concat (map (le_bytes 2) cs) ++ rest) ordered out bm
      = Ok (out', bm') /\ decoded_upto n n values bitmap out' bm'.
Proof.
  revert i out bm; induction cs as [|c cs IH]; intros i out bm Hcs Hsome Hn Hup;
    cbn [length dict_codes map concat].
  { simpl in Hn. rewrite Nat.add_0_r in Hn. subst i. eauto. }
  simpl in Hn. rewrite <- app_assoc, rd_le_bytes. cbn [mbind result_bind].
  pose proof (Hcs 0 c eq_refl) as Hc. rewrite Nat.add_0_r in Hc. unfold code_of in Hc.
  assert (forall k c, cs !! k = Some c -> code_of values bitmap ordered (S i + k) c) as Hcs'
    by (intros k c' Hk; rewrite Nat.add_succ_comm; by apply (Hcs (S k))).
  destruct (buf_bit bitmap i) eqn:E.
  - destruct Hc as (k & -> & Hk & Ho). rewrite Z.mod_small by lia.
    replace (Z.eqb (Z.of_nat k) NULL_CODE) with false by (symmetry; apply Z.eqb_neq; unfold NULL_CODE; lia).
    rewrite Nat2Z.id, Ho. destruct (Hsome i ltac:(lia) E) as [s Hs]. rewrite Hs.
    cbn [of_option mbind result_bind].
    destruct (decoded_write i n s values bitmap out bm) as (out1 & bm1 & -> & Hbm & Hd1);
      [done|lia|done|done|].
    cbn [mbind result_bind]. rewrite Hbm. cbn [mbind result_bind].
    apply IH; [done|intros; apply Hsome; [lia|done]|lia|done].
  - subst c. change (NULL_CODE mod 2 ^ (8 * Z.of_nat 2))%Z with NULL_CODE. rewrite Z.eqb_refl.
    apply IH; [done|intros; apply Hsome; [lia|done]|lia|].
    rewrite <- Nat.add_1_r. apply decoded_skip; [done|]. intros j Hj. by replace j with i by lia.
Qed.

Lemma Dict_rt values n bitmap :
  dict_input values n bitmap -> (Z.of_nat n <= 65535)%Z ->
  exists bs, DictEncode values n bitmap = Ok bs /\ forall rest, exists out bm,
    DictDecode (bs ++ rest) n (replicate n ""%string) = Ok (out, bm) /\
    length out = n /\
    forall i, i < n -> buf_bit bm i = buf_bit bitmap i /\
      (buf_bit bitmap i = true -> out !! i = values !! i).
Proof.
  intros Hin Hn. destruct (dict_loop_inv values n bitmap Hin Hn) as (st & Hst & Hinv).
  unfold DictEncode. rewrite Hst. cbn [mbind result_bind]. eexists; split; [done|]. intros rest.
  destruct (dict_codes_spec values bitmap (dict_ordered st) n (codes st) 0
    (replicate n ""%string) (replicate (BitmapBytes n) 0%Z) rest) as (out & bm & Hdec & Hup).
  - intros k c Hk. by apply (inv_codes _ _ _ _ Hinv).
  - intros k Hk Hb. destruct (Hin k) as (s & Hs & _); [lia|done|eauto].
  - by rewrite (inv_len _ _ _ _ Hinv).
  - apply decoded_0.
  - rewrite (inv_len _ _ _ _ Hinv) in Hdec. pose proof (inv_small _ _ _ _ Hinv).
    exists out, bm. unfold DictDecode.
    rewrite <- !app_assoc, rd_le_bytes. cbn [mbind result_bind].
    rewrite Z.mod_small, Nat2Z.id by lia.
    rewrite (rd_many_codec str_fits str16 rd_str16 codec_str16) by apply Hinv.
    cbn [mbind result_bind]. destruct Hup as (Hlo & Hlb & _ & Hbits & Hvals).
    split_and!; [done|done|]. intros i Hi. split; auto.
Qed.

(** Dictionary encoding round trips on up to 65535 rows of strings
    shorter than 64 KiB: validity and strings come back, whatever bytes
    follow. *)
Theorem Dict_roundtrip values n bitmap rest :
  dict_input values n bitmap -> (Z.of_nat n <= 65535)%Z ->
  exists bs out bm, DictEncode values n bitmap = Ok bs /\
    DictDecode (bs ++ rest) n (replicate n ""%string) = Ok (out, bm) /\
    length out = n /\
    forall i, i < n -> buf_bit bm i = buf_bit bitmap i /\
      (buf_bit bitmap i = true -> out !! i = values !! i).
Proof.
  intros Hin Hn. destruct (Dict_rt values n bitmap Hin Hn) as (bs & Hbs & H).
  destruct (H rest) as (out & bm & Hd). exists bs, out, bm. split; [exact Hbs|exact Hd].
Qed.

Lemma Dict_roundtrip_witness :
  exists bs out bm, DictEncode ["a"; "bc"; "a"]%string 3 [5%Z] = Ok bs /\
    DictDecode (bs ++ [1; 2]%Z) 3 (replicate 3 ""%string) = Ok (out, bm) /\
    length out = 3 /\
    forall i, i < 3 -> buf_bit bm i = buf_bit [5%Z] i /\
      (buf_bit [5%Z] i = true -> out !! i = ["a"; "bc"; "a"]%string !! i).
Proof.
  apply (Dict_roundtrip ["a"; "bc"; "a"]%string 3 [5%Z] [1; 2]%Z); [|lia].
  intros i Hi _. do 3 (destruct i as [|i]; [eexists; split; [done|simpl; lia]|]). lia.
Defined.
