(* ===== verification/Compression.v ===== *)
(** * Segment compression: [src/storage/column/compression.cpp]

    The choice of a scheme for a vector, the layout of a segment block
    (9-byte header, validity bitmap, encoded data), compression into a block
    and decompression from it. *)

From Stdlib Require Import ZArith String.
From stdpp Require Import base gmap strings list fin_maps.
From S2P Require Import Prelude Types BitPacking Bitmap Delta Rle Dictionary.

(** ** Code *)

Inductive CompressionType : Type := UNCOMPRESSED | RLE | BIT_PACKED | DELTA | DICTIONARY.

#[export] Instance CompressionType_eq_dec : EqDecision CompressionType.
Proof. solve_decision. Defined.

Definition CompressionType_u8 (t : CompressionType) : Z :=
  match t with UNCOMPRESSED => 0 | RLE => 1 | BIT_PACKED => 2 | DELTA => 3 | DICTIONARY => 4 end%Z.
Definition CompressionType_of_u8 (b : Z) : option CompressionType :=
  match b with
  | 0 => Some UNCOMPRESSED | 1 => Some RLE | 2 => Some BIT_PACKED | 3 => Some DELTA
  | 4 => Some DICTIONARY | _ => None
  end%Z.

(** [bit_width] is only used by [BIT_PACKED]. *)
Record CompressionChoice : Type := mkChoice { cc_type : CompressionType; bit_width : nat }.

Definition HDR_SIZE : nat := 9.

(** [IsIntType] of this file: the types stored as integers. *)
Definition IsIntType (t : TypeId) : bool := bool_decide (storage_of t = SInt).
Definition IsFloatType (t : TypeId) : bool := bool_decide (storage_of t = SFloat).

(** The positions of the rows that are not NULL, the iterations that do not
    [continue]. *)
Definition valid_rows (vec : DataVector) : list nat :=
  filter (fun i => IsNull vec i = false) (seq 0 (dv_count vec)).

Definition valid_ints (vec : DataVector) : result (list Z) :=
  mapM_r (fun i => of_option UndefinedBehaviour (int_data vec !! i)) (valid_rows vec).

Definition AllIdentical (vec : DataVector) : result bool :=
  vs ← valid_ints vec;
  Ok (match vs with
      | [] => true
      | first :: vs => forallb (Z.eqb first) vs
      end).

(** [while ((1ULL << bits) <= range) ++bits;] a shift by 64 is undefined. *)
Fixpoint min_bits_loop (fuel bits : nat) (range : Z) : result nat :=
  match fuel with
  | O => Err UndefinedBehaviour
  | S fuel =>
      if Z.leb (Z.shiftl 1 (Z.of_nat bits)) range then min_bits_loop fuel (S bits) range
      else Ok bits
  end.

Definition MinBitsRequired (vec : DataVector) : result nat :=
  vs ← valid_ints vec;
  let mn := foldl (fun m v => if Z.ltb v m then v else m) INT64_MAX vs in
  let mx := foldl (fun m v => if Z.ltb m v then v else m) INT64_MIN vs in
  if Z.eqb mn INT64_MAX then Ok 0
  else
    let range := u64 (mx - mn) in
    if Z.eqb range 0 then Ok 1 else min_bits_loop 64 0 range.

Fixpoint monotonic (prev : Z) (vs : list Z) : bool :=
  match vs with
  | [] => true
  | v :: vs => if Z.ltb v prev then false else monotonic v vs
  end.
Definition IsMonotonic (vec : DataVector) : result bool :=
  vs ← valid_ints vec; Ok (monotonic INT64_MIN vs).

Definition CountDistinct (vec : DataVector) : result nat :=
  ss ← mapM_r (fun i => of_option UndefinedBehaviour (str_data vec !! i)) (valid_rows vec);
  Ok (size (list_to_set ss : gset string)).

Definition SelectCompression (vec : DataVector) : result CompressionChoice :=
  if decide (dv_count vec = 0) then Ok (mkChoice UNCOMPRESSED 0)
  else if IsIntType (dv_type vec) then
    same ← AllIdentical vec;
    if (same : bool) then Ok (mkChoice RLE 0)
    else
      bits ← MinBitsRequired vec;
      if decide (bits <= 32) then Ok (mkChoice BIT_PACKED bits)
      else
        mono ← IsMonotonic vec;
        if (mono : bool) then Ok (mkChoice DELTA 0) else Ok (mkChoice UNCOMPRESSED 0)
  else if IsFloatType (dv_type vec) then Ok (mkChoice UNCOMPRESSED 0)
  else if decide (dv_type vec = VARCHAR) then
    distinct ← CountDistinct vec;
    if decide (distinct <= 1000) then Ok (mkChoice DICTIONARY 0) else Ok (mkChoice UNCOMPRESSED 0)
  else Ok (mkChoice UNCOMPRESSED 0).

(** Row [i] of an array, or the default the source stores for NULL. *)
Definition row_or {A} (d : A) (arr : list A) (vec : DataVector) (i : nat) : result A :=
  if IsNull vec i then Ok d else of_option UndefinedBehaviour (arr !! i).

(** [tmp]: the integers with 0 for NULL. *)
Definition tmp_ints (vec : DataVector) : result (list Z) :=
  mapM_r (row_or 0%Z (int_data vec) vec) (seq 0 (dv_count vec)).

(** One string of the uncompressed layout: the length and as many bytes as
    the 16-bit length says. *)
Definition plain_str (s : string) : list Z :=
  le_bytes 2 (Z.of_nat (String.length s))
  ++ take (Z.to_nat (u16 (Z.of_nat (String.length s)))) (string_bytes s).

Definition plain_bytes (vec : DataVector) : result (list Z) :=
  let rows := seq 0 (dv_count vec) in
  if IsIntType (dv_type vec) then
    vs ← mapM_r (row_or 0%Z (int_data vec) vec) rows;
    Ok (concat (map (fun v => le_bytes 8 (u64 v)) vs))
  else if IsFloatType (dv_type vec) then
    vs ← mapM_r (row_or 0%Z (float_data vec) vec) rows;
    Ok (concat (map (le_bytes 8) vs))
  else
    ss ← mapM_r (row_or ""%string (str_data vec) vec) rows;
    Ok (concat (map plain_str ss)).

(** The data area of a segment, written at [off] of the block; returns the
    block and the number of data bytes. *)
Definition write_data (choice : CompressionChoice) (vec : DataVector) (bitmap : list Z)
    (off : nat) (block : list Z) : result (list Z * nat) :=
  let plain (bs : list Z) := block ← write_at off bs block; Ok (block, length bs) in
  match cc_type choice with
  | UNCOMPRESSED => bs ← plain_bytes vec; plain bs
  | RLE => bs ← RleEncode (int_data vec) (dv_count vec) bitmap; plain bs
  | BIT_PACKED =>
      block ← write_at off [u8 (Z.of_nat (bit_width choice))] block;
      tmp ← tmp_ints vec;
      '(area, n) ← BitPackEncode tmp (bit_width choice) (drop (off + 1) block);
      Ok (take (off + 1) block ++ area, S n)
  | DELTA => tmp ← tmp_ints vec; bs ← DeltaEncode tmp; plain bs
  | DICTIONARY => bs ← DictEncode (str_data vec) (dv_count vec) bitmap; plain bs
  end.

(** The packed [SegmentHeader]. *)
Definition segment_header (choice : CompressionChoice) (row_count bitmap_size : nat) : list Z :=
  le_bytes 1 (CompressionType_u8 (cc_type choice)) ++ le_bytes 4 (Z.of_nat row_count)
  ++ le_bytes 4 (Z.of_nat bitmap_size).

Definition Compress (choice : CompressionChoice) (vec : DataVector) (block : list Z)
    : result (list Z * nat) :=
  let row_count := dv_count vec in
  let bitmap_size := BitmapBytes row_count in
  bitmap ← BuildBitmap vec;
  block ← write_at HDR_SIZE bitmap block;
  '(block, data_bytes) ← write_data choice vec bitmap (HDR_SIZE + bitmap_size) block;
  block ← write_at 0 (segment_header choice row_count bitmap_size) block;
  Ok (block, HDR_SIZE + bitmap_size + data_bytes).

Definition rd_plain_str : reader string := rd_str16.

Definition Decompress (src : list Z) (col_type : TypeId) : result DataVector :=
  '(ctype, p) ← rd_le 1 src;
  '(row_count, p) ← rd_le 4 p;
  '(bitmap_size, p) ← rd_le 4 p;
  let row_count := Z.to_nat row_count in
  let bitmap_size := Z.to_nat bitmap_size in
  let bitmap := take bitmap_size p in
  let data := drop bitmap_size p in
  let dst := Reset col_type row_count in
  match CompressionType_of_u8 ctype with
  | Some UNCOMPRESSED =>
      if IsIntType col_type then
        '(us, _) ← rd_many (rd_le 8) row_count data;
        ApplyBitmap bitmap (with_int (map i64 us) dst)
      else if IsFloatType col_type then
        '(ds, _) ← rd_many (rd_le 8) row_count data;
        ApplyBitmap bitmap (with_float ds dst)
      else
        '(ss, _) ← rd_many rd_plain_str row_count data;
        ApplyBitmap bitmap (with_str ss dst)
  | Some RLE =>
      '(vs, rle_bitmap) ← RleDecode data row_count (int_data dst);
      ApplyBitmap rle_bitmap (with_int vs dst)
  | Some BIT_PACKED =>
      '(width, area) ← rd_le 1 data;
      vs ← BitPackDecode area row_count (Z.to_nat width);
      ApplyBitmap bitmap (with_int vs dst)
  | Some DELTA =>
      vs ← DeltaDecode data row_count;
      ApplyBitmap bitmap (with_int vs dst)
  | Some DICTIONARY =>
      '(ss, dict_bitmap) ← DictDecode data row_count (str_data dst);
      ApplyBitmap dict_bitmap (with_str ss dst)
  | None => ApplyBitmap bitmap dst
  end.

(** ** What can be stored *)

Definition cell_ok (c : cell) : Prop :=
  match c with
  | CInt z => is_i64 z
  | CFloat b => is_u64 b
  | CStr s => str_fits s
  end.

(** A well-formed, non-empty vector whose values are in the range of their
    C++ type and whose strings have a 16-bit length. *)
Record vec_ok (vec : DataVector) : Prop := {
  vo_wf : dv_wf vec;
  vo_pos : 0 < dv_count vec;
  vo_cells : forall i c, dv_row vec i = Some c -> cell_ok c;
}.

(** The decoded vector [v] stands for the same column as [vec]. *)
Definition seg_equiv (vec v : DataVector) : Prop :=
  dv_wf v /\ dv_full v /\ dv_type v = dv_type vec /\ dv_rows v = dv_rows vec.

(** What a scheme demands of the vector. *)
Definition scheme_ok (choice : CompressionChoice) (vec : DataVector) : Prop :=
  match cc_type choice with
  | UNCOMPRESSED => True
  | RLE => storage_of (dv_type vec) = SInt
  | BIT_PACKED => storage_of (dv_type vec) = SInt /\ bit_width choice <= 64 /\
      exists tmp, tmp_ints vec = Ok tmp /\
        forall v w, v ∈ tmp -> w ∈ tmp -> (v - w < 2 ^ Z.of_nat (bit_width choice))%Z
  | DELTA => storage_of (dv_type vec) = SInt /\
      exists v vs, tmp_ints vec = Ok (v :: vs) /\ is_i64 v /\ small_steps v vs
  | DICTIONARY => storage_of (dv_type vec) = SStr
  end.

(** The bytes of the data area a scheme writes. *)
Definition area_needed (choice : CompressionChoice) (vec : DataVector) (bitmap : list Z)
    : result nat :=
  match cc_type choice with
  | UNCOMPRESSED => length <$> plain_bytes vec
  | RLE => length <$> RleEncode (int_data vec) (dv_count vec) bitmap
  | BIT_PACKED => Ok (1 + (8 + ((bit_width choice * dv_count vec + 7) / 8 + 1)))
  | DELTA => tmp ← tmp_ints vec; length <$> DeltaEncode tmp
  | DICTIONARY => length <$> DictEncode (str_data vec) (dv_count vec) bitmap
  end.

(** ** Lemmas *)

Lemma ApplyBitmap_rows vec base bm :
  dv_wf vec -> dv_type base = dv_type vec -> dv_count base = dv_count vec ->
  length (cells base) = dv_count vec ->
  (forall i, IsNull base i = true) ->
  (forall i, i < dv_count vec -> buf_bit bm i = negb (IsNull vec i)) ->
  (forall i, i < dv_count vec -> IsNull vec i = false -> cells base !! i = cells vec !! i) ->
  exists v, ApplyBitmap bm base = Ok v /\ seg_equiv vec v.
Proof.
  intros Hwf Ht Hc Hl Hnull Hbits Hcells. pose proof Hwf as [Hst Hcnt Hclear Hce].
  destruct (ApplyBitmap_spec bm base) as (v & -> & Hvc & Hvt & Hvn & HvN); [lia|].
  assert (forall i, IsNull v i = IsNull vec i) as HN.
  { intros i. rewrite HvN, Hc. destruct (decide (i < dv_count vec)).
    - by rewrite Hbits, negb_involutive.
    - rewrite Hnull, Hclear by lia. done. }
  exists v. split; [done|]. split_and!.
  - split; rewrite ?Hvt, ?Ht, ?Hvn, ?Hc, ?Hvc, ?Hl; [done|done| |].
    + intros i Hi. rewrite HN. auto.
    + intros i. rewrite HN. intros Hi. destruct (decide (i < dv_count vec)); [done|].
      rewrite Hclear in Hi by lia. done.
  - unfold dv_full. rewrite Hvc, Hl. lia.
  - congruence.
  - apply dv_rows_ext; [len|]. intros i Hi. rewrite length_dv_rows in Hi.
    rewrite lookup_dv_rows by done. f_equal. unfold dv_row. rewrite HN, Hvc.
    destruct (IsNull vec i) eqn:E; [done|]. symmetry. auto.
Qed.

Lemma IsNull_Reset t n i : IsNull (Reset t n) i = true.
Proof. unfold Reset, IsNull. destruct (storage_of t); simpl; by rewrite Z.bits_0. Qed.

Lemma Reset_fields t n : dv_type (Reset t n) = t /\ dv_count (Reset t n) = n.
Proof. unfold Reset. by destruct (storage_of t). Qed.

(** The three ways a decoded array becomes the vector. *)
Lemma apply_ints vec arr bm :
  dv_wf vec -> storage_of (dv_type vec) = SInt -> length arr = dv_count vec ->
  (forall i, i < dv_count vec -> buf_bit bm i = negb (IsNull vec i)) ->
  (forall i, i < dv_count vec -> IsNull vec i = false -> arr !! i = int_data vec !! i) ->
  exists v, ApplyBitmap bm (with_int arr (Reset (dv_type vec) (dv_count vec))) = Ok v /\ seg_equiv vec v.
Proof.
  intros Hwf Hs Hl Hb Ha. destruct (Reset_fields (dv_type vec) (dv_count vec)) as [Ht Hc].
  apply ApplyBitmap_rows; try done.
  - unfold cells. simpl. rewrite Ht, Hs. by rewrite length_fmap.
  - intros i. apply IsNull_Reset.
  - intros i Hi Hn. unfold cells. simpl. rewrite Ht, Hs. rewrite !list_lookup_fmap. by rewrite Ha.
Qed.

Lemma apply_floats vec arr bm :
  dv_wf vec -> storage_of (dv_type vec) = SFloat -> length arr = dv_count vec ->
  (forall i, i < dv_count vec -> buf_bit bm i = negb (IsNull vec i)) ->
  (forall i, i < dv_count vec -> IsNull vec i = false -> arr !! i = float_data vec !! i) ->
  exists v, ApplyBitmap bm (with_float arr (Reset (dv_type vec) (dv_count vec))) = Ok v /\ seg_equiv vec v.
Proof.
  intros Hwf Hs Hl Hb Ha. destruct (Reset_fields (dv_type vec) (dv_count vec)) as [Ht Hc].
  apply ApplyBitmap_rows; try done.
  - unfold cells. simpl. rewrite Ht, Hs. by rewrite length_fmap.
  - intros i. apply IsNull_Reset.
  - intros i Hi Hn. unfold cells. simpl. rewrite Ht, Hs. rewrite !list_lookup_fmap. by rewrite Ha.
Qed.

Lemma apply_strs vec arr bm :
  dv_wf vec -> storage_of (dv_type vec) = SStr -> length arr = dv_count vec ->
  (forall i, i < dv_count vec -> buf_bit bm i = negb (IsNull vec i)) ->
  (forall i, i < dv_count vec -> IsNull vec i = false -> arr !! i = str_data vec !! i) ->
  exists v, ApplyBitmap bm (with_str arr (Reset (dv_type vec) (dv_count vec))) = Ok v /\ seg_equiv vec v.
Proof.
  intros Hwf Hs Hl Hb Ha. destruct (Reset_fields (dv_type vec) (dv_count vec)) as [Ht Hc].
  apply ApplyBitmap_rows; try done.
  - unfold cells. simpl. rewrite Ht, Hs. by rewrite length_fmap.
  - intros i. apply IsNull_Reset.
  - intros i Hi Hn. unfold cells. simpl. rewrite Ht, Hs. rewrite !list_lookup_fmap. by rewrite Ha.
Qed.

(** The array read with a default for NULL rows. *)
Definition rows_or {A} (d : A) (arr : list A) (vec : DataVector) : list A :=
  map (fun i => if IsNull vec i then d else default d (arr !! i)) (seq 0 (dv_count vec)).

Lemma row_or_mapM {A} (d : A) (arr : list A) vec :
  (forall i, IsNull vec i = false -> i < length arr) ->
  mapM_r (row_or d arr vec) (seq 0 (dv_count vec)) = Ok (rows_or d arr vec).
Proof.
  intros H. apply mapM_r_Ok. intros i _. unfold row_or.
  destruct (IsNull vec i) eqn:E; [done|].
  destruct (lookup_lt_is_Some_2 arr i (H i E)) as [x ->]. done.
Qed.

Lemma length_rows_or {A} (d : A) arr vec : length (rows_or d arr vec) = dv_count vec.
Proof. unfold rows_or. by rewrite length_map, length_seq. Qed.

Lemma lookup_rows_or {A} (d : A) arr vec i :
  i < dv_count vec ->
  rows_or d arr vec !! i = Some (if IsNull vec i then d else default d (arr !! i)).
Proof.
  intros H. unfold rows_or. etransitivity; [apply (list_lookup_fmap _ (seq 0 _))|].
  by rewrite lookup_seq_lt.
Qed.

Lemma rows_or_valid {A} (d : A) arr vec i :
  (forall i, IsNull vec i = false -> i < length arr) ->
  i < dv_count vec -> IsNull vec i = false -> rows_or d arr vec !! i = arr !! i.
Proof.
  intros Hl Hi Hn. rewrite lookup_rows_or, Hn by done.
  destruct (lookup_lt_is_Some_2 arr i (Hl i Hn)) as [x ->]. done.
Qed.

(** Every element of [rows_or] is the default or a stored value. *)
Lemma rows_or_Forall {A} (P : A -> Prop) d arr vec :
  P d -> (forall i x, IsNull vec i = false -> arr !! i = Some x -> P x) ->
  Forall P (rows_or d arr vec).
Proof.
  intros Hd Harr. unfold rows_or. apply Forall_map, Forall_forall. intros i _. simpl.
  destruct (IsNull vec i) eqn:E; [done|]. destruct (arr !! i) eqn:Ei; [by eapply Harr|done].
Qed.

Lemma valid_int vec i :
  vec_ok vec -> storage_of (dv_type vec) = SInt -> IsNull vec i = false ->
  exists v, int_data vec !! i = Some v /\ is_i64 v.
Proof.
  intros [Hwf _ Hc] Hs Hn. pose proof (wf_cells _ Hwf i Hn) as Hl. unfold cells in Hl.
  rewrite Hs, length_fmap in Hl. destruct (lookup_lt_is_Some_2 _ _ Hl) as [v Hv].
  exists v. split; [done|]. apply (Hc i (CInt v)). unfold dv_row, cells.
  by rewrite Hn, Hs, list_lookup_fmap, Hv.
Qed.

Lemma valid_float vec i :
  vec_ok vec -> storage_of (dv_type vec) = SFloat -> IsNull vec i = false ->
  exists v, float_data vec !! i = Some v /\ is_u64 v.
Proof.
  intros [Hwf _ Hc] Hs Hn. pose proof (wf_cells _ Hwf i Hn) as Hl. unfold cells in Hl.
  rewrite Hs, length_fmap in Hl. destruct (lookup_lt_is_Some_2 _ _ Hl) as [v Hv].
  exists v. split; [done|]. apply (Hc i (CFloat v)). unfold dv_row, cells.
  by rewrite Hn, Hs, list_lookup_fmap, Hv.
Qed.

Lemma valid_str vec i :
  vec_ok vec -> storage_of (dv_type vec) = SStr -> IsNull vec i = false ->
  exists v, str_data vec !! i = Some v /\ str_fits v.
Proof.
  intros [Hwf _ Hc] Hs Hn. pose proof (wf_cells _ Hwf i Hn) as Hl. unfold cells in Hl.
  rewrite Hs, length_fmap in Hl. destruct (lookup_lt_is_Some_2 _ _ Hl) as [v Hv].
  exists v. split; [done|]. apply (Hc i (CStr v)). unfold dv_row, cells.
  by rewrite Hn, Hs, list_lookup_fmap, Hv.
Qed.

(** A block made of header, bitmap and data area decodes to what its scheme
    makes of the bitmap and the area. *)
Definition decode_area (choice : CompressionChoice) (t : TypeId) (n : nat) (bitmap data : list Z)
    : result DataVector :=
  let dst := Reset t n in
  match cc_type choice with
  | UNCOMPRESSED =>
      if IsIntType t then
        '(us, _) ← rd_many (rd_le 8) n data; ApplyBitmap bitmap (with_int (map i64 us) dst)
      else if IsFloatType t then
        '(ds, _) ← rd_many (rd_le 8) n data; ApplyBitmap bitmap (with_float ds dst)
      else
        '(ss, _) ← rd_many rd_plain_str n data; ApplyBitmap bitmap (with_str ss dst)
  | RLE => '(vs, bm) ← RleDecode data n (int_data dst); ApplyBitmap bm (with_int vs dst)
  | BIT_PACKED =>
      '(width, area) ← rd_le 1 data;
      vs ← BitPackDecode area n (Z.to_nat width); ApplyBitmap bitmap (with_int vs dst)
  | DELTA => vs ← DeltaDecode data n; ApplyBitmap bitmap (with_int vs dst)
  | DICTIONARY => '(ss, bm) ← DictDecode data n (str_data dst); ApplyBitmap bm (with_str ss dst)
  end.

Lemma Decompress_layout choice n bitmap data t :
  (Z.of_nat n < 2 ^ 32)%Z -> length bitmap = BitmapBytes n ->
  Decompress (segment_header choice n (BitmapBytes n) ++ bitmap ++ data) t
  = decode_area choice t n bitmap data.
Proof.
  intros Hn Hb. unfold Decompress, segment_header. rewrite <- !app_assoc.
  assert (BitmapBytes n <= n) by (unfold BitmapBytes; pose proof (div8_up n); lia).
  rewrite rd_le_bytes. cbn [mbind result_bind].
  rewrite rd_le_bytes. cbn [mbind result_bind]. rewrite rd_le_bytes. cbn [mbind result_bind].
  rewrite !(Z.mod_small (Z.of_nat _)), !Nat2Z.id by lia.
  rewrite <- Hb, take_app_length, drop_app_length.
  by destruct choice as [[] w].
Qed.

(** The data area written for [vec] at the end of [head]: it decodes to the
    column, and the bytes before it are untouched. *)
Definition area_written (choice : CompressionChoice) (vec : DataVector) (bitmap : list Z)
    (off : nat) (block block' : list Z) : Prop :=
  length block' = length block /\ take off block' = take off block /\
  exists v, decode_area choice (dv_type vec) (dv_count vec) bitmap (drop off block') = Ok v /\
    seg_equiv vec v.

Lemma write_plain choice vec bitmap off block bs :
  off + length bs <= length block ->
  (forall rest, exists v,
     decode_area choice (dv_type vec) (dv_count vec) bitmap (bs ++ rest) = Ok v /\ seg_equiv vec v) ->
  exists block', write_at off bs block = Ok block' /\
    area_written choice vec bitmap off block block'.
Proof.
  intros Hfit Hdec. unfold write_at. rewrite decide_True by done. eexists; split; [done|].
  assert (length (take off block) = off) as Ho by (rewrite length_take; lia).
  split_and!; [len| |].
  - by apply take_app_length'.
  - rewrite drop_app_length' by done. apply Hdec.
Qed.

Section areas.
  Context (vec : DataVector) (bitmap : list Z).
  Hypothesis Hok : vec_ok vec.
  Hypothesis Hbits : forall i, i < dv_count vec -> buf_bit bitmap i = negb (IsNull vec i).

Lemma plain_area choice :
    cc_type choice = UNCOMPRESSED ->
    exists bs, plain_bytes vec = Ok bs /\ forall rest, exists v,
      decode_area choice (dv_type vec) (dv_count vec) bitmap (bs ++ rest) = Ok v /\ seg_equiv vec v.
  Proof using Hok Hbits.
    intros Hc. pose proof (vo_wf _ Hok) as Hwf. unfold plain_bytes, decode_area. rewrite Hc.
    unfold IsIntType, IsFloatType. destruct (storage_of (dv_type vec)) eqn:Hs.
    - rewrite bool_decide_true by done.
      assert (forall i, IsNull vec i = false -> i < length (int_data vec)) as Hl.
      { intros i Hi. destruct (valid_int vec i Hok Hs Hi) as (v & Hv & _). by eapply lookup_lt_Some. }
      rewrite row_or_mapM by done. cbn [mbind result_bind]. eexists; split; [done|]. intros rest.
      rewrite <- (map_map u64 (le_bytes 8)), <- (length_rows_or 0%Z (int_data vec) vec), <- (length_map u64).
      rewrite (rd_many_codec _ _ _ (codec_le 8)).
      2: { apply Forall_map, Forall_forall. intros x _. apply u64_range. }
      cbn [mbind result_bind]. rewrite length_map, length_rows_or, map_map.
      rewrite (map_ext_in _ id).
      2: { intros x Hx. simpl. rewrite i64_u64. apply i64_id.
           assert (Forall is_i64 (rows_or 0%Z (int_data vec) vec)) as HF.
           { apply rows_or_Forall; [unfold is_i64; lia|]. intros i y Hi Hy.
             destruct (valid_int vec i Hok Hs Hi) as (v & Hv & ?). congruence. }
           rewrite Forall_forall in HF. apply HF. by apply list_elem_of_In. }
      rewrite map_id. apply apply_ints; [done|done|apply length_rows_or|done|].
      intros i Hi Hn. by apply rows_or_valid.
    - rewrite bool_decide_false, bool_decide_true by done.
      assert (forall i, IsNull vec i = false -> i < length (float_data vec)) as Hl.
      { intros i Hi. destruct (valid_float vec i Hok Hs Hi) as (v & Hv & _). by eapply lookup_lt_Some. }
      rewrite row_or_mapM by done. cbn [mbind result_bind]. eexists; split; [done|]. intros rest.
      rewrite <- (length_rows_or 0%Z (float_data vec) vec).
      rewrite (rd_many_codec _ _ _ (codec_le 8)).
      2: { apply rows_or_Forall; [lia|]. intros i y Hi Hy.
           destruct (valid_float vec i Hok Hs Hi) as (v & Hv & ?). assert (y = v) as -> by congruence. done. }
      cbn [mbind result_bind]. rewrite length_rows_or.
      apply apply_floats; [done|done|apply length_rows_or|done|].
      intros i Hi Hn. by apply rows_or_valid.
    - rewrite bool_decide_false, bool_decide_false by done.
      assert (forall i, IsNull vec i = false -> i < length (str_data vec)) as Hl.
      { intros i Hi. destruct (valid_str vec i Hok Hs Hi) as (v & Hv & _). by eapply lookup_lt_Some. }
      rewrite row_or_mapM by done. cbn [mbind result_bind]. eexists; split; [done|]. intros rest.
      assert (Forall str_fits (rows_or ""%string (str_data vec) vec)) as HF.
      { apply rows_or_Forall; [unfold str_fits; simpl; lia|]. intros i y Hi Hy.
        destruct (valid_str vec i Hok Hs Hi) as (v & Hv & ?). congruence. }
      rewrite (map_ext_in plain_str str16).
      2: { intros x Hx. rewrite Forall_forall in HF. specialize (HF x ltac:(by apply list_elem_of_In)).
           unfold plain_str, str16. f_equal. rewrite u16_id by (unfold is_u16, str_fits in *; lia).
           rewrite Nat2Z.id, <- length_string_bytes. apply take_ge. lia. }
      rewrite <- (length_rows_or ""%string (str_data vec) vec).
      rewrite (rd_many_codec str_fits str16 rd_plain_str codec_str16) by done.
      cbn [mbind result_bind]. rewrite length_rows_or.
      apply apply_strs; [done|done|apply length_rows_or|done|].
      intros i Hi Hn. by apply rows_or_valid.
    - by destruct (wf_storage _ Hwf).
  Qed.

Lemma rle_area choice :
    cc_type choice = RLE -> storage_of (dv_type vec) = SInt ->
    exists bs, RleEncode (int_data vec) (dv_count vec) bitmap = Ok bs /\ forall rest, exists v,
      decode_area choice (dv_type vec) (dv_count vec) bitmap (bs ++ rest) = Ok v /\ seg_equiv vec v.
  Proof using Hok Hbits.
    intros Hc Hs. pose proof (vo_wf _ Hok) as Hwf. pose proof (wf_count _ Hwf) as Hcnt.
    unfold STANDARD_VECTOR_SIZE in Hcnt.
    assert (rle_input (int_data vec) (dv_count vec) bitmap) as Hin.
    { intros i Hi Hb. rewrite Hbits in Hb by done. apply valid_int; [done|done|].
      by destruct (IsNull vec i). }
    destruct (RleEncode_loop_Ok _ _ _ (dv_count vec) 0 Hin) as [bs Hbs]. exists bs.
    split; [done|]. intros rest.
    destruct (Rle_rt (int_data vec) (dv_count vec) bitmap bs rest Hin ltac:(lia) Hbs)
      as (out & bm & Hdec & Hlo & Hrows).
    unfold decode_area, Reset. rewrite Hc, Hs. cbn [int_data]. rewrite Hdec. cbn [mbind result_bind].
    destruct (apply_ints vec out bm) as (v & Hv & Heq); [done|done|done| | |].
    - intros i Hi. rewrite <- Hbits by done. by apply Hrows.
    - intros i Hi Hn. apply Hrows; [done|]. by rewrite Hbits, Hn.
    - exists v. unfold Reset in Hv. rewrite Hs in Hv. done.
  Qed.

Lemma dict_area choice :
    cc_type choice = DICTIONARY -> storage_of (dv_type vec) = SStr ->
    exists bs, DictEncode (str_data vec) (dv_count vec) bitmap = Ok bs /\ forall rest, exists v,
      decode_area choice (dv_type vec) (dv_count vec) bitmap (bs ++ rest) = Ok v /\ seg_equiv vec v.
  Proof using Hok Hbits.
    intros Hc Hs. pose proof (vo_wf _ Hok) as Hwf. pose proof (wf_count _ Hwf) as Hcnt.
    unfold STANDARD_VECTOR_SIZE in Hcnt.
    assert (dict_input (str_data vec) (dv_count vec) bitmap) as Hin.
    { intros i Hi Hb. rewrite Hbits in Hb by done. apply valid_str; [done|done|].
      by destruct (IsNull vec i). }
    destruct (Dict_rt (str_data vec) (dv_count vec) bitmap Hin ltac:(lia)) as (bs & Hbs & Hrt).
    exists bs. split; [done|]. intros rest. destruct (Hrt rest) as (out & bm & Hdec & Hlo & Hrows).
    unfold decode_area, Reset. rewrite Hc, Hs. cbn [str_data]. rewrite Hdec. cbn [mbind result_bind].
    destruct (apply_strs vec out bm) as (v & Hv & Heq); [done|done|done| | |].
    - intros i Hi. rewrite <- Hbits by done. by apply Hrows.
    - intros i Hi Hn. apply Hrows; [done|]. by rewrite Hbits, Hn.
    - exists v. unfold Reset in Hv. rewrite Hs in Hv. done.
  Qed.

Lemma int_lengths i : storage_of (dv_type vec) = SInt -> IsNull vec i = false -> i < length (int_data vec).
  Proof using Hok.
    intros Hs Hi. destruct (valid_int vec i Hok Hs Hi) as (v & Hv & _). by eapply lookup_lt_Some.
  Qed.

Lemma tmp_ints_Ok :
    storage_of (dv_type vec) = SInt -> tmp_ints vec = Ok (rows_or 0%Z (int_data vec) vec) /\
      Forall is_i64 (rows_or 0%Z (int_data vec) vec).
  Proof using Hok.
    intros Hs. split.
    - apply row_or_mapM. intros i. by apply int_lengths.
    - apply rows_or_Forall; [unfold is_i64; lia|]. intros i y Hi Hy.
      destruct (valid_int vec i Hok Hs Hi) as (v & Hv & ?). congruence.
  Qed.

  (** The integers decoded from an array that had 0 for NULL. *)
Lemma tmp_ints_rows :
    storage_of (dv_type vec) = SInt ->
    exists v, ApplyBitmap bitmap (with_int (rows_or 0%Z (int_data vec) vec)
                (Reset (dv_type vec) (dv_count vec))) = Ok v /\ seg_equiv vec v.
  Proof using Hok Hbits.
    intros Hs. apply apply_ints; [apply Hok|done|apply length_rows_or|done|].
    intros i Hi Hn. apply rows_or_valid; [|done|done]. intros j. by apply int_lengths.
  Qed.

Lemma delta_area choice :
    cc_type choice = DELTA -> scheme_ok choice vec ->
    exists tmp bs, tmp_ints vec = Ok tmp /\ DeltaEncode tmp = Ok bs /\ forall rest, exists v,
      decode_area choice (dv_type vec) (dv_count vec) bitmap (bs ++ rest) = Ok v /\ seg_equiv vec v.
  Proof using Hok Hbits.
    intros Hc Hsch. unfold scheme_ok in Hsch. rewrite Hc in Hsch.
    destruct Hsch as (Hs & x & xs & Htmp & Hx & Hsteps).
    destruct (tmp_ints_Ok Hs) as [Htmp' _]. rewrite Htmp in Htmp'. injection Htmp' as Heq.
    exists (x :: xs), (le_bytes 8 (u64 x) ++ delta_bytes x xs). split_and!; [done|done|]. intros rest.
    unfold decode_area. rewrite Hc.
    replace (dv_count vec) with (S (length xs))
      by (rewrite <- (length_rows_or 0%Z (int_data vec) vec), <- Heq; done).
    rewrite Delta_rt by done. cbn [mbind result_bind].
    destruct (tmp_ints_rows Hs) as (v & Hv & Hequiv). exists v. split; [|done].
    rewrite <- Heq in Hv. rewrite <- Hv. do 3 f_equal.
    by rewrite <- (length_rows_or 0%Z (int_data vec) vec), <- Heq.
  Qed.

Lemma bitpack_area choice off block :
    cc_type choice = BIT_PACKED -> scheme_ok choice vec -> bytes_ok block ->
    off + (1 + (8 + ((bit_width choice * dv_count vec + 7) / 8 + 1))) <= length block ->
    exists block' n, write_data choice vec bitmap off block = Ok (block', n) /\
      area_written choice vec bitmap off block block'.
  Proof using Hok Hbits.
    intros Hc Hsch Hbok Hfit. unfold scheme_ok in Hsch. rewrite Hc in Hsch.
    destruct Hsch as (Hs & Hw & tmp & Htmp & Hrange).
    destruct (tmp_ints_Ok Hs) as [Htmp' Hi64]. rewrite Htmp in Htmp'. injection Htmp' as ->.
    unfold write_data. rewrite Hc.
    set (wb := u8 (Z.of_nat (bit_width choice))).
    assert (wb = Z.of_nat (bit_width choice)) as Hwb by (apply Z.mod_small; lia).
    unfold write_at at 1. rewrite decide_True by (simpl; lia). cbn [mbind result_bind].
    rewrite Htmp. cbn [mbind result_bind].
    set (b1 := take off block ++ [wb] ++ drop (off + length [wb]) block).
    assert (length b1 = length block) as Hl1 by (subst b1; len; simpl; lia).
    assert (bytes_ok b1) as Hok1.
    { apply Forall_app; split; [by apply Forall_take|]. apply Forall_app; split; [|by apply Forall_drop].
      repeat constructor; subst wb; apply Z.mod_pos_bound; lia. }
    pose proof (vo_pos _ Hok) as Hpos.
    destruct (BitPack_rt (rows_or 0%Z (int_data vec) vec) (bit_width choice) (drop (off + 1) b1))
      as (area & Henc & Hla & _ & Hdec).
    { intros Hnil. apply (f_equal length) in Hnil. rewrite length_rows_or in Hnil. simpl in Hnil. lia. }
    { done. } { done. } { done. } { by apply Forall_drop. }
    { rewrite length_rows_or, length_drop. lia. }
    rewrite Henc. cbn [mbind result_bind]. eexists _, _. split; [done|].
    assert (length (take off block) = off) as Ho by (rewrite length_take; lia).
    assert (take (off + 1) b1 = take off block ++ [wb]) as Htk.
    { subst b1. rewrite app_assoc. apply take_app_length'. rewrite length_app. simpl. lia. }
    rewrite Htk. split_and!.
    - rewrite !length_app, Ho, Hla, length_drop. simpl. lia.
    - rewrite <- app_assoc. by apply take_app_length'.
    - rewrite <- app_assoc, drop_app_length' by done. unfold decode_area. rewrite Hc.
      change ([wb] ++ area) with (wb :: area).
      rewrite rd_le1_cons by (subst wb; apply Z.mod_pos_bound; lia). cbn [mbind result_bind].
      rewrite Hwb, Nat2Z.id. rewrite length_rows_or in Hdec. rewrite Hdec. cbn [mbind result_bind].
      by apply tmp_ints_rows.
  Qed.
End areas.

(** ** Every area is made of bytes *)

Lemma bytes_ok_concat {A} (f : A -> list Z) l :
  (forall x, bytes_ok (f x)) -> bytes_ok (concat (map f l)).
Proof.
  intros H. induction l; simpl; [constructor|]. apply Forall_app. split; [apply H|done].
Qed.

Lemma RleEncode_loop_bytes fuel values n bitmap i bs :
  RleEncode_loop fuel values n bitmap i = Ok bs -> bytes_ok bs.
Proof.
  revert i bs; induction fuel as [|fuel IH]; intros i bs; cbn [RleEncode_loop].
  { intros [= <-]. constructor. }
  destruct (decide (i < n)); [|intros [= <-]; constructor]. destruct (bm_IsNull bitmap i).
  - intros (tl & Htl & Hbs)%bind_Ok_inv. injection Hbs as <-. constructor; [done|].
    apply Forall_app. split; [apply le_bytes_ok|by eapply IH].
  - intros (val & _ & (tl & Htl & Hbs)%bind_Ok_inv)%bind_Ok_inv. injection Hbs as <-.
    constructor; [done|].
    repeat (apply Forall_app; split); [apply le_bytes_ok|apply le_bytes_ok|by eapply IH].
Qed.

Lemma delta_bytes_ok prev vs : bytes_ok (delta_bytes prev vs).
Proof.
  revert prev; induction vs as [|v vs IH]; intros prev; cbn [delta_bytes]; [constructor|].
  apply Forall_app. split; [apply le_bytes_ok|apply IH].
Qed.

Lemma str16_ok s : bytes_ok (str16 s).
Proof. apply Forall_app. split; [apply le_bytes_ok|apply string_bytes_ok]. Qed.

Lemma plain_str_ok s : bytes_ok (plain_str s).
Proof. apply Forall_app. split; [apply le_bytes_ok|apply Forall_take, string_bytes_ok]. Qed.

Lemma plain_bytes_ok vec bs : plain_bytes vec = Ok bs -> bytes_ok bs.
Proof.
  unfold plain_bytes. destruct (IsIntType _); [|destruct (IsFloatType _)];
    intros (vs & _ & Hbs)%bind_Ok_inv; injection Hbs as <-; apply bytes_ok_concat;
    intros x; apply le_bytes_ok || apply plain_str_ok.
Qed.

Lemma DictEncode_bytes values n bitmap bs : DictEncode values n bitmap = Ok bs -> bytes_ok bs.
Proof.
  unfold DictEncode. intros (st & _ & Hbs)%bind_Ok_inv. injection Hbs as <-.
  repeat (apply Forall_app; split); [apply le_bytes_ok|apply bytes_ok_concat, str16_ok|].
  apply bytes_ok_concat. intros x. apply le_bytes_ok.
Qed.

(** ** Compressing a vector *)

(** Everything the schemes have in common: enough room in the block, the
    area decodes to the column. *)
Lemma write_data_area choice vec bitmap off block :
  vec_ok vec -> scheme_ok choice vec -> bytes_ok block ->
  (forall i, i < dv_count vec -> buf_bit bitmap i = negb (IsNull vec i)) ->
  exists need, area_needed choice vec bitmap = Ok need /\
    (off + need <= length block ->
     exists block' n, write_data choice vec bitmap off block = Ok (block', n) /\
       bytes_ok block' /\ area_written choice vec bitmap off block block').
Proof.
  intros Hok Hsch Hbok Hbits. unfold area_needed.
  assert (forall bs, bytes_ok bs -> off + length bs <= length block ->
    (forall rest, exists v, decode_area choice (dv_type vec) (dv_count vec) bitmap (bs ++ rest) = Ok v
       /\ seg_equiv vec v) ->
    exists block' n, (b ← write_at off bs block; Ok (b, length bs)) = Ok (block', n) /\
      bytes_ok block' /\ area_written choice vec bitmap off block block') as Hplain.
  { intros bs Hbs Hfit Hdec. destruct (write_plain choice vec bitmap off block bs Hfit Hdec) as (b' & Hb & Ha).
    exists b', (length bs). rewrite Hb. split_and!; [done| |done].
    by eapply write_at_Forall. }
  destruct (cc_type choice) eqn:Hc.
  - destruct (plain_area vec bitmap Hok Hbits choice Hc) as (bs & Hbs & Hdec). rewrite Hbs.
    eexists; split; [done|]. intros Hfit. unfold write_data. rewrite Hc, Hbs. cbn [mbind result_bind].
    apply Hplain; [by eapply plain_bytes_ok|done|done].
  - unfold scheme_ok in Hsch. rewrite Hc in Hsch.
    destruct (rle_area vec bitmap Hok Hbits choice Hc Hsch) as (bs & Hbs & Hdec). rewrite Hbs.
    eexists; split; [done|]. intros Hfit. unfold write_data. rewrite Hc, Hbs. cbn [mbind result_bind].
    apply Hplain; [by eapply RleEncode_loop_bytes|done|done].
  - eexists; split; [done|]. intros Hfit.
    destruct (bitpack_area vec bitmap Hok Hbits choice off block Hc Hsch Hbok Hfit) as (b' & n & Hb & Ha).
    exists b', n. split_and!; [done| |done]. unfold write_data in Hb. rewrite Hc in Hb.
    apply bind_Ok_inv in Hb as (b1 & Hb1 & Hb).
    apply bind_Ok_inv in Hb as (tmp & Htmp & Hb). apply bind_Ok_inv in Hb as ([area k] & Henc & Hb).
    injection Hb as <- _.
    assert (bytes_ok b1) as Hok1.
    { eapply write_at_Forall; [exact Hb1| |done]. repeat constructor; apply Z.mod_pos_bound; lia. }
    apply Forall_app. split; [by apply Forall_take|].
    unfold scheme_ok in Hsch. rewrite Hc in Hsch. destruct Hsch as (Hs & Hw & tmp' & Htmp' & Hr).
    assert (tmp' = tmp) as -> by congruence.
    eapply BitPackEncode_bytes; [exact Henc|]. by apply Forall_drop.
  - destruct (delta_area vec bitmap Hok Hbits choice Hc Hsch) as (tmp & bs & Htmp & Hbs & Hdec).
    rewrite Htmp. cbn [mbind result_bind]. rewrite Hbs.
    eexists; split; [done|]. intros Hfit. unfold write_data. rewrite Hc, Htmp. cbn [mbind result_bind].
    rewrite Hbs. cbn [mbind result_bind]. apply Hplain; [|done|done].
    destruct tmp; [done|]. injection Hbs as <-. apply Forall_app.
    split; [apply le_bytes_ok|apply delta_bytes_ok].
  - unfold scheme_ok in Hsch. rewrite Hc in Hsch.
    destruct (dict_area vec bitmap Hok Hbits choice Hc Hsch) as (bs & Hbs & Hdec). rewrite Hbs.
    eexists; split; [done|]. intros Hfit. unfold write_data. rewrite Hc, Hbs. cbn [mbind result_bind].
    apply Hplain; [by eapply DictEncode_bytes|done|done].
Qed.

(** Room for the vector in a block. *)
Definition block_fits (choice : CompressionChoice) (vec : DataVector) (block : list Z) : Prop :=
  forall bitmap need, BuildBitmap vec = Ok bitmap -> area_needed choice vec bitmap = Ok need ->
    HDR_SIZE + BitmapBytes (dv_count vec) + need <= length block.

Lemma Compress_rt choice vec block :
  vec_ok vec -> scheme_ok choice vec -> bytes_ok block -> block_fits choice vec block ->
  exists block' n, Compress choice vec block = Ok (block', n) /\
    length block' = length block /\ bytes_ok block' /\
    exists v, Decompress block' (dv_type vec) = Ok v /\ seg_equiv vec v.
Proof.
  intros Hok Hsch Hbok Hfit. unfold Compress.
  destruct (BuildBitmap_spec vec) as (bm & Hbm & Hlb & Hbits).
  assert (bytes_ok bm) as Hbmok by (by eapply BuildBitmap_bytes).
  rewrite Hbm. cbn [mbind result_bind].
  destruct (write_data_area choice vec bm (HDR_SIZE + BitmapBytes (dv_count vec)) block Hok Hsch Hbok Hbits)
    as (need & Hneed & _).
  pose proof (Hfit bm need Hbm Hneed) as Hroom. rewrite <- Hlb in Hroom.
  assert (length (take HDR_SIZE block) = HDR_SIZE) as Hh by (rewrite length_take; lia).
  rewrite write_at_eq by lia. cbn [mbind result_bind].
  set (b1 := take HDR_SIZE block ++ bm ++ _).
  assert (length b1 = length block) as Hl1 by (subst b1; rewrite !length_app, length_drop, Hh; lia).
  assert (bytes_ok b1) as Hok1.
  { apply Forall_app; split; [by apply Forall_take|]. apply Forall_app; split; [done|by apply Forall_drop]. }
  destruct (write_data_area choice vec bm (HDR_SIZE + BitmapBytes (dv_count vec)) b1 Hok Hsch Hok1 Hbits)
    as (need' & Hneed' & Hwr).
  destruct Hwr as (b2 & n & -> & Hok2 & Hl2 & Htk2 & v & Hdec & Hv);
    [assert (need' = need) as -> by congruence; lia|].
  cbn [mbind result_bind]. rewrite write_at_eq
    by (unfold segment_header; len; unfold HDR_SIZE in *; lia).
  cbn [mbind result_bind]. rewrite take_0, app_nil_l. set (hdr := segment_header _ _ _).
  assert (length hdr = HDR_SIZE) as Hlh by (unfold hdr, segment_header; len; done).
  rewrite Nat.add_0_l, Hlh. eexists _, _. split; [done|]. split_and!.
  - rewrite length_app, length_drop, Hlh. lia.
  - apply Forall_app. split; [|by apply Forall_drop].
    unfold hdr, segment_header. repeat (apply Forall_app; split); apply le_bytes_ok.
  - exists v. split; [|done].
    assert (drop HDR_SIZE b2 = bm ++ drop (HDR_SIZE + BitmapBytes (dv_count vec)) b2) as ->.
    { rewrite <- drop_drop. rewrite <- (take_drop (BitmapBytes (dv_count vec)) (drop HDR_SIZE b2)) at 1.
      f_equal. rewrite take_drop_commute, Htk2. subst b1.
      rewrite (take_app_ge _ (bm ++ _)) by lia. rewrite Hh, drop_app_length' by done.
      apply take_app_length'. lia. }
    pose proof (wf_count _ (vo_wf _ Hok)) as Hc. unfold STANDARD_VECTOR_SIZE in Hc.
    subst hdr. rewrite Decompress_layout by (done || lia). done.
Qed.

(** ** The choice of a scheme *)

Lemma valid_ints_Ok vec :
  vec_ok vec -> storage_of (dv_type vec) = SInt ->
  exists vs, valid_ints vec = Ok vs /\ Forall is_i64 vs /\
    forall i v, i < dv_count vec -> IsNull vec i = false -> int_data vec !! i = Some v -> v ∈ vs.
Proof.
  intros Hok Hs. unfold valid_ints.
  exists (map (fun i => default 0%Z (int_data vec !! i)) (valid_rows vec)). split_and!.
  - apply mapM_r_Ok. intros i Hi. apply list_elem_of_filter in Hi as [Hi _].
    destruct (valid_int vec i Hok Hs Hi) as (v & -> & _). done.
  - apply Forall_map, Forall_forall. intros i Hi. apply list_elem_of_filter in Hi as [Hi _].
    destruct (valid_int vec i Hok Hs Hi) as (v & Hv & ?). simpl. by rewrite Hv.
  - intros i v Hi Hn Hv. apply list_elem_of_fmap. exists i. rewrite Hv. split; [done|].
    apply list_elem_of_filter. split; [done|]. apply elem_of_seq. lia.
Qed.

Lemma min_fold_spec m vs :
  let r := foldl (fun m v => if Z.ltb v m then v else m) m vs in
  (r <= m)%Z /\ Forall (fun v => r <= v)%Z vs /\ (r = m \/ r ∈ vs).
Proof.
  revert m; induction vs as [|v vs IH]; intros m; simpl; [split_and!; [lia|constructor|by left]|].
  destruct (IH (if Z.ltb v m then v else m)) as (H1 & H2 & H3).
  destruct (Z.ltb_spec v m); split_and!; try lia; try (constructor; [lia|done]).
  all: destruct H3 as [H3|]; [|right; by right].
  - right. rewrite H3. by left.
  - left. done.
Qed.

Lemma max_fold_spec m vs :
  let r := foldl (fun m v => if Z.ltb m v then v else m) m vs in
  (m <= r)%Z /\ Forall (fun v => v <= r)%Z vs /\ (r = m \/ r ∈ vs).
Proof.
  revert m; induction vs as [|v vs IH]; intros m; simpl; [split_and!; [lia|constructor|by left]|].
  destruct (IH (if Z.ltb m v then v else m)) as (H1 & H2 & H3).
  destruct (Z.ltb_spec m v); split_and!; try lia; try (constructor; [lia|done]).
  all: destruct H3 as [H3|]; [|right; by right].
  - right. rewrite H3. by left.
  - left. done.
Qed.

Lemma min_bits_loop_spec fuel bits range :
  bits + fuel = 64 -> (0 <= range < 2 ^ 63)%Z -> 0 < fuel ->
  exists b, min_bits_loop fuel bits range = Ok b /\ (range < 2 ^ Z.of_nat b)%Z /\ b <= 64 /\
    forall k, bits <= k -> (range < 2 ^ Z.of_nat k)%Z -> b <= k.
Proof.
  revert bits; induction fuel as [|fuel IH]; intros bits Hb Hr Hf; [lia|]. cbn [min_bits_loop].
  rewrite Z.shiftl_1_l. destruct (Z.leb_spec (2 ^ Z.of_nat bits) range) as [Hle|Hgt].
  - assert (bits < 63) as Hlt.
    { destruct (decide (bits < 63)); [done|]. exfalso.
      assert (2 ^ 63 <= 2 ^ Z.of_nat bits)%Z by (apply Z.pow_le_mono_r; lia). lia. }
    destruct (IH (S bits)) as (b & Heq & Hb1 & Hb2 & Hmin); [lia|done|lia|].
    exists b. split_and!; try done. intros k Hk Hrk. apply Hmin; [|done].
    destruct (decide (bits = k)) as [->|]; lia.
  - exists bits. split_and!; [done|done|lia|done].
Qed.

(** The values that are not NULL span less than [2^63]. *)
Definition span_ok (vec : DataVector) : Prop :=
  forall i j v w, IsNull vec i = false -> IsNull vec j = false ->
    int_data vec !! i = Some v -> int_data vec !! j = Some w -> (v - w < 2 ^ 63)%Z.

(** Storing 0 for NULL does not widen the range: there is no NULL, or 0 is
    between two stored values. *)
Definition nulls_harmless (vec : DataVector) : Prop :=
  (forall i, i < dv_count vec -> IsNull vec i = false) \/
  exists i j v w, i < dv_count vec /\ j < dv_count vec /\
    IsNull vec i = false /\ IsNull vec j = false /\
    int_data vec !! i = Some v /\ int_data vec !! j = Some w /\ (v <= 0 <= w)%Z.

(** All differences between values that are not NULL fit [b] bits. *)
Definition fits_bits (vec : DataVector) (b : nat) : Prop :=
  forall i j v w, i < dv_count vec -> j < dv_count vec ->
    IsNull vec i = false -> IsNull vec j = false ->
    int_data vec !! i = Some v -> int_data vec !! j = Some w -> (v - w < 2 ^ Z.of_nat b)%Z.

Lemma valid_ints_elem vec vs v :
  valid_ints vec = Ok vs -> v ∈ vs ->
  exists i, i < dv_count vec /\ IsNull vec i = false /\ int_data vec !! i = Some v.
Proof.
  unfold valid_ints. intros Hvs Hv. revert vs Hvs Hv.
  assert (forall i, i ∈ valid_rows vec -> i < dv_count vec /\ IsNull vec i = false) as Hr.
  { intros i Hi. apply list_elem_of_filter in Hi as [? Hi]. apply elem_of_seq in Hi. lia || (split; [lia|done]). }
  induction (valid_rows vec) as [|i l IH]; intros vs Hvs Hv; simpl in Hvs.
  { injection Hvs as <-. by apply not_elem_of_nil in Hv. }
  apply bind_Ok_inv in Hvs as (x & Hx & Hvs). apply bind_Ok_inv in Hvs as (xs & Hxs & Hvs).
  injection Hvs as <-. apply elem_of_cons in Hv as [->|Hv].
  - exists i. destruct (Hr i) as [? ?]; [by left|]. split_and!; [done|done|].
    destruct (int_data vec !! i); [simpl in Hx; congruence|done].
  - eapply IH; eauto. intros j Hj. apply Hr. by right.
Qed.

Lemma MinBitsRequired_spec vec :
  vec_ok vec -> storage_of (dv_type vec) = SInt -> span_ok vec -> AllIdentical vec = Ok false ->
  exists b, MinBitsRequired vec = Ok b /\ b <= 64 /\ fits_bits vec b /\
    forall k, 0 < k -> fits_bits vec k -> b <= k.
Proof.
  intros Hok Hs Hspan Hsame. destruct (valid_ints_Ok vec Hok Hs) as (vs & Hvs & Hi64 & Hin).
  unfold AllIdentical in Hsame. rewrite Hvs in Hsame. cbn [mbind result_bind] in Hsame.
  unfold MinBitsRequired. rewrite Hvs. cbn [mbind result_bind].
  set (mn := foldl _ INT64_MAX vs). set (mx := foldl _ INT64_MIN vs).
  destruct (min_fold_spec INT64_MAX vs) as (Hmn1 & Hmn2 & Hmn3). fold mn in Hmn1, Hmn2, Hmn3.
  destruct (max_fold_spec INT64_MIN vs) as (Hmx1 & Hmx2 & Hmx3). fold mx in Hmx1, Hmx2, Hmx3.
  rewrite Forall_forall in Hi64, Hmn2, Hmx2.
  assert (forall b, (mx - mn < 2 ^ Z.of_nat b)%Z -> fits_bits vec b) as Hfits.
  { intros b Hb i j v w Hi Hj Hni Hnj Hv Hw.
    pose proof (Hmx2 v (Hin i v Hi Hni Hv)). pose proof (Hmn2 w (Hin j w Hj Hnj Hw)). simpl in *. lia. }
  assert (forall v, v ∈ vs -> is_i64 v) as Hr by (intros; auto).
  destruct vs as [|first vs']; [done|].
  assert (first ∈ first :: vs') as Hfirst by apply list_elem_of_here.
  assert (mn <> INT64_MAX) as Hne.
  { intros Heq. injection Hsame as Hsame. apply not_true_iff_false in Hsame. apply Hsame.
    apply forallb_forall. intros x Hx. apply Z.eqb_eq.
    assert (x ∈ first :: vs') as Hx' by (right; by apply list_elem_of_In).
    pose proof (Hmn2 first Hfirst). pose proof (Hmn2 x Hx'). simpl in *.
    pose proof (Hr first Hfirst). pose proof (Hr x Hx'). unfold is_i64, INT64_MAX in *. lia. }
  destruct (Z.eqb_spec mn INT64_MAX) as [|_]; [done|].
  assert (mn ∈ first :: vs') as Hmn by (destruct Hmn3; done).
  assert (mx ∈ first :: vs') as Hmx.
  { destruct Hmx3 as [Heq|]; [|done]. pose proof (Hmx2 first Hfirst). pose proof (Hr first Hfirst).
    assert (mx = first) as ->; [|done]. simpl in *. unfold is_i64, INT64_MIN in *. lia. }
  destruct (valid_ints_elem _ _ _ Hvs Hmn) as (i & Hi & Hni & Hvi).
  destruct (valid_ints_elem _ _ _ Hvs Hmx) as (j & Hj & Hnj & Hvj).
  pose proof (Hspan j i mx mn Hnj Hni Hvj Hvi) as Hlt.
  pose proof (Hmn2 mx Hmx) as Hle. simpl in Hle.
  rewrite u64_id by (unfold is_u64; lia).
  destruct (Z.eqb_spec (mx - mn) 0) as [H0|H0].
  - exists 1. split_and!; [done|lia| |lia]. apply Hfits. rewrite H0. lia.
  - destruct (min_bits_loop_spec 64 0 (mx - mn)) as (b & -> & Hb & Hb64 & Hmin); [lia|lia|lia|].
    exists b. split_and!; [done|done|by apply Hfits|]. intros k Hk Hfk. apply Hmin; [lia|].
    by apply (Hfk j i mx mn).
Qed.

(** With harmless NULLs the zeros of [tmp] stay within the range. *)
Lemma tmp_fits vec b :
  vec_ok vec -> storage_of (dv_type vec) = SInt -> fits_bits vec b -> nulls_harmless vec ->
  exists tmp, tmp_ints vec = Ok tmp /\
    forall v w, v ∈ tmp -> w ∈ tmp -> (v - w < 2 ^ Z.of_nat b)%Z.
Proof.
  intros Hok Hs Hfits Hnull. destruct (tmp_ints_Ok vec Hok Hs) as [Htmp _].
  eexists; split; [exact Htmp|].
  assert (forall v, v ∈ rows_or 0%Z (int_data vec) vec ->
    (exists i, i < dv_count vec /\ IsNull vec i = false /\ int_data vec !! i = Some v) \/
    (v = 0%Z /\ exists i, i < dv_count vec /\ IsNull vec i = true)) as Hel.
  { intros v Hv. apply list_elem_of_lookup in Hv as [i Hi].
    pose proof (lookup_lt_Some _ _ _ Hi) as Hlt. rewrite length_rows_or in Hlt.
    rewrite lookup_rows_or in Hi by done. injection Hi as Hi. destruct (IsNull vec i) eqn:E; [right; eauto|].
    left. exists i. destruct (valid_int vec i Hok Hs E) as (x & Hx & _). rewrite Hx in Hi |- *. simpl in Hi.
    subst x. done. }
  intros v w Hv Hw. apply Hel in Hv, Hw.
  destruct Hnull as [Hno|(i0 & j0 & lo & hi & Hi0 & Hj0 & Hni0 & Hnj0 & Hlo & Hhi & H0)].
  { destruct Hv as [(i & Hi & Hni & Hv)|(_ & i & Hi & Hn)]; [|rewrite Hno in Hn; done].
    destruct Hw as [(j & Hj & Hnj & Hw)|(_ & j & Hj & Hn)]; [|rewrite Hno in Hn; done].
    by apply (Hfits i j). }
  assert (0 < 2 ^ Z.of_nat b)%Z by (apply Z.pow_pos_nonneg; lia).
  destruct Hv as [(i & Hi & Hni & Hv)|[-> _]], Hw as [(j & Hj & Hnj & Hw)|[-> _]].
  - by apply (Hfits i j).
  - pose proof (Hfits i i0 v lo Hi Hi0 Hni Hni0 Hv Hlo). lia.
  - pose proof (Hfits j0 j hi w Hj0 Hj Hnj0 Hnj Hhi Hw). lia.
  - lia.
Qed.

Lemma CountDistinct_Ok vec :
  vec_ok vec -> storage_of (dv_type vec) = SStr -> exists n, CountDistinct vec = Ok n.
Proof.
  intros Hok Hs. unfold CountDistinct.
  erewrite (mapM_r_Ok _ (fun i => default ""%string (str_data vec !! i))); [simpl; eauto|].
  intros i Hi. apply list_elem_of_filter in Hi as [Hi _].
  destruct (valid_str vec i Hok Hs Hi) as (v & -> & _). done.
Qed.

Lemma SelectCompression_rt vec :
  vec_ok vec -> span_ok vec ->
  exists choice, SelectCompression vec = Ok choice /\
    (cc_type choice <> DELTA -> nulls_harmless vec -> scheme_ok choice vec) /\
    (fits_bits vec 32 -> cc_type choice <> DELTA).
Proof.
  intros Hok Hspan. pose proof (vo_pos _ Hok) as Hpos. pose proof (wf_storage _ (vo_wf _ Hok)) as Hst.
  unfold SelectCompression. rewrite decide_False by lia. unfold IsIntType, IsFloatType.
  destruct (storage_of (dv_type vec)) eqn:Hs; [| | |done].
  - rewrite bool_decide_true by done. destruct (valid_ints_Ok vec Hok Hs) as (vs & Hvs & _).
    unfold AllIdentical at 1. rewrite Hvs. cbn [mbind result_bind].
    set (same := match vs with [] => true | _ :: _ => _ end).
    destruct same eqn:Hsame.
    { eexists; split; [done|]. done. }
    destruct (MinBitsRequired_spec vec Hok Hs Hspan) as (b & -> & Hb & Hfits & Hmin).
    { unfold AllIdentical. rewrite Hvs. cbn [mbind result_bind]. fold same. by rewrite Hsame. }
    cbn [mbind result_bind]. destruct (decide (b <= 32)).
    { eexists; split; [done|]. split; [|done]. intros _ Hn. unfold scheme_ok. cbn. split_and!; [done|lia|].
      by apply tmp_fits. }
    unfold IsMonotonic. rewrite Hvs. cbn [mbind result_bind].
    destruct (monotonic _ _); eexists; (split; [done|]); (split; [done|]); [|done].
    intros H32. apply Hmin in H32; lia.
  - rewrite bool_decide_false, bool_decide_true by done. eexists; split; [done|]. done.
  - rewrite bool_decide_false, bool_decide_false by done.
    assert (dv_type vec = VARCHAR) as Hv by (destruct (dv_type vec); done).
    rewrite decide_True by done. destruct (CountDistinct_Ok vec Hok Hs) as [d ->]. cbn [mbind result_bind].
    destruct (decide (d <= 1000)); eexists; (split; [done|]); done.
Qed.

(** ** Numeric segments fit a block *)

Definition DEFAULT_BLOCK_SIZE : Z := 262144%Z.

Lemma RleEncode_loop_length fuel values n bitmap i bs :
  RleEncode_loop fuel values n bitmap i = Ok bs -> i <= n -> length bs <= 13 * (n - i).
Proof.
  revert i bs; induction fuel as [|fuel IH]; intros i bs; cbn [RleEncode_loop].
  { intros [= <-] _. simpl. lia. }
  destruct (decide (i < n)); [|intros [= <-] _; simpl; lia]. destruct (bm_IsNull bitmap i) eqn:E.
  - pose proof (run_length_pos (bm_IsNull bitmap) i (n - i) ltac:(lia) E).
    destruct (run_length_spec (bm_IsNull bitmap) i (n - i)) as [Hle _].
    intros (tl & Htl & Hbs)%bind_Ok_inv Hi. injection Hbs as <-. apply IH in Htl; [|lia].
    cbn [length]. rewrite length_app, length_le_bytes. lia.
  - intros (val & _ & (tl & Htl & Hbs)%bind_Ok_inv)%bind_Ok_inv Hi. injection Hbs as <-.
    match type of Htl with context [run_length ?p ?k ?m] =>
      destruct (run_length_spec p k m) as [Hle _]; set (r := run_length p k m) in * end.
    apply IH in Htl; [|lia]. cbn [length]. rewrite !length_app, !length_le_bytes. lia.
Qed.

Lemma length_concat_const {A} (f : A -> list Z) k l :
  (forall x, length (f x) = k) -> length (concat (map f l)) = k * length l.
Proof. intros H. induction l; simpl; [lia|]. rewrite length_app, H, IHl. lia. Qed.

Lemma area_needed_numeric choice vec bitmap need :
  storage_of (dv_type vec) = SInt \/ storage_of (dv_type vec) = SFloat ->
  vec_ok vec -> scheme_ok choice vec -> area_needed choice vec bitmap = Ok need ->
  need <= 13 * dv_count vec + 16.
Proof.
  intros Hnum Hok Hsch. unfold area_needed, scheme_ok in *.
  destruct (cc_type choice).
  - unfold plain_bytes, IsIntType, IsFloatType.
    destruct (storage_of (dv_type vec)) eqn:Hs; [| |by destruct Hnum..].
    + rewrite bool_decide_true by done.
      rewrite row_or_mapM by (intros i; by apply int_lengths). cbn. intros [= <-].
      rewrite (length_concat_const _ 8) by (intros; apply length_le_bytes). rewrite length_rows_or. lia.
    + rewrite bool_decide_false, bool_decide_true by done. rewrite row_or_mapM.
      2: { intros i Hi. destruct (valid_float vec i Hok Hs Hi) as (v & Hv & _). by eapply lookup_lt_Some. }
      cbn. intros [= <-].
      rewrite (length_concat_const _ 8) by (intros; apply length_le_bytes). rewrite length_rows_or. lia.
  - destruct (RleEncode _ _ _) as [bs|] eqn:E; [|done]. cbn. intros [= <-].
    apply RleEncode_loop_length in E; lia.
  - intros [= <-]. destruct Hsch as (_ & Hw & _).
    pose proof (div8_up (bit_width choice * dv_count vec)). nia.
  - destruct Hsch as (Hs & v & vs & Htmp & _). rewrite Htmp. cbn [mbind result_bind]. cbn. intros [= <-].
    destruct (tmp_ints_Ok vec Hok Hs) as [Htmp' _]. rewrite Htmp in Htmp'. injection Htmp' as Heq.
    apply (f_equal length) in Heq. rewrite length_rows_or in Heq. simpl in Heq.
    rewrite length_app, length_le_bytes.
    assert (forall ws p, length (delta_bytes p ws) = 4 * length ws) as ->.
    { induction ws as [|w ws IH]; intros p; cbn [delta_bytes length]; [done|].
      rewrite length_app, length_le_bytes, IH. lia. }
    lia.
  - rewrite Hsch in Hnum. destruct Hnum; done.
Qed.

Lemma numeric_fits choice vec block :
  storage_of (dv_type vec) = SInt \/ storage_of (dv_type vec) = SFloat ->
  vec_ok vec -> scheme_ok choice vec -> (DEFAULT_BLOCK_SIZE <= Z.of_nat (length block))%Z ->
  block_fits choice vec block.
Proof.
  intros Hnum Hok Hsch Hlen bm need _ Hneed.
  pose proof (area_needed_numeric _ _ _ _ Hnum Hok Hsch Hneed).
  pose proof (wf_count _ (vo_wf _ Hok)) as Hc. unfold STANDARD_VECTOR_SIZE in Hc.
  unfold DEFAULT_BLOCK_SIZE, BitmapBytes, HDR_SIZE in *. pose proof (div8_up (dv_count vec)). lia.
Qed.

(** ** Claims *)

(** Selection, compression into a block and decompression. *)
Definition store_and_load (vec : DataVector) (block : list Z) : result (list (option cell)) :=
  choice ← SelectCompression vec;
  '(block, _) ← Compress choice vec block;
  v ← Decompress block (dv_type vec);
  Ok (dv_rows v).


Definition vec_123 : DataVector := mkDV INT32 3 [1000; 1003; 1001]%Z [] [] 7%Z.

Lemma vec_123_ok : vec_ok vec_123.
Proof.
  assert (forall i, 3 <= i -> IsNull vec_123 i = true) as Hhi.
  { intros i Hi. unfold IsNull. simpl. rewrite (testbit_above 7 3) by lia. done. }
  split; [split|simpl; lia|]; simpl; [done|unfold STANDARD_VECTOR_SIZE; lia|done| |].
  - intros i Hn. destruct (decide (i < 3)); [done|]. rewrite Hhi in Hn by lia. done.
  - intros i c. unfold dv_row. destruct (decide (i < 3)); [|rewrite Hhi by lia; done].
    do 3 (destruct i as [|i]; [intros Hc; vm_compute in Hc; injection Hc as <-; split; [discriminate|reflexivity]|]). lia.
Qed.


(** Numeric columns never overflow a block: with the default block size
    every integer or floating-point vector that its scheme admits is
    compressed within the block and read back. *)
Theorem numeric_segment_fits choice vec block :
  storage_of (dv_type vec) = SInt \/ storage_of (dv_type vec) = SFloat ->
  vec_ok vec -> scheme_ok choice vec -> bytes_ok block ->
  (DEFAULT_BLOCK_SIZE <= Z.of_nat (length block))%Z ->
  exists block' n, Compress choice vec block = Ok (block', n) /\
    exists v, Decompress block' (dv_type vec) = Ok v /\ dv_rows v = dv_rows vec.
Proof.
  intros Hnum Hok Hsch Hb Hlen.
  destruct (Compress_rt choice vec block Hok Hsch Hb) as (b' & n & Hcmp & _ & _ & v & Hdec & _ & _ & _ & Hrows);
    [by apply numeric_fits|].
  exists b', n. split; [done|]. exists v. done.
Qed.

Lemma zero_block_length size : (0 <= size)%Z -> Z.of_nat (length (replicate (Z.to_nat size) 0%Z)) = size.
Proof. intros. rewrite length_replicate, Z2Nat.id; done. Qed.

Lemma numeric_segment_fits_witness :
  exists block' n, Compress (mkChoice BIT_PACKED 2) vec_123 (replicate (Z.to_nat DEFAULT_BLOCK_SIZE) 0%Z)
      = Ok (block', n) /\
    exists v, Decompress block' INT32 = Ok v /\ dv_rows v = dv_rows vec_123.
Proof.
  apply (numeric_segment_fits (mkChoice BIT_PACKED 2) vec_123).
  - by left.
  - apply vec_123_ok.
  - unfold scheme_ok. simpl. split_and!; [done|lia|]. exists [1000; 1003; 1001]%Z. split; [done|].
    assert (forall x, x ∈ [1000; 1003; 1001]%Z -> (1000 <= x <= 1003)%Z) as H.
    { intros x Hx. rewrite !elem_of_cons in Hx. destruct_or! Hx; subst; try lia. by apply not_elem_of_nil in Hx. }
    intros v w Hv Hw. apply H in Hv, Hw. change (2 ^ Z.of_nat 2)%Z with 4%Z. lia.
  - apply Forall_replicate. unfold is_u8. lia.
  - rewrite zero_block_length; [apply Z.le_refl|discriminate].
Defined.

(** A NULL in an integer column can destroy the other rows.  The
    selector measures the range of the values that are not NULL, the encoder
    packs 0 for NULL: the column [1000, NULL, 1003] is packed in two bits per
    row from the minimum 0 and is read back as [0, NULL, 3]. *)
Theorem bitpack_null_corrupts :
  let vec := mkDV INT64 3 [1000; 0; 1003]%Z [] [] 5%Z in
  SelectCompression vec = Ok (mkChoice BIT_PACKED 2) /\
  dv_rows vec = [Some (CInt 1000); None; Some (CInt 1003)] /\
  store_and_load vec (replicate 64 0%Z) = Ok [Some (CInt 0); None; Some (CInt 3)].
Proof. vm_compute. split_and!; reflexivity. Qed.

(** A monotonic column whose values are more than 32 bits apart is
    destroyed by the scheme chosen for it: [DELTA] truncates the difference
    to 32 bits, so [0, 2^40] is read back as [0, 0]. *)
Theorem delta_gap_corrupts :
  let vec := mkDV INT64 2 [0; 1099511627776]%Z [] [] 3%Z in
  SelectCompression vec = Ok (mkChoice DELTA 0) /\
  dv_rows vec = [Some (CInt 0); Some (CInt 1099511627776)] /\
  store_and_load vec (replicate 64 0%Z) = Ok [Some (CInt 0); Some (CInt 0)].
Proof. vm_compute. split_and!; reflexivity. Qed.
