(* ===== verification/Double.v ===== *)
(** * Double arithmetic

    The operations on [double] that the query operators use, on the 64-bit
    object representation of [Prelude].  Values are computed with the IEEE 754
    binary64 operations of [SpecFloat]; the standard does not say which NaN an
    operation returns, so the bits of a NaN result are a parameter ([FPU]). *)

From Stdlib Require Import ZArith SpecFloat.
From stdpp Require Import base list.
From S2P Require Import Prelude.

Local Open Scope Z_scope.

Record FPU : Type := mkFPU { fpu_nan : Z -> Z -> Z }.

(** The object representation of a value; [nan] is used for NaN. *)
Definition SF_to_f64 (nan : Z) (x : spec_float) : Z :=
  let sign (s : bool) := if s then 2 ^ 63 else 0 in
  match x with
  | S754_zero s => sign s
  | S754_infinity s => sign s + 2047 * 2 ^ 52
  | S754_nan => nan
  | S754_finite s m e =>
      if Z.ltb (Zpos m) (2 ^ 52) then sign s + Zpos m
      else sign s + (e + 1075) * 2 ^ 52 + (Zpos m - 2 ^ 52)
  end.

Definition f64_add (F : FPU) (a b : Z) : Z :=
  SF_to_f64 (fpu_nan F a b) (SFadd 53 1024 (f64_to_SF a) (f64_to_SF b)).
Definition f64_sub (F : FPU) (a b : Z) : Z :=
  SF_to_f64 (fpu_nan F a b) (SFsub 53 1024 (f64_to_SF a) (f64_to_SF b)).
Definition f64_mul (F : FPU) (a b : Z) : Z :=
  SF_to_f64 (fpu_nan F a b) (SFmul 53 1024 (f64_to_SF a) (f64_to_SF b)).
Definition f64_div (F : FPU) (a b : Z) : Z :=
  SF_to_f64 (fpu_nan F a b) (SFdiv 53 1024 (f64_to_SF a) (f64_to_SF b)).

(** Negation flips the sign bit, of a NaN too. *)
Definition f64_opp (a : Z) : Z := Z.lxor a (2 ^ 63).

Definition f64_leb (a b : Z) : bool := SFleb (f64_to_SF a) (f64_to_SF b).

(** [static_cast<double>(int64_t)]: rounds to nearest. *)
Definition f64_of_i64 (z : Z) : Z := SF_to_f64 0 (binary_normalize 53 1024 z 0 false).

(** The integer part of a finite value, towards zero. *)
Definition SF_trunc (x : spec_float) : option Z :=
  match x with
  | S754_zero _ => Some 0
  | S754_finite s m e =>
      let a := if Z.leb 0 e then Zpos m * 2 ^ e else Zpos m / 2 ^ (- e) in
      Some (if s then - a else a)
  | _ => None
  end.

(** [static_cast<int64_t>(double)]: undefined when the integer part does not
    fit. *)
Definition f64_to_i64 (b : Z) : option Z :=
  match SF_trunc (f64_to_SF b) with
  | Some z => if Z.leb INT64_MIN z && Z.leb z INT64_MAX then Some z else None
  | None => None
  end.

(** ** The representation *)

Lemma f64_fields b : is_u64 b ->
  b = (if Z.testbit b 63 then 2 ^ 63 else 0) + Z.land (Z.shiftr b 52) 2047 * 2 ^ 52 + Z.land b (2 ^ 52 - 1).
Proof.
  unfold is_u64. intros Hb.
  change (2 ^ 52 - 1) with (Z.ones 52). change 2047 with (Z.ones 11).
  rewrite !Z.land_ones, Z.testbit_odd, !Z.shiftr_div_pow2 by lia.
  assert (b / 2 ^ 63 = 0 \/ b / 2 ^ 63 = 1) as H63.
  { assert (0 <= b / 2 ^ 63 < 2); [|lia]. split; [apply Z.div_pos; lia|apply Z.div_lt_upper_bound; lia]. }
  pose proof (Z.div_mod b (2 ^ 52)) as H1. pose proof (Z.div_mod (b / 2 ^ 52) (2 ^ 11)) as H2.
  rewrite Z.div_div in H2 by lia. change (2 ^ 52 * 2 ^ 11) with (2 ^ 63) in H2.
  destruct H63 as [E|E]; rewrite E in *; simpl; lia.
Qed.

(** Decoding a double that is not a NaN and encoding it again gives its bits
    back, so every operation above is determined on them. *)
Lemma f64_decode_encode nan b :
  is_u64 b -> f64_to_SF b <> S754_nan -> SF_to_f64 nan (f64_to_SF b) = b.
Proof.
  intros Hb. pose proof (f64_fields b Hb) as Hf. revert Hf. unfold f64_to_SF.
  change (2 ^ 52 - 1) with (Z.ones 52). change 2047 with (Z.ones 11).
  assert (0 <= Z.land b (Z.ones 52) < 2 ^ 52) as Hm by (rewrite Z.land_ones by lia; apply Z.mod_pos_bound; lia).
  assert (0 <= Z.land (Z.shiftr b 52) (Z.ones 11) < 2 ^ 11) as He by (rewrite Z.land_ones by lia; apply Z.mod_pos_bound; lia).
  revert Hm He. generalize (Z.land b (Z.ones 52)) (Z.land (Z.shiftr b 52) (Z.ones 11)) (Z.testbit b 63).
  change (Z.ones 11) with 2047. intros m e s Hm He -> Hnan.
  destruct (Z.eqb_spec e 0) as [->|He0].
  { destruct m as [|p|p]; [| |lia]; simpl; [by destruct s|]. destruct (Z.ltb_spec (Z.pos p) (2 ^ 52)); [|lia].
    simpl. lia. }
  destruct (Z.eqb_spec e 2047) as [->|He1].
  { destruct (Z.eqb_spec m 0) as [->|]; [|done]. simpl. lia. }
  destruct (m + 2 ^ 52) as [|p|p] eqn:Ep; [lia| |lia]. simpl.
  destruct (Z.ltb_spec (Z.pos p) (2 ^ 52)); lia.
Qed.

#[global] Opaque f64_add f64_sub f64_mul f64_div f64_opp f64_leb f64_of_i64 f64_to_i64.
