(* ===== verification/Expr.v ===== *)
(** * Expressions

    The expressions of [planner/logical_plan/logical_plan.hpp] and their
    evaluator, [execution/operator/expr_evaluator.cpp], which works on whole
    column vectors.  The claim is that it computes, row by row, what the
    reference semantics [eval_row] says of a single row: vectors of the right
    length, type and validity, NULLs in the right places, and no access outside
    a vector.  The reference semantics is itself partial: a conversion of a
    double to an integer it does not fit, or the negation of the least integer,
    is undefined in C++. *)

From Stdlib Require Import ZArith SpecFloat String Ascii.
From stdpp Require Import base gmap strings list fin_maps.
From S2P Require Import Prelude Types Double.

(** ** The expression tree *)

Inductive AggFunc : Type := COUNT | SUM | MIN | MAX | AVG.

(** Every node carries its [result_type] first. *)
#[warnings="-register-all"]
Inductive LogicalExpr : Type :=
  | BoundColumnRef (result_type : TypeId) (column_idx : nat) (name : string)
  | LogicalLit (result_type : TypeId) (value : Value) (is_null : bool)
  | LogicalBinaryOp (result_type : TypeId) (op : string) (left right : LogicalExpr)
  | LogicalUnaryOp (result_type : TypeId) (op : string) (child : LogicalExpr)
  | LogicalCast (result_type : TypeId) (from_type : TypeId) (child : LogicalExpr)
  | LogicalAggrExpr (result_type : TypeId) (func : AggFunc) (is_star : bool) (arg : option LogicalExpr).

(** Induction with a hypothesis for the argument of an aggregate. *)
Lemma expr_ind (P : LogicalExpr -> Prop) :
  (forall t i n, P (BoundColumnRef t i n)) -> (forall t v b, P (LogicalLit t v b)) ->
  (forall t op l r, P l -> P r -> P (LogicalBinaryOp t op l r)) ->
  (forall t op c, P c -> P (LogicalUnaryOp t op c)) -> (forall t from c, P c -> P (LogicalCast t from c)) ->
  (forall t f st arg, (forall a, arg = Some a -> P a) -> P (LogicalAggrExpr t f st arg)) -> forall e, P e.
Proof.
  intros Href Hlit Hbin Hun Hcast Hagg. fix IH 1. intros [t i n|t v b|t op l r|t op c|t from c|t f st arg].
  - apply Href.
  - apply Hlit.
  - apply Hbin; apply IH.
  - apply Hun, IH.
  - apply Hcast, IH.
  - apply Hagg. intros a. destruct arg as [b|]; [|discriminate]. intros [= <-]. apply IH.
Qed.

Definition result_type (e : LogicalExpr) : TypeId :=
  match e with
  | BoundColumnRef t _ _ | LogicalLit t _ _ | LogicalBinaryOp t _ _ _ | LogicalUnaryOp t _ _
  | LogicalCast t _ _ | LogicalAggrExpr t _ _ _ => t
  end.

(** ** Element access *)

Definition int_at (v : DataVector) (i : nat) : result Z := of_option UndefinedBehaviour (int_data v !! i).
Definition float_at (v : DataVector) (i : nat) : result Z := of_option UndefinedBehaviour (float_data v !! i).
Definition str_at (v : DataVector) (i : nat) : result string := of_option UndefinedBehaviour (str_data v !! i).

(** [v[i] = x] *)
Definition assign {A} (i : nat) (x : A) (l : list A) : result (list A) :=
  if decide (i < length l) then Ok (<[i := x]> l) else Err UndefinedBehaviour.
Definition put_int (v : DataVector) (i : nat) (x : Z) : result DataVector :=
  l ← assign i x (int_data v); Ok (with_int l v).
Definition put_float (v : DataVector) (i : nat) (x : Z) : result DataVector :=
  l ← assign i x (float_data v); Ok (with_float l v).

Definition is_float (t : TypeId) : bool := bool_decide (t = FLOAT64) || bool_decide (t = FLOAT32).

Definition is_arithmetic (op : string) : bool :=
  String.eqb op "+" || String.eqb op "-" || String.eqb op "*" || String.eqb op "/".
Definition is_comparison (op : string) : bool :=
  String.eqb op "=" || String.eqb op "<" || String.eqb op ">" ||
  String.eqb op "<=" || String.eqb op ">=" || String.eqb op "<>".
Definition is_logical (op : string) : bool := String.eqb op "AND" || String.eqb op "OR".

(** The chain of comparisons on [op], shared by the three element types. *)
Definition compare_by {A} (eqb ltb leb : A -> A -> bool) (op : string) (l r : A) : bool :=
  if String.eqb op "=" then eqb l r
  else if String.eqb op "<>" then negb (eqb l r)
  else if String.eqb op "<" then ltb l r
  else if String.eqb op ">" then ltb r l
  else if String.eqb op "<=" then leb l r
  else leb r l.

Definition compare_ints : string -> Z -> Z -> bool := compare_by Z.eqb Z.ltb Z.leb.
Definition compare_doubles : string -> Z -> Z -> bool := compare_by f64_eqb f64_ltb f64_leb.
Definition compare_strings : string -> string -> string -> bool := compare_by String.eqb String.ltb String.leb.

(** [result ? 1 : 0] *)
Definition bit_of (b : bool) : Z := if b then 1%Z else 0%Z.

(** A row of a result: [None] is NULL. *)
Notation sql_row := (list (option cell)).

Section evaluator.
Context (F : FPU).

(** The four arithmetic operators; [None] is the division by zero. *)
Definition arith (op : string) (lv rv : Z) : option Z :=
  if String.eqb op "+" then Some (f64_add F lv rv)
  else if String.eqb op "-" then Some (f64_sub F lv rv)
  else if String.eqb op "*" then Some (f64_mul F lv rv)
  else if f64_eqb rv 0 then None
  else Some (f64_div F lv rv).

(** An operand as a double. *)
Definition double_at (v : DataVector) (i : nat) : result Z :=
  if is_float (dv_type v) then float_at v i else f64_of_i64 <$> int_at v i.

Definition comparison_at (op : string) (left right : DataVector) (i : nat) : result bool :=
  if bool_decide (dv_type left = VARCHAR) && bool_decide (dv_type right = VARCHAR) then
    ls ← str_at left i; rs ← str_at right i; Ok (compare_strings op ls rs)
  else if is_float (dv_type left) || is_float (dv_type right) then
    lv ← double_at left i; rv ← double_at right i; Ok (compare_doubles op lv rv)
  else
    li ← int_at left i; ri ← int_at right i; Ok (compare_ints op li ri).

(** One row of [ApplyBinaryOp]. *)
Definition binary_row (op : string) (left right : DataVector) (rt : TypeId) (output : DataVector) (i : nat)
    : result DataVector :=
  if IsNull left i || IsNull right i then SetNull output i
  else if is_arithmetic op then
    lv ← double_at left i; rv ← double_at right i;
    match arith op lv rv with
    | None => SetNull output i
    | Some res =>
        output ← (if is_float rt then put_float output i res
                  else z ← of_option UndefinedBehaviour (f64_to_i64 res); put_int output i z);
        SetValid output i
    end
  else if is_comparison op then
    result ← comparison_at op left right i;
    output ← put_int output i (bit_of result);
    SetValid output i
  else if is_logical op then
    lv ← int_at left i; rv ← int_at right i;
    let res := if String.eqb op "AND" then negb (Z.eqb lv 0) && negb (Z.eqb rv 0)
               else negb (Z.eqb lv 0) || negb (Z.eqb rv 0) in
    output ← put_int output i (bit_of res);
    SetValid output i
  else Ok output.

Definition ApplyBinaryOp (op : string) (left right : DataVector) (count : nat) (rt : TypeId)
    : result DataVector :=
  foldM (binary_row op left right rt) (Reset rt count) (seq 0 count).

(** One row of [ApplyUnaryOp]; negating the least [int64_t] overflows. *)
Definition unary_row (op : string) (child output : DataVector) (i : nat) : result DataVector :=
  if IsNull child i then SetNull output i
  else
    output ← (if String.eqb op "NOT" then
                z ← int_at child i; put_int output i (bit_of (Z.eqb z 0))
              else if String.eqb op "-" then
                if is_float (dv_type child) then x ← float_at child i; put_float output i (f64_opp x)
                else z ← int_at child i;
                     _ ← require (negb (Z.eqb z INT64_MIN)) UndefinedBehaviour;
                     put_int output i (- z)%Z
              else Ok output);
    SetValid output i.

Definition ApplyUnaryOp (op : string) (child : DataVector) (count : nat) : result DataVector :=
  foldM (unary_row op child) (Reset (dv_type child) count) (seq 0 count).

(** The loop of [ApplyCast]; the unhandled pair of types replaces the output by
    the source at the first row that is not NULL. *)
Fixpoint cast_loop (src : DataVector) (from_type to_type : TypeId) (output : DataVector) (rows : list nat)
    : result DataVector :=
  match rows with
  | [] => Ok output
  | i :: rows =>
      if IsNull src i then
        output ← SetNull output i; cast_loop src from_type to_type output rows
      else if bool_decide (from_type = INT64) && is_float to_type then
        z ← int_at src i; output ← put_float output i (f64_of_i64 z);
        output ← SetValid output i; cast_loop src from_type to_type output rows
      else if is_float from_type && bool_decide (to_type = INT64) then
        x ← float_at src i; z ← of_option UndefinedBehaviour (f64_to_i64 x);
        output ← put_int output i z;
        output ← SetValid output i; cast_loop src from_type to_type output rows
      else Ok src
  end.

Definition ApplyCast (src : DataVector) (from_type to_type : TypeId) (count : nat) : result DataVector :=
  cast_loop src from_type to_type (Reset to_type count) (seq 0 count).

(** [ExprEvaluator::Evaluate] *)
Fixpoint Evaluate (expr : LogicalExpr) (chunk : DataChunk) : result DataVector :=
  match expr with
  | BoundColumnRef _ column_idx _ => of_option UndefinedBehaviour (columns chunk !! column_idx)
  | LogicalLit rt value is_null =>
      if is_null : bool then Ok (Reset (if bool_decide (rt = INVALID) then INT64 else rt) (ch_count chunk))
      else DataVectorFill value (ch_count chunk)
  | LogicalBinaryOp rt op l r =>
      left_vec ← Evaluate l chunk; right_vec ← Evaluate r chunk;
      ApplyBinaryOp op left_vec right_vec (ch_count chunk) rt
  | LogicalUnaryOp _ op child =>
      child_vec ← Evaluate child chunk; ApplyUnaryOp op child_vec (ch_count chunk)
  | LogicalCast rt from_type child =>
      child_vec ← Evaluate child chunk; ApplyCast child_vec from_type rt (ch_count chunk)
  | LogicalAggrExpr _ _ _ _ =>
      Err (RuntimeError "aggregate expression cannot be evaluated in scalar context")
  end.

(** [ExprEvaluator::EvaluatePredicate]: the rows that pass.  A row number of a
    batch fits the [uint16_t] of the source. *)
Definition passes (v : DataVector) (i : nat) : result bool :=
  if IsNull v i then Ok false else z ← int_at v i; Ok (negb (Z.eqb z 0)).

Definition EvaluatePredicate (pred : LogicalExpr) (chunk : DataChunk) : result (list nat) :=
  res ← Evaluate pred chunk;
  foldM (fun sel i => b ← passes res i; Ok (if b : bool then sel ++ [i] else sel)) [] (seq 0 (ch_count chunk)).

(** [DataChunkCompact] *)
Definition DataChunkCompact (src : DataChunk) (sel : list nat) : result DataChunk := DataChunkSlice src sel.

(** ** Row-at-a-time semantics *)

Definition double_of (c : cell) : option Z :=
  match c with CInt z => Some (f64_of_i64 z) | CFloat b => Some b | CStr _ => None end.

Definition arith_cell (op : string) (rt : TypeId) (x y : cell) : option (option cell) :=
  lv ← double_of x; rv ← double_of y;
  match arith op lv rv with
  | None => Some None
  | Some res => if is_float rt then Some (Some (CFloat res)) else z ← f64_to_i64 res; Some (Some (CInt z))
  end.

Definition compare_cells (op : string) (x y : cell) : option bool :=
  match x, y with
  | CStr a, CStr b => Some (compare_strings op a b)
  | CInt a, CInt b => Some (compare_ints op a b)
  | _, _ => lv ← double_of x; rv ← double_of y; Some (compare_doubles op lv rv)
  end.

Definition logical_cell (op : string) (x y : cell) : option bool :=
  match x, y with
  | CInt a, CInt b => Some (if String.eqb op "AND" then negb (Z.eqb a 0) && negb (Z.eqb b 0)
                            else negb (Z.eqb a 0) || negb (Z.eqb b 0))
  | _, _ => None
  end.

Definition bool_cell (b : bool) : option cell := Some (CInt (bit_of b)).

(** The outer option is C++'s definedness, the inner one SQL's NULL. *)
Definition binary_cell (op : string) (rt : TypeId) (x y : option cell) : option (option cell) :=
  match x, y with
  | Some x, Some y =>
      if is_arithmetic op then arith_cell op rt x y
      else if is_comparison op then bool_cell <$> compare_cells op x y
      else bool_cell <$> logical_cell op x y
  | _, _ => Some None
  end.

Definition unary_cell (op : string) (x : option cell) : option (option cell) :=
  match x with
  | None => Some None
  | Some x =>
      if String.eqb op "NOT" then
        match x with CInt z => Some (bool_cell (Z.eqb z 0)) | _ => None end
      else match x with
           | CInt z => if Z.eqb z INT64_MIN then None else Some (Some (CInt (- z)))
           | CFloat b => Some (Some (CFloat (f64_opp b)))
           | CStr _ => None
           end
  end.

Definition cast_cell (rt : TypeId) (x : option cell) : option (option cell) :=
  match x with
  | Some (CInt z) => Some (Some (if is_float rt then CFloat (f64_of_i64 z) else CInt z))
  | Some (CFloat b) => if is_float rt then Some x else z ← f64_to_i64 b; Some (Some (CInt z))
  | _ => Some x
  end.

Definition literal_cell (v : Value) : option cell :=
  match data v with
  | VInt z => Some (CInt z) | VDouble b => Some (CFloat b) | VStr s => Some (CStr s) | VBool b => Some (CInt (bit_of b))
  end.

Fixpoint eval_row (e : LogicalExpr) (r : sql_row) : option (option cell) :=
  match e with
  | BoundColumnRef _ i _ => r !! i
  | LogicalLit _ v is_null => Some (if is_null : bool then None else literal_cell v)
  | LogicalBinaryOp rt op a b => x ← eval_row a r; y ← eval_row b r; binary_cell op rt x y
  | LogicalUnaryOp _ op a => x ← eval_row a r; unary_cell op x
  | LogicalCast rt _ a => x ← eval_row a r; cast_cell rt x
  | LogicalAggrExpr _ _ _ _ => None
  end.

End evaluator.

(** Row [i] of a chunk across its columns, and all of its rows. *)
Definition row_at (c : DataChunk) (i : nat)  : sql_row := (fun col => dv_row col i) <$> columns c.
Definition chunk_rows (c : DataChunk) : list sql_row := row_at c <$> seq 0 (ch_count c).

(** ** Typing *)

(** The type of the vector an expression evaluates to. *)
Fixpoint type_of (e : LogicalExpr) : TypeId :=
  match e with
  | LogicalLit t v is_null => if is_null : bool then (if bool_decide (t = INVALID) then INT64 else t) else vtype v
  | LogicalUnaryOp _ _ c => type_of c
  | e => result_type e
  end.

Definition is_numeric (t : TypeId) : bool := bool_decide (storage_of t = SInt) || bool_decide (storage_of t = SFloat).
Definition is_intlike (t : TypeId) : bool := bool_decide (storage_of t = SInt).

(** A literal whose variant is the one its storage needs; a BOOLEAN literal is
    not (see [DataVectorFill_boolean_throws]). *)
Definition literal_ok (v : Value) : bool :=
  match vtype v, data v with
  | (INT8 | INT16 | INT32 | INT64), VInt _ | (FLOAT32 | FLOAT64), VDouble _ | VARCHAR, VStr _ => true
  | _, _ => false
  end.

Definition binary_ok (op : string) (rt a b : TypeId) : bool :=
  if is_arithmetic op then is_numeric rt && is_numeric a && is_numeric b
  else if is_comparison op then
    is_intlike rt && ((is_numeric a && is_numeric b) || (bool_decide (a = VARCHAR) && bool_decide (b = VARCHAR)))
  else is_logical op && is_intlike rt && is_intlike a && is_intlike b.

Definition unary_ok (op : string) (a : TypeId) : bool :=
  (String.eqb op "NOT" && is_intlike a) || (String.eqb op "-" && is_numeric a).

Definition cast_ok (from to a : TypeId) : bool :=
  (bool_decide (from = INT64) && is_float to && is_intlike a) ||
  (is_float from && bool_decide (to = INT64) && is_float a) ||
  (negb (bool_decide (from = INT64) && is_float to) && negb (is_float from && bool_decide (to = INT64)) &&
   bool_decide (to = a) && negb (bool_decide (to = INVALID))).

Fixpoint well_typed (types : list TypeId) (e : LogicalExpr) : bool :=
  match e with
  | BoundColumnRef t i _ => bool_decide (types !! i = Some t)
  | LogicalLit _ v is_null => is_null || literal_ok v
  | LogicalBinaryOp rt op a b =>
      well_typed types a && well_typed types b && binary_ok op rt (type_of a) (type_of b)
  | LogicalUnaryOp _ op a => well_typed types a && unary_ok op (type_of a)
  | LogicalCast rt from a => well_typed types a && cast_ok from rt (type_of a)
  | LogicalAggrExpr _ _ _ _ => false
  end.

(** ** Row loops *)

(** Store the value of one row in the vector under construction. *)
Definition put_row (out : DataVector) (i : nat) (r : option cell) : result DataVector :=
  match r with
  | None => SetNull out i
  | Some (CInt z) => out ← put_int out i z; SetValid out i
  | Some (CFloat b) => out ← put_float out i b; SetValid out i
  | Some (CStr _) => Err UndefinedBehaviour
  end.

Definition fits (t : TypeId) (r : option cell) : Prop :=
  match r with
  | None => True
  | Some (CInt _) => storage_of t = SInt
  | Some (CFloat _) => storage_of t = SFloat
  | Some (CStr _) => False
  end.

(** Same type, count and capacity; row [i] replaced by [r]. *)
Record row_put (out out' : DataVector) (i : nat) (r : option cell) : Prop := {
  rp_type : dv_type out' = dv_type out;
  rp_count : dv_count out' = dv_count out;
  rp_cells : length (cells out') = length (cells out);
  rp_row : dv_row out' i = r;
  rp_null : forall j, j <> i -> IsNull out' j = IsNull out j;
  rp_other : forall j, j <> i -> dv_row out' j = dv_row out j;
}.

Lemma dv_row_null v i : dv_row v i = None -> i < length (cells v) -> IsNull v i = true.
Proof.
  unfold dv_row. destruct (IsNull v i); [done|]. intros H Hi. apply lookup_lt_is_Some in Hi as [x Hx]. congruence.
Qed.

Lemma set_valid_put out out1 i c :
  i < STANDARD_VECTOR_SIZE -> dv_type out1 = dv_type out -> dv_count out1 = dv_count out ->
  (forall j, IsNull out1 j = IsNull out j) ->
  i < length (cells out) -> cells out1 = <[i := c]> (cells out) ->
  exists out', SetValid out1 i = Ok out' /\ row_put out out' i (Some c).
Proof.
  intros Hi Ht Hc Hn Hlen Hcells. destruct (SetValid_Ok out1 i Hi) as (out' & H & Hce & Ht' & Hc' & Hn').
  exists out'. split; [done|]. split; try congruence.
  - rewrite Hce, Hcells. apply length_insert.
  - unfold dv_row. rewrite Hn', bool_decide_true by done. simpl. rewrite Hce, Hcells. by apply list_lookup_insert_eq.
  - intros j Hj. rewrite Hn', bool_decide_false by congruence. apply Hn.
  - intros j Hj. unfold dv_row. rewrite Hn', bool_decide_false by congruence. simpl.
    rewrite Hn, Hce, Hcells. by rewrite list_lookup_insert_ne.
Qed.

Lemma put_row_Ok out i r :
  i < STANDARD_VECTOR_SIZE -> i < length (cells out) -> fits (dv_type out) r ->
  exists out', put_row out i r = Ok out' /\ row_put out out' i r.
Proof.
  intros Hi Hlen Hf. destruct r as [[z|b|s]|]; simpl in Hf; [| |done|].
  - assert (length (cells out) = length (int_data out)) as E by (unfold cells; rewrite Hf; len).
    unfold put_row, put_int, assign. rewrite decide_True by lia. simpl. apply set_valid_put; try done.
    unfold cells in *. rewrite Hf in *. simpl. rewrite Hf. apply list_fmap_insert.
  - assert (length (cells out) = length (float_data out)) as E by (unfold cells; rewrite Hf; len).
    unfold put_row, put_float, assign. rewrite decide_True by lia. simpl. apply set_valid_put; try done.
    unfold cells in *. rewrite Hf in *. simpl. rewrite Hf. apply list_fmap_insert.
  - destruct (SetNull_Ok out i Hi) as (out' & H & Hce & Ht & Hc & Hn). exists out'. split; [done|].
    assert (forall j, j <> i -> IsNull out' j = IsNull out j) as Hne
      by (intros j Hj; by rewrite Hn, bool_decide_false by congruence).
    split; try congruence.
    + unfold dv_row. by rewrite Hn, bool_decide_true by done.
    + done.
    + intros j Hj. unfold dv_row. by rewrite Hne, Hce.
Qed.

(** A vector of type [t] with the given rows. *)
Definition vec_is (t : TypeId) (vals : list (option cell)) (v : DataVector) : Prop :=
  dv_wf v /\ dv_type v = t /\ dv_rows v = vals.

(** The vector under construction after [k] of [n] rows. *)
Record built (t : TypeId) (n : nat) (vals : list (option cell)) (v : DataVector) : Prop := {
  b_type : dv_type v = t;
  b_count : dv_count v = n;
  b_cells : length (cells v) = n;
  b_rest : forall j, length vals <= j -> IsNull v j = true;
  b_rows : forall j, j < length vals -> vals !! j = Some (dv_row v j);
}.

Lemma built_Reset t n : storage_of t <> SNone -> built t n [] (Reset t n).
Proof.
  intros Ht. unfold Reset. destruct (storage_of t) eqn:E; try done.
  all: split; simpl; try done; try lia; [unfold cells; simpl; rewrite E; len | intros j _; unfold IsNull; simpl; by rewrite Z.bits_0].
Qed.

Lemma built_snoc t n vals v v' r :
  built t n vals v -> length vals < n -> row_put v v' (length vals) r -> built t n (vals ++ [r]) v'.
Proof.
  intros [Ht Hc Hl Hrest Hrows] Hn [Ht' Hc' Hl' Hr Hnull Hoth]. split; try congruence.
  - intros j. rewrite length_app. simpl. intros Hj. rewrite Hnull by lia. apply Hrest. lia.
  - intros j. rewrite length_app. simpl. intros Hj. destruct (decide (j = length vals)) as [->|Hne].
    + by rewrite lookup_app_r, Nat.sub_diag, Hr by lia.
    + rewrite lookup_app_l, Hrows, Hoth by lia. done.
Qed.

Lemma built_done t n vals v :
  storage_of t <> SNone -> n <= STANDARD_VECTOR_SIZE -> length vals = n -> built t n vals v -> vec_is t vals v.
Proof.
  intros Ht Hn <- [Hty Hc Hl Hrest Hrows]. split; [|split; [done|]].
  - split; [congruence|lia| |].
    + intros i Hi. apply Hrest. lia.
    + intros i Hi. rewrite Hl. destruct (decide (i < length vals)); [done|].
      rewrite Hrest in Hi by lia. done.
  - by apply dv_rows_ext.
Qed.

(** What a fallible computation of rows gives, and what the loop that builds
    the vector of them gives. *)
Definition agrees (t : TypeId) (ref : option (list (option cell))) (res : result DataVector) : Prop :=
  match ref with
  | Some vals => exists v, res = Ok v /\ vec_is t vals v
  | None => res = Err UndefinedBehaviour
  end.

Lemma row_loop_from step t n (f : nat -> option (option cell)) m vals v :
  storage_of t <> SNone -> n <= STANDARD_VECTOR_SIZE ->
  (forall out i, i < n -> dv_type out = t -> step out i =
     match f i with Some r => put_row out i r | None => Err UndefinedBehaviour end) ->
  (forall i r, i < n -> f i = Some r -> fits t r) ->
  length vals + m = n -> built t n vals v ->
  agrees t ((fun l => vals ++ l) <$> mapM f (seq (length vals) m)) (foldM step v (seq (length vals) m)).
Proof.
  intros Ht Hn Hstep Hfit. revert vals v. induction m as [|m IH]; intros vals v Hm Hb.
  { simpl. rewrite app_nil_r. exists v. split; [done|]. apply (built_done t n); [done..|lia|done]. }
  cbn [seq foldM mapM]. rewrite Hstep by (try lia; apply Hb).
  destruct (f (length vals)) as [r|] eqn:Ef; [|done]. simpl.
  destruct (put_row_Ok v (length vals) r) as (v' & Hp & Hr).
  { lia. } { rewrite (b_cells _ _ _ _ Hb). lia. } { rewrite (b_type _ _ _ _ Hb). apply (Hfit (length vals)); [lia|done]. }
  rewrite Hp. simpl. specialize (IH (vals ++ [r]) v').
  rewrite length_app in IH. simpl in IH. rewrite Nat.add_1_r in IH.
  specialize (IH ltac:(lia) (built_snoc _ _ _ _ _ _ Hb ltac:(lia) Hr)).
  destruct (mapM f (seq (S (length vals)) m)) as [l|]; simpl in *; [|done].
  by rewrite <- app_assoc in IH.
Qed.

Lemma row_loop step t n (f : nat -> option (option cell)) :
  storage_of t <> SNone -> n <= STANDARD_VECTOR_SIZE ->
  (forall out i, i < n -> dv_type out = t -> step out i =
     match f i with Some r => put_row out i r | None => Err UndefinedBehaviour end) ->
  (forall i r, i < n -> f i = Some r -> fits t r) ->
  agrees t (mapM f (seq 0 n)) (foldM step (Reset t n) (seq 0 n)).
Proof.
  intros Ht Hn Hstep Hfit.
  pose proof (row_loop_from step t n f n [] (Reset t n) Ht Hn Hstep Hfit eq_refl (built_Reset t n Ht)) as H.
  simpl in H. by destruct (mapM f (seq 0 n)).
Qed.

(** ** One row of each operator *)

Lemma is_float_storage t : is_float t = bool_decide (storage_of t = SFloat).
Proof. by destruct t. Qed.

Lemma is_varchar_storage t : bool_decide (t = VARCHAR) = bool_decide (storage_of t = SStr).
Proof. by destruct t. Qed.

(** The element a non-NULL row of a vector is read from. *)
Inductive row_view (v : DataVector) (i : nat) : Prop :=
  | RV_null : IsNull v i = true -> dv_row v i = None -> row_view v i
  | RV_int z : IsNull v i = false -> storage_of (dv_type v) = SInt -> int_at v i = Ok z ->
      dv_row v i = Some (CInt z) -> row_view v i
  | RV_float b : IsNull v i = false -> storage_of (dv_type v) = SFloat -> float_at v i = Ok b ->
      dv_row v i = Some (CFloat b) -> row_view v i
  | RV_str s : IsNull v i = false -> storage_of (dv_type v) = SStr -> str_at v i = Ok s ->
      dv_row v i = Some (CStr s) -> row_view v i.

Lemma dv_row_view v i : dv_wf v -> row_view v i.
Proof.
  intros [Hst _ _ Hce]. specialize (Hce i). destruct (IsNull v i) eqn:Hn.
  { apply RV_null; [done|]. unfold dv_row. by rewrite Hn. }
  specialize (Hce eq_refl). apply lookup_lt_is_Some in Hce as [c Hc].
  assert (dv_row v i = Some c) as Hr by (unfold dv_row; by rewrite Hn).
  unfold cells in Hc. destruct (storage_of (dv_type v)) eqn:E; [| | |done];
    apply list_lookup_fmap_Some in Hc as (x & -> & Hx).
  - apply RV_int with x; try done. unfold int_at. by rewrite Hx.
  - apply RV_float with x; try done. unfold float_at. by rewrite Hx.
  - apply RV_str with x; try done. unfold str_at. by rewrite Hx.
Qed.

(** Decide the boolean side conditions once the storages are known. *)
Ltac storage_simpl :=
  rewrite ?is_float_storage, ?is_varchar_storage in *; unfold is_numeric, is_intlike in *;
  repeat match goal with
    | H : storage_of ?t = _ |- _ => rewrite H in *; clear H
    end; cbn [bool_decide decide decide_rel storage_eq_dec storage_rec storage_rect andb orb negb] in *.

Section rows.
Context (F : FPU).

(** A boolean that the typing of the operator settles. *)
Ltac bools :=
  repeat match goal with
    | H : (_ && _)%bool = true |- _ => apply andb_true_iff in H as [? H]
    | H : bool_decide _ = true |- _ => apply bool_decide_eq_true in H
    end.

Lemma numeric_cases t : is_numeric t = true -> storage_of t = SInt \/ storage_of t = SFloat.
Proof. unfold is_numeric. rewrite orb_true_iff, !bool_decide_eq_true. done. Qed.

Lemma arith_row_eq op l r rt out i :
  dv_wf l -> dv_wf r -> dv_type out = rt -> is_arithmetic op = true ->
  is_numeric rt = true -> is_numeric (dv_type l) = true -> is_numeric (dv_type r) = true ->
  binary_row F op l r rt out i =
    match binary_cell F op rt (dv_row l i) (dv_row r i) with
    | Some x => put_row out i x | None => Err UndefinedBehaviour end.
Proof.
  intros Hl Hr Ht Hop Hrt Htl Htr. unfold binary_row, binary_cell, arith_cell, double_at. rewrite Hop.
  destruct (dv_row_view l i Hl) as [Hn Hd|z Hn Hs Ha Hd|z Hn Hs Ha Hd|z Hn Hs Ha Hd]; rewrite Hn, Hd; [done| | |];
  destruct (dv_row_view r i Hr) as [Hn' Hd'|z' Hn' Hs' Ha' Hd'|z' Hn' Hs' Ha' Hd'|z' Hn' Hs' Ha' Hd'];
    rewrite Hn', Hd'; try done; storage_simpl; try done; rewrite Ha, Ha'; simpl.
  all: destruct (arith F op _ _) as [x|]; [|done].
  all: destruct (numeric_cases _ Hrt) as [E|E]; rewrite E; simpl; [|done].
  all: destruct (f64_to_i64 x); done.
Qed.

Lemma comparison_row_eq op l r rt out i :
  dv_wf l -> dv_wf r -> is_arithmetic op = false -> is_comparison op = true ->
  (is_numeric (dv_type l) && is_numeric (dv_type r)
   || bool_decide (dv_type l = VARCHAR) && bool_decide (dv_type r = VARCHAR))%bool = true ->
  binary_row F op l r rt out i =
    match binary_cell F op rt (dv_row l i) (dv_row r i) with
    | Some x => put_row out i x | None => Err UndefinedBehaviour end.
Proof.
  intros Hl Hr Hop Hop' Hty. unfold binary_row, binary_cell, comparison_at, double_at, compare_cells.
  rewrite Hop, Hop'.
  destruct (dv_row_view l i Hl) as [Hn Hd|z Hn Hs Ha Hd|z Hn Hs Ha Hd|z Hn Hs Ha Hd]; rewrite Hn, Hd; [done| | |];
  destruct (dv_row_view r i Hr) as [Hn' Hd'|z' Hn' Hs' Ha' Hd'|z' Hn' Hs' Ha' Hd'|z' Hn' Hs' Ha' Hd'];
    rewrite Hn', Hd'; try done; storage_simpl; try done; rewrite Ha, Ha'; done.
Qed.

Lemma logical_row_eq op l r rt out i :
  dv_wf l -> dv_wf r -> is_arithmetic op = false -> is_comparison op = false -> is_logical op = true ->
  is_intlike (dv_type l) = true -> is_intlike (dv_type r) = true ->
  binary_row F op l r rt out i =
    match binary_cell F op rt (dv_row l i) (dv_row r i) with
    | Some x => put_row out i x | None => Err UndefinedBehaviour end.
Proof.
  intros Hl Hr Hop Hop' Hop'' Hty Hty'. unfold binary_row, binary_cell, logical_cell.
  rewrite Hop, Hop', Hop''.
  destruct (dv_row_view l i Hl) as [Hn Hd|z Hn Hs Ha Hd|z Hn Hs Ha Hd|z Hn Hs Ha Hd]; rewrite Hn, Hd; [done| | |];
  destruct (dv_row_view r i Hr) as [Hn' Hd'|z' Hn' Hs' Ha' Hd'|z' Hn' Hs' Ha' Hd'|z' Hn' Hs' Ha' Hd'];
    rewrite Hn', Hd'; try done; storage_simpl; try done; rewrite Ha, Ha'; done.
Qed.

Lemma binary_row_eq op l r rt out i :
  dv_wf l -> dv_wf r -> binary_ok op rt (dv_type l) (dv_type r) = true -> dv_type out = rt ->
  binary_row F op l r rt out i =
    match binary_cell F op rt (dv_row l i) (dv_row r i) with
    | Some x => put_row out i x | None => Err UndefinedBehaviour end.
Proof.
  intros Hl Hr Hok Ht. unfold binary_ok in Hok.
  destruct (is_arithmetic op) eqn:Ea.
  { apply andb_true_iff in Hok as [Hok H3]. apply andb_true_iff in Hok as [H1 H2]. by apply arith_row_eq. }
  destruct (is_comparison op) eqn:Ec.
  { apply andb_true_iff in Hok as [H1 H2]. by apply comparison_row_eq. }
  apply andb_true_iff in Hok as [Hok H3]. apply andb_true_iff in Hok as [Hok H2].
  apply andb_true_iff in Hok as [H0 H1]. by apply logical_row_eq.
Qed.

Lemma fits_bool t b : is_intlike t = true -> fits t (bool_cell b).
Proof. unfold is_intlike. by rewrite bool_decide_eq_true. Qed.

Lemma binary_cell_fits op rt a b x y r :
  binary_ok op rt a b = true -> binary_cell F op rt x y = Some r -> fits rt r.
Proof.
  unfold binary_ok, binary_cell, arith_cell. intros Hok. destruct x as [x|], y as [y|]; [|by intros [= <-]..].
  destruct (is_arithmetic op).
  { apply andb_true_iff in Hok as [Hok H3]. apply andb_true_iff in Hok as [H1 H2].
    destruct (double_of x) as [lv|]; [|done]; destruct (double_of y) as [rv|]; [|done]; simpl.
    destruct (arith F op lv rv) as [res|]; [|by intros [= <-]]. rewrite is_float_storage.
    destruct (numeric_cases _ H1) as [E|E]; rewrite E; simpl; [|by intros [= <-]].
    destruct (f64_to_i64 res); [|done]. by intros [= <-]. }
  destruct (is_comparison op).
  - apply andb_true_iff in Hok as [H1 _]. intros H. apply fmap_Some in H as (bb & _ & ->). by apply fits_bool.
  - apply andb_true_iff in Hok as [Hok _]. apply andb_true_iff in Hok as [Hok _].
    apply andb_true_iff in Hok as [_ Hok]. intros H. apply fmap_Some in H as (bb & _ & ->). by apply fits_bool.
Qed.

Lemma unary_row_eq op c out i :
  dv_wf c -> unary_ok op (dv_type c) = true ->
  unary_row op c out i =
    match unary_cell op (dv_row c i) with
    | Some x => put_row out i x | None => Err UndefinedBehaviour end.
Proof.
  intros Hc Hok. unfold unary_row, unary_cell. unfold unary_ok in Hok.
  destruct (dv_row_view c i Hc) as [Hn Hd|z Hn Hs Ha Hd|z Hn Hs Ha Hd|z Hn Hs Ha Hd]; rewrite Hn, Hd; [done| | |];
    storage_simpl; destruct (String.eqb_spec op "NOT") as [->|]; simpl in *; try done; rewrite ?Ha; try done;
    destruct (String.eqb op "-"); simpl in *; try done; rewrite ?Ha; simpl; try done.
  unfold require. by destruct (Z.eqb z INT64_MIN).
Qed.

Lemma unary_cell_fits op v i r :
  dv_wf v -> unary_ok op (dv_type v) = true -> unary_cell op (dv_row v i) = Some r -> fits (dv_type v) r.
Proof.
  intros Hv Hok. unfold unary_cell. unfold unary_ok in Hok.
  destruct (dv_row_view v i Hv) as [Hn Hd|z Hn Hs Ha Hd|z Hn Hs Ha Hd|z Hn Hs Ha Hd]; rewrite Hd; [by intros [= <-]| | |];
    unfold is_numeric, is_intlike in Hok; rewrite Hs in Hok;
    destruct (String.eqb_spec op "NOT") as [->|]; simpl in *; try done; try (by intros [= <-]).
  destruct (Z.eqb z INT64_MIN); [done|]. by intros [= <-].
Qed.

(** The conversions of [ApplyCast] are row loops; the other pairs of types copy
    the source. *)
Lemma cast_loop_convert src from to out rows :
  dv_wf src ->
  (bool_decide (from = INT64) && is_float to && is_intlike (dv_type src)
   || is_float from && bool_decide (to = INT64) && is_float (dv_type src))%bool = true ->
  cast_loop src from to out rows =
  foldM (fun out i => match cast_cell to (dv_row src i) with
                      | Some x => put_row out i x | None => Err UndefinedBehaviour end) out rows.
Proof.
  intros Hs Hok. revert out. induction rows as [|i rows IH]; intros out; [done|]. cbn [cast_loop foldM].
  destruct (dv_row_view src i Hs) as [Hn Hd|z Hn Hst Ha Hd|z Hn Hst Ha Hd|z Hn Hst Ha Hd]; rewrite Hn, Hd;
    [simpl; destruct (SetNull out i); [apply IH|done]|..];
    unfold is_intlike in Hok; rewrite (is_float_storage (dv_type src)), Hst in Hok; simpl in Hok;
    rewrite ?andb_false_r, ?orb_false_r, ?andb_true_r in Hok; simpl in Hok; try done; rewrite Hok.
  - rewrite Ha. apply andb_true_iff in Hok as [_ Hok]. simpl. rewrite Hok.
    simpl. destruct (put_float out i (f64_of_i64 z)) as [o|]; [|done]. simpl. destruct (SetValid o i); [apply IH|done].
  - rewrite Ha. apply andb_true_iff in Hok as [Hf Ht].
    apply bool_decide_eq_true in Ht as ->. simpl. rewrite andb_false_r.
    destruct (f64_to_i64 z) as [y|]; [|done]. simpl.
    destruct (put_int out i y) as [o|]; [|done]. simpl. destruct (SetValid o i); [apply IH|done].
Qed.

Lemma cast_loop_copy src from to out rows :
  (bool_decide (from = INT64) && is_float to)%bool = false ->
  (is_float from && bool_decide (to = INT64))%bool = false ->
  Forall (fun i => i < STANDARD_VECTOR_SIZE) rows ->
  cast_loop src from to out rows =
  if decide (Forall (fun i => IsNull src i = true) rows) then foldM SetNull out rows else Ok src.
Proof.
  intros H1 H2 Hr. revert out.
  induction Hr as [|i rows Hi Hr IH]; intros out; [by rewrite decide_True by constructor|]. cbn [cast_loop foldM].
  rewrite H1, H2. destruct (IsNull src i) eqn:Hn.
  - destruct (SetNull_Ok out i Hi) as (out' & -> & _). simpl. rewrite IH.
    destruct (decide (Forall _ rows)) as [H|H].
    + by rewrite decide_True by (by constructor).
    + rewrite decide_False; [done|]. by intros [_ ?]%Forall_cons.
  - rewrite decide_False; [done|]. intros [? _]%Forall_cons. congruence.
Qed.

Lemma mapM_ext_seq {A} (f g : nat -> option A) n :
  (forall i, i < n -> f i = g i) -> mapM f (seq 0 n) = mapM g (seq 0 n).
Proof.
  intros H. assert (Forall (fun i => f i = g i) (seq 0 n)) as Hall
    by (apply Forall_forall; intros i Hi; apply elem_of_seq in Hi; apply H; lia).
  induction Hall as [|i l Hi _ IH]; simpl; [done|]. by rewrite Hi, IH.
Qed.

Lemma mapM_total {A B} (g : A -> B) l : mapM (fun i => Some (g i)) l = Some (g <$> l).
Proof. induction l as [|x l IH]; simpl; [done|]. by rewrite IH. Qed.

Lemma mapM_dv_rows v : mapM (fun i => Some (dv_row v i)) (seq 0 (dv_count v)) = Some (dv_rows v).
Proof. apply mapM_total. Qed.

Lemma ApplyCast_rows src from to :
  dv_wf src -> cast_ok from to (dv_type src) = true ->
  agrees to (mapM (fun i => cast_cell to (dv_row src i)) (seq 0 (dv_count src)))
    (ApplyCast src from to (dv_count src)).
Proof.
  intros Hs Hok. unfold ApplyCast. unfold cast_ok in Hok.
  pose proof (wf_count _ Hs) as Hn. apply orb_true_iff in Hok as [Hok|Hok].
  - rewrite cast_loop_convert by done.
    assert (storage_of to <> SNone) as Hto.
    { apply orb_true_iff in Hok as [Hok|Hok]; bools; destruct to; try done. }
    apply row_loop; [done..|]. intros i r Hi.
    destruct (dv_row_view src i Hs) as [Hnl Hd|z Hnl Hst Ha Hd|z Hnl Hst Ha Hd|z Hnl Hst Ha Hd]; rewrite Hd;
      [by intros [= <-]|..]; unfold is_intlike in Hok; rewrite !is_float_storage, Hst in Hok; simpl in Hok;
      rewrite ?andb_false_r, ?orb_false_r, ?andb_true_r in Hok; simpl in Hok; try done.
    + simpl. rewrite is_float_storage. bools. rewrite bool_decide_true by done. by intros [= <-].
    + simpl. rewrite is_float_storage. bools. subst to. simpl. destruct (f64_to_i64 z); [|done]. by intros [= <-].
  - bools. apply negb_true_iff in Hok. rename Hok into Hinv.
    repeat match goal with H : negb _ = true |- _ => apply negb_true_iff in H end.
    assert (storage_of to <> SNone) as Hto by (subst; apply Hs).
    rewrite cast_loop_copy; [|done..|apply Forall_forall; intros i Hi; apply elem_of_seq in Hi; lia].
    rewrite (mapM_ext_seq _ (fun i => Some (dv_row src i))).
    2: { intros i _. subst to. destruct (dv_row_view src i Hs) as [Hnl Hd|z Hnl Hst Ha Hd|z Hnl Hst Ha Hd|z Hnl Hst Ha Hd];
         rewrite Hd; try done; simpl; rewrite is_float_storage, Hst; done. }
    destruct (decide (Forall _ _)) as [Hall|Hall].
    + apply row_loop; [done..| |].
      * intros out i Hi _. rewrite Forall_forall in Hall. unfold dv_row.
        rewrite Hall by (apply elem_of_seq; lia). done.
      * intros i r Hi [= <-]. rewrite Forall_forall in Hall. unfold dv_row.
        rewrite Hall by (apply elem_of_seq; lia). done.
    + rewrite mapM_dv_rows. exists src. split; [done|]. by split.
Qed.

(** ** Evaluation of an expression *)

Lemma ApplyBinaryOp_rows op l r rt n :
  dv_wf l -> dv_wf r -> binary_ok op rt (dv_type l) (dv_type r) = true -> n <= STANDARD_VECTOR_SIZE ->
  agrees rt (mapM (fun i => binary_cell F op rt (dv_row l i) (dv_row r i)) (seq 0 n)) (ApplyBinaryOp F op l r n rt).
Proof.
  intros Hl Hr Hok Hn. apply row_loop; [|done| |].
  - unfold binary_ok in Hok. intros E. unfold is_numeric, is_intlike in Hok. rewrite E in Hok.
    destruct (is_arithmetic op), (is_comparison op), (is_logical op); done.
  - intros out i Hi Ht. by apply binary_row_eq.
  - intros i x Hi. by apply (binary_cell_fits op rt (dv_type l) (dv_type r)).
Qed.

Lemma ApplyUnaryOp_rows op c n :
  dv_wf c -> unary_ok op (dv_type c) = true -> n <= STANDARD_VECTOR_SIZE ->
  agrees (dv_type c) (mapM (fun i => unary_cell op (dv_row c i)) (seq 0 n)) (ApplyUnaryOp op c n).
Proof.
  intros Hc Hok Hn. apply row_loop; [apply Hc|done| |].
  - intros out i Hi Ht. by apply unary_row_eq.
  - intros i x Hi. by apply unary_cell_fits.
Qed.

Lemma SetValid_all_Ok v n :
  n <= STANDARD_VECTOR_SIZE ->
  exists v', foldM SetValid v (seq 0 n) = Ok v' /\ dv_type v' = dv_type v /\ dv_count v' = dv_count v /\
    forall j, IsNull v' j = negb (bool_decide (j < n)) && IsNull v j.
Proof.
  intros Hn. destruct (foldM_invariant (fun pre v' => dv_type v' = dv_type v /\ dv_count v' = dv_count v /\
    forall j, IsNull v' j = negb (bool_decide (j ∈ pre)) && IsNull v j) SetValid v (seq 0 n)) as (v' & Hv & Ht & Hc & Hj).
  - done.
  - intros pre x a (Ht & Hc & Hj) [suf Hs].
    assert (x < n) as Hx. { assert (x ∈ seq 0 n) as Hin by (rewrite Hs; set_solver). apply elem_of_seq in Hin. lia. }
    destruct (SetValid_Ok a x) as (a' & H & _ & Ht' & Hc' & Hj'); [lia|].
    exists a'. split; [done|]. split_and!; try congruence. intros j. rewrite Hj', Hj.
    destruct (decide (x = j)) as [->|Hne]; [by rewrite (bool_decide_true (j = j)), (bool_decide_true (j ∈ pre ++ [j])) by (done || set_solver)|].
    rewrite (bool_decide_false (x = j)) by done. simpl. f_equal. f_equal. apply bool_decide_ext. set_solver.
  - exists v'. split_and!; try done. intros j. rewrite Hj. f_equal. f_equal. apply bool_decide_ext.
    rewrite elem_of_seq. lia.
Qed.

Lemma literal_rows val n :
  literal_ok val = true -> n <= STANDARD_VECTOR_SIZE ->
  exists v, DataVectorFill val n = Ok v /\ vec_is (vtype val) (replicate n (literal_cell val)) v.
Proof.
  intros Hok Hn. unfold DataVectorFill.
  assert (match storage_of (vtype val), data val with SInt, VInt _ | SFloat, VDouble _ | SStr, VStr _ => true | _, _ => false end = true)
    as Hkind by (unfold literal_ok in Hok; by destruct (vtype val), (data val)). clear Hok.
  assert (Value_IsNull val = false) as -> by (unfold Value_IsNull; by destruct (vtype val)).
  destruct (SetValid_all_Ok (Reset (vtype val) n) n Hn) as (v & -> & Ht & Hc & Hj). simpl.
  assert (forall j, IsNull v j = negb (bool_decide (j < n))) as Hnull.
  { intros j. rewrite Hj. unfold Reset, IsNull. destruct (storage_of (vtype val)); simpl; by rewrite Z.bits_0, andb_true_r. }
  assert (dv_type (Reset (vtype val) n) = vtype val /\ dv_count (Reset (vtype val) n) = n) as [Ht0 Hc0]
    by (unfold Reset; by destruct (storage_of (vtype val))).
  rewrite Ht0 in Ht. rewrite Hc0 in Hc.
  assert (forall v' c, cells v' = replicate n c -> literal_cell val = Some c -> storage_of (vtype val) <> SNone ->
    dv_type v' = dv_type v -> dv_count v' = dv_count v -> (forall j, IsNull v' j = IsNull v j) ->
    vec_is (vtype val) (replicate n (literal_cell val)) v') as Hfin.
  { intros v' c Hce Hlit Hst Ht' Hc' Hn'. split; [|split; [congruence|]].
    - split; [congruence|lia| |].
      + intros i Hi. rewrite Hn', Hnull, bool_decide_false by lia. done.
      + intros i Hi. rewrite Hn', Hnull in Hi. rewrite Hce. len. apply negb_false_iff, bool_decide_eq_true in Hi. done.
    - apply dv_rows_ext; [len|]. intros i. rewrite length_replicate. intros Hi.
      rewrite lookup_replicate_2 by done. unfold dv_row.
      rewrite Hn', Hnull, bool_decide_true by done. simpl. by rewrite Hce, lookup_replicate_2, Hlit. }
  destruct (storage_of (vtype val)) eqn:E; [| | |done]; unfold literal_cell in *;
    destruct (data val); try done; simpl; eexists; (split; [done|]);
    (eapply Hfin; [unfold cells; simpl; rewrite Ht, E; apply fmap_replicate|done..]).
Qed.

Lemma Reset_null_rows t n :
  storage_of t <> SNone -> n <= STANDARD_VECTOR_SIZE -> vec_is t (replicate n None) (Reset t n).
Proof.
  intros Ht Hn. destruct (built_Reset t n Ht) as [H1 H2 H3 H4 H5].
  apply (built_done t n); [done..|len|]. split; try done.
  - intros j _. apply H4. simpl. lia.
  - intros j Hj. rewrite length_replicate in Hj. rewrite lookup_replicate_2 by done. unfold dv_row.
    by rewrite H4 by (simpl; lia).
Qed.

End rows.

(** ** The evaluator against the row semantics *)

Section evaluate.
Context (F : FPU).

Lemma mapM_chunk_rows (f : sql_row -> option (option cell)) c :
  mapM f (chunk_rows c) = mapM (fun i => f (row_at c i)) (seq 0 (ch_count c)).
Proof.
  unfold chunk_rows. induction (seq 0 (ch_count c)) as [|i l IH]; [done|].
  rewrite fmap_cons. cbn [mapM]. by rewrite IH.
Qed.

(** A vector with the rows of [f], as a pointwise statement. *)
Lemma vec_is_rows t (f : nat -> option (option cell)) n vals v :
  mapM f (seq 0 n) = Some vals -> vec_is t vals v ->
  dv_wf v /\ dv_type v = t /\ dv_count v = n /\ forall i, i < n -> f i = Some (dv_row v i).
Proof.
  intros Hm (Hwf & Ht & Hr). apply mapM_Some in Hm. pose proof (Forall2_length _ _ _ Hm) as Hl.
  rewrite length_seq in Hl. assert (dv_count v = n) as Hc by (rewrite Hl, <- Hr; len).
  split_and!; try done. intros i Hi.
  destruct (Forall2_lookup_l _ _ _ i i Hm) as (y & Hy & Hf); [by rewrite lookup_seq_lt|].
  rewrite <- Hr, lookup_dv_rows in Hy by lia. congruence.
Qed.

Lemma mapM_None_at {A} (f : nat -> option A) n i : i < n -> f i = None -> mapM f (seq 0 n) = None.
Proof.
  intros Hi Hf. apply mapM_None. apply Exists_exists. exists i. split; [apply elem_of_seq; lia|done].
Qed.

Lemma mapM_None_inv {A} (f : nat -> option A) n : mapM f (seq 0 n) = None -> exists i, i < n /\ f i = None.
Proof.
  rewrite mapM_None. intros (i & Hi & Hf)%Exists_exists. apply elem_of_seq in Hi. exists i. split; [lia|done].
Qed.

(** Sequential composition: an operator on the values of a subexpression. *)
Lemma agrees_bind t t' (f : nat -> option (option cell)) (g : nat -> option cell -> option (option cell))
    n (m : result DataVector) (k : DataVector -> result DataVector) :
  agrees t (mapM f (seq 0 n)) m ->
  (forall v, dv_wf v -> dv_type v = t -> dv_count v = n ->
     agrees t' (mapM (fun i => g i (dv_row v i)) (seq 0 n)) (k v)) ->
  agrees t' (mapM (fun i => x ← f i; g i x) (seq 0 n)) (v ← m; k v).
Proof.
  intros Hm Hk. destruct (mapM f (seq 0 n)) as [vals|] eqn:E.
  - destruct Hm as (v & -> & Hv). destruct (vec_is_rows _ _ _ _ _ E Hv) as (Hwf & Ht & Hc & Hrow).
    rewrite (mapM_ext_seq _ (fun i => g i (dv_row v i))) by (intros i Hi; by rewrite (Hrow i Hi)).
    by apply Hk.
  - apply mapM_None_inv in E as (i & Hi & Hf). rewrite (mapM_None_at _ _ i) by (done || by rewrite Hf).
    simpl in *. by rewrite Hm.
Qed.

Lemma column_rows c i t :
  chunk_wf c -> col_types c !! i = Some t ->
  exists v, columns c !! i = Some v /\ vec_is t (dv_rows v) v /\ dv_count v = ch_count c.
Proof.
  intros Hwf Ht. apply list_lookup_fmap_Some in Ht as (v & -> & Hv).
  destruct (proj1 (Forall_lookup _ _) Hwf i v Hv) as [Hw Hc]. exists v. by split_and!.
Qed.

Lemma Evaluate_agrees e c :
  chunk_wf c -> ch_count c <= STANDARD_VECTOR_SIZE -> well_typed (col_types c) e = true ->
  agrees (type_of e) (mapM (eval_row F e) (chunk_rows c)) (Evaluate F e c).
Proof.
  intros Hwf Hn. rewrite mapM_chunk_rows.
  induction e as [t i nm|t v is_null|rt op a IHa b IHb|rt op a IHa|rt from a IHa|rt f st arg]; intros Hty;
    cbn [well_typed] in Hty; cbn [eval_row Evaluate]; try done.
  - apply bool_decide_eq_true in Hty. destruct (column_rows c i t Hwf Hty) as (v & Hv & Hr & Hc).
    rewrite Hv. simpl. rewrite (mapM_ext_seq _ (fun i => Some (dv_row v i))).
    2: { intros j _. unfold row_at. by rewrite list_lookup_fmap, Hv. }
    rewrite <- Hc, mapM_dv_rows. by exists v.
  - rewrite mapM_total. destruct is_null; simpl in *.
    + eexists. split; [done|]. erewrite const_fmap, length_seq by done.
      apply Reset_null_rows; [|done]. case_bool_decide; [done|by destruct t].
    + destruct (literal_rows v (ch_count c) Hty Hn) as (w & -> & Hw). exists w. split; [done|].
      erewrite const_fmap, length_seq by done. done.
  - apply andb_true_iff in Hty as [Hty Hok]. apply andb_true_iff in Hty as [Ha Hb].
    apply (agrees_bind (type_of a) rt (fun i => eval_row F a (row_at c i))
             (fun i x => y ← eval_row F b (row_at c i); binary_cell F op rt x y)); [by apply IHa|].
    intros v Hv Htv Hcv.
    apply (agrees_bind (type_of b) rt (fun i => eval_row F b (row_at c i))
             (fun i y => binary_cell F op rt (dv_row v i) y)); [by apply IHb|].
    intros w Hw Htw Hcw. apply ApplyBinaryOp_rows; try done. by rewrite Htv, Htw.
  - apply andb_true_iff in Hty as [Ha Hok].
    apply (agrees_bind (type_of a) (type_of a) (fun i => eval_row F a (row_at c i)) (fun _ => unary_cell op)); [by apply IHa|].
    intros v Hv Htv Hcv. rewrite <- Htv in *. by apply ApplyUnaryOp_rows.
  - apply andb_true_iff in Hty as [Ha Hok].
    apply (agrees_bind (type_of a) rt (fun i => eval_row F a (row_at c i)) (fun _ => cast_cell rt)); [by apply IHa|].
    intros v Hv Htv Hcv. rewrite <- Hcv. apply ApplyCast_rows; [done|by rewrite Htv].
Qed.

End evaluate.

(** ** Predicates *)

(** A row passes a predicate when its value is neither NULL nor zero. *)
Definition truthy (x : option cell) : bool :=
  match x with Some (CInt z) => negb (Z.eqb z 0) | _ => false end.

Definition row_passes (F : FPU) (pred : LogicalExpr) (r : sql_row) : bool :=
  match eval_row F pred r with Some x => truthy x | None => false end.

Definition defined_on (F : FPU) (e : LogicalExpr) (c : DataChunk) : Prop :=
  Forall (fun r => is_Some (eval_row F e r)) (chunk_rows c).

Lemma defined_mapM F e c : defined_on F e c -> exists vals, mapM (eval_row F e) (chunk_rows c) = Some vals.
Proof. intros H. apply mapM_is_Some in H as [vals H]. by exists vals. Qed.

Lemma passes_truthy v i :
  dv_wf v -> storage_of (dv_type v) = SInt -> passes v i = Ok (truthy (dv_row v i)).
Proof.
  intros Hv Hs. unfold passes.
  destruct (dv_row_view v i Hv) as [Hn Hd|z Hn Hs' Ha Hd|z Hn Hs' Ha Hd|z Hn Hs' Ha Hd]; rewrite Hn, Hd;
    [done|by rewrite Ha|congruence..].
Qed.

Lemma foldM_select (f : nat -> result bool) (g : nat -> bool) acc l :
  (forall i, f i = Ok (g i)) ->
  foldM (fun sel i => b ← f i; Ok (if b : bool then sel ++ [i] else sel)) acc l =
  Ok (acc ++ filter (fun i => g i = true) l).
Proof.
  intros Hf. revert acc. induction l as [|i l IH]; intros acc; simpl; [by rewrite app_nil_r|].
  rewrite Hf. simpl. rewrite IH. rewrite filter_cons. destruct (g i); simpl; [|done]. by rewrite <- app_assoc.
Qed.

Lemma filter_seq_ext (f g : nat -> bool) n :
  (forall i, i < n -> f i = g i) ->
  filter (fun i => f i = true) (seq 0 n) = filter (fun i => g i = true) (seq 0 n).
Proof.
  intros H. assert (Forall (fun i => f i = g i) (seq 0 n)) as Hall
    by (apply Forall_forall; intros i Hi; apply elem_of_seq in Hi; apply H; lia).
  induction Hall as [|i l Hi _ IH]; [done|]. rewrite !filter_cons, Hi, IH. done.
Qed.

Lemma EvaluatePredicate_Ok F pred c :
  chunk_wf c -> ch_count c <= STANDARD_VECTOR_SIZE -> well_typed (col_types c) pred = true ->
  is_intlike (type_of pred) = true -> defined_on F pred c ->
  EvaluatePredicate F pred c = Ok (filter (fun i => row_passes F pred (row_at c i) = true) (seq 0 (ch_count c))).
Proof.
  intros Hwf Hn Hty Hb Hdef. destruct (defined_mapM _ _ _ Hdef) as [vals Hm].
  pose proof (Evaluate_agrees F pred c Hwf Hn Hty) as Hag. rewrite Hm in Hag. destruct Hag as (v & Hv & Hvec).
  rewrite mapM_chunk_rows in Hm. destruct (vec_is_rows _ _ _ _ _ Hm Hvec) as (Hw & Ht & Hc & Hrow).
  unfold EvaluatePredicate. rewrite Hv. simpl.
  rewrite (foldM_select _ (fun i => truthy (dv_row v i))).
  2: { intros i. apply passes_truthy; [done|]. rewrite Ht. by apply bool_decide_eq_true in Hb. }
  simpl. f_equal. apply filter_seq_ext. intros i Hi. unfold row_passes. by rewrite (Hrow i).
Qed.

(** ** Theorems *)

(** A vector whose array covers its rows and whose validity has no bit above
    them is well formed; on a concrete vector this is a computation. *)
Lemma dv_wf_intro v :
  storage_of (dv_type v) <> SNone -> dv_count v <= STANDARD_VECTOR_SIZE ->
  (0 <= validity v < 2 ^ Z.of_nat (dv_count v))%Z -> dv_count v <= length (cells v) -> dv_wf v.
Proof.
  intros Hs Hc Hb Hl.
  assert (forall i, dv_count v <= i -> IsNull v i = true) as Hnull.
  { intros i Hi. unfold IsNull. by rewrite (testbit_above _ (Z.of_nat (dv_count v))) by lia. }
  split; [done|done|done|].
  intros i Hi. destruct (decide (i < dv_count v)); [lia|]. rewrite Hnull in Hi by lia. done.
Qed.

(** [chunk_wf] of a concrete chunk. *)
Ltac chunk_wf_tac :=
  match goal with
  | |- chunk_wf ?c => unfold chunk_wf; let l := eval vm_compute in (columns c) in change (columns c) with l
  end;
  repeat (apply Forall_cons; split; [split; [apply dv_wf_intro;
    [done|vm_compute; lia|vm_compute; split; congruence|vm_compute; lia]|reflexivity]|]);
  apply Forall_nil_2.

(** C15: on a well-formed batch of at most 1024 rows a well-typed expression
    evaluates to a well-formed vector of its type whose rows are the values of
    the expression on the rows of the batch, and evaluation is undefined
    behaviour exactly when the value of some row is. Well typed ([well_typed])
    means: column references and operators with operands of the types they are
    for, casts the evaluator performs, and no BOOLEAN literal, which the
    evaluator cannot put in a vector ([DataVectorFill_boolean_throws]). *)
Theorem Evaluate_rows F e c :
  chunk_wf c -> ch_count c <= STANDARD_VECTOR_SIZE -> well_typed (col_types c) e = true ->
  match mapM (eval_row F e) (chunk_rows c) with
  | Some vals => exists v, Evaluate F e c = Ok v /\ dv_wf v /\ dv_type v = type_of e /\ dv_rows v = vals
  | None => Evaluate F e c = Err UndefinedBehaviour
  end.
Proof. apply Evaluate_agrees. Qed.

Definition sample_FPU : FPU := mkFPU (fun _ _ => 9221120237041090560%Z).

(** Columns [a = 3, NULL, 5] and [s = x, y, z]. *)
Definition sample_chunk : DataChunk :=
  mkChunk [mkDV INT64 3 [3; 0; 5]%Z [] [] 5%Z; mkDV VARCHAR 3 [] [] ["x"; "y"; "z"]%string 7%Z] 3.

(** [(a + 1 > 4) AND s <> 'x'] *)
Definition sample_expr : LogicalExpr :=
  LogicalBinaryOp BOOLEAN "AND"
    (LogicalBinaryOp BOOLEAN ">"
       (LogicalBinaryOp INT64 "+" (BoundColumnRef INT64 0 "a") (LogicalLit INT64 (Value_Integer 1) false))
       (LogicalLit INT64 (Value_Integer 4) false))
    (LogicalBinaryOp BOOLEAN "<>" (BoundColumnRef VARCHAR 1 "s") (LogicalLit VARCHAR (Value_Varchar "x") false)).

Lemma sample_chunk_wf : chunk_wf sample_chunk.
Proof. chunk_wf_tac. Qed.

Lemma Evaluate_rows_witness :
  exists v, Evaluate sample_FPU sample_expr sample_chunk = Ok v /\ dv_wf v /\ dv_type v = BOOLEAN /\
    dv_rows v = [Some (CInt 0); None; Some (CInt 1)].
Proof.
  pose proof (Evaluate_rows sample_FPU sample_expr sample_chunk sample_chunk_wf
    ltac:(vm_compute; lia) ltac:(vm_compute; reflexivity)) as H.
  replace (mapM (eval_row sample_FPU sample_expr) (chunk_rows sample_chunk))
    with (Some [Some (CInt 0); None; Some (CInt 1)]) in H by (vm_compute; reflexivity).
  exact H.
Defined.

(** The rows [EvaluatePredicate] selects are those whose predicate is
    neither NULL nor false. *)
Theorem EvaluatePredicate_rows F pred c :
  chunk_wf c -> ch_count c <= STANDARD_VECTOR_SIZE -> well_typed (col_types c) pred = true ->
  is_intlike (type_of pred) = true -> defined_on F pred c ->
  EvaluatePredicate F pred c = Ok (filter (fun i => row_passes F pred (row_at c i) = true) (seq 0 (ch_count c))).
Proof. apply EvaluatePredicate_Ok. Qed.

Lemma EvaluatePredicate_rows_witness :
  EvaluatePredicate sample_FPU sample_expr sample_chunk = Ok [2].
Proof.
  rewrite (EvaluatePredicate_rows sample_FPU sample_expr sample_chunk sample_chunk_wf).
  - vm_compute. reflexivity.
  - vm_compute. lia.
  - vm_compute. reflexivity.
  - vm_compute. reflexivity.
  - repeat (apply Forall_cons; split; [vm_compute; eauto|]). apply Forall_nil_2.
Defined.
