(* ===== verification/VersionInfo.v ===== *)
(** * Row versions

    [storage/column/version_info.hpp] and [version_info.cpp]: the per-row-group
    MVCC markers.  A row group keeps one marker per modified row, the most
    recent one, and three counters that let a scan skip the per-row test.

    The claims of this file are the soundness of that fast path for every
    history that respects the marker protocol (a marker is committed or
    reverted at most once, by the operation of its own kind), the stability of
    what a transaction reads under the deletes and inserts of the others, and
    the two anomalies that keeping a single marker per row causes. *)

From S2P Require Import Prelude Types.
From stdpp Require Import gmap fin_maps.

Inductive VersionMarkerType : Type := DELETE | INSERT | UPDATE.

#[export] Instance VersionMarkerType_eq_dec : EqDecision VersionMarkerType.
Proof. solve_decision. Defined.

Record VersionMarker : Type := mkMarker {
  mtype : VersionMarkerType;
  mtx_id : Z;
  mcommit_time : Z;
}.

#[export] Instance VersionMarker_eq_dec : EqDecision VersionMarker.
Proof. solve_decision. Defined.

(** Row offsets are [uint32_t] keys; the counters are C++ [int]s, of which
    there can be at most one increment per row of the group and per pending
    operation, so they are kept as integers. *)
Record VersionInfo : Type := mkVI {
  markers_ : gmap Z VersionMarker;
  uncommitted_count_ : Z;
  delete_update_count_ : Z;
  max_insert_commit_time_ : Z;
}.

#[export] Instance VersionInfo_eq_dec : EqDecision VersionInfo.
Proof. solve_decision. Defined.

Definition VI_empty : VersionInfo := mkVI ∅ 0 0 0.

Definition MarkDeleted (vi : VersionInfo) (row tx : Z) : VersionInfo :=
  mkVI (<[row := mkMarker DELETE tx INVALID_TIMESTAMP]> (markers_ vi))
       (uncommitted_count_ vi + 1) (delete_update_count_ vi + 1) (max_insert_commit_time_ vi).

Definition set_commit_time (t : Z) (m : VersionMarker) : VersionMarker :=
  mkMarker (mtype m) (mtx_id m) t.

Definition CommitDelete (vi : VersionInfo) (row t : Z) : VersionInfo :=
  match markers_ vi !! row with
  | Some m => mkVI (<[row := set_commit_time t m]> (markers_ vi))
                   (uncommitted_count_ vi - 1) (delete_update_count_ vi) (max_insert_commit_time_ vi)
  | None => vi
  end.

Definition ClearDeleteMarker (vi : VersionInfo) (row : Z) : VersionInfo :=
  match markers_ vi !! row with
  | Some _ => mkVI (delete row (markers_ vi))
                   (uncommitted_count_ vi) (delete_update_count_ vi - 1) (max_insert_commit_time_ vi)
  | None => vi
  end.

Definition MarkInserted (vi : VersionInfo) (row tx : Z) : VersionInfo :=
  mkVI (<[row := mkMarker INSERT tx INVALID_TIMESTAMP]> (markers_ vi))
       (uncommitted_count_ vi + 1) (delete_update_count_ vi) (max_insert_commit_time_ vi).

Definition CommitInsert (vi : VersionInfo) (row t : Z) : VersionInfo :=
  match markers_ vi !! row with
  | Some m => mkVI (<[row := set_commit_time t m]> (markers_ vi))
                   (uncommitted_count_ vi - 1) (delete_update_count_ vi)
                   (if Z.ltb (max_insert_commit_time_ vi) t then t else max_insert_commit_time_ vi)
  | None => vi
  end.

Definition RevertInsert (vi : VersionInfo) (row : Z) : VersionInfo :=
  match markers_ vi !! row with
  | Some _ => mkVI (delete row (markers_ vi))
                   (uncommitted_count_ vi - 1) (delete_update_count_ vi) (max_insert_commit_time_ vi)
  | None => vi
  end.

Definition MarkUpdated (vi : VersionInfo) (row tx : Z) : VersionInfo :=
  mkVI (<[row := mkMarker UPDATE tx INVALID_TIMESTAMP]> (markers_ vi))
       (uncommitted_count_ vi + 1) (delete_update_count_ vi + 1) (max_insert_commit_time_ vi).

Definition CommitUpdate (vi : VersionInfo) (row t : Z) : VersionInfo :=
  match markers_ vi !! row with
  | Some m => mkVI (<[row := set_commit_time t m]> (markers_ vi))
                   (uncommitted_count_ vi - 1) (delete_update_count_ vi) (max_insert_commit_time_ vi)
  | None => vi
  end.

Definition RevertUpdate (vi : VersionInfo) (row : Z) : VersionInfo :=
  match markers_ vi !! row with
  | Some _ => mkVI (delete row (markers_ vi))
                   (uncommitted_count_ vi - 1) (delete_update_count_ vi - 1) (max_insert_commit_time_ vi)
  | None => vi
  end.

(** The visibility of a marker for the transaction [tx] that started at
    [start]. *)
Definition marker_visible (m : VersionMarker) (tx start : Z) : bool :=
  match mtype m with
  | DELETE =>
      if Z.eqb (mtx_id m) tx then false
      else if Z.eqb (mcommit_time m) INVALID_TIMESTAMP then true
      else if Z.ltb (mcommit_time m) start then false
      else true
  | INSERT | UPDATE =>
      if Z.eqb (mtx_id m) tx then true
      else if Z.eqb (mcommit_time m) INVALID_TIMESTAMP then false
      else if Z.ltb (mcommit_time m) start then true
      else false
  end.

Definition IsVisible (vi : VersionInfo) (row tx start : Z) : bool :=
  match markers_ vi !! row with
  | None => true
  | Some m => marker_visible m tx start
  end.

Definition HasAnyMarkers (vi : VersionInfo) : bool := bool_decide (markers_ vi <> ∅).

Definition HasUncommittedMarkers (vi : VersionInfo) : bool :=
  existsb (fun p => Z.eqb (mcommit_time p.2) INVALID_TIMESTAMP) (map_to_list (markers_ vi)).

Definition AllInsertedVisibleTo (vi : VersionInfo) (start : Z) : bool :=
  Z.eqb (uncommitted_count_ vi) 0 && Z.eqb (delete_update_count_ vi) 0
  && Z.ltb (max_insert_commit_time_ vi) start.

(** ** Histories

    A history interleaves the marker operations of any number of transactions.
    The ghost list [pend] holds the marks that were set and not yet resolved:
    a commit or a revert resolves one mark of its own kind, whatever happened
    to the marker in the meantime.  Rows are appended at offsets that have no
    marker and no unresolved mark.

    This is the protocol the marker operations are written for, and the
    callers do not always keep it: [RowGroup::CommitAppend] commits the rows of
    the last append once per undo record, so a transaction with two INSERTs
    into one row group commits the second mark twice and the first never
    ([double_commit_breaks_fast_path]). *)
Inductive vstep : VersionInfo * list (Z * VersionMarkerType) -> VersionInfo * list (Z * VersionMarkerType) -> Prop :=
  | vs_mark_delete vi pend row tx :
      vstep (vi, pend) (MarkDeleted vi row tx, (row, DELETE) :: pend)
  | vs_mark_update vi pend row tx :
      vstep (vi, pend) (MarkUpdated vi row tx, (row, UPDATE) :: pend)
  | vs_mark_insert vi pend row tx :
      markers_ vi !! row = None -> row ∉ pend.*1 ->
      vstep (vi, pend) (MarkInserted vi row tx, (row, INSERT) :: pend)
  | vs_commit_delete vi pend pend' row t :
      pend ≡ₚ (row, DELETE) :: pend' -> (0 <= t)%Z ->
      vstep (vi, pend) (CommitDelete vi row t, pend')
  | vs_commit_update vi pend pend' row t :
      pend ≡ₚ (row, UPDATE) :: pend' -> (0 <= t)%Z ->
      vstep (vi, pend) (CommitUpdate vi row t, pend')
  | vs_commit_insert vi pend pend' row t :
      pend ≡ₚ (row, INSERT) :: pend' -> (0 <= t)%Z ->
      vstep (vi, pend) (CommitInsert vi row t, pend')
  | vs_clear_delete vi pend pend' row :
      pend ≡ₚ (row, DELETE) :: pend' ->
      vstep (vi, pend) (ClearDeleteMarker vi row, pend')
  | vs_revert_update vi pend pend' row :
      pend ≡ₚ (row, UPDATE) :: pend' ->
      vstep (vi, pend) (RevertUpdate vi row, pend')
  | vs_revert_insert vi pend pend' row :
      pend ≡ₚ (row, INSERT) :: pend' ->
      vstep (vi, pend) (RevertInsert vi row, pend').

(** ** The counters against the markers *)

Definition changed_rows (m : gmap Z VersionMarker) : nat :=
  size (filter (fun p : Z * VersionMarker => mtype p.2 <> INSERT) m).

(** [drift] is what the counter of uncommitted markers exceeds the unresolved
    marks by: a mark that is cleared, or whose marker another transaction
    removed, is never subtracted. *)
Record vinv (drift : Z) (s : VersionInfo * list (Z * VersionMarkerType)) : Prop := {
  vi_uncommitted : (Z.of_nat (length s.2) + drift <= uncommitted_count_ s.1)%Z;
  vi_changed : (Z.of_nat (changed_rows (markers_ s.1)) <= delete_update_count_ s.1)%Z;
  vi_pending : forall row m, markers_ s.1 !! row = Some m ->
                 mcommit_time m = INVALID_TIMESTAMP -> row ∈ s.2.*1;
  vi_insert_pending : forall row m k, markers_ s.1 !! row = Some m -> mtype m = INSERT ->
                 (row, k) ∈ s.2 -> k = INSERT;
  vi_max : forall row m, markers_ s.1 !! row = Some m -> mtype m = INSERT ->
                 (mcommit_time m <= max_insert_commit_time_ s.1)%Z;
  vi_max_pos : (0 <= max_insert_commit_time_ s.1)%Z;
}.

Lemma changed_rows_delete m row v :
  m !! row = Some v ->
  changed_rows m = (if decide (mtype v = INSERT) then 0 else 1) + changed_rows (delete row m).
Proof.
  intros Hm. unfold changed_rows. rewrite map_filter_delete, map_size_delete.
  destruct (decide (mtype v = INSERT)) as [Hi|Hi].
  - rewrite (proj2 (map_lookup_filter_None _ m row)); [done|]. right. intros x Hx. simplify_eq. simpl. tauto.
  - rewrite (proj2 (map_lookup_filter_Some _ m row v)) by done.
    assert (0 < size (filter (fun p : Z * VersionMarker => mtype p.2 <> INSERT) m)) as Hpos; [|lia].
    apply Nat.neq_0_lt_0. intros H0. apply map_size_empty_inv in H0.
    assert (filter (fun p : Z * VersionMarker => mtype p.2 <> INSERT) m !! row = Some v) as Hf
      by (by apply map_lookup_filter_Some).
    rewrite H0 in Hf. done.
Qed.

Lemma changed_rows_insert m row v :
  changed_rows (<[row := v]> m) = (if decide (mtype v = INSERT) then 0 else 1) + changed_rows (delete row m).
Proof.
  rewrite <- (insert_delete_eq m row v), (changed_rows_delete _ row v) by apply lookup_insert_eq.
  by rewrite delete_insert_id by apply lookup_delete_eq.
Qed.

Lemma changed_rows_delete_le m row : changed_rows (delete row m) <= changed_rows m.
Proof.
  destruct (m !! row) as [v|] eqn:Hm; [rewrite (changed_rows_delete m row v Hm)|rewrite delete_id by done]; lia.
Qed.

Lemma vinv_mono d d' s : (d' <= d)%Z -> vinv d s -> vinv d' s.
Proof. intros Hd [? ? ? ? ? ?]. split; try done. lia. Qed.

(** Setting a mark. *)
Lemma mark_inv d vi pend row k tx du :
  (k = INSERT -> markers_ vi !! row = None /\ row ∉ pend.*1) ->
  (delete_update_count_ vi + (if decide (k = INSERT) then 0 else 1) <= du)%Z ->
  vinv d (vi, pend) ->
  vinv d (mkVI (<[row := mkMarker k tx INVALID_TIMESTAMP]> (markers_ vi))
            (uncommitted_count_ vi + 1) du (max_insert_commit_time_ vi), (row, k) :: pend).
Proof.
  intros Hk Hdu [Hu Hc Hp Hip Hmx Hpos]. simpl in *. split; simpl; try done.
  - lia.
  - rewrite changed_rows_insert. simpl. pose proof (changed_rows_delete_le (markers_ vi) row).
    destruct (decide (k = INSERT)); lia.
  - intros r m. rewrite elem_of_cons. destruct (decide (row = r)) as [->|Hne]; [by left|].
    rewrite lookup_insert_ne by done. right. eauto.
  - intros r m k'. rewrite elem_of_cons. destruct (decide (row = r)) as [->|Hne].
    + rewrite lookup_insert_eq. intros [= <-]. simpl. intros -> [[= ->]|Hin]; [done|].
      destruct (Hk eq_refl) as [_ Hnot]. destruct Hnot. by apply (list_elem_of_fmap_2 fst _ _ Hin).
    + rewrite lookup_insert_ne by done. intros Hm Ht [[= ? ?]|Hin]; [congruence|eauto].
  - intros r m. destruct (decide (row = r)) as [->|Hne].
    + rewrite lookup_insert_eq. intros [= <-]. simpl. unfold INVALID_TIMESTAMP. lia.
    + rewrite lookup_insert_ne by done. eauto.
Qed.

(** Rows other than the resolved one keep their unresolved marks. *)
Lemma other_pending (pend pend' : list (Z * VersionMarkerType)) row k r :
  pend ≡ₚ (row, k) :: pend' -> row <> r -> r ∈ pend.*1 -> r ∈ pend'.*1.
Proof.
  intros HP Hne. rewrite HP. simpl. rewrite elem_of_cons. intros [->|]; done.
Qed.

(** Committing the marker of a row. *)
Lemma commit_inv d vi pend pend' row k m t mx :
  markers_ vi !! row = Some m -> pend ≡ₚ (row, k) :: pend' -> (0 <= t)%Z ->
  (max_insert_commit_time_ vi <= mx)%Z -> (mtype m = INSERT -> (t <= mx)%Z) ->
  vinv d (vi, pend) ->
  vinv d (mkVI (<[row := set_commit_time t m]> (markers_ vi))
            (uncommitted_count_ vi - 1) (delete_update_count_ vi) mx, pend').
Proof.
  intros Hm HP Ht Hmx Hti [Hu Hc Hp Hip Hmax Hpos]. simpl in *. split; simpl.
  - rewrite HP in Hu. simpl in Hu. lia.
  - rewrite changed_rows_insert. simpl. by rewrite <- (changed_rows_delete _ row m Hm).
  - intros r m'. destruct (decide (row = r)) as [->|Hne].
    + rewrite lookup_insert_eq. intros [= <-]. simpl. unfold INVALID_TIMESTAMP. lia.
    + rewrite lookup_insert_ne by done. intros Hr Hi. by eapply other_pending, Hp.
  - intros r m' k' Hr Hty Hin.
    assert ((r, k') ∈ pend) as Hin' by (rewrite HP; by right).
    destruct (decide (row = r)) as [->|Hne].
    + rewrite lookup_insert_eq in Hr. injection Hr as <-. eauto.
    + rewrite lookup_insert_ne in Hr by done. eauto.
  - intros r m'. destruct (decide (row = r)) as [->|Hne].
    + rewrite lookup_insert_eq. intros [= <-]. simpl. auto.
    + rewrite lookup_insert_ne by done. intros Hr Hty. specialize (Hmax r m' Hr Hty). lia.
  - lia.
Qed.

(** Resolving a mark whose marker another transaction removed. *)
Lemma resolve_inv d vi pend pend' row k :
  markers_ vi !! row = None -> pend ≡ₚ (row, k) :: pend' ->
  vinv d (vi, pend) -> vinv (d + 1) (vi, pend').
Proof.
  intros Hm HP [Hu Hc Hp Hip Hmax Hpos]. simpl in *. split; simpl; try done.
  - rewrite HP in Hu. simpl in Hu. lia.
  - intros r m Hr Hi. assert (row <> r) by congruence. by eapply other_pending, Hp.
  - intros r m k' Hr Hty Hin. eapply Hip; [done|done|]. rewrite HP. by right.
Qed.

(** Removing the marker of a row. *)
Lemma erase_inv d d' vi pend pend' row k m u du :
  markers_ vi !! row = Some m -> pend ≡ₚ (row, k) :: pend' ->
  (uncommitted_count_ vi - 1 - d + d' <= u)%Z ->
  (delete_update_count_ vi - (if decide (mtype m = INSERT) then 0 else 1) <= du)%Z ->
  vinv d (vi, pend) ->
  vinv d' (mkVI (delete row (markers_ vi)) u du (max_insert_commit_time_ vi), pend').
Proof.
  intros Hm HP Hu' Hdu [Hu Hc Hp Hip Hmax Hpos]. simpl in *. split; simpl; try done.
  - rewrite HP in Hu. simpl in Hu. lia.
  - rewrite (changed_rows_delete _ row m Hm) in Hc. destruct (decide (mtype m = INSERT)); lia.
  - intros r m' [Hne Hr]%lookup_delete_Some Hi. by eapply other_pending, Hp.
  - intros r m' k' [Hne Hr]%lookup_delete_Some Hty Hin. eapply Hip; [done|done|]. rewrite HP. by right.
  - intros r m' [Hne Hr]%lookup_delete_Some. eauto.
Qed.

(** A marker with an unresolved delete or update is no insert. *)
Lemma pending_not_insert d vi pend pend' row k m :
  vinv d (vi, pend) -> pend ≡ₚ (row, k) :: pend' -> k <> INSERT ->
  markers_ vi !! row = Some m -> mtype m <> INSERT.
Proof.
  intros Hinv HP Hk Hm Hty. destruct Hk. eapply (vi_insert_pending _ _ Hinv); simpl; [done|done|].
  rewrite HP. by left.
Qed.

Lemma clear_delete_inv d vi pend pend' row :
  pend ≡ₚ (row, DELETE) :: pend' -> vinv d (vi, pend) ->
  vinv (d + 1) (ClearDeleteMarker vi row, pend').
Proof.
  intros HP Hinv. unfold ClearDeleteMarker. destruct (markers_ vi !! row) as [m|] eqn:Hm.
  - pose proof (pending_not_insert _ _ _ _ _ _ m Hinv HP ltac:(done) Hm).
    eapply erase_inv; try done; [lia|]. rewrite decide_False by done. lia.
  - by eapply resolve_inv.
Qed.

Lemma vstep_inv d s s' : vstep s s' -> vinv d s -> vinv d s'.
Proof.
  destruct 1 as [vi pend row tx|vi pend row tx|vi pend row tx Hm Hnot
                |vi pend pend' row t HP Ht|vi pend pend' row t HP Ht|vi pend pend' row t HP Ht
                |vi pend pend' row HP|vi pend pend' row HP|vi pend pend' row HP]; intros Hinv.
  - apply mark_inv; [done| |done]. rewrite decide_False by done. lia.
  - apply mark_inv; [done| |done]. rewrite decide_False by done. lia.
  - apply mark_inv; [done| |done]. rewrite decide_True by done. lia.
  - unfold CommitDelete. destruct (markers_ vi !! row) as [m|] eqn:Hm.
    + eapply commit_inv; try done. by intros ?%(pending_not_insert _ _ _ _ _ _ m Hinv HP ltac:(done) Hm).
    + eapply vinv_mono, resolve_inv; [|done..]. lia.
  - unfold CommitUpdate. destruct (markers_ vi !! row) as [m|] eqn:Hm.
    + eapply commit_inv; try done. by intros ?%(pending_not_insert _ _ _ _ _ _ m Hinv HP ltac:(done) Hm).
    + eapply vinv_mono, resolve_inv; [|done..]. lia.
  - unfold CommitInsert. destruct (markers_ vi !! row) as [m|] eqn:Hm.
    + eapply commit_inv; try done; destruct (Z.ltb_spec (max_insert_commit_time_ vi) t); lia.
    + eapply vinv_mono, resolve_inv; [|done..]. lia.
  - eapply vinv_mono, clear_delete_inv; [|done..]. lia.
  - unfold RevertUpdate. destruct (markers_ vi !! row) as [m|] eqn:Hm.
    + pose proof (pending_not_insert _ _ _ _ _ _ m Hinv HP ltac:(done) Hm).
      eapply erase_inv; try done; [lia|]. rewrite decide_False by done. lia.
    + eapply vinv_mono, resolve_inv; [|done..]. lia.
  - unfold RevertInsert. destruct (markers_ vi !! row) as [m|] eqn:Hm.
    + eapply erase_inv; try done; [lia|]. destruct (decide _); lia.
    + eapply vinv_mono, resolve_inv; [|done..]. lia.
Qed.

Lemma vsteps_inv d s s' : rtc vstep s s' -> vinv d s -> vinv d s'.
Proof. induction 1; eauto using vstep_inv. Qed.

Lemma vinv_empty : vinv 0 (VI_empty, []).
Proof. split; simpl; try done. Qed.

Lemma AllInsertedVisibleTo_true vi start :
  AllInsertedVisibleTo vi start = true <->
  uncommitted_count_ vi = 0%Z /\ delete_update_count_ vi = 0%Z /\ (max_insert_commit_time_ vi < start)%Z.
Proof. unfold AllInsertedVisibleTo. rewrite !andb_true_iff, !Z.eqb_eq, Z.ltb_lt. tauto. Qed.

(** Without drift-free counters the markers are all committed inserts. *)
Lemma counters_zero_markers s start :
  vinv 0 s -> AllInsertedVisibleTo s.1 start = true ->
  forall row m, markers_ s.1 !! row = Some m ->
    mtype m = INSERT /\ mcommit_time m <> INVALID_TIMESTAMP /\ (mcommit_time m < start)%Z.
Proof.
  intros Hinv (Hu & Hc & Hmx)%AllInsertedVisibleTo_true row m Hm.
  pose proof (vi_uncommitted _ _ Hinv) as H1. pose proof (vi_changed _ _ Hinv) as H2.
  assert (mtype m = INSERT) as Hty.
  { destruct (decide (mtype m = INSERT)) as [|Hn]; [done|exfalso].
    rewrite (changed_rows_delete _ row m Hm), decide_False in H2 by done. lia. }
  split_and!; [done| |].
  - intros Hi. pose proof (vi_pending _ _ Hinv row m Hm Hi) as Hin.
    destruct s.2; [by apply not_elem_of_nil in Hin|]. simpl in H1. lia.
  - pose proof (vi_max _ _ Hinv row m Hm Hty). lia.
Qed.

(** The fast path answers as the per-row test does. *)
Lemma fast_path_visible vi pend start :
  rtc vstep (VI_empty, []) (vi, pend) ->
  AllInsertedVisibleTo vi start = true ->
  forall row tx, IsVisible vi row tx start = true.
Proof.
  intros Hsteps Hall row tx. unfold IsVisible. destruct (markers_ vi !! row) as [m|] eqn:Hm; [|done].
  destruct (counters_zero_markers _ _ (vsteps_inv _ _ _ Hsteps vinv_empty) Hall row m Hm) as (Hty & Hc & Ht).
  unfold marker_visible. rewrite Hty. destruct (Z.eqb (mtx_id m) tx); [done|].
  rewrite (proj2 (Z.eqb_neq _ _) Hc). by rewrite (proj2 (Z.ltb_lt _ _) Ht).
Qed.

(** ** Claims *)

(** C16: after every history that keeps the marker protocol of [vstep] (any
    interleaving of marks, commits and reverts of any transactions in which a
    row is inserted where no mark is and each commit or revert resolves one
    pending mark of its kind), when AllInsertedVisibleTo holds every row is
    visible: the scan fast path equals the per-row test. CommitAppend does not
    keep the protocol for a transaction with two INSERTs into one row group, and
    then the fast path is wrong ([double_commit_breaks_fast_path]). *)
Theorem fast_path_sound vi pend start :
  rtc vstep (VI_empty, []) (vi, pend) ->
  AllInsertedVisibleTo vi start = true ->
  forall row tx, IsVisible vi row tx start = true.
Proof. apply fast_path_visible. Qed.

Definition vi_one_insert : VersionInfo := CommitInsert (MarkInserted VI_empty 0 1) 0 5.

Lemma vi_one_insert_reachable : rtc vstep (VI_empty, []) (vi_one_insert, []).
Proof.
  eapply rtc_l; [apply (vs_mark_insert _ _ 0 1); [done|apply not_elem_of_nil]|].
  eapply rtc_l; [apply (vs_commit_insert _ _ [] 0 5); [done|lia]|]. apply rtc_refl.
Qed.

Lemma fast_path_sound_witness :
  AllInsertedVisibleTo vi_one_insert 6 = true /\ IsVisible vi_one_insert 0 2 6 = true.
Proof.
  split; [reflexivity|].
  apply (fast_path_sound vi_one_insert [] 6); [exact vi_one_insert_reachable|reflexivity].
Defined.

(** Outside the protocol the fast path is wrong: when the second of two rows a
    transaction inserted is committed twice and the first never, as
    [RowGroup::CommitAppend] does for a transaction with two INSERTs, the
    counters are those of a clean group while the first row is visible to no
    other transaction. *)
Example double_commit_breaks_fast_path :
  let vi := CommitInsert (CommitInsert (MarkInserted (MarkInserted VI_empty 0 1) 1 1) 1 5) 1 5 in
  AllInsertedVisibleTo vi 6 = true /\ IsVisible vi 0 2 6 = false.
Proof. vm_compute. split; reflexivity. Qed.

(** Rolling back one delete switches the fast path off for good:
    [ClearDeleteMarker] does not take back the increment of [MarkDeleted], so
    no later history lets [AllInsertedVisibleTo] hold again. *)
Theorem rollback_delete_disables_fast_path vi pend pend' row s start :
  rtc vstep (VI_empty, []) (vi, pend) -> pend ≡ₚ (row, DELETE) :: pend' ->
  rtc vstep (ClearDeleteMarker vi row, pend') s ->
  AllInsertedVisibleTo s.1 start = false.
Proof.
  intros H1 HP H2. apply not_true_iff_false. intros (Hu & _ & _)%AllInsertedVisibleTo_true.
  pose proof (vsteps_inv _ _ _ H2 (clear_delete_inv _ _ _ _ _ HP (vsteps_inv _ _ _ H1 vinv_empty))) as Hinv.
  pose proof (vi_uncommitted _ _ Hinv). lia.
Qed.

Lemma rollback_delete_disables_fast_path_witness :
  markers_ (ClearDeleteMarker (MarkDeleted VI_empty 0 1) 0) = ∅ /\
  AllInsertedVisibleTo (ClearDeleteMarker (MarkDeleted VI_empty 0 1) 0) 100 = false.
Proof.
  split; [reflexivity|].
  apply (rollback_delete_disables_fast_path (MarkDeleted VI_empty 0 1) [(0%Z, DELETE)] [] 0
           (ClearDeleteMarker (MarkDeleted VI_empty 0 1) 0, []) 100).
  - eapply rtc_l; [apply (vs_mark_delete _ _ 0 1)|apply rtc_refl].
  - reflexivity.
  - apply rtc_refl.
Defined.

(** What the other transactions may do to the markers while the transaction
    [tx], with snapshot [start], reads the first [n] rows: append rows behind
    them, delete rows that [tx] sees, commit at [start] or later, and roll
    back. *)
Inductive other_step (tx start n : Z) : VersionInfo -> VersionInfo -> Prop :=
  | os_mark_insert vi row tx' :
      (n <= row)%Z -> other_step tx start n vi (MarkInserted vi row tx')
  | os_revert_insert vi row :
      (n <= row)%Z -> other_step tx start n vi (RevertInsert vi row)
  | os_commit_insert vi row m t :
      markers_ vi !! row = Some m -> mcommit_time m = INVALID_TIMESTAMP -> (start <= t)%Z ->
      other_step tx start n vi (CommitInsert vi row t)
  | os_mark_delete vi row tx' :
      tx' <> tx -> IsVisible vi row tx start = true -> other_step tx start n vi (MarkDeleted vi row tx')
  | os_commit_delete vi row m t :
      markers_ vi !! row = Some m -> mcommit_time m = INVALID_TIMESTAMP -> (start <= t)%Z ->
      other_step tx start n vi (CommitDelete vi row t)
  | os_clear_delete vi row m :
      markers_ vi !! row = Some m -> mtype m = DELETE -> mtx_id m <> tx ->
      mcommit_time m = INVALID_TIMESTAMP -> other_step tx start n vi (ClearDeleteMarker vi row).

Lemma commit_marker_stable m tx start t :
  mcommit_time m = INVALID_TIMESTAMP -> (0 <= start)%Z -> (start <= t)%Z ->
  marker_visible (set_commit_time t m) tx start = marker_visible m tx start.
Proof.
  intros Hi Hs Ht. unfold marker_visible. simpl. rewrite Hi.
  rewrite (proj2 (Z.eqb_neq t INVALID_TIMESTAMP)) by (unfold INVALID_TIMESTAMP; lia).
  rewrite (proj2 (Z.ltb_ge t start)) by lia.
  rewrite Z.eqb_refl. done.
Qed.

Lemma IsVisible_insert_ne M u d mx vi row r v tx start :
  row <> r -> M = <[row := v]> (markers_ vi) ->
  IsVisible (mkVI M u d mx) r tx start = IsVisible vi r tx start.
Proof. intros Hne ->. unfold IsVisible. simpl. by rewrite lookup_insert_ne. Qed.

Lemma IsVisible_delete_ne M u d mx vi row r tx start :
  row <> r -> M = delete row (markers_ vi) ->
  IsVisible (mkVI M u d mx) r tx start = IsVisible vi r tx start.
Proof. intros Hne ->. unfold IsVisible. simpl. by rewrite lookup_delete_ne. Qed.

Lemma other_step_stable tx start n vi vi' r :
  (0 <= start)%Z -> (r < n)%Z -> other_step tx start n vi vi' ->
  IsVisible vi' r tx start = IsVisible vi r tx start.
Proof.
  intros Hs Hr. destruct 1 as [vi row tx' Hn|vi row Hn|vi row m t Hm Hi Ht|vi row tx' Htx Hv
                              |vi row m t Hm Hi Ht|vi row m Hm Hty Htx Hi].
  - eapply (IsVisible_insert_ne _ _ _ _ _ row); [lia|done].
  - unfold RevertInsert. destruct (markers_ vi !! row); [|done].
    eapply (IsVisible_delete_ne _ _ _ _ _ row); [lia|done].
  - unfold CommitInsert. rewrite Hm. destruct (decide (row = r)) as [->|Hne].
    + unfold IsVisible. simpl. rewrite lookup_insert_eq, Hm. by apply commit_marker_stable.
    + by eapply (IsVisible_insert_ne _ _ _ _ _ row).
  - destruct (decide (row = r)) as [->|Hne].
    + rewrite Hv. unfold IsVisible, marker_visible. simpl. rewrite lookup_insert_eq. simpl.
      by rewrite (proj2 (Z.eqb_neq _ _) Htx).
    + by eapply (IsVisible_insert_ne _ _ _ _ _ row).
  - unfold CommitDelete. rewrite Hm. destruct (decide (row = r)) as [->|Hne].
    + unfold IsVisible. simpl. rewrite lookup_insert_eq, Hm. by apply commit_marker_stable.
    + by eapply (IsVisible_insert_ne _ _ _ _ _ row).
  - unfold ClearDeleteMarker. rewrite Hm. destruct (decide (row = r)) as [->|Hne].
    + unfold IsVisible, marker_visible. simpl. rewrite lookup_delete_eq, Hm, Hty, Hi.
      by rewrite (proj2 (Z.eqb_neq _ _) Htx).
    + by eapply (IsVisible_delete_ne _ _ _ _ _ row).
Qed.

(** C30: what a transaction with a non-negative start time sees of the first n
    rows does not change while the others append rows behind them and take these
    back, delete rows that it sees, commit pending marks at its start time or
    later, and clear pending deletes that are not its own. The delete of a row
    that it does not see is excluded, for it can make the row visible
    ([delete_exposes_row]); updates are not among the steps. *)
Theorem snapshot_stable tx start n vi vi' :
  (0 <= start)%Z -> rtc (other_step tx start n) vi vi' ->
  forall r, (r < n)%Z -> IsVisible vi' r tx start = IsVisible vi r tx start.
Proof.
  intros Hs Hsteps r Hr. induction Hsteps as [|vi vi1 vi2 Hstep _ IH]; [done|].
  rewrite IH. by eapply other_step_stable.
Qed.

Lemma snapshot_stable_witness :
  IsVisible (CommitDelete (MarkDeleted vi_one_insert 0 7) 0 9) 0 2 6 = IsVisible vi_one_insert 0 2 6.
Proof.
  apply (snapshot_stable 2 6 1 vi_one_insert); [lia| |lia].
  eapply rtc_l; [apply (os_mark_delete 2 6 1 _ 0 7); [lia|reflexivity]|].
  eapply rtc_l; [eapply (os_commit_delete 2 6 1 _ 0 _ 9); [reflexivity|reflexivity|lia]|].
  apply rtc_refl.
Defined.

(** A delete can make a row appear: the marker of an uncommitted delete
    replaces the insert marker, so a row a snapshot must not see (inserted
    after it started) becomes visible to it while another transaction
    deletes it, and stays visible for good when that delete is rolled back. *)
Theorem delete_exposes_row vi row tx start tx' :
  tx' <> tx -> IsVisible vi row tx start = false ->
  IsVisible (MarkDeleted vi row tx') row tx start = true /\
  IsVisible (ClearDeleteMarker (MarkDeleted vi row tx') row) row tx start = true.
Proof.
  intros Hne _. unfold IsVisible, ClearDeleteMarker, marker_visible. simpl.
  rewrite lookup_insert_eq. simpl. rewrite lookup_delete_eq.
  by rewrite (proj2 (Z.eqb_neq _ _) Hne).
Qed.

Lemma delete_exposes_row_witness :
  IsVisible vi_one_insert 0 2 3 = false /\ IsVisible (MarkDeleted vi_one_insert 0 7) 0 2 3 = true.
Proof.
  split; [reflexivity|].
  apply (delete_exposes_row vi_one_insert 0 2 3 7); [lia|reflexivity].
Defined.

(** A committed delete can be lost: when two transactions delete the
    same row and one of them rolls back, before or after the other commits,
    the row is visible to every transaction. *)
Theorem concurrent_delete_lost vi row t1 t2 ct tx start :
  let both := MarkDeleted (MarkDeleted vi row t1) row t2 in
  IsVisible (ClearDeleteMarker (CommitDelete both row ct) row) row tx start = true /\
  IsVisible (CommitDelete (ClearDeleteMarker both row) row ct) row tx start = true.
Proof.
  intros both. unfold both, IsVisible, ClearDeleteMarker, CommitDelete. simpl.
  repeat (rewrite ?lookup_insert_eq, ?lookup_delete_eq; simpl). done.
Qed.
