(* ===== verification/BlockFile.v ===== *)
(** * The block file

    [storage/block_file.hpp] and [block_file.cpp]: fixed-size blocks in one
    file, addressed by block number.  The operating system is modelled by the
    bytes of the file and by a script [io] of what the next system calls
    return: a positive number is a (possibly short) transfer, zero or a
    negative number a failed call, and once the script is used up every call
    transfers all it is asked for.  The claim is that whatever short transfers
    happen, a block that was written is what a read returns, and no other
    block changes. *)

From Stdlib Require Import ZArith.
From stdpp Require Import base list strings.
From S2P Require Import Prelude Types.

Record BlockFile : Type := mkFile {
  bf_block_size_ : nat;
  block_count_ : Z;
  content : list Z;     (* the bytes of the file *)
  io : list Z;          (* what the next pread and pwrite calls return *)
}.

Definition with_content (c : list Z) (s : list Z) (f : BlockFile) : BlockFile :=
  mkFile (bf_block_size_ f) (block_count_ f) c s.

(** [pwrite(fd, bytes, offset)] of a whole buffer: the file grows when the
    range lies behind its end. *)
Definition file_write (off : nat) (bs content : list Z) : list Z :=
  let padded := vec_resize (Nat.max (length content) (off + length bs)) 0%Z content in
  take off padded ++ bs ++ drop (off + length bs) padded.

(** The number of bytes one call transfers, out of [remaining]. *)
Definition transfer (what : string) (n : Z) (remaining : nat) : result nat :=
  if Z.leb n 0 then Err (IOError what) else Ok (Nat.min (Z.to_nat n) remaining).

(** The [while (remaining > 0)] loop around [pwrite]. *)
Fixpoint pwrite_loop (what : string) (script : list Z) (off : nat) (bs content : list Z)
    : result (list Z * list Z) :=
  match bs with
  | [] => Ok (content, script)
  | _ =>
    match script with
    | [] => Ok (file_write off bs content, [])
    | n :: script =>
        k ← transfer what n (length bs);
        pwrite_loop what script (off + k) (drop k bs) (file_write off (take k bs) content)
    end
  end.

(** The [while (remaining > 0)] loop around [pread]; a call at or behind the
    end of the file returns 0. *)
Fixpoint pread_loop (what : string) (script : list Z) (off remaining : nat) (content : list Z)
    : result (list Z * list Z) :=
  match remaining with
  | 0 => Ok ([], script)
  | _ =>
    let avail := Nat.min remaining (length content - off) in
    if bool_decide (avail = 0) then Err (IOError what) else
    match script with
    | [] =>
        (* one full transfer, then a call that must find no end of file *)
        if bool_decide (avail < remaining) then Err (IOError what)
        else Ok (slice off remaining content, [])
    | n :: script =>
        k ← transfer what n avail;
        '(rest, script) ← pread_loop what script (off + k) (remaining - k) content;
        Ok (slice off k content ++ rest, script)
    end
  end.

Definition block_offset (f : BlockFile) (id : Z) : nat := Z.to_nat id * bf_block_size_ f.

Definition ReadBlock (f : BlockFile) (id : Z) : result (list Z * BlockFile) :=
  _ ← require (Z.ltb id (block_count_ f)) (IOError "BlockFile: read on invalid block");
  '(buf, s) ← pread_loop "BlockFile: read failed" (io f) (block_offset f id) (bf_block_size_ f) (content f);
  Ok (buf, with_content (content f) s f).

Definition WriteBlock (f : BlockFile) (id : Z) (buffer : list Z) : result BlockFile :=
  '(c, s) ← pwrite_loop "BlockFile: write failed" (io f) (block_offset f id) buffer (content f);
  Ok (with_content c s f).

Definition bf_AllocateBlock (f : BlockFile) : result (Z * BlockFile) :=
  let id := block_count_ f in
  let f := mkFile (bf_block_size_ f) (block_count_ f + 1) (content f) (io f) in
  '(c, s) ← pwrite_loop "BlockFile: AllocateBlock failed" (io f) (block_offset f id) (replicate (bf_block_size_ f) 0%Z) (content f);
  Ok (id, with_content c s f).

(** The constructor, on a file that already holds [bytes]. *)
Definition bf_open (bytes : list Z) (block_size : nat) (script : list Z) : BlockFile :=
  mkFile block_size (Z.of_nat (length bytes / block_size)) bytes script.

(** ** Abstract view: the blocks *)

Definition bf_block (f : BlockFile) (id : Z) : list Z :=
  slice (block_offset f id) (bf_block_size_ f) (content f).

(** No system call fails. *)
Definition io_ok (script : list Z) : Prop := Forall (fun n => (0 < n)%Z) script.

Record bf_wf (f : BlockFile) : Prop := {
  bf_pos : 0 < bf_block_size_ f;
  bf_count : (0 <= block_count_ f)%Z;
  bf_len : length (content f) = Z.to_nat (block_count_ f) * bf_block_size_ f;
  bf_io : io_ok (io f);
}.

Lemma file_write_eq off bs c :
  off <= length c -> file_write off bs c = take off c ++ bs ++ drop (off + length bs) c.
Proof.
  intros H. unfold file_write, vec_resize. set (n := Nat.max _ _).
  rewrite (take_ge c n) by lia. f_equal; [by rewrite take_app_le by lia|]. f_equal.
  destruct (decide (off + length bs <= length c)) as [Hle|Hgt].
  - replace (n - length c) with 0 by lia. simpl. by rewrite app_nil_r.
  - rewrite (drop_ge c) by lia. apply drop_ge. rewrite length_app, length_replicate. lia.
Qed.

Lemma file_write_length off bs c :
  off <= length c -> length (file_write off bs c) = Nat.max (length c) (off + length bs).
Proof.
  intros H. rewrite file_write_eq by done. rewrite !length_app, length_take, length_drop. lia.
Qed.

Lemma file_write_split off k bs c :
  off <= length c -> k <= length bs ->
  file_write (off + k) (drop k bs) (file_write off (take k bs) c) = file_write off bs c.
Proof.
  intros Ho Hk.
  assert (length (take k bs) = k) as Lk by (rewrite length_take; lia).
  assert (length (take off c) = off) as Lo by (rewrite length_take; lia).
  rewrite (file_write_eq (off + k)) by (rewrite file_write_length by done; lia).
  rewrite !file_write_eq by done. rewrite !Lk.
  rewrite (app_assoc (take off c)), take_app_length' by (rewrite length_app; lia).
  rewrite <- (app_assoc (take off c)). f_equal. rewrite length_drop.
  rewrite drop_app_ge by (rewrite length_app; lia). rewrite length_app, Lo, Lk, drop_drop.
  rewrite app_assoc, take_drop. f_equal. f_equal. lia.
Qed.

Lemma file_write_nil off c : off <= length c -> file_write off [] c = c.
Proof. intros H. rewrite file_write_eq by done. simpl. by rewrite Nat.add_0_r, take_drop. Qed.

Lemma transfer_Ok what n r : (0 < n)%Z -> exists k, transfer what n r = Ok k /\ k <= r /\ (0 < r -> 0 < k).
Proof.
  intros Hn. unfold transfer. rewrite (proj2 (Z.leb_gt n 0)) by done. eexists. split; [done|]. lia.
Qed.

(** A write of any length happens in full, however it is cut into calls. *)
Lemma pwrite_loop_Ok what script off bs c :
  io_ok script -> off <= length c ->
  exists s', pwrite_loop what script off bs c = Ok (file_write off bs c, s') /\ io_ok s'.
Proof.
  intros Hio. revert off bs c. induction Hio as [|n script Hn Hio IH]; intros off bs c Ho.
  - destruct bs as [|b bs]; eexists; (split; [|constructor]); simpl; [|done].
    by rewrite file_write_nil.
  - destruct bs as [|b bs].
    { eexists. split; [simpl; by rewrite file_write_nil|by constructor]. }
    destruct (transfer_Ok what n (length (b :: bs)) Hn) as (k & Hk & Hle & _).
    cbn [pwrite_loop]. rewrite Hk. cbn [mbind result_bind].
    destruct (IH (off + k) (drop k (b :: bs)) (file_write off (take k (b :: bs)) c)) as (s' & Hs & Hok).
    { rewrite file_write_length by done. rewrite length_take. lia. }
    exists s'. rewrite Hs, file_write_split by done. done.
Qed.

(** A read inside the file returns the range, however it is cut into calls. *)
Lemma pread_loop_Ok what script off n c :
  io_ok script -> off + n <= length c ->
  exists s', pread_loop what script off n c = Ok (slice off n c, s') /\ io_ok s'.
Proof.
  intros Hio. revert off n. induction Hio as [|z script Hz Hio IH]; intros off n Ho.
  - destruct n as [|n]; (eexists; split; [|constructor]); [done|]. cbn [pread_loop].
    rewrite !bool_decide_eq_false_2 by lia. done.
  - destruct n as [|n]; [eexists; split; [done|by constructor]|]. cbn [pread_loop].
    rewrite bool_decide_eq_false_2 by lia.
    destruct (transfer_Ok what z (Nat.min (S n) (length c - off)) Hz) as (k & Hk & Hle & _).
    rewrite Hk. cbn [mbind result_bind].
    destruct (IH (off + k) (S n - k)) as (s' & Hs & Hok); [lia|].
    exists s'. rewrite Hs. cbn [mbind result_bind]. rewrite <- slice_app.
    replace (k + (S n - k)) with (S n) by lia. done.
Qed.

(** What a write leaves at the written range and at ranges disjoint from it. *)
Lemma slice_file_write_same off bs c :
  off <= length c -> slice off (length bs) (file_write off bs c) = bs.
Proof.
  intros H. rewrite file_write_eq by done. unfold slice.
  rewrite drop_app_length' by (rewrite length_take; lia). apply take_app_length.
Qed.

Lemma slice_file_write_before off bs c o n :
  off <= length c -> o + n <= off -> slice o n (file_write off bs c) = slice o n c.
Proof.
  intros H Hn. rewrite file_write_eq by done. apply list_eq. intros i.
  destruct (decide (i < n)) as [Hi|Hi].
  - rewrite !lookup_slice by done. rewrite lookup_app_l by (rewrite length_take; lia).
    apply lookup_take_lt. lia.
  - unfold slice. rewrite !lookup_take_ge by lia. done.
Qed.

Lemma slice_file_write_after off bs c o n :
  off <= length c -> off + length bs <= o -> slice o n (file_write off bs c) = slice o n c.
Proof.
  intros H Hn. rewrite file_write_eq by done. apply list_eq. intros i.
  destruct (decide (i < n)) as [Hi|Hi].
  - rewrite !lookup_slice by done.
    rewrite lookup_app_r, lookup_app_r, lookup_drop by (rewrite ?length_take; lia).
    rewrite length_take. f_equal. lia.
  - unfold slice. rewrite !lookup_take_ge by lia. done.
Qed.

Lemma block_range f id :
  bf_wf f -> (0 <= id < block_count_ f)%Z ->
  block_offset f id + bf_block_size_ f <= length (content f).
Proof. intros [] Hid. rewrite bf_len0. unfold block_offset. nia. Qed.

(** The blocks of [f'] are those of [f]. *)
Definition same_file (f f' : BlockFile) : Prop :=
  bf_wf f' /\ bf_block_size_ f' = bf_block_size_ f /\ block_count_ f' = block_count_ f /\
  content f' = content f.

Lemma ReadBlock_Ok f id :
  bf_wf f -> (0 <= id < block_count_ f)%Z ->
  exists f', ReadBlock f id = Ok (bf_block f id, f') /\ same_file f f'.
Proof.
  intros Hwf Hid. pose proof (block_range f id Hwf Hid) as Hr. destruct Hwf as [Hp Hc Hl Hio].
  unfold ReadBlock. rewrite (proj2 (Z.ltb_lt _ _)) by lia. cbn [require mbind result_bind].
  destruct (pread_loop_Ok "BlockFile: read failed" _ _ _ _ Hio Hr) as (s' & -> & Hs). cbn [mbind result_bind].
  eexists. split; [done|]. repeat split; done.
Qed.

Lemma WriteBlock_Ok f id buf :
  bf_wf f -> (0 <= id < block_count_ f)%Z -> length buf = bf_block_size_ f ->
  exists f', WriteBlock f id buf = Ok f' /\ bf_wf f' /\
    bf_block_size_ f' = bf_block_size_ f /\ block_count_ f' = block_count_ f /\
    bf_block f' id = buf /\
    forall id', (0 <= id' < block_count_ f)%Z -> id' <> id -> bf_block f' id' = bf_block f id'.
Proof.
  intros Hwf Hid Hb. pose proof (block_range f id Hwf Hid) as Hr. destruct Hwf as [Hp Hc Hl Hio].
  unfold WriteBlock.
  destruct (pwrite_loop_Ok "BlockFile: write failed" (io f) (block_offset f id) buf (content f) Hio) as (s' & -> & Hs); [lia|].
  cbn [mbind result_bind]. eexists. split; [done|].
  unfold bf_block, block_offset in *. simpl. split_and!; try done.
  - split; simpl; try done. rewrite file_write_length by lia. lia.
  - rewrite <- Hb at 2. apply slice_file_write_same. lia.
  - intros id' Hid' Hne. destruct (decide (id' < id)%Z).
    + apply slice_file_write_before; [lia|]. nia.
    + apply slice_file_write_after; [lia|]. rewrite Hb.
      assert (Z.to_nat id + 1 <= Z.to_nat id') by lia. nia.
Qed.

Lemma bf_AllocateBlock_Ok f :
  bf_wf f ->
  exists f', bf_AllocateBlock f = Ok (block_count_ f, f') /\ bf_wf f' /\
    bf_block_size_ f' = bf_block_size_ f /\ block_count_ f' = (block_count_ f + 1)%Z /\
    bf_block f' (block_count_ f) = replicate (bf_block_size_ f) 0%Z /\
    forall id', (0 <= id' < block_count_ f)%Z -> bf_block f' id' = bf_block f id'.
Proof.
  intros [Hp Hc Hl Hio]. unfold bf_AllocateBlock. unfold bf_block, block_offset. simpl.
  destruct (pwrite_loop_Ok "BlockFile: AllocateBlock failed" (io f) (Z.to_nat (block_count_ f) * bf_block_size_ f)
              (replicate (bf_block_size_ f) 0%Z) (content f) Hio) as (s' & -> & Hs); [lia|].
  cbn [mbind result_bind]. eexists. split; [done|]. simpl. split_and!; try done.
  - split; simpl; try done; [lia|]. rewrite file_write_length by lia. rewrite length_replicate.
    rewrite Z2Nat.inj_add by lia. simpl. lia.
  - rewrite <- (length_replicate (bf_block_size_ f) 0%Z) at 2. apply slice_file_write_same. lia.
  - intros id' Hid'. apply slice_file_write_before; [lia|]. nia.
Qed.

(** However the operating system cuts the transfers, a block that was
    written is what the next read of it returns, and every other block of the
    file is unchanged. *)
Theorem block_write_read f id buf :
  bf_wf f -> (0 <= id < block_count_ f)%Z -> length buf = bf_block_size_ f ->
  exists f1 f2, WriteBlock f id buf = Ok f1 /\ ReadBlock f1 id = Ok (buf, f2) /\
    forall id', (0 <= id' < block_count_ f)%Z -> id' <> id -> bf_block f2 id' = bf_block f id'.
Proof.
  intros Hwf Hid Hb. destruct (WriteBlock_Ok f id buf Hwf Hid Hb) as (f1 & H1 & Hwf1 & Hs & Hc & Hsame & Hoth).
  destruct (ReadBlock_Ok f1 id Hwf1) as (f2 & H2 & _ & Hs2 & Hc2 & Hct); [lia|].
  exists f1, f2. split_and!; [done|by rewrite <- Hsame|].
  intros id' Hid' Hne. rewrite <- Hoth by done. unfold bf_block, block_offset. by rewrite Hs2, Hct.
Qed.

Lemma block_write_read_witness :
  exists f1 f2, WriteBlock (bf_open (replicate 8 0%Z) 4 [1; 2; 9; 1; 3]%Z) 1 [1; 2; 3; 4]%Z = Ok f1 /\
    ReadBlock f1 1 = Ok ([1; 2; 3; 4]%Z, f2) /\
    forall id', (0 <= id' < 2)%Z -> id' <> 1%Z ->
      bf_block f2 id' = bf_block (bf_open (replicate 8 0%Z) 4 [1; 2; 9; 1; 3]%Z) id'.
Proof.
  apply (block_write_read (bf_open (replicate 8 0%Z) 4 [1; 2; 9; 1; 3]%Z) 1 [1; 2; 3; 4]%Z).
  - split; [simpl; lia|discriminate|reflexivity|]. repeat constructor; lia.
  - split; [discriminate|reflexivity].
  - reflexivity.
Defined.
