(* ===== verification/BufferManager.v ===== *)
(** * The buffer manager

    [storage/buffer_manager.hpp] and [buffer_manager.cpp]: a pool of frames
    over the block file with pin counts, dirty flags and least-recently-used
    eviction.  [BlockStore] is what the manager promises to the column layer;
    the manager over a file implements it, whatever blocks are evicted in
    between, and keeps the pool within its budget.  Without a file the promise
    fails: an evicted block is lost. *)

From Stdlib Require Import ZArith.
From stdpp Require Import base gmap strings list fin_maps.
From S2P Require Import Prelude Types BlockFile.

Record Frame : Type := mkFrame {
  buffer : list Z;
  pin_count : Z;
  dirty : bool;
  in_lru : bool;
}.

(** [lru_it], the position of a frame in [lru_list_], is the place where its
    block number stands. *)
Record BufferManager : Type := mkBM {
  pool_bytes_ : Z;
  block_size_ : nat;
  used_bytes_ : Z;
  file_ : option BlockFile;
  pool_ : gmap Z Frame;
  lru_list_ : list Z;      (* back = eviction candidate *)
  next_block_id_ : Z;
}.

Definition BM_new (pool_bytes : Z) (block_size : nat) (file : option BlockFile) : BufferManager :=
  mkBM pool_bytes block_size 0 file ∅ [] 0.

Definition bm_with (bm : BufferManager) (used : Z) (f : option BlockFile) (p : gmap Z Frame)
    (l : list Z) : BufferManager :=
  mkBM (pool_bytes_ bm) (block_size_ bm) used f p l (next_block_id_ bm).

Definition with_pool (bm : BufferManager) (p : gmap Z Frame) (l : list Z) : BufferManager :=
  bm_with bm (used_bytes_ bm) (file_ bm) p l.

Definition Unpin (bm : BufferManager) (id : Z) : BufferManager :=
  match pool_ bm !! id with
  | None => bm
  | Some fr =>
      let n := (pin_count fr - 1)%Z in
      if Z.eqb n 0
      then with_pool bm (<[id := mkFrame (buffer fr) n (dirty fr) true]> (pool_ bm)) (id :: lru_list_ bm)
      else with_pool bm (<[id := mkFrame (buffer fr) n (dirty fr) (in_lru fr)]> (pool_ bm)) (lru_list_ bm)
  end.

(** Writes a dirty frame back when there is a file. *)
Definition write_back (file : option BlockFile) (id : Z) (fr : Frame) : result (option BlockFile) :=
  match file with
  | Some f => if dirty fr then Some <$> WriteBlock f id (buffer fr) else Ok file
  | None => Ok file
  end.

Definition EvictOne (bm : BufferManager) : result BufferManager :=
  match last (lru_list_ bm) with
  | None => Err (RuntimeError "BufferManager: all blocks pinned, cannot evict")
  | Some victim =>
      fr ← of_option StdOutOfRange (pool_ bm !! victim);
      file ← write_back (file_ bm) victim fr;
      Ok (bm_with bm (used_bytes_ bm - Z.of_nat (block_size_ bm)) file
            (delete victim (pool_ bm)) (removelast (lru_list_ bm)))
  end.

(** Each round of the loop takes one block out of [lru_list_], and a round
    with an empty list throws, so [S (length lru_list_)] rounds are enough. *)
Fixpoint EnsureSpace_loop (fuel : nat) (bm : BufferManager) : result BufferManager :=
  if Z.leb (used_bytes_ bm + Z.of_nat (block_size_ bm)) (pool_bytes_ bm) then Ok bm else
  match fuel with
  | 0 => Err UndefinedBehaviour   (* not reached *)
  | S fuel => bm ← EvictOne bm; EnsureSpace_loop fuel bm
  end.

Definition EnsureSpace (bm : BufferManager) : result BufferManager :=
  EnsureSpace_loop (S (length (lru_list_ bm))) bm.

(** [lru_list_.erase(frame.lru_it)]. *)
Fixpoint lru_erase (id : Z) (l : list Z) : list Z :=
  match l with
  | [] => []
  | x :: l => if Z.eqb x id then l else x :: lru_erase id l
  end.

(** The frame a miss loads: from the file, or zeros without one. *)
Definition load_block (bm : BufferManager) (id : Z) : result (list Z * option BlockFile) :=
  match file_ bm with
  | Some f => '(buf, f) ← ReadBlock f id; Ok (buf, Some f)
  | None => Ok (replicate (block_size_ bm) 0%Z, None)
  end.

(** [Pin]; the handle it returns is the block number, its data the frame's
    buffer. *)
Definition Pin (bm : BufferManager) (id : Z) : result BufferManager :=
  match pool_ bm !! id with
  | Some fr =>
      let free := Z.eqb (pin_count fr) 0 && in_lru fr in
      Ok (with_pool bm
            (<[id := mkFrame (buffer fr) (pin_count fr + 1) (dirty fr) (if free then false else in_lru fr)]>
               (pool_ bm))
            (if free then lru_erase id (lru_list_ bm) else lru_list_ bm))
  | None =>
      bm ← EnsureSpace bm;
      '(buf, f) ← load_block bm id;
      Ok (bm_with bm (used_bytes_ bm + Z.of_nat (block_size_ bm)) f
            (<[id := mkFrame buf 1 false false]> (pool_ bm)) (lru_list_ bm))
  end.

Definition MarkDirty (bm : BufferManager) (id : Z) : BufferManager :=
  match pool_ bm !! id with
  | Some fr => with_pool bm (<[id := mkFrame (buffer fr) (pin_count fr) true (in_lru fr)]> (pool_ bm))
                 (lru_list_ bm)
  | None => bm
  end.

(** [AllocateBlock]: the new frame enters the pool with [emplace], which keeps
    an existing entry; the handle would then point to a freed buffer. *)
Definition AllocateBlock (bm : BufferManager) : result (Z * BufferManager) :=
  let id := next_block_id_ bm in
  file ← match file_ bm with
         | Some f => '(_, f) ← bf_AllocateBlock f; Ok (Some f)
         | None => Ok None
         end;
  let bm := mkBM (pool_bytes_ bm) (block_size_ bm) (used_bytes_ bm) file (pool_ bm) (lru_list_ bm) (id + 1) in
  bm ← EnsureSpace bm;
  match pool_ bm !! id with
  | Some _ => Err UndefinedBehaviour
  | None =>
      Ok (id, bm_with bm (used_bytes_ bm + Z.of_nat (block_size_ bm)) (file_ bm)
                (<[id := mkFrame (replicate (block_size_ bm) 0%Z) 1 true false]> (pool_ bm)) (lru_list_ bm))
  end.

(** [Flush] visits the pool in the order of the hash table; the blocks are
    distinct, so the order does not matter, and the model takes that of the
    map. *)
Definition flush_one (bm : BufferManager) (p : Z * Frame) : result BufferManager :=
  let '(id, fr) := p in
  match file_ bm with
  | Some f =>
      if dirty fr then
        f ← WriteBlock f id (buffer fr);
        Ok (bm_with bm (used_bytes_ bm) (Some f)
              (<[id := mkFrame (buffer fr) (pin_count fr) false (in_lru fr)]> (pool_ bm)) (lru_list_ bm))
      else Ok bm
  | None => Ok bm
  end.

Definition Flush (bm : BufferManager) : result BufferManager :=
  foldM flush_one bm (map_to_list (pool_ bm)).

Definition Shutdown (bm : BufferManager) : result BufferManager :=
  bm ← Flush bm; Ok (bm_with bm 0 (file_ bm) ∅ []).

(** ** Uses of a handle

    The column layer takes a handle, reads or rewrites the bytes behind it,
    marks it dirty, and lets the destructor unpin it. *)
Definition block_data (bm : BufferManager) (id : Z) : result (list Z) :=
  fr ← of_option UndefinedBehaviour (pool_ bm !! id); Ok (buffer fr).

Definition set_block_data (bm : BufferManager) (id : Z) (buf : list Z) : BufferManager :=
  match pool_ bm !! id with
  | Some fr => with_pool bm (<[id := mkFrame buf (pin_count fr) (dirty fr) (in_lru fr)]> (pool_ bm)) (lru_list_ bm)
  | None => bm
  end.

Definition read_block (bm : BufferManager) (id : Z) : result (list Z * BufferManager) :=
  bm ← Pin bm id; buf ← block_data bm id; Ok (buf, Unpin bm id).

(** [f] rewrites the bytes in place and may return a value computed on the
    way. *)
Definition rewrite_pinned {A} (bm : BufferManager) (id : Z) (f : list Z -> result (list Z * A))
    : result (A * BufferManager) :=
  buf ← block_data bm id; '(buf, a) ← f buf;
  Ok (a, Unpin (MarkDirty (set_block_data bm id buf) id) id).

Definition update_block {A} (bm : BufferManager) (id : Z) (f : list Z -> result (list Z * A))
    : result (A * BufferManager) :=
  bm ← Pin bm id; rewrite_pinned bm id f.

Definition alloc_block {A} (bm : BufferManager) (f : list Z -> result (list Z * A))
    : result (Z * A * BufferManager) :=
  '(id, bm) ← AllocateBlock bm; '(a, bm) ← rewrite_pinned bm id f; Ok (id, a, bm).

(** ** The interface to the column layer *)

Class BlockStore (S : Type) : Type := {
  bs_size : S -> nat;
  bs_read : S -> Z -> result (list Z * S);
  bs_update : forall {A : Type}, S -> Z -> (list Z -> result (list Z * A)) -> result (A * S);
  bs_alloc : forall {A : Type}, S -> (list Z -> result (list Z * A)) -> result (Z * A * S);
}.

(** The laws, against a partial map from block numbers to contents. *)
Class BlockStoreLaws (S : Type) `{BlockStore S} : Type := {
  bs_ok : S -> Prop;
  bs_view : S -> Z -> option (list Z);
  bs_view_ok : forall s id b, bs_ok s -> bs_view s id = Some b -> length b = bs_size s /\ bytes_ok b;
  bs_read_law : forall s id b, bs_ok s -> bs_view s id = Some b ->
    exists s', bs_read s id = Ok (b, s') /\ bs_ok s' /\ bs_size s' = bs_size s /\
      forall id', bs_view s' id' = bs_view s id';
  bs_update_law : forall A s id b (f : list Z -> result (list Z * A)) b' a,
    bs_ok s -> bs_view s id = Some b -> f b = Ok (b', a) -> length b' = bs_size s -> bytes_ok b' ->
    exists s', bs_update s id f = Ok (a, s') /\ bs_ok s' /\ bs_size s' = bs_size s /\
      forall id', bs_view s' id' = if decide (id' = id) then Some b' else bs_view s id';
  bs_alloc_law : forall A s (f : list Z -> result (list Z * A)) b a,
    bs_ok s -> f (replicate (bs_size s) 0%Z) = Ok (b, a) -> length b = bs_size s -> bytes_ok b ->
    exists id s', bs_alloc s f = Ok (id, a, s') /\ bs_ok s' /\ bs_size s' = bs_size s /\
      bs_view s id = None /\
      forall id', bs_view s' id' = if decide (id' = id) then Some b else bs_view s id';
}.

#[export] Instance BufferManager_store : BlockStore BufferManager := {
  bs_size := block_size_;
  bs_read := read_block;
  bs_update := fun A => @update_block A;
  bs_alloc := fun A => @alloc_block A;
}.

(** ** The manager over a file *)

Definition block_ok (n : nat) (b : list Z) : Prop := length b = n /\ bytes_ok b.

Record frame_ok (bm : BufferManager) (f : BlockFile) (id : Z) (fr : Frame) : Prop := {
  fo_id : (0 <= id < block_count_ f)%Z;
  fo_buffer : block_ok (block_size_ bm) (buffer fr);
  fo_pin : (0 <= pin_count fr)%Z;
  fo_lru : in_lru fr = bool_decide (pin_count fr = 0%Z);
  fo_clean : dirty fr = false -> buffer fr = bf_block f id;
}.

Record bm_inv (bm : BufferManager) (f : BlockFile) : Prop := {
  inv_file : file_ bm = Some f;
  inv_wf : bf_wf f;
  inv_size : bf_block_size_ f = block_size_ bm;
  inv_next : next_block_id_ bm = block_count_ f;
  inv_room : (Z.of_nat (block_size_ bm) <= pool_bytes_ bm)%Z;
  inv_frames : forall id fr, pool_ bm !! id = Some fr -> frame_ok bm f id fr;
  inv_blocks : forall id, (0 <= id < block_count_ f)%Z -> bytes_ok (bf_block f id);
  inv_lru : forall id, id ∈ lru_list_ bm <-> exists fr, pool_ bm !! id = Some fr /\ pin_count fr = 0%Z;
  inv_nodup : NoDup (lru_list_ bm);
  inv_used : used_bytes_ bm = (Z.of_nat (size (pool_ bm)) * Z.of_nat (block_size_ bm))%Z;
  inv_budget : (used_bytes_ bm <= pool_bytes_ bm)%Z;
}.

(** What block [id] holds: its frame, or the file when it has none. *)
Definition bm_block (bm : BufferManager) (f : BlockFile) (id : Z) : list Z :=
  match pool_ bm !! id with Some fr => buffer fr | None => bf_block f id end.

Definition same_blocks (bm : BufferManager) (f : BlockFile) (bm' : BufferManager) (f' : BlockFile) : Prop :=
  block_count_ f' = block_count_ f /\ block_size_ bm' = block_size_ bm /\
  pool_bytes_ bm' = pool_bytes_ bm /\
  forall id, (0 <= id < block_count_ f)%Z -> bm_block bm' f' id = bm_block bm f id.

Lemma last_removelast {A} (l : list A) x : last l = Some x -> l = removelast l ++ [x].
Proof.
  induction l as [|a l IH]; [done|]. destruct l as [|b l].
  - simpl. intros [= ->]. done.
  - intros H. rewrite IH at 1 by done. done.
Qed.

(** The file [f'] is [f] with block [id] replaced. *)
Definition file_updated (f : BlockFile) (id : Z) (b : list Z) (f' : BlockFile) : Prop :=
  bf_wf f' /\ bf_block_size_ f' = bf_block_size_ f /\ block_count_ f' = block_count_ f /\
  bf_block f' id = b /\
  forall id', (0 <= id' < block_count_ f)%Z -> id' <> id -> bf_block f' id' = bf_block f id'.

Lemma write_back_Ok bm f id fr :
  bm_inv bm f -> pool_ bm !! id = Some fr ->
  exists f', write_back (Some f) id fr = Ok (Some f') /\ file_updated f id (buffer fr) f'.
Proof.
  intros Hinv Hfr. destruct (inv_frames _ _ Hinv id fr Hfr) as [Hid [Hlen _] _ _ Hclean].
  unfold write_back. destruct (dirty fr).
  - destruct (WriteBlock_Ok f id (buffer fr) (inv_wf _ _ Hinv) Hid) as (f' & -> & Hu).
    { by rewrite Hlen, (inv_size _ _ Hinv). }
    exists f'. split; [done|]. destruct Hu as (? & ? & ? & ? & ?). by split_and!.
  - exists f. split; [done|]. split_and!; try done; [apply Hinv|]. by rewrite Hclean.
Qed.

(** Once its block is in the file, a frame can be dropped from the pool. *)
Lemma drop_frame_inv bm f f' id fr l :
  bm_inv bm f -> pool_ bm !! id = Some fr -> file_updated f id (buffer fr) f' ->
  NoDup l -> (forall x, x ∈ l <-> x ∈ lru_list_ bm /\ x <> id) ->
  let bm' := bm_with bm (used_bytes_ bm - Z.of_nat (block_size_ bm)) (Some f') (delete id (pool_ bm)) l in
  bm_inv bm' f' /\ same_blocks bm f bm' f'.
Proof.
  intros [Hf Hwf Hsz Hnx Hroom Hfrs Hblk Hlru Hnd Hused Hbud] Hfr (Hwf' & Hsz' & Hc' & Hsame & Hoth) Hnd' Hl bm'.
  destruct (Hfrs id fr Hfr) as [Hid Hbuf _ _ _].
  assert (S (size (delete id (pool_ bm))) = size (pool_ bm)) as Hsize.
  { rewrite map_size_delete_Some by eauto. assert (size (pool_ bm) <> 0); [|lia].
    apply map_size_ne_0_lookup. eauto. }
  split; [split|split_and!]; simpl; try done; try congruence.
  - intros id' fr' [Hne Hfr']%lookup_delete_Some. destruct (Hfrs id' fr' Hfr') as [Hid' ? ? ? Hclean].
    split; simpl; try done; try lia. intros Hd. rewrite Hoth by done. auto.
  - intros id' Hid'. destruct (decide (id' = id)) as [->|Hne].
    + rewrite Hsame. apply Hbuf.
    + rewrite Hoth by (done || lia). apply Hblk. lia.
  - intros x. rewrite Hl, Hlru. split.
    + intros [(fx & Hx & Hp) Hne]. exists fx. by rewrite lookup_delete_ne.
    + intros (fx & [Hne Hx]%lookup_delete_Some & Hp). split; [by exists fx|done].
  - lia.
  - lia.
  - intros id' Hid'. unfold bm_block. simpl. destruct (decide (id' = id)) as [->|Hne].
    + by rewrite lookup_delete_eq, Hfr.
    + rewrite lookup_delete_ne by done. destruct (pool_ bm !! id'); [done|]. by apply Hoth.
Qed.

(** Eviction keeps every block readable, takes one frame out of the pool, and
    leaves the pinned frames alone. *)
Lemma EvictOne_Ok bm f :
  bm_inv bm f -> lru_list_ bm <> [] ->
  exists bm' f', EvictOne bm = Ok bm' /\ bm_inv bm' f' /\ same_blocks bm f bm' f' /\
    S (size (pool_ bm')) = size (pool_ bm) /\ S (length (lru_list_ bm')) = length (lru_list_ bm) /\
    next_block_id_ bm' = next_block_id_ bm /\ pool_ bm' ⊆ pool_ bm /\
    forall id fr, pool_ bm !! id = Some fr -> pin_count fr <> 0%Z -> pool_ bm' !! id = Some fr.
Proof.
  intros Hinv Hne. unfold EvictOne. destruct (last (lru_list_ bm)) as [victim|] eqn:Hl; cycle 1.
  { by apply last_None in Hl. }
  pose proof (last_removelast _ _ Hl) as Hlru. pose proof (inv_nodup _ _ Hinv) as Hnd.
  assert (victim ∈ lru_list_ bm) as Hv by (rewrite Hlru; set_solver).
  apply (inv_lru _ _ Hinv) in Hv as (fr & Hfr & Hpin).
  rewrite Hfr, (inv_file _ _ Hinv). cbn [of_option mbind result_bind].
  destruct (write_back_Ok bm f victim fr Hinv Hfr) as (f' & -> & Hf'). cbn [mbind result_bind].
  rewrite Hlru in Hnd. apply NoDup_app in Hnd as (Hnd & Hdis & _).
  destruct (drop_frame_inv bm f f' victim fr (removelast (lru_list_ bm)) Hinv Hfr Hf' Hnd) as [Hinv' Hsame].
  { intros x. rewrite Hlru at 2. rewrite elem_of_app, list_elem_of_singleton. split.
    - intros Hx. split; [by left|]. intros ->. apply (Hdis _ Hx). set_solver.
    - tauto. }
  eexists _, f'. split; [done|]. split_and!; try done; simpl.
  - rewrite map_size_delete_Some by eauto. assert (size (pool_ bm) <> 0); [|lia].
    apply map_size_ne_0_lookup. eauto.
  - rewrite Hlru at 2. rewrite length_app. simpl. lia.
  - apply delete_subseteq.
  - intros id fr' Hid Hp. rewrite lookup_delete_ne; [done|]. intros ->. simplify_eq.
Qed.

Lemma same_blocks_refl bm f : same_blocks bm f bm f.
Proof. done. Qed.

Lemma same_blocks_trans bm1 f1 bm2 f2 bm3 f3 :
  same_blocks bm1 f1 bm2 f2 -> same_blocks bm2 f2 bm3 f3 -> same_blocks bm1 f1 bm3 f3.
Proof.
  intros (C1 & S1 & P1 & V1) (C2 & S2 & P2 & V2). split_and!; try congruence.
  intros id Hid. rewrite V2 by lia. by apply V1.
Qed.

(** Making room succeeds exactly when the pinned frames (those of the pool
    that are not in [lru_list_]) leave space for one more. *)
Definition room_for_one (bm : BufferManager) : Prop :=
  ((Z.of_nat (size (pool_ bm)) - Z.of_nat (length (lru_list_ bm)) + 1) * Z.of_nat (block_size_ bm)
   <= pool_bytes_ bm)%Z.

#[export] Instance room_for_one_dec bm : Decision (room_for_one bm).
Proof. unfold room_for_one. apply _. Defined.

Definition keeps_pinned (bm bm' : BufferManager) : Prop :=
  next_block_id_ bm' = next_block_id_ bm /\
  pool_ bm' ⊆ pool_ bm /\
  (forall id fr, pool_ bm !! id = Some fr -> pin_count fr <> 0%Z -> pool_ bm' !! id = Some fr).

Lemma EnsureSpace_loop_Ok fuel bm f :
  bm_inv bm f -> room_for_one bm -> length (lru_list_ bm) < fuel ->
  exists bm' f', EnsureSpace_loop fuel bm = Ok bm' /\ bm_inv bm' f' /\ same_blocks bm f bm' f' /\
    (used_bytes_ bm' + Z.of_nat (block_size_ bm') <= pool_bytes_ bm')%Z /\ keeps_pinned bm bm'.
Proof.
  revert bm f. induction fuel as [|fuel IH]; intros bm f Hinv Hroom Hfuel; [lia|].
  cbn [EnsureSpace_loop]. destruct (Z.leb_spec (used_bytes_ bm + Z.of_nat (block_size_ bm)) (pool_bytes_ bm)).
  { exists bm, f. by split_and!. }
  unfold room_for_one in Hroom. pose proof (inv_used _ _ Hinv) as Hu.
  destruct (EvictOne_Ok bm f Hinv) as (bm1 & f1 & -> & Hinv1 & Hs1 & Hp1 & Hl1 & Hn1 & Hnone & Hpin).
  { intros H0. rewrite H0 in Hroom. simpl in Hroom. lia. }
  cbn [mbind result_bind]. destruct (IH bm1 f1 Hinv1) as (bm2 & f2 & -> & Hinv2 & Hs2 & Hub & Hn2 & Hnone2 & Hpin2).
  { destruct Hs1 as (_ & Hb & Hpb & _). unfold room_for_one. rewrite Hb, Hpb.
    replace (Z.of_nat (size (pool_ bm1)) - Z.of_nat (length (lru_list_ bm1)))%Z
      with (Z.of_nat (size (pool_ bm)) - Z.of_nat (length (lru_list_ bm)))%Z by lia. done. }
  { lia. }
  exists bm2, f2. split_and!; try done; [by eapply same_blocks_trans|].
  split_and!; [congruence|by etrans|]. intros id fr Hid Hp. apply Hpin2; auto.
Qed.

Lemma EnsureSpace_loop_full fuel bm f :
  bm_inv bm f -> ~ room_for_one bm -> length (lru_list_ bm) < fuel ->
  EnsureSpace_loop fuel bm = Err (RuntimeError "BufferManager: all blocks pinned, cannot evict").
Proof.
  revert bm f. induction fuel as [|fuel IH]; intros bm f Hinv Hroom Hfuel; [lia|].
  unfold room_for_one in Hroom. pose proof (inv_used _ _ Hinv) as Hu.
  cbn [EnsureSpace_loop]. destruct (Z.leb_spec (used_bytes_ bm + Z.of_nat (block_size_ bm)) (pool_bytes_ bm)) as [Hle|].
  { destruct Hroom. nia. }
  destruct (decide (lru_list_ bm = [])) as [H0|Hne]; [unfold EvictOne; by rewrite H0|].
  destruct (EvictOne_Ok bm f Hinv Hne) as (bm1 & f1 & -> & Hinv1 & (_ & Hb & Hpb & _) & Hp1 & Hl1 & _).
  cbn [mbind result_bind]. apply (IH bm1 f1 Hinv1); [|lia]. unfold room_for_one. rewrite Hb, Hpb.
  replace (Z.of_nat (size (pool_ bm1)) - Z.of_nat (length (lru_list_ bm1)))%Z
    with (Z.of_nat (size (pool_ bm)) - Z.of_nat (length (lru_list_ bm)))%Z by lia. done.
Qed.

(** No block is pinned: the state between two operations of the column layer. *)
Definition quiet (bm : BufferManager) : Prop :=
  forall id fr, pool_ bm !! id = Some fr -> pin_count fr = 0%Z.

Lemma quiet_lru_size bm f : bm_inv bm f -> quiet bm -> length (lru_list_ bm) = size (pool_ bm).
Proof.
  intros Hinv Hq. rewrite <- length_map_to_list, <- (length_fmap fst).
  apply Permutation_length, NoDup_Permutation; [apply Hinv|apply NoDup_fst_map_to_list|].
  intros id. rewrite (inv_lru _ _ Hinv), list_elem_of_fmap. split.
  - intros (fr & Hfr & _). exists (id, fr). split; [done|]. by apply elem_of_map_to_list.
  - intros ([id' fr] & -> & Hin). apply elem_of_map_to_list in Hin. exists fr. split; [done|]. by eapply Hq.
Qed.

Lemma EnsureSpace_quiet bm f :
  bm_inv bm f -> quiet bm ->
  exists bm' f', EnsureSpace bm = Ok bm' /\ bm_inv bm' f' /\ quiet bm' /\ same_blocks bm f bm' f' /\
    (used_bytes_ bm' + Z.of_nat (block_size_ bm') <= pool_bytes_ bm')%Z /\
    next_block_id_ bm' = next_block_id_ bm /\ pool_ bm' ⊆ pool_ bm.
Proof.
  intros Hinv Hq. destruct (EnsureSpace_loop_Ok (S (length (lru_list_ bm))) bm f Hinv)
    as (bm' & f' & Heq & Hinv' & Hs & Hu & Hn & Hsub & _); [|lia|].
  - unfold room_for_one. rewrite (quiet_lru_size bm f) by done. pose proof (inv_room _ _ Hinv). lia.
  - exists bm', f'. split_and!; try done. intros id fr Hfr. apply (Hq id fr). by eapply lookup_weaken.
Qed.

(** Replacing a frame and its place in [lru_list_]. *)
Lemma set_frame_inv bm f id fr fr' l :
  bm_inv bm f -> pool_ bm !! id = Some fr -> frame_ok bm f id fr' -> NoDup l ->
  (forall x, x ∈ l <-> x ∈ lru_list_ bm /\ x <> id \/ x = id /\ pin_count fr' = 0%Z) ->
  bm_inv (with_pool bm (<[id := fr']> (pool_ bm)) l) f.
Proof.
  intros [Hf Hwf Hsz Hnx Hroom Hfrs Hblk Hlru Hnd Hused Hbud] Hfr [Hid Hb Hp Hl Hc] Hnd' Hmem.
  split; simpl; try done.
  - intros id' fr''. destruct (decide (id = id')) as [<-|Hne].
    + rewrite lookup_insert_eq. intros [= <-]. by split.
    + rewrite lookup_insert_ne by done. intros Hx. destruct (Hfrs _ _ Hx). by split.
  - intros x. rewrite Hmem, Hlru. destruct (decide (id = x)) as [<-|Hne].
    + rewrite lookup_insert_eq. split; [intros [[_ ?]|[_ ?]]; [done|eauto]|].
      intros (? & [= <-] & ?). by right.
    + rewrite lookup_insert_ne by done. split; [intros [[? _]|[? _]]; [done|congruence]|]. auto.
  - by rewrite map_size_insert_Some by eauto.
Qed.

(** Adding a pinned frame once there is room. *)
Lemma add_frame_inv bm f f' id buf d :
  bm_inv bm f -> same_file f f' -> pool_ bm !! id = None -> (0 <= id < block_count_ f)%Z ->
  block_ok (block_size_ bm) buf -> (d = false -> buf = bf_block f id) ->
  (used_bytes_ bm + Z.of_nat (block_size_ bm) <= pool_bytes_ bm)%Z ->
  bm_inv (bm_with bm (used_bytes_ bm + Z.of_nat (block_size_ bm)) (Some f')
            (<[id := mkFrame buf 1 d false]> (pool_ bm)) (lru_list_ bm)) f'.
Proof.
  intros [Hf Hwf Hsz Hnx Hroom Hfrs Hblk Hlru Hnd Hused Hbud] (Hwf' & Hsz' & Hc' & Hct) Hnone Hid Hb Hd Hu.
  assert (forall i, bf_block f' i = bf_block f i) as Hbb.
  { intros i. unfold bf_block, block_offset. by rewrite Hsz', Hct. }
  split; simpl; try done; try congruence.
  - intros id' fr''. destruct (decide (id = id')) as [<-|Hne].
    + rewrite lookup_insert_eq. intros [= <-]. split; simpl; try done; [by rewrite Hc'|]. by rewrite Hbb.
    + rewrite lookup_insert_ne by done. intros Hx. destruct (Hfrs _ _ Hx).
      split; simpl; rewrite ?Hc', ?Hbb; done.
  - intros i Hi. rewrite Hbb. apply Hblk. lia.
  - intros x. rewrite Hlru. destruct (decide (id = x)) as [<-|Hne].
    + rewrite Hnone, lookup_insert_eq. split; [intros (? & ? & _); done|].
      intros (? & [= <-] & ?). done.
    + by rewrite lookup_insert_ne.
  - rewrite map_size_insert_None by done. lia.
Qed.

Lemma elem_of_lru_erase id l x : NoDup l -> (x ∈ lru_erase id l <-> x ∈ l /\ x <> id).
Proof.
  induction 1 as [|a l Ha Hnd IH]; simpl.
  - set_solver.
  - destruct (Z.eqb_spec a id) as [->|Hne].
    + set_solver.
    + rewrite !elem_of_cons, IH. split; [intros [->|]; naive_solver|naive_solver].
Qed.

Lemma NoDup_lru_erase id l : NoDup l -> NoDup (lru_erase id l).
Proof.
  induction 1 as [|a l Ha Hnd IH]; simpl; [constructor|].
  destruct (Z.eqb_spec a id); [done|]. constructor; [|done]. rewrite elem_of_lru_erase by done. tauto.
Qed.

(** The state after a [Pin]: block [id] is pinned once, no other block is. *)
Definition pinned_one (bm : BufferManager) (id : Z) (fr : Frame) : Prop :=
  pool_ bm !! id = Some fr /\ pin_count fr = 1%Z /\
  forall id' fr', pool_ bm !! id' = Some fr' -> id' <> id -> pin_count fr' = 0%Z.

Lemma load_block_Ok bm f id :
  bm_inv bm f -> (0 <= id < block_count_ f)%Z ->
  exists f', load_block bm id = Ok (bf_block f id, Some f') /\ same_file f f'.
Proof.
  intros Hinv Hid. unfold load_block. rewrite (inv_file _ _ Hinv).
  destruct (ReadBlock_Ok f id (inv_wf _ _ Hinv) Hid) as (f' & -> & Hf'). eauto.
Qed.

Lemma bf_block_ok bm f id :
  bm_inv bm f -> (0 <= id < block_count_ f)%Z -> block_ok (block_size_ bm) (bf_block f id).
Proof.
  intros Hinv Hid. split; [|by apply (inv_blocks _ _ Hinv)].
  unfold bf_block. rewrite length_slice; [apply Hinv|]. apply block_range; [apply Hinv|done].
Qed.

Lemma Pin_Ok bm f id :
  bm_inv bm f -> quiet bm -> (0 <= id < block_count_ f)%Z ->
  exists bm' f' fr, Pin bm id = Ok bm' /\ bm_inv bm' f' /\ same_blocks bm f bm' f' /\
    pinned_one bm' id fr /\ buffer fr = bm_block bm f id.
Proof.
  intros Hinv Hq Hid. unfold Pin. destruct (pool_ bm !! id) as [fr|] eqn:Hfr.
  - pose proof (inv_frames _ _ Hinv id fr Hfr) as [_ Hb _ Hl Hc]. pose proof (Hq id fr Hfr) as Hp.
    rewrite Hl, Hp. rewrite bool_decide_eq_true_2 by done. simpl.
    eexists _, f, _. split; [done|]. split_and!.
    + eapply set_frame_inv; [done|done|by split|apply NoDup_lru_erase, Hinv|].
      intros x. rewrite elem_of_lru_erase by apply Hinv. simpl. naive_solver.
    + split_and!; try done. intros i Hi. unfold bm_block. simpl. destruct (decide (id = i)) as [<-|Hne].
      * by rewrite lookup_insert_eq, Hfr.
      * by rewrite lookup_insert_ne.
    + split_and!; simpl; [by rewrite lookup_insert_eq|done|].
      intros i fi. intros Hi Hne. rewrite lookup_insert_ne in Hi by done. eauto.
    + unfold bm_block. by rewrite Hfr.
  - destruct (EnsureSpace_quiet bm f Hinv Hq) as (bm1 & f1 & -> & Hinv1 & Hq1 & Hs1 & Hu1 & Hn1 & Hsub).
    cbn [mbind result_bind]. pose proof Hs1 as (Hc1 & Hb1 & Hpb1 & Hv1).
    destruct (load_block_Ok bm1 f1 id Hinv1) as (f2 & -> & Hf2); [lia|]. cbn [mbind result_bind].
    pose proof (lookup_weaken_None _ _ _ Hfr Hsub) as Hnone.
    eexists _, f2, _. split; [done|]. split_and!.
    + eapply add_frame_inv; try done; [lia|apply bf_block_ok; [done|lia]].
    + eapply same_blocks_trans; [done|]. destruct Hf2 as (_ & Hsz & Hc & Hct).
      split_and!; try done. intros i Hi. unfold bm_block. simpl. destruct (decide (id = i)) as [<-|Hne].
      * by rewrite lookup_insert_eq, Hnone.
      * rewrite lookup_insert_ne by done. unfold bf_block, block_offset. by rewrite Hsz, Hct.
    + split_and!; simpl; [by rewrite lookup_insert_eq|done|].
      intros i fi. intros Hi Hne. rewrite lookup_insert_ne in Hi by done. eauto.
    + simpl. rewrite <- Hv1 by done. unfold bm_block. by rewrite Hnone.
Qed.

Lemma unpin_one bm id fr :
  pool_ bm !! id = Some fr -> pin_count fr = 1%Z ->
  Unpin bm id = with_pool bm (<[id := mkFrame (buffer fr) 0 (dirty fr) true]> (pool_ bm)) (id :: lru_list_ bm).
Proof. intros Hfr Hp. unfold Unpin. by rewrite Hfr, Hp. Qed.

Lemma pinned_not_lru bm f id fr :
  bm_inv bm f -> pool_ bm !! id = Some fr -> pin_count fr = 1%Z -> id ∉ lru_list_ bm.
Proof. intros Hinv Hfr Hp (fr' & Hfr' & Hp')%(inv_lru _ _ Hinv). simplify_eq. congruence. Qed.

(** Releasing the pinned block, with the buffer [buf]. *)
Lemma release_Ok bm f id fr buf d :
  bm_inv bm f -> pinned_one bm id fr -> block_ok (block_size_ bm) buf ->
  (d = false -> buf = bf_block f id) ->
  let bm' := with_pool bm (<[id := mkFrame buf 0 d true]> (pool_ bm)) (id :: lru_list_ bm) in
  bm_inv bm' f /\ quiet bm' /\
  forall i, (0 <= i < block_count_ f)%Z -> bm_block bm' f i = if decide (i = id) then buf else bm_block bm f i.
Proof.
  intros Hinv (Hfr & Hp & Hq) Hb Hd bm'. pose proof (pinned_not_lru _ _ _ _ Hinv Hfr Hp) as Hnl.
  destruct (inv_frames _ _ Hinv id fr Hfr) as [Hid _ _ _ _]. split_and!.
  - eapply set_frame_inv; [done|done|by split|by constructor; [|apply Hinv]|].
    intros x. rewrite elem_of_cons. simpl. split; [intros [->|Hx]; [by right|left]|naive_solver].
    split; [done|]. by intros ->.
  - intros i fi. simpl. destruct (decide (id = i)) as [<-|Hne].
    + rewrite lookup_insert_eq. by intros [= <-].
    + rewrite lookup_insert_ne by done. eauto.
  - intros i Hi. unfold bm_block. simpl. destruct (decide (i = id)) as [->|Hne].
    + by rewrite lookup_insert_eq.
    + by rewrite lookup_insert_ne.
Qed.

Lemma rewrite_pinned_Ok {A} bm f id fr (g : list Z -> result (list Z * A)) b a :
  bm_inv bm f -> pinned_one bm id fr -> g (buffer fr) = Ok (b, a) -> block_ok (block_size_ bm) b ->
  exists bm', rewrite_pinned bm id g = Ok (a, bm') /\ bm_inv bm' f /\ quiet bm' /\
    block_size_ bm' = block_size_ bm /\
    forall i, (0 <= i < block_count_ f)%Z -> bm_block bm' f i = if decide (i = id) then b else bm_block bm f i.
Proof.
  intros Hinv Hone Hg Hb. pose proof Hone as (Hfr & Hp & _).
  unfold rewrite_pinned, block_data. rewrite Hfr. cbn [of_option mbind result_bind]. rewrite Hg.
  cbn [mbind result_bind]. eexists. split; [done|].
  unfold set_block_data, MarkDirty. rewrite Hfr. simpl. rewrite lookup_insert_eq. simpl.
  rewrite (unpin_one _ id (mkFrame b (pin_count fr) true (in_lru fr)))
    by (simpl; rewrite ?lookup_insert_eq; done). simpl.
  unfold with_pool, bm_with. simpl. rewrite !insert_insert_eq.
  destruct (release_Ok bm f id fr b true Hinv Hone Hb ltac:(done)) as (? & ? & ?). done.
Qed.

Lemma read_block_Ok bm f id :
  bm_inv bm f -> quiet bm -> (0 <= id < block_count_ f)%Z ->
  exists bm' f', read_block bm id = Ok (bm_block bm f id, bm') /\ bm_inv bm' f' /\ quiet bm' /\
    same_blocks bm f bm' f'.
Proof.
  intros Hinv Hq Hid. destruct (Pin_Ok bm f id Hinv Hq Hid) as (bm1 & f1 & fr & HP & Hinv1 & Hs & Hone & Hb).
  unfold read_block. rewrite HP. cbn [mbind result_bind]. pose proof Hone as (Hfr & Hp & _).
  unfold block_data. rewrite Hfr. cbn [of_option mbind result_bind]. rewrite <- Hb.
  erewrite unpin_one by done. eexists _, f1. split; [done|].
  destruct (inv_frames _ _ Hinv1 id fr Hfr) as [_ Hbuf _ _ Hcl].
  destruct (release_Ok bm1 f1 id fr (buffer fr) (dirty fr) Hinv1 Hone Hbuf Hcl) as (Hi' & Hq' & Hv).
  split_and!; [done|done|]. eapply same_blocks_trans; [done|]. split_and!; try done.
  intros i Hi. rewrite Hv by done. destruct (decide (i = id)) as [->|]; [|done].
  unfold bm_block. by rewrite Hfr.
Qed.

Lemma update_block_Ok {A} bm f id (g : list Z -> result (list Z * A)) b a :
  bm_inv bm f -> quiet bm -> (0 <= id < block_count_ f)%Z ->
  g (bm_block bm f id) = Ok (b, a) -> block_ok (block_size_ bm) b ->
  exists bm' f', update_block bm id g = Ok (a, bm') /\ bm_inv bm' f' /\ quiet bm' /\
    block_size_ bm' = block_size_ bm /\ block_count_ f' = block_count_ f /\
    forall i, (0 <= i < block_count_ f)%Z -> bm_block bm' f' i = if decide (i = id) then b else bm_block bm f i.
Proof.
  intros Hinv Hq Hid Hg Hb.
  destruct (Pin_Ok bm f id Hinv Hq Hid) as (bm1 & f1 & fr & HP & Hinv1 & (Hc & Hsz & _ & Hv) & Hone & Hbuf).
  unfold update_block. rewrite HP. cbn [mbind result_bind]. rewrite <- Hbuf in Hg.
  destruct (rewrite_pinned_Ok bm1 f1 id fr g b a Hinv1 Hone Hg) as (bm2 & -> & Hinv2 & Hq2 & Hsz2 & Hv2);
    [by rewrite Hsz|].
  exists bm2, f1. split_and!; try done; [congruence|]. intros i Hi. rewrite Hv2 by lia.
  destruct (decide (i = id)); [done|]. by apply Hv.
Qed.

(** The state after the file has grown by one block. *)
Lemma extend_file_inv bm f f' :
  bm_inv bm f -> bf_wf f' -> bf_block_size_ f' = bf_block_size_ f ->
  block_count_ f' = (block_count_ f + 1)%Z ->
  bf_block f' (block_count_ f) = replicate (bf_block_size_ f) 0%Z ->
  (forall id, (0 <= id < block_count_ f)%Z -> bf_block f' id = bf_block f id) ->
  bm_inv (mkBM (pool_bytes_ bm) (block_size_ bm) (used_bytes_ bm) (Some f') (pool_ bm) (lru_list_ bm)
            (next_block_id_ bm + 1)) f'.
Proof.
  intros [Hf Hwf Hsz Hnx Hroom Hfrs Hblk Hlru Hnd Hused Hbud] Hwf' Hsz' Hc' Hnew Hold.
  split; simpl; try done; try congruence.
  - intros id fr Hfr. destruct (Hfrs id fr Hfr) as [Hid ? ? ? Hcl].
    split; simpl; try done; [lia|]. rewrite Hold by done. done.
  - intros id Hid. destruct (decide (id = block_count_ f)) as [->|Hne].
    + rewrite Hnew. apply Forall_replicate. unfold is_u8. lia.
    + rewrite Hold by lia. apply Hblk. lia.
Qed.

Lemma AllocateBlock_Ok bm f :
  bm_inv bm f -> quiet bm ->
  exists bm' f' fr, AllocateBlock bm = Ok (block_count_ f, bm') /\ bm_inv bm' f' /\
    block_size_ bm' = block_size_ bm /\ block_count_ f' = (block_count_ f + 1)%Z /\
    pinned_one bm' (block_count_ f) fr /\ buffer fr = replicate (block_size_ bm) 0%Z /\
    forall i, (0 <= i < block_count_ f)%Z -> bm_block bm' f' i = bm_block bm f i.
Proof.
  intros Hinv Hq. unfold AllocateBlock. rewrite (inv_file _ _ Hinv).
  destruct (bf_AllocateBlock_Ok f (inv_wf _ _ Hinv)) as (f1 & -> & Hwf1 & Hsz1 & Hc1 & Hnew & Hold).
  cbn [mbind result_bind].
  pose proof (extend_file_inv bm f f1 Hinv Hwf1 Hsz1 Hc1 Hnew Hold) as Hinv1. set (bm1 := mkBM _ _ _ _ _ _ _) in *.
  destruct (EnsureSpace_quiet bm1 f1 Hinv1) as (bm2 & f2 & -> & Hinv2 & Hq2 & (Hc2 & Hb2 & Hp2 & Hv2) & Hu2 & Hn2 & Hsub);
    [done|].
  cbn [mbind result_bind]. rewrite (inv_next _ _ Hinv).
  assert (pool_ bm !! block_count_ f = None) as Hnone.
  { destruct (pool_ bm !! block_count_ f) as [fr|] eqn:Hfr; [|done].
    destruct (inv_frames _ _ Hinv _ _ Hfr) as [Hid]. lia. }
  pose proof (lookup_weaken_None _ _ _ Hnone Hsub) as Hnone2. rewrite Hnone2, (inv_file _ _ Hinv2).
  simpl in Hb2. pose proof (bf_count _ (inv_wf _ _ Hinv)).
  eexists _, f2, _. split; [done|]. split_and!.
  - eapply add_frame_inv; try done; [split_and!; try done; apply Hinv2|lia|].
    split; [by rewrite length_replicate|]. apply Forall_replicate. unfold is_u8. lia.
  - done.
  - lia.
  - split_and!; simpl; [by rewrite lookup_insert_eq|done|].
    intros i fi. intros Hi Hne. rewrite lookup_insert_ne in Hi by done. eauto.
  - simpl. by rewrite Hb2.
  - intros i Hi. unfold bm_block at 1. simpl. rewrite lookup_insert_ne by lia.
    change (bm_block bm2 f2 i = bm_block bm f i). rewrite Hv2 by lia. unfold bm_block. simpl.
    destruct (pool_ bm !! i); [done|]. by apply Hold.
Qed.

Lemma alloc_block_Ok {A} bm f (g : list Z -> result (list Z * A)) b a :
  bm_inv bm f -> quiet bm -> g (replicate (block_size_ bm) 0%Z) = Ok (b, a) -> block_ok (block_size_ bm) b ->
  exists bm' f', alloc_block bm g = Ok (block_count_ f, a, bm') /\ bm_inv bm' f' /\ quiet bm' /\
    block_size_ bm' = block_size_ bm /\ block_count_ f' = (block_count_ f + 1)%Z /\
    forall i, (0 <= i < block_count_ f')%Z ->
      bm_block bm' f' i = if decide (i = block_count_ f) then b else bm_block bm f i.
Proof.
  intros Hinv Hq Hg Hb. destruct (AllocateBlock_Ok bm f Hinv Hq) as
    (bm1 & f1 & fr & HA & Hinv1 & Hsz1 & Hc1 & Hone & Hbuf & Hv1).
  unfold alloc_block. rewrite HA. cbn [mbind result_bind]. rewrite <- Hbuf in Hg.
  destruct (rewrite_pinned_Ok bm1 f1 (block_count_ f) fr g b a Hinv1 Hone Hg)
    as (bm2 & -> & Hinv2 & Hq2 & Hsz2 & Hv2); [by rewrite Hsz1|].
  cbn [mbind result_bind]. exists bm2, f1. split_and!; try done; [congruence|]. intros i Hi. rewrite Hv2 by lia.
  destruct (decide (i = block_count_ f)); [done|]. apply Hv1. lia.
Qed.

(** ** The manager over a file implements the interface *)

Definition bm_ok (bm : BufferManager) : Prop := exists f, bm_inv bm f /\ quiet bm.

Definition bm_view (bm : BufferManager) (id : Z) : option (list Z) :=
  match file_ bm with
  | Some f => if bool_decide (0 <= id < block_count_ f)%Z then Some (bm_block bm f id) else None
  | None => None
  end.

Lemma bm_view_Some bm f id b :
  bm_inv bm f -> bm_view bm id = Some b <-> (0 <= id < block_count_ f)%Z /\ b = bm_block bm f id.
Proof.
  intros Hinv. unfold bm_view. rewrite (inv_file _ _ Hinv). case_bool_decide; naive_solver.
Qed.

(** Views that agree on the allocated blocks agree everywhere. *)
Lemma bm_view_eq bm f bm' f' id (v : list Z) :
  bm_inv bm f -> bm_inv bm' f' ->
  (forall i, (0 <= i < block_count_ f')%Z <-> (0 <= i < block_count_ f)%Z \/ i = id) ->
  (forall i, (0 <= i < block_count_ f')%Z -> bm_block bm' f' i = if decide (i = id) then v else bm_block bm f i) ->
  forall i, bm_view bm' i = if decide (i = id) then Some v else bm_view bm i.
Proof.
  intros Hinv Hinv' Hdom Hv i. unfold bm_view. rewrite (inv_file _ _ Hinv), (inv_file _ _ Hinv').
  destruct (decide (i = id)) as [->|Hne].
  - rewrite bool_decide_eq_true_2 by (apply Hdom; by right). rewrite Hv by (apply Hdom; by right).
    by rewrite decide_True.
  - destruct (decide (0 <= i < block_count_ f)%Z) as [Hi|Hi].
    + rewrite !bool_decide_eq_true_2 by (try apply Hdom; auto). rewrite Hv by (apply Hdom; auto).
      by rewrite decide_False.
    + rewrite !bool_decide_eq_false_2; [done|done|]. rewrite Hdom. naive_solver.
Qed.

#[export] Program Instance BufferManager_laws : BlockStoreLaws BufferManager := {
  bs_ok := bm_ok;
  bs_view := bm_view;
}.
Next Obligation.
  intros bm id b (f & Hinv & Hq) [Hid ->]%(bm_view_Some _ f); [|done].
  unfold bm_block. destruct (pool_ bm !! id) as [fr|] eqn:Hfr.
  - by destruct (inv_frames _ _ Hinv id fr Hfr).
  - by apply bf_block_ok.
Qed.
Next Obligation.
  intros bm id b (f & Hinv & Hq) [Hid ->]%(bm_view_Some _ f); [|done].
  destruct (read_block_Ok bm f id Hinv Hq Hid) as (bm' & f' & Hr & Hinv' & Hq' & Hc & Hsz & _ & Hv).
  exists bm'. split_and!; [done|by exists f'|done|].
  intros i. rewrite (bm_view_eq bm f bm' f' id (bm_block bm f id)) by
    (done || (intros; rewrite Hc; naive_solver) || (intros j Hj; rewrite Hv by lia; by destruct (decide (j = id)) as [->|])).
  destruct (decide (i = id)) as [->|]; [|done]. symmetry. by apply (bm_view_Some _ f).
Qed.
Next Obligation.
  intros A bm id b g b' a (f & Hinv & Hq) [Hid ->]%(bm_view_Some _ f) Hg Hlen Hbytes; [|done].
  destruct (update_block_Ok bm f id g b' a Hinv Hq Hid Hg) as (bm' & f' & Hr & Hinv' & Hq' & Hsz & Hc & Hv); [done|].
  exists bm'. split_and!; [done|by exists f'|done|].
  apply (bm_view_eq bm f bm' f'); [done|done|rewrite Hc; naive_solver|by rewrite Hc].
Qed.
Next Obligation.
  intros A bm g b a (f & Hinv & Hq) Hg Hlen Hbytes.
  destruct (alloc_block_Ok bm f g b a Hinv Hq Hg) as (bm' & f' & Hr & Hinv' & Hq' & Hsz & Hc & Hv); [done|].
  pose proof (bf_count _ (inv_wf _ _ Hinv)).
  exists (block_count_ f), bm'. split_and!; [done|by exists f'|done| |].
  - unfold bm_view. rewrite (inv_file _ _ Hinv), bool_decide_eq_false_2; [done|lia].
  - apply (bm_view_eq bm f bm' f'); [done|done|intros i; lia|done].
Qed.

(** ** Runs of the interface *)

Inductive store_op : Type :=
  | OpRead (id : Z)
  | OpWrite (id : Z) (b : list Z)
  | OpAlloc (b : list Z).

Section Runs.
Context {S : Type} `{BlockStoreLaws S}.

(** The store and the contents of the reads so far. *)
Definition run_op (st : S * list (list Z)) (op : store_op) : result (S * list (list Z)) :=
  let '(s, out) := st in
  match op with
  | OpRead id => '(b, s) ← bs_read s id; Ok (s, out ++ [b])
  | OpWrite id b => '(_, s) ← bs_update s id (fun _ => Ok (b, tt)); Ok (s, out)
  | OpAlloc b => '(_, _, s) ← bs_alloc s (fun _ => Ok (b, tt)); Ok (s, out)
  end.

(** The same operations on a map, the block numbers of new blocks being
    whatever is not in use. *)
Inductive spec_op : (Z -> option (list Z)) * list (list Z) -> store_op ->
    (Z -> option (list Z)) * list (list Z) -> Prop :=
  | so_read v v' out id b :
      v id = Some b -> (forall i, v' i = v i) -> spec_op (v, out) (OpRead id) (v', out ++ [b])
  | so_write v v' out id b :
      (forall i, v' i = if decide (i = id) then Some b else v i) ->
      spec_op (v, out) (OpWrite id b) (v', out)
  | so_alloc v v' out id b :
      v id = None -> (forall i, v' i = if decide (i = id) then Some b else v i) ->
      spec_op (v, out) (OpAlloc b) (v', out).

(** Operations address blocks in use and write whole blocks. *)
Definition op_ok (s : S) (op : store_op) : Prop :=
  match op with
  | OpRead id => is_Some (bs_view s id)
  | OpWrite id b => is_Some (bs_view s id) /\ length b = bs_size s /\ bytes_ok b
  | OpAlloc b => length b = bs_size s /\ bytes_ok b
  end.

Lemma run_op_refines s out op :
  bs_ok s -> op_ok s op ->
  exists s' out', run_op (s, out) op = Ok (s', out') /\ bs_ok s' /\ bs_size s' = bs_size s /\
    spec_op (bs_view s, out) op (bs_view s', out').
Proof.
  intros Hok Hop. destruct op as [id|id b|b]; simpl in *.
  - destruct Hop as [b Hb]. destruct (bs_read_law s id b Hok Hb) as (s' & -> & Hok' & Hsz & Hv).
    cbn [mbind result_bind]. eexists _, _. split; [done|]. split_and!; [done|done|]. by constructor.
  - destruct Hop as ([b0 Hb0] & Hl & Hby).
    destruct (bs_update_law unit s id b0 (fun _ => Ok (b, tt)) b tt Hok Hb0 eq_refl Hl Hby) as (s' & -> & Hok' & Hsz & Hv).
    cbn [mbind result_bind]. eexists _, _. split; [done|]. split_and!; [done|done|]. by constructor.
  - destruct Hop as (Hl & Hby).
    destruct (bs_alloc_law unit s (fun _ => Ok (b, tt)) b tt Hok eq_refl Hl Hby) as (id & s' & -> & Hok' & Hsz & Hn & Hv).
    cbn [mbind result_bind]. eexists _, _. split; [done|]. split_and!; [done|done|]. by econstructor.
Qed.

(** Each operation of the run is allowed in the state it is issued in. *)
Fixpoint ops_ok (s : S) (out : list (list Z)) (ops : list store_op) : Prop :=
  match ops with
  | [] => True
  | op :: ops => op_ok s op /\ forall s' out', run_op (s, out) op = Ok (s', out') -> ops_ok s' out' ops
  end.

Inductive spec_run : (Z -> option (list Z)) * list (list Z) -> list store_op ->
    (Z -> option (list Z)) * list (list Z) -> Prop :=
  | sr_nil st : spec_run st [] st
  | sr_cons st op st1 ops st2 : spec_op st op st1 -> spec_run st1 ops st2 -> spec_run st (op :: ops) st2.

Lemma run_refines ops s out :
  bs_ok s -> ops_ok s out ops ->
  exists s' out', foldM run_op (s, out) ops = Ok (s', out') /\ bs_ok s' /\
    spec_run (bs_view s, out) ops (bs_view s', out').
Proof.
  revert s out. induction ops as [|op ops IH]; intros s out Hok Hops; cbn [foldM].
  - exists s, out. split_and!; [done|done|constructor].
  - destruct Hops as [Hop Hrest]. destruct (run_op_refines s out op Hok Hop) as (s1 & o1 & Hr & Hok1 & _ & Hsp).
    rewrite Hr. cbn [mbind result_bind].
    destruct (IH s1 o1 Hok1 (Hrest _ _ Hr)) as (s2 & o2 & -> & Hok2 & Hsp2).
    exists s2, o2. split_and!; [done|done|]. by econstructor.
Qed.
End Runs.

(** ** Claims *)

(** C2: a buffer manager over a file whose block counter equals the number of
    blocks of the file, with a pool of at least one block and nothing pinned,
    implements a map from block numbers to contents: every sequence of reads and
    whole-block writes of allocated blocks and of allocations succeeds, each
    read returns what was last written, and nothing is lost to eviction. A
    manager opened on a file that already has blocks starts its counter at 0 and
    is not covered ([reopen_reuses_block_numbers]), nor is one without a file
    ([in_memory_eviction_loses_block]). *)
Theorem buffer_manager_refines_map (bm : BufferManager) f ops :
  bm_inv bm f -> quiet bm -> ops_ok bm [] ops ->
  exists bm' out, foldM run_op (bm, []) ops = Ok (bm', out) /\ bm_ok bm' /\
    spec_run (bm_view bm, []) ops (bm_view bm', out).
Proof. intros Hinv Hq Hops. exact (run_refines ops bm [] (ex_intro _ f (conj Hinv Hq)) Hops). Qed.

(** A file of two blocks of four bytes, and a pool for one. *)
Definition two_blocks : BlockFile := bf_open [1; 1; 1; 1; 2; 2; 2; 2]%Z 4 [].

Definition bm_small : BufferManager := mkBM 4 4 0 (Some two_blocks) ∅ [] 2.

Lemma bm_small_inv : bm_inv bm_small two_blocks.
Proof.
  split; try done.
  - split; [simpl; lia|discriminate|reflexivity|constructor].
  - intros id Hid. unfold bf_block, slice.
    apply Forall_take, Forall_drop. repeat constructor; unfold is_u8; lia.
  - intros id. split; [intros H; by apply not_elem_of_nil in H|]. intros (fr & Hfr & _). done.
  - constructor.
Qed.

Lemma buffer_manager_refines_map_witness :
  exists bm' out, foldM run_op (bm_small, []) [OpWrite 0 [9; 9; 9; 9]%Z; OpRead 1; OpRead 0] = Ok (bm', out) /\
    bm_ok bm' /\
    spec_run (bm_view bm_small, []) [OpWrite 0 [9; 9; 9; 9]%Z; OpRead 1; OpRead 0] (bm_view bm', out).
Proof.
  apply (buffer_manager_refines_map bm_small two_blocks); [apply bm_small_inv|done|].
  split; [split_and!; [by eexists|reflexivity|repeat constructor; unfold is_u8; lia]|].
  intros s1 o1 H1. vm_compute in H1. injection H1 as <- <-.
  split; [by eexists|]. intros s2 o2 H2. vm_compute in H2. injection H2 as <- <-.
  split; [by eexists|]. done.
Defined.

(** [Pin] of a block that is not in the pool makes room unless the pinned
    frames fill the pool, and then throws. *)
Theorem pin_miss_iff_room bm f id :
  bm_inv bm f -> pool_ bm !! id = None -> (0 <= id < block_count_ f)%Z ->
  (room_for_one bm /\ exists bm', Pin bm id = Ok bm') \/
  (~ room_for_one bm /\ Pin bm id = Err (RuntimeError "BufferManager: all blocks pinned, cannot evict")).
Proof.
  intros Hinv Hnone Hid. unfold Pin. rewrite Hnone. unfold EnsureSpace.
  destruct (decide (room_for_one bm)) as [Hr|Hr].
  - left. split; [done|].
    destruct (EnsureSpace_loop_Ok (S (length (lru_list_ bm))) bm f Hinv Hr) as (bm1 & f1 & -> & Hinv1 & (Hc & _) & _); [lia|].
    cbn [mbind result_bind]. destruct (load_block_Ok bm1 f1 id Hinv1) as (f2 & -> & _); [lia|].
    cbn [mbind result_bind]. eauto.
  - right. split; [done|]. rewrite (EnsureSpace_loop_full _ bm f) by (done || lia). done.
Qed.

Lemma pin_miss_iff_room_witness :
  Pin bm_small 1 <> Err (RuntimeError "BufferManager: all blocks pinned, cannot evict").
Proof.
  destruct (pin_miss_iff_room bm_small two_blocks 1 bm_small_inv eq_refl) as [[_ [bm' ->]]|[Hr _]]; [by vm_compute|done|].
  exfalso. apply Hr. vm_compute. discriminate.
Defined.

(** The state after one frame has been written back. *)
Lemma clean_frame_inv bm f f' id fr :
  bm_inv bm f -> pool_ bm !! id = Some fr -> file_updated f id (buffer fr) f' ->
  let bm' := bm_with bm (used_bytes_ bm) (Some f')
    (<[id := mkFrame (buffer fr) (pin_count fr) false (in_lru fr)]> (pool_ bm)) (lru_list_ bm) in
  bm_inv bm' f' /\ same_blocks bm f bm' f'.
Proof.
  intros [Hf Hwf Hsz Hnx Hroom Hfrs Hblk Hlru Hnd Hused Hbud] Hfr (Hwf' & Hsz' & Hc' & Hsame & Hoth) bm'.
  destruct (Hfrs id fr Hfr) as [Hid Hbuf Hpin Hil _].
  split; [split|split_and!]; simpl; try done; try congruence.
  - intros i fi. destruct (decide (id = i)) as [<-|Hne].
    + rewrite lookup_insert_eq. intros [= <-]. split; simpl; try done. lia.
    + rewrite lookup_insert_ne by done. intros Hi. destruct (Hfrs i fi Hi) as [Hid' ? ? ? Hcl].
      split; simpl; try done; [lia|]. rewrite Hoth by done. done.
  - intros i Hi. destruct (decide (i = id)) as [->|Hne].
    + rewrite Hsame. apply Hbuf.
    + rewrite Hoth by (done || lia). apply Hblk. lia.
  - intros x. rewrite Hlru. destruct (decide (id = x)) as [<-|Hne].
    + rewrite lookup_insert_eq, Hfr. split; intros (? & [= <-] & ?); eauto.
    + by rewrite lookup_insert_ne.
  - by rewrite map_size_insert_Some by eauto.
  - intros i Hi. unfold bm_block. simpl. destruct (decide (id = i)) as [<-|Hne].
    + by rewrite lookup_insert_eq, Hfr.
    + rewrite lookup_insert_ne by done. destruct (pool_ bm !! i); [done|]. apply Hoth; congruence || done.
Qed.

Lemma flush_one_Ok bm f id fr :
  bm_inv bm f -> pool_ bm !! id = Some fr ->
  exists bm' f', flush_one bm (id, fr) = Ok bm' /\ bm_inv bm' f' /\ same_blocks bm f bm' f' /\
    (exists fr', pool_ bm' !! id = Some fr' /\ dirty fr' = false) /\
    (forall i, i <> id -> pool_ bm' !! i = pool_ bm !! i).
Proof.
  intros Hinv Hfr. unfold flush_one. rewrite (inv_file _ _ Hinv).
  destruct (dirty fr) eqn:Hd; cycle 1.
  { exists bm, f. split_and!; try done. by exists fr. }
  destruct (write_back_Ok bm f id fr Hinv Hfr) as (f' & Hw & Hu). unfold write_back in Hw. rewrite Hd in Hw.
  destruct (WriteBlock f id (buffer fr)) as [f1|e]; [|done]. cbn in Hw. injection Hw as ->.
  cbn [mbind result_bind]. destruct (clean_frame_inv bm f f' id fr Hinv Hfr Hu) as [Hinv' Hs].
  eexists _, f'. split; [done|]. split_and!; [done|done| |].
  - eexists. simpl. by rewrite lookup_insert_eq.
  - intros i Hne. simpl. by rewrite lookup_insert_ne.
Qed.

Lemma flush_loop_Ok l bm f :
  bm_inv bm f -> NoDup l.*1 -> (forall id fr, (id, fr) ∈ l -> pool_ bm !! id = Some fr) ->
  exists bm' f', foldM flush_one bm l = Ok bm' /\ bm_inv bm' f' /\ same_blocks bm f bm' f' /\
    (forall id, id ∈ l.*1 -> exists fr', pool_ bm' !! id = Some fr' /\ dirty fr' = false) /\
    (forall id, id ∉ l.*1 -> pool_ bm' !! id = pool_ bm !! id).
Proof.
  revert bm f. induction l as [|[id fr] l IH]; intros bm f Hinv Hnd Hl; cbn [foldM].
  { exists bm, f. split_and!; try done. intros ? H. by apply not_elem_of_nil in H. }
  simpl in Hnd. apply NoDup_cons in Hnd as [Hnot Hnd].
  destruct (flush_one_Ok bm f id fr Hinv) as (bm1 & f1 & -> & Hinv1 & Hs1 & Hcl & Hoth); [apply Hl; by left|].
  cbn [mbind result_bind].
  destruct (IH bm1 f1 Hinv1 Hnd) as (bm2 & f2 & -> & Hinv2 & Hs2 & Hcl2 & Hoth2).
  { intros i fi Hi. rewrite Hoth; [apply Hl; by right|]. intros ->. destruct Hnot.
    by apply (list_elem_of_fmap_2 fst _ _ Hi). }
  exists bm2, f2. split_and!; try done; [by eapply same_blocks_trans| |].
  - intros i. simpl. rewrite elem_of_cons. intros [->|Hi]; [|auto]. by rewrite Hoth2.
  - intros i. simpl. rewrite not_elem_of_cons. intros [Hne Hi]. rewrite Hoth2 by done. auto.
Qed.

(** After [Flush] the file alone holds the current contents of every
    block, so nothing depends on the pool any more. *)
Theorem flush_makes_durable bm f :
  bm_inv bm f ->
  exists bm' f', Flush bm = Ok bm' /\ file_ bm' = Some f' /\
    (forall id, (0 <= id < block_count_ f)%Z -> bf_block f' id = bm_block bm f id) /\
    (forall id fr, pool_ bm' !! id = Some fr -> dirty fr = false).
Proof.
  intros Hinv. unfold Flush.
  destruct (flush_loop_Ok (map_to_list (pool_ bm)) bm f Hinv) as (bm' & f' & -> & Hinv' & (Hc & _ & _ & Hv) & Hcl & Hoth).
  - apply NoDup_fst_map_to_list.
  - intros id fr. apply elem_of_map_to_list.
  - assert (forall id fr, pool_ bm' !! id = Some fr -> dirty fr = false) as Hclean.
    { intros id fr Hfr. destruct (decide (id ∈ (map_to_list (pool_ bm)).*1)) as [Hin|Hin].
      - destruct (Hcl id Hin) as (fr' & Hfr' & Hd). by simplify_eq.
      - rewrite Hoth in Hfr by done. destruct Hin. apply elem_of_map_to_list in Hfr.
        by apply (list_elem_of_fmap_2 fst _ _ Hfr). }
    exists bm', f'. split_and!; [done|apply Hinv'| |done]. intros id Hid. rewrite <- Hv by done.
    unfold bm_block. destruct (pool_ bm' !! id) as [fr|] eqn:Hfr; [|done].
    destruct (inv_frames _ _ Hinv' id fr Hfr) as [_ _ _ _ Hb]. symmetry. eauto.
Qed.

Lemma flush_makes_durable_witness :
  exists bm' f', Flush bm_small = Ok bm' /\ file_ bm' = Some f' /\
    (forall id, (0 <= id < 2)%Z -> bf_block f' id = bm_block bm_small two_blocks id) /\
    (forall id fr, pool_ bm' !! id = Some fr -> dirty fr = false).
Proof. apply (flush_makes_durable bm_small two_blocks). apply bm_small_inv. Defined.

(** A manager opened on an existing file hands out block numbers that are
    already in use: its counter restarts at 0 while the file keeps its blocks,
    so the first allocation returns block 0, and the data written to it
    replaces what the file held there. *)
Theorem reopen_reuses_block_numbers :
  match alloc_block (BM_new 8 4 (Some two_blocks)) (fun _ => Ok ([7; 7; 7; 7]%Z, tt)) with
  | Ok (id, _, bm) =>
      id = 0%Z /\ bf_block two_blocks 0 = [1; 1; 1; 1]%Z /\
      exists bm', read_block bm 0 = Ok ([7; 7; 7; 7]%Z, bm')
  | Err _ => False
  end.
Proof. vm_compute. split_and!; [done|done|]. by eexists. Qed.

(** Without a file eviction loses data: with room for one block, writing
    a block, allocating a second one and reading the first one back returns
    zeros. *)
Theorem in_memory_eviction_loses_block :
  match alloc_block (BM_new 4 4 None) (fun _ => Ok ([7; 7; 7; 7]%Z, tt)) with
  | Ok (id, _, bm) =>
      match alloc_block bm (fun _ => Ok ([8; 8; 8; 8]%Z, tt)) with
      | Ok (_, _, bm) => exists bm', read_block bm id = Ok ([0; 0; 0; 0]%Z, bm')
      | Err _ => False
      end
  | Err _ => False
  end.
Proof. vm_compute. by eexists. Qed.
