(* ===== verification/ColumnChunk.v ===== *)
(** * Column chunks

    [storage/column/column_segment.hpp], [column_chunk.hpp] and
    [column_chunk.cpp]: the values of one column of a row group, in compressed
    segments (one block of the buffer manager each) followed by an in-memory
    pending vector.

    The operations are written against the [BlockStore] interface.  A chunk
    represents the list of the column's rows ([chunk_rep]); each operation is
    related to a list operation on it: appending, reading a range, gathering
    rows, overwriting rows, truncating the pending rows.  The zone map is
    sound when the statistics of a segment cover its rows; the last claim
    shows an append after which they do not. *)

From Stdlib Require Import ZArith.
From stdpp Require Import base strings list sorting.
From S2P Require Import Prelude Types BitPacking Bitmap Compression BufferManager.

(** ** Data *)

Record SegmentStats : Type := mkStats {
  min_val : Value;
  max_val : Value;
  has_nulls : bool;
}.

Definition Stats_empty : SegmentStats := mkStats (Value_Null INVALID) (Value_Null INVALID) false.

Record ColumnSegment : Type := mkSegment {
  block_id : Z;
  compression : CompressionType;
  column_type : TypeId;
  row_count : nat;
  row_offset : nat;
  stats : SegmentStats;
}.

(** The buffer manager a chunk refers to is passed to its operations. *)
Record ColumnChunk : Type := mkCC {
  type_ : TypeId;
  segments_ : list ColumnSegment;
  pending_data_ : DataVector;
  pending_row_offset_ : nat;
  combined_stats_ : SegmentStats;
}.

Definition CC_new (t : TypeId) : ColumnChunk := mkCC t [] (Reset t 0) 0 Stats_empty.

Inductive ScanPredicateOp : Type := EQ | LT | LE | GT | GE.

Record ScanPredicate : Type := mkPred {
  pred_col_idx : nat;
  pred_op : ScanPredicateOp;
  pred_bound : Value;
}.

(** ** Copying and statistics *)

(** [resize(dst_start + count)] and the copy of [count] elements: the copy of
    elements the source array does not have is undefined. *)
Definition bulk_copy (dst_start src_start count : nat) (A : Type) (d : A) (dst src : list A)
    : result (list A) :=
  if decide (src_start + count <= length src)
  then Ok (take dst_start (vec_resize (dst_start + count) d dst) ++ slice src_start count src)
  else Err UndefinedBehaviour.

Definition copy_valid (src : DataVector) (src_start dst_start : nat) (dst : DataVector) (j : nat)
    : result DataVector :=
  if IsNull src (src_start + j) then Ok dst else SetValid dst (dst_start + j).

Definition BulkCopyRows (dst src : DataVector) (src_start count : nat) : result DataVector :=
  let dst_start := dv_count dst in
  dst ← on_storage (dv_type src) (bulk_copy dst_start src_start count) dst src;
  dst ← foldM (copy_valid src src_start dst_start) dst (seq 0 count);
  Ok (with_count (dst_start + count) dst).

(** The value of row [i] as the statistics see it. *)
Definition stats_value (t : TypeId) (vec : DataVector) (i : nat) : result Value :=
  match storage_of t with
  | SStr => Value_Varchar <$> of_option UndefinedBehaviour (str_data vec !! i)
  | SFloat => Value_Float <$> of_option UndefinedBehaviour (float_data vec !! i)
  | _ => Value_Integer <$> of_option UndefinedBehaviour (int_data vec !! i)
  end.

Definition stats_step (t : TypeId) (vec : DataVector) (st : SegmentStats) (i : nat) : result SegmentStats :=
  if IsNull vec i then Ok (mkStats (min_val st) (max_val st) true) else
  v ← stats_value t vec i;
  lo ← (if Value_IsNull (min_val st) then Ok true else Value_lt v (min_val st));
  hi ← (if Value_IsNull (max_val st) then Ok true else Value_lt (max_val st) v);
  Ok (mkStats (if lo : bool then v else min_val st) (if hi : bool then v else max_val st) (has_nulls st)).

Definition BuildStats (t : TypeId) (vec : DataVector) : result SegmentStats :=
  foldM (stats_step t vec) Stats_empty (seq 0 (dv_count vec)).

Definition UpdateCombinedStats (cc : ColumnChunk) (vec : DataVector) (count : nat) : result ColumnChunk :=
  st ← foldM (stats_step (type_ cc) vec) (combined_stats_ cc) (seq 0 count);
  Ok (mkCC (type_ cc) (segments_ cc) (pending_data_ cc) (pending_row_offset_ cc) st).

(** ** Row counts and positions *)

Definition SegmentRowCount (cc : ColumnChunk) : nat := list_sum (row_count <$> segments_ cc).
Definition RowCount (cc : ColumnChunk) : nat := SegmentRowCount cc + dv_count (pending_data_ cc).

Definition or_r (a : result bool) (b : result bool) : result bool :=
  x ← a; if x : bool then Ok true else b.

(** The condition under which a segment cannot hold a row with
    [col op bound]. *)
Definition excluded (st : SegmentStats) (op : ScanPredicateOp) (bound : Value) : result bool :=
  let mn := min_val st in let mx := max_val st in
  if negb (Value_IsNull mn) && negb (Value_IsNull mx) && bool_decide (vtype mn = vtype bound) then
    match op with
    | EQ => or_r (Value_lt bound mn) (Value_lt mx bound)
    | GT => negb <$> Value_lt bound mx
    | GE => Value_lt mx bound
    | LT => negb <$> Value_lt mn bound
    | LE => Value_lt bound mn
    end
  else Ok false.

Fixpoint zone_map_loop (segs : list ColumnSegment) (cur row_offset : nat) (op : ScanPredicateOp)
    (bound : Value) : result nat :=
  match segs with
  | [] => Ok 0
  | seg :: segs =>
      let end_ := cur + row_count seg in
      if decide (row_offset < end_) then
        ex ← excluded (stats seg) op bound;
        Ok (if ex : bool then end_ - row_offset else 0)
      else zone_map_loop segs end_ row_offset op bound
  end.

Definition ZoneMapSkipRows (cc : ColumnChunk) (row_offset : nat) (op : ScanPredicateOp) (bound : Value)
    : result nat := zone_map_loop (segments_ cc) 0 row_offset op bound.

(** The cursor: the segment ([length segments_] for the pending data) and the
    next row in it.  The scratch vector of the source is overwritten by every
    decompression and carries no state. *)
Record ColumnScanState : Type := mkScan { segment_idx : nat; row_in_segment : nat }.

Fixpoint scan_state_loop (segs : list ColumnSegment) (i cur row_offset : nat) : ColumnScanState :=
  match segs with
  | [] => mkScan i (row_offset - cur)
  | seg :: segs =>
      let end_ := cur + row_count seg in
      if decide (row_offset < end_) then mkScan i (row_offset - cur)
      else scan_state_loop segs (S i) end_ row_offset
  end.

Definition MakeScanState (cc : ColumnChunk) (row_offset : nat) : ColumnScanState :=
  scan_state_loop (segments_ cc) 0 0 row_offset.

(** ** Operations on the store *)

Section Operations.
Context {S : Type} {BSops : BlockStore S}.

(** [min(want, total - pos)], where the subtraction of unsigned integers
    wraps to a huge value when [pos] is past the end. *)
Definition to_copy (want total pos : nat) : nat :=
  if decide (pos <= total) then Nat.min want (total - pos) else want.

Definition seg_vector (s : S) (t : TypeId) (seg : ColumnSegment) : result (DataVector * S) :=
  '(buf, s) ← bs_read s (block_id seg); v ← Decompress buf t; Ok (v, s).

(** The loop of [Scan]: every round but the last finishes a segment, so
    [length segments_ + 2] rounds are enough. *)
Fixpoint Scan_loop (fuel : nat) (s : S) (cc : ColumnChunk) (st : ColumnScanState) (want : nat)
    (out : DataVector) : result (S * DataVector) :=
  if decide (want = 0) then Ok (s, out) else
  match fuel with
  | 0 => Err UndefinedBehaviour   (* not reached *)
  | Datatypes.S fuel =>
    let i := segment_idx st in let r := row_in_segment st in
    match segments_ cc !! i with
    | Some seg =>
        '(v, s) ← seg_vector s (type_ cc) seg;
        let n := to_copy want (row_count seg) r in
        out ← BulkCopyRows out v r n;
        let st := if decide (row_count seg <= r + n) then mkScan (Datatypes.S i) 0 else mkScan i (r + n) in
        Scan_loop fuel s cc st (want - n) out
    | None =>
        if decide (i = length (segments_ cc)) then
          let total := dv_count (pending_data_ cc) in
          if decide (r = total) then Ok (s, out) else
          let n := to_copy want total r in
          out ← BulkCopyRows out (pending_data_ cc) r n;
          let st := if decide (total <= r + n) then mkScan (Datatypes.S i) 0 else mkScan i (r + n) in
          Scan_loop fuel s cc st (want - n) out
        else Ok (s, out)
    end
  end.

(** The rows read are those of the result vector. *)
Definition Scan (s : S) (cc : ColumnChunk) (st : ColumnScanState) (count : nat) : result (S * DataVector) :=
  Scan_loop (length (segments_ cc) + 2) s cc st count (Reset (type_ cc) 0).

Definition Flush (s : S) (cc : ColumnChunk) : result (S * ColumnChunk) :=
  let p := pending_data_ cc in
  if decide (dv_count p = 0) then Ok (s, cc) else
  choice ← SelectCompression p;
  '(id, _, s) ← bs_alloc s (fun buf => Compress choice p buf);
  let seg := mkSegment id (cc_type choice) (type_ cc) (dv_count p) (pending_row_offset_ cc) (combined_stats_ cc) in
  Ok (s, mkCC (type_ cc) (segments_ cc ++ [seg]) (Reset (type_ cc) 0)
           (pending_row_offset_ cc + dv_count p) (combined_stats_ cc)).

Definition set_pending (cc : ColumnChunk) (v : DataVector) : ColumnChunk :=
  mkCC (type_ cc) (segments_ cc) v (pending_row_offset_ cc) (combined_stats_ cc).

(** Each round of the append loop copies at least one row. *)
Fixpoint append_loop (fuel : nat) (s : S) (cc : ColumnChunk) (vec : DataVector) (count src_pos : nat)
    : result (S * ColumnChunk) :=
  if decide (count <= src_pos) then Ok (s, cc) else
  match fuel with
  | 0 => Err UndefinedBehaviour   (* not reached *)
  | Datatypes.S fuel =>
    '(s, cc) ← (if decide (STANDARD_VECTOR_SIZE <= dv_count (pending_data_ cc)) then Flush s cc else Ok (s, cc));
    let space := STANDARD_VECTOR_SIZE - dv_count (pending_data_ cc) in
    let batch := Nat.min (count - src_pos) space in
    p ← BulkCopyRows (pending_data_ cc) vec src_pos batch;
    append_loop fuel s (set_pending cc p) vec count (src_pos + batch)
  end.

Definition AppendFromVector (s : S) (cc : ColumnChunk) (vec : DataVector) (count : nat)
    : result (S * ColumnChunk) :=
  '(s, cc) ← append_loop count s cc vec count 0;
  cc ← UpdateCombinedStats cc vec count;
  Ok (s, cc).

Definition TruncatePending (cc : ColumnChunk) (new_count : nat) : result ColumnChunk :=
  let p := pending_data_ cc in
  if decide (dv_count p <= new_count) then Ok cc else
  p' ← foldM SetNull p (seq new_count (dv_count p - new_count));
  Ok (set_pending cc (with_count new_count p')).

(** [offset - start] on unsigned integers: an offset before [start] wraps and
    is used as an index past every array. *)
Definition local_index (offset start : nat) : result nat :=
  if decide (start <= offset) then Ok (offset - start) else Err UndefinedBehaviour.

(** The longest prefix of the offsets below [end_]. *)
Fixpoint split_offsets {A} (off : A -> nat) (end_ : nat) (l : list A) : list A * list A :=
  match l with
  | [] => ([], [])
  | x :: l' => if decide (off x < end_) then let '(a, b) := split_offsets off end_ l' in (x :: a, b)
               else ([], l)
  end.

Definition copy_one (src : DataVector) (start : nat) (out : DataVector) (offset : nat) : result DataVector :=
  i ← local_index offset start; BulkCopyRows out src i 1.

Fixpoint scan_rows_loop (s : S) (t : TypeId) (segs : list ColumnSegment) (pending : DataVector)
    (start : nat) (offsets : list nat) (out : DataVector) : result (S * DataVector) :=
  match segs with
  | [] => out ← foldM (copy_one pending start) out offsets; Ok (s, out)
  | seg :: segs =>
      let end_ := start + row_count seg in
      let '(batch, rest) := split_offsets id end_ offsets in
      '(s, out) ← (match batch with
                   | [] => Ok (s, out)
                   | _ => '(v, s) ← seg_vector s t seg;
                          out ← foldM (copy_one v start) out batch; Ok (s, out)
                   end);
      scan_rows_loop s t segs pending end_ rest out
  end.

Definition ScanRows (s : S) (cc : ColumnChunk) (offsets : list nat) : result (S * DataVector) :=
  let out := Reset (type_ cc) 0 in
  if decide (offsets = []) then Ok (s, out)
  else scan_rows_loop s (type_ cc) (segments_ cc) (pending_data_ cc) 0 offsets out.

(** ** Overwriting rows *)

Definition store_elem (idx si : nat) (A : Type) (_ : A) (dst src : list A) : result (list A) :=
  x ← of_option UndefinedBehaviour (src !! si);
  if decide (idx < length dst) then Ok (<[idx := x]> dst) else Err UndefinedBehaviour.

Definition write_value (t : TypeId) (src : DataVector) (target : DataVector) (idx src_idx : nat)
    : result DataVector :=
  if IsNull src src_idx then SetNull target idx
  else target ← SetValid target idx; on_storage t (store_elem idx src_idx) target src.

(** Decompress a segment, edit its rows, and compress it again into its block. *)
Definition rewrite_segment (s : S) (t : TypeId) (seg : ColumnSegment) (edit : DataVector -> result DataVector)
    : result (S * ColumnSegment) :=
  '((c, v), s) ← bs_update s (block_id seg) (fun buf =>
      v ← Decompress buf t;
      v ← edit v;
      choice ← (if decide (compression seg = UNCOMPRESSED) then Ok (mkChoice UNCOMPRESSED 0)
                else SelectCompression v);
      '(buf, _) ← Compress choice v buf;
      Ok (buf, (cc_type choice, v)));
  st ← BuildStats t v;
  Ok (s, mkSegment (block_id seg) c (column_type seg) (row_count seg) (row_offset seg) st).

Fixpoint write_row_loop (s : S) (t : TypeId) (segs : list ColumnSegment) (pending : DataVector)
    (cur offset : nat) (src : DataVector) (src_idx : nat)
    : result (S * list ColumnSegment * DataVector) :=
  match segs with
  | [] =>
      let i := offset - cur in
      if decide (dv_count pending <= i)
      then Err (RuntimeError "ColumnChunk::WriteRow: row_offset out of range")
      else p ← write_value t src pending i src_idx; Ok (s, [], p)
  | seg :: segs =>
      let end_ := cur + row_count seg in
      if decide (offset < end_) then
        '(s, seg) ← rewrite_segment s t seg (fun v => write_value t src v (offset - cur) src_idx);
        Ok (s, seg :: segs, pending)
      else
        '(s, segs, p) ← write_row_loop s t segs pending end_ offset src src_idx;
        Ok (s, seg :: segs, p)
  end.

Definition with_parts (cc : ColumnChunk) (segs : list ColumnSegment) (p : DataVector) : ColumnChunk :=
  mkCC (type_ cc) segs p (pending_row_offset_ cc) (combined_stats_ cc).

Definition WriteRow (s : S) (cc : ColumnChunk) (offset : nat) (src : DataVector) (src_idx : nat)
    : result (S * ColumnChunk) :=
  '(s, segs, p) ← write_row_loop s (type_ cc) (segments_ cc) (pending_data_ cc) 0 offset src src_idx;
  Ok (s, with_parts cc segs p).

(** A write is a row offset with the source row that goes there. *)
Definition write_one (t : TypeId) (src : DataVector) (start : nat) (v : DataVector) (w : nat * nat)
    : result DataVector :=
  i ← local_index w.1 start; write_value t src v i w.2.

Definition write_pending (t : TypeId) (src : DataVector) (cur : nat) (p : DataVector) (w : nat * nat)
    : result DataVector :=
  let oor := RuntimeError "ColumnChunk::WriteRows: row_offset out of range" in
  if decide (w.1 < cur) then Err oor else
  if decide (dv_count p <= w.1 - cur) then Err oor else write_value t src p (w.1 - cur) w.2.

Fixpoint write_rows_loop (s : S) (t : TypeId) (segs : list ColumnSegment) (pending : DataVector)
    (cur : nat) (src : DataVector) (ws : list (nat * nat))
    : result (S * list ColumnSegment * DataVector) :=
  match segs with
  | [] => p ← foldM (write_pending t src cur) pending ws; Ok (s, [], p)
  | seg :: segs =>
      let end_ := cur + row_count seg in
      let '(batch, rest) := split_offsets fst end_ ws in
      '(s, seg) ← (match batch with
                   | [] => Ok (s, seg)
                   | _ => rewrite_segment s t seg (fun v => foldM (write_one t src cur) v batch)
                   end);
      '(s, segs, p) ← write_rows_loop s t segs pending end_ src rest;
      Ok (s, seg :: segs, p)
  end.

Fixpoint non_decreasing (l : list nat) : bool :=
  match l with
  | x :: (y :: _) as l' => bool_decide (x <= y) && non_decreasing l'
  | _ => true
  end.

Definition WriteRows (s : S) (cc : ColumnChunk) (offsets : list nat) (src : DataVector)
    : result (S * ColumnChunk) :=
  if decide (offsets = []) then Ok (s, cc) else
  _ ← require (bool_decide (dv_count src = length offsets))
        (RuntimeError "ColumnChunk::WriteRows: src.count must match row_offsets.size()");
  _ ← require (non_decreasing offsets)
        (RuntimeError "ColumnChunk::WriteRows: row_offsets must be non-decreasing");
  '(s, segs, p) ← write_rows_loop s (type_ cc) (segments_ cc) (pending_data_ cc) 0 src
                    (zip offsets (seq 0 (length offsets)));
  Ok (s, with_parts cc segs p).
End Operations.

(** ** Copying rows *)

Lemma copy_valid_loop src start ds v n :
  ds + n <= STANDARD_VECTOR_SIZE -> (forall j, ds <= j -> IsNull v j = true) ->
  exists v', foldM (copy_valid src start ds) v (seq 0 n) = Ok v' /\
    cells v' = cells v /\ dv_type v' = dv_type v /\ dv_count v' = dv_count v /\
    (forall j, j < ds -> IsNull v' j = IsNull v j) /\
    (forall j, j < n -> IsNull v' (ds + j) = IsNull src (start + j)) /\
    (forall j, ds + n <= j -> IsNull v' j = true).
Proof.
  intros Hle Hnull.
  destruct (foldM_invariant (fun pre v' =>
      cells v' = cells v /\ dv_type v' = dv_type v /\ dv_count v' = dv_count v /\
      (forall j, j < ds -> IsNull v' j = IsNull v j) /\
      (forall j, j < length pre -> IsNull v' (ds + j) = IsNull src (start + j)) /\
      (forall j, ds + length pre <= j -> IsNull v' j = true))
    (copy_valid src start ds) v (seq 0 n)) as (v' & Hv' & Hinv).
  - simpl. split_and!; try done; [lia|]. intros j Hj. apply Hnull. lia.
  - intros pre x v1 (Hc & Ht & Hn & Hlo & Hmid & Hhi) [suf Hseq].
    assert (x = length pre /\ x < n) as [-> Hx].
    { assert (seq 0 n !! length pre = Some x) as Hl by (rewrite Hseq; by apply list_lookup_middle).
      apply lookup_seq in Hl. lia. }
    unfold copy_valid. destruct (IsNull src (start + length pre)) eqn:HN.
    + exists v1. rewrite length_app. simpl. split_and!; try done.
      * intros j Hj. destruct (decide (j = length pre)) as [->|]; [|apply Hmid; lia].
        rewrite Hhi by lia. done.
      * intros j Hj. apply Hhi. lia.
    + destruct (SetValid_Ok v1 (ds + length pre)) as (v2 & Hv2 & Hc2 & Ht2 & Hn2 & HN2); [lia|].
      exists v2. rewrite Hv2, length_app. simpl. split_and!; try congruence.
      * intros j Hj. rewrite HN2, bool_decide_eq_false_2 by lia. simpl. auto.
      * intros j Hj. rewrite HN2. destruct (decide (j = length pre)) as [->|].
        { by rewrite bool_decide_eq_true_2, HN by lia. }
        rewrite bool_decide_eq_false_2 by lia. simpl. apply Hmid. lia.
      * intros j Hj. rewrite HN2, bool_decide_eq_false_2 by lia. simpl. apply Hhi. lia.
  - rewrite length_seq in Hinv. exists v'. done.
Qed.

(** The rows a bulk copy adds. *)
Lemma BulkCopyRows_Ok dst src start n :
  dv_wf dst -> storage_of (dv_type src) = storage_of (dv_type dst) ->
  start + n <= length (cells src) -> dv_count dst + n <= STANDARD_VECTOR_SIZE ->
  exists dst', BulkCopyRows dst src start n = Ok dst' /\ dv_wf dst' /\ dv_full dst' /\
    dv_type dst' = dv_type dst /\ dv_rows dst' = dv_rows dst ++ (dv_row src <$> seq start n).
Proof.
  intros [Hst Hcnt Hclr Hcel] Hs Hsrc Hle. unfold BulkCopyRows.
  destruct (on_storage_Ok (fun a b c => length c = dv_count dst + n /\
      (forall j, j < dv_count dst -> j < length a -> c !! j = a !! j) /\
      (forall j, j < n -> c !! (dv_count dst + j) = b !! (start + j)))
    (bulk_copy (dv_count dst) start n) (dv_type src) dst src) as (d1 & -> & (Hl & Hold & Hnew) & Ht1 & Hc1 & Hv1);
    [done|done|done| |].
  { intros A d f a b Ha Hb.
    assert (length b = length (cells src)) as Hlb by (rewrite <- Hb; by rewrite length_fmap).
    unfold bulk_copy. rewrite decide_True by lia. eexists. split; [done|].
    assert (length (take (dv_count dst) (vec_resize (dv_count dst + n) d a)) = dv_count dst) as Hlt
      by (rewrite length_take, length_vec_resize; lia).
    rewrite !length_fmap, length_app, Hlt, length_slice by lia. split_and!; [done| |].
    - intros j Hj Hja. rewrite !list_lookup_fmap, lookup_app_l by lia. f_equal.
      rewrite lookup_take_lt by lia. apply lookup_vec_resize_lt; lia.
    - intros j Hj. rewrite !list_lookup_fmap, lookup_app_r by lia. f_equal.
      rewrite Hlt, lookup_slice by lia. f_equal. lia. }
  cbn [mbind result_bind].
  assert (forall j, IsNull d1 j = IsNull dst j) as HN1 by (intros; unfold IsNull; by rewrite Hv1).
  destruct (copy_valid_loop src start (dv_count dst) d1 n Hle) as (d2 & -> & Hc2 & Ht2 & Hn2 & Hlo & Hmid & Hhi).
  { intros j Hj. rewrite HN1. auto. }
  cbn [mbind result_bind]. eexists. split; [done|].
  assert (forall j, j < dv_count dst -> dv_row d2 j = dv_row dst j) as Hrl.
  { intros j Hj. unfold dv_row. rewrite Hlo, HN1, Hc2 by done. destruct (IsNull dst j) eqn:E; [done|]. auto. }
  assert (cells (with_count (dv_count dst + n) d2) = cells d2) as Hcw by done.
  split_and!; [| |simpl; congruence|].
  - split; simpl; rewrite ?Ht2, ?Ht1, ?Hcw; [done|done| |].
    + intros j Hj. rewrite IsNull_with_count. auto.
    + intros j. rewrite IsNull_with_count, Hc2, Hl. destruct (decide (j < dv_count dst + n)); [lia|].
      rewrite Hhi by lia. done.
  - unfold dv_full. rewrite Hcw, Hc2, Hl. done.
  - apply dv_rows_ext; rewrite length_app, length_dv_rows, length_fmap, length_seq; [done|].
    intros j Hj. change (dv_row (with_count _ d2) j) with (dv_row d2 j).
    destruct (decide (j < dv_count dst)) as [Hlt|Hge].
    + rewrite lookup_app_l by (rewrite length_dv_rows; lia). rewrite lookup_dv_rows by done. by rewrite Hrl.
    + rewrite lookup_app_r by (rewrite length_dv_rows; lia). rewrite length_dv_rows, list_lookup_fmap.
      rewrite lookup_seq_lt by lia. simpl. f_equal. unfold dv_row.
      rewrite <- Hmid, <- Hnew, Hc2 by lia. by replace (dv_count dst + (j - dv_count dst)) with j by lia.
Qed.

(** ** Statistics *)

(** The value of a cell, as the statistics and the predicates see it. *)
Definition cell_value (c : cell) : Value :=
  match c with
  | CInt z => Value_Integer z
  | CFloat b => Value_Float b
  | CStr s => Value_Varchar s
  end.

(** The type of the statistics of a column of type [t]. *)
Definition stat_type (t : TypeId) : TypeId :=
  match storage_of t with SStr => VARCHAR | SFloat => FLOAT64 | _ => INT64 end.

Definition row_ordered (r : option cell) : Prop :=
  match r with Some c => ordered (cell_value c) | None => True end.

Definition bound_typed (t : TypeId) (v : Value) : Prop := Value_wf v /\ vtype v = stat_type t.

(** Not initialised, or two values of the column's type. *)
Definition stats_typed (t : TypeId) (st : SegmentStats) : Prop :=
  (Value_IsNull (min_val st) = true /\ Value_IsNull (max_val st) = true) \/
  (bound_typed t (min_val st) /\ bound_typed t (max_val st)).

(** The statistics cover the rows: no value lies outside [min, max]. *)
Definition covers (t : TypeId) (st : SegmentStats) (rows : list (option cell)) : Prop :=
  stats_typed t st /\
  (forall c, Some c ∈ rows -> bound_typed t (min_val st) /\ bound_typed t (max_val st) /\
     Value_ltb (cell_value c) (min_val st) = false /\ Value_ltb (max_val st) (cell_value c) = false).

Definition stats_ordered (st : SegmentStats) : Prop := ordered (min_val st) /\ ordered (max_val st).

Lemma bound_typed_not_null t v : bound_typed t v -> Value_IsNull v = false.
Proof.
  intros [_ Hv]. unfold Value_IsNull. rewrite Hv. unfold stat_type.
  by destruct (storage_of t).
Qed.

Lemma dv_row_typed vec i c t :
  storage_of t = storage_of (dv_type vec) -> storage_of t <> SNone -> dv_row vec i = Some c ->
  stats_value t vec i = Ok (cell_value c) /\ bound_typed t (cell_value c).
Proof.
  unfold dv_row, cells, stats_value, bound_typed, stat_type. intros -> Hn.
  destruct (IsNull vec i); [done|]. destruct (storage_of (dv_type vec)); [| | |done].
  all: rewrite list_lookup_fmap; intros (x & -> & ->)%fmap_Some; done.
Qed.

Lemma stats_step_Ok t vec st i rows :
  storage_of t = storage_of (dv_type vec) -> storage_of t <> SNone -> dv_readable vec i ->
  covers t st rows ->
  exists st', stats_step t vec st i = Ok st' /\ covers t st' (rows ++ [dv_row vec i]) /\
    (stats_ordered st -> row_ordered (dv_row vec i) -> stats_ordered st').
Proof.
  intros Hst Hn Hread (Hty & Hcov). unfold stats_step, dv_readable, stats_ordered in *.
  destruct (IsNull vec i) eqn:HN.
  { eexists. split; [done|]. assert (dv_row vec i = None) as -> by (unfold dv_row; by rewrite HN).
    split; [|done]. split; [done|].
    intros c. rewrite elem_of_app, list_elem_of_singleton. intros [Hc|]; [|done]. by apply Hcov. }
  destruct (dv_row vec i) as [c|] eqn:Hrow; cycle 1.
  { unfold dv_row in Hrow. rewrite HN in Hrow. apply lookup_ge_None in Hrow. specialize (Hread eq_refl). lia. }
  destruct (dv_row_typed vec i c t Hst Hn Hrow) as [-> Hvt]. cbn [mbind result_bind row_ordered].
  set (v := cell_value c) in *. destruct Hty as [[Hm Hx]|[Hm Hx]].
  - rewrite Hm, Hx. cbn [mbind result_bind]. eexists. split; [done|]. split; [|done]. split; simpl; [by right|].
    intros c'. rewrite elem_of_app, list_elem_of_singleton. intros [Hc'|[= ->]].
    + destruct (Hcov c' Hc') as [Hb _]. apply bound_typed_not_null in Hb. congruence.
    + split_and!; try done; apply Value_ltb_irrefl.
  - rewrite (bound_typed_not_null t _ Hm), (bound_typed_not_null t _ Hx).
    rewrite !Value_lt_wf by (apply Hvt || apply Hm || apply Hx). cbn [mbind result_bind].
    eexists. split; [done|]. split; cycle 1; simpl.
    { intros [? ?] ?. split; [by destruct (Value_ltb v _)|by destruct (Value_ltb _ v)]. }
    assert (bound_typed t (if Value_ltb v (min_val st) then v else min_val st)) as H1 by (by destruct (Value_ltb v _)).
    assert (bound_typed t (if Value_ltb (max_val st) v then v else max_val st)) as H2 by (by destruct (Value_ltb _ v)).
    split; [by right|]. simpl.
    intros c'. rewrite elem_of_app, list_elem_of_singleton. intros Hc'. split_and!; [done|done| |].
    + destruct (Value_ltb v (min_val st)) eqn:E; destruct Hc' as [Hc'|[= ->]].
      * apply not_true_is_false. intros H3. pose proof (Value_ltb_trans _ _ _ H3 E).
        destruct (Hcov c' Hc') as (_ & _ & ? & _). congruence.
      * apply Value_ltb_irrefl.
      * by apply Hcov.
      * done.
    + destruct (Value_ltb (max_val st) v) eqn:E; destruct Hc' as [Hc'|[= ->]].
      * apply not_true_is_false. intros H3. pose proof (Value_ltb_trans _ _ _ E H3).
        destruct (Hcov c' Hc') as (_ & _ & _ & ?). congruence.
      * apply Value_ltb_irrefl.
      * by apply Hcov.
      * done.
Qed.

(** Statistics gathered over the first [n] rows of a vector. *)
Lemma stats_loop_Ok t vec st n rows :
  storage_of t = storage_of (dv_type vec) -> storage_of t <> SNone -> dv_wf vec ->
  covers t st rows ->
  exists st', foldM (stats_step t vec) st (seq 0 n) = Ok st' /\
    covers t st' (rows ++ (dv_row vec <$> seq 0 n)) /\
    (stats_ordered st -> Forall row_ordered (dv_row vec <$> seq 0 n) -> stats_ordered st').
Proof.
  intros Hst Hn Hwf Hcov.
  destruct (foldM_invariant (fun pre st1 => covers t st1 (rows ++ (dv_row vec <$> pre)) /\
                (stats_ordered st -> Forall row_ordered (dv_row vec <$> pre) -> stats_ordered st1))
              (stats_step t vec) st (seq 0 n)) as (st' & Hst' & Hc' & Ho').
  - by rewrite app_nil_r.
  - intros pre x st1 [Hc1 Ho1] _.
    destruct (stats_step_Ok t vec st1 x _ Hst Hn (dv_wf_readable _ _ Hwf) Hc1) as (st2 & -> & Hc2 & Ho2).
    exists st2. split; [done|]. rewrite fmap_app, app_assoc. split; [done|].
    intros Hs [Hp Hx]%Forall_app. apply Forall_inv in Hx. auto.
  - eauto.
Qed.

Lemma covers_nil t st : stats_typed t st -> covers t st [].
Proof. intros Ht. split; [done|]. intros c Hc. by apply not_elem_of_nil in Hc. Qed.

Lemma covers_app_r t st rows rows' : covers t st (rows ++ rows') -> covers t st rows'.
Proof. intros [Ht Hc]. split; [done|]. intros c Hin. apply Hc. apply elem_of_app. by right. Qed.

(** ** Representation: the rows of a chunk *)

Definition row_ok (r : option cell) : Prop := match r with Some c => cell_ok c | None => True end.

(** The scheme chosen for [v] can store it in a block of [n] bytes. *)
Definition storable (n : nat) (v : DataVector) : Prop :=
  exists choice, SelectCompression v = Ok choice /\ scheme_ok choice v /\
    forall block, length block = n -> block_fits choice v block.

(** Every vector of these rows is storable. *)
Definition rows_storable (n : nat) (t : TypeId) (rows : list (option cell)) : Prop :=
  forall v, vec_ok v -> dv_type v = t -> dv_rows v = rows -> storable n v.

Lemma vec_ok_rows v : dv_wf v -> 0 < dv_count v -> Forall row_ok (dv_rows v) -> vec_ok v.
Proof.
  intros Hwf Hpos Hrows. split; [done|done|]. intros i c Hi.
  assert (i < dv_count v) as Hlt.
  { destruct (decide (i < dv_count v)); [done|]. unfold dv_row in Hi. rewrite (wf_clear _ Hwf) in Hi by lia. done. }
  pose proof (lookup_dv_rows v i Hlt) as Hl. rewrite Hi in Hl.
  exact (Forall_lookup_1 _ _ _ _ Hrows Hl).
Qed.

Section Representation.
Context {S : Type} {BSops : BlockStore S} {BSlaws : BlockStoreLaws S}.

Record seg_rep (s : S) (t : TypeId) (seg : ColumnSegment) (v : DataVector) : Prop := {
  sr_block : exists b, bs_view s (block_id seg) = Some b /\ Decompress b t = Ok v;
  sr_wf : dv_wf v;
  sr_full : dv_full v;
  sr_type : dv_type v = t;
  sr_count : dv_count v = row_count seg;
}.

Record pending_ok (cc : ColumnChunk) : Prop := {
  po_wf : dv_wf (pending_data_ cc);
  po_full : dv_full (pending_data_ cc);
  po_type : dv_type (pending_data_ cc) = type_ cc;
}.

(** [vs] are the decoded segments of the chunk. *)
Record chunk_segs (s : S) (cc : ColumnChunk) (vs : list DataVector) : Prop := {
  cs_store : bs_ok s;
  cs_segs : Forall2 (seg_rep s (type_ cc)) (segments_ cc) vs;
  cs_pending : pending_ok cc;
  cs_nodup : NoDup (block_id <$> segments_ cc);
  cs_stats : stats_typed (type_ cc) (combined_stats_ cc);
}.

Definition chunk_rep (s : S) (cc : ColumnChunk) (rows : list (option cell)) : Prop :=
  exists vs, chunk_segs s cc vs /\ rows = concat (dv_rows <$> vs) ++ dv_rows (pending_data_ cc) /\
    Forall row_ok rows.

(** Stores that differ only in new blocks. *)
Definition extends (s s' : S) : Prop :=
  bs_size s' = bs_size s /\ forall id b, bs_view s id = Some b -> bs_view s' id = Some b.

Lemma extends_refl s : extends s s.
Proof. done. Qed.

Lemma extends_trans s1 s2 s3 : extends s1 s2 -> extends s2 s3 -> extends s1 s3.
Proof. intros [? ?] [? ?]. split; [congruence|auto]. Qed.

Lemma seg_rep_extends s s' t seg v :
  (forall b, bs_view s (block_id seg) = Some b -> bs_view s' (block_id seg) = Some b) ->
  seg_rep s t seg v -> seg_rep s' t seg v.
Proof. intros Hv [(b & Hb & Hd) ? ? ? ?]. split; try done. exists b. auto. Qed.

(** A chunk keeps its rows when its blocks are unchanged. *)
Lemma chunk_rep_frame s s' cc rows :
  bs_ok s' ->
  (forall id b, id ∈ block_id <$> segments_ cc -> bs_view s id = Some b -> bs_view s' id = Some b) ->
  chunk_rep s cc rows -> chunk_rep s' cc rows.
Proof.
  intros Hok Hv (vs & [Hst Hsegs Hp Hnd Hstats] & -> & Hrows). exists vs. split; [|done]. split; try done.
  eapply Forall2_impl_in; [exact Hsegs|]. intros seg v Hseg Hr.
  eapply seg_rep_extends; [|done]. intros b. apply Hv. by apply list_elem_of_fmap_2.
Qed.

Lemma chunk_rep_extends s s' cc rows :
  bs_ok s' -> extends s s' -> chunk_rep s cc rows -> chunk_rep s' cc rows.
Proof. intros Hok [_ Hv]. apply chunk_rep_frame; [done|]. auto. Qed.

Lemma segs_length s t segs vs :
  Forall2 (seg_rep s t) segs vs -> length (concat (dv_rows <$> vs)) = list_sum (row_count <$> segs).
Proof.
  induction 1 as [|seg v segs vs Hr _ IH]; [done|]. rewrite !fmap_cons. simpl.
  rewrite length_app, length_dv_rows, (sr_count _ _ _ _ Hr). f_equal. exact IH.
Qed.

Lemma chunk_rep_count s cc rows : chunk_rep s cc rows -> RowCount cc = length rows.
Proof.
  intros (vs & [_ Hsegs _ _ _] & -> & _). rewrite length_app, length_dv_rows.
  by rewrite (segs_length _ _ _ _ Hsegs).
Qed.

Lemma reset_pending_ok t : storage_of t <> SNone ->
  dv_wf (Reset t 0) /\ dv_full (Reset t 0) /\ dv_type (Reset t 0) = t /\ dv_count (Reset t 0) = 0 /\
  dv_rows (Reset t 0) = [].
Proof.
  intros Ht. destruct (Reset0_wf t Ht) as [Hwf Hty]. rewrite dv_rows_Reset0.
  assert (dv_count (Reset t 0) = 0) as H0 by (unfold Reset; by destruct (storage_of t)).
  split_and!; try done. unfold dv_full. rewrite H0. lia.
Qed.

(** A new chunk has no rows. *)
Lemma CC_new_rep s t : bs_ok s -> storage_of t <> SNone -> chunk_rep s (CC_new t) [].
Proof.
  intros Hok Ht. destruct (reset_pending_ok t Ht) as (? & ? & ? & ? & Hr). exists []. split.
  - split; simpl; try done; [constructor|by left].
  - simpl. rewrite Hr. split; [done|constructor].
Qed.

(** What [Flush] does to the parts of a chunk with pending rows. *)
Lemma Flush_segs s cc vs :
  chunk_segs s cc vs -> 0 < dv_count (pending_data_ cc) -> Forall row_ok (dv_rows (pending_data_ cc)) ->
  storable (bs_size s) (pending_data_ cc) ->
  exists s' cc' seg v, Flush s cc = Ok (s', cc') /\ chunk_segs s' cc' (vs ++ [v]) /\ extends s s' /\
    dv_rows v = dv_rows (pending_data_ cc) /\ dv_type v = type_ cc /\
    type_ cc' = type_ cc /\ segments_ cc' = segments_ cc ++ [seg] /\
    pending_data_ cc' = Reset (type_ cc) 0 /\ combined_stats_ cc' = combined_stats_ cc /\
    stats seg = combined_stats_ cc /\ bs_view s (block_id seg) = None.
Proof.
  intros [Hok Hsegs [Hwf Hfull Hty] Hnd Hstats] Hpos Hrows (choice & Hsel & Hsch & Hfit).
  unfold Flush. rewrite decide_False by lia. rewrite Hsel. cbn [mbind result_bind].
  assert (vec_ok (pending_data_ cc)) as Hvok by (by apply vec_ok_rows).
  destruct (Compress_rt choice (pending_data_ cc) (replicate (bs_size s) 0%Z) Hvok Hsch)
    as (b & n & Hcmp & Hlen & Hbytes & v & Hdec & Hvwf & Hvfull & Hvt & Hvr).
  { apply Forall_replicate. unfold is_u8. lia. }
  { apply Hfit. apply length_replicate. }
  rewrite length_replicate in Hlen.
  destruct (bs_alloc_law _ s (fun buf => Compress choice (pending_data_ cc) buf) b n Hok Hcmp Hlen Hbytes)
    as (id & s' & -> & Hok' & Hsz & Hnew & Hview).
  cbn [mbind result_bind].
  assert (extends s s') as Hext.
  { split; [done|]. intros i bi Hi. rewrite Hview. rewrite decide_False; [done|]. intros ->. congruence. }
  pose proof (wf_storage _ Hwf) as Hst'. rewrite Hty in Hst'.
  destruct (reset_pending_ok (type_ cc) Hst') as (Hrwf & Hrfull & Hrty & Hrc & Hrr).
  eexists _, _, _, v. split; [done|]. split_and!; simpl; try done; try congruence.
  split; simpl; try done.
  - apply Forall2_app.
    + eapply Forall2_impl; [exact Hsegs|]. intros seg vi. apply seg_rep_extends. intros bi. apply Hext.
    + constructor; [|constructor]. split; simpl; try done; try congruence.
      * exists b. rewrite Hview, decide_True by done. by rewrite <- Hty.
      * rewrite <- !length_dv_rows. by rewrite Hvr.
  - rewrite fmap_app. simpl. apply NoDup_app. split_and!; [done| |apply NoDup_singleton].
    intros x (seg & -> & Hin)%list_elem_of_fmap Hx%list_elem_of_singleton.
    apply list_elem_of_lookup in Hin as [i Hi].
    destruct (Forall2_lookup_l _ _ _ _ _ Hsegs Hi) as (vi & _ & [(bi & Hbi & _) _ _ _ _]). congruence.
Qed.

Lemma Flush_Ok s cc rows :
  chunk_rep s cc rows -> (0 < dv_count (pending_data_ cc) -> storable (bs_size s) (pending_data_ cc)) ->
  exists s' cc', Flush s cc = Ok (s', cc') /\ chunk_rep s' cc' rows /\ extends s s' /\
    type_ cc' = type_ cc /\ dv_count (pending_data_ cc') = 0 /\
    combined_stats_ cc' = combined_stats_ cc /\
    (forall id, id ∈ block_id <$> segments_ cc' -> id ∈ block_id <$> segments_ cc \/ bs_view s id = None).
Proof.
  intros Hrep Hst. destruct (decide (dv_count (pending_data_ cc) = 0)) as [H0|Hpos].
  { unfold Flush. rewrite decide_True by done. exists s, cc. split_and!; try done. auto. }
  destruct Hrep as (vs & Hs & -> & Hrows). pose proof Hs as [_ _ [Hwf _ Hty] _ _].
  destruct (Flush_segs s cc vs Hs) as (s' & cc' & seg & v & -> & Hs' & Hext & Hvr & _ & Hty' & Hsegs' & Hp' & Hst' & _ & Hnew);
    [lia|by apply Forall_app in Hrows as [_ ?]|apply Hst; lia|].
  pose proof (wf_storage _ Hwf) as Hsto. rewrite Hty in Hsto.
  destruct (reset_pending_ok (type_ cc) Hsto) as (_ & _ & _ & Hrc & Hrr).
  eexists _, _. split; [done|]. split_and!; try done.
  - exists (vs ++ [v]). split_and!; try done.
    rewrite Hp', Hrr, app_nil_r, fmap_app, concat_app. simpl. by rewrite Hvr, app_nil_r.
  - by rewrite Hp'.
  - intros i. rewrite Hsegs', fmap_app, elem_of_app. simpl. rewrite list_elem_of_singleton. intros [?| ->]; auto.
Qed.

Lemma set_pending_rep s cc rows p extra :
  chunk_rep s cc rows -> dv_wf p -> dv_full p -> dv_type p = type_ cc ->
  dv_rows p = dv_rows (pending_data_ cc) ++ extra -> Forall row_ok extra ->
  chunk_rep s (set_pending cc p) (rows ++ extra).
Proof.
  intros (vs & [Hok Hsegs Hp Hnd Hstats] & -> & Hrows) Hwf Hfull Hty Hr Hex. exists vs. split_and!.
  - by split.
  - simpl. by rewrite Hr, app_assoc.
  - by apply Forall_app.
Qed.

Lemma take_add_slice {A} m k (l : list A) : take (m + k) l = take m l ++ slice m k l.
Proof. unfold slice. by rewrite take_take_drop. Qed.

Lemma slice_app_fmap_seq {A} (l : list A) (f : nat -> A) count pos n :
  pos + n <= count -> slice (length l + pos) n (l ++ (f <$> seq 0 count)) = f <$> seq pos n.
Proof.
  intros Hle. unfold slice. rewrite drop_app_ge by lia.
  replace (length l + pos - length l) with pos by lia.
  rewrite <- fmap_drop, <- fmap_take, drop_seq, take_seq. f_equal. f_equal; lia.
Qed.

(** The pending rows are a batch of the chunk's rows. *)
Lemma pending_slice s cc m all :
  chunk_rep s cc (take m all) ->
  exists start, dv_rows (pending_data_ cc) = slice start (dv_count (pending_data_ cc)) all.
Proof.
  intros (vs & _ & Heq & _). exists (length (concat (dv_rows <$> vs))).
  set (sr := concat (dv_rows <$> vs)) in *. set (pr := dv_rows (pending_data_ cc)) in *.
  assert (length pr = dv_count (pending_data_ cc)) as <- by apply length_dv_rows.
  rewrite <- (take_drop m all), Heq. unfold slice.
  rewrite <- app_assoc, drop_app_length. by rewrite take_app_length.
Qed.

Lemma append_loop_Ok fuel s cc vec count pos rows0 :
  let all := rows0 ++ (dv_row vec <$> seq 0 count) in
  dv_wf vec -> storage_of (dv_type vec) = storage_of (type_ cc) -> count <= length (cells vec) ->
  Forall row_ok all -> pos <= count -> count - pos <= fuel ->
  (forall start n, n <= STANDARD_VECTOR_SIZE -> rows_storable (bs_size s) (type_ cc) (slice start n all)) ->
  chunk_rep s cc (take (length rows0 + pos) all) ->
  exists s' cc', append_loop fuel s cc vec count pos = Ok (s', cc') /\ chunk_rep s' cc' all /\
    extends s s' /\ type_ cc' = type_ cc /\
    (forall id, id ∈ block_id <$> segments_ cc' -> id ∈ block_id <$> segments_ cc \/ bs_view s id = None).
Proof.
  intros all Hwf Hsto Hcnt Hrows. revert s cc pos Hsto.
  induction fuel as [|fuel IH]; intros s cc pos Hsto Hpos Hfuel Hstor Hrep; cbn [append_loop].
  1: { rewrite decide_True by lia. exists s, cc. rewrite take_ge in Hrep; [split_and!; try done; auto|].
       unfold all. rewrite length_app, length_fmap, length_seq. lia. }
  destruct (decide (count <= pos)) as [Hdone|Hmore].
  { exists s, cc. rewrite take_ge in Hrep; [split_and!; try done; auto|].
    unfold all. rewrite length_app, length_fmap, length_seq. lia. }
  assert (exists s1 cc1, (if decide (STANDARD_VECTOR_SIZE <= dv_count (pending_data_ cc)) then Flush s cc else Ok (s, cc))
      = Ok (s1, cc1) /\ chunk_rep s1 cc1 (take (length rows0 + pos) all) /\ extends s s1 /\
      type_ cc1 = type_ cc /\ dv_count (pending_data_ cc1) < STANDARD_VECTOR_SIZE /\
      (forall id, id ∈ block_id <$> segments_ cc1 -> id ∈ block_id <$> segments_ cc \/ bs_view s id = None))
    as (s1 & cc1 & -> & Hrep1 & Hext1 & Hty1 & Hlt1 & Hids1).
  { case_decide as Hfull; [|exists s, cc; split_and!; try done; [lia|auto]].
    destruct (Flush_Ok s cc _ Hrep) as (s1 & cc1 & -> & Hrep1 & Hext1 & Hty1 & Hc1 & _ & Hids1).
    - intros Hp. destruct (pending_slice _ _ _ _ Hrep) as [start Hstart].
      destruct Hrep as (vs & [Hok Hsegs [Hpw Hpf Hpt] Hnd Hstats] & Heq & Hro).
      eapply Hstor; [|apply vec_ok_rows; [done|done|]|done|done].
      + apply Hpw.
      + rewrite Heq in Hro. by apply Forall_app in Hro as [_ ?].
    - exists s1, cc1. split_and!; try done. unfold STANDARD_VECTOR_SIZE. lia. }
  cbn [mbind result_bind]. set (batch := Nat.min (count - pos) (STANDARD_VECTOR_SIZE - dv_count (pending_data_ cc1))).
  assert (pending_ok cc1) as [Hpw Hpf Hpt] by (by destruct Hrep1 as (vs & [? ? ? ? ?] & _)).
  destruct (BulkCopyRows_Ok (pending_data_ cc1) vec pos batch Hpw) as (p & -> & Hwp & Hfp & Htp & Hrp);
    [by rewrite Hpt, Hty1|lia|lia|].
  cbn [mbind result_bind].
  destruct (IH s1 (set_pending cc1 p) (pos + batch)) as (s2 & cc2 & -> & Hrep2 & Hext2 & Hty2 & Hids2).
  - simpl. by rewrite Hty1.
  - lia.
  - lia.
  - destruct Hext1 as [Hsz _]. simpl. rewrite Hsz, Hty1. done.
  - rewrite Nat.add_assoc, take_add_slice. unfold all at 2. rewrite slice_app_fmap_seq by lia.
    apply set_pending_rep; try done; [congruence|]. eapply Forall_impl; [|intros r Hr; exact Hr].
    assert (Forall row_ok (dv_row vec <$> seq 0 count)) as Hv by (unfold all in Hrows; by apply Forall_app in Hrows as [_ ?]).
    rewrite Forall_fmap, Forall_seq in Hv |- *. intros j Hj. apply Hv. lia.
  - exists s2, cc2. split_and!; try done; [by eapply extends_trans|by rewrite Hty2|].
    intros id Hid. destruct (Hids2 id Hid) as [Hin|Hnone]; [by apply Hids1|].
    right. destruct (bs_view s id) as [b|] eqn:E; [|done]. apply Hext1 in E. congruence.
Qed.

(** Appending the first [count] rows of a vector appends them to the chunk. *)
Lemma AppendFromVector_Ok s cc vec count rows0 :
  let all := rows0 ++ (dv_row vec <$> seq 0 count) in
  chunk_rep s cc rows0 ->
  dv_wf vec -> storage_of (dv_type vec) = storage_of (type_ cc) -> count <= length (cells vec) ->
  Forall row_ok all ->
  (forall start n, n <= STANDARD_VECTOR_SIZE -> rows_storable (bs_size s) (type_ cc) (slice start n all)) ->
  exists s' cc', AppendFromVector s cc vec count = Ok (s', cc') /\ chunk_rep s' cc' all /\
    extends s s' /\ type_ cc' = type_ cc /\
    (forall id, id ∈ block_id <$> segments_ cc' -> id ∈ block_id <$> segments_ cc \/ bs_view s id = None).
Proof.
  intros all Hrep Hwf Hsto Hcnt Hrows Hstor. unfold AppendFromVector.
  destruct (append_loop_Ok count s cc vec count 0 rows0 Hwf Hsto Hcnt Hrows) as (s1 & cc1 & -> & Hrep1 & Hext & Hty & Hids);
    [lia|lia|done| |].
  { rewrite Nat.add_0_r, take_app_length. done. }
  cbn [mbind result_bind]. destruct Hrep1 as (vs & [Hok Hsegs Hp Hnd Hstats] & Heq & Hro).
  unfold UpdateCombinedStats.
  pose proof (wf_storage _ Hwf) as Hns. rewrite Hsto in Hns.
  destruct (stats_loop_Ok (type_ cc1) vec (combined_stats_ cc1) count []) as (st & -> & [Hst _] & _);
    [by rewrite Hty|by rewrite Hty|done|by apply covers_nil|].
  cbn [mbind result_bind]. eexists _, _. split; [done|]. split_and!; try done.
  exists vs. split_and!; try done. destruct Hp. by split.
Qed.

(** An append that fits in the pending vector touches no block. *)
Lemma append_fits s cc rows vec count :
  chunk_rep s cc rows -> dv_wf vec -> storage_of (dv_type vec) = storage_of (type_ cc) ->
  count <= length (cells vec) -> dv_count (pending_data_ cc) + count <= STANDARD_VECTOR_SIZE ->
  Forall row_ok (dv_row vec <$> seq 0 count) ->
  exists cc', AppendFromVector s cc vec count = Ok (s, cc') /\ type_ cc' = type_ cc /\
    segments_ cc' = segments_ cc /\ dv_count (pending_data_ cc') = dv_count (pending_data_ cc) + count /\
    chunk_rep s cc' (rows ++ (dv_row vec <$> seq 0 count)).
Proof.
  intros Hrep Hwf Hsto Hcnt Hroom Hok.
  assert (pending_ok cc) as [Hpw Hpf Hpt] by (by destruct Hrep as (vs & [? ? ? ? ?] & _)).
  destruct (BulkCopyRows_Ok (pending_data_ cc) vec 0 count Hpw) as (p & Hcopy & Hwp & Hfp & Htp & Hrp);
    [by rewrite Hpt|lia|lia|].
  assert (chunk_rep s (set_pending cc p) (rows ++ (dv_row vec <$> seq 0 count))) as Hrep1
    by (apply set_pending_rep; congruence || done).
  assert (dv_count p = dv_count (pending_data_ cc) + count) as Hcp
    by (rewrite <- length_dv_rows, Hrp, length_app, length_dv_rows, length_fmap, length_seq; done).
  assert (exists cc1, append_loop count s cc vec count 0 = Ok (s, cc1) /\ type_ cc1 = type_ cc /\
      segments_ cc1 = segments_ cc /\ dv_count (pending_data_ cc1) = dv_count (pending_data_ cc) + count /\
      combined_stats_ cc1 = combined_stats_ cc /\ chunk_rep s cc1 (rows ++ (dv_row vec <$> seq 0 count)))
    as (cc1 & Hl & Hty & Hse & Hc1 & Hst1 & Hr1).
  { destruct count as [|count'].
    - exists cc. cbn [append_loop]. rewrite decide_True by lia. simpl. rewrite app_nil_r.
      split_and!; done || lia.
    - remember (Datatypes.S count') as count eqn:Hcount. exists (set_pending cc p). split_and!; try done.
      replace (append_loop count s cc vec count 0) with (append_loop (Datatypes.S count') s cc vec count 0) by (by rewrite Hcount).
      cbn [append_loop]. rewrite !decide_False by lia. cbn [mbind result_bind].
      rewrite Nat.sub_0_r, Nat.min_l by lia. rewrite Hcopy. cbn [mbind result_bind].
      destruct count'; cbn [append_loop]; by rewrite decide_True by lia. }
  unfold AppendFromVector. rewrite Hl. cbn [mbind result_bind]. unfold UpdateCombinedStats.
  pose proof (wf_storage _ Hwf) as Hn. rewrite Hsto in Hn.
  destruct Hr1 as (vs & [Hbs Hsegs Hp1 Hnd Hst] & Heq & Hro).
  destruct (stats_loop_Ok (type_ cc1) vec (combined_stats_ cc1) count []) as (st & -> & [Hst' _] & _);
    [by rewrite Hty|by rewrite Hty|done|by apply covers_nil|].
  cbn [mbind result_bind]. eexists. split; [done|]. split_and!; try done.
  exists vs. split_and!; try done. destruct Hp1. by split.
Qed.

(** ** Scanning *)

(** The first row of segment [i]. *)
Definition seg_start (segs : list ColumnSegment) (i : nat) : nat := list_sum (row_count <$> take i segs).

Lemma seg_start_S segs i seg :
  segs !! i = Some seg -> seg_start segs (Datatypes.S i) = seg_start segs i + row_count seg.
Proof.
  intros Hi. unfold seg_start. rewrite (take_S_r _ _ _ Hi), fmap_app, list_sum_app. simpl. lia.
Qed.

Lemma seg_start_cons seg segs i :
  seg_start (seg :: segs) (Datatypes.S i) = row_count seg + seg_start segs i.
Proof. done. Qed.

Lemma seg_start_all segs : seg_start segs (length segs) = list_sum (row_count <$> segs).
Proof. unfold seg_start. by rewrite take_ge. Qed.

(** The cursor stands before row [pos]. *)
Definition scan_at (cc : ColumnChunk) (rows : list (option cell)) (st : ColumnScanState) (pos : nat) : Prop :=
  (exists seg, segments_ cc !! segment_idx st = Some seg /\ row_in_segment st <= row_count seg /\
     pos = seg_start (segments_ cc) (segment_idx st) + row_in_segment st) \/
  (segment_idx st = length (segments_ cc) /\ row_in_segment st <= dv_count (pending_data_ cc) /\
     pos = SegmentRowCount cc + row_in_segment st) \/
  (segment_idx st = Datatypes.S (length (segments_ cc)) /\ pos = length rows).

Lemma scan_state_loop_at segs pre pc off :
  list_sum (row_count <$> pre) <= off -> off <= list_sum (row_count <$> (pre ++ segs)) + pc ->
  let st := scan_state_loop segs (length pre) (list_sum (row_count <$> pre)) off in
  (exists seg, (pre ++ segs) !! segment_idx st = Some seg /\ row_in_segment st <= row_count seg /\
     off = seg_start (pre ++ segs) (segment_idx st) + row_in_segment st) \/
  (segment_idx st = length (pre ++ segs) /\ row_in_segment st <= pc /\
     off = list_sum (row_count <$> (pre ++ segs)) + row_in_segment st).
Proof.
  revert pre. induction segs as [|seg segs IH]; intros pre Hlo Hhi; cbn [scan_state_loop].
  - right. rewrite app_nil_r in *. simpl. lia.
  - case_decide as Hd.
    + left. exists seg. simpl. rewrite list_lookup_middle by done. split_and!; [done|lia|].
      unfold seg_start. rewrite take_app_length. lia.
    + specialize (IH (pre ++ [seg])). rewrite <- app_assoc in IH. simpl in IH.
      rewrite fmap_app, list_sum_app, length_app in IH. simpl in IH.
      rewrite Nat.add_1_r, Nat.add_0_r in IH. apply IH; [lia|]. done.
Qed.

Lemma MakeScanState_at s cc rows off :
  chunk_rep s cc rows -> off <= length rows -> scan_at cc rows (MakeScanState cc off) off.
Proof.
  intros Hrep Hoff. pose proof (chunk_rep_count _ _ _ Hrep) as Hc. unfold RowCount, SegmentRowCount in Hc.
  destruct (scan_state_loop_at (segments_ cc) [] (dv_count (pending_data_ cc)) off) as [Hl|Hr]; simpl; [lia|lia| |].
  - by left.
  - right. by left.
Qed.

(** The rows of a segment are a range of the chunk's rows. *)
Lemma seg_rows_slice s t segs vs i seg v rest :
  Forall2 (seg_rep s t) segs vs -> segs !! i = Some seg -> vs !! i = Some v ->
  forall r n, r + n <= row_count seg ->
  slice (seg_start segs i + r) n (concat (dv_rows <$> vs) ++ rest) = dv_row v <$> seq r n.
Proof.
  intros HF. revert i. induction HF as [|seg0 v0 segs vs Hr _ IH]; intros i; [done|].
  intros Hs Hv r n Hle. rewrite fmap_cons. cbn [concat].
  assert (length (dv_rows v0) = row_count seg0) as Hl by (by rewrite length_dv_rows, (sr_count _ _ _ _ Hr)).
  destruct i as [|i]; simpl in Hs, Hv.
  - simplify_eq. unfold seg_start. simpl. unfold slice.
    rewrite <- app_assoc, drop_app_le by lia. rewrite take_app_le by (rewrite length_drop; lia).
    unfold dv_rows. rewrite <- fmap_drop, <- fmap_take, drop_seq, take_seq. f_equal.
    f_equal. rewrite (sr_count _ _ _ _ Hr). lia.
  - rewrite <- (IH i Hs Hv r n Hle). unfold slice. rewrite <- app_assoc, drop_app_ge.
    + f_equal. f_equal. rewrite Hl, seg_start_cons. lia.
    + rewrite Hl, seg_start_cons. lia.
Qed.

Lemma pending_rows_slice s cc rows :
  chunk_rep s cc rows -> forall r n, r + n <= dv_count (pending_data_ cc) ->
  slice (SegmentRowCount cc + r) n rows = dv_row (pending_data_ cc) <$> seq r n.
Proof.
  intros (vs & [_ Hsegs _ _ _] & -> & _) r n Hle. unfold SegmentRowCount.
  rewrite <- (segs_length _ _ _ _ Hsegs). unfold slice. rewrite drop_app_ge by lia.
  replace (_ + r - _) with r by lia. unfold dv_rows. rewrite <- fmap_drop, <- fmap_take, drop_seq, take_seq.
  f_equal. f_equal. lia.
Qed.

Lemma slice_0 {A} pos (l : list A) : slice pos 0 l = [].
Proof. done. Qed.

Lemma slice_past {A} pos n (l : list A) : length l <= pos -> slice pos n l = [].
Proof. intros. unfold slice. rewrite drop_ge by done. apply take_nil. Qed.

(** Reading a segment. *)
Lemma seg_vector_Ok s t seg v :
  bs_ok s -> seg_rep s t seg v ->
  exists s', seg_vector s t seg = Ok (v, s') /\ bs_ok s' /\ bs_size s' = bs_size s /\
    forall id, bs_view s' id = bs_view s id.
Proof.
  intros Hok [(b & Hb & Hd) _ _ _ _]. unfold seg_vector.
  destruct (bs_read_law s (block_id seg) b Hok Hb) as (s' & -> & Hok' & Hsz & Hv). cbn [mbind result_bind].
  rewrite Hd. cbn [mbind result_bind]. eauto.
Qed.

Lemma Scan_loop_0 fuel s cc st out : Scan_loop fuel s cc st 0 out = Ok (s, out).
Proof. destruct fuel; done. Qed.

Lemma to_copy_in want total pos : pos <= total -> to_copy want total pos = Nat.min want (total - pos).
Proof. intros. unfold to_copy. by rewrite decide_True. Qed.

(** What the scan has collected so far. *)
Definition scan_out (cc : ColumnChunk) (out : DataVector) (rows : list (option cell)) : Prop :=
  dv_wf out /\ dv_full out /\ dv_type out = type_ cc /\ dv_rows out = rows.

Lemma scan_out_copy cc out rows v r n :
  scan_out cc out rows -> dv_type v = type_ cc -> r + n <= length (cells v) ->
  length rows + n <= STANDARD_VECTOR_SIZE ->
  exists out', BulkCopyRows out v r n = Ok out' /\ scan_out cc out' (rows ++ (dv_row v <$> seq r n)).
Proof.
  intros (Hwf & Hfull & Hty & Hr) Hv Hle Hlen.
  destruct (BulkCopyRows_Ok out v r n Hwf) as (out' & -> & Hwf' & Hfull' & Hty' & Hr').
  - by rewrite Hty, Hv.
  - done.
  - rewrite <- Hr, length_dv_rows in Hlen. done.
  - exists out'. split; [done|]. split_and!; try done; [congruence|]. by rewrite Hr', Hr.
Qed.

Lemma Scan_loop_Ok fuel s cc rows st pos want out got :
  chunk_rep s cc rows -> scan_at cc rows st pos -> scan_out cc out got ->
  length got + want <= STANDARD_VECTOR_SIZE ->
  length (segments_ cc) + 2 <= fuel + segment_idx st ->
  exists s' out', Scan_loop fuel s cc st want out = Ok (s', out') /\
    scan_out cc out' (got ++ slice pos want rows) /\
    bs_ok s' /\ bs_size s' = bs_size s /\ (forall id, bs_view s' id = bs_view s id).
Proof.
  revert s st pos want out got. induction fuel as [|fuel IH]; intros s st pos want out got Hrep Hat Hout Hlen Hfuel.
  all: destruct (decide (want = 0)) as [->|Hw];
    [rewrite Scan_loop_0, slice_0, app_nil_r; exists s, out; split_and!; try done;
     by destruct Hrep as (? & [? ? ? ? ?] & _)|].
  { exfalso. destruct Hat as [(seg & Hi%lookup_lt_Some & _)|[(Hi & _)|(Hi & _)]]; lia. }
  cbn [Scan_loop]. rewrite decide_False by done.
  assert (bs_ok s) as Hok by (by destruct Hrep as (? & [? ? ? ? ?] & _)).
  destruct Hat as [(seg & Hseg & Hr & ->)|[(Hi & Hr & ->)|(Hi & ->)]].
  - (* a segment *)
    rewrite Hseg. pose proof Hrep as (vs & [_ Hsegs [Hpw Hpf Hpt] _ _] & Hrows & _).
    destruct (Forall2_lookup_l _ _ _ _ _ Hsegs Hseg) as (v & Hv & Hsr).
    destruct (seg_vector_Ok s (type_ cc) seg v Hok Hsr) as (s1 & -> & Hok1 & Hsz1 & Hview1).
    cbn [mbind result_bind]. rewrite to_copy_in by done.
    set (i := segment_idx st) in *. set (r := row_in_segment st) in *. set (n := Nat.min want (row_count seg - r)) in *.
    destruct (scan_out_copy cc out got v r n Hout) as (out1 & -> & Hout1);
      [apply Hsr|pose proof (sr_full _ _ _ _ Hsr) as Hf; unfold dv_full in Hf; rewrite (sr_count _ _ _ _ Hsr) in Hf; lia|lia|].
    cbn [mbind result_bind].
    assert (slice (seg_start (segments_ cc) i + r) n rows = dv_row v <$> seq r n) as Hsl.
    { rewrite Hrows. eapply seg_rows_slice; [done|done|done|lia]. }
    assert (chunk_rep s1 cc rows) as Hrep1.
    { apply (chunk_rep_frame s); [done| |done]. intros id b _ Hb. by rewrite Hview1. }
    destruct (decide (row_count seg <= r + n)) as [Hadv|Hstay].
    + destruct (IH s1 (mkScan (Datatypes.S i) 0) (seg_start (segments_ cc) i + r + n) (want - n) out1
                  (got ++ (dv_row v <$> seq r n)) Hrep1) as (s2 & out2 & -> & Hout2 & Hok2 & Hsz2 & Hv2).
      * pose proof (seg_start_S _ _ _ Hseg) as HSt. unfold scan_at. simpl.
        destruct (segments_ cc !! Datatypes.S i) as [seg'|] eqn:Hnext.
        -- left. exists seg'. split_and!; [done|lia|]. rewrite HSt. lia.
        -- right. left. apply lookup_ge_None in Hnext. apply lookup_lt_Some in Hseg.
           assert (Datatypes.S i = length (segments_ cc)) as HSi by lia. split_and!; [done|lia|].
           unfold SegmentRowCount. rewrite <- seg_start_all, <- HSi, HSt. lia.
      * done.
      * rewrite length_app, length_fmap, length_seq. lia.
      * simpl. lia.
      * exists s2, out2. split_and!; try done; [|congruence|intros; by rewrite Hv2].
        rewrite <- app_assoc, <- Hsl, <- slice_app in Hout2. by replace (n + (want - n)) with want in Hout2 by lia.
    + replace (want - n) with 0 by lia. rewrite Scan_loop_0. exists s1, out1.
      split_and!; try done. replace want with n by lia. by rewrite Hsl.
  - (* the pending rows *)
    rewrite Hi, lookup_ge_None_2, decide_True by done.
    set (r := row_in_segment st) in *. set (total := dv_count (pending_data_ cc)) in *.
    pose proof (chunk_rep_count _ _ _ Hrep) as Hc. unfold RowCount in Hc.
    destruct (decide (r = total)) as [Hend|Hmore].
    { exists s, out. rewrite slice_past by lia. rewrite app_nil_r. done. }
    rewrite to_copy_in by done. set (n := Nat.min want (total - r)) in *.
    pose proof Hrep as (vs & [_ Hsegs [Hpw Hpf Hpt] _ _] & Hrows & _).
    destruct (scan_out_copy cc out got (pending_data_ cc) r n Hout) as (out1 & -> & Hout1);
      [done|unfold dv_full in Hpf; lia|lia|].
    cbn [mbind result_bind].
    assert (slice (SegmentRowCount cc + r) n rows = dv_row (pending_data_ cc) <$> seq r n) as Hsl
      by (eapply pending_rows_slice; [done|lia]).
    destruct (decide (total <= r + n)) as [Hadv|Hstay].
    + destruct (IH s (mkScan (Datatypes.S (length (segments_ cc))) 0) (SegmentRowCount cc + r + n) (want - n) out1
                  (got ++ (dv_row (pending_data_ cc) <$> seq r n)) Hrep) as (s2 & out2 & -> & Hout2 & Hok2 & Hsz2 & Hv2).
      * right. right. simpl. split; [done|]. lia.
      * done.
      * rewrite length_app, length_fmap, length_seq. lia.
      * simpl. lia.
      * exists s2, out2. split_and!; try done.
        rewrite <- app_assoc, <- Hsl, <- slice_app in Hout2. by replace (n + (want - n)) with want in Hout2 by lia.
    + replace (want - n) with 0 by lia. rewrite Scan_loop_0. exists s, out1.
      split_and!; try done. replace want with n by lia. by rewrite Hsl.
  - (* past the end *)
    rewrite Hi, lookup_ge_None_2, decide_False by lia.
    exists s, out. rewrite slice_past by lia. rewrite app_nil_r. done.
Qed.

Lemma scan_out_Reset cc : storage_of (type_ cc) <> SNone -> scan_out cc (Reset (type_ cc) 0) [].
Proof. intros Ht. destruct (reset_pending_ok _ Ht) as (? & ? & ? & _ & ?). done. Qed.

Lemma chunk_rep_storage s cc rows : chunk_rep s cc rows -> storage_of (type_ cc) <> SNone.
Proof. intros (vs & [_ _ [Hwf _ <-] _ _] & _). apply Hwf. Qed.

Lemma Scan_Ok s cc rows off count :
  chunk_rep s cc rows -> off <= length rows -> count <= STANDARD_VECTOR_SIZE ->
  exists s' out, Scan s cc (MakeScanState cc off) count = Ok (s', out) /\
    scan_out cc out (slice off count rows) /\
    bs_ok s' /\ bs_size s' = bs_size s /\ (forall id, bs_view s' id = bs_view s id).
Proof.
  intros Hrep Hoff Hcount.
  apply (Scan_loop_Ok _ s cc rows _ off count _ []);
    [done|by eapply MakeScanState_at|by eapply scan_out_Reset, chunk_rep_storage|simpl; lia|lia].
Qed.

(** ** Gathering rows *)

(** Row [o] of the column, NULL when there is none. *)
Definition row_at (rows : list (option cell)) (o : nat) : option cell := default None (rows !! o).

Lemma row_at_lookup rows o r : rows !! o = Some r -> row_at rows o = r.
Proof. intros H. unfold row_at. by rewrite H. Qed.

Lemma copy_one_loop cc v start offs out got :
  scan_out cc out got -> dv_type v = type_ cc -> dv_full v ->
  Forall (fun o => start <= o < start + dv_count v) offs ->
  length got + length offs <= STANDARD_VECTOR_SIZE ->
  exists out', foldM (copy_one v start) out offs = Ok out' /\
    scan_out cc out' (got ++ ((fun o => dv_row v (o - start)) <$> offs)).
Proof.
  intros Hout Hty Hfull Hoffs. revert out got Hout. induction Hoffs as [|o offs Ho Hoffs IH]; intros out got Hout Hlen; cbn [foldM].
  - exists out. by rewrite app_nil_r.
  - simpl in Hlen. unfold dv_full in Hfull.
    destruct (scan_out_copy cc out got v (o - start) 1 Hout Hty) as (out1 & Hc & Hout1); [lia|lia|].
    assert (copy_one v start out o = Ok out1) as ->.
    { unfold copy_one, local_index. rewrite decide_True by lia. exact Hc. }
    cbn [mbind result_bind].
    destruct (IH out1 _ Hout1) as (out2 & -> & Hout2); [rewrite length_app; simpl; lia|].
    exists out2. split; [done|]. simpl in Hout2. by rewrite <- app_assoc in Hout2.
Qed.

Lemma split_offsets_spec {A} (f : A -> nat) end_ l batch rest :
  split_offsets f end_ l = (batch, rest) -> StronglySorted le (f <$> l) ->
  l = batch ++ rest /\ Forall (fun x => f x < end_) batch /\ Forall (fun x => end_ <= f x) rest /\
  StronglySorted le (f <$> rest).
Proof.
  revert batch rest. induction l as [|x l IH]; intros batch rest; simpl.
  - intros [= <- <-] Hs. split_and!; try constructor.
  - destruct (split_offsets f end_ l) as [b r] eqn:E. intros Heq Hs. inversion Hs as [|? ? Hss Hall]; subst.
    case_decide as Hd; simplify_eq.
    + destruct (IH b rest eq_refl Hss) as (-> & ? & ? & ?). split_and!; try done. by constructor.
    + split_and!; try done. constructor; [lia|]. rewrite Forall_fmap in Hall.
      eapply Forall_impl; [exact Hall|]. simpl. lia.
Qed.

Lemma scan_rows_loop_Ok cc segs vs : forall s prefix offs out got,
  let rows := prefix ++ concat (dv_rows <$> vs) ++ dv_rows (pending_data_ cc) in
  bs_ok s -> Forall2 (seg_rep s (type_ cc)) segs vs -> pending_ok cc ->
  scan_out cc out got -> StronglySorted le offs ->
  Forall (fun o => length prefix <= o < length rows) offs -> length got + length offs <= STANDARD_VECTOR_SIZE ->
  exists s' out', scan_rows_loop s (type_ cc) segs (pending_data_ cc) (length prefix) offs out = Ok (s', out') /\
    scan_out cc out' (got ++ (row_at rows <$> offs)) /\
    bs_ok s' /\ bs_size s' = bs_size s /\ (forall id, bs_view s' id = bs_view s id).
Proof.
  revert vs. induction segs as [|seg segs IH]; intros vs s prefix offs out got rows Hok HF Hp Hout Hsort Hoffs Hlen; cbn [scan_rows_loop].
  - inversion HF; subst. unfold rows in *. simpl in Hoffs |- *. destruct Hp as [Hpw Hpf Hpt].
    rewrite length_app, length_dv_rows in Hoffs.
    destruct (copy_one_loop cc (pending_data_ cc) (length prefix) offs out got Hout Hpt Hpf Hoffs Hlen) as (out' & -> & Hout').
    cbn [mbind result_bind]. exists s, out'. split_and!; try done.
    erewrite list_fmap_ext; [exact Hout'|]. intros i o Ho. simpl.
    apply row_at_lookup. pose proof (Forall_lookup_1 _ _ _ _ Hoffs Ho) as [? ?]. simpl in *.
    rewrite lookup_app_r by lia. apply lookup_dv_rows. lia.
  - inversion HF as [|? v ? vs' Hsr HF']; subst.
    destruct (split_offsets id (length prefix + row_count seg) offs) as [batch rest] eqn:Hsp.
    destruct (split_offsets_spec id _ offs batch rest Hsp) as (-> & Hb & Hrest & Hsort'); [by rewrite list_fmap_id|].
    rewrite list_fmap_id in Hsort'. rewrite length_app in Hlen.
    apply Forall_app in Hoffs as [Hob Hor].
    assert (length (prefix ++ dv_rows v) = length prefix + row_count seg) as Hpl
      by (rewrite length_app, length_dv_rows; f_equal; apply Hsr).
    assert (rows = (prefix ++ dv_rows v) ++ concat (dv_rows <$> vs') ++ dv_rows (pending_data_ cc)) as Hrows
      by (unfold rows; rewrite fmap_cons; simpl; by rewrite <- !app_assoc).
    assert (exists s1 out1, (match batch with [] => Ok (s, out) | _ =>
         '(v0, s0) ← seg_vector s (type_ cc) seg; out0 ← foldM (copy_one v0 (length prefix)) out batch; Ok (s0, out0) end)
        = Ok (s1, out1) /\ scan_out cc out1 (got ++ (row_at rows <$> batch)) /\ bs_ok s1 /\ bs_size s1 = bs_size s /\
        (forall id, bs_view s1 id = bs_view s id)) as (s1 & out1 & Hstep & Hout1 & Hok1 & Hsz1 & Hv1).
    { destruct batch as [|o batch']; [exists s, out; by rewrite app_nil_r|].
      destruct (seg_vector_Ok s (type_ cc) seg v Hok Hsr) as (s1 & -> & Hok1 & Hsz1 & Hv1). cbn [mbind result_bind].
      destruct (copy_one_loop cc v (length prefix) (o :: batch') out got Hout) as (out1 & -> & Hout1);
        [apply Hsr|apply Hsr| |lia|].
      { rewrite (sr_count _ _ _ _ Hsr). rewrite Forall_forall in Hb, Hob |- *. intros x Hx.
        pose proof (Hb x Hx) as H1. pose proof (Hob x Hx) as H2. simpl in H1, H2. unfold id in H1. lia. }
      cbn [mbind result_bind]. exists s1, out1. split_and!; try done.
      erewrite list_fmap_ext; [exact Hout1|]. intros i x Hx.
      apply row_at_lookup. pose proof (Forall_lookup_1 _ _ _ _ Hob Hx) as Hx0. pose proof (Forall_lookup_1 _ _ _ _ Hb Hx) as Hx'.
      simpl in Hx0, Hx'. unfold id in Hx'. rewrite Hrows, lookup_app_l by (rewrite Hpl; lia). rewrite lookup_app_r by lia.
      apply lookup_dv_rows. rewrite (sr_count _ _ _ _ Hsr). lia. }
    rewrite Hstep. cbn [mbind result_bind].
    destruct (IH vs' s1 (prefix ++ dv_rows v) rest out1 (got ++ (row_at rows <$> batch))) as (s2 & out2 & Hl & Hout2 & Hok2 & Hsz2 & Hv2).
    + done.
    + eapply Forall2_impl; [exact HF'|]. intros sg w. apply seg_rep_extends. intros b. by rewrite Hv1.
    + done.
    + done.
    + done.
    + rewrite <- Hrows, Hpl. rewrite Forall_forall in Hor, Hrest |- *. intros x Hx.
      pose proof (Hor x Hx) as H1. pose proof (Hrest x Hx) as H2. simpl in H1, H2. unfold id in H2. lia.
    + rewrite length_app, length_fmap. lia.
    + rewrite Hpl in Hl. rewrite Hl. exists s2, out2. split_and!; try done; [|congruence|intros; by rewrite Hv2].
      rewrite <- Hrows in Hout2. by rewrite <- app_assoc, <- fmap_app in Hout2.
Qed.

Lemma ScanRows_Ok s cc rows offs :
  chunk_rep s cc rows -> StronglySorted le offs -> Forall (fun o => o < length rows) offs ->
  length offs <= STANDARD_VECTOR_SIZE ->
  exists s' out, ScanRows s cc offs = Ok (s', out) /\ scan_out cc out (row_at rows <$> offs) /\
    bs_ok s' /\ bs_size s' = bs_size s /\ (forall id, bs_view s' id = bs_view s id).
Proof.
  intros Hrep Hsort Hoffs Hlen. pose proof (chunk_rep_storage _ _ _ Hrep) as Hst.
  pose proof (scan_out_Reset cc Hst) as Hout0. destruct Hrep as (vs & [Hok Hsegs Hp _ _] & -> & _). unfold ScanRows.
  destruct (decide (offs = [])) as [->|Hne]; [exists s, (Reset (type_ cc) 0); done|].
  apply (scan_rows_loop_Ok cc (segments_ cc) vs s [] offs _ [] Hok Hsegs Hp Hout0 Hsort); [|done].
  eapply Forall_impl; [exact Hoffs|]. simpl. lia.
Qed.

(** ** Truncating the pending rows *)

Lemma set_null_loop v k n :
  k + n <= STANDARD_VECTOR_SIZE ->
  exists v', foldM SetNull v (seq k n) = Ok v' /\ cells v' = cells v /\ dv_type v' = dv_type v /\
    dv_count v' = dv_count v /\
    forall j, IsNull v' j = bool_decide (k <= j < k + n) || IsNull v j.
Proof.
  intros Hle. revert v k Hle. induction n as [|n IH]; intros v k Hle; cbn [seq foldM].
  - exists v. split_and!; try done. intros j. by rewrite bool_decide_eq_false_2 by lia.
  - destruct (SetNull_Ok v k) as (v1 & -> & Hc1 & Ht1 & Hn1 & HN1); [lia|]. cbn [mbind result_bind].
    destruct (IH v1 (Datatypes.S k)) as (v2 & -> & Hc2 & Ht2 & Hn2 & HN2); [lia|].
    exists v2. split_and!; try congruence. intros j. rewrite HN2, HN1.
    destruct (IsNull v j); rewrite ?orb_true_r, ?orb_false_r; [done|].
    repeat case_bool_decide; simpl; try done; lia.
Qed.

Lemma TruncatePending_Ok s cc rows k :
  chunk_rep s cc rows -> k <= dv_count (pending_data_ cc) ->
  exists cc', TruncatePending cc k = Ok cc' /\ type_ cc' = type_ cc /\ segments_ cc' = segments_ cc /\
    chunk_rep s cc' (take (SegmentRowCount cc + k) rows).
Proof.
  intros Hrep Hk. unfold TruncatePending. pose proof (chunk_rep_count _ _ _ Hrep) as Hc. unfold RowCount in Hc.
  case_decide as Hd.
  { exists cc. split_and!; try done. rewrite take_ge by lia. done. }
  destruct Hrep as (vs & [Hok Hsegs [Hwf Hfull Hty] Hnd Hst] & -> & Hro). pose proof (wf_count _ Hwf) as Hmax.
  destruct (set_null_loop (pending_data_ cc) k (dv_count (pending_data_ cc) - k)) as (v & -> & Hcv & Htv & Hnv & HNv); [lia|].
  cbn [mbind result_bind]. eexists. split; [done|]. split_and!; [done|done|].
  assert (forall j, dv_row (with_count k v) j = if decide (j < k) then dv_row (pending_data_ cc) j else None) as Hrow.
  { intros j. unfold dv_row. rewrite IsNull_with_count, HNv. change (cells (with_count k v)) with (cells v).
    rewrite Hcv. case_decide.
    - by rewrite bool_decide_eq_false_2 by lia.
    - destruct (decide (j < dv_count (pending_data_ cc))).
      + by rewrite bool_decide_eq_true_2 by lia.
      + rewrite (wf_clear _ Hwf) by lia. by rewrite orb_true_r. }
  exists vs. split_and!.
  - split; simpl; try done. split; simpl; [split|..]; simpl; rewrite ?Htv; try congruence.
    + apply Hwf.
    + lia.
    + intros j Hj. rewrite IsNull_with_count, HNv.
      destruct (decide (j < dv_count (pending_data_ cc))).
      * by rewrite bool_decide_eq_true_2 by lia.
      * rewrite (wf_clear _ Hwf) by lia. by rewrite orb_true_r.
    + intros j. rewrite IsNull_with_count, HNv. intros [_ HN]%orb_false_iff.
      change (cells (with_count k v)) with (cells v). rewrite Hcv. by apply (wf_cells _ Hwf).
    + unfold dv_full in *. change (cells (with_count k v)) with (cells v). rewrite Hcv. simpl. lia.
  - unfold SegmentRowCount. rewrite <- (segs_length _ _ _ _ Hsegs). rewrite take_app_add. f_equal. symmetry.
    apply dv_rows_ext; rewrite length_take, length_dv_rows; simpl; [lia|].
    intros j Hj. rewrite lookup_take_lt, lookup_dv_rows by lia. rewrite Hrow, decide_True by lia. done.
  - by apply Forall_take.
Qed.

(** ** Overwriting rows *)

Lemma write_value_Ok t src target idx si :
  dv_wf target -> dv_full target -> dv_type target = t ->
  storage_of (dv_type src) = storage_of t -> dv_readable src si -> idx < dv_count target ->
  exists target', write_value t src target idx si = Ok target' /\ dv_wf target' /\ dv_full target' /\
    dv_type target' = t /\ dv_rows target' = <[idx := dv_row src si]> (dv_rows target).
Proof.
  intros Hwf Hfull Hty Hst Hread Hidx. pose proof (wf_count _ Hwf) as Hmax. unfold write_value.
  assert (exists target', (if IsNull src si then SetNull target idx
      else target ← SetValid target idx; on_storage t (store_elem idx si) target src) = Ok target' /\
      dv_type target' = t /\ dv_count target' = dv_count target /\ length (cells target') = length (cells target) /\
      dv_row target' idx = dv_row src si /\
      (forall j, IsNull target' j = if decide (j = idx) then IsNull src si else IsNull target j) /\
      (forall j, j <> idx -> cells target' !! j = cells target !! j))
    as (target' & -> & Ht' & Hc' & Hl' & Hrow & HN & Hcell).
  { destruct (IsNull src si) eqn:HNs.
    - destruct (SetNull_Ok target idx) as (v & -> & Hcv & Htv & Hnv & HNv); [lia|]. exists v.
      split_and!; try congruence; try (by rewrite Hcv).
      + unfold dv_row. by rewrite HNv, HNs, bool_decide_eq_true_2.
      + intros j. rewrite HNv. case_decide; [by rewrite bool_decide_eq_true_2|by rewrite bool_decide_eq_false_2].
    - destruct (SetValid_Ok target idx) as (v & -> & Hcv & Htv & Hnv & HNv); [lia|]. cbn [mbind result_bind].
      destruct (on_storage_Ok (fun a b c => length c = length a /\ c !! idx = b !! si /\
          forall j, j <> idx -> c !! j = a !! j) (store_elem idx si) t v src) as (w & -> & (Hlw & Hnew & Hold) & Htw & Hnw & Hvw).
      + by rewrite Htv, Hty.
      + by rewrite Htv, Hty.
      + rewrite Htv. apply Hwf.
      + intros A d f a b Ha Hb. specialize (Hread HNs). rewrite <- Hb, length_fmap in Hread.
        destruct (lookup_lt_is_Some_2 b si Hread) as [x Hx]. unfold dv_full in Hfull. rewrite <- Hcv, <- Ha, length_fmap in Hfull.
        unfold store_elem. rewrite Hx. cbn [of_option mbind result_bind]. rewrite decide_True by lia.
        eexists. split; [done|]. rewrite !length_fmap, length_insert. split_and!; [done| |].
        * rewrite !list_lookup_fmap, list_lookup_insert_eq by lia. by rewrite Hx.
        * intros j Hj. by rewrite !list_lookup_fmap, list_lookup_insert_ne.
      + exists w. rewrite Hcv in *.
        assert (forall j, IsNull w j = IsNull v j) as HNw by (intros; unfold IsNull; by rewrite Hvw).
        split_and!; try done; try congruence.
        * unfold dv_row. rewrite HNw, HNv, HNs, bool_decide_eq_true_2 by done. done.
        * intros j. rewrite HNw, HNv. case_decide; [by rewrite bool_decide_eq_true_2|by rewrite bool_decide_eq_false_2]. }
  exists target'. split; [done|]. split_and!.
  - split; rewrite ?Ht', ?Hc', ?Hl'; [rewrite <- Hty; apply Hwf|done| |].
    + intros j Hj. rewrite HN, decide_False by lia. by apply (wf_clear _ Hwf).
    + intros j. rewrite HN. case_decide as Hd; [subst; unfold dv_full in Hfull; lia|]. apply (wf_cells _ Hwf).
  - unfold dv_full in *. by rewrite Hc', Hl'.
  - done.
  - apply dv_rows_ext; rewrite length_insert, length_dv_rows; [done|]. intros j Hj.
    destruct (decide (j = idx)) as [->|Hne].
    + rewrite list_lookup_insert_eq by (by rewrite length_dv_rows). by rewrite Hrow.
    + rewrite list_lookup_insert_ne, lookup_dv_rows by done. f_equal. unfold dv_row.
      by rewrite HN, decide_False, Hcell by done.
Qed.

(** The rows after a list of writes (row offset, source row), in order. *)
Definition apply_writes (src : DataVector) (ws : list (nat * nat)) (rows : list (option cell)) : list (option cell) :=
  foldl (fun rows w => <[w.1 := dv_row src w.2]> rows) rows ws.

Definition shift_writes (start : nat) (ws : list (nat * nat)) : list (nat * nat) :=
  (fun w => (w.1 - start, w.2)) <$> ws.

Lemma length_apply_writes src ws rows : length (apply_writes src ws rows) = length rows.
Proof. revert rows. induction ws as [|w ws IH]; intros rows; simpl; [done|]. by rewrite IH, length_insert. Qed.

Lemma apply_writes_app src ws1 ws2 rows :
  apply_writes src (ws1 ++ ws2) rows = apply_writes src ws2 (apply_writes src ws1 rows).
Proof. apply foldl_app. Qed.

Lemma apply_writes_mid src ws a b c :
  Forall (fun w => length a <= w.1 < length a + length b) ws ->
  apply_writes src ws (a ++ b ++ c) = a ++ apply_writes src (shift_writes (length a) ws) b ++ c.
Proof.
  revert b. induction ws as [|w ws IH]; intros b Hws; [done|]. apply Forall_cons in Hws as [Hw Hws]. simpl.
  rewrite insert_app_r_alt by lia. rewrite insert_app_l by lia. apply IH.
  eapply Forall_impl; [exact Hws|]. simpl. rewrite length_insert. lia.
Qed.

(** A loop of in-range writes into one vector. *)
Lemma write_loop_Ok f t src start ws v :
  (forall v w, start <= w.1 < start + dv_count v -> f v w = write_value t src v (w.1 - start) w.2) ->
  dv_wf v -> dv_full v -> dv_type v = t -> storage_of (dv_type src) = storage_of t -> dv_wf src ->
  Forall (fun w => start <= w.1 < start + dv_count v) ws ->
  exists v', foldM f v ws = Ok v' /\ dv_wf v' /\ dv_full v' /\ dv_type v' = t /\
    dv_rows v' = apply_writes src (shift_writes start ws) (dv_rows v).
Proof.
  intros Hf Hwf Hfull Hty Hst Hsrc Hws. revert v Hwf Hfull Hty Hws.
  induction ws as [|w ws IH]; intros v Hwf Hfull Hty Hws; cbn [foldM].
  - exists v. done.
  - apply Forall_cons in Hws as [Hw Hws]. rewrite Hf by done.
    destruct (write_value_Ok t src v (w.1 - start) w.2 Hwf Hfull Hty Hst) as (v1 & -> & Hwf1 & Hfull1 & Hty1 & Hr1);
      [by apply dv_wf_readable|lia|].
    cbn [mbind result_bind].
    assert (dv_count v1 = dv_count v) as Hc by (rewrite <- !length_dv_rows, Hr1; apply length_insert).
    destruct (IH v1 Hwf1 Hfull1 Hty1) as (v2 & -> & Hwf2 & Hfull2 & Hty2 & Hr2).
    { rewrite Hc. done. }
    exists v2. split_and!; try done. rewrite Hr2, Hr1. done.
Qed.

(** Every vector of these rows can be compressed again, with the scheme of an
    uncompressed segment too. *)
Definition rows_rewritable (n : nat) (t : TypeId) (rows : list (option cell)) : Prop :=
  forall v, vec_ok v -> dv_type v = t -> dv_rows v = rows ->
    storable n v /\ forall block, length block = n -> block_fits (mkChoice UNCOMPRESSED 0) v block.

Lemma rewrite_segment_Ok s t seg v edit v' :
  bs_ok s -> seg_rep s t seg v -> storage_of t <> SNone ->
  edit v = Ok v' -> vec_ok v' -> dv_type v' = t -> dv_count v' = dv_count v ->
  rows_rewritable (bs_size s) t (dv_rows v') ->
  exists s' seg' w, rewrite_segment s t seg edit = Ok (s', seg') /\ bs_ok s' /\ bs_size s' = bs_size s /\
    seg_rep s' t seg' w /\ dv_rows w = dv_rows v' /\
    block_id seg' = block_id seg /\ row_count seg' = row_count seg /\
    covers t (stats seg') (dv_rows v') /\
    (forall id, id <> block_id seg -> bs_view s' id = bs_view s id).
Proof.
  intros Hok [(b & Hb & Hdec) Hwf Hfull Hty Hcnt] Hst Hedit Hvok Hty' Hc Hrw.
  destruct (Hrw v' Hvok Hty' eq_refl) as [(choice & Hsel & Hsch & Hfit) Hplain].
  destruct (bs_view_ok s _ b Hok Hb) as [Hblen Hbbytes].
  assert (exists choice' buf' n, (if decide (compression seg = UNCOMPRESSED) then Ok (mkChoice UNCOMPRESSED 0)
      else SelectCompression v') = Ok choice' /\ Compress choice' v' b = Ok (buf', n) /\
      length buf' = length b /\ bytes_ok buf' /\ exists w, Decompress buf' (dv_type v') = Ok w /\ seg_equiv v' w)
    as (choice' & buf' & n & Hch & Hcmp & Hlen & Hbytes & w & Hdecw & Hww & Hwf' & Hwt & Hwr).
  { case_decide.
    - exists (mkChoice UNCOMPRESSED 0). destruct (Compress_rt (mkChoice UNCOMPRESSED 0) v' b Hvok) as (b' & n & ?);
        [done|done|by apply Hplain|]. eauto.
    - exists choice. destruct (Compress_rt choice v' b Hvok Hsch Hbbytes) as (b' & n & ?); [by apply Hfit|]. eauto. }
  unfold rewrite_segment.
  match goal with |- context [bs_update s (block_id seg) ?g] =>
    destruct (bs_update_law _ s (block_id seg) b g buf' (cc_type choice', v') Hok Hb) as (s' & -> & Hok' & Hsz & Hview) end.
  { rewrite Hdec. cbn [mbind result_bind]. rewrite Hedit. cbn [mbind result_bind]. rewrite Hch. cbn [mbind result_bind].
    rewrite Hcmp. done. }
  { by rewrite Hlen. }
  { done. }
  cbn [mbind result_bind]. unfold BuildStats.
  destruct (stats_loop_Ok t v' Stats_empty (dv_count v') []) as (st & -> & Hcov & _);
    [by rewrite Hty'|done|apply Hvok|by apply covers_nil; left|].
  cbn [mbind result_bind]. eexists _, _, w. split; [done|]. split_and!; try done; simpl.
  - split; simpl; try done; try congruence.
    + exists buf'. rewrite Hview, decide_True by done. by rewrite <- Hty'.
    + rewrite <- Hcnt, <- Hc, <- !length_dv_rows. by rewrite Hwr.
  - intros id Hne. by rewrite Hview, decide_False.
Qed.

Lemma write_one_in t src start v w :
  start <= w.1 < start + dv_count v -> write_one t src start v w = write_value t src v (w.1 - start) w.2.
Proof. intros Hw. unfold write_one, local_index. by rewrite decide_True by lia. Qed.

Lemma write_pending_in t src start v w :
  start <= w.1 < start + dv_count v -> write_pending t src start v w = write_value t src v (w.1 - start) w.2.
Proof. intros Hw. unfold write_pending. rewrite !decide_False by lia. done. Qed.

(** One segment of the loop: its batch of writes, applied and compressed. *)
Lemma write_segment_Ok s t seg v src start batch :
  bs_ok s -> seg_rep s t seg v -> storage_of (dv_type src) = storage_of t -> dv_wf src ->
  Forall (fun w => start <= w.1 < start + dv_count v) batch ->
  let rows := apply_writes src (shift_writes start batch) (dv_rows v) in
  Forall row_ok rows -> rows_rewritable (bs_size s) t rows ->
  exists s' seg' w, (match batch with [] => Ok (s, seg)
      | _ => rewrite_segment s t seg (fun v => foldM (write_one t src start) v batch) end) = Ok (s', seg') /\
    bs_ok s' /\ bs_size s' = bs_size s /\ seg_rep s' t seg' w /\ dv_rows w = rows /\
    block_id seg' = block_id seg /\ row_count seg' = row_count seg /\
    (forall id, id <> block_id seg -> bs_view s' id = bs_view s id).
Proof.
  intros Hok Hsr Hst Hsrc Hb rows Hro Hrw. destruct batch as [|w0 batch]; [exists s, seg, v; done|].
  set (ws := w0 :: batch) in *. pose proof Hsr as [_ Hwf Hfull Hty Hcnt].
  destruct (write_loop_Ok (write_one t src start) t src start ws v) as (v' & Hedit & Hwf' & Hfull' & Hty' & Hr');
    [apply write_one_in|done..|].
  assert (dv_count v' = dv_count v) as Hc by (rewrite <- !length_dv_rows, Hr'; apply length_apply_writes).
  fold rows in Hr'.
  destruct (rewrite_segment_Ok s t seg v (fun v => foldM (write_one t src start) v ws) v' Hok Hsr)
    as (s' & seg' & w & Heq & Hok' & Hsz & Hsr' & Hrw' & Hid & Hrc & _ & Hview).
  - rewrite <- Hty. apply Hwf.
  - done.
  - apply vec_ok_rows; [done| |by rewrite Hr']. apply Forall_cons in Hb as [Hw0 _]. lia.
  - done.
  - done.
  - by rewrite Hr'.
  - exists s', seg', w. split_and!; try done. by rewrite Hrw'.
Qed.

Lemma write_rows_loop_Ok t src pending segs vs : forall s prefix ws,
  let rows := prefix ++ concat (dv_rows <$> vs) ++ dv_rows pending in
  let rows' := apply_writes src ws rows in
  bs_ok s -> Forall2 (seg_rep s t) segs vs -> NoDup (block_id <$> segs) ->
  dv_wf pending -> dv_full pending -> dv_type pending = t ->
  storage_of (dv_type src) = storage_of t -> dv_wf src ->
  StronglySorted le (fst <$> ws) -> Forall (fun w => length prefix <= w.1 < length rows) ws ->
  Forall row_ok rows' ->
  (forall start k, k <= STANDARD_VECTOR_SIZE -> rows_rewritable (bs_size s) t (slice start k rows')) ->
  exists s' segs' vs' p', write_rows_loop s t segs pending (length prefix) src ws = Ok (s', segs', p') /\
    bs_ok s' /\ bs_size s' = bs_size s /\ Forall2 (seg_rep s' t) segs' vs' /\
    dv_wf p' /\ dv_full p' /\ dv_type p' = t /\
    rows' = prefix ++ concat (dv_rows <$> vs') ++ dv_rows p' /\
    block_id <$> segs' = block_id <$> segs /\
    (forall id, id ∉ block_id <$> segs -> bs_view s' id = bs_view s id).
Proof.
  revert vs. induction segs as [|seg segs IH];
    intros vs s prefix ws rows rows' Hok HF Hnd Hpw Hpf Hpt Hst Hsrc Hsort Hws Hro Hrw; cbn [write_rows_loop].
  - inversion HF; subst. unfold rows', rows in *. simpl in *. rewrite length_app, length_dv_rows in Hws.
    destruct (write_loop_Ok (write_pending (dv_type pending) src (length prefix)) (dv_type pending) src (length prefix) ws pending)
      as (p & -> & Hwf & Hfull & Hty & Hr); [apply write_pending_in|done..|].
    cbn [mbind result_bind]. exists s, [], [], p. split_and!; try done.
    rewrite <- (app_nil_r (dv_rows pending)), apply_writes_mid by (rewrite length_dv_rows; done).
    by rewrite app_nil_r, Hr.
  - inversion HF as [|? v ? vs0 Hsr HF']; subst vs. simpl in Hnd. apply NoDup_cons in Hnd as [Hnot Hnd].
    destruct (split_offsets fst (length prefix + row_count seg) ws) as [batch rest] eqn:Hsp.
    destruct (split_offsets_spec fst _ ws batch rest Hsp Hsort) as (-> & Hb & Hrest & Hsort').
    apply Forall_app in Hws as [Hwb Hwr]. pose proof (sr_count _ _ _ _ Hsr) as Hcnt.
    assert (Forall (fun w => length prefix <= w.1 < length prefix + dv_count v) batch) as Hbr.
    { rewrite Forall_forall in Hb, Hwb |- *. intros u Hu. pose proof (Hb u Hu) as H1. pose proof (Hwb u Hu) as H2.
      simpl in H1, H2. lia. }
    set (nv := apply_writes src (shift_writes (length prefix) batch) (dv_rows v)).
    set (tail := concat (dv_rows <$> vs0) ++ dv_rows pending) in *.
    assert (apply_writes src batch rows = (prefix ++ nv) ++ tail) as Hmid.
    { unfold rows. rewrite fmap_cons. cbn [concat]. rewrite <- (app_assoc (dv_rows v)). fold tail.
      rewrite apply_writes_mid by (by rewrite length_dv_rows). by rewrite app_assoc. }
    assert (length nv = row_count seg) as Hlnv by (unfold nv; by rewrite length_apply_writes, length_dv_rows).
    assert (length (prefix ++ nv) = length prefix + row_count seg) as Hpl by (rewrite length_app; lia).
    assert (length rows = length ((prefix ++ nv) ++ tail)) as Hlr by (rewrite <- Hmid; by rewrite length_apply_writes).
    assert (rows' = apply_writes src rest ((prefix ++ nv) ++ tail)) as Hrows'
      by (unfold rows'; by rewrite apply_writes_app, Hmid).
    assert (Forall (fun w => length (prefix ++ nv) <= w.1 < length ((prefix ++ nv) ++ tail)) rest) as Hrr.
    { rewrite Forall_forall in Hrest, Hwr |- *. intros u Hu. pose proof (Hrest u Hu) as H1. pose proof (Hwr u Hu) as H2.
      simpl in H1, H2. lia. }
    (* the rows of this segment are final *)
    assert (slice (length prefix) (row_count seg) rows' = nv) as Hnv.
    { rewrite Hrows'. rewrite <- (app_nil_r tail). rewrite apply_writes_mid by (rewrite <- length_app; done).
      rewrite <- app_assoc. unfold slice. rewrite drop_app_length, take_app_length' by done. done. }
    destruct (write_segment_Ok s t seg v src (length prefix) batch Hok Hsr Hst Hsrc Hbr) as
      (s1 & seg1 & w1 & Heq & Hok1 & Hsz1 & Hsr1 & Hw1 & Hid1 & Hrc1 & Hview1).
    { fold nv. rewrite <- Hnv. by apply Forall_take, Forall_drop. }
    { fold nv. rewrite <- Hnv. apply Hrw. rewrite <- Hcnt. apply (sr_wf _ _ _ _ Hsr). }
    rewrite Heq. cbn [mbind result_bind].
    destruct (IH vs0 s1 (prefix ++ nv) rest) as (s2 & segs2 & vs2 & p2 & Hl & Hok2 & Hsz2 & HF2 & Hpw2 & Hpf2 & Hpt2 & Hr2 & Hid2 & Hview2).
    + done.
    + eapply Forall2_impl_in; [exact HF'|]. intros sg w Hsg. apply seg_rep_extends. intros b.
      rewrite Hview1; [done|]. intros Hcontra. apply Hnot. rewrite <- Hcontra. by apply list_elem_of_fmap_2.
    + done.
    + done.
    + done.
    + done.
    + done.
    + done.
    + done.
    + done.
    + fold tail. by rewrite <- Hrows'.
    + fold tail. rewrite <- Hrows', Hsz1. done.
    + rewrite Hpl in Hl. rewrite Hl. cbn [mbind result_bind].
      exists s2, (seg1 :: segs2), (w1 :: vs2), p2. split_and!; try done.
      * congruence.
      * constructor; [|done]. eapply seg_rep_extends; [|exact Hsr1]. intros b. rewrite Hview2; [done|].
        by rewrite Hid1.
      * fold tail in Hr2. rewrite Hrows', Hr2. rewrite fmap_cons. cbn [concat]. fold nv in Hw1. rewrite Hw1. by rewrite <- !app_assoc.
      * rewrite !fmap_cons. by rewrite Hid1, Hid2.
      * intros id. rewrite fmap_cons, not_elem_of_cons. intros [H1 H2]. rewrite Hview2 by done. by apply Hview1.
Qed.

Lemma non_decreasing_sorted l : non_decreasing l = true <-> StronglySorted le l.
Proof.
  split; intros Hl.
  - apply Sorted_StronglySorted; [intros ???; lia|]. induction l as [|x l IH]; [constructor|].
    destruct l as [|y l]; [repeat constructor|]. simpl in Hl. apply andb_true_iff in Hl as [Hxy Hl].
    apply bool_decide_eq_true in Hxy. constructor; [by apply IH|]. by constructor.
  - induction Hl as [|x l Hl IH Hall]; [done|]. destruct l as [|y l]; [done|].
    simpl. apply andb_true_iff. split; [|done]. apply bool_decide_eq_true. by apply Forall_cons in Hall as [? _].
Qed.

(** Overwriting rows, and nothing else, when every batch of the new rows can
    be stored. *)
Lemma WriteRows_Ok s cc rows offs src :
  let ws := zip offs (seq 0 (length offs)) in
  let rows' := apply_writes src ws rows in
  chunk_rep s cc rows -> dv_wf src -> storage_of (dv_type src) = storage_of (type_ cc) ->
  dv_count src = length offs -> StronglySorted le offs -> Forall (fun o => o < length rows) offs ->
  Forall row_ok rows' ->
  (forall start k, k <= STANDARD_VECTOR_SIZE -> rows_rewritable (bs_size s) (type_ cc) (slice start k rows')) ->
  exists s' cc', WriteRows s cc offs src = Ok (s', cc') /\ chunk_rep s' cc' rows' /\
    bs_size s' = bs_size s /\ type_ cc' = type_ cc /\
    block_id <$> segments_ cc' = block_id <$> segments_ cc /\
    (forall id, id ∉ block_id <$> segments_ cc -> bs_view s' id = bs_view s id).
Proof.
  intros ws rows' (vs & [Hok Hsegs [Hpw Hpf Hpt] Hnd Hst] & -> & Hro) Hsrc Hsto Hcnt Hsort Hoffs Hro' Hrw.
  unfold WriteRows. destruct (decide (offs = [])) as [->|Hne].
  { exists s, cc. split_and!; try done. by exists vs. }
  rewrite bool_decide_eq_true_2, (proj2 (non_decreasing_sorted offs)) by done. cbn [require mbind result_bind].
  assert (fst <$> ws = offs) as Hfst by (apply fst_zip; by rewrite length_seq).
  destruct (write_rows_loop_Ok (type_ cc) src (pending_data_ cc) (segments_ cc) vs s [] ws) as
    (s' & segs' & vs' & p' & Hl & Hok' & Hsz & HF' & Hpw' & Hpf' & Hpt' & Hr' & Hid' & Hview'); try done.
  - by rewrite Hfst.
  - rewrite <- Hfst in Hoffs. rewrite Forall_fmap in Hoffs. eapply Forall_impl; [exact Hoffs|]. simpl. lia.
  - simpl in Hl. fold ws. rewrite Hl. cbn [mbind result_bind]. eexists _, _. split; [done|]. split_and!; try done.
    exists vs'. split_and!; try done. split; simpl; try done. by rewrite Hid'.
Qed.
End Representation.

(** ** A sample chunk: one segment of three rows, two pending rows *)

Definition sample_block : list Z :=
  match Compress (mkChoice BIT_PACKED 2) vec_123 (replicate 64 0%Z) with Ok (b, _) => b | Err _ => [] end.

Definition sample_file : BlockFile.BlockFile := BlockFile.bf_open sample_block 64 [].

Definition sample_bm : BufferManager := mkBM 64 64 0 (Some sample_file) ∅ [] 1.

Definition sample_pending : DataVector := mkDV INT32 2 [5; 0]%Z [] [] 1%Z.

Definition sample_cc : ColumnChunk :=
  mkCC INT32 [mkSegment 0 BIT_PACKED INT32 3 0 (mkStats (Value_Integer 1000) (Value_Integer 1003) false)]
       sample_pending 3 (mkStats (Value_Integer 5) (Value_Integer 1003) true).

Definition sample_rows : list (option cell) :=
  [Some (CInt 1000); Some (CInt 1003); Some (CInt 1001); Some (CInt 5); None].

Lemma dv_wf_bool v :
  storage_of (dv_type v) <> SNone -> dv_count v <= STANDARD_VECTOR_SIZE -> dv_full v ->
  (0 <= validity v < 2 ^ Z.of_nat (dv_count v))%Z -> dv_wf v.
Proof.
  intros Hst Hc Hf Hv. split; [done|done| |].
  - intros i Hi. unfold IsNull. rewrite (testbit_above _ (Z.of_nat (dv_count v))) by (done || lia). done.
  - intros i. unfold IsNull, dv_full in *. destruct (decide (i < dv_count v)); [lia|].
    rewrite (testbit_above _ (Z.of_nat (dv_count v))) by (done || lia). done.
Qed.

Lemma sample_bm_ok : bm_ok sample_bm.
Proof.
  exists sample_file. split; [|done]. split; try done.
  - split; [simpl; lia|discriminate|reflexivity|constructor].
  - intros id Hid. unfold BlockFile.bf_block, slice. apply Forall_take, Forall_drop.
    unfold sample_file. simpl. vm_compute. repeat constructor; try discriminate.
  - intros id. split; [intros H; by apply not_elem_of_nil in H|]. intros (fr & Hfr & _). done.
  - constructor.
Qed.

Lemma sample_rep : chunk_rep sample_bm sample_cc sample_rows.
Proof.
  assert (dv_wf sample_pending) as Hp by (apply dv_wf_bool; simpl; [done|unfold STANDARD_VECTOR_SIZE; lia|unfold dv_full; simpl; lia|by vm_compute]).
  exists [vec_123]. split_and!.
  - split.
    + apply sample_bm_ok.
    + constructor; [|constructor]. split; simpl; try done.
      * exists sample_block. split; vm_compute; reflexivity.
      * apply vec_123_ok.
      * unfold dv_full. simpl. lia.
    + split; simpl; try done. unfold dv_full. simpl. lia.
    + apply NoDup_singleton.
    + right. split; (split; [done|reflexivity]).
  - reflexivity.
  - repeat constructor; unfold row_ok, cell_ok, is_i64; lia.
Qed.

(** ** Columns that every batch can store *)

(** Integers without NULL within a range of [2^32] values. *)
Definition narrow (lo : Z) (r : option cell) : Prop :=
  exists z, r = Some (CInt z) /\ is_i64 z /\ (lo <= z < lo + 2 ^ 32)%Z.

Lemma narrow_value lo vec i :
  dv_wf vec -> storage_of (dv_type vec) = SInt -> Forall (narrow lo) (dv_rows vec) -> i < dv_count vec ->
  IsNull vec i = false /\ exists z, int_data vec !! i = Some z /\ (lo <= z < lo + 2 ^ 32)%Z.
Proof.
  intros Hwf Hs Hn Hi. destruct (Forall_lookup_1 _ _ _ _ Hn (lookup_dv_rows vec i Hi)) as (z & Hz & _ & Hlo).
  unfold dv_row in Hz. destruct (IsNull vec i) eqn:HN; [done|]. split; [done|]. exists z. split; [|done].
  unfold cells in Hz. rewrite Hs in Hz. apply list_lookup_fmap_Some in Hz as (w & ? & ?). by simplify_eq.
Qed.

Lemma narrow_rewritable n t lo rows :
  storage_of t = SInt -> (DEFAULT_BLOCK_SIZE <= Z.of_nat n)%Z -> Forall (narrow lo) rows ->
  rows_rewritable n t rows.
Proof.
  intros Hs Hn Hrows v Hok Hty <-. assert (storage_of (dv_type v) = SInt) as Hsv by (by rewrite Hty).
  pose proof (vo_wf _ Hok) as Hwf.
  assert (forall i, IsNull v i = false -> i < dv_count v) as Hlt.
  { intros i Hi. destruct (decide (i < dv_count v)); [done|]. rewrite (wf_clear _ Hwf) in Hi by lia. done. }
  assert (forall i z, IsNull v i = false -> int_data v !! i = Some z -> (lo <= z < lo + 2 ^ 32)%Z) as Hval.
  { intros i z Hi Hz. destruct (narrow_value lo v i Hwf Hsv Hrows (Hlt i Hi)) as (_ & w & Hw & ?). congruence. }
  destruct (SelectCompression_rt v Hok) as (choice & Hsel & Hsch & Hdelta).
  { intros i j x y Hi Hj Hx Hy. pose proof (Hval i x Hi Hx). pose proof (Hval j y Hj Hy). lia. }
  assert (scheme_ok choice v) as Hsc.
  { apply Hsch; [|left; intros i Hi; by apply (narrow_value lo v)].
    apply Hdelta. intros i j x y _ _ Hi Hj Hx Hy. pose proof (Hval i x Hi Hx). pose proof (Hval j y Hj Hy). lia. }
  split; [exists choice; split_and!; try done|]; intros block Hb; apply numeric_fits; try done; try (by left); by rewrite Hb.
Qed.

Lemma narrow_storable n t lo rows :
  storage_of t = SInt -> (DEFAULT_BLOCK_SIZE <= Z.of_nat n)%Z -> Forall (narrow lo) rows -> rows_storable n t rows.
Proof. intros Hs Hn Hr v Hok Hty Hv. by apply (narrow_rewritable n t lo rows Hs Hn Hr v). Qed.

Lemma narrow_row_ok lo r : narrow lo r -> row_ok r.
Proof. by intros (z & -> & Hz & _). Qed.

(** ** Claims *)

Section Claims.
Context {S : Type} {BSops : BlockStore S} {BSlaws : BlockStoreLaws S}.

(** C6: a scan returns the requested range of the column, across segments
    and pending rows, NULLs included, and changes neither the chunk nor the
    blocks. *)
Theorem column_scan_rows (s : S) cc rows off count :
  chunk_rep s cc rows -> off <= length rows -> count <= STANDARD_VECTOR_SIZE ->
  exists s' out, Scan s cc (MakeScanState cc off) count = Ok (s', out) /\
    dv_rows out = slice off count rows /\ dv_wf out /\ dv_type out = type_ cc /\ chunk_rep s' cc rows.
Proof.
  intros Hrep Hoff Hcount. destruct (Scan_Ok s cc rows off count Hrep Hoff Hcount) as
    (s' & out & -> & (Hwf & _ & Hty & Hr) & Hok & Hsz & Hv).
  exists s', out. split_and!; try done. eapply chunk_rep_frame; [done| |done]. intros id b _. by rewrite Hv.
Qed.

(** Gathering rows by ascending offsets, the access path of late
    materialisation, returns exactly those rows in that order. *)
Theorem column_gather_rows (s : S) cc rows offs :
  chunk_rep s cc rows -> StronglySorted le offs -> Forall (fun o => o < length rows) offs ->
  length offs <= STANDARD_VECTOR_SIZE ->
  exists s' out, ScanRows s cc offs = Ok (s', out) /\ dv_rows out = row_at rows <$> offs /\
    dv_wf out /\ chunk_rep s' cc rows.
Proof.
  intros Hrep Hsort Hoffs Hlen. destruct (ScanRows_Ok s cc rows offs Hrep Hsort Hoffs Hlen) as
    (s' & out & -> & (Hwf & _ & Hty & Hr) & Hok & Hsz & Hv).
  exists s', out. split_and!; try done. eapply chunk_rep_frame; [done| |done]. intros id b _. by rewrite Hv.
Qed.

(** Appending to an integer column without NULLs whose values lie within
    [2^32] of each other adds exactly the new rows, however many segments the
    append flushes. *)
Theorem column_append_rows (s : S) cc rows vec count lo :
  chunk_rep s cc rows -> storage_of (type_ cc) = SInt -> (DEFAULT_BLOCK_SIZE <= Z.of_nat (bs_size s))%Z ->
  dv_wf vec -> storage_of (dv_type vec) = SInt -> count <= length (cells vec) ->
  Forall (narrow lo) (rows ++ (dv_row vec <$> seq 0 count)) ->
  exists s' cc', AppendFromVector s cc vec count = Ok (s', cc') /\
    chunk_rep s' cc' (rows ++ (dv_row vec <$> seq 0 count)).
Proof.
  intros Hrep Hs Hn Hwf Hsv Hcnt Hnar.
  destruct (AppendFromVector_Ok s cc vec count rows Hrep Hwf) as (s' & cc' & Heq & Hrep' & _); try done.
  - by rewrite Hsv, Hs.
  - eapply Forall_impl; [exact Hnar|]. apply narrow_row_ok.
  - intros start k _. apply (narrow_storable _ _ lo); [done|done|]. by apply Forall_take, Forall_drop.
  - eauto.
Qed.

(** Overwriting rows in place, in compressed segments and pending rows
    alike, changes exactly the addressed rows. *)
Theorem column_write_rows (s : S) cc rows offs src lo :
  let rows' := apply_writes src (zip offs (seq 0 (length offs))) rows in
  chunk_rep s cc rows -> storage_of (type_ cc) = SInt -> (DEFAULT_BLOCK_SIZE <= Z.of_nat (bs_size s))%Z ->
  dv_wf src -> storage_of (dv_type src) = SInt -> dv_count src = length offs ->
  StronglySorted le offs -> Forall (fun o => o < length rows) offs -> Forall (narrow lo) rows' ->
  exists s' cc', WriteRows s cc offs src = Ok (s', cc') /\ chunk_rep s' cc' rows'.
Proof.
  intros rows' Hrep Hs Hn Hwf Hsv Hcnt Hsort Hoffs Hnar.
  destruct (WriteRows_Ok s cc rows offs src Hrep Hwf) as (s' & cc' & Heq & Hrep' & _); try done.
  - by rewrite Hsv, Hs.
  - eapply Forall_impl; [exact Hnar|]. apply narrow_row_ok.
  - intros start k _. apply (narrow_rewritable _ _ lo); [done|done|]. by apply Forall_take, Forall_drop.
  - eauto.
Qed.
End Claims.

Lemma column_scan_rows_witness :
  exists s' out, Scan sample_bm sample_cc (MakeScanState sample_cc 2) 3 = Ok (s', out) /\
    dv_rows out = [Some (CInt 1001); Some (CInt 5); None] /\ dv_wf out /\ dv_type out = INT32 /\
    chunk_rep s' sample_cc sample_rows.
Proof.
  apply (column_scan_rows sample_bm sample_cc sample_rows 2 3);
    [apply sample_rep|simpl; lia|unfold STANDARD_VECTOR_SIZE; lia].
Defined.

Lemma column_gather_rows_witness :
  exists s' out, ScanRows sample_bm sample_cc [1; 3] = Ok (s', out) /\
    dv_rows out = [Some (CInt 1003); Some (CInt 5)] /\ dv_wf out /\ chunk_rep s' sample_cc sample_rows.
Proof.
  apply (column_gather_rows sample_bm sample_cc sample_rows [1; 3]);
    [apply sample_rep|repeat constructor|repeat constructor; simpl; lia|unfold STANDARD_VECTOR_SIZE; simpl; lia].
Defined.

Definition empty_bm (n : nat) : BufferManager :=
  mkBM (Z.of_nat n) n 0 (Some (BlockFile.mkFile n 0 [] [])) ∅ [] 0.

Lemma empty_bm_ok n : 0 < n -> bm_ok (empty_bm n).
Proof.
  intros Hn. exists (BlockFile.mkFile n 0 [] []). split; [|done]. split; simpl; try done.
  all: try (intros; lia).
  - split; simpl; [done|lia|done|constructor].
  - intros id. split; [intros H; by apply not_elem_of_nil in H|]. intros (fr & Hfr & _). done.
  - constructor.
Qed.

Definition default_block : nat := Z.to_nat DEFAULT_BLOCK_SIZE.

Lemma default_block_size : (DEFAULT_BLOCK_SIZE <= Z.of_nat default_block)%Z /\ 0 < default_block.
Proof. unfold default_block, DEFAULT_BLOCK_SIZE. lia. Qed.

Definition vec_57 : DataVector := mkDV INT64 2 [5; 7]%Z [] [] 3%Z.

Lemma vec_57_wf : dv_wf vec_57.
Proof. apply dv_wf_bool; [done|unfold STANDARD_VECTOR_SIZE; simpl; lia|unfold dv_full; simpl; lia|by vm_compute]. Qed.

Definition cc_57 : ColumnChunk := mkCC INT64 [] vec_57 0 Stats_empty.

Lemma cc_57_rep : chunk_rep (empty_bm default_block) cc_57 [Some (CInt 5); Some (CInt 7)].
Proof.
  exists []. split_and!.
  - split.
    + apply empty_bm_ok, default_block_size.
    + constructor.
    + split; [apply vec_57_wf|unfold dv_full; simpl; lia|done].
    + constructor.
    + by left.
  - reflexivity.
  - repeat constructor; unfold row_ok, cell_ok, is_i64; lia.
Qed.

Lemma column_append_rows_witness :
  exists s' cc', AppendFromVector (empty_bm default_block) cc_57 vec_57 1 = Ok (s', cc') /\
    chunk_rep s' cc' ([Some (CInt 5); Some (CInt 7)] ++ [Some (CInt 5)]).
Proof.
  apply (column_append_rows (empty_bm default_block) cc_57 _ vec_57 1 0).
  - apply cc_57_rep.
  - reflexivity.
  - apply default_block_size.
  - apply vec_57_wf.
  - reflexivity.
  - simpl; lia.
  - repeat constructor; eexists; (split; [reflexivity|]); unfold is_i64; lia.
Defined.

Lemma column_write_rows_witness :
  exists s' cc', WriteRows (empty_bm default_block) cc_57 [1] (mkDV INT64 1 [9]%Z [] [] 1%Z) = Ok (s', cc') /\
    chunk_rep s' cc' [Some (CInt 5); Some (CInt 9)].
Proof.
  apply (column_write_rows (empty_bm default_block) cc_57 [Some (CInt 5); Some (CInt 7)] [1]
           (mkDV INT64 1 [9]%Z [] [] 1%Z) 0).
  - apply cc_57_rep.
  - reflexivity.
  - apply default_block_size.
  - apply dv_wf_bool; [done|unfold STANDARD_VECTOR_SIZE; simpl; lia|unfold dv_full; simpl; lia|by vm_compute].
  - reflexivity.
  - reflexivity.
  - repeat constructor.
  - repeat constructor; simpl; lia.
  - repeat constructor; eexists; (split; [reflexivity|]); unfold is_i64; lia.
Defined.
