(* ===== verification/ZoneMap.v ===== *)
(** * Zone maps

    Soundness of [ColumnChunk::ZoneMapSkipRows] and of the statistics it
    reads ([storage/column/column_chunk.cpp]).  A skip is sound when the
    statistics of every segment cover its rows; flushing keeps that, and so
    does an append that does not fill the pending vector half way.  An append
    that does breaks it: the segment is written before the statistics have
    seen its last rows. *)

From Stdlib Require Import ZArith.
From stdpp Require Import base strings list.
From S2P Require Import Prelude Types Compression BufferManager ColumnChunk.

(** [col op bound] for a value that is not NULL. *)
Definition pred_holds (op : ScanPredicateOp) (v bound : Value) : bool :=
  match op with
  | EQ => Value_eqb v bound
  | LT => Value_ltb v bound
  | LE => Value_ltb v bound || Value_eqb v bound
  | GT => Value_ltb bound v
  | GE => Value_ltb bound v || Value_eqb bound v
  end.

(** The exclusion test on well-formed values. *)
Lemma excluded_eq t st op bound :
  bound_typed t (min_val st) -> bound_typed t (max_val st) -> Value_wf bound ->
  excluded st op bound =
    Ok (bool_decide (stat_type t = vtype bound) &&
        match op with
        | EQ => Value_ltb bound (min_val st) || Value_ltb (max_val st) bound
        | GT => negb (Value_ltb bound (max_val st))
        | GE => Value_ltb (max_val st) bound
        | LT => negb (Value_ltb (min_val st) bound)
        | LE => Value_ltb bound (min_val st)
        end).
Proof.
  intros Hmn Hmx Hb. unfold excluded.
  rewrite (bound_typed_not_null t _ Hmn), (bound_typed_not_null t _ Hmx). simpl.
  destruct Hmn as [Hmw Hmt], Hmx as [Hxw Hxt]. rewrite Hmt.
  destruct (bool_decide (stat_type t = vtype bound)); [|done].
  destruct op; unfold or_r; rewrite !Value_lt_wf by done; cbn; try done.
  by destruct (Value_ltb bound (min_val st)).
Qed.

(** A segment whose statistics cover its rows is excluded only when none of
    its rows satisfies the predicate. *)
Lemma excluded_sound t st op bound rows c :
  covers t st rows -> stats_ordered st -> Value_wf bound -> bound_typed t (cell_value c) ->
  excluded st op bound = Ok true -> Some c ∈ rows ->
  pred_holds op (cell_value c) bound = false /\ stat_type t = vtype bound.
Proof.
  intros [_ Hcov] [Hom Hox] Hb [Hcw Hct] Hex Hin. destruct (Hcov c Hin) as (Hmn & Hmx & Hlo & Hhi).
  rewrite (excluded_eq t) in Hex by done. injection Hex as Hex. apply andb_true_iff in Hex as [Hty Hex].
  apply bool_decide_eq_true in Hty. destruct Hmn as [Hmw Hmt], Hmx as [Hxw Hxt].
  set (v := cell_value c) in *. split; [|done]. apply not_true_is_false. intros Hp. destruct op; simpl in Hp.
  - (* EQ *) destruct (Value_eqb_ltb _ _ (min_val st) Hp) as [H1 _].
    destruct (Value_eqb_ltb _ _ (max_val st) Hp) as [_ H2].
    apply orb_true_iff in Hex as [Hex|Hex]; congruence.
  - (* LT *) apply negb_true_iff in Hex.
    destruct (Value_ltb_cotrans v (min_val st) bound) as [H|H]; try done; congruence.
  - (* LE *) apply orb_true_iff in Hp as [Hp|Hp].
    + pose proof (Value_ltb_trans _ _ _ Hp Hex). congruence.
    + destruct (Value_eqb_ltb _ _ (min_val st) Hp) as [H1 _]. congruence.
  - (* GT *) apply negb_true_iff in Hex.
    destruct (Value_ltb_cotrans bound (max_val st) v) as [H|H]; try done; congruence.
  - (* GE *) apply orb_true_iff in Hp as [Hp|Hp].
    + pose proof (Value_ltb_trans _ _ _ Hex Hp). congruence.
    + destruct (Value_eqb_ltb _ _ (max_val st) Hp) as [_ H2]. congruence.
Qed.

Section ZoneMaps.
Context {S : Type} {BSops : BlockStore S} {BSlaws : BlockStoreLaws S}.

Definition seg_covered (t : TypeId) (seg : ColumnSegment) (v : DataVector) : Prop :=
  covers t (stats seg) (dv_rows v) /\ stats_ordered (stats seg).

(** The chunk's rows, with statistics that cover every segment and the
    pending rows. *)
Definition zone_rep (s : S) (cc : ColumnChunk) (rows : list (option cell)) : Prop :=
  exists vs, chunk_segs s cc vs /\ rows = concat (dv_rows <$> vs) ++ dv_rows (pending_data_ cc) /\
    Forall row_ok rows /\ Forall2 (seg_covered (type_ cc)) (segments_ cc) vs /\
    covers (type_ cc) (combined_stats_ cc) (dv_rows (pending_data_ cc)) /\ stats_ordered (combined_stats_ cc).

Lemma zone_rep_chunk s cc rows : zone_rep s cc rows -> chunk_rep s cc rows.
Proof. intros (vs & Hs & Hr & Hro & _). by exists vs. Qed.

Lemma zone_map_loop_sound s t segs vs pre rest off op bound n :
  Forall2 (seg_rep s t) segs vs -> Forall2 (seg_covered t) segs vs -> Value_wf bound -> storage_of t <> SNone ->
  length pre <= off ->
  zone_map_loop segs (length pre) off op bound = Ok n ->
  forall i c, off <= i < off + n -> (pre ++ concat (dv_rows <$> vs) ++ rest) !! i = Some (Some c) ->
    pred_holds op (cell_value c) bound = false /\ stat_type t = vtype bound /\ bound_typed t (cell_value c).
Proof.
  intros HF. revert pre. induction HF as [|seg v segs vs Hsr HF IH]; intros pre HC Hb Hst Hle; cbn [zone_map_loop].
  - intros [= <-] i c Hi. lia.
  - inversion HC as [|? ? ? ? [Hcov Hord] HC']; subst. rewrite fmap_cons. cbn [concat].
    assert (length (pre ++ dv_rows v) = length pre + row_count seg) as Hpl
      by (rewrite length_app, length_dv_rows; f_equal; apply Hsr).
    case_decide as Hd.
    + destruct (excluded (stats seg) op bound) as [[]|] eqn:Hex; cbn [mbind result_bind]; intros [= <-] i c Hi;
        cbn in Hi; [|lia].
      rewrite <- (app_assoc (dv_rows v)), (app_assoc pre). rewrite lookup_app_l by lia. rewrite lookup_app_r by lia. intros Hl.
      pose proof (lookup_lt_Some _ _ _ Hl) as Hlt. rewrite length_dv_rows in Hlt.
      assert (dv_row v (i - length pre) = Some c) as Hrow by (rewrite lookup_dv_rows in Hl by done; congruence).
      assert (bound_typed t (cell_value c)) as Hbt by (eapply (dv_row_typed v); [by rewrite (sr_type _ _ _ _ Hsr)|done|exact Hrow]).
      destruct (excluded_sound t (stats seg) op bound (dv_rows v) c) as [? ?]; try done. eapply list_elem_of_lookup_2, Hl.
    + rewrite <- Hpl. intros Hz i c Hi. rewrite <- (app_assoc (dv_rows v)), (app_assoc pre).
      apply (IH (pre ++ dv_rows v)); try done. lia.
Qed.

Lemma ZoneMapSkipRows_sound s cc rows off op bound n :
  zone_rep s cc rows -> Value_wf bound -> ZoneMapSkipRows cc off op bound = Ok n ->
  forall i c, off <= i < off + n -> rows !! i = Some (Some c) ->
    pred_holds op (cell_value c) bound = false /\ stat_type (type_ cc) = vtype bound /\ bound_typed (type_ cc) (cell_value c).
Proof.
  intros (vs & Hs & -> & _ & HC & _) Hb Hz i c Hi Hl.
  pose proof Hs as [_ Hsegs [Hwf _ Hty] _ _].
  refine (zone_map_loop_sound s (type_ cc) _ vs [] _ off op bound n Hsegs HC Hb _ _ Hz i c Hi Hl);
    [rewrite <- Hty; apply Hwf|simpl; lia].
Qed.

(** C29: rows are skipped only when none of them satisfies the predicate. *)
Theorem zone_map_sound s cc rows off op bound n :
  zone_rep s cc rows -> Value_wf bound -> ZoneMapSkipRows cc off op bound = Ok n ->
  forall i c, off <= i < off + n -> rows !! i = Some (Some c) -> pred_holds op (cell_value c) bound = false.
Proof. intros Hz Hb Hn i c Hi Hl. by destruct (ZoneMapSkipRows_sound s cc rows off op bound n Hz Hb Hn i c Hi Hl). Qed.

(** The test itself never fails on truthful statistics. *)
Lemma excluded_total t st op bound : stats_typed t st -> Value_wf bound -> exists b, excluded st op bound = Ok b.
Proof.
  intros [[Hn _]|[Hmn Hmx]] Hb; [|rewrite (excluded_eq t) by done; eauto]. exists false. unfold excluded. by rewrite Hn.
Qed.

Lemma ZoneMapSkipRows_total s cc rows off op bound :
  zone_rep s cc rows -> Value_wf bound -> exists n, ZoneMapSkipRows cc off op bound = Ok n.
Proof.
  intros (vs & _ & _ & _ & HC & _) Hb. unfold ZoneMapSkipRows. generalize 0. revert HC.
  generalize (segments_ cc). intros segs HC. induction HC as [|seg v segs vs' [[Hst _] _] _ IH]; intros cur; cbn [zone_map_loop]; [eauto|].
  case_decide; [|apply IH]. destruct (excluded_total _ (stats seg) op bound Hst Hb) as [b ->]. cbn [mbind result_bind]. eauto.
Qed.

Lemma zone_rep_same_view s s' cc rows :
  bs_ok s' -> (forall id, bs_view s' id = bs_view s id) -> zone_rep s cc rows -> zone_rep s' cc rows.
Proof.
  intros Hok Hv (vs & [Hst Hsegs Hp Hnd Hstats] & Hr & Hrest). exists vs. split; [|done]. split; try done.
  eapply Forall2_impl; [exact Hsegs|]. intros seg v. apply seg_rep_extends. intros b. by rewrite Hv.
Qed.

(** ** Keeping the statistics *)

Lemma Flush_zone s cc rows :
  zone_rep s cc rows -> (0 < dv_count (pending_data_ cc) -> storable (bs_size s) (pending_data_ cc)) ->
  exists s' cc', Flush s cc = Ok (s', cc') /\ zone_rep s' cc' rows /\ extends s s' /\
    type_ cc' = type_ cc /\ dv_count (pending_data_ cc') = 0.
Proof.
  intros Hz Hst. destruct (decide (dv_count (pending_data_ cc) = 0)) as [H0|Hpos].
  { unfold Flush. rewrite decide_True by done. by exists s, cc. }
  destruct Hz as (vs & Hs & -> & Hrows & HC & Hcov & Hord). pose proof Hs as [_ _ [Hwf _ Hty] _ _].
  destruct (Flush_segs s cc vs Hs) as (s' & cc' & seg & v & -> & Hs' & Hext & Hvr & Hvt & Hty' & Hsegs' & Hp' & Hst' & Hss & Hnew);
    [lia|by apply Forall_app in Hrows as [_ ?]|apply Hst; lia|].
  pose proof (wf_storage _ Hwf) as Hsto. rewrite Hty in Hsto.
  destruct (reset_pending_ok (type_ cc) Hsto) as (_ & _ & _ & Hrc & Hrr).
  exists s', cc'. split_and!; try done; [|by rewrite Hp'].
  exists (vs ++ [v]). rewrite Hp', Hrr, Hst', Hty', Hsegs'. split_and!; try done.
  - rewrite app_nil_r, fmap_app, concat_app. simpl. by rewrite Hvr, app_nil_r.
  - apply Forall2_app; [done|]. constructor; [|constructor]. split; rewrite ?Hss, ?Hvr; done.
  - apply covers_nil. apply Hcov.
Qed.

(** The rows an append may add without filling the pending vector half way. *)
Definition append_room (cc : ColumnChunk) : nat :=
  if decide (STANDARD_VECTOR_SIZE <= dv_count (pending_data_ cc)) then STANDARD_VECTOR_SIZE
  else STANDARD_VECTOR_SIZE - dv_count (pending_data_ cc).

(** One batch: the copy into the pending vector and the statistics. *)
Lemma append_batch_zone s cc rows vec count :
  zone_rep s cc rows -> dv_wf vec -> storage_of (dv_type vec) = storage_of (type_ cc) ->
  count <= length (cells vec) -> count <= STANDARD_VECTOR_SIZE - dv_count (pending_data_ cc) ->
  Forall row_ok (dv_row vec <$> seq 0 count) -> Forall row_ordered (dv_row vec <$> seq 0 count) ->
  exists p cc', BulkCopyRows (pending_data_ cc) vec 0 count = Ok p /\
    UpdateCombinedStats (set_pending cc p) vec count = Ok cc' /\
    zone_rep s cc' (rows ++ (dv_row vec <$> seq 0 count)).
Proof.
  intros (vs & Hs & -> & Hrows & HC & Hcov & Hso) Hwf Hsto Hcnt Hroom Hok Hord.
  pose proof Hs as [Hbs Hsegs [Hpw Hpf Hpt] Hnd Hst]. pose proof (wf_count _ Hpw) as Hmax.
  destruct (BulkCopyRows_Ok (pending_data_ cc) vec 0 count Hpw) as (p & -> & Hwp & Hfp & Htp & Hrp);
    [by rewrite Hpt|lia|lia|].
  pose proof (wf_storage _ Hwf) as Hn. rewrite Hsto in Hn.
  destruct (stats_loop_Ok (type_ cc) vec (combined_stats_ cc) count _ (eq_sym Hsto) Hn Hwf Hcov) as (st & Hl & Hcov' & Hso').
  exists p. eexists. split; [done|]. unfold UpdateCombinedStats. simpl. rewrite Hl. cbn [mbind result_bind].
  split; [done|]. exists vs. simpl. split_and!.
  - split; simpl; try done; [|apply Hcov']. split; simpl; try done. congruence.
  - by rewrite Hrp, app_assoc.
  - by apply Forall_app.
  - done.
  - by rewrite Hrp.
  - auto.
Qed.

(** An append that fits in one batch keeps the statistics truthful. *)
Theorem append_keeps_zone_map s cc rows vec count :
  zone_rep s cc rows -> dv_wf vec -> storage_of (dv_type vec) = storage_of (type_ cc) ->
  count <= length (cells vec) -> count <= append_room cc ->
  Forall row_ok (dv_row vec <$> seq 0 count) -> Forall row_ordered (dv_row vec <$> seq 0 count) ->
  (STANDARD_VECTOR_SIZE <= dv_count (pending_data_ cc) -> storable (bs_size s) (pending_data_ cc)) ->
  exists s' cc', AppendFromVector s cc vec count = Ok (s', cc') /\
    zone_rep s' cc' (rows ++ (dv_row vec <$> seq 0 count)).
Proof.
  intros Hz Hwf Hsto Hcnt Hroom Hok Hord Hst.
  assert (exists s1 cc1, (if decide (STANDARD_VECTOR_SIZE <= dv_count (pending_data_ cc)) then Flush s cc else Ok (s, cc))
      = Ok (s1, cc1) /\ zone_rep s1 cc1 rows /\ type_ cc1 = type_ cc /\
      count <= STANDARD_VECTOR_SIZE - dv_count (pending_data_ cc1)) as (s1 & cc1 & Hfl & Hz1 & Hty1 & Hroom1).
  { unfold append_room in Hroom. case_decide as Hd; [|by exists s, cc].
    destruct (Flush_zone s cc rows Hz) as (s1 & cc1 & -> & Hz1 & _ & Hty1 & Hc1); [auto|].
    exists s1, cc1. split_and!; try done. lia. }
  destruct (append_batch_zone s1 cc1 rows vec count Hz1 Hwf) as (p & st & Hcopy & Hupd & Hz2); try done;
    [by rewrite Hty1|].
  unfold AppendFromVector. destruct count as [|count'].
  - cbn [append_loop]. rewrite decide_True by lia. cbn [mbind result_bind]. unfold UpdateCombinedStats. cbn [seq foldM mbind result_bind].
    eexists _, _. split; [done|]. destruct cc as [t segs pd po stats]. simpl. simpl in *.
    by rewrite app_nil_r.
  - remember (Datatypes.S count') as count eqn:Hcount.
    replace (append_loop count s cc vec count 0) with (append_loop (Datatypes.S count') s cc vec count 0) by (by rewrite Hcount).
    cbn [append_loop]. rewrite decide_False by lia. rewrite Hfl. cbn [mbind result_bind]. rewrite Nat.sub_0_r, Nat.min_l by lia. rewrite Hcopy. cbn [mbind result_bind].
    assert (append_loop count' s1 (set_pending cc1 p) vec count (0 + count) = Ok (s1, set_pending cc1 p)) as ->
      by (destruct count'; cbn [append_loop]; by rewrite decide_True by lia).
    cbn [mbind result_bind]. rewrite Hupd. cbn [mbind result_bind]. eauto.
Qed.
End ZoneMaps.

Lemma sample_zone : zone_rep sample_bm sample_cc sample_rows.
Proof.
  destruct sample_rep as (vs & Hs & _).
  assert (dv_wf sample_pending) as Hp by (by destruct Hs as [_ _ [? _ _] _ _]).
  destruct sample_rep as (_ & _ & _ & Hro).
  exists [vec_123]. pose proof Hs as [Hok Hsegs Hpo Hnd Hst].
  assert (Forall2 (seg_rep sample_bm INT32) (segments_ sample_cc) [vec_123]) as HF.
  { constructor; [|constructor]. split; simpl; try done.
    - exists sample_block. split; vm_compute; reflexivity.
    - apply vec_123_ok.
    - unfold dv_full. simpl. lia. }
  assert (forall st z, (st = mkStats (Value_Integer 1000) (Value_Integer 1003) false /\ (1000 <= z <= 1003)%Z) \/
      (st = mkStats (Value_Integer 5) (Value_Integer 1003) true /\ (5 <= z <= 1003)%Z) ->
      bound_typed INT32 (min_val st) /\ bound_typed INT32 (max_val st) /\
      Value_ltb (Value_Integer z) (min_val st) = false /\ Value_ltb (max_val st) (Value_Integer z) = false) as Hb.
  { intros st z [[-> Hz]|[-> Hz]]; (split_and!; [done|done| |]); unfold Value_ltb; simpl; lia. }
  split_and!; [by split|reflexivity|done| | |done].
  - constructor; [|constructor]. split; [|done]. split; [by right|].
    intros c Hc. change (Some c ∈ [Some (CInt 1000); Some (CInt 1003); Some (CInt 1001)]) in Hc.
    assert (exists z, c = CInt z /\ (1000 <= z <= 1003)%Z) as (z & -> & Hz).
    { rewrite !elem_of_cons in Hc. destruct Hc as [[= ->]|[[= ->]|[[= ->]|Hc]]]; try (eexists; split; [done|lia]).
      by apply not_elem_of_nil in Hc. }
    apply Hb. by left.
  - split; [by right|]. intros c Hc. change (Some c ∈ [Some (CInt 5); None]) in Hc.
    assert (c = CInt 5) as ->.
    { rewrite !elem_of_cons in Hc. destruct Hc as [[= ->]|[Hc|Hc]]; try done. by apply not_elem_of_nil in Hc. }
    apply (Hb _ 5%Z). right. split; [done|lia].
Qed.

Lemma zone_map_sound_witness :
  ZoneMapSkipRows sample_cc 0 GT (Value_Integer 2000) = Ok 3 /\
  pred_holds GT (Value_Integer 1003) (Value_Integer 2000) = false.
Proof.
  split; [reflexivity|].
  apply (zone_map_sound sample_bm sample_cc sample_rows 0 GT (Value_Integer 2000) 3 sample_zone I eq_refl 1 (CInt 1003));
    [lia|reflexivity].
Defined.

Lemma append_keeps_zone_map_witness :
  exists s' cc', AppendFromVector sample_bm sample_cc vec_123 2 = Ok (s', cc') /\
    zone_rep s' cc' (sample_rows ++ [Some (CInt 1000); Some (CInt 1003)]).
Proof.
  apply (append_keeps_zone_map sample_bm sample_cc sample_rows vec_123 2).
  - apply sample_zone.
  - apply vec_123_ok.
  - reflexivity.
  - simpl. lia.
  - unfold append_room, STANDARD_VECTOR_SIZE. simpl. lia.
  - repeat constructor; unfold row_ok, cell_ok, is_i64; lia.
  - repeat constructor.
  - unfold STANDARD_VECTOR_SIZE. simpl. lia.
Defined.

(** After 1000 rows of value 5, an append of 100 rows whose first 24 are
    100 fills the pending vector and writes the segment with the statistics
    of the first append only: the search for 100 skips the whole segment,
    although row 1000 of the column is 100. *)
Theorem mid_append_flush_hides_rows :
  let v1 := mkDV INT64 1000 (replicate 1000 5%Z) [] [] (2 ^ 1000 - 1)%Z in
  let v2 := mkDV INT64 100 (replicate 24 100%Z ++ replicate 76 5%Z) [] [] (2 ^ 100 - 1)%Z in
  match ('(s, cc) ← AppendFromVector (BM_new 65536 4096 None) (CC_new INT64) v1 1000;
         '(s, cc) ← AppendFromVector s cc v2 100;
         skip ← ZoneMapSkipRows cc 0 EQ (Value_Integer 100);
         '(_, out) ← Scan s cc (MakeScanState cc 1000) 1;
         Ok (skip, dv_rows out)) with
  | Ok (skip, found) => skip = 1024 /\ found = [Some (CInt 100)]
  | Err _ => False
  end.
Proof. vm_compute. split; reflexivity. Qed.
