(* ===== verification/RowGroup.v ===== *)
(** * Row groups

    [storage/column/row_group.hpp] and [row_group.cpp]: the column chunks of
    up to 122880 rows with their version markers.  A row group represents a
    list of columns, each a list of rows ([rg_rep]); a scan returns the rows
    of its range that are visible to the transaction, by the fast path and by
    the per-row test alike, and an append that is rolled back before a flush
    leaves no trace.  Two claims show what the single [pending_append_start_]
    and the missing case of [RevertAppend] cost. *)

From Stdlib Require Import ZArith.
From stdpp Require Import base gmap strings list sorting.
From S2P Require Import Prelude Types Compression BufferManager ColumnChunk VersionInfo.

Record RowGroup : Type := mkRG {
  row_group_id_ : Z;
  row_count_ : nat;
  col_types_ : list TypeId;
  column_chunks_ : list ColumnChunk;
  version_info_ : VersionInfo;
  pending_append_start_ : nat;
  pending_append_tx_id_ : Z;
}.

Definition RG_new (id : Z) (col_types : list TypeId) : RowGroup :=
  mkRG id 0 col_types (CC_new <$> col_types) VI_empty 0 INVALID_TRANSACTION.

(** [static_cast<uint32_t>(i)] of a row position. *)
Definition row_key (i : nat) : Z := u32 (Z.of_nat i).

Definition with_version (rg : RowGroup) (vi : VersionInfo) : RowGroup :=
  mkRG (row_group_id_ rg) (row_count_ rg) (col_types_ rg) (column_chunks_ rg) vi
       (pending_append_start_ rg) (pending_append_tx_id_ rg).

Definition with_chunks (rg : RowGroup) (ccs : list ColumnChunk) : RowGroup :=
  mkRG (row_group_id_ rg) (row_count_ rg) (col_types_ rg) ccs (version_info_ rg)
       (pending_append_start_ rg) (pending_append_tx_id_ rg).

Definition SetRowCount (rg : RowGroup) (n : nat) : RowGroup :=
  mkRG (row_group_id_ rg) n (col_types_ rg) (column_chunks_ rg) (version_info_ rg)
       (pending_append_start_ rg) (pending_append_tx_id_ rg).

Fixpoint rg_ZoneMapSkipRows (rg : RowGroup) (row_offset : nat) (predicates : list ScanPredicate) : result nat :=
  match predicates with
  | [] => Ok 0
  | pred :: preds =>
      match column_chunks_ rg !! pred_col_idx pred with
      | Some cc =>
          skip ← ZoneMapSkipRows cc row_offset (pred_op pred) (pred_bound pred);
          if decide (0 < skip) then Ok skip else rg_ZoneMapSkipRows rg row_offset preds
      | None => rg_ZoneMapSkipRows rg row_offset preds
      end
  end.

Section Operations.
Context {S : Type} {BSops : BlockStore S}.

(** Reads [n] rows of each requested column from [row_offset] on. *)
Fixpoint scan_columns (s : S) (rg : RowGroup) (row_offset n : nat) (col_ids : list nat)
    : result (S * list DataVector) :=
  match col_ids with
  | [] => Ok (s, [])
  | c :: col_ids =>
      cc ← of_option UndefinedBehaviour (column_chunks_ rg !! c);
      '(s, v) ← Scan s cc (MakeScanState cc row_offset) n;
      '(s, vs) ← scan_columns s rg row_offset n col_ids;
      Ok (s, v :: vs)
  end.

(** The positions of the batch whose rows the transaction sees. *)
Definition selection (vi : VersionInfo) (row_offset n : nat) (tx start : Z) : list nat :=
  filter (fun i => IsVisible vi (row_key (row_offset + i)) tx start = true) (seq 0 n).

(** Slices the chunk when some row of the batch is not selected. *)
Definition filter_chunk (chunk : DataChunk) (n : nat) (sel : list nat) : result DataChunk :=
  if decide (length sel < n) then DataChunkSlice chunk sel else Ok chunk.

(** [RowGroup::Scan]: the new [row_offset] and the rows placed in the chunk.
    At the end of the group the chunk of the caller is left alone. *)
Definition rg_Scan (s : S) (rg : RowGroup) (row_offset : nat) (col_ids : list nat) (chunk : DataChunk)
    (tx start : Z) : result (S * nat * DataChunk * nat) :=
  if decide (row_count_ rg <= row_offset) then Ok (s, row_offset, chunk, 0) else
  let n := Nat.min STANDARD_VECTOR_SIZE (row_count_ rg - row_offset) in
  '(s, vs) ← scan_columns s rg row_offset n col_ids;
  let chunk := mkChunk vs n in
  chunk ← (if HasAnyMarkers (version_info_ rg) && negb (AllInsertedVisibleTo (version_info_ rg) start)
           then filter_chunk chunk n (selection (version_info_ rg) row_offset n tx start)
           else Ok chunk);
  Ok (s, row_offset + n, chunk, ch_count chunk).

Definition ScanBatchWithOffsets (s : S) (rg : RowGroup) (row_offset : nat) (col_ids : list nat)
    (chunk : DataChunk) (offsets : list Z) (tx start : Z) : result (S * nat * DataChunk * list Z * nat) :=
  if decide (row_count_ rg <= row_offset) then Ok (s, row_offset, chunk, offsets, 0) else
  let n := Nat.min STANDARD_VECTOR_SIZE (row_count_ rg - row_offset) in
  '(s, vs) ← scan_columns s rg row_offset n col_ids;
  let sel := selection (version_info_ rg) row_offset n tx start in
  chunk ← filter_chunk (mkChunk vs n) n sel;
  Ok (s, row_offset + n, chunk, (fun i => row_key (row_offset + i)) <$> sel, ch_count chunk).

Fixpoint late_columns (s : S) (rg : RowGroup) (row_offsets : list nat) (col_ids : list nat)
    : result (S * list DataVector) :=
  match col_ids with
  | [] => Ok (s, [])
  | c :: col_ids =>
      cc ← of_option UndefinedBehaviour (column_chunks_ rg !! c);
      '(s, v) ← ScanRows s cc row_offsets;
      '(s, vs) ← late_columns s rg row_offsets col_ids;
      Ok (s, v :: vs)
  end.

Definition ScanLate (s : S) (rg : RowGroup) (row_offsets late_col_ids : list nat) : result (S * DataChunk) :=
  '(s, vs) ← late_columns s rg row_offsets late_col_ids;
  Ok (s, mkChunk vs (length row_offsets)).

(** The columns of the chunk go to the column chunks [col_ids] names. *)
Fixpoint append_columns (s : S) (ccs : list ColumnChunk) (col_ids : list nat) (cols : list DataVector)
    (count : nat) : result (S * list ColumnChunk) :=
  match col_ids with
  | [] => Ok (s, ccs)
  | c :: col_ids =>
      match ccs !! c, cols with
      | Some cc, v :: cols =>
          '(s, cc) ← AppendFromVector s cc v count;
          append_columns s (<[c := cc]> ccs) col_ids cols count
      | _, _ => Err UndefinedBehaviour
      end
  end.

Definition mark_inserted_rows (vi : VersionInfo) (start count : nat) (tx : Z) : VersionInfo :=
  foldl (fun vi i => MarkInserted vi (row_key (start + i)) tx) vi (seq 0 count).

Definition Append (s : S) (rg : RowGroup) (chunk : DataChunk) (col_ids : list nat) (tx : Z)
    : result (S * RowGroup) :=
  '(s, ccs) ← append_columns s (column_chunks_ rg) col_ids (columns chunk) (ch_count chunk);
  let vi := if Z.eqb tx INVALID_TRANSACTION then version_info_ rg
            else mark_inserted_rows (version_info_ rg) (row_count_ rg) (ch_count chunk) tx in
  Ok (s, mkRG (row_group_id_ rg) (row_count_ rg + ch_count chunk) (col_types_ rg) ccs vi (row_count_ rg) tx).

Definition CommitAppend (rg : RowGroup) (commit_time : Z) : RowGroup :=
  with_version rg
    (foldl (fun vi i => CommitInsert vi (row_key i) commit_time) (version_info_ rg)
       (seq (pending_append_start_ rg) (row_count_ rg - pending_append_start_ rg))).

Definition revert_chunk (start : nat) (cc : ColumnChunk) : result ColumnChunk :=
  let seg_rows := SegmentRowCount cc in
  if decide (seg_rows <= start) then TruncatePending cc (start - seg_rows) else TruncatePending cc 0.

Definition RevertAppend (rg : RowGroup) : result RowGroup :=
  let start := pending_append_start_ rg in
  let vi := foldl (fun vi i => RevertInsert vi (row_key i)) (version_info_ rg) (seq start (row_count_ rg - start)) in
  ccs ← mapM_r (revert_chunk start) (column_chunks_ rg);
  Ok (mkRG (row_group_id_ rg) start (col_types_ rg) ccs vi (pending_append_start_ rg) (pending_append_tx_id_ rg)).

Fixpoint flush_columns (s : S) (ccs : list ColumnChunk) : result (S * list ColumnChunk) :=
  match ccs with
  | [] => Ok (s, [])
  | cc :: ccs => '(s, cc) ← Flush s cc; '(s, ccs) ← flush_columns s ccs; Ok (s, cc :: ccs)
  end.

Definition rg_Flush (s : S) (rg : RowGroup) : result (S * RowGroup) :=
  '(s, ccs) ← flush_columns s (column_chunks_ rg); Ok (s, with_chunks rg ccs).
End Operations.

(** ** Representation *)

Definition col_of (cols : list (list (option cell))) (c : nat) : list (option cell) := default [] (cols !! c).

(** The block numbers of a chunk. *)
Definition chunk_ids (cc : ColumnChunk) : list Z := block_id <$> segments_ cc.

Section Representation.
Context {S : Type} {BSops : BlockStore S} {BSlaws : BlockStoreLaws S}.

(** [cols] are the columns of the group, each of [row_count_] rows, and no
    two chunks share a block. *)
Record rg_rep (s : S) (rg : RowGroup) (cols : list (list (option cell))) : Prop := {
  rr_store : bs_ok s;
  rr_cols : Forall2 (chunk_rep s) (column_chunks_ rg) cols;
  rr_len : Forall (fun col => length col = row_count_ rg) cols;
  rr_ids : NoDup (concat (chunk_ids <$> column_chunks_ rg));
}.

Lemma rg_rep_same_view s s' rg cols :
  bs_ok s' -> (forall id, bs_view s' id = bs_view s id) -> rg_rep s rg cols -> rg_rep s' rg cols.
Proof.
  intros Hok Hv [_ HF Hl Hnd]. split; try done. eapply Forall2_impl; [exact HF|].
  intros cc col. apply chunk_rep_frame; [done|]. intros id b _. by rewrite Hv.
Qed.

(** Reads may load blocks, but change the contents of none. *)
Definition same_view (s s' : S) : Prop := bs_ok s' /\ bs_size s' = bs_size s /\ forall id, bs_view s' id = bs_view s id.

Lemma same_view_trans s1 s2 s3 : same_view s1 s2 -> same_view s2 s3 -> same_view s1 s3.
Proof. intros (_ & Hz1 & H1) (Hok & Hz2 & H2). split_and!; [done|congruence|]. intros id. by rewrite H2, H1. Qed.

Lemma same_view_rep s s' rg cols : same_view s s' -> rg_rep s rg cols -> rg_rep s' rg cols.
Proof. intros (Hok & _ & Hv). by apply rg_rep_same_view. Qed.

Definition col_type (rg : RowGroup) (c : nat) : TypeId := from_option type_ INVALID (column_chunks_ rg !! c).

(** One scanned column. *)
Definition scanned (cols : list (list (option cell))) (off n : nat) (c : nat) (v : DataVector) : Prop :=
  dv_wf v /\ dv_count v = n /\ dv_rows v = slice off n (col_of cols c) /\ dv_full v.

Lemma scan_columns_Ok s rg cols off n col_ids :
  rg_rep s rg cols -> off + n <= row_count_ rg -> n <= STANDARD_VECTOR_SIZE ->
  Forall (fun c => c < length cols) col_ids ->
  exists s' vs, scan_columns s rg off n col_ids = Ok (s', vs) /\ same_view s s' /\
    Forall2 (scanned cols off n) col_ids vs /\ dv_type <$> vs = col_type rg <$> col_ids.
Proof.
  intros Hrep Hoff Hn Hids. revert s Hrep. induction Hids as [|c col_ids Hc _ IH]; intros s Hrep; cbn [scan_columns].
  - exists s, []. pose proof (rr_store _ _ _ Hrep). done.
  - pose proof Hrep as [Hok HF Hl Hnd]. destruct (lookup_lt_is_Some_2 cols c Hc) as [col Hcol].
    destruct (Forall2_lookup_r _ _ _ _ _ HF Hcol) as (cc & Hcc & Hcr). rewrite Hcc. cbn [of_option mbind result_bind].
    pose proof (Forall_lookup_1 _ _ _ _ Hl Hcol) as Hlen. simpl in Hlen.
    destruct (Scan_Ok s cc col off n Hcr) as (s1 & v & -> & (Hwf & Hfull & Hty & Hr) & Hok1 & Hsz1 & Hv1); [lia|done|].
    cbn [mbind result_bind].
    destruct (IH s1) as (s2 & vs & -> & Hv2 & Hvs & Hts); [by apply (rg_rep_same_view s)|].
    cbn [mbind result_bind]. exists s2, (v :: vs). split_and!; try done; [by apply (same_view_trans s s1)| |].
    2: { rewrite !fmap_cons, Hts, Hty. unfold col_type. by rewrite Hcc. }
    constructor; [|done].
    assert (col_of cols c = col) as Hco by (unfold col_of; by rewrite Hcol).
    split_and!; [done| |by rewrite Hco|done]. rewrite <- length_dv_rows, Hr, length_slice; [done|lia].
Qed.

Lemma scanned_row cols off n c v i :
  scanned cols off n c v -> off + n <= length (col_of cols c) -> i < n -> dv_row v i = row_at (col_of cols c) (off + i).
Proof.
  intros (Hwf & Hc & Hr & _) Hle Hi. assert (dv_rows v !! i = Some (dv_row v i)) as Hl by (apply lookup_dv_rows; lia).
  rewrite Hr, lookup_slice in Hl by done. unfold row_at. by rewrite Hl.
Qed.

Lemma filter_all {A} (P : A -> Prop) `{forall x, Decision (P x)} l : Forall P l -> filter P l = l.
Proof. induction 1 as [|x l Hx _ IH]; [done|]. rewrite filter_cons_True by done. by rewrite IH. Qed.

(** A selection as long as the batch is the whole batch. *)
Lemma selection_full vi off n tx start :
  n <= length (selection vi off n tx start) -> selection vi off n tx start = seq 0 n.
Proof.
  intros Hle. unfold selection in *. set (P := fun i => _) in *.
  assert (forall l, length (filter P l) = length l -> filter P l = l) as Hfull.
  { induction l as [|x l IH]; [done|]. rewrite filter_cons. case_decide; simpl.
    - intros [= Hl]. f_equal. auto.
    - intros Hl. pose proof (length_filter P l). lia. }
  apply Hfull. pose proof (length_filter P (seq 0 n)). rewrite length_seq in *. lia.
Qed.

Lemma selection_bound vi off n tx start : Forall (fun i => i < n) (selection vi off n tx start).
Proof.
  apply Forall_forall. intros i Hi. apply list_elem_of_filter in Hi as [_ Hi]. apply elem_of_seq in Hi. lia.
Qed.

(** The visible rows of a batch of one column. *)
Definition visible_rows (vi : VersionInfo) (tx start : Z) (off n : nat) (col : list (option cell)) : list (option cell) :=
  (fun i => row_at col (off + i)) <$> selection vi off n tx start.

Lemma scanned_rows cols off n sel col_ids vs :
  Forall2 (scanned cols off n) col_ids vs -> Forall (fun c => off + n <= length (col_of cols c)) col_ids ->
  Forall (fun i => i < n) sel ->
  ((fun v => dv_row v <$> sel) <$> vs) = ((fun c => (fun i => row_at (col_of cols c) (off + i)) <$> sel) <$> col_ids).
Proof.
  intros HF Hlen Hsel. induction HF as [|c v col_ids vs Hs _ IH]; [done|]. apply Forall_cons in Hlen as [Hc Hlen].
  rewrite !fmap_cons. f_equal; [|by apply IH]. apply list_fmap_ext. intros j i Hi.
  apply (scanned_row cols off n c v i Hs Hc). exact (Forall_lookup_1 _ _ _ _ Hsel Hi).
Qed.

(** Filtering the scanned batch by a selection. *)
Lemma filter_chunk_Ok cols off n vi tx start col_ids vs :
  let sel := selection vi off n tx start in
  Forall2 (scanned cols off n) col_ids vs -> Forall (fun c => off + n <= length (col_of cols c)) col_ids ->
  n <= STANDARD_VECTOR_SIZE ->
  exists chunk, filter_chunk (mkChunk vs n) n sel = Ok chunk /\
    (dv_rows <$> columns chunk) = (visible_rows vi tx start off n <$> (col_of cols <$> col_ids)) /\
    ch_count chunk = length sel /\ chunk_wf chunk /\ col_types chunk = dv_type <$> vs /\ Forall dv_full (columns chunk).
Proof.
  intros sel HF Hlen Hn.
  assert (Forall (fun col => dv_wf col /\ dv_count col = n) vs) as Hwf.
  { clear Hlen. induction HF as [|c v ? ? (Hw & Hc & _) _ IH]; constructor; done. }
  pose proof (scanned_rows cols off n sel col_ids vs HF Hlen (selection_bound _ _ _ _ _)) as Hrows.
  unfold filter_chunk. case_decide as Hd.
  - destruct (DataChunkSlice_Ok (mkChunk vs n) sel) as (chunk & -> & Hc & Hcw & Hcf & Hr & Hct);
      [done|apply selection_bound|lia|].
    exists chunk. split_and!; try done. rewrite Hr. simpl. rewrite Hrows. by rewrite <- list_fmap_compose.
  - assert (sel = seq 0 n) as Hs by (apply selection_full; unfold sel in Hd; lia).
    exists (mkChunk vs n). split_and!; try done; [|simpl; by rewrite Hs, length_seq|].
    2: { clear -HF. simpl. induction HF as [|c v ? ? (_ & _ & _ & Hf) _ IH]; by constructor. }
    simpl. rewrite <- list_fmap_compose. unfold visible_rows. fold sel.
    etrans; [|exact Hrows]. apply list_fmap_ext. intros j v Hv.
    destruct (Forall_lookup_1 _ _ _ _ Hwf Hv) as [_ Hcv]. rewrite Hs. unfold dv_rows. by rewrite Hcv.
Qed.

(** The markers come from a history that respects the protocol. *)
Definition version_reachable (vi : VersionInfo) : Prop := exists pend, rtc vstep (VI_empty, []) (vi, pend).

(** When the scan skips the test, the selection is the whole batch. *)
Lemma skip_test_full vi off n tx start :
  version_reachable vi -> HasAnyMarkers vi && negb (AllInsertedVisibleTo vi start) = false ->
  selection vi off n tx start = seq 0 n.
Proof.
  intros [pend Hreach] Hskip. apply filter_all, Forall_forall. intros i _.
  apply andb_false_iff in Hskip as [Hm|Ha].
  - apply bool_decide_eq_false in Hm. unfold IsVisible.
    destruct (markers_ vi !! row_key (off + i)) as [m|] eqn:E; [|done]. exfalso. apply Hm. intros H0.
    rewrite H0 in E. done.
  - apply negb_false_iff in Ha. by eapply fast_path_visible.
Qed.

Lemma batch_in_columns s rg cols off n col_ids :
  rg_rep s rg cols -> off + n <= row_count_ rg -> Forall (fun c => c < length cols) col_ids ->
  Forall (fun c => off + n <= length (col_of cols c)) col_ids.
Proof.
  intros [_ _ Hl _] Hle Hids. eapply Forall_impl; [exact Hids|]. intros c Hc. simpl in Hc.
  destruct (lookup_lt_is_Some_2 cols c Hc) as [col Hcol]. unfold col_of. rewrite Hcol. simpl.
  rewrite (Forall_lookup_1 _ _ _ _ Hl Hcol). done.
Qed.

Lemma rg_Scan_Ok s rg cols off col_ids c0 tx start :
  let n := Nat.min STANDARD_VECTOR_SIZE (row_count_ rg - off) in
  rg_rep s rg cols -> version_reachable (version_info_ rg) -> off < row_count_ rg ->
  Forall (fun c => c < length cols) col_ids ->
  exists s' chunk, rg_Scan s rg off col_ids c0 tx start = Ok (s', off + n, chunk, ch_count chunk) /\
    (dv_rows <$> columns chunk) = (visible_rows (version_info_ rg) tx start off n <$> (col_of cols <$> col_ids)) /\
    same_view s s' /\ ch_count chunk = length (selection (version_info_ rg) off n tx start) /\ chunk_wf chunk /\
    col_types chunk = col_type rg <$> col_ids /\ Forall dv_full (columns chunk).
Proof.
  intros n Hrep Hreach Hoff Hids. unfold rg_Scan. rewrite decide_False by lia. fold n.
  destruct (scan_columns_Ok s rg cols off n col_ids Hrep) as (s' & vs & -> & Hv & HF & Hty); [lia|lia|done|].
  cbn [mbind result_bind].
  destruct (filter_chunk_Ok cols off n (version_info_ rg) tx start col_ids vs HF) as (chunk & Hf & Hr & Hc & Hwf & Hct & Hfull);
    [eapply batch_in_columns; [done|lia|done]|lia|].
  rewrite Hty in Hct. destruct (_ && _) eqn:Hskip.
  - rewrite Hf. cbn [mbind result_bind]. eauto 10.
  - assert (chunk = mkChunk vs n) as ->.
    { unfold filter_chunk in Hf. rewrite (skip_test_full _ off n tx start Hreach Hskip), length_seq in Hf.
      rewrite decide_False in Hf by lia. congruence. }
    cbn [mbind result_bind]. eauto 10.
Qed.

(** C3: RowGroup::Scan returns, for every requested column, exactly the rows of
    the next batch that are visible to the transaction, in order, fast path
    included, and advances past the batch, for a row group whose columns are
    well formed and whose markers are reached by the protocol of [vstep], in
    which every commit or revert resolves one pending mark. CommitAppend breaks
    the protocol for a transaction with two INSERTs into one row group, and the
    fast path is then wrong ([double_commit_breaks_fast_path]). *)
Theorem row_group_scan_visible s rg cols off col_ids c0 tx start :
  let n := Nat.min STANDARD_VECTOR_SIZE (row_count_ rg - off) in
  rg_rep s rg cols -> version_reachable (version_info_ rg) -> off < row_count_ rg ->
  Forall (fun c => c < length cols) col_ids ->
  exists s' chunk, rg_Scan s rg off col_ids c0 tx start = Ok (s', off + n, chunk, ch_count chunk) /\
    (dv_rows <$> columns chunk) = (visible_rows (version_info_ rg) tx start off n <$> (col_of cols <$> col_ids)) /\
    rg_rep s' rg cols.
Proof.
  intros n Hrep Hreach Hoff Hids.
  destruct (rg_Scan_Ok s rg cols off col_ids c0 tx start Hrep Hreach Hoff Hids) as (s' & chunk & H & Hr & Hv & _).
  exists s', chunk. split_and!; try done. by apply (same_view_rep s).
Qed.

Lemma late_columns_Ok s rg cols offs col_ids :
  rg_rep s rg cols -> StronglySorted le offs -> Forall (fun o => o < row_count_ rg) offs ->
  length offs <= STANDARD_VECTOR_SIZE -> Forall (fun c => c < length cols) col_ids ->
  exists s' vs, late_columns s rg offs col_ids = Ok (s', vs) /\ same_view s s' /\
    dv_rows <$> vs = (fun c => row_at (col_of cols c) <$> offs) <$> col_ids /\
    Forall dv_wf vs /\ dv_type <$> vs = col_type rg <$> col_ids /\ Forall dv_full vs.
Proof.
  intros Hrep Hsort Hoffs Hlen Hids. revert s Hrep.
  induction Hids as [|c col_ids Hc _ IH]; intros s Hrep; cbn [late_columns].
  - exists s, []. pose proof (rr_store _ _ _ Hrep). done.
  - pose proof Hrep as [Hok HF Hl Hnd]. destruct (lookup_lt_is_Some_2 cols c Hc) as [col Hcol].
    destruct (Forall2_lookup_r _ _ _ _ _ HF Hcol) as (cc & Hcc & Hcr). rewrite Hcc. cbn [of_option mbind result_bind].
    pose proof (Forall_lookup_1 _ _ _ _ Hl Hcol) as Hcl. simpl in Hcl.
    destruct (ScanRows_Ok s cc col offs Hcr Hsort) as (s1 & v & -> & (Hwf & Hfull & Hty & Hr) & Hok1 & Hsz1 & Hv1);
      [by rewrite Hcl|done|].
    cbn [mbind result_bind].
    destruct (IH s1) as (s2 & vs & -> & Hv2 & Hvs & Hwfs & Hts & Hfs); [by apply (rg_rep_same_view s)|].
    cbn [mbind result_bind]. exists s2, (v :: vs). split_and!; try done; [by apply (same_view_trans s s1)| |by constructor| |by constructor].
    + rewrite !fmap_cons, Hvs, Hr. unfold col_of. by rewrite Hcol.
    + rewrite !fmap_cons, Hts, Hty. unfold col_type. by rewrite Hcc.
Qed.

Lemma row_key_small i : (Z.of_nat i < 2 ^ 32)%Z -> row_key i = Z.of_nat i.
Proof. intros Hi. apply u32_id. unfold is_u32. lia. Qed.

Lemma StronglySorted_filter {A} (R : A -> A -> Prop) (P : A -> Prop) `{forall x, Decision (P x)} l :
  StronglySorted R l -> StronglySorted R (filter P l).
Proof.
  induction 1 as [|x l Hl IH Hx]; [constructor|]. rewrite filter_cons. case_decide; [|done].
  constructor; [done|]. apply Forall_forall. intros y Hy. apply list_elem_of_filter in Hy as [_ Hy].
  rewrite Forall_forall in Hx. auto.
Qed.

Lemma StronglySorted_seq start n : StronglySorted le (seq start n).
Proof.
  revert start. induction n as [|n IH]; intros start; simpl; constructor; [done|].
  apply Forall_forall. intros x Hx%elem_of_seq. lia.
Qed.

Lemma StronglySorted_shift off l : StronglySorted le l -> StronglySorted le (Nat.add off <$> l).
Proof.
  induction 1 as [|x l Hl IH Hx]; simpl; constructor; [done|]. rewrite Forall_fmap.
  eapply Forall_impl; [exact Hx|]. simpl. lia.
Qed.

Lemma ScanBatchWithOffsets_Ok s rg cols off early c0 o0 tx start :
  let n := Nat.min STANDARD_VECTOR_SIZE (row_count_ rg - off) in
  let sel := selection (version_info_ rg) off n tx start in
  rg_rep s rg cols -> off < row_count_ rg -> Forall (fun c => c < length cols) early ->
  exists s1 chunk, ScanBatchWithOffsets s rg off early c0 o0 tx start =
      Ok (s1, off + n, chunk, (fun i => row_key (off + i)) <$> sel, ch_count chunk) /\
    (dv_rows <$> columns chunk) = (visible_rows (version_info_ rg) tx start off n <$> (col_of cols <$> early)) /\
    same_view s s1 /\ ch_count chunk = length sel /\ chunk_wf chunk /\ col_types chunk = col_type rg <$> early.
Proof.
  intros n sel Hrep Hoff Hearly. unfold ScanBatchWithOffsets. rewrite decide_False by lia. fold n.
  destruct (scan_columns_Ok s rg cols off n early Hrep) as (s1 & vs & -> & Hv1 & HF & Hty); [lia|lia|done|].
  cbn [mbind result_bind].
  destruct (filter_chunk_Ok cols off n (version_info_ rg) tx start early vs HF) as (chunk & Hf & Hr & Hc & Hwf & Hct & Hfull);
    [eapply batch_in_columns; [done|lia|done]|lia|].
  fold sel in Hf, Hc |- *. rewrite Hf. cbn [mbind result_bind]. rewrite Hty in Hct. eauto 10.
Qed.

Lemma length_selection vi off n tx start : length (selection vi off n tx start) <= n.
Proof.
  unfold selection. etrans; [apply length_filter|]. by rewrite length_seq.
Qed.

(** The offsets of a batch, as positions of the group. *)
Lemma batch_offsets vi off n tx start count :
  (Z.of_nat count < 2 ^ 32)%Z -> off + n <= count ->
  Z.to_nat <$> ((fun i => row_key (off + i)) <$> selection vi off n tx start) = Nat.add off <$> selection vi off n tx start.
Proof.
  intros Hmax Hle. rewrite <- list_fmap_compose. apply list_fmap_ext. intros j i Hi. simpl.
  pose proof (Forall_lookup_1 _ _ _ _ (selection_bound vi off n tx start) Hi) as Hin. simpl in Hin. rewrite row_key_small by lia. lia.
Qed.

(** Late reads at positions [off + i] for an ascending list of [i]. *)
Lemma ScanLate_Ok s rg cols off n sel late :
  rg_rep s rg cols -> off + n <= row_count_ rg -> n <= STANDARD_VECTOR_SIZE ->
  StronglySorted le sel -> Forall (fun i => i < n) sel -> length sel <= n ->
  Forall (fun c => c < length cols) late ->
  exists s' chunk, ScanLate s rg (Nat.add off <$> sel) late = Ok (s', chunk) /\ ch_count chunk = length sel /\
    (dv_rows <$> columns chunk) = (fun c => (fun i => row_at (col_of cols c) (off + i)) <$> sel) <$> late /\
    same_view s s' /\ Forall dv_wf (columns chunk) /\ col_types chunk = col_type rg <$> late /\ Forall dv_full (columns chunk).
Proof.
  intros Hrep Hle Hn Hsort Hsel Hlen Hlate. unfold ScanLate.
  destruct (late_columns_Ok s rg cols (Nat.add off <$> sel) late Hrep) as (s2 & vs2 & -> & Hv & Hr2 & Hwf & Hty & Hfull); try done.
  - by apply StronglySorted_shift.
  - rewrite Forall_fmap. eapply Forall_impl; [exact Hsel|]. simpl. lia.
  - rewrite length_fmap. lia.
  - cbn [mbind result_bind]. eexists _, _. split; [done|]. simpl. rewrite length_fmap. split_and!; try done.
    rewrite Hr2. apply list_fmap_ext. intros j c _. by rewrite <- list_fmap_compose.
Qed.

(** The batch of a scan with offsets and the late read at those offsets
    agree: reading other columns at the returned offsets gives the visible
    rows of the same batch, so early and late columns line up. *)
Theorem late_scan_aligned s rg cols off early late c0 o0 tx start :
  let n := Nat.min STANDARD_VECTOR_SIZE (row_count_ rg - off) in
  rg_rep s rg cols -> (Z.of_nat (row_count_ rg) < 2 ^ 32)%Z -> off < row_count_ rg ->
  Forall (fun c => c < length cols) early -> Forall (fun c => c < length cols) late ->
  exists s1 chunk offs k, ScanBatchWithOffsets s rg off early c0 o0 tx start = Ok (s1, off + n, chunk, offs, k) /\
    (dv_rows <$> columns chunk) = (visible_rows (version_info_ rg) tx start off n <$> (col_of cols <$> early)) /\
    exists s2 chunk', ScanLate s1 rg (Z.to_nat <$> offs) late = Ok (s2, chunk') /\ ch_count chunk' = k /\
      (dv_rows <$> columns chunk') = (visible_rows (version_info_ rg) tx start off n <$> (col_of cols <$> late)) /\
      rg_rep s2 rg cols.
Proof.
  intros n Hrep Hmax Hoff Hearly Hlate.
  destruct (ScanBatchWithOffsets_Ok s rg cols off early c0 o0 tx start Hrep Hoff Hearly) as (s1 & chunk & -> & Hr & Hv1 & Hc & _).
  fold n in Hr, Hc |- *. do 4 eexists. split; [done|]. split; [done|].
  rewrite (batch_offsets _ off n tx start (row_count_ rg)) by lia. pose proof (same_view_rep _ _ _ _ Hv1 Hrep) as Hrep1.
  destruct (ScanLate_Ok s1 rg cols off n (selection (version_info_ rg) off n tx start) late Hrep1) as
    (s2 & chunk' & -> & Hc' & Hr' & Hv2 & _); [lia|lia| |apply selection_bound|apply length_selection|done|].
  - apply StronglySorted_filter, StronglySorted_seq.
  - eexists _, _. split; [done|]. split_and!; [lia| |by apply (same_view_rep s1)].
    rewrite Hr', <- list_fmap_compose. apply list_fmap_ext. intros j c _. done.
Qed.

(** ** Rolling back an append *)

Definition marks (vi : VersionInfo) (ks : list Z) (tx : Z) : VersionInfo :=
  foldl (fun vi k => MarkInserted vi k tx) vi ks.

Lemma MarkInserted_comm vi k k' tx :
  k <> k' -> MarkInserted (MarkInserted vi k tx) k' tx = MarkInserted (MarkInserted vi k' tx) k tx.
Proof. intros Hne. unfold MarkInserted. simpl. by rewrite insert_insert_ne. Qed.

Lemma marks_comm vi ks k tx : k ∉ ks -> marks (MarkInserted vi k tx) ks tx = MarkInserted (marks vi ks tx) k tx.
Proof.
  revert vi. induction ks as [|k' ks IH]; intros vi Hk; [done|]. simpl. apply not_elem_of_cons in Hk as [Hne Hk].
  rewrite MarkInserted_comm by done. by apply IH.
Qed.

Lemma marks_lookup vi ks k tx : k ∉ ks -> markers_ (marks vi ks tx) !! k = markers_ vi !! k.
Proof.
  revert vi. induction ks as [|k' ks IH]; intros vi Hk; [done|]. simpl. apply not_elem_of_cons in Hk as [Hne Hk].
  rewrite IH by done. simpl. by rewrite lookup_insert_ne.
Qed.

Lemma revert_mark vi k tx : markers_ vi !! k = None -> RevertInsert (MarkInserted vi k tx) k = vi.
Proof.
  intros Hk. unfold RevertInsert, MarkInserted. simpl. rewrite lookup_insert_eq. simpl.
  rewrite delete_insert_id by done. destruct vi as [m u d x]. simpl. f_equal. lia.
Qed.

Lemma revert_marks vi ks tx :
  NoDup ks -> (forall k, k ∈ ks -> markers_ vi !! k = None) ->
  foldl (fun vi k => RevertInsert vi k) (marks vi ks tx) ks = vi.
Proof.
  revert vi. induction ks as [|k ks IH]; intros vi Hnd Hf; [done|]. simpl. apply NoDup_cons in Hnd as [Hk Hnd].
  rewrite marks_comm by done.
  rewrite revert_mark by (rewrite marks_lookup by done; apply Hf; by left).
  apply IH; [done|]. intros k' Hk'. apply Hf. by right.
Qed.

(** The keys of the rows an append adds. *)
Definition new_keys (start count : nat) : list Z := row_key <$> seq start count.

Lemma mark_inserted_rows_marks vi start count tx :
  mark_inserted_rows vi start count tx = marks vi (new_keys start count) tx.
Proof.
  unfold mark_inserted_rows, marks, new_keys. 
  replace (seq start count) with (Nat.add start <$> seq 0 count) by (rewrite fmap_add_seq; f_equal; lia).
  rewrite <- list_fmap_compose.
  generalize (seq 0 count). intros l. revert vi. induction l as [|i l IH]; intros vi; [done|]. simpl. apply IH.
Qed.

Lemma NoDup_new_keys start count : (Z.of_nat (start + count) < 2 ^ 32)%Z -> NoDup (new_keys start count).
Proof.
  intros Hmax. unfold new_keys. apply NoDup_fmap_2_strong; [|apply NoDup_seq].
  intros x y Hx%elem_of_seq Hy%elem_of_seq. rewrite !row_key_small by lia. lia.
Qed.

Lemma revert_append_markers vi start count tx :
  (Z.of_nat (start + count) < 2 ^ 32)%Z -> (forall k, k ∈ new_keys start count -> markers_ vi !! k = None) ->
  foldl (fun vi i => RevertInsert vi (row_key i)) (mark_inserted_rows vi start count tx) (seq start count) = vi.
Proof.
  intros Hmax Hf. rewrite mark_inserted_rows_marks.
  assert (forall l w, foldl (fun vi i => RevertInsert vi (row_key i)) w l
                      = foldl (fun vi k => RevertInsert vi k) w (row_key <$> l)) as ->.
  { induction l as [|i l IH]; intros w; [done|]. simpl. apply IH. }
  apply revert_marks; [by apply NoDup_new_keys|done].
Qed.

(** The vector [v] supplies [count] rows that fit in the pending vector of
    [cc]. *)
Definition fits_col (count : nat) (cc : ColumnChunk) (v : DataVector) : Prop :=
  dv_wf v /\ storage_of (dv_type v) = storage_of (type_ cc) /\ count <= length (cells v) /\
  dv_count (pending_data_ cc) + count <= STANDARD_VECTOR_SIZE /\ Forall row_ok (dv_row v <$> seq 0 count).

Definition grown (count : nat) (r : list (option cell)) (v : DataVector) : list (option cell) :=
  r ++ (dv_row v <$> seq 0 count).

Lemma append_columns_fits s count rest rs cols : forall done,
  Forall2 (chunk_rep s) rest rs -> Forall2 (fits_col count) rest cols ->
  exists rest', append_columns s (done ++ rest) (seq (length done) (length rest)) cols count = Ok (s, done ++ rest') /\
    segments_ <$> rest' = segments_ <$> rest /\ Forall2 (chunk_rep s) rest' (zip_with (grown count) rs cols).
Proof.
  intros done HF. revert done cols. induction HF as [|cc r rest rs Hrep _ IH]; intros done cols HC.
  - inversion HC; subst. exists []. by rewrite app_nil_r.
  - inversion HC as [|? v ? cols' (Hwf & Hst & Hl & Hroom & Hok) HC']; subst. cbn [length seq append_columns].
    rewrite list_lookup_middle by done.
    destruct (append_fits s cc r v count Hrep Hwf Hst Hl Hroom Hok) as (cc' & -> & Hty & Hse & _ & Hrep').
    cbn [mbind result_bind]. rewrite insert_app_r_alt, Nat.sub_diag by done. simpl.
    destruct (IH (done ++ [cc']) cols' HC') as (rest' & Heq & Hsegs & HF'). rewrite <- app_assoc, length_app in Heq. simpl in Heq.
    rewrite Nat.add_1_r in Heq. rewrite Heq. exists (cc' :: rest'). rewrite <- app_assoc. split_and!; [done| |].
    + rewrite !fmap_cons. by rewrite Hse, Hsegs.
    + by constructor.
Qed.

Lemma revert_chunk_Ok s cc r extra :
  chunk_rep s cc (r ++ extra) -> SegmentRowCount cc <= length r ->
  exists cc', revert_chunk (length r) cc = Ok cc' /\ segments_ cc' = segments_ cc /\ chunk_rep s cc' r.
Proof.
  intros Hrep Hseg. unfold revert_chunk. rewrite decide_True by done.
  pose proof (chunk_rep_count _ _ _ Hrep) as Hc. unfold RowCount in Hc. rewrite length_app in Hc.
  destruct (TruncatePending_Ok s cc _ (length r - SegmentRowCount cc) Hrep) as (cc' & -> & _ & Hse & Hrep'); [lia|].
  exists cc'. split_and!; try done. replace (SegmentRowCount cc + (length r - SegmentRowCount cc)) with (length r) in Hrep' by lia.
  by rewrite take_app_length in Hrep'.
Qed.

Lemma revert_columns_Ok s count start ccs rs cols :
  Forall2 (chunk_rep s) ccs (zip_with (grown count) rs cols) -> length rs = length cols ->
  Forall (fun r => length r = start) rs -> Forall (fun cc => SegmentRowCount cc <= start) ccs ->
  exists ccs', mapM_r (revert_chunk start) ccs = Ok ccs' /\ segments_ <$> ccs' = segments_ <$> ccs /\
    Forall2 (chunk_rep s) ccs' rs.
Proof.
  revert rs cols. induction ccs as [|cc ccs IH]; intros rs cols HF Hlen Hst Hsg.
  - inversion HF as [Hz|]. destruct rs as [|r rs]; [|destruct cols; done]. exists []. done.
  - destruct rs as [|r rs]; [inversion HF|]. destruct cols as [|v cols]; [inversion HF|]. simpl in HF.
    inversion HF as [|? ? ? ? Hr HF']; subst. apply Forall_cons in Hst as [Hr0 Hst]. apply Forall_cons in Hsg as [Hs0 Hsg].
    cbn [mapM_r]. rewrite <- Hr0 in Hs0. destruct (revert_chunk_Ok s cc r _ Hr Hs0) as (cc' & Hrc & Hse & Hrep').
    rewrite Hr0 in Hrc. rewrite Hrc. cbn [mbind result_bind].
    destruct (IH rs cols HF') as (ccs' & -> & Hsegs & HFr); [simpl in Hlen; lia|done|done|].
    cbn [mbind result_bind]. exists (cc' :: ccs'). split_and!; [done| |by constructor].
    rewrite !fmap_cons. by rewrite Hse, Hsegs.
Qed.

Lemma same_segments_ids (ccs ccs' : list ColumnChunk) :
  segments_ <$> ccs' = segments_ <$> ccs -> chunk_ids <$> ccs' = chunk_ids <$> ccs.
Proof.
  intros H. unfold chunk_ids.
  assert (forall l : list ColumnChunk, (fun cc => block_id <$> segments_ cc) <$> l = (fmap block_id) <$> (segments_ <$> l)) as Hl
    by (intros l; by rewrite <- list_fmap_compose).
  by rewrite !Hl, H.
Qed.

(** Rolling back an append that stayed in the pending vectors leaves no
    trace: the columns, the row count, the markers and the counters are those
    from before the append. *)
Theorem rollback_append_restores s rg cols chunk tx :
  rg_rep s rg cols -> Forall2 (fits_col (ch_count chunk)) (column_chunks_ rg) (columns chunk) ->
  tx <> INVALID_TRANSACTION -> (Z.of_nat (row_count_ rg + ch_count chunk) < 2 ^ 32)%Z ->
  (forall k, k ∈ new_keys (row_count_ rg) (ch_count chunk) -> markers_ (version_info_ rg) !! k = None) ->
  exists rg1 rg2, Append s rg chunk (seq 0 (length (column_chunks_ rg))) tx = Ok (s, rg1) /\
    row_count_ rg1 = row_count_ rg + ch_count chunk /\
    RevertAppend rg1 = Ok rg2 /\ rg_rep s rg2 cols /\ row_count_ rg2 = row_count_ rg /\
    version_info_ rg2 = version_info_ rg.
Proof.
  intros [Hok HF Hl Hnd] HC Htx Hmax Hfresh. unfold Append.
  destruct (append_columns_fits s (ch_count chunk) (column_chunks_ rg) cols (columns chunk) [] HF HC)
    as (ccs & Heq & Hsegs & HFc).
  simpl in Heq. rewrite Heq. cbn [mbind result_bind]. rewrite (proj2 (Z.eqb_neq _ _) Htx).
  exists (mkRG (row_group_id_ rg) (row_count_ rg + ch_count chunk) (col_types_ rg) ccs
            (mark_inserted_rows (version_info_ rg) (row_count_ rg) (ch_count chunk) tx) (row_count_ rg) tx).
  unfold RevertAppend. cbn [pending_append_start_ row_count_ version_info_ column_chunks_].
  replace (row_count_ rg + ch_count chunk - row_count_ rg) with (ch_count chunk) by lia.
  rewrite revert_append_markers by done.
  destruct (revert_columns_Ok s (ch_count chunk) (row_count_ rg) ccs cols (columns chunk) HFc) as (ccs' & Hrev & Hsegs' & HFr).
  - by rewrite <- (Forall2_length _ _ _ HF), (Forall2_length _ _ _ HC).
  - done.
  - apply Forall_lookup. intros i cc Hi.
    assert (Some (SegmentRowCount cc) = SegmentRowCount <$> (column_chunks_ rg !! i)) as Hsame.
    { assert ((segments_ <$> ccs) !! i = (segments_ <$> column_chunks_ rg) !! i) as Hs by (by rewrite Hsegs).
      rewrite !list_lookup_fmap, Hi in Hs. destruct (column_chunks_ rg !! i) as [cc0|]; [|done].
      simpl in Hs. injection Hs as Hs. simpl. unfold SegmentRowCount. by rewrite Hs. }
    destruct (column_chunks_ rg !! i) as [cc0|] eqn:H0; [|done]. injection Hsame as Hsame.
    destruct (Forall2_lookup_l _ _ _ _ _ HF H0) as (col & Hcol & Hrep).
    pose proof (chunk_rep_count _ _ _ Hrep) as Hcn. pose proof (Forall_lookup_1 _ _ _ _ Hl Hcol) as Hlen.
    unfold RowCount in Hcn. simpl in Hlen. lia.
  - exists (mkRG (row_group_id_ rg) (row_count_ rg) (col_types_ rg) ccs' (version_info_ rg) (row_count_ rg) tx).
    split_and!; try done; [by rewrite Hrev|].
    split; simpl; try done. by rewrite (same_segments_ids (column_chunks_ rg)) by congruence.
Qed.
End Representation.

(** ** A sample group: one column of five rows, row 1 deleted *)

Definition sample_vi : VersionInfo := CommitDelete (MarkDeleted VI_empty 1 7) 1 3.

Definition sample_rg : RowGroup := mkRG 0 5 [INT32] [sample_cc] sample_vi 0 INVALID_TRANSACTION.

Lemma sample_rg_rep : rg_rep sample_bm sample_rg [sample_rows].
Proof.
  split; simpl.
  - apply sample_bm_ok.
  - constructor; [apply sample_rep|constructor].
  - repeat constructor.
  - apply NoDup_singleton.
Qed.

Lemma sample_vi_reachable : version_reachable sample_vi.
Proof.
  exists []. eapply rtc_l; [apply (vs_mark_delete _ _ 1 7)|].
  eapply rtc_l; [apply (vs_commit_delete _ _ [] 1 3); [done|lia]|]. apply rtc_refl.
Qed.

Lemma row_group_scan_visible_witness :
  exists s' chunk, rg_Scan sample_bm sample_rg 0 [0] (mkChunk [] 0) 9 4 = Ok (s', 5, chunk, ch_count chunk) /\
    (dv_rows <$> columns chunk) = [[Some (CInt 1000); Some (CInt 1001); Some (CInt 5); None]] /\
    rg_rep s' sample_rg [sample_rows].
Proof.
  apply (row_group_scan_visible sample_bm sample_rg [sample_rows] 0 [0] (mkChunk [] 0) 9 4).
  - apply sample_rg_rep.
  - apply sample_vi_reachable.
  - simpl. lia.
  - repeat constructor.
Defined.

Lemma late_scan_aligned_witness :
  exists s1 chunk offs k, ScanBatchWithOffsets sample_bm sample_rg 0 [] (mkChunk [] 0) [] 9 4
      = Ok (s1, 5, chunk, offs, k) /\
    (dv_rows <$> columns chunk) = [] /\
    exists s2 chunk', ScanLate s1 sample_rg (Z.to_nat <$> offs) [0] = Ok (s2, chunk') /\ ch_count chunk' = k /\
      (dv_rows <$> columns chunk') = [[Some (CInt 1000); Some (CInt 1001); Some (CInt 5); None]] /\
      rg_rep s2 sample_rg [sample_rows].
Proof.
  apply (late_scan_aligned sample_bm sample_rg [sample_rows] 0 [] [0] (mkChunk [] 0) [] 9 4).
  - apply sample_rg_rep.
  - reflexivity.
  - simpl. lia.
  - constructor.
  - repeat constructor.
Defined.

Lemma rollback_append_restores_witness :
  exists rg1 rg2, Append sample_bm sample_rg (mkChunk [vec_123] 2) [0] 8 = Ok (sample_bm, rg1) /\
    row_count_ rg1 = 7 /\ RevertAppend rg1 = Ok rg2 /\ rg_rep sample_bm rg2 [sample_rows] /\
    row_count_ rg2 = 5 /\ version_info_ rg2 = sample_vi.
Proof.
  apply (rollback_append_restores sample_bm sample_rg [sample_rows] (mkChunk [vec_123] 2) 8).
  - apply sample_rg_rep.
  - constructor; [|constructor]. split_and!; [apply vec_123_ok|done|simpl; lia|unfold STANDARD_VECTOR_SIZE; simpl; lia|].
    repeat constructor; unfold row_ok, cell_ok, is_i64; lia.
  - discriminate.
  - reflexivity.
  - intros k Hk. change (k ∈ [5%Z; 6%Z]) in Hk. rewrite !elem_of_cons in Hk.
    destruct Hk as [->|[->|Hk]]; [reflexivity|reflexivity|by apply not_elem_of_nil in Hk].
Defined.

(** ** What the append bookkeeping gets wrong *)

Definition one_row (z : Z) : DataChunk := mkChunk [mkDV INT64 1 [z] [] [] 1%Z] 1.

(** The rows of another transaction are committed: transaction 1 appends
    a row, transaction 2 appends a row, and transaction 1 commits at time 1;
    [CommitAppend] marks the rows from the last append on, so a later snapshot
    sees the row of transaction 2, which has not committed, and not the row of
    transaction 1, which has. *)
Theorem interleaved_append_dirty_read :
  match ('(s, rg) ← Append (BM_new 65536 4096 None) (RG_new 0 [INT64]) (one_row 10) [0] 1;
         '(s, rg) ← Append s rg (one_row 20) [0] 2;
         '(_, _, chunk, _) ← rg_Scan s (CommitAppend rg 1) 0 [0] (mkChunk [] 0) 3 2;
         Ok (dv_rows <$> columns chunk)) with
  | Ok found => found = [[Some (CInt 20)]]
  | Err _ => False
  end.
Proof. vm_compute. reflexivity. Qed.

Definition many_rows (n : nat) (z : Z) : DataChunk :=
  mkChunk [mkDV INT64 n (replicate n z) [] [] (2 ^ Z.of_nat n - 1)%Z] n.

(** Rolled-back rows come back: transaction 2 appends 100 rows of value 7
    to a group of 1000 rows, which flushes a segment of 1024, and rolls back;
    the next row appended, 42, is stored behind the 24 flushed rows, so row
    1000, the new row, reads as the rolled-back 7. *)
Theorem revert_after_flush_resurrects :
  match ('(s, rg) ← Append (BM_new 65536 16384 None) (RG_new 0 [INT64]) (many_rows 1000 5) [0] 1;
         let rg := CommitAppend rg 1 in
         '(s, rg) ← Append s rg (many_rows 100 7) [0] 2;
         rg ← RevertAppend rg;
         '(s, rg) ← Append s rg (one_row 42) [0] 3;
         '(_, chunk) ← ScanLate s (CommitAppend rg 2) [1000] [0];
         Ok (row_count_ rg, dv_rows <$> columns chunk)) with
  | Ok (n, found) => n = 1001 /\ found = [[Some (CInt 7)]]
  | Err _ => False
  end.
Proof. vm_compute. split; reflexivity. Qed.
