(* ===== verification/PartitionInfo.v ===== *)
(** * Table partitioning

    [storage/partition_info.hpp] and [partition_info.cpp]: how an inserted row
    is routed to a partition ([RouteRow]) and which partitions a scan has to
    read for a set of predicates ([PrunedPartitions]).  The central claim is
    that the two agree: a row that satisfies the predicates is in a partition
    the scan reads.  It holds for single-key RANGE, HASH and LIST tables; the
    two claims that follow it show the composite RANGE case, where it fails,
    and the predicates of a LIST table that read an uninitialised array. *)

From Stdlib Require Import ZArith String.
From stdpp Require Import base strings list list_numbers.
From S2P Require Import Prelude Types ColumnChunk ZoneMap.

(** The enumerators [NONE], [RANGE], [HASH] and [LIST]. *)
Inductive PartitionType : Type := PT_NONE | PT_RANGE | PT_HASH | PT_LIST.

#[export] Instance PartitionType_eq_dec : EqDecision PartitionType.
Proof. solve_decision. Defined.

Record PartitionDef : Type := mkDef {
  upper_bounds : list Value;
  list_values : list (list Value);
}.

#[export] Instance PartitionDef_eq_dec : EqDecision PartitionDef.
Proof. solve_decision. Defined.

Record PartitionInfo : Type := mkPI {
  ptype : PartitionType;
  partition_cols : list string;
  partition_col_idxs : list Z;
  num_partitions : Z;
  defs : list PartitionDef;
}.

#[export] Instance PartitionInfo_eq_dec : EqDecision PartitionInfo.
Proof. solve_decision. Defined.

Definition PI_none : PartitionInfo := mkPI PT_NONE [] [] 0 [].

Definition IsPartitioned (pi : PartitionInfo) : bool := negb (bool_decide (ptype pi = PT_NONE)).

(** ** Routing *)

(** The loop over the key columns of one upper bound. *)
Fixpoint less_than_ub (keys ub : list Value) : result bool :=
  match keys, ub with
  | k :: keys, u :: ub =>
      lt ← Value_lt k u;
      if lt : bool then Ok true else
      gt ← Value_lt u k;
      if gt : bool then Ok false else
      match keys, ub with
      | _ :: _, _ :: _ => less_than_ub keys ub
      | _, _ => Ok true
      end
  | _, _ => Ok false
  end.

(** The first partition, counted from [i], that accepts the keys. *)
Fixpoint route_range (keys : list Value) (ds : list PartitionDef) (i : Z) : result (option Z) :=
  match ds with
  | [] => Ok None
  | d :: ds =>
      match upper_bounds d with
      | [] => Ok (Some i)
      | ub => below ← less_than_ub keys ub;
              if below : bool then Ok (Some i) else route_range keys ds (i + 1)
      end
  end.

(** Do the keys agree with the tuple on their common columns? *)
Fixpoint tuple_eq (keys tuple : list Value) : result bool :=
  match keys, tuple with
  | k :: keys, t :: tuple => eq ← Value_eq k t; if eq : bool then tuple_eq keys tuple else Ok false
  | _, _ => Ok true
  end.

Fixpoint any_r {A} (f : A -> result bool) (l : list A) : result bool :=
  match l with
  | [] => Ok false
  | x :: l => b ← f x; if b : bool then Ok true else any_r f l
  end.

Fixpoint route_list (keys : list Value) (ds : list PartitionDef) (i : Z) : result (option Z) :=
  match ds with
  | [] => Ok None
  | d :: ds =>
      found ← any_r (tuple_eq keys) (list_values d);
      if found : bool then Ok (Some i) else route_list keys ds (i + 1)
  end.

Definition combine_hash (H : Hashes) (h : Z) (v : Value) : result Z :=
  vh ← ValueHash H v; Ok (u64 (h * 31 + vh)).

(** The message of the last error of a LIST table also prints the key. *)
Definition RouteRow (H : Hashes) (pi : PartitionInfo) (keys : list Value) : result Z :=
  if existsb Value_IsNull keys then Err (RuntimeError "partition key must not be NULL") else
  match ptype pi with
  | PT_RANGE =>
      r ← route_range keys (defs pi) 0;
      Ok (match r with Some i => i | None => u32 (Z.of_nat (length (defs pi)) - 1) end)
  | PT_HASH =>
      h ← foldM (combine_hash H) 0%Z keys;
      if Z.eqb (num_partitions pi) 0 then Err UndefinedBehaviour
      else Ok (u32 (h mod num_partitions pi))
  | PT_LIST =>
      r ← route_list keys (defs pi) 0;
      of_option (RuntimeError "INSERT: value does not match any LIST partition: ") r
  | PT_NONE => Ok 0%Z
  end.

(** ** Pruning *)

Definition all_partitions (pi : PartitionInfo) : list Z := seqZ 0 (num_partitions pi).

Definition is_EQ (op : ScanPredicateOp) : bool := match op with EQ => true | _ => false end.

Definition on_col (c : Z) (p : ScanPredicate) : bool := Z.eqb (Z.of_nat (pred_col_idx p)) c.

(** The predicates on the leading key column, at most 64 of them. *)
Definition part_preds (preds : list ScanPredicate) (leading : Z) : list ScanPredicate :=
  take 64 (filter (fun p => on_col leading p = true) preds).

(** The effective bounds; the pointers of the source are optional values. *)
Record range_bounds : Type := mkBounds {
  eq_val : option Value;
  eff_lo : option Value;
  lo_exclusive : bool;
  eff_hi : option Value;
  hi_exclusive : bool;
}.

Definition no_bounds : range_bounds := mkBounds None None false None false.

Definition set_lo (b : range_bounds) (v : Value) (excl : bool) : range_bounds :=
  mkBounds (eq_val b) (Some v) excl (eff_hi b) (hi_exclusive b).
Definition set_hi (b : range_bounds) (v : Value) (excl : bool) : range_bounds :=
  mkBounds (eq_val b) (eff_lo b) (lo_exclusive b) (Some v) excl.

(** The conditions keep the existing bound when the pointer is null, as the
    source has them. *)
Definition tighten (b : range_bounds) (p : ScanPredicate) : result range_bounds :=
  let v := pred_bound p in
  match pred_op p with
  | EQ => Ok (mkBounds (Some v) (eff_lo b) (lo_exclusive b) (eff_hi b) (hi_exclusive b))
  | GE =>
      match eff_lo b with
      | None => Ok b
      | Some lo =>
          lt ← Value_lt v lo; if lt : bool then Ok b else
          eq ← Value_eq v lo; if eq && lo_exclusive b then Ok b else Ok (set_lo b v false)
      end
  | GT =>
      match eff_lo b with
      | None => Ok b
      | Some lo => lt ← Value_lt v lo; if lt : bool then Ok b else Ok (set_lo b v true)
      end
  | LE =>
      match eff_hi b with
      | None => Ok b
      | Some hi =>
          lt ← Value_lt hi v; if lt : bool then Ok b else
          eq ← Value_eq v hi; if eq && hi_exclusive b then Ok b else Ok (set_hi b v false)
      end
  | LT =>
      match eff_hi b with
      | None => Ok b
      | Some hi => lt ← Value_lt hi v; if lt : bool then Ok b else Ok (set_hi b v true)
      end
  end.

Definition LeadingUB (ds : list PartitionDef) (i : nat) : option Value :=
  d ← ds !! i; v ← head (upper_bounds d); if Value_IsNull v then None else Some v.

(** [while (lo < hi)] with the midpoint test: [true] moves [lo] past the
    midpoint.  Every round shrinks [hi - lo], so [hi - lo] rounds suffice. *)
Fixpoint bisect (fuel : nat) (go_right : nat -> result bool) (lo hi : nat) : result nat :=
  match fuel with
  | O => Ok lo
  | S fuel =>
      if decide (lo < hi) then
        let mid := (lo + hi) / 2 in
        right ← go_right mid;
        if right : bool then bisect fuel go_right (S mid) hi else bisect fuel go_right lo mid
      else Ok lo
  end.

Definition lo_test (ds : list PartitionDef) (lo : Value) (mid : nat) : result bool :=
  match LeadingUB ds mid with None => Ok false | Some ub => negb <$> Value_lt lo ub end.

Definition hi_test (ds : list PartitionDef) (hi : Value) (exclusive : bool) (mid : nat) : result bool :=
  match LeadingUB ds (mid - 1) with
  | None => Ok true
  | Some lb => if exclusive then Value_lt lb hi else negb <$> Value_lt hi lb
  end.

(** With no definition [hi_pid] wraps to the largest 32-bit number and the
    loop that lists the partitions has no end. *)
Definition prune_range (H : Hashes) (pi : PartitionInfo) (pp : list ScanPredicate) : result (list Z) :=
  b ← foldM tighten no_bounds pp;
  match eq_val b with
  | Some v => pid ← RouteRow H pi [v]; Ok [pid]
  | None =>
      let n := length (defs pi) in
      lo_pid ← match eff_lo b with None => Ok 0 | Some lo => bisect n (lo_test (defs pi) lo) 0 n end;
      hi_pid ← match eff_hi b with
               | None => if decide (n = 0) then Err UndefinedBehaviour else Ok (n - 1)
               | Some hi => r ← bisect n (hi_test (defs pi) hi (hi_exclusive b)) 1 n; Ok (r - 1)
               end;
      Ok (if decide (lo_pid <= hi_pid) then seqZ (Z.of_nat lo_pid) (Z.of_nat (hi_pid - lo_pid) + 1) else [])
  end.

Definition first_eq (preds : list ScanPredicate) : option Value :=
  pred_bound <$> head (filter (fun p => is_EQ (pred_op p) = true) preds).

Definition prune_hash (H : Hashes) (pi : PartitionInfo) (preds pp : list ScanPredicate) : result (list Z) :=
  if decide (length (partition_col_idxs pi) = 1) then
    match first_eq pp with
    | Some v => pid ← RouteRow H pi [v]; Ok [pid]
    | None => Ok (all_partitions pi)
    end
  else
    match mapM (fun c => first_eq (filter (fun p => on_col c p = true) preds)) (partition_col_idxs pi) with
    | Some vals => pid ← RouteRow H pi (take 8 vals); Ok [pid]
    | None => Ok (all_partitions pi)
    end.

(** The partitions one of whose tuples starts with [v]. *)
Fixpoint list_matches (v : Value) (ds : list PartitionDef) (i : Z) : result (list Z) :=
  match ds with
  | [] => Ok []
  | d :: ds =>
      found ← any_r (fun tuple => match tuple with [] => Ok false | t :: _ => Value_eq v t end) (list_values d);
      rest ← list_matches v ds (i + 1);
      Ok (if found : bool then i :: rest else rest)
  end.

(** [for (const auto* p : part_preds)] visits all 64 slots of the array, of
    which only the first [np] are initialised. *)
Definition prune_list (pi : PartitionInfo) (pp : list ScanPredicate) : result (list Z) :=
  match first_eq pp with
  | Some v => list_matches v (defs pi) 0
  | None => if decide (length pp < 64) then Err UndefinedBehaviour else Ok (all_partitions pi)
  end.

Definition PrunedPartitions (H : Hashes) (pi : PartitionInfo) (preds : list ScanPredicate)
    : result (list Z) :=
  match partition_col_idxs pi with
  | [] => Ok (all_partitions pi)
  | leading :: _ =>
      let pp := part_preds preds leading in
      match pp with
      | [] => Ok (all_partitions pi)
      | _ =>
          match ptype pi with
          | PT_RANGE => prune_range H pi pp
          | PT_HASH => prune_hash H pi preds pp
          | PT_LIST => prune_list pi pp
          | PT_NONE => Ok (all_partitions pi)
          end
      end
  end.

(** ** Equal values route alike *)

(** What the standard requires of [std::hash<double>]: equal arguments (the two
    zeros) have equal hashes. *)
Class HashLaws (H : Hashes) : Prop :=
  hash_double_eq : forall a b, f64_eqb a b = true -> hash_double H a = hash_double H b.

Definition def_values (d : PartitionDef) : list Value := upper_bounds d ++ concat (list_values d).

Definition defs_wf (ds : list PartitionDef) : Prop := Forall (fun d => Forall Value_wf (def_values d)) ds.

(** Key tuples that the comparison of the source cannot tell apart. *)
Definition same_keys (ks vs : list Value) : Prop :=
  Forall2 (fun k v => Value_wf k /\ Value_wf v /\ Value_eqb k v = true) ks vs.

Lemma same_keys_null ks vs : same_keys ks vs -> existsb Value_IsNull ks = false /\ existsb Value_IsNull vs = false.
Proof.
  induction 1 as [|k v ks vs (_ & _ & H) _ [IH1 IH2]]; simpl; [done|].
  apply Value_eqb_type in H as [Ht Hn]. rewrite IH1, IH2, Hn.
  unfold Value_IsNull in *. by rewrite <- Ht, Hn.
Qed.

Lemma less_than_ub_congr ks vs ub :
  same_keys ks vs -> Forall Value_wf ub -> less_than_ub ks ub = less_than_ub vs ub.
Proof.
  intros H. revert ub. induction H as [|k v ks vs (Hk & Hv & He) Hrest IH]; intros [|u ub] Hub; try done.
  apply Forall_cons in Hub as [Hu Hub]. simpl. rewrite !Value_lt_wf by done.
  destruct (Value_eqb_ltb k v u He) as [-> ->]. cbn [mbind result_bind].
  destruct (Value_ltb v u), (Value_ltb u v); try done.
  destruct Hrest as [|k' v' ks vs]; [done|]. destruct ub as [|u' ub]; [done|]. by apply IH.
Qed.

Lemma def_values_bounds d : Forall Value_wf (def_values d) ->
  Forall Value_wf (upper_bounds d) /\ Forall (Forall Value_wf) (list_values d).
Proof. unfold def_values. by rewrite Forall_app, Forall_concat. Qed.

Lemma route_range_congr ks vs ds i :
  same_keys ks vs -> defs_wf ds -> route_range ks ds i = route_range vs ds i.
Proof.
  intros Hs. revert i. induction ds as [|d ds IH]; intros i Hwf; [done|].
  apply Forall_cons in Hwf as [Hd Hwf]. apply def_values_bounds in Hd as [Hd _]. simpl.
  destruct (upper_bounds d) as [|u ub] eqn:E; [done|]. rewrite (less_than_ub_congr ks vs) by done.
  destruct (less_than_ub vs (u :: ub)) as [[]|]; cbn; auto.
Qed.

Lemma ValueHash_congr `{HashLaws H} k v :
  Value_wf k -> Value_wf v -> Value_eqb k v = true -> ValueHash H k = ValueHash H v.
Proof.
  unfold Value_wf, ValueHash, Value_eqb, Value_IsNull. destruct k as [t d], v as [t' d']; simpl.
  rewrite !andb_true_iff, bool_decide_eq_true. intros Hk Hv [[<- Hn] He].
  destruct (bool_decide (t = INVALID)); [done|].
  destruct t, d; try done; destruct d'; try done; cbn in *; f_equal.
  all: try (apply Z.eqb_eq in He; by subst); try (by apply hash_double_eq).
  - apply eqb_prop in He. by subst.
  - apply String.eqb_eq in He. by subst.
Qed.

Lemma combine_hash_congr `{HashLaws H} ks vs h :
  same_keys ks vs -> foldM (combine_hash H) h ks = foldM (combine_hash H) h vs.
Proof.
  intros Hs. revert h. induction Hs as [|k v ks vs (Hk & Hv & He) _ IH]; intros h; [done|]. simpl.
  assert (combine_hash H h k = combine_hash H h v) as ->
    by (unfold combine_hash; by rewrite (ValueHash_congr k v)).
  destruct (combine_hash H h v); cbn; auto.
Qed.

(** Keys that compare equal are routed to the same partition. *)
Lemma RouteRow_congr `{HashLaws H} pi ks vs :
  same_keys ks vs -> defs_wf (defs pi) -> ptype pi <> PT_LIST -> RouteRow H pi ks = RouteRow H pi vs.
Proof.
  intros Hs Hwf Hl. unfold RouteRow. destruct (same_keys_null ks vs Hs) as [-> ->].
  destruct (ptype pi); try done.
  - by rewrite (route_range_congr ks vs).
  - by rewrite (combine_hash_congr ks vs).
Qed.

(** ** Where a row can be routed *)

Lemma route_range_bound ks ds i pid :
  route_range ks ds i = Ok (Some pid) -> (i <= pid < i + Z.of_nat (length ds))%Z.
Proof.
  revert i. induction ds as [|d ds IH]; intros i; simpl; [done|].
  destruct (upper_bounds d) as [|u ub]; [intros [= <-]; lia|].
  destruct (less_than_ub ks (u :: ub)) as [[]|]; cbn; [intros [= <-]; lia|intros H|done].
  apply IH in H. lia.
Qed.

Lemma any_r_true {A} (f : A -> result bool) l : any_r f l = Ok true -> exists x, x ∈ l /\ f x = Ok true.
Proof.
  induction l as [|x l IH]; simpl; [done|]. destruct (f x) as [[]|] eqn:E; cbn; [|intros H|done].
  - intros _. exists x. split; [apply list_elem_of_here|done].
  - destruct (IH H) as (y & Hy & ?). exists y. split; [by apply list_elem_of_further|done].
Qed.

Lemma any_r_in {A} (f : A -> result bool) (g : A -> bool) l x :
  (forall y, y ∈ l -> f y = Ok (g y)) -> x ∈ l -> g x = true -> any_r f l = Ok true.
Proof.
  induction l as [|y l IH]; intros Hf Hx Hg; [by apply not_elem_of_nil in Hx|]. simpl.
  rewrite (Hf y) by apply list_elem_of_here. cbn. destruct (g y) eqn:E; [done|].
  apply elem_of_cons in Hx as [->|Hx]; [congruence|]. apply IH; try done.
  intros z Hz. apply Hf. by apply list_elem_of_further.
Qed.

(** A LIST table accepts the row in the partition of a tuple it agrees with. *)
Lemma route_list_tuple ks ds i pid :
  route_list ks ds i = Ok (Some pid) ->
  exists d tuple, ds !! Z.to_nat (pid - i) = Some d /\ (i <= pid < i + Z.of_nat (length ds))%Z /\
    tuple ∈ list_values d /\ tuple_eq ks tuple = Ok true.
Proof.
  revert i. induction ds as [|d ds IH]; intros i; simpl; [done|].
  destruct (any_r (tuple_eq ks) (list_values d)) as [[]|] eqn:E; cbn; [intros [= <-]|intros H|done].
  - apply any_r_true in E as (tuple & Hin & Heq). exists d, tuple.
    replace (Z.to_nat (i - i)) with 0 by lia. split_and!; try done; lia.
  - apply IH in H as (d' & tuple & Hd & Hb & Ht & Heq). exists d', tuple.
    replace (Z.to_nat (pid - i)) with (S (Z.to_nat (pid - (i + 1)))) by lia. split_and!; try done; lia.
Qed.

(** A partitioned table as [CREATE TABLE] leaves it. *)
Record pi_wf (pi : PartitionInfo) : Prop := {
  pw_partitioned : IsPartitioned pi = true;
  pw_values : defs_wf (defs pi);
  pw_tuples : Forall (fun d => [] ∉ list_values d) (defs pi);
  pw_count : (0 < num_partitions pi < 2 ^ 32)%Z;
  pw_defs : ptype pi <> PT_HASH -> Z.of_nat (length (defs pi)) = num_partitions pi;
}.

(** Whatever row is routed, its partition exists. *)
Lemma RouteRow_bound H pi ks pid :
  pi_wf pi -> RouteRow H pi ks = Ok pid -> pid ∈ all_partitions pi.
Proof.
  intros [Hp _ _ Hn Hd] Hr. unfold all_partitions. rewrite elem_of_seqZ. unfold RouteRow in Hr.
  destruct (existsb _ ks); [done|]. unfold IsPartitioned in Hp. destruct (ptype pi); [done| | |].
  - specialize (Hd ltac:(done)). destruct (route_range ks (defs pi) 0) as [[i|]|] eqn:E; [| |done]; injection Hr as <-.
    + apply route_range_bound in E. lia.
    + rewrite u32_id by (unfold is_u32; lia). lia.
  - destruct (foldM _ _ ks) as [h|]; [|done]. cbn in Hr. destruct (Z.eqb_spec (num_partitions pi) 0); [done|].
    injection Hr as <-. pose proof (Z.mod_pos_bound h (num_partitions pi)).
    rewrite u32_id by (unfold is_u32; lia). lia.
  - specialize (Hd ltac:(done)). destruct (route_list ks (defs pi) 0) as [[i|]|] eqn:E; [|done|done]. injection Hr as <-.
    apply route_list_tuple in E as (? & ? & _ & ? & _). lia.
Qed.

(** ** Pruning keeps the partitions of the rows that match *)

(** A row, as the value of every table column; the key that [INSERT] routes it
    by has at most eight columns. *)
Definition key_values (pi : PartitionInfo) (row : Z -> Value) : list Value :=
  take 8 (row <$> partition_col_idxs pi).

Definition row_matches (row : Z -> Value) (p : ScanPredicate) : Prop :=
  Value_wf (row (Z.of_nat (pred_col_idx p))) /\ Value_wf (pred_bound p) /\
  pred_holds (pred_op p) (row (Z.of_nat (pred_col_idx p))) (pred_bound p) = true.

Lemma first_eq_match row c preds v :
  Forall (row_matches row) preds -> Forall (fun p => on_col c p = true) preds ->
  first_eq preds = Some v -> Value_wf (row c) /\ Value_wf v /\ Value_eqb (row c) v = true.
Proof.
  intros Hm Hc. unfold first_eq. intros (p & Hp & ->)%fmap_Some.
  apply head_Some_elem_of in Hp. apply list_elem_of_filter in Hp as [Heq Hin].
  rewrite Forall_forall in Hm, Hc. destruct (Hm p Hin) as (Hw & Hb & Hh). specialize (Hc p Hin).
  unfold on_col in Hc. apply Z.eqb_eq in Hc. rewrite Hc in Hw, Hh.
  by destruct (pred_op p).
Qed.

Lemma part_preds_matches row preds c :
  Forall (row_matches row) preds ->
  Forall (row_matches row) (part_preds preds c) /\ Forall (fun p => on_col c p = true) (part_preds preds c).
Proof.
  intros Hm. unfold part_preds. split; apply Forall_take.
  - rewrite Forall_forall in *. intros p [_ Hp]%list_elem_of_filter. auto.
  - rewrite Forall_forall. by intros p [? _]%list_elem_of_filter.
Qed.

Lemma part_preds_in preds c p : p ∈ part_preds preds c -> p ∈ preds.
Proof.
  unfold part_preds. intros (i & Hp & _)%elem_of_take.
  by apply list_elem_of_lookup_2, list_elem_of_filter in Hp as [_ Hp].
Qed.

(** The effective bounds are never set, so only an equality prunes. *)
Lemma tighten_open pp b :
  eff_lo b = None -> eff_hi b = None ->
  exists b', foldM tighten b pp = Ok b' /\ eff_lo b' = None /\ eff_hi b' = None /\
    (eq_val b' = eq_val b \/ exists p, p ∈ pp /\ pred_op p = EQ /\ eq_val b' = Some (pred_bound p)) /\
    (Exists (fun p => pred_op p = EQ) pp -> is_Some (eq_val b')).
Proof.
  revert b. induction pp as [|p pp IH]; intros b Hlo Hhi; simpl.
  { exists b. split_and!; try done; [by left|by intros ?%Exists_nil]. }
  assert (exists b1, tighten b p = Ok b1 /\ eff_lo b1 = None /\ eff_hi b1 = None /\
            eq_val b1 = if is_EQ (pred_op p) then Some (pred_bound p) else eq_val b) as (b1 & -> & H1 & H2 & H3).
  { unfold tighten. rewrite Hlo, Hhi. destruct (pred_op p); eexists; split_and!; eauto. }
  destruct (IH b1 H1 H2) as (b' & Hf & Hl & Hh & Hor & Hex). exists b'. cbn. split_and!; try done.
  - destruct Hor as [->|(q & Hq & ? & ?)].
    + rewrite H3. destruct (pred_op p) eqn:E; simpl; auto.
      right. exists p. split_and!; [apply list_elem_of_here|done|done].
    + right. exists q. split_and!; [by apply list_elem_of_further|done|done].
  - rewrite Exists_cons. intros [Hp|Hp]; [|auto]. rewrite Hp in H3. simpl in H3.
    destruct Hor as [->|(q & _ & _ & ->)]; [rewrite H3|]; eauto.
Qed.

Lemma prune_range_eq H pi pp :
  exists v, foldM tighten no_bounds pp = Ok v /\
  prune_range H pi pp = match eq_val v with
    | Some v => pid ← RouteRow H pi [v]; Ok [pid]
    | None => if decide (length (defs pi) = 0) then Err UndefinedBehaviour
              else Ok (seqZ 0 (Z.of_nat (length (defs pi))))
    end.
Proof.
  destruct (tighten_open pp no_bounds eq_refl eq_refl) as (b & Hf & Hl & Hh & _). exists b. split; [done|].
  unfold prune_range. rewrite Hf. cbn [mbind result_bind]. destruct (eq_val b); [done|].
  rewrite Hl, Hh. cbn [mbind result_bind]. destruct (decide (length (defs pi) = 0)); [done|]. cbn [mbind result_bind].
  rewrite decide_True by lia. do 2 f_equal; lia.
Qed.

(** Equality predicates on every key column determine the whole key. *)
Lemma eq_keys row preds idxs vals :
  Forall (row_matches row) preds ->
  mapM (fun c => first_eq (filter (fun p => on_col c p = true) preds)) idxs = Some vals ->
  same_keys (row <$> idxs) vals.
Proof.
  intros Hm Hv. apply mapM_Some in Hv. unfold same_keys. rewrite Forall2_fmap_l.
  eapply Forall2_impl; [exact Hv|]. intros c v Hc. simpl. eapply first_eq_match; [| |exact Hc].
  - rewrite Forall_forall in *. intros p [_ Hp]%list_elem_of_filter. auto.
  - rewrite Forall_forall. by intros p [? _]%list_elem_of_filter.
Qed.

Definition starts_with (v : Value) (tuple : list Value) : bool :=
  match tuple with [] => false | t :: _ => Value_eqb v t end.

Lemma list_matches_in v ds i j d tuple :
  Value_wf v -> defs_wf ds -> ds !! j = Some d -> tuple ∈ list_values d -> starts_with v tuple = true ->
  exists active, list_matches v ds i = Ok active /\ (i + Z.of_nat j)%Z ∈ active.
Proof.
  intros Hv. set (f := fun tuple => match tuple with [] => Ok false | t :: _ => Value_eq v t end).
  assert (Hf : forall d, Forall Value_wf (def_values d) -> forall y, y ∈ list_values d -> f y = Ok (starts_with v y)).
  { intros d' [_ Hd]%def_values_bounds y Hy. rewrite Forall_forall in Hd. specialize (Hd y Hy).
    destruct y as [|t y]; [done|]. apply Forall_cons in Hd as [? _]. simpl. by rewrite Value_eq_wf. }
  assert (Hany : forall d, Forall Value_wf (def_values d) -> exists b, any_r f (list_values d) = Ok b).
  { intros d' Hd'. specialize (Hf d' Hd'). induction (list_values d') as [|y l IHl]; simpl; [eauto|].
    rewrite Hf by apply list_elem_of_here. cbn. destruct (starts_with v y); [eauto|].
    apply IHl. intros z Hz. apply Hf. by apply list_elem_of_further. }
  assert (Htot : forall ds i, defs_wf ds -> exists active, list_matches v ds i = Ok active).
  { induction ds0 as [|d' ds0 IH0]; intros i0 Hwf; simpl; [eauto|]. apply Forall_cons in Hwf as [Hd' Hwf].
    destruct (Hany d' Hd') as [b Hb], (IH0 (i0 + 1)%Z Hwf) as [a Ha]. fold f. rewrite Hb, Ha. cbn. eauto. }
  revert i j. induction ds as [|d' ds IH]; intros i j Hwf Hj Hin Hst; [done|].
  apply Forall_cons in Hwf as [Hd' Hwf]. simpl. fold f. destruct j as [|j]; simpl in Hj.
  - simplify_eq. rewrite (any_r_in f (starts_with v) (list_values d) tuple) by eauto.
    destruct (Htot ds (i + 1)%Z Hwf) as [a ->]. cbn. eexists. split; [done|].
    rewrite Z.add_0_r. apply list_elem_of_here.
  - destruct (IH (i + 1)%Z j) as (a & Ha & Hjn); try done. destruct (Hany d' Hd') as [b ->]. rewrite Ha. cbn.
    eexists. split; [done|]. replace (i + Z.of_nat (S j))%Z with (i + 1 + Z.of_nat j)%Z by lia.
    destruct b; [by apply list_elem_of_further|done].
Qed.

(** What pruning needs of the table and the predicates: an equality on a RANGE
    table with a single key, or an equality among the predicates on the key of
    a LIST table. *)
Definition prunable (pi : PartitionInfo) (pp : list ScanPredicate) : Prop :=
  match ptype pi with
  | PT_RANGE => length (partition_col_idxs pi) = 1 \/ Forall (fun p => pred_op p <> EQ) pp
  | PT_HASH => True
  | PT_LIST => is_Some (first_eq pp) \/ length pp = 64
  | PT_NONE => False
  end.

Lemma prune_hash_sound `{HashLaws H} pi row preds pid leading rest :
  pi_wf pi -> ptype pi = PT_HASH -> partition_col_idxs pi = leading :: rest ->
  Forall (row_matches row) preds -> RouteRow H pi (key_values pi row) = Ok pid ->
  exists active, prune_hash H pi preds (part_preds preds leading) = Ok active /\ pid ∈ active.
Proof.
  intros Hwf Ht Hi Hm Hr. pose proof (RouteRow_bound _ _ _ _ Hwf Hr) as Hall.
  destruct (part_preds_matches row preds leading Hm) as [Hpm Hpc].
  assert (Hok : forall vals, same_keys (key_values pi row) vals ->
            exists active, (p ← RouteRow H pi vals; Ok [p]) = Ok active /\ pid ∈ active).
  { intros vals Hs. rewrite <- (RouteRow_congr pi _ vals Hs) by (apply Hwf || congruence). rewrite Hr.
    eexists. split; [done|]. by apply list_elem_of_singleton. }
  unfold prune_hash. destruct (decide (length (partition_col_idxs pi) = 1)) as [H1|H1].
  - destruct (first_eq (part_preds preds leading)) as [v|] eqn:E; [|eauto]. apply Hok.
    rewrite Hi in H1. destruct rest; [|done]. unfold key_values. rewrite Hi. simpl.
    constructor; [|constructor]. exact (first_eq_match row leading _ v Hpm Hpc E).
  - destruct (mapM _ _) as [vals|] eqn:E; [|eauto]. apply Hok.
    unfold key_values. apply Forall2_take. exact (eq_keys row preds _ vals Hm E).
Qed.

Lemma prune_list_sound H pi row preds pid leading rest :
  pi_wf pi -> ptype pi = PT_LIST -> partition_col_idxs pi = leading :: rest ->
  is_Some (first_eq (part_preds preds leading)) \/ length (part_preds preds leading) = 64 ->
  Forall (row_matches row) preds -> RouteRow H pi (key_values pi row) = Ok pid ->
  exists active, prune_list pi (part_preds preds leading) = Ok active /\ pid ∈ active.
Proof.
  intros Hwf Ht Hi Hp Hm Hr. pose proof (RouteRow_bound _ _ _ _ Hwf Hr) as Hall.
  destruct (part_preds_matches row preds leading Hm) as [Hpm Hpc].
  unfold prune_list. destruct (first_eq _) as [v|] eqn:E.
  - destruct (first_eq_match row leading _ v Hpm Hpc E) as (Hk & Hv & Hkv).
    unfold RouteRow in Hr. destruct (existsb _ _); [done|]. rewrite Ht in Hr.
    destruct (route_list _ _ _) as [[i|]|] eqn:El; [|done|done]. injection Hr as <-.
    apply route_list_tuple in El as (d & tuple & Hd & Hb & Hin & Heq).
    assert (Hdwf : Forall Value_wf (def_values d)) by exact (Forall_lookup_1 _ _ _ _ (pw_values _ Hwf) Hd).
    destruct (list_matches_in v (defs pi) 0 (Z.to_nat (i - 0)) d tuple) as (a & Ha & Hia); try done; [apply Hwf| |].
    + destruct tuple as [|t tuple].
      { pose proof (Forall_lookup_1 _ _ _ _ (pw_tuples _ Hwf) Hd). done. }
      unfold key_values in Heq. rewrite Hi in Heq. simpl in Heq.
      apply def_values_bounds in Hdwf as [_ Hdwf]. rewrite Forall_forall in Hdwf.
      specialize (Hdwf _ Hin). apply Forall_cons in Hdwf as [Htw _].
      rewrite Value_eq_wf in Heq by done. simpl. rewrite <- (Value_eqb_congr _ _ t Hkv).
      destruct (Value_eqb (row leading) t); done.
    + exists a. split; [done|]. by replace i with (0 + Z.of_nat (Z.to_nat (i - 0)))%Z by lia.
  - destruct Hp as [[? ?]|Hp]; [done|]. rewrite decide_False by lia. eauto.
Qed.

(** C7: a row that satisfies the predicates of a scan and that INSERT routed to
    a partition of a well-formed partitioning is in one of the partitions
    PrunedPartitions returns, for HASH tables, for RANGE tables with one key
    column or without an equality among the first 64 predicates on the leading
    key column, for LIST tables with an equality among those (or 64 of them),
    and whenever no predicate is on the leading column. An equality on the
    leading column of a composite RANGE key loses rows
    ([composite_range_pruning_loses_row]), and a LIST table without an equality
    reads an uninitialised pointer ([list_range_predicate_undefined]). *)
Theorem pruning_sound `{HashLaws H} pi row preds pid leading rest :
  pi_wf pi -> partition_col_idxs pi = leading :: rest ->
  part_preds preds leading = [] \/ prunable pi (part_preds preds leading) ->
  Forall (row_matches row) preds ->
  RouteRow H pi (key_values pi row) = Ok pid ->
  exists active, PrunedPartitions H pi preds = Ok active /\ pid ∈ active.
Proof.
  intros Hwf Hi Hp Hm Hr. pose proof (RouteRow_bound _ _ _ _ Hwf Hr) as Hall.
  unfold PrunedPartitions. rewrite Hi. destruct (part_preds preds leading) as [|p pp] eqn:Epp; [eauto|].
  destruct Hp as [|Hp]; [done|]. rewrite <- Epp in *. unfold prunable in Hp.
  destruct (ptype pi) eqn:Ht; [done| | |].
  - destruct (part_preds_matches row preds leading Hm) as [Hpm Hpc].
    destruct (prune_range_eq H pi (part_preds preds leading)) as (b & Hb & ->).
    destruct (tighten_open (part_preds preds leading) no_bounds eq_refl eq_refl) as (b' & Hb' & _ & _ & Hor & _).
    rewrite Hb in Hb'. simplify_eq. destruct (eq_val b') as [v|] eqn:Ev.
    + destruct Hor as [?|(q & Hq & Hop & Hv)]; [done|]. simplify_eq.
      destruct Hp as [Hp|Hp]; [|by rewrite Forall_forall in Hp; destruct (Hp q Hq)].
      rewrite Forall_forall in Hpm, Hpc. destruct (Hpm q Hq) as (Hw & Hbw & Hh). specialize (Hpc q Hq).
      apply Z.eqb_eq in Hpc. rewrite Hpc, Hop in *. rewrite Hi in Hp. destruct rest; [|done].
      rewrite <- (RouteRow_congr pi (key_values pi row) [pred_bound q]), Hr.
      * eexists. split; [done|]. by apply list_elem_of_singleton.
      * unfold key_values. rewrite Hi. simpl. repeat constructor; done.
      * apply Hwf.
      * congruence.
    + pose proof (pw_defs _ Hwf ltac:(congruence)) as Hn. pose proof (pw_count _ Hwf).
      rewrite decide_False by lia. eexists. split; [done|]. by rewrite Hn.
  - eapply prune_hash_sound; eauto.
  - eapply prune_list_sound; eauto.
Qed.

(** ** What RANGE routing means *)

(** The lexicographic order of tuples over their common columns. *)
Fixpoint lex_ltb (a b : list Value) : bool :=
  match a, b with
  | x :: a, y :: b => Value_ltb x y || (negb (Value_ltb y x) && lex_ltb a b)
  | _, _ => false
  end.

Lemma less_than_ub_lex keys ub :
  keys <> [] -> ub <> [] -> Forall Value_wf keys -> Forall Value_wf ub ->
  Forall2 (fun u k => Value_ltb u k = true -> Value_ltb k u = false)
    (take (length keys) ub) (take (length ub) keys) ->
  less_than_ub keys ub = Ok (negb (lex_ltb ub keys)).
Proof.
  revert ub. induction keys as [|k keys IH]; intros [|u ub] Hk Hu Hwk Hwu Hanti; try done.
  apply Forall_cons in Hwk as [Hwk Hwks], Hwu as [Hwu Hwus]. apply Forall2_cons in Hanti as [Ha Hanti]. simpl.
  rewrite !Value_lt_wf by done. cbn [mbind result_bind].
  destruct (Value_ltb u k) eqn:Euk; simpl; [by rewrite Ha|].
  destruct (Value_ltb k u) eqn:Eku; simpl; [done|].
  destruct keys as [|k' keys], ub as [|u' ub]; try done. by apply IH.
Qed.

Lemma Value_ltb_antisym a b :
  Value_wf a -> Value_wf b -> Value_ltb a b = true -> Value_ltb b a = false.
Proof.
  intros Ha Hb H. apply not_true_is_false. intros H'.
  pose proof (Value_ltb_trans _ _ _ H H') as Hr. by rewrite Value_ltb_irrefl in Hr.
Qed.

Lemma less_than_ub_spec keys ub :
  keys <> [] -> ub <> [] -> Forall Value_wf keys -> Forall Value_wf ub ->
  less_than_ub keys ub = Ok (negb (lex_ltb ub keys)).
Proof.
  intros Hk Hu Hwk Hwu. apply less_than_ub_lex; try done. clear Hk Hu. revert ub Hwu.
  induction Hwk as [|k keys Hk _ IH]; intros ub Hwu; [by destruct ub; constructor|].
  destruct Hwu as [|u ub Hu Hwu]; simpl; [constructor|]. constructor; [|by apply IH].
  by apply Value_ltb_antisym.
Qed.

(** The bound of a partition lies strictly below the keys. *)
Definition bound_below (keys : list Value) (d : PartitionDef) : Prop :=
  upper_bounds d <> [] /\ lex_ltb (upper_bounds d) keys = true.

Lemma route_range_spec keys ds i :
  keys <> [] -> Forall Value_wf keys -> defs_wf ds ->
  (Forall (bound_below keys) ds /\ route_range keys ds i = Ok None) \/
  exists pre d suf, ds = pre ++ d :: suf /\ Forall (bound_below keys) pre /\ ~ bound_below keys d /\
    route_range keys ds i = Ok (Some (i + Z.of_nat (length pre))%Z).
Proof.
  intros Hk Hwk. revert i. induction ds as [|d ds IH]; intros i Hwf; [by left|].
  apply Forall_cons in Hwf as [Hd Hwf]. apply def_values_bounds in Hd as [Hd _]. simpl.
  destruct (upper_bounds d) as [|u ub] eqn:Eu.
  { right. exists [], d, ds. unfold bound_below. rewrite Eu. simpl. rewrite Z.add_0_r. by split_and!; [| |intros []|]. }
  rewrite less_than_ub_spec by done. destruct (lex_ltb (u :: ub) keys) eqn:El; cbn [negb mbind result_bind].
  - assert (Hb : bound_below keys d) by (unfold bound_below; by rewrite Eu).
    destruct (IH (i + 1)%Z Hwf) as [[? ?]|(pre & d' & suf & -> & Hpre & Hd' & Hr)]; [left; split; [by constructor|done]|].
    right. exists (d :: pre), d', suf. split_and!; try done; [by constructor|]. rewrite Hr. simpl length. do 2 f_equal. lia.
  - right. exists [], d, ds. unfold bound_below. rewrite Eu, El, Z.add_0_r. by split_and!; [| |intros []|].
Qed.

(** RANGE routing is a lexicographic search: a row whose key columns are
    not NULL goes to the first partition whose bound is not below the key, the
    bound itself included, or to the last partition when every bound is
    below. *)
Theorem range_routing H pi keys :
  ptype pi = PT_RANGE -> pi_wf pi -> keys <> [] -> Forall Value_wf keys ->
  Forall (fun k => vtype k <> INVALID) keys ->
  exists pre d suf, defs pi = pre ++ d :: suf /\ RouteRow H pi keys = Ok (Z.of_nat (length pre)) /\
    Forall (bound_below keys) pre /\ (~ bound_below keys d \/ suf = []).
Proof.
  intros Ht Hwf Hk Hw Hn. unfold RouteRow. rewrite Ht.
  assert (existsb Value_IsNull keys = false) as ->.
  { apply not_true_is_false. intros (k & Hin & Hnull)%existsb_exists. rewrite Forall_forall in Hn.
    apply list_elem_of_In in Hin. apply (Hn k Hin). by apply bool_decide_eq_true in Hnull. }
  pose proof (pw_defs _ Hwf ltac:(congruence)) as Hlen. pose proof (pw_count _ Hwf) as Hcnt.
  destruct (route_range_spec keys (defs pi) 0 Hk Hw (pw_values _ Hwf))
    as [[Hall ->]|(pre & d & suf & Hds & Hpre & Hd & ->)]; cbn [mbind result_bind].
  - destruct (defs pi) as [|d0 ds0 _] eqn:Ed using rev_ind; [simpl in Hlen; lia|].
    apply Forall_app in Hall as [Hpre _]. exists ds0, d0, []. rewrite length_app in *. simpl length in *.
    split_and!; try done; [|by right]. f_equal. rewrite u32_id by (unfold is_u32; lia). lia.
  - exists pre, d, suf. split_and!; try done. by left.
Qed.

(** ** Where pruning fails *)

(** An equality on the leading column of a composite RANGE key loses rows:
    with bounds (5, 10) and open, the row (5, 20) is stored in partition 1 and
    satisfies [a = 5], but the scan for [a = 5] reads partition 0 only. *)
Theorem composite_range_pruning_loses_row H :
  let pi := mkPI PT_RANGE ["a"; "b"]%string [0; 1]%Z 2
              [mkDef [Value_Integer 5; Value_Integer 10] []; mkDef [] []] in
  let row c := if Z.eqb c 0 then Value_Integer 5 else Value_Integer 20 in
  let pred := mkPred 0 EQ (Value_Integer 5) in
  pi_wf pi /\ row_matches row pred /\
  RouteRow H pi (key_values pi row) = Ok 1%Z /\ PrunedPartitions H pi [pred] = Ok [0%Z].
Proof.
  simpl. split_and!; try done. split; try done; simpl.
  - repeat constructor.
  - repeat constructor; simpl; apply not_elem_of_nil.
Qed.

(** Range predicates never prune: without an equality on its key a RANGE
    table is read completely, whatever the bounds of the predicates are. *)
Theorem range_predicates_prune_nothing H pi preds leading rest :
  ptype pi = PT_RANGE -> pi_wf pi -> partition_col_idxs pi = leading :: rest ->
  Forall (fun p => pred_op p <> EQ) preds ->
  PrunedPartitions H pi preds = Ok (all_partitions pi).
Proof.
  intros Ht Hwf Hi Hne. unfold PrunedPartitions. rewrite Hi, Ht.
  destruct (part_preds preds leading) as [|p pp] eqn:Epp; [done|]. rewrite <- Epp.
  destruct (prune_range_eq H pi (part_preds preds leading)) as (b & Hb & ->).
  destruct (tighten_open (part_preds preds leading) no_bounds eq_refl eq_refl) as (b' & Hb' & _ & _ & Hor & _).
  rewrite Hb in Hb'. simplify_eq. destruct Hor as [->|(q & Hq & Hop & _)].
  - simpl. pose proof (pw_defs _ Hwf ltac:(congruence)) as Hn. pose proof (pw_count _ Hwf).
    rewrite decide_False by lia. unfold all_partitions. by rewrite Hn.
  - apply part_preds_in in Hq. rewrite Forall_forall in Hne. by destruct (Hne q Hq).
Qed.

(** A LIST table with fewer than 64 predicates on its key and no equality
    among them reads an uninitialised pointer. *)
Theorem list_range_predicate_undefined H pi preds leading rest :
  ptype pi = PT_LIST -> partition_col_idxs pi = leading :: rest ->
  Forall (fun p => pred_op p <> EQ) preds ->
  0 < length (part_preds preds leading) < 64 ->
  PrunedPartitions H pi preds = Err UndefinedBehaviour.
Proof.
  intros Ht Hi Hne Hlen. unfold PrunedPartitions. rewrite Hi, Ht.
  destruct (part_preds preds leading) as [|p pp] eqn:Epp; [simpl in *; lia|]. rewrite <- Epp in *.
  unfold prune_list. destruct (first_eq (part_preds preds leading)) as [v|] eqn:E;
    [|by rewrite decide_True by lia].
  unfold first_eq in E. apply fmap_Some in E as (q & Hq & _). apply head_Some_elem_of in Hq.
  apply list_elem_of_filter in Hq as [Hop Hq]. apply part_preds_in in Hq.
  rewrite Forall_forall in Hne. destruct (Hne q Hq). by destruct (pred_op q).
Qed.

(** ** Concrete tables *)

Definition sample_hashes : Hashes :=
  mkHashes u64 (fun _ => 7%Z) (fun b => if b then 1%Z else 0%Z) (fun s => Z.of_nat (String.length s)).

#[export] Instance sample_hash_laws : HashLaws sample_hashes.
Proof. intros a b _. reflexivity. Qed.

Definition hash_table : PartitionInfo := mkPI PT_HASH ["a"; "b"]%string [0; 1]%Z 4 [].

Lemma hash_table_wf : pi_wf hash_table.
Proof. split; simpl; try constructor; try done. Qed.

Definition range_table : PartitionInfo :=
  mkPI PT_RANGE ["a"]%string [0]%Z 3
    [mkDef [Value_Integer 10] []; mkDef [Value_Integer 20] []; mkDef [] []].

Lemma range_table_wf : pi_wf range_table.
Proof. split; simpl; try done; repeat constructor; apply not_elem_of_nil. Qed.

Definition sample_row (c : Z) : Value := Value_Integer (c + 20).

(** The keys (20, 21) hash to partition 1 of 4. *)
Lemma pruning_sound_witness :
  exists active, PrunedPartitions sample_hashes hash_table
    [mkPred 1 EQ (Value_Integer 21); mkPred 0 EQ (Value_Integer 20)] = Ok active /\ 1%Z ∈ active.
Proof.
  apply (pruning_sound hash_table sample_row _ 1%Z 0%Z [1%Z]); try reflexivity.
  - apply hash_table_wf.
  - right. exact I.
  - repeat constructor.
Defined.

(** The bound 20 itself belongs to the second partition. *)
Lemma range_routing_witness :
  exists pre d suf, defs range_table = pre ++ d :: suf /\
    RouteRow sample_hashes range_table [Value_Integer 20] = Ok (Z.of_nat (length pre)) /\
    Forall (bound_below [Value_Integer 20]) pre /\ (~ bound_below [Value_Integer 20] d \/ suf = []).
Proof.
  apply (range_routing sample_hashes range_table [Value_Integer 20]); try done.
  - apply range_table_wf.
  - repeat constructor.
  - repeat constructor; done.
Defined.

Lemma range_predicates_prune_nothing_witness :
  PrunedPartitions sample_hashes range_table [mkPred 0 GE (Value_Integer 15); mkPred 0 LT (Value_Integer 18)]
    = Ok (all_partitions range_table).
Proof.
  apply (range_predicates_prune_nothing sample_hashes range_table _ 0%Z []); try done.
  - apply range_table_wf.
  - repeat constructor; done.
Defined.

Definition list_table : PartitionInfo :=
  mkPI PT_LIST ["a"]%string [0]%Z 2 [mkDef [] [[Value_Integer 1]]; mkDef [] [[Value_Integer 2]]].

Lemma list_range_predicate_undefined_witness :
  PrunedPartitions sample_hashes list_table [mkPred 0 GE (Value_Integer 2)] = Err UndefinedBehaviour.
Proof.
  apply (list_range_predicate_undefined sample_hashes list_table _ 0%Z []); try done.
  - repeat constructor; done.
  - vm_compute. split; lia.
Defined.
