(* ===== verification/Operators.v ===== *)
(** * Streaming operators

    [PhysicalFilter], [PhysicalProjection] and [PhysicalLimit] of
    [execution/operator]: an operator takes a batch and its state, and writes
    an output batch.  Each is related to the list operation it stands for on
    the rows of the batch ([chunk_rows]): a filter, a map, and for LIMIT and
    OFFSET a window of the whole stream, however it is cut into batches. *)

From Stdlib Require Import ZArith String.
From stdpp Require Import base gmap strings list fin_maps.
From S2P Require Import Prelude Types Double Expr.

Inductive OperatorResultType : Type := FINISHED | HAVE_MORE_OUTPUT | NEED_MORE_INPUT.

#[export] Instance OperatorResultType_eq_dec : EqDecision OperatorResultType.
Proof. solve_decision. Defined.

(** ** The operators *)

(** [PhysicalFilter::Execute]: when no row passes, the output is not touched. *)
Definition Filter_Execute (F : FPU) (predicate : LogicalExpr) (input output : DataChunk)
    : result (OperatorResultType * DataChunk) :=
  selection ← EvaluatePredicate F predicate input;
  match selection with
  | [] => Ok (NEED_MORE_INPUT, output)
  | _ => output ← DataChunkCompact input selection; Ok (NEED_MORE_INPUT, output)
  end.

(** [PhysicalProjection::Execute] on distinct input and output batches: every
    column of the freshly initialised output is overwritten by [Evaluate]. *)
Definition Projection_Execute (F : FPU) (exprs : list LogicalExpr) (input : DataChunk)
    : result (OperatorResultType * DataChunk) :=
  cols ← mapM_r (fun e => Evaluate F e input) exprs;
  Ok (NEED_MORE_INPUT, mkChunk cols (ch_count input)).

Record LimitState : Type := mkLimitState { rows_emitted : Z; rows_skipped : Z }.

Definition LimitState_init : LimitState := mkLimitState 0 0.

(** The loop over the rows of the batch that applies OFFSET. *)
Fixpoint skip_rows (offset skipped : Z) (rows : list nat) : Z * list nat :=
  match rows with
  | [] => (skipped, [])
  | i :: rows =>
      if Z.ltb 0 offset && Z.ltb skipped offset then skip_rows offset (skipped + 1) rows
      else let '(s, idx) := skip_rows offset skipped rows in (s, i :: idx)
  end.

(** [PhysicalLimit::Execute] *)
Definition Limit_Execute (limit offset : Z) (ls : LimitState) (input output : DataChunk)
    : result (OperatorResultType * DataChunk * LimitState) :=
  let '(skipped, src_indices) := skip_rows offset (rows_skipped ls) (seq 0 (ch_count input)) in
  let ls := mkLimitState (rows_emitted ls) skipped in
  match src_indices with
  | [] => Ok (NEED_MORE_INPUT, output, ls)
  | _ =>
      let remaining := (limit - rows_emitted ls)%Z in
      if Z.leb 0 limit && Z.leb remaining 0 then Ok (FINISHED, output, ls)
      else
        let src_indices :=
          if Z.leb 0 limit && Z.ltb remaining (Z.of_nat (length src_indices))
          then take (Z.to_nat remaining) src_indices else src_indices in
        output ← DataChunkSlice input src_indices;
        let ls := mkLimitState (rows_emitted ls + Z.of_nat (length src_indices)) (rows_skipped ls) in
        Ok (if Z.leb 0 limit && Z.leb limit (rows_emitted ls) then FINISHED else NEED_MORE_INPUT, output, ls)
  end.

(** ** Rows of a slice *)

(** A batch the executor passes on: well formed and within the batch size. *)
Definition batch_ok (c : DataChunk) : Prop := chunk_wf c /\ ch_count c <= STANDARD_VECTOR_SIZE.

Lemma length_chunk_rows c : length (chunk_rows c) = ch_count c.
Proof. unfold chunk_rows. by rewrite length_fmap, length_seq. Qed.

#[export] Hint Rewrite length_chunk_rows : coldb.

Lemma chunk_rows_empty c : ch_count c = 0 -> chunk_rows c = [].
Proof. unfold chunk_rows. by intros ->. Qed.

Lemma row_at_cols c i :
  i < ch_count c -> chunk_wf c -> row_at c i = (fun rows => default None (rows !! i)) <$> (dv_rows <$> columns c).
Proof.
  intros Hi Hwf. unfold row_at. rewrite <- list_fmap_compose. apply list_fmap_ext. intros j col Hcol. simpl.
  destruct (proj1 (Forall_lookup _ _) Hwf j col Hcol) as [_ Hc]. by rewrite lookup_dv_rows by lia.
Qed.

Lemma DataChunkSlice_chunk_rows src idx :
  batch_ok src -> Forall (fun i => i < ch_count src) idx -> length idx <= STANDARD_VECTOR_SIZE ->
  exists dst, DataChunkSlice src idx = Ok dst /\ batch_ok dst /\ col_types dst = col_types src /\
    chunk_rows dst = row_at src <$> idx.
Proof.
  intros [Hwf Hn] Hidx Hlen.
  destruct (DataChunkSlice_Ok src idx Hwf Hidx Hlen) as (dst & H & Hc & Hw & _ & Hrows & Hty).
  exists dst. split_and!; try done; [by split; [|lia]|].
  unfold chunk_rows. rewrite Hc. apply list_eq_same_length with (n := length idx);
    [by rewrite length_fmap|by rewrite length_fmap, length_seq|].
  intros i x y Hi Hx Hy.
  apply list_lookup_fmap_Some in Hx as (j & -> & Hj). apply list_lookup_fmap_Some in Hy as (k & -> & Hk).
  rewrite lookup_seq_lt in Hj by done. injection Hj as <-.
  rewrite row_at_cols by (done || lia). rewrite Hrows. unfold row_at. rewrite <- list_fmap_compose.
  apply list_fmap_ext. intros c col Hcol. simpl. by rewrite list_lookup_fmap, Hk.
Qed.

(** Selecting the row numbers that pass is filtering the rows. *)
Lemma filter_rows (P : sql_row -> bool) c :
  row_at c <$> filter (fun i => P (row_at c i) = true) (seq 0 (ch_count c)) =
  filter (fun r => P r = true) (chunk_rows c).
Proof.
  unfold chunk_rows. induction (seq 0 (ch_count c)) as [|i l IH]; [done|].
  rewrite fmap_cons, !filter_cons. destruct (P (row_at c i)); simpl; by rewrite <- IH.
Qed.

Section streaming.
Context (F : FPU).

(** ** Filter *)

(** The rows that pass, in a batch of their own, or the output as it was. *)
Lemma Filter_Execute_case predicate input :
  batch_ok input -> well_typed (col_types input) predicate = true -> is_intlike (type_of predicate) = true -> defined_on F predicate input ->
  exists passed : option DataChunk, (forall output, Filter_Execute F predicate input output = Ok (NEED_MORE_INPUT, default output passed)) /\
    let rows := filter (fun r => row_passes F predicate r = true) (chunk_rows input) in
    match passed with
    | Some out => batch_ok out /\ 0 < ch_count out /\ col_types out = col_types input /\ chunk_rows out = rows
    | None => rows = []
    end.
Proof.
  intros [Hwf Hn] Hty Hb Hdef. unfold Filter_Execute. rewrite EvaluatePredicate_Ok by done. simpl. rewrite <- filter_rows.
  set (sel := filter _ _).
  assert (Forall (fun i => i < ch_count input) sel) as Hsel.
  { apply Forall_forall. intros i Hi. apply list_elem_of_filter in Hi as [_ Hi]. apply elem_of_seq in Hi. lia. }
  assert (length sel <= STANDARD_VECTOR_SIZE) as Hlen.
  { transitivity (length (seq 0 (ch_count input))); [apply length_filter|by rewrite length_seq]. }
  destruct sel as [|i sel'] eqn:Es; [by exists None|].
  destruct (DataChunkSlice_chunk_rows input (i :: sel')) as (dst & H & Hw & Ht & Hr); [done..|].
  exists (Some dst). split; [intros output; unfold DataChunkCompact; by rewrite H|]. split_and!; try done.
  rewrite <- length_chunk_rows, Hr. simpl. lia.
Qed.

Lemma Filter_Execute_Ok predicate input output :
  batch_ok input -> well_typed (col_types input) predicate = true -> is_intlike (type_of predicate) = true ->
  defined_on F predicate input -> batch_ok output -> ch_count output = 0 ->
  exists out, Filter_Execute F predicate input output = Ok (NEED_MORE_INPUT, out) /\ batch_ok out /\
    chunk_rows out = filter (fun r => row_passes F predicate r = true) (chunk_rows input) /\
    (out = output \/ col_types out = col_types input).
Proof.
  intros Hin Hty Hb Hdef Hout H0. destruct (Filter_Execute_case predicate input Hin Hty Hb Hdef) as ([out|] & Hf & Hcase).
  - destruct Hcase as (Hbo & _ & Hct & Hr). exists out. split_and!; [apply (Hf output)|done|done|by right].
  - exists output. split_and!; [apply (Hf output)|done| |by left]. rewrite Hcase. by apply chunk_rows_empty.
Qed.

(** ** Projection *)

Definition project_row (exprs : list LogicalExpr) (r : sql_row) : option sql_row :=
  mapM (fun e => eval_row F e r) exprs.

Lemma eval_columns exprs input :
  batch_ok input -> Forall (fun e => well_typed (col_types input) e = true) exprs ->
  Forall (fun e => defined_on F e input) exprs ->
  exists cols, mapM_r (fun e => Evaluate F e input) exprs = Ok cols /\
    Forall2 (fun e v => dv_wf v /\ dv_type v = type_of e /\ dv_count v = ch_count input /\
      forall i, i < ch_count input -> eval_row F e (row_at input i) = Some (dv_row v i)) exprs cols.
Proof.
  intros [Hwf Hn] Hty. induction Hty as [|e exprs He _ IH]; intros Hdef; [by exists []|].
  apply Forall_cons in Hdef as [Hd Hdef]. destruct (IH Hdef) as (cols & Hm & Hc).
  destruct (defined_mapM _ _ _ Hd) as [vals Hv].
  pose proof (Evaluate_agrees F e input Hwf Hn He) as Hag. rewrite Hv in Hag. destruct Hag as (v & Hev & Hvec).
  rewrite mapM_chunk_rows in Hv. destruct (vec_is_rows _ _ _ _ _ Hv Hvec) as (Hw & Ht & Hct & Hrow).
  exists (v :: cols). cbn [mapM_r]. rewrite Hev. simpl. rewrite Hm. split; [done|]. by constructor.
Qed.

Lemma Projection_Execute_Ok exprs input :
  batch_ok input -> Forall (fun e => well_typed (col_types input) e = true) exprs ->
  Forall (fun e => defined_on F e input) exprs ->
  exists out, Projection_Execute F exprs input = Ok (NEED_MORE_INPUT, out) /\ batch_ok out /\
    col_types out = type_of <$> exprs /\
    mapM (project_row exprs) (chunk_rows input) = Some (chunk_rows out).
Proof.
  intros Hin Hty Hdef. destruct (eval_columns exprs input Hin Hty Hdef) as (cols & Hm & Hc).
  unfold Projection_Execute. rewrite Hm. simpl. eexists. split; [done|]. destruct Hin as [Hwf Hn]. split_and!.
  - split; [|done]. unfold chunk_wf. simpl. apply Forall_forall. intros v Hv.
    apply list_elem_of_lookup in Hv as [i Hi].
    destruct (Forall2_lookup_r _ _ _ i v Hc Hi) as (e & _ & Hw & _ & Hcount & _). done.
  - unfold col_types. simpl. clear -Hc. induction Hc as [|e v es vs (_ & Ht & _) _ IH]; [done|].
    by rewrite !fmap_cons, Ht, IH.
  - unfold chunk_rows. simpl. apply mapM_Some. apply Forall2_fmap_2. apply Forall_Forall2_diag.
    apply Forall_forall. intros i Hi. apply elem_of_seq in Hi. unfold project_row, row_at at 2. simpl.
    apply mapM_Some. apply Forall2_fmap_r.
    eapply Forall2_impl; [exact Hc|]. simpl. intros e v (_ & _ & _ & H). apply H. lia.
Qed.

End streaming.

(** ** Limit *)

(** What LIMIT and OFFSET leave of a stream of rows, after [skipped] rows have
    been skipped and [emitted] rows have been passed on. *)
Definition window {A} (limit offset skipped emitted : Z) (rows : list A) : list A :=
  let rest := drop (Z.to_nat (offset - skipped)) rows in
  if Z.leb 0 limit then take (Z.to_nat (limit - emitted)) rest else rest.

Lemma skip_rows_eq offset skipped rows :
  (0 <= skipped)%Z ->
  let k := Nat.min (length rows) (Z.to_nat (offset - skipped)) in
  skip_rows offset skipped rows = ((skipped + Z.of_nat k)%Z, drop k rows).
Proof.
  revert skipped. induction rows as [|i rows IH]; intros skipped H; simpl.
  { by rewrite Z.add_0_r. }
  destruct (Z.ltb_spec 0 offset), (Z.ltb_spec skipped offset); simpl.
  - rewrite IH by lia. destruct (Z.to_nat (offset - skipped)) as [|k] eqn:E; [lia|]. simpl.
    replace (Z.to_nat (offset - (skipped + 1))) with k by lia. f_equal. lia.
  - rewrite IH by lia. replace (Z.to_nat (offset - skipped)) with 0 by lia. by rewrite Nat.min_0_r.
  - lia.
  - rewrite IH by lia. replace (Z.to_nat (offset - skipped)) with 0 by lia. by rewrite Nat.min_0_r.
Qed.

Lemma drop_min {A} k (l : list A) : drop (Nat.min (length l) k) l = drop k l.
Proof.
  destruct (Nat.le_ge_cases (length l) k); [by rewrite Nat.min_l, !drop_ge by lia|by rewrite Nat.min_r by lia].
Qed.

Lemma window_app {A} limit offset s e (r1 r2 : list A) :
  (0 <= s)%Z -> (0 <= e)%Z ->
  window limit offset s e (r1 ++ r2) =
  window limit offset s e r1 ++
  window limit offset (s + Z.of_nat (Nat.min (length r1) (Z.to_nat (offset - s))))
    (e + Z.of_nat (length (window limit offset s e r1))) r2.
Proof.
  intros Hs He. unfold window. rewrite drop_app.
  replace (Z.to_nat (offset - (s + Z.of_nat (Nat.min (length r1) (Z.to_nat (offset - s))))))
    with (Z.to_nat (offset - s) - length r1) by lia.
  destruct (Z.leb_spec 0 limit); [|done]. rewrite take_app. f_equal. f_equal. rewrite length_take. lia.
Qed.

Lemma window_all_skipped {A} limit offset s e (r : list A) :
  length r <= Z.to_nat (offset - s) -> window limit offset s e r = [].
Proof. intros H. unfold window. rewrite drop_ge by done. by destruct (Z.leb 0 limit); rewrite ?take_nil. Qed.

Lemma window_full {A} limit offset s e (r : list A) : (0 <= limit <= e)%Z -> window limit offset s e r = [].
Proof. intros H. unfold window. rewrite (proj2 (Z.leb_le 0 limit)) by lia. by replace (Z.to_nat (limit - e)) with 0 by lia. Qed.

Lemma window_fmap {A B} (f : A -> B) limit offset s e r :
  f <$> window limit offset s e r = window limit offset s e (f <$> r).
Proof. unfold window. destruct (Z.leb 0 limit); by rewrite ?fmap_take, fmap_drop. Qed.

Lemma length_window {A} limit offset s e (r : list A) : length (window limit offset s e r) <= length r.
Proof. unfold window. destruct (Z.leb 0 limit); rewrite ?length_take, length_drop; lia. Qed.

Lemma window_Forall {A} (P : A -> Prop) limit offset s e r : Forall P r -> Forall P (window limit offset s e r).
Proof. intros H. unfold window. destruct (Z.leb 0 limit); [by apply Forall_take, Forall_drop|by apply Forall_drop]. Qed.

(** The indices that are left after the truncation to the limit. *)
Lemma truncated_window limit offset s e (rows : list nat) :
  let idx := drop (Z.to_nat (offset - s)) rows in
  (if Z.leb 0 limit && Z.ltb (limit - e) (Z.of_nat (length idx)) then take (Z.to_nat (limit - e)) idx else idx) =
  window limit offset s e rows.
Proof.
  unfold window. destruct (Z.leb_spec 0 limit); simpl; [|done].
  destruct (Z.ltb_spec (limit - e) (Z.of_nat (length (drop (Z.to_nat (offset - s)) rows)))); [done|].
  by rewrite take_ge by lia.
Qed.

Lemma Limit_Execute_Ok limit offset ls input output :
  batch_ok input -> batch_ok output -> ch_count output = 0 ->
  (0 <= rows_skipped ls)%Z -> (0 <= rows_emitted ls)%Z ->
  exists r out ls', Limit_Execute limit offset ls input output = Ok (r, out, ls') /\ batch_ok out /\
    chunk_rows out = window limit offset (rows_skipped ls) (rows_emitted ls) (chunk_rows input) /\
    rows_skipped ls' = (rows_skipped ls + Z.of_nat (Nat.min (ch_count input) (Z.to_nat (offset - rows_skipped ls))))%Z /\
    rows_emitted ls' = (rows_emitted ls + Z.of_nat (ch_count out))%Z /\
    (r = NEED_MORE_INPUT \/ (r = FINISHED /\ (0 <= limit <= rows_emitted ls')%Z)) /\
    (out = output \/ col_types out = col_types input).
Proof.
  intros Hin Hout H0 Hs He. unfold Limit_Execute.
  rewrite skip_rows_eq, drop_min, length_seq by done. cbn [rows_emitted rows_skipped].
  destruct (drop _ (seq 0 (ch_count input))) as [|i idx] eqn:Ed.
  { apply (f_equal length) in Ed. rewrite length_drop, length_seq in Ed. simpl in Ed.
    do 3 eexists. split; [done|]. cbn [rows_emitted rows_skipped]. rewrite H0, chunk_rows_empty, Z.add_0_r by done.
    split_and!; try done; [|by left|by left].
    by rewrite window_all_skipped by (rewrite length_chunk_rows; lia). }
  rewrite <- Ed. clear i idx Ed.
  destruct (Z.leb 0 limit && Z.leb (limit - rows_emitted ls) 0)%bool eqn:Efull.
  { apply andb_true_iff in Efull as [?%Z.leb_le ?%Z.leb_le].
    do 3 eexists. split; [done|]. cbn [rows_emitted rows_skipped]. rewrite H0, chunk_rows_empty, Z.add_0_r by done.
    split_and!; try done; [by rewrite window_full by lia|right; split; [done|lia]|by left]. }
  rewrite truncated_window. set (w := window _ _ _ _ _).
  assert (Forall (fun i => i < ch_count input) w) as Hw.
  { apply window_Forall, Forall_forall. intros i Hi. apply elem_of_seq in Hi. lia. }
  assert (length w <= STANDARD_VECTOR_SIZE) as Hlen
    by (etransitivity; [apply length_window|rewrite length_seq; apply Hin]).
  destruct (DataChunkSlice_chunk_rows input w Hin Hw Hlen) as (dst & -> & Hb & Ht & Hrows). simpl.
  assert (ch_count dst = length w) as Hc by (rewrite <- length_chunk_rows, Hrows; by rewrite length_fmap).
  do 3 eexists. split; [done|]. cbn [rows_emitted rows_skipped]. split_and!; try done; [| | |by right].
  - rewrite Hrows. unfold w. by rewrite window_fmap.
  - by rewrite Hc.
  - destruct (Z.leb 0 limit && Z.leb limit _)%bool eqn:E; [right|by left].
    apply andb_true_iff in E as [?%Z.leb_le ?%Z.leb_le]. done.
Qed.

(** The operator over the batches of a stream, until it reports that it is
    done. *)
Fixpoint limit_run (limit offset : Z) (ls : LimitState) (inputs : list DataChunk) : result (list DataChunk) :=
  match inputs with
  | [] => Ok []
  | c :: inputs =>
      '(r, out, ls) ← Limit_Execute limit offset ls c (mkChunk [] 0);
      if decide (r = FINISHED) then Ok [out]
      else outs ← limit_run limit offset ls inputs; Ok (out :: outs)
  end.

Definition stream_rows (cs : list DataChunk) : list sql_row := concat (chunk_rows <$> cs).

Lemma batch_ok_empty : batch_ok (mkChunk [] 0).
Proof. split; [constructor|unfold STANDARD_VECTOR_SIZE; simpl; lia]. Qed.

Lemma limit_run_window limit offset ls inputs :
  Forall batch_ok inputs -> (0 <= rows_skipped ls)%Z -> (0 <= rows_emitted ls)%Z ->
  exists outs, limit_run limit offset ls inputs = Ok outs /\ Forall batch_ok outs /\
    stream_rows outs = window limit offset (rows_skipped ls) (rows_emitted ls) (stream_rows inputs).
Proof.
  intros Hall. revert ls. induction Hall as [|c inputs Hc _ IH]; intros ls Hs He.
  { exists []. split_and!; try done. unfold stream_rows, window. simpl. by rewrite drop_nil, take_nil; destruct (Z.leb 0 limit). }
  destruct (Limit_Execute_Ok limit offset ls c (mkChunk [] 0)) as (r & out & ls' & Hx & Hb & Hrows & Hsk & Hem & Hr & _);
    [done|apply batch_ok_empty|done..|].
  cbn [limit_run]. rewrite Hx. simpl. unfold stream_rows. rewrite fmap_cons. simpl.
  rewrite window_app by done. rewrite <- Hrows, !length_chunk_rows, <- Hsk, <- Hem.
  destruct Hr as [->|[-> Hfull]].
  - rewrite decide_False by done. destruct (IH ls') as (outs & -> & Hb' & Hrows'); [lia..|].
    exists (out :: outs). split_and!; [done|by constructor|]. rewrite fmap_cons. simpl. unfold stream_rows in Hrows'. by rewrite Hrows'.
  - rewrite decide_True by done. exists [out]. split_and!; [done|by constructor|].
    rewrite window_full by done. simpl. done.
Qed.

(** ** Theorems *)

(** LIMIT and OFFSET cut the same window out of a stream of rows however
    the stream is cut into batches: [limit] rows after the first [offset]
    ones, all of them when [limit] is negative. *)
Theorem limit_window limit offset inputs :
  Forall batch_ok inputs ->
  exists outs, limit_run limit offset LimitState_init inputs = Ok outs /\
    stream_rows outs =
      let rest := drop (Z.to_nat offset) (stream_rows inputs) in
      if Z.leb 0 limit then take (Z.to_nat limit) rest else rest.
Proof.
  intros H. destruct (limit_run_window limit offset LimitState_init inputs H) as (outs & Hr & _ & Hrows); [done..|].
  exists outs. split; [done|]. rewrite Hrows. unfold window. cbn [rows_skipped rows_emitted LimitState_init].
  by rewrite !Z.sub_0_r.
Qed.

Lemma limit_window_witness :
  exists outs, limit_run 3 2 LimitState_init [sample_chunk; sample_chunk] = Ok outs /\
    stream_rows outs = [[Some (CInt 5); Some (CStr "z")]; [Some (CInt 3); Some (CStr "x")]; [None; Some (CStr "y")]].
Proof.
  apply (limit_window 3 2 [sample_chunk; sample_chunk]).
  repeat (apply Forall_cons; split; [split; [apply sample_chunk_wf|vm_compute; lia]|]). apply Forall_nil_2.
Defined.
