(* ===== verification/HashJoin.v ===== *)
(** * Hash join

    [execution/join_hash_table.cpp] and [operator/physical_hash_join.cpp]: the
    build side puts its rows into a hash table, the probe side streams over its
    input, looks the hashes up and emits the concatenated rows, in output
    batches of at most 1024 rows that it resumes from.  The claim is that the
    batches it emits, called until it asks for more input, are the nested-loop
    join of the two sides, as long as the keys are not NULL and the build side
    has no NULL at all.  The two claims that follow show why: a NULL of a
    numeric column is stored as the value 0 with a type, so it joins with 0 and
    with other NULLs, and a NULL of the build side comes out as 0. *)

From Stdlib Require Import ZArith String.
From stdpp Require Import base gmap strings list fin_maps.
From S2P Require Import Prelude Types Double Expr Operators PartitionInfo.

(** ** The hash table *)

Record Entry : Type := mkEntry { key : list Value; entry_row : list Value }.

(** [std::unordered_map<size_t, std::vector<Entry>>] *)
Notation JoinHashTable := (gmap Z (list Entry)).

Definition ExtractValue (vec : DataVector) (idx : nat) : result Value :=
  if IsNull vec idx then Ok (Value_Null (dv_type vec))
  else match dv_type vec with
       | BOOLEAN => z ← int_at vec idx; Ok (Value_Boolean (negb (Z.eqb z 0)))
       | INT8 | INT16 | INT32 | INT64 => z ← int_at vec idx; Ok (mkValue (dv_type vec) (VInt z))
       | FLOAT32 | FLOAT64 => b ← float_at vec idx; Ok (mkValue (dv_type vec) (VDouble b))
       | VARCHAR => s ← str_at vec idx; Ok (mkValue (dv_type vec) (VStr s))
       | INVALID => Ok (Value_Null (dv_type vec))
       end.

(** [h ^= vh + 0x9e3779b9u + (h << 6) + (h >> 2)] on [size_t]. *)
Definition mix (h vh : Z) : Z :=
  Z.lxor h (u64 (vh + 2654435769 + u64 (Z.shiftl h 6) + Z.shiftr h 2)).

Definition HashKey (H : Hashes) (key : list Value) : result Z :=
  foldM (fun h v => vh ← ValueHash H v; Ok (mix h vh)) 0%Z key.

(** [input.columns[col]] *)
Definition column (c : DataChunk) (col : nat) : result DataVector := of_option UndefinedBehaviour (columns c !! col).

Definition Insert (H : Hashes) (ht : JoinHashTable) (key_col_idxs : list nat) (input : DataChunk) (row_idx : nat)
    : result JoinHashTable :=
  k ← mapM_r (fun col => v ← column input col; ExtractValue v row_idx) key_col_idxs;
  r ← mapM_r (fun v => ExtractValue v row_idx) (columns input);
  h ← HashKey H k;
  Ok (<[h := default [] (ht !! h) ++ [mkEntry k r]]> ht).

Definition ProbeByHash (ht : JoinHashTable) (hash : Z) : list Entry := default [] (ht !! hash).

Definition Probe (H : Hashes) (ht : JoinHashTable) (key : list Value) : result (list Entry) :=
  h ← HashKey H key; Ok (default [] (ht !! h)).

(** One row of one key column of [ComputeHashes]: NULL hashes to 0. *)
Definition column_hash (H : Hashes) (col : DataVector) (r : nat) : result Z :=
  if IsNull col r then Ok 0%Z
  else match storage_of (dv_type col) with
       | SInt => z ← int_at col r; Ok (hash_int H z)
       | SFloat => b ← float_at col r; Ok (hash_double H b)
       | SStr => s ← str_at col r; Ok (hash_str H s)
       | SNone => Ok 0%Z
       end.

(** The pass over one key column. *)
Definition hash_column (H : Hashes) (col : DataVector) (hashes : list Z) : result (list Z) :=
  match storage_of (dv_type col) with
  | SNone => Ok hashes
  | _ => mapM_r (fun '(r, h) => vh ← column_hash H col r; Ok (mix h vh)) (imap pair hashes)
  end.

Definition ComputeHashes (H : Hashes) (input : DataChunk) (key_col_idxs : list nat) (n : nat) : result (list Z) :=
  foldM (fun hashes ki => col ← column input ki; hash_column H col hashes) (replicate n 0%Z) key_col_idxs.

(** ** The operators *)

(** [ExtractColValue] reads the array whether or not the row is NULL. *)
Definition ExtractColValue (chunk : DataChunk) (col_idx : Z) (row : nat) : result Value :=
  if Z.ltb col_idx 0 then Err UndefinedBehaviour else
  v ← column chunk (Z.to_nat col_idx);
  match storage_of (dv_type v) with
  | SFloat => b ← float_at v row; Ok (mkValue (dv_type v) (VDouble b))
  | SStr => s ← str_at v row; Ok (Value_Varchar s)
  | _ => z ← int_at v row; Ok (mkValue (dv_type v) (VInt z))
  end.

Definition RoutePartition (H : Hashes) (chunk : DataChunk) (pinfo : PartitionInfo) (col_idxs : list Z) (row : nat)
    : result Z :=
  keys ← mapM_r (fun c => ExtractColValue chunk c row) (take 8 col_idxs);
  RouteRow H pinfo keys.

(** The table or tables the two operators share. *)
Record JoinTables : Type := mkJoinTables { ht : JoinHashTable; partition_hts : list JoinHashTable }.

Definition insert_at (hts : list JoinHashTable) (pid : Z) (f : JoinHashTable -> result JoinHashTable)
    : result (list JoinHashTable) :=
  match hts !! Z.to_nat pid with
  | Some t => t' ← f t; Ok (<[Z.to_nat pid := t']> hts)
  | None => Ok hts
  end.

(** [PhysicalHashJoinBuild::Consume] *)
Definition Build_Consume (H : Hashes) (key_col_idxs : list nat) (right_partition_info : PartitionInfo)
    (jt : JoinTables) (input : DataChunk) : result JoinTables :=
  match partition_hts jt with
  | _ :: _ =>
      hts ← foldM (fun hts row =>
               pid ← RoutePartition H input right_partition_info (partition_col_idxs right_partition_info) row;
               insert_at hts pid (fun t => Insert H t key_col_idxs input row))
             (partition_hts jt) (seq 0 (ch_count input));
      Ok (mkJoinTables (ht jt) hts)
  | [] =>
      t ← foldM (fun t row => Insert H t key_col_idxs input row) (ht jt) (seq 0 (ch_count input));
      Ok (mkJoinTables t [])
  end.

(** [ReadRowValue] has the code of [ExtractValue]. *)
Definition ReadRowValue (vec : DataVector) (row_idx : nat) : result Value := ExtractValue vec row_idx.

(** The appends of [EmitMatchRow], column by column of the output. *)
Fixpoint emit_columns (writers : list (DataVector -> result DataVector)) (cols : list DataVector)
    : result (list DataVector) :=
  match writers, cols with
  | [], cols => Ok cols
  | w :: writers, c :: cols => c ← w c; cols ← emit_columns writers cols; Ok (c :: cols)
  | _ :: _, [] => Err UndefinedBehaviour
  end.

Definition EmitMatchRow (out left : DataChunk) (left_row : nat) (right_row : list Value) : result DataChunk :=
  cols ← emit_columns (((fun col dst => DataVectorAppend dst col left_row) <$> columns left) ++
                       ((fun v dst => DataVectorAppendValue dst v) <$> right_row)) (columns out);
  Ok (mkChunk cols (S (ch_count out))).

Record JoinProbeState : Type := mkProbeState { probe_row_idx : nat; match_idx : nat }.

Definition JoinProbeState_init : JoinProbeState := mkProbeState 0 0.

(** The equality loop on the keys; reading past the candidate's key is
    undefined. *)
Fixpoint keys_equal (probe_key cand : list Value) : result bool :=
  match probe_key, cand with
  | [], _ => Ok true
  | p :: probe_key, c :: cand => eq ← Value_eq p c; if eq : bool then keys_equal probe_key cand else Ok false
  | _ :: _, [] => Err UndefinedBehaviour
  end.

(** The candidates of one row from [midx] on; [Some m] when the output filled up. *)
Fixpoint match_loop (probe_key : list Value) (input : DataChunk) (row : nat) (cands : list Entry) (midx : nat)
    (output : DataChunk) : result (DataChunk * option nat) :=
  match cands with
  | [] => Ok (output, None)
  | e :: cands =>
      eq ← keys_equal probe_key (key e);
      output ← (if eq : bool then EmitMatchRow output input row (entry_row e) else Ok output);
      if decide (ch_count output = STANDARD_VECTOR_SIZE) then Ok (output, Some (S midx))
      else match_loop probe_key input row cands (S midx) output
  end.

(** The rows of the input that are left; [lookup] is the table of a row. *)
Fixpoint probe_rows (active : nat -> option JoinHashTable) (left_key_col_idxs : list nat) (hashes : list Z)
    (input : DataChunk) (rows : list nat) (midx : nat) (output : DataChunk)
    : result (DataChunk * option JoinProbeState) :=
  match rows with
  | [] => Ok (output, None)
  | row :: rows =>
      match active row with
      | None => probe_rows active left_key_col_idxs hashes input rows 0 output
      | Some t =>
          h ← of_option UndefinedBehaviour (hashes !! row);
          match ProbeByHash t h with
          | [] => probe_rows active left_key_col_idxs hashes input rows 0 output
          | candidates =>
              probe_key ← mapM_r (fun ki => v ← column input ki; ReadRowValue v row) left_key_col_idxs;
              '(output, stop) ← match_loop probe_key input row (drop midx candidates) midx output;
              match stop with
              | Some m => Ok (output, Some (mkProbeState row m))
              | None => probe_rows active left_key_col_idxs hashes input rows 0 output
              end
          end
      end
  end.

Record HashJoinProbe : Type := mkProbe {
  left_key_col_idxs : list nat;
  left_partition_info : PartitionInfo;
  probe_output_types : list TypeId;
}.

(** [PhysicalHashJoinProbe::Execute]; the row loop starts at the state's row. *)
Definition Probe_Execute (H : Hashes) (p : HashJoinProbe) (jt : JoinTables) (st : JoinProbeState) (input : DataChunk)
    : result (OperatorResultType * DataChunk * JoinProbeState) :=
  let output := mkChunk (presize STANDARD_VECTOR_SIZE <$> columns (Initialize (probe_output_types p))) 0 in
  part_ids ← match partition_hts jt with
             | [] => Ok []
             | _ => mapM_r (RoutePartition H input (left_partition_info p) (partition_col_idxs (left_partition_info p)))
                      (seq 0 (ch_count input))
             end;
  hashes ← ComputeHashes H input (left_key_col_idxs p) (ch_count input);
  let active row :=
    match partition_hts jt with
    | [] => Some (ht jt)
    | hts => pid ← part_ids !! row; hts !! Z.to_nat pid
    end in
  let first := probe_row_idx st in
  '(output, stop) ← probe_rows active (left_key_col_idxs p) hashes input
                      (seq first (ch_count input - first)) (match_idx st) output;
  match stop with
  | Some st => Ok (HAVE_MORE_OUTPUT, output, st)
  | None => Ok (NEED_MORE_INPUT, output, JoinProbeState_init)
  end.

(** The operator called on the same input until it asks for more. *)
Fixpoint probe_run (fuel : nat) (H : Hashes) (p : HashJoinProbe) (jt : JoinTables) (st : JoinProbeState)
    (input : DataChunk) : result (list DataChunk) :=
  match fuel with
  | O => Err UndefinedBehaviour
  | S fuel =>
      '(r, out, st) ← Probe_Execute H p jt st input;
      if decide (r = HAVE_MORE_OUTPUT) then outs ← probe_run fuel H p jt st input; Ok (out :: outs)
      else Ok [out]
  end.

(** ** The nested-loop join *)

(** A cell of a column of type [t] as a value, and back. *)
Definition cell_value (t : TypeId) (c : cell) : Value :=
  match c with
  | CInt z => if decide (t = BOOLEAN) then Value_Boolean (negb (Z.eqb z 0)) else mkValue t (VInt z)
  | CFloat b => mkValue t (VDouble b)
  | CStr s => mkValue t (VStr s)
  end.

Definition value_cell (v : Value) : cell :=
  match data v with
  | VInt z => CInt z
  | VDouble b => CFloat b
  | VBool b => CInt (bit_of b)
  | VStr s => CStr s
  end.

(** The join key of a row; a NULL among the key columns leaves it undefined. *)
Definition key_of (types : list TypeId) (idxs : list nat) (r : sql_row) : option (list Value) :=
  mapM (fun i => t ← types !! i; x ← r !! i; c ← x; Some (cell_value t c)) idxs.

Fixpoint keys_eqb (a b : list Value) : bool :=
  match a, b with
  | [], [] => true
  | x :: a, y :: b => Value_eqb x y && keys_eqb a b
  | _, _ => false
  end.

(** SQL's equi-join condition: a NULL key matches nothing. *)
Definition keys_match (kl kr : option (list Value)) : bool :=
  match kl, kr with Some a, Some b => keys_eqb a b | _, _ => false end.

Definition nested_loop_join (lt : list TypeId) (lk : list nat) (rt : list TypeId) (rk : list nat)
    (L R : list sql_row) : list sql_row :=
  l ← L; (fun r => l ++ r) <$> filter (fun r => keys_match (key_of lt lk l) (key_of rt rk r) = true) R.

(** ** Values and cells *)

Definition no_nulls (r : sql_row) : Prop := Forall is_Some r.

(** The cells of a BOOLEAN column are 0 and 1. *)
Definition bools_ok (c : DataChunk) : Prop :=
  Forall (fun col => dv_type col = BOOLEAN -> forall i z, i < ch_count c -> dv_row col i = Some (CInt z) -> z = 0%Z \/ z = 1%Z) (columns c).

(** The cell is of the storage of the type. *)
Definition cell_fits (t : TypeId) (c : cell) : Prop :=
  match c with
  | CInt z => storage_of t = SInt /\ (t = BOOLEAN -> z = 0%Z \/ z = 1%Z)
  | CFloat _ => storage_of t = SFloat
  | CStr _ => storage_of t = SStr
  end.

Lemma cell_value_spec t c :
  cell_fits t c -> Value_wf (cell_value t c) /\ vtype (cell_value t c) = t /\
    Value_IsNull (cell_value t c) = false /\ value_cell (cell_value t c) = c.
Proof.
  destruct c as [z|b|s]; simpl.
  - intros [Hs Hb]. unfold cell_value. case_decide as E.
    + subst t. split_and!; try done. unfold value_cell. simpl. destruct (Hb eq_refl) as [-> | ->]; done.
    + unfold Value_wf, Value_IsNull; simpl; destruct t; done.
  - intros Hs. unfold Value_wf, Value_IsNull; simpl. by destruct t.
  - intros Hs. unfold Value_wf, Value_IsNull; simpl. by destruct t.
Qed.

Lemma ExtractValue_cell vec i c :
  dv_wf vec -> dv_row vec i = Some c -> ExtractValue vec i = Ok (cell_value (dv_type vec) c).
Proof.
  intros Hwf Hr. unfold ExtractValue.
  destruct (dv_row_view vec i Hwf) as [Hn Hd|z Hn Hs Ha Hd|z Hn Hs Ha Hd|z Hn Hs Ha Hd]; rewrite Hn;
    rewrite Hd in Hr; simplify_eq; rewrite Ha; unfold cell_value; destruct (dv_type vec); done.
Qed.

(** Appending a value of the type of the vector. *)
Lemma DataVectorAppendValue_rows dst v :
  dv_wf dst -> dv_count dst < STANDARD_VECTOR_SIZE -> Value_wf v -> vtype v = dv_type dst ->
  Value_IsNull v = false ->
  exists dst', DataVectorAppendValue dst v = Ok dst' /\ appended dst dst' (Some (value_cell v)).
Proof.
  intros Hwf Hlt Hv Ht Hn. unfold DataVectorAppendValue. rewrite Hn.
  destruct v as [t d]; simpl in *; subst t. unfold Value_wf in Hv; simpl in Hv. unfold Value_IsNull in Hn. simpl in Hn.
  destruct (SetValid_Ok (with_count (S (dv_count dst)) dst) (dv_count dst) Hlt) as (v & Hsv & _ & Htv & _).
  assert (forall src tt, storage_of tt = storage_of (dv_type dst) -> dv_type src = dv_type dst ->
    cells src = [value_cell (mkValue (dv_type dst) d)] ->
    exists dst', on_storage tt (store_at (dv_count dst) 0) v src = Ok dst' /\
      appended dst dst' (Some (value_cell (mkValue (dv_type dst) d)))) as Hgo.
  { intros src tt Htt Hts Hc. destruct (append_value_rows dst src 0 tt Hwf Hlt Htt) as (dst' & H & Ha).
    - by rewrite Hts.
    - rewrite Hc. simpl. lia.
    - exists dst'. rewrite Hsv in H. split; [done|]. by rewrite Hc in Ha. }
  rewrite Hsv. simpl. rewrite Htv. simpl.
  destruct (dv_type dst) eqn:Et; destruct d as [z|b|b|st]; try done; cbn [get_int get_double get_bool get_str mbind result_bind].
  all: first [ apply (Hgo (with_int [bit_of b] dst) BOOLEAN) | apply (Hgo (with_int [z] dst) INT64)
             | apply (Hgo (with_float [b] dst) FLOAT64) | apply (Hgo (with_str [st] dst) VARCHAR) ]; try done;
       unfold cells; simpl; by rewrite Et.
Qed.

(** ** Keys and hashes *)

Section join.
Context (H : Hashes).

(** The row of a chunk as its types see it: no NULL, and every cell of the
    storage of its column. *)
Definition row_fits (types : list TypeId) (r : sql_row) : Prop :=
  Forall2 (fun t x => exists c, x = Some c /\ cell_fits t c) types r.

Lemma chunk_row_lookup c i k v : columns c !! k = Some v -> row_at c i !! k = Some (dv_row v i).
Proof. intros Hv. unfold row_at. by rewrite list_lookup_fmap, Hv. Qed.

Lemma dv_row_fits v i c :
  dv_wf v -> (dv_type v = BOOLEAN -> forall z, dv_row v i = Some (CInt z) -> z = 0%Z \/ z = 1%Z) ->
  dv_row v i = Some c -> cell_fits (dv_type v) c.
Proof.
  intros Hv Hb Hr.
  destruct (dv_row_view v i Hv) as [Hn Hd|z Hn Hs Ha Hd|z Hn Hs Ha Hd|z Hn Hs Ha Hd]; rewrite Hd in Hr; simplify_eq; try done.
  split; [done|]. intros Ht. by apply (Hb Ht).
Qed.

Lemma row_at_fits c i :
  chunk_wf c -> bools_ok c -> i < ch_count c -> no_nulls (row_at c i) -> row_fits (col_types c) (row_at c i).
Proof.
  intros Hwf Hb Hi Hn. unfold row_fits, col_types, row_at, no_nulls in *.
  apply Forall2_fmap_2. apply Forall_Forall2_diag. rewrite Forall_fmap in Hn.
  apply Forall_lookup. intros k v Hv.
  destruct (proj1 (Forall_lookup _ _) Hwf k v Hv) as [Hw _].
  destruct (proj1 (Forall_lookup _ _) Hn k v Hv) as [cc Hcc].
  exists cc. split; [done|]. apply (dv_row_fits v i); [done| |done]. intros Ht z. by apply (proj1 (Forall_lookup _ _) Hb k v Hv).
Qed.

Lemma key_of_cons types k ks r vs :
  key_of types (k :: ks) r = Some vs <->
  exists t c vs', types !! k = Some t /\ r !! k = Some (Some c) /\ key_of types ks r = Some vs' /\ vs = cell_value t c :: vs'.
Proof.
  unfold key_of. cbn [mapM]. split.
  - intros Hm. apply bind_Some in Hm as (v & Hv & Hm). apply bind_Some in Hm as (vs' & Hvs & Hm). simplify_eq.
    apply bind_Some in Hv as (t & Ht & Hv). apply bind_Some in Hv as (x & Hx & Hv). apply bind_Some in Hv as (c & Hc & Hv).
    injection Hv as <-. subst x. exists t, c, vs'. split_and!; try done. by injection Hm as <-.
  - intros (t & c & vs' & Ht & Hr & Hks & ->). rewrite Ht, Hr. simpl. by rewrite Hks.
Qed.

Lemma column_Ok c k v : columns c !! k = Some v -> column c k = Ok v.
Proof. unfold column. by intros ->. Qed.

(** A key without NULL is read as such from the vectors. *)
Lemma read_key c idxs i ks :
  chunk_wf c -> key_of (col_types c) idxs (row_at c i) = Some ks ->
  mapM_r (fun k => v ← column c k; ExtractValue v i) idxs = Ok ks.
Proof.
  intros Hwf. revert ks. induction idxs as [|k idxs IH]; intros ks Hk.
  { by injection Hk as <-. }
  apply key_of_cons in Hk as (t & cc & ks' & Ht & Hr & Hks & ->).
  apply list_lookup_fmap_Some in Ht as (v & -> & Hv). rewrite (chunk_row_lookup c i k v Hv) in Hr. injection Hr as Hr.
  destruct (proj1 (Forall_lookup _ _) Hwf k v Hv) as [Hw _].
  cbn [mapM_r]. rewrite (column_Ok c k v Hv). simpl. rewrite (ExtractValue_cell v i cc) by done. simpl. by rewrite (IH ks').
Qed.

(** The hash of one row over the key columns, from a start value. *)
Definition row_hash (h0 : Z) (c : DataChunk) (idxs : list nat) (i : nat) : result Z :=
  foldM (fun h k => v ← column c k; vh ← column_hash H v i; Ok (mix h vh)) h0 idxs.

Lemma column_hash_Ok v i : dv_wf v -> exists z, column_hash H v i = Ok z.
Proof.
  intros Hv. unfold column_hash.
  destruct (dv_row_view v i Hv) as [Hn Hd|z Hn Hs Ha Hd|z Hn Hs Ha Hd|z Hn Hs Ha Hd]; rewrite Hn; [by eexists|..];
    rewrite Hs, Ha; by eexists.
Qed.

Lemma hash_column_Ok v hashes :
  dv_wf v -> exists hs, hash_column H v hashes = Ok hs /\ length hs = length hashes /\
    forall i h, hashes !! i = Some h -> exists z, column_hash H v i = Ok z /\ hs !! i = Some (mix h z).
Proof.
  intros Hv. unfold hash_column.
  set (f := fun '(r, h) => vh ← column_hash H v r; Ok (mix h vh)).
  set (g := fun '(r, h) => mix h (match column_hash H v r with Ok z => z | Err _ => 0%Z end)).
  assert (mapM_r f (imap pair hashes) = Ok (map g (imap pair hashes))) as Hm.
  { apply mapM_r_Ok. intros [r h] _. unfold f, g. by destruct (column_hash_Ok v r Hv) as [z ->]. }
  exists (map g (imap pair hashes)). split.
  { pose proof (wf_storage _ Hv). destruct (storage_of (dv_type v)); try done; exact Hm. }
  split; [by rewrite length_map, length_imap|].
  intros i h Hi. destruct (column_hash_Ok v i Hv) as [z Hz]. exists z. split; [done|].
  change (map g) with (fmap (M := list) g). rewrite list_lookup_fmap, list_lookup_imap, Hi. simpl. by rewrite Hz.
Qed.

Lemma ComputeHashes_rows c idxs n :
  chunk_wf c -> Forall (fun k => k < length (columns c)) idxs ->
  exists hs, ComputeHashes H c idxs n = Ok hs /\ length hs = n /\
    forall i, i < n -> exists h, hs !! i = Some h /\ row_hash 0 c idxs i = Ok h.
Proof.
  intros Hwf Hidx. unfold ComputeHashes.
  destruct (foldM_invariant (fun pre hs => length hs = n /\
      forall i, i < n -> exists h, hs !! i = Some h /\ row_hash 0 c pre i = Ok h)
    (fun hashes ki => col ← column c ki; hash_column H col hashes) (replicate n 0%Z) idxs) as (hs & Hf & Hl & Hrow).
  - split; [len|]. intros i Hi. exists 0%Z. split; [by rewrite lookup_replicate_2|done].
  - intros pre k hs [Hl Hrow] [suf ->].
    apply Forall_app in Hidx as [_ Hidx]. apply Forall_cons in Hidx as [Hk _].
    apply lookup_lt_is_Some in Hk as [v Hv]. destruct (proj1 (Forall_lookup _ _) Hwf k v Hv) as [Hw _].
    rewrite (column_Ok c k v Hv). simpl. destruct (hash_column_Ok v hs Hw) as (hs' & -> & Hl' & Hrow').
    exists hs'. split; [done|]. split; [lia|]. intros i Hi. destruct (Hrow i Hi) as (h & Hh & Hrh).
    destruct (Hrow' i h Hh) as (z & Hz & Hz'). exists (mix h z). split; [done|].
    unfold row_hash. rewrite foldM_app. unfold row_hash in Hrh. rewrite Hrh. simpl. rewrite (column_Ok c k v Hv). simpl. by rewrite Hz.
  - by exists hs.
Qed.

(** The key columns are not BOOLEAN: their two hashes come from different
    instances of [std::hash]. *)
Definition keys_hashable (types : list TypeId) (idxs : list nat) : Prop :=
  Forall (fun k => exists t, types !! k = Some t /\ t <> BOOLEAN) idxs.

Lemma ValueHash_cell v i c :
  dv_wf v -> dv_type v <> BOOLEAN -> dv_row v i = Some c -> ValueHash H (cell_value (dv_type v) c) = column_hash H v i.
Proof.
  intros Hv Hb Hr. unfold column_hash, ValueHash.
  destruct (dv_row_view v i Hv) as [Hn Hd|z Hn Hs Ha Hd|z Hn Hs Ha Hd|z Hn Hs Ha Hd]; rewrite Hn, Hd in *; simplify_eq;
    rewrite Hs, Ha; unfold cell_value; rewrite ?decide_False by done; unfold Value_IsNull; simpl; destruct (dv_type v); done.
Qed.

Lemma row_hash_key h0 c idxs i ks :
  chunk_wf c -> keys_hashable (col_types c) idxs -> key_of (col_types c) idxs (row_at c i) = Some ks ->
  row_hash h0 c idxs i = foldM (fun h v => vh ← ValueHash H v; Ok (mix h vh)) h0 ks.
Proof.
  intros Hwf Hh. revert h0 ks. induction Hh as [|k idxs (t & Ht & Hb) Hh IH]; intros h0 ks Hk.
  { by injection Hk as <-. }
  apply key_of_cons in Hk as (t' & cc & ks' & Ht' & Hr & Hks & ->). rewrite Ht in Ht'. injection Ht' as <-.
  apply list_lookup_fmap_Some in Ht as (v & -> & Hv). rewrite (chunk_row_lookup c i k v Hv) in Hr. injection Hr as Hr.
  destruct (proj1 (Forall_lookup _ _) Hwf k v Hv) as [Hw _].
  unfold row_hash. cbn [foldM]. rewrite (column_Ok c k v Hv). simpl. rewrite (ValueHash_cell v i cc) by done.
  destruct (column_hash_Ok v i Hw) as [z ->]. simpl. by apply IH.
Qed.

(** Equal keys have equal hashes. *)
Lemma HashKey_congr `{!HashLaws H} a b :
  Forall Value_wf a -> Forall Value_wf b -> keys_eqb a b = true -> HashKey H a = HashKey H b.
Proof.
  unfold HashKey. intros Ha. generalize 0%Z. revert b. induction Ha as [|x a Hx _ IH]; intros [|y b] h Hb Heq; try done.
  apply Forall_cons in Hb as [Hy Hb]. simpl in Heq. apply andb_true_iff in Heq as [He Heq].
  cbn [foldM]. rewrite (ValueHash_congr x y) by done. destruct (ValueHash H y); simpl; [by apply IH|done].
Qed.

Lemma keys_equal_eqb a b :
  Forall Value_wf a -> Forall Value_wf b -> length a = length b -> keys_equal a b = Ok (keys_eqb a b).
Proof.
  intros Ha. revert b. induction Ha as [|x a Hx _ IH]; intros [|y b] Hb Hl; try done.
  apply Forall_cons in Hb as [Hy Hb]. cbn [keys_equal keys_eqb]. rewrite Value_eq_wf by done. simpl.
  destruct (Value_eqb x y); simpl; [apply IH; [done|simpl in Hl; lia]|done].
Qed.

(** ** The build side *)

Definition row_values (types : list TypeId) (r : sql_row) : list Value :=
  zip_with (fun t x => match x with Some c => cell_value t c | None => Value_Null t end) types r.

Definition entry_of (types : list TypeId) (rk : list nat) (r : sql_row) : Entry :=
  mkEntry (default [] (key_of types rk r)) (row_values types r).

(** The table holds the entries under their hashes, in order. *)
Definition table_rep (t : JoinHashTable) (es : list Entry) : Prop :=
  forall h, default [] (t !! h) = filter (fun e => HashKey H (key e) = Ok h) es.

Lemma key_of_fits types idxs r :
  row_fits types r -> Forall (fun k => k < length types) idxs ->
  exists ks, key_of types idxs r = Some ks /\ Forall Value_wf ks /\ length ks = length idxs.
Proof.
  intros Hr. induction 1 as [|k idxs Hk _ (ks & Hks & Hwf & Hl)]; [by exists []|].
  apply lookup_lt_is_Some in Hk as [t Ht].
  destruct (Forall2_lookup_l _ _ _ k t Hr Ht) as (x & Hx & c & -> & Hf).
  exists (cell_value t c :: ks). split; [apply key_of_cons; by exists t, c, ks|].
  split; [|by simpl; f_equal]. constructor; [|done]. by apply cell_value_spec.
Qed.

Lemma HashKey_Ok ks : Forall Value_wf ks -> exists h, HashKey H ks = Ok h.
Proof.
  unfold HashKey. intros Hks. generalize 0%Z. induction Hks as [|v ks Hv _ IH]; intros h; [by eexists|].
  cbn [foldM]. assert (exists z, ValueHash H v = Ok z) as [z ->]; [|apply IH].
  unfold ValueHash, Value_IsNull, Value_wf in *. destruct v as [t d]; simpl in *.
  destruct t, d; try done; simpl; by eexists.
Qed.

Lemma read_row c i :
  chunk_wf c -> no_nulls (row_at c i) ->
  mapM_r (fun v => ExtractValue v i) (columns c) = Ok (row_values (col_types c) (row_at c i)).
Proof.
  unfold chunk_wf, no_nulls, row_at, col_types, row_values. generalize (ch_count c). intros n Hwf Hn.
  rewrite Forall_fmap in Hn. induction Hwf as [|v cols [Hv _] _ IH]; [done|].
  apply Forall_cons in Hn as [[x Hx] Hn]. simpl in Hx. rewrite !fmap_cons. simpl.
  rewrite (ExtractValue_cell v i x), Hx by done. simpl. by rewrite (IH Hn).
Qed.

Lemma Insert_rep t es rk c i :
  chunk_wf c -> bools_ok c -> i < ch_count c -> no_nulls (row_at c i) -> Forall (fun k => k < length (columns c)) rk -> table_rep t es ->
  exists t', Insert H t rk c i = Ok t' /\ table_rep t' (es ++ [entry_of (col_types c) rk (row_at c i)]).
Proof.
  intros Hwf Hb Hi Hn Hrk Hrep. pose proof (row_at_fits c i Hwf Hb Hi Hn) as Hfit.
  destruct (key_of_fits _ rk _ Hfit) as (ks & Hks & Hkw & _).
  { unfold col_types. by rewrite length_fmap. }
  unfold Insert. rewrite (read_key c rk i ks) by done. simpl. rewrite read_row by done. simpl.
  destruct (HashKey_Ok ks Hkw) as [h Hh]. rewrite Hh. simpl. eexists. split; [done|].
  intros h'. rewrite filter_app. unfold entry_of at 1. rewrite Hks. simpl. rewrite filter_cons. simpl.
  destruct (decide (h = h')) as [<-|Hne].
  - rewrite lookup_insert_eq. simpl. rewrite decide_True by done. by rewrite Hrep.
  - rewrite lookup_insert_ne by done. rewrite decide_False by (rewrite Hh; congruence).
    by rewrite filter_nil, app_nil_r, Hrep.
Qed.

(** The rows of the build side that the theorem covers. *)
Record build_ok (types : list TypeId) (rk : list nat) (c : DataChunk) : Prop := {
  bo_wf : chunk_wf c;
  bo_types : col_types c = types;
  bo_bools : bools_ok c;
  bo_nulls : Forall no_nulls (chunk_rows c);
  bo_keys : Forall (fun k => k < length types) rk;
}.

Lemma Build_Consume_rep types rk pinfo t es c :
  build_ok types rk c -> table_rep t es ->
  exists t', Build_Consume H rk pinfo (mkJoinTables t []) c = Ok (mkJoinTables t' []) /\
    table_rep t' (es ++ (entry_of types rk <$> chunk_rows c)).
Proof.
  intros [Hwf Hty Hb Hn Hrk] Hrep. unfold Build_Consume. simpl.
  destruct (foldM_invariant (fun pre t' => table_rep t' (es ++ (entry_of types rk <$> (row_at c <$> pre))))
     (fun t row => Insert H t rk c row) t (seq 0 (ch_count c))) as (t' & -> & Ht').
  - simpl. by rewrite app_nil_r.
  - intros pre i t0 Ht0 [suf Hs].
    destruct (Insert_rep t0 (es ++ (entry_of types rk <$> (row_at c <$> pre))) rk c i) as (t1 & Hi & H1); try done.
    + assert (i ∈ seq 0 (ch_count c)) as Hi by (rewrite Hs; set_solver). apply elem_of_seq in Hi. lia.
    + unfold chunk_rows in Hn. rewrite Forall_fmap, Hs in Hn. apply Forall_app in Hn as [_ Hn].
      by apply Forall_cons in Hn as [Hn _].
    + rewrite <- Hty in Hrk. unfold col_types in Hrk. by rewrite length_fmap in Hrk.
    + exists t1. split; [done|]. rewrite Hty, <- app_assoc in H1. by rewrite !fmap_app.
  - by exists t'.
Qed.

(** The whole build pipeline. *)
Lemma build_rep types rk pinfo inputs :
  Forall (build_ok types rk) inputs ->
  exists t, foldM (Build_Consume H rk pinfo) (mkJoinTables ∅ []) inputs = Ok (mkJoinTables t []) /\
    table_rep t (entry_of types rk <$> stream_rows inputs).
Proof.
  intros Hall.
  destruct (foldM_invariant (fun pre jt => exists t, jt = mkJoinTables t [] /\
      table_rep t (entry_of types rk <$> stream_rows pre))
    (Build_Consume H rk pinfo) (mkJoinTables ∅ []) inputs) as (jt & Hf & t & -> & Ht).
  - exists ∅. split; [done|]. intros h. by rewrite lookup_empty.
  - intros pre c jt (t & -> & Ht) [suf ->]. apply Forall_app in Hall as [_ Hall]. apply Forall_cons in Hall as [Hc _].
    destruct (Build_Consume_rep types rk pinfo t _ c Hc Ht) as (t' & Hb & Ht'). exists (mkJoinTables t' []).
    split; [done|]. exists t'. split; [done|].
    unfold stream_rows in *. by rewrite fmap_app, concat_app, fmap_app, fmap_cons; simpl; rewrite app_nil_r.
  - by exists t.
Qed.

(** ** Emitting one row *)

Lemma appended_row c c' r :
  appended c c' r -> dv_count c' = S (dv_count c) /\ (forall j, j < dv_count c -> dv_row c' j = dv_row c j) /\
    dv_row c' (dv_count c) = r.
Proof.
  intros (Hwf & Ht & _ & Hr). assert (dv_count c' = S (dv_count c)) as Hc.
  { apply (f_equal length) in Hr. rewrite length_app, !length_dv_rows in Hr. simpl in Hr. lia. }
  split; [done|]. split.
  - intros j Hj. apply (f_equal (.!! j)) in Hr. rewrite lookup_app_l in Hr by len.
    rewrite !lookup_dv_rows in Hr by lia. congruence.
  - apply (f_equal (.!! dv_count c)) in Hr. rewrite lookup_app_r in Hr by len.
    rewrite length_dv_rows, Nat.sub_diag, lookup_dv_rows in Hr by lia. simpl in Hr. congruence.
Qed.

Lemma emit_columns_Ok writers cols rs :
  Forall3 (fun w c r => exists c', w c = Ok c' /\ appended c c' r) writers cols rs ->
  exists cols', emit_columns writers cols = Ok cols' /\ Forall3 appended cols cols' rs.
Proof.
  induction 1 as [|w c r ws cs rs (c' & Hw & Ha) _ (cols' & Hc & IH)]; [exists []; split; [done|constructor]|].
  exists (c' :: cols'). cbn [emit_columns]. rewrite Hw. simpl. rewrite Hc. split; [done|]. by constructor.
Qed.

Lemma Forall3_app {A B C} (P : A -> B -> C -> Prop) l1 l2 k1 k2 m1 m2 :
  Forall3 P l1 k1 m1 -> Forall3 P l2 k2 m2 -> Forall3 P (l1 ++ l2) (k1 ++ k2) (m1 ++ m2).
Proof. induction 1; [done|]. intros. simpl. constructor; auto. Qed.

(** The rows after one append to every column. *)
Lemma appended_chunk_rows cols cols' rs n :
  Forall3 appended cols cols' rs -> Forall (fun col => dv_wf col /\ dv_count col = n) cols -> S n <= STANDARD_VECTOR_SIZE ->
  batch_ok (mkChunk cols' (S n)) /\ (dv_type <$> cols') = (dv_type <$> cols) /\
  chunk_rows (mkChunk cols' (S n)) = chunk_rows (mkChunk cols n) ++ [rs].
Proof.
  intros H3 Hwf Hn.
  assert (Forall (fun col => dv_wf col /\ dv_count col = S n) cols' /\ (dv_type <$> cols') = (dv_type <$> cols) /\
    (forall i, i < n -> (fun col => dv_row col i) <$> cols' = (fun col => dv_row col i) <$> cols) /\
    (fun col => dv_row col n) <$> cols' = rs) as (Hw & Ht & Hold & Hnew).
  { induction H3 as [|c c' r cs cs' rs Ha _ IH]; [by split_and!|].
    apply Forall_cons in Hwf as [[Hc Hcn] Hwf]. destruct (IH Hwf) as (IH1 & IH2 & IH3 & IH4).
    destruct (appended_row _ _ _ Ha) as (H1 & H2 & H4). destruct Ha as (Hw' & Ht' & _). subst n.
    split_and!.
    - by constructor.
    - by rewrite !fmap_cons, Ht', IH2.
    - intros i Hi. rewrite !fmap_cons, H2, IH3 by done. done.
    - by rewrite fmap_cons, H4, IH4. }
  split; [by split|]. split; [done|]. unfold chunk_rows. cbn [ch_count]. rewrite seq_S, fmap_app. f_equal.
  - apply list_fmap_ext. intros i j Hij. apply lookup_seq in Hij as [-> Hi]. unfold row_at. simpl. by apply Hold.
  - rewrite fmap_cons. unfold row_at. simpl. by rewrite Hnew.
Qed.

Definition value_fits (t : TypeId) (v : Value) : Prop := Value_wf v /\ vtype v = t /\ Value_IsNull v = false.

Definition right_cells (vals : list Value) : sql_row := (fun v => Some (value_cell v)) <$> vals.

Lemma EmitMatchRow_rows out left i rt vals :
  batch_ok out -> ch_count out < STANDARD_VECTOR_SIZE -> chunk_wf left -> i < ch_count left ->
  Forall2 value_fits rt vals -> col_types out = col_types left ++ rt ->
  exists out', EmitMatchRow out left i vals = Ok out' /\ batch_ok out' /\ ch_count out' = S (ch_count out) /\
    col_types out' = col_types out /\ chunk_rows out' = chunk_rows out ++ [row_at left i ++ right_cells vals].
Proof.
  intros [Hwf Hn] Hlt Hleft Hi Hvals Hty. unfold EmitMatchRow. destruct out as [cols n]. simpl in *.
  change (dv_type <$> cols = col_types left ++ rt) in Hty.
  apply fmap_app_inv in Hty as (lcols & rcols & Hl & Hr & ->).
  unfold chunk_wf in Hwf. simpl in Hwf. apply Forall_app in Hwf as [Hwl Hwr].
  destruct (emit_columns_Ok (((fun col dst => DataVectorAppend dst col i) <$> columns left) ++
    ((fun v dst => DataVectorAppendValue dst v) <$> vals)) (lcols ++ rcols) (row_at left i ++ right_cells vals)) as (cols' & Hm & H3).
  - apply Forall3_app.
    + unfold row_at. clear -Hl Hwl Hleft Hi Hlt. unfold col_types, chunk_wf in *. revert lcols Hl Hwl.
      induction Hleft as [|v vs [Hv Hc] _ IH]; intros lcols Hl Hwl.
      { destruct lcols; [constructor|done]. }
      destruct lcols as [|d ds]; [done|]. rewrite !fmap_cons in *. injection Hl as Ht Hl.
      apply Forall_cons in Hwl as [[Hd Hdc] Hwl]. constructor; [|by apply IH].
      apply DataVectorAppend_rows; [done|lia|by rewrite Ht|]. apply (dv_wf_readable v i Hv).
    + unfold right_cells. clear -Hr Hwr Hvals Hlt. revert rcols Hr Hwr.
      induction Hvals as [|t v ts vs (Hv & Ht & Hnl) _ IH]; intros rcols Hr Hwr.
      { destruct rcols; [constructor|done]. }
      destruct rcols as [|d ds]; [done|]. rewrite !fmap_cons in *. injection Hr as Hdt Hr.
      apply Forall_cons in Hwr as [[Hd Hdc] Hwr]. constructor; [|by apply IH].
      apply DataVectorAppendValue_rows; [done|lia|done|congruence|done].
  - rewrite Hm. simpl. eexists. split; [done|].
    destruct (appended_chunk_rows (lcols ++ rcols) cols' _ n H3) as (Hb & Ht & Hrows); [by apply Forall_app|lia|].
    split_and!; try done.
Qed.

(** ** The probe loops

    What is left to do is a list of pairs of a left row and a candidate; the
    loops take a prefix of it, emit a row for the pairs with equal keys, and
    stop when the list is used up or the output batch is full. *)

Section probe.
Context (input : DataChunk) (rt : list TypeId) (lk : list nat) (lkey : nat -> list Value).
Context (t : JoinHashTable) (es : list Entry) (hashes : list Z).

Record entry_good (e : Entry) : Prop := {
  eg_key : Forall Value_wf (key e);
  eg_len : length (key e) = length lk;
  eg_row : Forall2 value_fits rt (entry_row e);
}.

Hypothesis Hin : batch_ok input.
Hypothesis Hkeys : forall i, i < ch_count input ->
  key_of (col_types input) lk (row_at input i) = Some (lkey i) /\ Forall Value_wf (lkey i) /\ length (lkey i) = length lk.
Hypothesis Hhash : forall i, i < ch_count input -> exists h, hashes !! i = Some h /\ HashKey H (lkey i) = Ok h.
Hypothesis Hes : Forall entry_good es.
Hypothesis Hrep : table_rep t es.

Definition cands (i : nat) : list Entry := filter (fun e => HashKey H (key e) = HashKey H (lkey i)) es.

Definition emit (i : nat) (e : Entry) : list sql_row :=
  if keys_eqb (lkey i) (key e) then [row_at input i ++ right_cells (entry_row e)] else [].

(** An output batch under construction. *)
Definition out_ok (out : DataChunk) : Prop := batch_ok out /\ col_types out = col_types input ++ rt.

Lemma ProbeByHash_cands i h : i < ch_count input -> hashes !! i = Some h -> ProbeByHash t h = cands i.
Proof.
  intros Hi Hh. destruct (Hhash i Hi) as (h' & Hh' & Hk). rewrite Hh in Hh'. injection Hh' as <-.
  unfold ProbeByHash, cands. by rewrite Hrep, Hk.
Qed.

Lemma match_loop_rows i cs midx out :
  i < ch_count input -> Forall entry_good cs -> out_ok out -> ch_count out < STANDARD_VECTOR_SIZE ->
  exists out' stop c1 c2, match_loop (lkey i) input i cs midx out = Ok (out', stop) /\ out_ok out' /\
    cs = c1 ++ c2 /\ chunk_rows out' = chunk_rows out ++ (c1 ≫= emit i) /\
    match stop with
    | None => c2 = [] /\ ch_count out' < STANDARD_VECTOR_SIZE
    | Some m => m = midx + length c1 /\ ch_count out' = STANDARD_VECTOR_SIZE /\ c1 <> []
    end.
Proof.
  intros Hi Hcs. revert midx out. induction Hcs as [|e cs [Hek Hel Her] _ IH]; intros midx out Hout Hlt.
  { exists out, None, [], []. split_and!; try done. simpl. by rewrite app_nil_r. }
  destruct (Hkeys i Hi) as (_ & Hlw & Hll). cbn [match_loop]. rewrite keys_equal_eqb by (done || congruence). simpl.
  assert (exists out1, (if keys_eqb (lkey i) (key e) then EmitMatchRow out input i (entry_row e) else Ok out) = Ok out1 /\
    out_ok out1 /\ ch_count out1 <= S (ch_count out) /\ chunk_rows out1 = chunk_rows out ++ emit i e) as (out1 & -> & Ho1 & Hc1 & Hr1).
  { unfold emit. destruct (keys_eqb (lkey i) (key e)).
    - destruct Hout as [Hb Hty]. destruct (EmitMatchRow_rows out input i rt (entry_row e)) as (out1 & Hm & Hb1 & Hc & Ht1 & Hr);
        [done|done|apply Hin|done..|]. exists out1. split_and!; try done; [|lia]. split; [done|congruence].
    - exists out. split_and!; try done; [lia|by rewrite app_nil_r]. }
  simpl. case_decide as Hfull.
  - exists out1, (Some (S midx)), [e], cs. split_and!; try done; [by rewrite Hr1; simpl; rewrite app_nil_r|].
    simpl. lia.
  - destruct (IH (S midx) out1 Ho1) as (out' & stop & c1 & c2 & Hm & Ho & -> & Hr & Hstop); [destruct Ho1 as [[_ ?] _]; lia|].
    exists out', stop, (e :: c1), c2. split_and!; try done.
    + rewrite Hr, Hr1, <- app_assoc. done.
    + destruct stop as [m|]; [|done]. destruct Hstop as (-> & Hf & _). split_and!; [simpl; lia|done..].
Qed.

(** The pairs that are left for the given rows, the first of them resumed at
    candidate [midx]. *)
Definition work (rows : list nat) (midx : nat) : list (nat * Entry) :=
  match rows with
  | [] => []
  | i :: rows => (pair i <$> drop midx (cands i)) ++ (rows ≫= fun j => pair j <$> cands j)
  end.

Lemma work_0 rows : work rows 0 = rows ≫= fun j => pair j <$> cands j.
Proof. by destruct rows. Qed.

Definition emit_all (w : list (nat * Entry)) : list sql_row := w ≫= fun '(i, e) => emit i e.

Lemma emit_all_pair i cs : emit_all (pair i <$> cs) = cs ≫= emit i.
Proof. unfold emit_all. induction cs as [|e cs IH]; [done|]. by rewrite fmap_cons, !bind_cons, IH. Qed.

Lemma emit_all_app w1 w2 : emit_all (w1 ++ w2) = emit_all w1 ++ emit_all w2.
Proof. apply bind_app. Qed.

(** The outcome of the loop over [rows]. *)
Definition probe_spec (rows : list nat) (midx : nat) (out : DataChunk)
    (res : result (DataChunk * option JoinProbeState)) : Prop :=
  exists out' stop w1 w2, res = Ok (out', stop) /\ out_ok out' /\
    work rows midx = w1 ++ w2 /\ chunk_rows out' = chunk_rows out ++ emit_all w1 /\
    match stop with
    | None => w2 = []
    | Some st => work (seq (probe_row_idx st) (ch_count input - probe_row_idx st)) (match_idx st) = w2 /\
        probe_row_idx st < ch_count input /\ w1 <> [] /\ ch_count out' = STANDARD_VECTOR_SIZE
    end.

(** The candidates of the first row are done; the rest starts at 0. *)
Lemma probe_spec_next i rows midx out out0 res :
  chunk_rows out0 = chunk_rows out ++ (drop midx (cands i) ≫= emit i) ->
  probe_spec rows 0 out0 res -> probe_spec (i :: rows) midx out res.
Proof.
  intros Hr0 (out' & stop & w1 & w2 & Hp & Ho & Hw & Hr & Hs).
  exists out', stop, ((pair i <$> drop midx (cands i)) ++ w1), w2. split_and!; try done.
  - cbn [work]. by rewrite <- work_0, Hw, <- app_assoc.
  - by rewrite Hr, Hr0, emit_all_app, emit_all_pair, <- app_assoc.
  - destruct stop as [st|]; [|done]. destruct Hs as (? & ? & ? & ?). split_and!; try done. intros [_ ?]%app_eq_nil. done.
Qed.

Lemma probe_rows_work n i midx out :
  i + n = ch_count input -> out_ok out -> ch_count out < STANDARD_VECTOR_SIZE ->
  probe_spec (seq i n) midx out (probe_rows (fun _ => Some t) lk hashes input (seq i n) midx out).
Proof.
  revert i midx out. induction n as [|n IH]; intros i midx out Hn Hout Hlt.
  { exists out, None, [], []. split_and!; try done. by rewrite app_nil_r. }
  cbn [seq probe_rows]. destruct (Hhash i) as (h & Hh & _); [lia|]. rewrite Hh. cbn [of_option mbind result_bind].
  rewrite (ProbeByHash_cands i h) by (done || lia).
  destruct (cands i) as [|e0 cs0] eqn:Ec.
  { apply (probe_spec_next _ _ _ _ out); [|apply IH; [lia|done..]]. by rewrite Ec, drop_nil; simpl; rewrite app_nil_r. }
  rewrite <- Ec. clear e0 cs0 Ec.
  destruct (Hkeys i) as (Hk & _ & _); [lia|]. unfold ReadRowValue. rewrite (read_key input lk i (lkey i)) by (apply Hin || done).
  cbn [mbind result_bind].
  destruct (match_loop_rows i (drop midx (cands i)) midx out) as (out' & stop & c1 & c2 & Hm & Ho & Hc & Hr & Hs); [lia| |done..|].
  { apply Forall_drop, Forall_forall. intros e He. apply list_elem_of_filter in He as [_ He].
    by apply (proj1 (Forall_forall _ _) Hes). }
  rewrite Hm. cbn [mbind result_bind]. destruct stop as [m|].
  - destruct Hs as (-> & Hfull & Hne). exists out', (Some (mkProbeState i (midx + length c1))), (pair i <$> c1),
      ((pair i <$> c2) ++ (seq (S i) n ≫= fun j => pair j <$> cands j)).
    split_and!; try done.
    + cbn [work]. by rewrite Hc, fmap_app, <- app_assoc.
    + by rewrite Hr, emit_all_pair.
    + cbn [probe_row_idx match_idx]. replace (ch_count input - i) with (S n) by lia. cbn [seq work].
      by rewrite <- drop_drop, Hc, drop_app_length.
    + cbn [probe_row_idx]. lia.
    + by destruct c1.
  - destruct Hs as [-> Hlt']. rewrite app_nil_r in Hc. subst c1. apply (probe_spec_next _ _ _ _ out'); [done|].
    apply IH; [lia|done..].
Qed.

End probe.

(** ** The operator *)

Lemma key_of_wf c idxs i ks :
  chunk_wf c -> keys_hashable (col_types c) idxs -> key_of (col_types c) idxs (row_at c i) = Some ks ->
  Forall Value_wf ks /\ length ks = length idxs.
Proof.
  intros Hwf Hh. revert ks. induction Hh as [|k idxs (t & Ht & Hb) _ IH]; intros ks Hk.
  { by injection Hk as <-. }
  apply key_of_cons in Hk as (t' & cc & ks' & Ht' & Hr & Hks & ->). rewrite Ht in Ht'. injection Ht' as <-.
  apply list_lookup_fmap_Some in Ht as (v & -> & Hv). rewrite (chunk_row_lookup c i k v Hv) in Hr. injection Hr as Hr.
  destruct (proj1 (Forall_lookup _ _) Hwf k v Hv) as [Hw _]. destruct (IH ks' Hks) as [H1 H2].
  split; [|simpl; by f_equal]. constructor; [|done].
  apply cell_value_spec. apply (dv_row_fits v i); [done|congruence|done].
Qed.

Lemma initial_output types :
  Forall (fun t => storage_of t <> SNone) types ->
  let out := mkChunk (presize STANDARD_VECTOR_SIZE <$> columns (Initialize types)) 0 in
  batch_ok out /\ col_types out = types /\ chunk_rows out = [].
Proof.
  intros Hty. cbn [Initialize columns]. split_and!; [|unfold col_types; simpl|done].
  - split; [|simpl; unfold STANDARD_VECTOR_SIZE; lia]. unfold chunk_wf. simpl. rewrite !Forall_fmap.
    eapply Forall_impl; [exact Hty|]. intros t Ht. simpl. destruct (Reset0_wf t Ht) as [Hw _].
    assert (dv_count (Reset t 0) = 0) as Hc by (unfold Reset; by destruct (storage_of t)).
    destruct (presize_spec STANDARD_VECTOR_SIZE (Reset t 0) Hw) as (H1 & _ & H3 & _); [lia| |].
    { unfold cells, Reset. destruct (storage_of t) eqn:E; simpl; rewrite E; simpl; lia. }
    split; [done|]. apply (f_equal length) in H3. by rewrite !length_dv_rows, Hc in H3.
  - rewrite <- list_fmap_compose, <- list_fmap_compose. rewrite <- (list_fmap_id types) at 2. apply list_fmap_ext.
    intros i t Hi. simpl. unfold presize, Reset. destruct (storage_of t) eqn:E; simpl; by rewrite E.
Qed.

(** What the theorem assumes of a batch of the probe side. *)
Record probe_ok (lk : list nat) (c : DataChunk) : Prop := {
  po_batch : batch_ok c;
  po_hashable : keys_hashable (col_types c) lk;
  po_keys : Forall (fun r => is_Some (key_of (col_types c) lk r)) (chunk_rows c);
}.

Definition lkey_of (lk : list nat) (c : DataChunk) (i : nat) : list Value :=
  default [] (key_of (col_types c) lk (row_at c i)).

Lemma lkey_of_spec lk c i :
  probe_ok lk c -> i < ch_count c ->
  key_of (col_types c) lk (row_at c i) = Some (lkey_of lk c i) /\ Forall Value_wf (lkey_of lk c i) /\
  length (lkey_of lk c i) = length lk.
Proof.
  intros [[Hwf Hn] Hh Hk] Hi. unfold chunk_rows in Hk. rewrite Forall_fmap in Hk.
  destruct (proj1 (Forall_lookup _ _) Hk i i) as [ks Hks]; [by rewrite lookup_seq_lt|]. simpl in Hks.
  unfold lkey_of. rewrite Hks. simpl. split; [done|]. by apply (key_of_wf c lk i).
Qed.

Lemma keys_in_range lk c : keys_hashable (col_types c) lk -> Forall (fun k => k < length (columns c)) lk.
Proof.
  intros Hh. eapply Forall_impl; [exact Hh|]. intros k (t & Ht & _). apply lookup_lt_Some in Ht.
  unfold col_types in Ht. by rewrite length_fmap in Ht.
Qed.

(** One call, from any state it can be resumed in. *)
Lemma Probe_Execute_work p rt t es st input :
  probe_ok (left_key_col_idxs p) input -> probe_output_types p = col_types input ++ rt ->
  Forall (fun t => storage_of t <> SNone) (probe_output_types p) ->
  Forall (entry_good rt (left_key_col_idxs p)) es -> table_rep t es -> probe_row_idx st <= ch_count input ->
  let lkey := lkey_of (left_key_col_idxs p) input in
  let pending st := work lkey es (seq (probe_row_idx st) (ch_count input - probe_row_idx st)) (match_idx st) in
  exists r out st' w1 w2, Probe_Execute H p (mkJoinTables t []) st input = Ok (r, out, st') /\ batch_ok out /\
    col_types out = probe_output_types p /\
    pending st = w1 ++ w2 /\ chunk_rows out = emit_all input lkey w1 /\
    ((r = NEED_MORE_INPUT /\ w2 = [] /\ st' = JoinProbeState_init) \/
     (r = HAVE_MORE_OUTPUT /\ pending st' = w2 /\ probe_row_idx st' <= ch_count input /\ w1 <> [] /\ ch_count out = STANDARD_VECTOR_SIZE)).
Proof.
  intros Hok Hty Hst Hes Hrep Hrow lkey pending. pose proof (po_batch _ _ Hok) as Hb.
  unfold Probe_Execute. cbn [partition_hts ht mbind result_bind].
  destruct (ComputeHashes_rows input (left_key_col_idxs p) (ch_count input)) as (hs & Hhs & _ & Hh);
    [apply Hb|apply keys_in_range, Hok|].
  rewrite Hhs. cbn [mbind result_bind].
  destruct (initial_output (probe_output_types p) Hst) as (Hb0 & Ht0 & Hr0). set (out0 := mkChunk _ 0) in *.
  destruct (probe_rows_work input rt (left_key_col_idxs p) lkey t es hs Hb) with (n := ch_count input - probe_row_idx st)
    (i := probe_row_idx st) (midx := match_idx st) (out := out0) as (out & stop & w1 & w2 & Hp & Ho & Hw & Hr & Hs).
  - intros i Hi. by apply lkey_of_spec.
  - intros i Hi. destruct (Hh i Hi) as (h & Hhi & Hrh). exists h. split; [done|].
    destruct (lkey_of_spec _ _ i Hok Hi) as (Hk & _). unfold HashKey. rewrite <- Hrh. symmetry.
    apply row_hash_key; [apply Hb|apply Hok|done].
  - done.
  - done.
  - lia.
  - split; [done|congruence].
  - unfold out0. simpl. unfold STANDARD_VECTOR_SIZE. lia.
  - rewrite Hp. cbn [mbind result_bind]. rewrite Hr0 in Hr. destruct Ho as [Hbo Hto].
    destruct stop as [st'|]; do 5 eexists; (split; [done|]); split_and!; try done; try congruence.
    + right. destruct Hs as (Hs1 & Hs2 & Hs3 & Hs4). split_and!; [done|exact Hs1|lia|done|done].
    + left. done.
Qed.

Lemma probe_run_work fuel p rt t es st input :
  probe_ok (left_key_col_idxs p) input -> probe_output_types p = col_types input ++ rt ->
  Forall (fun t => storage_of t <> SNone) (probe_output_types p) ->
  Forall (entry_good rt (left_key_col_idxs p)) es -> table_rep t es -> probe_row_idx st <= ch_count input ->
  let lkey := lkey_of (left_key_col_idxs p) input in
  let pending := work lkey es (seq (probe_row_idx st) (ch_count input - probe_row_idx st)) (match_idx st) in
  length pending < fuel ->
  exists outs, probe_run fuel H p (mkJoinTables t []) st input = Ok outs /\ Forall batch_ok outs /\
    stream_rows outs = emit_all input lkey pending.
Proof.
  intros Hok Hty Hst Hes Hrep. revert st. induction fuel as [|fuel IH]; intros st Hrow lkey pending Hf; [lia|].
  destruct (Probe_Execute_work p rt t es st input Hok Hty Hst Hes Hrep Hrow) as (r & out & st' & w1 & w2 & Hx & Hb & _ & Hw & Hr & Hcase).
  cbn [probe_run]. rewrite Hx. cbn [mbind result_bind].
  assert (pending = w1 ++ w2) as Hpend by exact Hw.
  destruct Hcase as [(-> & -> & ->)|(-> & Hw2 & Hrow' & Hne & _)].
  - rewrite decide_False by done. exists [out]. split_and!; [done|by constructor|].
    unfold stream_rows. simpl. by rewrite Hpend, !app_nil_r.
  - rewrite decide_True by done. destruct (IH st' Hrow') as (outs & Ho & Hbo & Hro).
    { rewrite Hw2. rewrite Hpend, length_app in Hf. destruct w1; [done|]. simpl in Hf. lia. }
    rewrite Ho. exists (out :: outs). split_and!; [done|by constructor|].
    unfold stream_rows in *. rewrite fmap_cons. simpl. rewrite Hro, Hr, Hpend, emit_all_app. by rewrite <- Hw2.
Qed.

(** ** The emitted rows are the nested-loop join *)

Lemma right_cells_values types r : row_fits types r -> right_cells (row_values types r) = r.
Proof.
  unfold right_cells, row_values. induction 1 as [|t x ts xs (c & -> & Hf) _ IH]; [done|].
  cbn [zip_with]. rewrite fmap_cons, IH. by destruct (cell_value_spec t c Hf) as (_ & _ & _ & ->).
Qed.

Lemma row_values_fit types r : row_fits types r -> Forall2 value_fits types (row_values types r).
Proof.
  unfold row_values. induction 1 as [|t x ts xs (c & -> & Hf) _ IH]; [constructor|].
  simpl. constructor; [|done]. by destruct (cell_value_spec t c Hf) as (? & ? & ? & _).
Qed.

Lemma build_rows_fit types rk inputs :
  Forall (build_ok types rk) inputs -> Forall (row_fits types) (stream_rows inputs).
Proof.
  intros Hall. unfold stream_rows. apply Forall_concat, Forall_fmap. eapply Forall_impl; [exact Hall|].
  intros c [Hwf Hty Hb Hn _]. unfold chunk_rows in *. simpl. apply Forall_fmap, Forall_forall. intros i Hi.
  rewrite Forall_fmap in Hn. rewrite <- Hty. apply row_at_fits; [done..|apply elem_of_seq in Hi; lia|].
  by apply (proj1 (Forall_forall _ _) Hn).
Qed.

Lemma entries_good types rk lk rows :
  Forall (row_fits types) rows -> Forall (fun k => k < length types) rk -> length rk = length lk ->
  Forall (entry_good types lk) (entry_of types rk <$> rows).
Proof.
  intros Hr Hrk Hl. apply Forall_fmap. eapply Forall_impl; [exact Hr|]. intros r Hfit. simpl.
  destruct (key_of_fits types rk r Hfit Hrk) as (ks & Hks & Hkw & Hkl).
  split; cbn [entry_of key entry_row]; rewrite ?Hks; simpl; [done|congruence|by apply row_values_fit].
Qed.

Lemma cands_matches `{!HashLaws H} (lkey : nat -> list Value) types rk rows i (f : sql_row -> sql_row) :
  Forall (row_fits types) rows -> Forall (fun k => k < length types) rk -> Forall Value_wf (lkey i) ->
  (filter (fun e => HashKey H (key e) = HashKey H (lkey i)) (entry_of types rk <$> rows) ≫=
     fun e => if keys_eqb (lkey i) (key e) then [f (right_cells (entry_row e))] else []) =
  f <$> filter (fun r => keys_match (Some (lkey i)) (key_of types rk r) = true) rows.
Proof.
  intros Hr Hrk Hlw. induction Hr as [|r rows Hfit _ IH]; [done|].
  destruct (key_of_fits types rk r Hfit Hrk) as (ks & Hks & Hkw & Hkl).
  assert (keys_match (Some (lkey i)) (key_of types rk r) = keys_eqb (lkey i) ks) as Hm by (by rewrite Hks).
  assert (key (entry_of types rk r) = ks) as Hke by (unfold entry_of; by rewrite Hks).
  rewrite fmap_cons, !filter_cons.
  destruct (decide (keys_match (Some (lkey i)) (key_of types rk r) = true)) as [Hd|Hd]; rewrite Hm in Hd.
  - rewrite decide_True by (rewrite Hke; symmetry; by apply HashKey_congr).
    rewrite bind_cons, IH, fmap_cons, Hke, Hd. cbn [entry_of entry_row]. by rewrite right_cells_values.
  - case_decide; [|done]. rewrite bind_cons, IH, Hke. by destruct (keys_eqb (lkey i) ks).
Qed.

Lemma emit_all_join `{!HashLaws H} lk types rk rows input :
  probe_ok lk input -> Forall (row_fits types) rows -> Forall (fun k => k < length types) rk ->
  emit_all input (lkey_of lk input) (work (lkey_of lk input) (entry_of types rk <$> rows) (seq 0 (ch_count input)) 0) =
  nested_loop_join (col_types input) lk types rk (chunk_rows input) rows.
Proof.
  intros Hok Hr Hrk. rewrite work_0. unfold nested_loop_join, chunk_rows.
  assert (Forall (fun i => i < ch_count input) (seq 0 (ch_count input))) as Hall
    by (apply Forall_forall; intros i Hi; apply elem_of_seq in Hi; lia).
  induction Hall as [|i l Hi _ IH]; [done|].
  rewrite bind_cons, emit_all_app, IH, emit_all_pair, fmap_cons, bind_cons. f_equal.
  destruct (lkey_of_spec lk input i Hok Hi) as (Hk & Hw & _). rewrite Hk.
  apply (cands_matches (lkey_of lk input) types rk rows i (fun r => row_at input i ++ r)); done.
Qed.

Lemma length_work (lkey : nat -> list Value) es rows : length (work lkey es rows 0) <= length rows * length es.
Proof.
  rewrite work_0. induction rows as [|i rows IH]; [simpl; lia|]. rewrite bind_cons, length_app, length_fmap.
  assert (length (cands lkey es i) <= length es) by apply length_filter. cbn [length]. lia.
Qed.

(** A batch whose join does not fill an output batch is done in one call. *)
Lemma Probe_Execute_join `{!HashLaws H} p rt rk t rows input :
  probe_ok (left_key_col_idxs p) input -> probe_output_types p = col_types input ++ rt ->
  Forall (fun t => storage_of t <> SNone) (probe_output_types p) ->
  Forall (row_fits rt) rows -> Forall (fun k => k < length rt) rk -> length rk = length (left_key_col_idxs p) ->
  table_rep t (entry_of rt rk <$> rows) ->
  let joined := nested_loop_join (col_types input) (left_key_col_idxs p) rt rk (chunk_rows input) rows in
  length joined < STANDARD_VECTOR_SIZE ->
  exists out, Probe_Execute H p (mkJoinTables t []) JoinProbeState_init input = Ok (NEED_MORE_INPUT, out, JoinProbeState_init) /\
    batch_ok out /\ col_types out = probe_output_types p /\ chunk_rows out = joined.
Proof.
  intros Hok Hty Hst Hfit Hrk Hlen Hrep joined Hfew.
  destruct (Probe_Execute_work p rt t (entry_of rt rk <$> rows) JoinProbeState_init input) as (r & out & st' & w1 & w2 & Hx & Hb & Ht & Hw & Hr & Hcase);
    try done; [by apply entries_good|simpl; lia|]. cbn [probe_row_idx match_idx JoinProbeState_init] in Hw. rewrite Nat.sub_0_r in Hw.
  pose proof (emit_all_join (left_key_col_idxs p) rt rk rows input Hok Hfit Hrk) as Hj. rewrite Hw, emit_all_app in Hj. fold joined in Hj.
  destruct Hcase as [(-> & -> & ->)|(_ & _ & _ & _ & Hfull)].
  - exists out. split_and!; try done. rewrite Hr, <- Hj. by rewrite app_nil_r.
  - exfalso. rewrite <- Hj, length_app, <- Hr, length_chunk_rows in Hfew. lia.
Qed.

End join.

(** ** Theorems *)


(** Right side [(1, p), (2, q)], left side [2, 1, 2]. *)
Definition sample_right : DataChunk :=
  mkChunk [mkDV INT64 2 [1; 2]%Z [] [] 3%Z; mkDV VARCHAR 2 [] [] ["p"; "q"]%string 3%Z] 2.
Definition sample_left : DataChunk := mkChunk [mkDV INT64 3 [2; 1; 2]%Z [] [] 7%Z] 3.
Definition sample_probe : HashJoinProbe := mkProbe [0] PI_none [INT64; INT64; VARCHAR].


(** ** NULLs

    [Value::Null(t)] keeps the type [t], so it is not a NULL to
    [Value::IsNull]: the rows the hash table stores for the build side have
    lost their NULLs. *)

Lemma typed_null_append_int dst :
  dv_wf dst -> dv_count dst < STANDARD_VECTOR_SIZE -> is_int_type (dv_type dst) = true ->
  exists dst', DataVectorAppendValue dst (Value_Null (dv_type dst)) = Ok dst' /\ appended dst dst' (Some (CInt 0)).
Proof.
  intros Hwf Hlt Hi. apply DataVectorAppendValue_rows; [done..| |done|];
    unfold Value_wf, Value_IsNull, Value_Null; simpl; by destruct (dv_type dst).
Qed.

Lemma typed_null_append_other dst :
  dv_count dst < STANDARD_VECTOR_SIZE -> storage_of (dv_type dst) <> SNone -> is_int_type (dv_type dst) = false ->
  DataVectorAppendValue dst (Value_Null (dv_type dst)) = Err BadVariantAccess.
Proof.
  intros Hlt Hs Hi. unfold DataVectorAppendValue.
  destruct (SetValid_Ok (with_count (S (dv_count dst)) dst) (dv_count dst) Hlt) as (v & Hv & _ & Ht & _).
  cbn [Value_Null Value_IsNull vtype data]. rewrite Hv. unfold Value_IsNull. simpl. rewrite Ht. simpl.
  by destruct (dv_type dst).
Qed.

(** A NULL of the build side does not come out of the join as NULL: a row
    whose column [c] is NULL emits the integer 0 for an integer column, and
    throws [std::bad_variant_access] for every other type. *)
Theorem join_right_null_lost vec i dst :
  dv_wf vec -> IsNull vec i = true -> dv_wf dst -> dv_count dst < STANDARD_VECTOR_SIZE -> dv_type dst = dv_type vec ->
  exists v, ExtractValue vec i = Ok v /\
    (if is_int_type (dv_type vec)
     then exists dst', DataVectorAppendValue dst v = Ok dst' /\ dv_rows dst' = dv_rows dst ++ [Some (CInt 0)]
     else DataVectorAppendValue dst v = Err BadVariantAccess).
Proof.
  intros Hv Hn Hd Hlt Ht. exists (Value_Null (dv_type vec)). unfold ExtractValue. rewrite Hn. split; [done|].
  rewrite <- Ht. destruct (is_int_type (dv_type dst)) eqn:E.
  - destruct (typed_null_append_int dst Hd Hlt E) as (dst' & Ha & _ & _ & _ & Hr). by exists dst'.
  - apply typed_null_append_other; [done|apply Hd|done].
Qed.

Definition null_int_vec : DataVector := mkDV INT64 1 [0]%Z [] [] 0%Z.

Lemma join_right_null_lost_witness :
  exists v, ExtractValue null_int_vec 0 = Ok v /\
    exists dst', DataVectorAppendValue (Reset INT64 0) v = Ok dst' /\ dv_rows dst' = dv_rows (Reset INT64 0) ++ [Some (CInt 0)].
Proof.
  apply (join_right_null_lost null_int_vec 0 (Reset INT64 0)).
  - apply dv_wf_intro; [done|vm_compute; lia|vm_compute; split; congruence|vm_compute; lia].
  - reflexivity.
  - apply Reset0_wf. done.
  - vm_compute. lia.
  - reflexivity.
Defined.

(** A NULL key joins with 0: for every hash function, probing a table
    built from one row with a NULL key of type INT64 with the key 0 emits a
    row, where the join has none. *)
Theorem join_null_key_matches_zero H :
  let right := mkChunk [null_int_vec] 1 in
  let left := mkChunk [mkDV INT64 1 [0]%Z [] [] 1%Z] 1 in
  exists jt outs, Build_Consume H [0] PI_none (mkJoinTables ∅ []) right = Ok jt /\
    probe_run 2 H (mkProbe [0] PI_none [INT64; INT64]) jt JoinProbeState_init left = Ok outs /\
    stream_rows outs = [[Some (CInt 0); Some (CInt 0)]] /\
    nested_loop_join [INT64] [0] [INT64] [0] (chunk_rows left) (chunk_rows right) = [].
Proof.
  cbv zeta.
  set (h := mix 0 (hash_int H 0)). set (e := mkEntry [Value_Null INT64] [Value_Null INT64]).
  assert (Build_Consume H [0] PI_none (mkJoinTables ∅ []) (mkChunk [null_int_vec] 1) =
          Ok (mkJoinTables (<[h := [e]]> ∅) [])) as Hb by reflexivity.
  exists (mkJoinTables (<[h := [e]]> ∅) []). rewrite Hb.
  assert (exists out, Probe_Execute H (mkProbe [0] PI_none [INT64; INT64]) (mkJoinTables (<[h := [e]]> ∅) [])
    JoinProbeState_init (mkChunk [mkDV INT64 1 [0]%Z [] [] 1%Z] 1) = Ok (NEED_MORE_INPUT, out, JoinProbeState_init) /\
    chunk_rows out = [[Some (CInt 0); Some (CInt 0)]]) as (out & Hx & Hr).
  { eexists. split.
    { unfold Probe_Execute.
    cbn [partition_hts ht mbind result_bind left_key_col_idxs probe_output_types ch_count].
    change (ComputeHashes H (mkChunk [mkDV INT64 1 [0]%Z [] [] 1%Z] 1) [0] 1) with (Ok [h]).
    cbn [mbind result_bind probe_row_idx match_idx JoinProbeState_init seq Nat.sub probe_rows].
    change ([h] !! 0) with (Some h). cbn [of_option mbind result_bind].
    assert (ProbeByHash (<[h := [e]]> ∅) h = [e]) as -> by (unfold ProbeByHash; by rewrite lookup_insert_eq).
    reflexivity. }
    vm_compute. reflexivity. }
  exists [out]. split_and!; [done| |unfold stream_rows; simpl; by rewrite Hr|vm_compute; reflexivity].
  cbn [probe_run]. rewrite Hx. reflexivity.
Qed.
