(* ===== verification/Pipeline.v ===== *)
(** * Pipelines

    [execution/pipeline_executor.cpp] and [execution/physical_result_collector.cpp]:
    the loop that pulls batches from a source, pushes them through a chain of
    operators and hands the results to a sink.  The executor works on two
    members, [input_chunk_] and [output_chunk_], that operators read and write
    in place; the model keeps track of when the input of an operator is the
    same object as its output.

    The claim is that the chain of a SELECT with WHERE and LIMIT delivers to
    the sink the window of the projected rows that pass.  Two claims show where
    the executor does not do what [operator_result_type.hpp] asks of it: an
    operator that has more output and is not the last one loses the batch it
    produced, and an operator that produces nothing behind the first one leaves
    a batch without columns to its successor. *)

From Stdlib Require Import ZArith String.
From stdpp Require Import base gmap strings list fin_maps.
From S2P Require Import Prelude Types Double Expr Operators PartitionInfo HashJoin.

(** ** Operators of a pipeline *)

(** The subclasses of [PhysicalOperator] whose role is OPERATOR. *)
Inductive PhysicalOp : Type :=
  | OpFilter (predicate : LogicalExpr)
  | OpProjection (exprs : list LogicalExpr)
  | OpLimit (limit offset : Z)
  | OpProbe (probe : HashJoinProbe) (tables : JoinTables).

Inductive OpState : Type :=
  | NoState
  | StLimit (ls : LimitState)
  | StProbe (ps : JoinProbeState).

Definition CreateOperatorState (op : PhysicalOp) : OpState :=
  match op with
  | OpLimit _ _ => StLimit LimitState_init
  | OpProbe _ _ => StProbe JoinProbeState_init
  | _ => NoState
  end.

Record ExecEnv : Type := mkEnv { env_fpu : FPU; env_hash : Hashes }.

(** The executor runs where its source and its sink run: in [result] when they
    only compute, in a monad that carries the state of the database when they
    read or change it.  [lift] brings the operators between them there. *)
Class Lift (M : Type -> Type) : Type := lift : forall {A}, result A -> M A.
#[export] Instance Lift_result : Lift result := fun _ r => r.

Section executor.
Context (env : ExecEnv).

(** [op->Execute(input, output, state)] on two different batches; a state of
    another class is a bad [static_cast]. *)
Definition Execute (op : PhysicalOp) (st : OpState) (input output : DataChunk)
    : result (OperatorResultType * DataChunk * OpState) :=
  match op, st with
  | OpFilter p, _ => '(r, out) ← Filter_Execute (env_fpu env) p input output; Ok (r, out, st)
  | OpProjection es, _ => '(r, out) ← Projection_Execute (env_fpu env) es input; Ok (r, out, st)
  | OpLimit l o, StLimit ls => '(r, out, ls) ← Limit_Execute l o ls input output; Ok (r, out, StLimit ls)
  | OpProbe p jt, StProbe ps => '(r, out, ps) ← Probe_Execute (env_hash env) p jt ps input; Ok (r, out, StProbe ps)
  | _, _ => Err UndefinedBehaviour
  end.

(** The projection when its input is its output: initialising the output
    replaces the columns of the input, and each evaluated column replaces one
    of them. *)
Definition Projection_in_place (exprs : list LogicalExpr) (chunk : DataChunk)
    : result (OperatorResultType * DataChunk) :=
  chunk ← foldM (fun c '(i, e) => v ← Evaluate (env_fpu env) e c; Ok (mkChunk (<[i := v]> (columns c)) (ch_count c)))
            (Initialize (result_type <$> exprs)) (imap pair exprs);
  Ok (NEED_MORE_INPUT, chunk).

(** [Execute] when the input of the operator is [output_chunk_] itself, which
    the executor has just reset.  Filter and limit do not write to the output
    before they have read the input; the probe initialises the output and finds
    no row in it. *)
Definition Execute_in_place (op : PhysicalOp) (st : OpState) (chunk : DataChunk)
    : result (OperatorResultType * DataChunk * OpState) :=
  match op, st with
  | OpProjection es, _ => '(r, out) ← Projection_in_place es chunk; Ok (r, out, st)
  | OpProbe p jt, StProbe ps =>
      let chunk := mkChunk (presize STANDARD_VECTOR_SIZE <$> columns (Initialize (probe_output_types p))) 0 in
      Execute op st chunk chunk
  | _, _ => Execute op st chunk chunk
  end.

(** [TryFlush]: no operator of the program overrides the default. *)
Definition TryFlush (op : PhysicalOp) (output : DataChunk) : OperatorResultType * DataChunk := (FINISHED, output).

(** ** The sink *)

Context {M : Type -> Type} `{!MRet M, !MBind M, !Lift M}.
Context {Sink : Type} (Consume : Sink -> DataChunk -> M Sink).

(** [consume_to_sink], guarded as at every call. *)
Definition consume_to_sink (sink : Sink) (chunk : DataChunk) : M Sink :=
  if decide (0 < ch_count chunk) then Consume sink chunk else mret sink.

(** ** The operator loop *)

(** The chain of the NEED_MORE_INPUT branch: two alternating buffers, the
    first successor never writing to [output_chunk_]; the results of the
    operators are not looked at. *)
Fixpoint stage_loop (ops : list (PhysicalOp * OpState)) (stage_in stage_out : DataChunk) (in_is_output : bool)
    : result (list (PhysicalOp * OpState) * DataChunk) :=
  match ops with
  | [] => Ok ([], stage_in)
  | (op, st) :: ops =>
      '(_, out, st) ← Execute op st stage_in (Chunk_Reset stage_out);
      '(ops, last) ← stage_loop ops out (if in_is_output then mkChunk [] 0 else stage_in) false;
      Ok ((op, st) :: ops, last)
  end.

(** The operators from the current one on, for one source batch.  The input is
    [Some c] for a batch of its own and [None] for [output_chunk_].  The result
    says whether the pipeline stops, and gives the new states, [output_chunk_]
    and the sink.  The fuel counts calls of operators. *)
Fixpoint run_operators (fuel : nat) (ops : list (PhysicalOp * OpState)) (current_input : option DataChunk)
    (output_chunk : DataChunk) (sink : Sink) : M (bool * list (PhysicalOp * OpState) * DataChunk * Sink) :=
  match fuel, ops with
  | O, _ => lift (Err UndefinedBehaviour)
  | _, [] => mret (false, [], output_chunk, sink)
  | S fuel, (op, st) :: rest =>
      let output_chunk := Chunk_Reset output_chunk in
      '(op_result, output_chunk, st) ←
        lift match current_input with
             | Some c => Execute op st c output_chunk
             | None => Execute_in_place op st output_chunk
             end;
      match op_result with
      | FINISHED =>
          sink ← consume_to_sink sink output_chunk;
          mret (true, (op, st) :: rest, output_chunk, sink)
      | NEED_MORE_INPUT =>
          if decide (0 < ch_count output_chunk) then
            '(rest, last) ← lift (stage_loop rest output_chunk (mkChunk [] 0) true);
            sink ← consume_to_sink sink last;
            mret (false, (op, st) :: rest, output_chunk, sink)
          else mret (false, (op, st) :: rest, output_chunk, sink)
      | HAVE_MORE_OUTPUT =>
          match rest with
          | _ :: _ =>
              '(stop, rest, output_chunk, sink) ← run_operators fuel rest None output_chunk sink;
              mret (stop, (op, st) :: rest, output_chunk, sink)
          | [] =>
              sink ← consume_to_sink sink output_chunk;
              run_operators fuel [(op, st)] current_input output_chunk sink
          end
      end
  end.

(** ** Flushing *)

(** The downstream loop of [TryFlushOperators]: [next_out] is reset before every
    operator, also when it is the input of that operator.  [None] stands for a
    pipeline that is done. *)
Fixpoint flush_down (aliased : bool) (ops : list (PhysicalOp * OpState)) (current next_out : DataChunk)
    : result (list (PhysicalOp * OpState) * option DataChunk) :=
  match ops with
  | [] => Ok ([], Some current)
  | (op, st) :: ops =>
      let next_out := Chunk_Reset next_out in
      '(res, next_out, st) ← (if aliased then Execute_in_place op st next_out else Execute op st current next_out);
      if decide (res = FINISHED) then Ok ((op, st) :: ops, None)
      else '(ops, last) ← flush_down true ops next_out next_out; Ok ((op, st) :: ops, last)
  end.

(** [TryFlushOperators]; the fuel bounds the calls of [TryFlush]. *)
Fixpoint TryFlushOperators (calls : nat) (ops : list (PhysicalOp * OpState)) (output_chunk : DataChunk) (sink : Sink) : M Sink :=
  match calls, ops with
  | _, [] => mret sink
  | O, _ => lift (Err UndefinedBehaviour)
  | S calls, (op, st) :: rest =>
      let '(flush_result, output_chunk) := TryFlush op (Chunk_Reset output_chunk) in
      let next rest sink :=
        TryFlushOperators calls (if decide (flush_result = FINISHED) then rest else (op, st) :: rest) output_chunk sink in
      if decide (0 < ch_count output_chunk) then
        '(rest, last) ← lift (flush_down false rest output_chunk (mkChunk [] 0));
        match last with
        | None => mret sink
        | Some last => sink ← consume_to_sink sink last; next rest sink
        end
      else next rest sink
  end.

(** Every operator is asked once: none has more to flush. *)
Definition flush_operators (ops : list (PhysicalOp * OpState)) (output_chunk : DataChunk) (sink : Sink) : M Sink :=
  TryFlushOperators (length ops) ops output_chunk sink.

(** With the operators of the program the flush does nothing. *)
Lemma flush_nothing ops output_chunk sink : flush_operators ops output_chunk sink = mret sink.
Proof. unfold flush_operators. revert output_chunk. induction ops as [|[op st] ops IH]; intros output_chunk; [done|]. apply IH. Qed.

(** ** The source loop *)

Context {Source : Type} (GetData : Source -> DataChunk -> M (OperatorResultType * DataChunk * Source)).

(** The main loop of [PipelineExecutor::Execute]; [fuel] bounds the batches of
    the source, [inner] the operator calls of one batch.  When it ends, the sink
    is finalised by the caller. *)
Fixpoint run_source (fuel inner : nat) (src : Source) (ops : list (PhysicalOp * OpState))
    (input_chunk output_chunk : DataChunk) (sink : Sink) : M Sink :=
  match fuel with
  | O => lift (Err UndefinedBehaviour)
  | S fuel =>
      '(source_result, input_chunk, src) ← GetData src (Chunk_Reset input_chunk);
      if decide (source_result = FINISHED /\ ch_count input_chunk = 0) then flush_operators ops output_chunk sink
      else
        match ops with
        | [] =>
            sink ← consume_to_sink sink input_chunk;
            if decide (source_result = FINISHED) then flush_operators ops output_chunk sink
            else run_source fuel inner src ops input_chunk output_chunk sink
        | _ =>
            '(stop, ops, output_chunk, sink) ← run_operators inner ops (Some input_chunk) output_chunk sink;
            if stop : bool then mret sink
            else if decide (source_result = FINISHED) then flush_operators ops output_chunk sink
            else run_source fuel inner src ops input_chunk output_chunk sink
        end
  end.

(** [PipelineExecutor::Execute] *)
Definition PipelineExecute (fuel inner : nat) (src : Source) (operators : list PhysicalOp) (sink : Sink) : M Sink :=
  run_source fuel inner src ((fun op => (op, CreateOperatorState op)) <$> operators) (mkChunk [] 0) (mkChunk [] 0) sink.

End executor.

(** [PhysicalResultCollector::Consume]: a deep copy of the batch. *)
Definition Collector_Consume (chunks : list DataChunk) (input : DataChunk) : result (list DataChunk) :=
  if decide (ch_count input = 0) then Ok chunks
  else copy ← DataChunkSlice input (seq 0 (ch_count input)); Ok (chunks ++ [copy]).

(** A source that hands out a list of batches, the last one with FINISHED. *)
Definition list_GetData (src : list DataChunk) (chunk : DataChunk)
    : result (OperatorResultType * DataChunk * list DataChunk) :=
  match src with
  | [] => Ok (FINISHED, chunk, [])
  | [c] => Ok (FINISHED, c, [])
  | c :: src => Ok (HAVE_MORE_OUTPUT, c, src)
  end.

(** ** Interfaces *)

(** What the executor expects of a source: the batches it hands out until it
    is done, whatever the previous batch left in the members. *)
Inductive produces {Source} (GetData : Source -> DataChunk -> result (OperatorResultType * DataChunk * Source))
    : Source -> list DataChunk -> Prop :=
  | produces_done src :
      (forall c, ch_count c = 0 -> exists c' src', GetData src c = Ok (FINISHED, c', src') /\ ch_count c' = 0) ->
      produces GetData src []
  | produces_last src c src' :
      0 < ch_count c -> (forall c0, ch_count c0 = 0 -> GetData src c0 = Ok (FINISHED, c, src')) ->
      produces GetData src [c]
  | produces_more src c src' cs :
      (forall c0, ch_count c0 = 0 -> GetData src c0 = Ok (HAVE_MORE_OUTPUT, c, src')) ->
      produces GetData src' cs -> produces GetData src (c :: cs).

(** What it promises to a sink that keeps the rows it is given: batches with
    the announced column types and at least one row. *)
Class RowSink {Sink} (Consume : Sink -> DataChunk -> result Sink) (sink_rows : Sink -> list sql_row) : Prop :=
  sink_consume : forall s c, batch_ok c -> 0 < ch_count c ->
    exists s', Consume s c = Ok s' /\ sink_rows s' = sink_rows s ++ chunk_rows c.

#[export] Instance Collector_RowSink : RowSink Collector_Consume stream_rows.
Proof.
  intros chunks c Hb Hc. unfold Collector_Consume. rewrite decide_False by lia.
  destruct (DataChunkSlice_chunk_rows c (seq 0 (ch_count c)) Hb) as (dst & -> & _ & _ & Hr).
  - apply Forall_forall. intros i Hi. apply elem_of_seq in Hi. lia.
  - rewrite length_seq. apply Hb.
  - simpl. eexists. split; [done|]. unfold stream_rows. rewrite fmap_app, concat_app. simpl. by rewrite app_nil_r, Hr.
Qed.

Lemma list_produces cs : Forall (fun c => 0 < ch_count c) cs -> produces list_GetData cs cs.
Proof.
  induction 1 as [|c cs Hc Hcs IH].
  { apply produces_done. intros c Hc. by exists c, []. }
  destruct cs as [|c' cs]; [by apply produces_last with []|]. by apply produces_more with (c' :: cs).
Qed.

(** A source that cuts a list of rows into batches and keeps its position. *)
Lemma batched_produces {A} (GetData : nat -> DataChunk -> result (OperatorResultType * DataChunk * nat)) (items : list A)
    (row : A -> sql_row) (P : DataChunk -> Prop) :
  (forall idx c, length items <= idx -> ch_count c = 0 ->
     exists c' idx', GetData idx c = Ok (FINISHED, c', idx') /\ ch_count c' = 0) ->
  (forall idx, idx < length items ->
     let batch := take STANDARD_VECTOR_SIZE (drop idx items) in
     exists chunk, P chunk /\ chunk_rows chunk = row <$> batch /\
       forall c0, GetData idx c0 =
         Ok (if decide (length items <= idx + length batch) then FINISHED else HAVE_MORE_OUTPUT, chunk, idx + length batch)) ->
  forall idx, exists cs, produces GetData idx cs /\ Forall (fun c => P c /\ 0 < ch_count c) cs /\ stream_rows cs = row <$> drop idx items.
Proof.
  intros Hend Hget idx. remember (length items - idx) as n eqn:En. revert idx En.
  induction n as [n IH] using lt_wf_ind. intros idx ->.
  destruct (decide (length items <= idx)) as [Hle|Hmore].
  { exists []. split_and!; [|constructor|by rewrite drop_ge]. apply produces_done. intros c Hc. by apply Hend. }
  destruct (Hget idx) as (chunk & Hb & Hrows & Hg); [lia|]. set (batch := take STANDARD_VECTOR_SIZE (drop idx items)) in *.
  assert (length batch = Nat.min STANDARD_VECTOR_SIZE (length items - idx)) as Hlb
    by (unfold batch; by rewrite length_take, length_drop).
  assert (0 < length batch) as Hpos by (rewrite Hlb; unfold STANDARD_VECTOR_SIZE; lia).
  assert (drop idx items = batch ++ drop (idx + length batch) items) as Hsplit.
  { rewrite <- drop_drop. destruct (decide (length items - idx <= STANDARD_VECTOR_SIZE)) as [Hle|Hgt].
    - unfold batch. rewrite take_ge by (rewrite length_drop; lia). rewrite (drop_ge (drop idx _)) by done. by rewrite app_nil_r.
    - rewrite Hlb, Nat.min_l by lia. unfold batch. by rewrite take_drop. }
  assert (0 < ch_count chunk) as Hcount by (by rewrite <- length_chunk_rows, Hrows, length_fmap).
  destruct (decide (length items <= idx + length batch)) as [Hlast|Hnot].
  - exists [chunk]. split_and!; [|by constructor|].
    + by apply produces_last with (idx + length batch); [|intros c0 _].
    + unfold stream_rows. simpl. rewrite app_nil_r, Hrows, Hsplit. rewrite (drop_ge items) by done. by rewrite app_nil_r.
  - destruct (IH (length items - (idx + length batch)) ltac:(lia) (idx + length batch) ltac:(lia)) as (cs & Hp & Hbs & Hrs).
    exists (chunk :: cs). split_and!; [|by constructor|].
    + apply produces_more with (idx + length batch); [by intros c0 _|done].
    + unfold stream_rows in *. rewrite fmap_cons. simpl. by rewrite Hrs, Hrows, Hsplit, fmap_app.
Qed.

(** Without operators every batch goes to the sink. *)
Lemma consume_run {Sink Source} env (Consume : Sink -> DataChunk -> result Sink)
    (GetData : Source -> DataChunk -> result (OperatorResultType * DataChunk * Source)) fuel inner src cs ic oc sink sink' :
  produces GetData src cs -> Forall (fun c => 0 < ch_count c) cs -> foldM Consume sink cs = Ok sink' -> length cs < fuel ->
  run_source env Consume GetData fuel inner src [] ic oc sink = Ok sink'.
Proof.
  intros Hp. revert fuel ic sink. induction Hp as [src Hg|src c src' Hpos Hg|src c src' cs Hg Hp IH]; intros fuel ic sink Hcs Hf Hlen;
    (destruct fuel as [|fuel]; [simpl in Hlen; lia|]); cbn [run_source].
  - destruct (Hg (Chunk_Reset ic)) as (c' & src' & -> & Hc'); [done|]. cbn [mbind result_bind]. rewrite Hc', decide_True by done.
    by injection Hf as ->.
  - rewrite (Hg (Chunk_Reset ic)) by done. cbn [mbind result_bind]. rewrite decide_False by lia. unfold consume_to_sink.
    rewrite decide_True by done. cbn [foldM] in Hf. destruct (Consume sink c) as [s|]; [|done]. cbn [mbind result_bind] in *. done.
  - apply Forall_cons in Hcs as [Hc Hcs]. rewrite (Hg (Chunk_Reset ic)) by done. cbn [mbind result_bind]. rewrite decide_False by lia.
    unfold consume_to_sink. rewrite decide_True by done. cbn [foldM] in Hf. destruct (Consume sink c) as [s|]; [|done].
    cbn [mbind result_bind] in *. simpl in Hlen. apply IH; [done|done|lia].
Qed.

(** ** The chain of a SELECT *)

Lemma Chunk_Reset_ok c : batch_ok c -> batch_ok (Chunk_Reset c) /\ ch_count (Chunk_Reset c) = 0.
Proof.
  intros [Hwf _]. split; [|done]. split; [|simpl; unfold STANDARD_VECTOR_SIZE; lia].
  unfold chunk_wf, Chunk_Reset. simpl. apply Forall_fmap. eapply Forall_impl; [exact Hwf|]. intros v [Hv _]. simpl.
  destruct (Reset0_wf (dv_type v) (wf_storage _ Hv)) as [Hw _]. split; [done|].
  unfold Reset. by destruct (storage_of (dv_type v)).
Qed.

(** The chunk after a filter: same columns, and the expressions are defined on
    it because they are on the rows that pass. *)
Lemma project_defined F es c rows :
  mapM (project_row F es) (chunk_rows c) = Some rows -> Forall (fun e => defined_on F e c) es.
Proof.
  intros Hm. apply mapM_Some in Hm. apply Forall_forall. intros e He. apply list_elem_of_lookup in He as [k Hk].
  unfold defined_on. apply Forall_lookup. intros i r Hr.
  destruct (Forall2_lookup_l _ _ _ i r Hm Hr) as (out & _ & Hp). unfold project_row in Hp. apply mapM_Some in Hp.
  destruct (Forall2_lookup_l _ _ _ k e Hp Hk) as (x & _ & Hx). by exists x.
Qed.

Lemma mapM_app_Some {A B} (f : A -> option B) l1 l2 k :
  mapM f (l1 ++ l2) = Some k -> exists k1 k2, mapM f l1 = Some k1 /\ mapM f l2 = Some k2 /\ k = k1 ++ k2.
Proof.
  rewrite mapM_Some. intros (k1 & k2 & H1 & H2 & ->)%Forall2_app_inv_l. exists k1, k2. by rewrite !mapM_Some.
Qed.

Section select.
Context (env : ExecEnv) (types : list TypeId) (p : LogicalExpr) (es : list LogicalExpr) (limit offset : Z).
Context {Sink : Type} (Consume : Sink -> DataChunk -> result Sink) (sink_rows : Sink -> list sql_row).
Context `{!RowSink Consume sink_rows}.

Local Notation F := (env_fpu env).

Definition input_ok (c : DataChunk) : Prop := batch_ok c /\ col_types c = types /\ defined_on F p c.

Definition passing (rows : list sql_row) : list sql_row := filter (fun r => row_passes F p r = true) rows.

Hypothesis Hp : well_typed types p = true.
Hypothesis Hpb : is_intlike (type_of p) = true.
Hypothesis Hes : Forall (fun e => well_typed types e = true) es.

Lemma consume_rows s c :
  batch_ok c -> exists s', consume_to_sink Consume s c = Ok s' /\ sink_rows s' = sink_rows s ++ chunk_rows c.
Proof.
  intros Hb. unfold consume_to_sink. case_decide as Hc; [by apply sink_consume|].
  exists s. split; [done|]. rewrite chunk_rows_empty, app_nil_r by lia. done.
Qed.

(** The states of the chain, between two batches. *)
Definition chain (ls : LimitState) : list (PhysicalOp * OpState) :=
  [(OpFilter p, NoState); (OpProjection es, NoState); (OpLimit limit offset, StLimit ls)].

Definition limit_pos (ls : LimitState) : Prop := (0 <= rows_skipped ls)%Z /\ (0 <= rows_emitted ls)%Z.

Lemma select_batch inner ls c oc sink rows :
  input_ok c -> batch_ok oc -> limit_pos ls -> mapM (project_row F es) (passing (chunk_rows c)) = Some rows ->
  exists ls' oc' sink', run_operators env Consume (S inner) (chain ls) (Some c) oc sink = Ok (false, chain ls', oc', sink') /\
    batch_ok oc' /\ limit_pos ls' /\
    sink_rows sink' = sink_rows sink ++ window limit offset (rows_skipped ls) (rows_emitted ls) rows /\
    (forall more, window limit offset (rows_skipped ls) (rows_emitted ls) (rows ++ more) =
       window limit offset (rows_skipped ls) (rows_emitted ls) rows ++
       window limit offset (rows_skipped ls') (rows_emitted ls') more).
Proof.
  intros (Hb & Ht & Hd) Hoc [Hs He] Hm. destruct (Chunk_Reset_ok oc Hoc) as [Hr0 Hc0].
  destruct (Filter_Execute_Ok F p c (Chunk_Reset oc)) as (out1 & Hx1 & Hb1 & Hrows1 & Hcase); [done|by rewrite Ht|done..|].
  assert (Execute env (OpFilter p) NoState c (Chunk_Reset oc) = Ok (NEED_MORE_INPUT, out1, NoState)) as E1
    by (cbn [Execute]; by rewrite Hx1).
  unfold chain at 1. cbn [run_operators]. rewrite E1. cbn [mbind result_bind mret result_ret lift Lift_result].
  destruct (decide (0 < ch_count out1)) as [Hpos|Hzero].
  2: { assert (rows = []) as ->.
       { fold (passing (chunk_rows c)) in Hrows1. rewrite <- Hrows1, chunk_rows_empty in Hm by lia. by injection Hm as <-. }
       exists ls, out1, sink. split; [done|]. split_and!; try done.
       - by rewrite window_all_skipped, app_nil_r by (simpl; lia).
       - intros more. rewrite (window_all_skipped _ _ _ _ []) by (simpl; lia). done. }
  assert (col_types out1 = types) as Ht1 by (destruct Hcase as [->|Hcase]; [lia|congruence]).
  assert (mapM (project_row F es) (chunk_rows out1) = Some rows) as Hm1 by (by rewrite Hrows1).
  destruct (Projection_Execute_Ok F es out1) as (out2 & Hx2 & Hb2 & Ht2 & Hrows2);
    [done|by rewrite Ht1|by apply (project_defined F es out1 rows)|].
  rewrite Hm1 in Hrows2. injection Hrows2 as Hrows2.
  destruct (Limit_Execute_Ok limit offset ls out2 (Chunk_Reset (mkChunk [] 0))) as
    (r & out3 & ls' & Hx3 & Hb3 & Hrows3 & Hsk & Hem & _ & _); [done|apply batch_ok_empty|done..|].
  assert (forall o, Execute env (OpProjection es) NoState out1 o = Ok (NEED_MORE_INPUT, out2, NoState)) as E2
    by (intros o; cbn [Execute]; by rewrite Hx2).
  assert (Execute env (OpLimit limit offset) (StLimit ls) out2 (Chunk_Reset (mkChunk [] 0)) = Ok (r, out3, StLimit ls')) as E3
    by (cbn [Execute]; by rewrite Hx3).
  cbn [stage_loop]. rewrite E2. cbn [mbind result_bind mret result_ret lift Lift_result]. rewrite E3. cbn [mbind result_bind mret result_ret lift Lift_result].
  destruct (consume_rows sink out3 Hb3) as (sink' & -> & Hsink). cbn [mbind result_bind mret result_ret lift Lift_result].
  exists ls', out1, sink'. split; [done|]. split_and!; [done|split; lia| |].
  - by rewrite Hsink, Hrows3, <- Hrows2.
  - intros more. rewrite window_app by done. rewrite Hrows2, <- Hrows3, !length_chunk_rows, <- Hsk, <- Hem. done.
Qed.

Context {Source : Type} (GetData : Source -> DataChunk -> result (OperatorResultType * DataChunk * Source)).

Lemma select_run fuel inner src cs ls ic oc sink rows :
  produces GetData src cs -> Forall input_ok cs -> batch_ok ic -> batch_ok oc -> limit_pos ls ->
  mapM (project_row F es) (passing (stream_rows cs)) = Some rows -> length cs < fuel ->
  exists sink', run_source env Consume GetData fuel (S inner) src (chain ls) ic oc sink = Ok sink' /\
    sink_rows sink' = sink_rows sink ++ window limit offset (rows_skipped ls) (rows_emitted ls) rows.
Proof.
  intros Hprod. revert fuel ls ic oc sink rows.
  induction Hprod as [src Hg|src c src' Hpos Hg|src c src' cs Hg Hprod IH]; intros fuel ls ic oc sink rows Hall Hic Hoc Hls Hm Hf;
    (destruct fuel as [|fuel]; [simpl in Hf; lia|]); cbn [run_source].
  - destruct (Hg (Chunk_Reset ic) eq_refl) as (c' & src' & -> & Hc'). cbn [mbind result_bind mret result_ret lift Lift_result].
    rewrite decide_True by done. exists sink. split; [done|]. simpl in Hm. injection Hm as <-.
    by rewrite window_all_skipped, app_nil_r by (simpl; lia).
  - rewrite (Hg (Chunk_Reset ic) eq_refl). cbn [mbind result_bind mret result_ret lift Lift_result]. rewrite decide_False by lia. cbn [chain].
    apply Forall_cons in Hall as [Hc _]. unfold stream_rows in Hm. simpl in Hm. rewrite app_nil_r in Hm.
    destruct (select_batch inner ls c oc sink rows Hc Hoc Hls Hm) as (ls' & oc' & sink' & Hx & _ & _ & Hs & _).
    rewrite Hx. cbn [mbind result_bind mret result_ret lift Lift_result]. rewrite decide_True by done. by exists sink'.
  - rewrite (Hg (Chunk_Reset ic) eq_refl). cbn [mbind result_bind mret result_ret lift Lift_result]. rewrite decide_False by (by intros [? _]). cbn [chain].
    apply Forall_cons in Hall as [Hc Hall]. unfold stream_rows, passing in Hm. rewrite fmap_cons in Hm. cbn [concat] in Hm.
    rewrite filter_app in Hm. apply mapM_app_Some in Hm as (r1 & r2 & Hm1 & Hm2 & ->).
    destruct (select_batch inner ls c oc sink r1 Hc Hoc Hls Hm1) as (ls' & oc' & sink1 & Hx & Hoc' & Hls' & Hs & Hwin).
    rewrite Hx. cbn [mbind result_bind mret result_ret lift Lift_result]. rewrite decide_False by done.
    destruct (IH fuel ls' c oc' sink1 r2) as (sink' & Hrun & Hs'); try done; [apply Hc|simpl in Hf; lia|].
    exists sink'. split; [done|]. by rewrite Hs', Hs, Hwin, <- app_assoc.
Qed.

(** *** A filter before any sink *)

Lemma filter_batch c :
  input_ok c -> exists passed, (forall inner oc sink (C : Sink -> DataChunk -> result Sink),
      run_operators env C (S inner) [(OpFilter p, NoState)] (Some c) oc sink =
      (sink ← foldM C sink (option_list passed); Ok (false, [(OpFilter p, NoState)], default (Chunk_Reset oc) passed, sink))) /\
    Forall (fun x => batch_ok x /\ 0 < ch_count x /\ col_types x = types) (option_list passed) /\
    stream_rows (option_list passed) = passing (chunk_rows c).
Proof.
  intros (Hb & Ht & Hd). destruct (Filter_Execute_case F p c Hb) as (passed & Hf & Hcase); [by rewrite Ht|done..|].
  exists passed. assert (forall oc, Execute env (OpFilter p) NoState c (Chunk_Reset oc) = Ok (NEED_MORE_INPUT, default (Chunk_Reset oc) passed, NoState)) as E
    by (intros oc; cbn [Execute]; by rewrite Hf). split.
  - intros inner oc sink C. cbn [run_operators]. rewrite E. cbn [mbind result_bind mret result_ret lift Lift_result].
    destruct passed as [out|]; cbn [default option_list foldM].
    + destruct Hcase as (_ & Hpos & _). rewrite decide_True by done. cbn [stage_loop mbind result_bind lift Lift_result]. unfold consume_to_sink.
      cbn [id]. rewrite decide_True by done. cbn. by destruct (C sink out).
    + by rewrite decide_False by (simpl; lia).
  - destruct passed as [out|]; cbn [option_list]; [|by split].
    destruct Hcase as (Hbo & Hpos & Hct & Hr). split; [constructor; [|constructor]; split_and!; [done|done|congruence]|].
    unfold stream_rows. cbn. by rewrite app_nil_r.
Qed.

Lemma filter_run src cs :
  produces GetData src cs -> Forall input_ok cs ->
  exists fs, Forall (fun x => batch_ok x /\ 0 < ch_count x /\ col_types x = types) fs /\ stream_rows fs = passing (stream_rows cs) /\
    forall fuel inner ic oc sink sink', length cs < fuel -> foldM Consume sink fs = Ok sink' ->
      run_source env Consume GetData fuel (S inner) src [(OpFilter p, NoState)] ic oc sink = Ok sink'.
Proof.
  intros Hprod. induction Hprod as [src Hg|src c src' Hpos Hg|src c src' cs Hg Hprod IH]; intros Hall.
  - exists []. split_and!; [constructor|done|]. intros fuel inner ic oc sink sink' Hf Hs. destruct fuel as [|fuel]; [simpl in Hf; lia|].
    cbn [run_source]. destruct (Hg (Chunk_Reset ic) eq_refl) as (c' & src' & -> & Hc'). cbn [mbind result_bind]. by rewrite decide_True.
  - apply Forall_cons in Hall as [Hc _]. destruct (filter_batch c Hc) as (passed & Hrun & Hok & Hr). exists (option_list passed).
    split_and!; [done|unfold stream_rows in *; simpl; by rewrite app_nil_r|]. intros fuel inner ic oc sink sink' Hf Hs.
    destruct fuel as [|fuel]; [simpl in Hf; lia|]. cbn [run_source]. rewrite (Hg (Chunk_Reset ic) eq_refl). cbn [mbind result_bind].
    rewrite decide_False by lia. rewrite Hrun, Hs. cbn [mbind result_bind]. by rewrite decide_True.
  - apply Forall_cons in Hall as [Hc Hall]. destruct (filter_batch c Hc) as (passed & Hrun & Hok & Hr). destruct (IH Hall) as (fs & Hfs & Hr' & Hrest).
    exists (option_list passed ++ fs). split_and!; [by apply Forall_app| |].
    + unfold stream_rows, passing in *. rewrite fmap_app, concat_app, Hr, Hr', fmap_cons. cbn [concat]. by rewrite filter_app.
    + intros fuel inner ic oc sink sink' Hf Hs. destruct fuel as [|fuel]; [simpl in Hf; lia|]. cbn [run_source].
      rewrite (Hg (Chunk_Reset ic) eq_refl). cbn [mbind result_bind]. rewrite decide_False by (by intros [? _]).
      rewrite Hrun. rewrite foldM_app in Hs. destruct (foldM Consume sink (option_list passed)) as [s1|]; [|done]. cbn [mbind result_bind] in *.
      rewrite decide_False by done. apply Hrest; [simpl in Hf; lia|done].
Qed.

(** *** Projection and LIMIT behind any source *)

(** The chain [SELECT es ... LIMIT limit OFFSET offset], without the LIMIT when
    there is none. *)
Definition limit_ops (lim : option (Z * Z)) : list PhysicalOp := match lim with Some (l, o) => [OpLimit l o] | None => [] end.
Definition limited (lim : option (Z * Z)) (ls : LimitState) (rows : list sql_row) : list sql_row :=
  match lim with Some (l, o) => window l o (rows_skipped ls) (rows_emitted ls) rows | None => rows end.
Definition limit_states (lim : option (Z * Z)) (ls : LimitState) : list (PhysicalOp * OpState) := (fun op => (op, StLimit ls)) <$> limit_ops lim.

Lemma limit_stage lim ls c b :
  batch_ok c -> limit_pos ls ->
  exists ls' out, stage_loop env (limit_states lim ls) c (mkChunk [] 0) b = Ok (limit_states lim ls', out) /\ batch_ok out /\
    limit_pos ls' /\ chunk_rows out = limited lim ls (chunk_rows c) /\
    (forall more, limited lim ls (chunk_rows c ++ more) = chunk_rows out ++ limited lim ls' more).
Proof.
  intros Hc [Hs He]. destruct lim as [[l o]|]; [|by exists ls, c].
  destruct (Limit_Execute_Ok l o ls c (Chunk_Reset (mkChunk [] 0))) as
    (r & out & ls' & Hx & Hb & Hrows & Hsk & Hem & _ & _); [done|apply batch_ok_empty|done..|].
  exists ls', out. cbn [limit_states limit_ops fmap list_fmap stage_loop Execute]. rewrite Hx. cbn. split; [done|].
  split; [done|]. split; [split; lia|]. cbn. split; [done|]. intros more. rewrite window_app by done.
  rewrite <- Hrows, !length_chunk_rows, <- Hsk, <- Hem. done.
Qed.

Lemma project_batch inner lim ls c oc sink rows :
  batch_ok c -> col_types c = types -> limit_pos ls -> mapM (project_row F es) (chunk_rows c) = Some rows ->
  exists ls' oc' sink', run_operators env Consume (S inner) ((OpProjection es, NoState) :: limit_states lim ls) (Some c) oc sink =
      Ok (false, (OpProjection es, NoState) :: limit_states lim ls', oc', sink') /\ limit_pos ls' /\
    sink_rows sink' = sink_rows sink ++ limited lim ls rows /\
    (forall more, limited lim ls (rows ++ more) = limited lim ls rows ++ limited lim ls' more).
Proof.
  intros Hb Ht Hls Hm.
  destruct (Projection_Execute_Ok F es c) as (out & Hx & Hbo & _ & Hrows); [done|by rewrite Ht|by apply (project_defined F es c rows)|].
  rewrite Hm in Hrows. injection Hrows as Hrows.
  assert (Execute env (OpProjection es) NoState c (Chunk_Reset oc) = Ok (NEED_MORE_INPUT, out, NoState)) as E
    by (cbn [Execute]; by rewrite Hx).
  destruct (limit_stage lim ls out true Hbo Hls) as (ls' & last & Hstage & Hbl & Hls' & Hlast & Happ). rewrite <- Hrows in Hlast, Happ.
  cbn [run_operators]. rewrite E. cbn [mbind result_bind mret result_ret lift Lift_result]. case_decide as Hpos.
  - rewrite Hstage. cbn [mbind result_bind mret result_ret lift Lift_result].
    destruct (consume_rows sink last Hbl) as (sink' & -> & Hsink). cbn [mbind result_bind mret result_ret lift Lift_result].
    exists ls', out, sink'. split; [done|]. split; [done|]. split; [by rewrite Hsink, Hlast|]. intros more. by rewrite Happ, Hlast.
  - assert (rows = []) as -> by (rewrite Hrows; apply chunk_rows_empty; lia).
    assert (limited lim ls [] = []) as Hnil by (destruct lim as [[l o]|]; [apply window_all_skipped; simpl; lia|done]).
    exists ls, out, sink. rewrite Hnil, app_nil_r. done.
Qed.

(** A chain that ends in the LIMIT, over any source: it is enough to know what it
    does with one batch. *)
Definition limited_step lim (inner : nat) (chain : LimitState -> list (PhysicalOp * OpState)) (c : DataChunk) (rows : list sql_row) : Prop :=
  forall ls oc sink, limit_pos ls -> exists ls' oc' sink', run_operators env Consume inner (chain ls) (Some c) oc sink =
      Ok (false, chain ls', oc', sink') /\ limit_pos ls' /\ sink_rows sink' = sink_rows sink ++ limited lim ls rows /\
    (forall more, limited lim ls (rows ++ more) = limited lim ls rows ++ limited lim ls' more).

Lemma limited_run fuel inner lim chain src cs rss ls ic oc sink :
  (forall ls, chain ls <> []) -> produces GetData src cs -> Forall2 (limited_step lim inner chain) cs rss -> limit_pos ls -> length cs < fuel ->
  exists sink', run_source env Consume GetData fuel inner src (chain ls) ic oc sink = Ok sink' /\
    sink_rows sink' = sink_rows sink ++ limited lim ls (concat rss).
Proof.
  intros Hchain Hprod. revert fuel ls ic oc sink rss.
  assert (forall ls, exists op rest, chain ls = op :: rest) as Hcons
    by (intros ls; specialize (Hchain ls); destruct (chain ls) as [|op rest]; [done|by exists op, rest]).
  induction Hprod as [src Hg|src c src' Hpos Hg|src c src' cs Hg Hprod IH]; intros fuel ls ic oc sink rss Hall Hls Hf;
    (destruct fuel as [|fuel]; [simpl in Hf; lia|]); cbn [run_source]; destruct (Hcons ls) as (op & rest & Hop).
  - destruct (Hg (Chunk_Reset ic) eq_refl) as (c' & src' & -> & Hc'). cbn [mbind result_bind mret result_ret lift Lift_result].
    rewrite decide_True, flush_nothing by done. exists sink. split; [done|]. apply Forall2_nil_inv_l in Hall as ->.
    destruct lim as [[l o]|]; cbn; [rewrite window_all_skipped by (simpl; lia)|]; by rewrite app_nil_r.
  - rewrite (Hg (Chunk_Reset ic) eq_refl). cbn [mbind result_bind mret result_ret lift Lift_result]. rewrite decide_False by lia.
    apply Forall2_cons_inv_l in Hall as (rows & rss' & Hc & Hall & ->). apply Forall2_nil_inv_l in Hall as ->. cbn [concat]. rewrite app_nil_r.
    destruct (Hc ls oc sink Hls) as (ls' & oc' & sink' & Hx & _ & Hs & _). rewrite Hop in Hx |- *. rewrite Hx.
    cbn [mbind result_bind mret result_ret lift Lift_result]. rewrite decide_True, flush_nothing by done. by exists sink'.
  - rewrite (Hg (Chunk_Reset ic) eq_refl). cbn [mbind result_bind mret result_ret lift Lift_result]. rewrite decide_False by (by intros [? _]).
    apply Forall2_cons_inv_l in Hall as (rows & rss' & Hc & Hall & ->).
    destruct (Hc ls oc sink Hls) as (ls' & oc' & sink1 & Hx & Hls' & Hs & Hwin). rewrite Hop in Hx |- *. rewrite Hx.
    cbn [mbind result_bind mret result_ret lift Lift_result]. rewrite decide_False by done.
    destruct (IH fuel ls' c oc' sink1 rss') as (sink' & Hrun & Hs'); try done; [simpl in Hf; lia|].
    exists sink'. split; [done|]. cbn [concat]. by rewrite Hs', Hs, Hwin, <- app_assoc.
Qed.

(** The values of an expression list on a stream are those on its batches. *)
Lemma mapM_stream {A B} (f : A -> option B) (xss : list (list A)) ys :
  mapM f (concat xss) = Some ys -> exists yss, Forall2 (fun xs ys => mapM f xs = Some ys) xss yss /\ ys = concat yss.
Proof.
  revert ys. induction xss as [|xs xss IH]; intros ys Hm; cbn [concat] in Hm; [injection Hm as <-; exists []; by split|].
  apply mapM_app_Some in Hm as (y1 & y2 & H1 & H2 & ->). destruct (IH y2 H2) as (yss & Hall & ->). exists (y1 :: yss). split; [by constructor|done].
Qed.

Lemma project_run fuel inner lim src cs ls ic oc sink rows :
  produces GetData src cs -> Forall (fun c => batch_ok c /\ col_types c = types) cs -> limit_pos ls ->
  mapM (project_row F es) (stream_rows cs) = Some rows -> length cs < fuel ->
  exists sink', run_source env Consume GetData fuel (S inner) src ((OpProjection es, NoState) :: limit_states lim ls) ic oc sink = Ok sink' /\
    sink_rows sink' = sink_rows sink ++ limited lim ls rows.
Proof.
  intros Hprod Hall Hls Hm Hf. apply mapM_stream in Hm as (rss & Hrss & ->).
  apply (limited_run fuel (S inner) lim (fun ls => (OpProjection es, NoState) :: limit_states lim ls) src cs); try done.
  apply Forall2_fmap_l in Hrss. clear -Hrss Hall Hes RowSink0. induction Hrss as [|c rows cs rss Hm _ IH]; [constructor|].
  apply Forall_cons in Hall as [[Hb Ht] Hall]. constructor; [|by apply IH]. intros ls oc sink Hls. by apply project_batch.
Qed.

End select.

(** ** Theorems *)

(** The pipeline of [SELECT es ... WHERE p LIMIT limit OFFSET offset] hands
    to its sink the window of the projections of the rows that pass, for every
    source and every sink that keeps its rows; the LIMIT counts across batches. *)
Theorem select_pipeline_rows env types p es limit offset {Sink Source}
    (Consume : Sink -> DataChunk -> result Sink) (sink_rows : Sink -> list sql_row) `{!RowSink Consume sink_rows}
    (GetData : Source -> DataChunk -> result (OperatorResultType * DataChunk * Source)) src cs sink rows fuel inner :
  well_typed types p = true -> is_intlike (type_of p) = true -> Forall (fun e => well_typed types e = true) es ->
  produces GetData src cs -> Forall (input_ok env types p) cs -> length cs < fuel ->
  mapM (project_row (env_fpu env) es) (filter (fun r => row_passes (env_fpu env) p r = true) (stream_rows cs)) = Some rows ->
  exists sink', PipelineExecute env Consume GetData fuel (S inner) src
                  [OpFilter p; OpProjection es; OpLimit limit offset] sink = Ok sink' /\
    sink_rows sink' = sink_rows sink ++ window limit offset 0 0 rows.
Proof.
  intros Hp Hpb Hes Hprod Hall Hf Hm. unfold PipelineExecute.
  destruct (select_run env types p es limit offset Consume sink_rows Hp Hpb Hes GetData fuel inner src cs LimitState_init
    (mkChunk [] 0) (mkChunk [] 0) sink rows) as (sink' & Hr & Hs); try done; [apply batch_ok_empty..|].
  by exists sink'.
Qed.

Definition sample_env : ExecEnv := mkEnv sample_FPU sample_hashes.

(** [s <> 'x'] *)
Definition sample_pred : LogicalExpr :=
  LogicalBinaryOp BOOLEAN "<>" (BoundColumnRef VARCHAR 1 "s") (LogicalLit VARCHAR (Value_Varchar "x") false).

Lemma select_pipeline_rows_witness :
  exists sink', PipelineExecute sample_env Collector_Consume list_GetData 3 1 [sample_chunk; sample_chunk]
                  [OpFilter sample_pred; OpProjection [BoundColumnRef INT64 0 "a"]; OpLimit 2 1] [] = Ok sink' /\
    stream_rows sink' = stream_rows [] ++ [[Some (CInt 5)]; [None]].
Proof.
  apply (select_pipeline_rows sample_env [INT64; VARCHAR] sample_pred [BoundColumnRef INT64 0 "a"] 2 1
    Collector_Consume stream_rows list_GetData [sample_chunk; sample_chunk] [sample_chunk; sample_chunk] []
    [[None]; [Some (CInt 5)]; [None]; [Some (CInt 5)]] 3 0).
  - vm_compute. reflexivity.
  - vm_compute. reflexivity.
  - apply Forall_cons; split; [vm_compute; reflexivity|apply Forall_nil_2].
  - apply list_produces. repeat (apply Forall_cons; split; [vm_compute; lia|]). apply Forall_nil_2.
  - repeat (apply Forall_cons; split; [split_and!; [split; [apply sample_chunk_wf|vm_compute; lia]|reflexivity|
      repeat (apply Forall_cons; split; [vm_compute; eauto|]); apply Forall_nil_2]|]). apply Forall_nil_2.
  - vm_compute. lia.
  - vm_compute. reflexivity.
Defined.

(** A join whose output batch fills up while another operator follows it
    loses the batch: if the probe reports that it has more output, nothing of
    this source batch reaches the sink, neither the rows it has produced nor
    the ones it has kept back; its resume position is applied to the next
    batch. *)
Theorem join_overflow_loses_batch env {Sink} (Consume : Sink -> DataChunk -> result Sink)
    p jt ps c oc es rest out ps' sink fuel stop ops' oc' sink' :
  Probe_Execute (env_hash env) p jt ps c = Ok (HAVE_MORE_OUTPUT, out, ps') ->
  run_operators env Consume fuel ((OpProbe p jt, StProbe ps) :: (OpProjection es, NoState) :: rest) (Some c) oc sink =
    Ok (stop, ops', oc', sink') ->
  stop = false /\ sink' = sink /\ ops' = (OpProbe p jt, StProbe ps') :: (OpProjection es, NoState) :: rest.
Proof.
  intros Hx. destruct fuel as [|[|fuel]]; [done| |].
  { cbn [run_operators Execute]. rewrite Hx. done. }
  cbn [run_operators Execute]. rewrite Hx. cbn [mbind result_bind run_operators Execute_in_place].
  unfold Projection_in_place. intros H.
  match type of H with context [foldM ?f ?a ?l] => destruct (foldM f a l) as [c'|] eqn:Ef; [|done] end.
  cbn [mbind result_bind mret result_ret lift Lift_result] in H. assert (ch_count c' = 0) as Hc0.
  { clear H. revert Ef. generalize (imap pair es). assert (ch_count (Initialize (result_type <$> es)) = 0) as H0 by done.
    revert H0. generalize (Initialize (result_type <$> es)). intros c0 H0 l. revert c0 H0.
    induction l as [|[i e] l IH]; intros c0 H0 Hf; simpl in Hf; [by injection Hf as <-|].
    destruct (Evaluate (env_fpu env) e c0); [|done]. simpl in Hf. by apply IH in Hf. }
  rewrite Hc0 in H. cbn [decide decide_rel] in H. by injection H as <- <- <- <-.
Qed.

(** One left row with key 7 against 1025 equal right rows. *)
Definition many_entry : Entry := mkEntry [Value_Integer 7] [Value_Integer 7].
Definition many_tables : JoinTables :=
  mkJoinTables {[mix 0 (hash_int sample_hashes 7) := replicate 1025 many_entry]} [].
Definition many_probe : HashJoinProbe := mkProbe [0] PI_none [INT64; INT64].
Definition many_left : DataChunk := mkChunk [mkDV INT64 1 [7]%Z [] [] 1%Z] 1.
Definition many_result : result (OperatorResultType * DataChunk * JoinProbeState) :=
  Eval vm_compute in Probe_Execute sample_hashes many_probe many_tables JoinProbeState_init many_left.

Lemma join_overflow_loses_batch_witness :
  exists out ps' stop ops' oc' sink',
    Probe_Execute sample_hashes many_probe many_tables JoinProbeState_init many_left = Ok (HAVE_MORE_OUTPUT, out, ps') /\
    ch_count out = 1024 /\
    run_operators sample_env Collector_Consume 2
      [(OpProbe many_probe many_tables, StProbe JoinProbeState_init); (OpProjection [BoundColumnRef INT64 0 "k"], NoState)]
      (Some many_left) (mkChunk [] 0) [] = Ok (stop, ops', oc', sink') /\
    stop = false /\ sink' = [] /\
    ops' = [(OpProbe many_probe many_tables, StProbe ps'); (OpProjection [BoundColumnRef INT64 0 "k"], NoState)].
Proof.
  assert (exists out ps', Probe_Execute sample_hashes many_probe many_tables JoinProbeState_init many_left =
    Ok (HAVE_MORE_OUTPUT, out, ps') /\ ch_count out = 1024) as (out & ps' & Hx & Hc).
  { exists (match many_result with Ok (_, o, _) => o | _ => mkChunk [] 0 end), (mkProbeState 0 1024).
    split; vm_compute; reflexivity. }
  assert (exists stop ops' oc' sink', run_operators sample_env Collector_Consume 2
      [(OpProbe many_probe many_tables, StProbe JoinProbeState_init); (OpProjection [BoundColumnRef INT64 0 "k"], NoState)]
      (Some many_left) (mkChunk [] 0) [] = Ok (stop, ops', oc', sink')) as (stop & ops' & oc' & sink' & Hrun).
  { cbn [run_operators Execute]. cbn [env_hash sample_env]. rewrite Hx. do 4 eexists. vm_compute. reflexivity. }
  exists out, ps', stop, ops', oc', sink'. split_and!; [done..| | |];
    by apply (join_overflow_loses_batch sample_env Collector_Consume many_probe many_tables JoinProbeState_init many_left
      (mkChunk [] 0) [BoundColumnRef INT64 0 "k"] [] out ps' [] 2 stop ops' oc' sink' Hx Hrun).
Defined.

(** A filter that is not the first operator and lets no row of a batch pass
    leaves a batch without columns to the operator behind it: a projection that
    reads a column then reads outside the vector of columns. *)
Theorem empty_stage_undefined env p t k nm es rest stage_in :
  batch_ok stage_in -> well_typed (col_types stage_in) p = true -> is_intlike (type_of p) = true ->
  defined_on (env_fpu env) p stage_in ->
  Forall (fun r => row_passes (env_fpu env) p r = false) (chunk_rows stage_in) ->
  stage_loop env ((OpFilter p, NoState) :: (OpProjection (BoundColumnRef t k nm :: es), NoState) :: rest)
    stage_in (mkChunk [] 0) true = Err UndefinedBehaviour.
Proof.
  intros Hb Hty Hpb Hd Hnone. cbn [stage_loop Execute]. unfold Filter_Execute. destruct Hb as [Hwf Hn].
  rewrite EvaluatePredicate_Ok by done. cbn [mbind result_bind mret result_ret lift Lift_result].
  assert (filter (fun i => row_passes (env_fpu env) p (row_at stage_in i) = true) (seq 0 (ch_count stage_in)) = []) as ->.
  { unfold chunk_rows in Hnone. rewrite Forall_fmap in Hnone. induction Hnone as [|i l Hi _ IH]; [done|].
    rewrite filter_cons. rewrite decide_False; [done|]. simpl in Hi. by rewrite Hi. }
  reflexivity.
Qed.

(** [s = 'w'], which no sample row satisfies. *)
Definition sample_never : LogicalExpr :=
  LogicalBinaryOp BOOLEAN "=" (BoundColumnRef VARCHAR 1 "s") (LogicalLit VARCHAR (Value_Varchar "w") false).

Lemma empty_stage_undefined_witness :
  stage_loop sample_env [(OpFilter sample_never, NoState); (OpProjection [BoundColumnRef INT64 0 "a"], NoState)]
    sample_chunk (mkChunk [] 0) true = Err UndefinedBehaviour.
Proof.
  apply (empty_stage_undefined sample_env sample_never INT64 0 "a" [] []).
  - split; [apply sample_chunk_wf|vm_compute; lia].
  - vm_compute. reflexivity.
  - vm_compute. reflexivity.
  - repeat (apply Forall_cons; split; [vm_compute; eauto|]). apply Forall_nil_2.
  - repeat (apply Forall_cons; split; [vm_compute; reflexivity|]). apply Forall_nil_2.
Defined.
