(* ===== verification/Sorting.v ===== *)
(** * Sorting and heaps

    The algorithms of the standard library that [PhysicalSort] calls, over an
    arbitrary comparison that is a strict total order on the elements at hand
    (a domain, since the comparison of rows is an order only on rows whose keys
    are not NaN).  [std::stable_sort] and [std::sort] have one possible result
    then, computed here by insertion.  [std::push_heap] and [std::pop_heap] are
    specified by what the standard says of them, in a class; an instance shows
    that the class is inhabited.  The last section is the bounded heap of a
    top-k query, which keeps the first [k] rows of the sorted order. *)

From stdpp Require Import base list sets sorting.
From S2P Require Import Prelude.

(** ** Insertion sort *)

Section sort.
Context {A : Type} (less : A -> A -> bool).

(** In front of the first greater element: behind its equals. *)
Fixpoint insert_sorted (x : A) (l : list A) : list A :=
  match l with
  | [] => [x]
  | y :: l => if less x y then x :: y :: l else y :: insert_sorted x l
  end.

Definition stable_sort (l : list A) : list A := foldl (fun acc x => insert_sorted x acc) [] l.

Lemma insert_sorted_perm x l : insert_sorted x l ≡ₚ x :: l.
Proof. induction l as [|y l IH]; simpl; [done|]. destruct (less x y); [done|]. rewrite IH. constructor. Qed.

Lemma stable_sort_snoc l x : stable_sort (l ++ [x]) = insert_sorted x (stable_sort l).
Proof. unfold stable_sort. by rewrite foldl_snoc. Qed.

Lemma stable_sort_perm l : stable_sort l ≡ₚ l.
Proof.
  induction l as [|x l IH] using rev_ind; [done|]. rewrite stable_sort_snoc, insert_sorted_perm, IH.
  by rewrite Permutation_app_comm.
Qed.

Lemma length_stable_sort l : length (stable_sort l) = length l.
Proof. by rewrite stable_sort_perm. Qed.

(** ** Strict total orders on a domain *)

Record strict_total (D : A -> Prop) : Prop := {
  st_irrefl : forall x, D x -> less x x = false;
  st_trans : forall x y z, D x -> D y -> D z -> less x y = true -> less y z = true -> less x z = true;
  st_total : forall x y, D x -> D y -> x <> y -> less x y = true \/ less y x = true;
}.

Context (D : A -> Prop) (Hord : strict_total D).

Notation lt := (fun x y => less x y = true).

Lemma less_asym x y : D x -> D y -> less x y = true -> less y x = false.
Proof.
  intros Hx Hy H. destruct (less y x) eqn:E; [|done].
  pose proof (st_trans _ Hord x y x Hx Hy Hx H E) as Hxx. by rewrite (st_irrefl _ Hord x Hx) in Hxx.
Qed.

Lemma not_less x y : D x -> D y -> x <> y -> less x y = false -> less y x = true.
Proof. intros Hx Hy Hne H. destruct (st_total _ Hord x y Hx Hy Hne); congruence. Qed.

Lemma insert_sorted_sorted x l :
  D x -> Forall D l -> x ∉ l -> StronglySorted lt l -> StronglySorted lt (insert_sorted x l).
Proof.
  intros Hx Hl. induction Hl as [|y l Hy Hl IH]; intros Hni Hs; simpl; [by repeat constructor|].
  apply StronglySorted_inv in Hs as [Hs Hall]. apply not_elem_of_cons in Hni as [Hne Hni].
  destruct (less x y) eqn:E.
  - constructor; [by constructor|]. constructor; [done|]. apply Forall_forall. intros z Hz.
    rewrite Forall_forall in Hall, Hl. apply (st_trans _ Hord x y z); auto.
  - constructor; [by apply IH|]. apply Forall_forall. intros z Hz. rewrite insert_sorted_perm in Hz.
    apply elem_of_cons in Hz as [->|Hz]; [by apply not_less|]. rewrite Forall_forall in Hall. by apply Hall.
Qed.

Lemma stable_sort_sorted l : Forall D l -> NoDup l -> StronglySorted lt (stable_sort l).
Proof.
  induction l as [|x l IH] using rev_ind; intros Hd Hnd; [constructor|].
  rewrite stable_sort_snoc. apply Forall_app in Hd as [Hd Hx]. apply Forall_cons in Hx as [Hx _].
  apply NoDup_app in Hnd as (Hnd & Hni & _). apply insert_sorted_sorted; [done| | |by apply IH].
  - by rewrite stable_sort_perm.
  - rewrite stable_sort_perm. intros Hin. apply (Hni x Hin). set_solver.
Qed.

(** A sorted list is determined by its elements. *)
Lemma sorted_unique l1 l2 :
  Forall D l1 -> l1 ≡ₚ l2 -> StronglySorted lt l1 -> StronglySorted lt l2 -> l1 = l2.
Proof.
  intros Hd. revert l2. induction Hd as [|x l1 Hx Hd IH]; intros l2 Hp H1 H2.
  { symmetry in Hp. by apply Permutation_nil_r in Hp as ->. }
  destruct l2 as [|y l2]; [by apply Permutation_nil_r in Hp|].
  apply StronglySorted_inv in H1 as [H1 Ha1]. apply StronglySorted_inv in H2 as [H2 Ha2].
  rewrite Forall_forall in Ha1, Ha2.
  assert (D y) as Hy. { assert (y ∈ x :: l1) as Hin by (rewrite Hp; set_solver). rewrite Forall_forall in Hd. set_solver. }
  assert (x = y) as <-.
  { assert (x ∈ y :: l2) as Hxin by (rewrite <- Hp; set_solver). assert (y ∈ x :: l1) as Hyin by (rewrite Hp; set_solver).
    apply elem_of_cons in Hxin as [|Hxin]; [done|]. apply elem_of_cons in Hyin as [|Hyin]; [done|].
    pose proof (Ha1 y Hyin) as E1. pose proof (Ha2 x Hxin) as E2. by rewrite less_asym in E2. }
  f_equal. apply IH; try done. by apply Permutation_cons_inv in Hp.
Qed.

Lemma sorted_take n l : StronglySorted lt l -> StronglySorted lt (take n l).
Proof.
  intros Hs. revert n. induction Hs as [|x l Hs IH Ha]; intros [|n]; simpl; try constructor; [apply IH|by apply Forall_take].
Qed.

(** ** Inserting into a prefix *)

Lemma insert_sorted_after x l :
  Forall (fun y => less x y = false) l -> insert_sorted x l = l ++ [x].
Proof. induction 1 as [|y l Hy _ IH]; simpl; [done|]. by rewrite Hy, IH. Qed.

(** An element that is not below the [k]-th one does not change the prefix; one
    that is replaces it. *)
Lemma take_insert_same k x l :
  length l >= k -> Forall (fun y => less x y = false) (take k l) -> take k (insert_sorted x l) = take k l.
Proof.
  revert l. induction k as [|k IH]; intros [|y l] Hl Hall; simpl in *; try done; [lia|].
  apply Forall_cons in Hall as [Hy Hall]. rewrite Hy. simpl. rewrite IH by (done || lia). done.
Qed.

Lemma take_insert_new k x l m :
  l !! k = Some m -> less x m = true -> take (S k) (insert_sorted x l) ≡ₚ x :: take k l.
Proof.
  revert l. induction k as [|k IH]; intros [|y l] Hm Hx; cbn [insert_sorted]; try done.
  - injection Hm as ->. by rewrite Hx.
  - destruct (less x y); [done|]. change (y :: take (S k) (insert_sorted x l) ≡ₚ x :: y :: take k l).
    rewrite (IH l) by done. constructor.
Qed.

End sort.

(** ** Heaps *)

(** Sorting the images of a list in ascending order of [before], with an order
    that may break ties by [before]. *)
Lemma stable_sort_tie {A B} (f : A -> B) (before : A -> A -> Prop) (less : A -> A -> bool) (less' : B -> B -> bool) (l : list A) :
  StronglySorted before l -> (forall x y, x ∈ l -> y ∈ l -> before y x -> less' (f x) (f y) = less x y) ->
  stable_sort less' (f <$> l) = f <$> stable_sort less l.
Proof.
  intros Hs. induction l as [|x l IH] using rev_ind; intros Hl; [done|]. rewrite fmap_app. cbn [fmap list_fmap].
  assert (StronglySorted before l /\ Forall (fun y => before y x) l) as [Hs1 Hb].
  { clear -Hs. induction l as [|y l IH]; [by repeat constructor|]. apply StronglySorted_inv in Hs as [Hs Hy]. destruct (IH Hs) as [IH1 IH2].
    apply Forall_app in Hy as [Hy Hx]. apply Forall_cons in Hx as [Hx _]. split; by constructor. }
  rewrite !stable_sort_snoc, IH by (done || (intros; apply Hl; set_solver)).
  assert (forall y, y ∈ stable_sort less l -> less' (f x) (f y) = less x y) as Hx.
  { intros y Hy. rewrite stable_sort_perm in Hy. apply Hl; [set_solver..|]. rewrite Forall_forall in Hb. by apply Hb. }
  clear IH Hl. induction (stable_sort less l) as [|y s IH]; [done|]. rewrite fmap_cons. cbn [insert_sorted].
  rewrite (Hx y) by set_solver. destruct (less x y); [done|]. rewrite fmap_cons, IH by (intros; apply Hx; set_solver). done.
Qed.

Lemma stable_sort_fmap {A B} (f : A -> B) (less : A -> A -> bool) (less' : B -> B -> bool) (l : list A) :
  (forall x y, x ∈ l -> y ∈ l -> less' (f x) (f y) = less x y) -> stable_sort less' (f <$> l) = f <$> stable_sort less l.
Proof.
  intros Hl. apply (stable_sort_tie f (fun _ _ => True)); [|by auto]. clear. induction l; constructor; [done|]. by apply Forall_true.
Qed.

(** The standard's max-heap: [!comp(a[(i-1)/2], a[i])] for every [i > 0]. *)
Definition is_heap {A} (comp : A -> A -> bool) (l : list A) : Prop :=
  forall i x y, 0 < i -> l !! ((i - 1) / 2) = Some x -> l !! i = Some y -> comp x y = false.

(** What the standard promises of the two functions when [comp] is a strict
    weak order on the elements. *)
Class StdHeap (push_heap pop_heap : forall A : Type, (A -> A -> bool) -> list A -> list A) : Prop := {
  push_heap_spec : forall A (comp : A -> A -> bool) (D : A -> Prop) l x,
    strict_total comp D -> Forall D (l ++ [x]) -> is_heap comp l ->
    push_heap A comp (l ++ [x]) ≡ₚ l ++ [x] /\ is_heap comp (push_heap A comp (l ++ [x]));
  pop_heap_spec : forall A (comp : A -> A -> bool) (D : A -> Prop) x l,
    strict_total comp D -> Forall D (x :: l) -> is_heap comp (x :: l) ->
    exists l', pop_heap A comp (x :: l) = l' ++ [x] /\ l' ≡ₚ l /\ is_heap comp l';
}.

(** The front of a heap is a maximum. *)
Lemma heap_front_max {A} (comp : A -> A -> bool) D x l :
  strict_total comp D -> Forall D (x :: l) -> is_heap comp (x :: l) -> forall y, y ∈ x :: l -> comp x y = false.
Proof.
  intros Hord Hd Hh y Hy. apply list_elem_of_lookup in Hy as [i Hi]. revert y Hi.
  induction (lt_wf i) as [i _ IH]. intros y Hi. pose proof (proj1 (Forall_lookup _ _) Hd) as HD.
  destruct (decide (i = 0)) as [->|Hne].
  { injection Hi as <-. apply (st_irrefl _ _ Hord). by apply (HD 0). }
  assert ((i - 1) / 2 < i) as Hlt. { apply Nat.Div0.div_lt_upper_bound; lia. }
  destruct (lookup_lt_is_Some_2 (x :: l) ((i - 1) / 2)) as [z Hz]; [apply lookup_lt_Some in Hi; lia|].
  pose proof (IH _ Hlt z Hz) as Hxz. pose proof (Hh i z y ltac:(lia) Hz Hi) as Hzy.
  destruct (comp x y) eqn:E; [|done].
  assert (D x) as Dx by (by apply (HD 0)). assert (D y) as Dy by (by apply (HD i)). assert (D z) as Dz by (by eapply HD).
  destruct (st_total _ _ Hord z y Dz Dy) as [|Hyz]; [intros ->; congruence|congruence|].
  by rewrite (st_trans _ _ Hord x y z Dx Dy Dz E Hyz) in Hxz.
Qed.

(** ** The bounded heap *)

Section topk.
Context (push_heap pop_heap : forall A : Type, (A -> A -> bool) -> list A -> list A).
Context {A : Type} (less : A -> A -> bool).

(** One row of the loop: push while there is room, replace the front by a row
    that comes before it. *)
Definition top_k_step (k : nat) (heap : list A) (row : A) : list A :=
  if decide (length heap < k) then push_heap A less (heap ++ [row])
  else match heap with
       | front :: _ =>
           if less row front then push_heap A less (removelast (pop_heap A less heap) ++ [row]) else heap
       | [] => heap
       end.

Definition top_k_heap (k : nat) (rows : list A) : list A := foldl (top_k_step k) [] rows.

Context `{!StdHeap push_heap pop_heap} (D : A -> Prop) (Hord : strict_total less D).

(** The front of a heap with the elements of a sorted list is its last one. *)
Lemma heap_front_last front rest l m :
  Forall D (l ++ [m]) -> StronglySorted (fun x y => less x y = true) (l ++ [m]) -> is_heap less (front :: rest) ->
  front :: rest ≡ₚ l ++ [m] -> front = m.
Proof.
  intros Hd Hs Hh Hp. assert (Forall D (front :: rest)) as Hd' by (by rewrite Hp).
  pose proof (heap_front_max less D front rest Hord Hd' Hh m) as Hmax.
  assert (m ∈ front :: rest) as Hm by (rewrite Hp; set_solver). specialize (Hmax Hm).
  assert (front ∈ l ++ [m]) as Hf by (rewrite <- Hp; set_solver).
  apply elem_of_app in Hf as [Hf|Hf]; [|set_solver].
  apply StronglySorted_app in Hs as (Hlt & _ & _). specialize (Hlt front m Hf ltac:(set_solver)). congruence.
Qed.

Lemma top_k_step_full k heap sorted row :
  length heap = S k -> is_heap less heap -> heap ≡ₚ take (S k) sorted -> Forall D sorted -> D row -> row ∉ sorted ->
  StronglySorted (fun x y => less x y = true) sorted ->
  is_heap less (top_k_step (S k) heap row) /\ top_k_step (S k) heap row ≡ₚ take (S k) (insert_sorted less row sorted).
Proof.
  intros Hlen Hh Hp Hd Hrow Hni Hs. unfold top_k_step. rewrite decide_False by lia.
  destruct heap as [|front rest]; [done|].
  assert (length (take (S k) sorted) = S k) as Hlt by (rewrite <- Hp; done). rewrite length_take in Hlt.
  destruct (lookup_lt_is_Some_2 sorted k) as [m Hm]; [lia|].
  rewrite (take_S_r _ _ m) in Hp by done.
  assert (Forall D (take k sorted ++ [m])) as Hdt by (rewrite <- (take_S_r _ _ m) by done; by apply Forall_take).
  assert (StronglySorted (fun x y => less x y = true) (take k sorted ++ [m])) as Hst
    by (rewrite <- (take_S_r _ _ m) by done; by apply sorted_take).
  pose proof (heap_front_last front rest (take k sorted) m Hdt Hst Hh Hp) as ->.
  assert (rest ≡ₚ take k sorted) as Hrest.
  { rewrite Permutation_app_comm in Hp. by apply Permutation_cons_inv in Hp. }
  assert (Forall D (m :: rest)) as Hdh by (by rewrite Hp).
  destruct (less row m) eqn:E.
  - destruct (pop_heap_spec A less D m rest Hord Hdh Hh) as (l' & -> & Hl' & Hh').
    rewrite removelast_last.
    destruct (push_heap_spec A less D l' row Hord) as [Hpp Hph]; [|done|].
    { apply Forall_app. split; [|by constructor]. rewrite Hl'. by apply Forall_cons in Hdh as [_ ?]. }
    split; [done|]. rewrite Hpp, (take_insert_new less k row sorted m), Hl', Hrest by done.
    by rewrite Permutation_app_comm.
  - split; [done|]. rewrite take_insert_same; [by rewrite Hp, (take_S_r _ _ m)|lia|].
    rewrite (take_S_r _ _ m) by done. apply Forall_forall. intros y Hy. apply elem_of_app in Hy as [Hy|Hy]; [|set_solver].
    apply StronglySorted_app in Hst as (Hym & _ & _). specialize (Hym y m Hy ltac:(set_solver)).
    apply Forall_app in Hdt as [Hdt Hdm]. apply Forall_cons in Hdm as [Hdm _]. rewrite Forall_forall in Hdt.
    destruct (less row y) eqn:Ey; [|done]. by rewrite (st_trans _ _ Hord row y m) in E by auto.
Qed.

Lemma top_k_heap_perm k rows :
  0 < k -> Forall D rows -> NoDup rows ->
  is_heap less (top_k_heap k rows) /\ top_k_heap k rows ≡ₚ take k (stable_sort less rows).
Proof.
  intros Hk. induction rows as [|row rows IH] using rev_ind; intros Hd Hnd.
  { unfold top_k_heap, stable_sort. simpl. split; [|by rewrite take_nil]. intros i x y Hi Hx Hy. done. }
  apply Forall_app in Hd as [Hd Hrow]. apply Forall_cons in Hrow as [Hrow _].
  apply NoDup_app in Hnd as (Hnd & Hni & _). destruct (IH Hd Hnd) as [Hh Hp].
  assert (row ∉ stable_sort less rows) as Hns by (rewrite stable_sort_perm; intros Hin; apply (Hni row Hin); set_solver).
  unfold top_k_heap. rewrite foldl_snoc. fold (top_k_heap k rows). rewrite stable_sort_snoc.
  assert (length (top_k_heap k rows) = Nat.min k (length rows)) as Hlen by (by rewrite Hp, length_take, length_stable_sort).
  destruct (decide (length rows < k)) as [Hlt|Hge].
  - unfold top_k_step. rewrite decide_True by lia.
    rewrite take_ge in Hp by (rewrite length_stable_sort; lia).
    destruct (push_heap_spec A less D (top_k_heap k rows) row Hord) as [Hpp Hph]; [|done|].
    { apply Forall_app. split; [|by constructor]. by rewrite Hp, stable_sort_perm. }
    split; [done|]. rewrite take_ge.
    + rewrite Hpp, Hp, insert_sorted_perm. by rewrite Permutation_app_comm.
    + rewrite insert_sorted_perm. simpl. rewrite length_stable_sort. lia.
  - destruct k as [|k]; [lia|]. apply top_k_step_full; try done; [lia|by rewrite stable_sort_perm|].
    by apply (stable_sort_sorted less D).
Qed.

(** The sorted heap is the prefix of the sorted rows. *)
Lemma top_k_sorted k rows :
  0 < k -> Forall D rows -> NoDup rows ->
  stable_sort less (top_k_heap k rows) = take k (stable_sort less rows).
Proof.
  intros Hk Hd Hnd. destruct (top_k_heap_perm k rows Hk Hd Hnd) as [_ Hp].
  assert (Forall D (top_k_heap k rows)) as Hdh by (rewrite Hp; apply Forall_take; by rewrite stable_sort_perm).
  assert (NoDup (top_k_heap k rows)) as Hndh by (rewrite Hp; eapply sublist_NoDup; [|apply sublist_take]; by rewrite stable_sort_perm).
  apply (sorted_unique less D Hord).
  - by rewrite stable_sort_perm.
  - by rewrite stable_sort_perm.
  - by apply (stable_sort_sorted less D).
  - apply sorted_take. by apply (stable_sort_sorted less D).
Qed.

End topk.

(** ** A heap that keeps its elements in descending order *)

Definition sorted_push_heap (A : Type) (comp : A -> A -> bool) (l : list A) : list A := reverse (stable_sort comp l).
Definition sorted_pop_heap (A : Type) (comp : A -> A -> bool) (l : list A) : list A :=
  match l with [] => [] | x :: l => reverse (stable_sort comp l) ++ [x] end.

Lemma insert_sorted_weak {A} (less : A -> A -> bool) D x l :
  strict_total less D -> D x -> Forall D l -> StronglySorted (fun a b => less b a = false) l ->
  StronglySorted (fun a b => less b a = false) (insert_sorted less x l).
Proof.
  intros Hord Hx Hl. induction Hl as [|y l Hy Hl IH]; intros Hs; simpl; [by repeat constructor|].
  apply StronglySorted_inv in Hs as [Hs Hall]. rewrite Forall_forall in Hall, Hl. destruct (less x y) eqn:E.
  - constructor; [by constructor; [|apply Forall_forall]|]. constructor; [by apply (less_asym less D Hord)|].
    apply Forall_forall. intros z Hz. destruct (less z x) eqn:Ez; [|done].
    pose proof (st_trans _ _ Hord z x y (Hl z Hz) Hx Hy Ez E) as Hzy. by rewrite Hall in Hzy.
  - constructor; [by apply IH|]. apply Forall_forall. intros z Hz. rewrite insert_sorted_perm in Hz.
    apply elem_of_cons in Hz as [->|Hz]; [done|]. by apply Hall.
Qed.

Lemma reverse_sorted_heap {A} (less : A -> A -> bool) D l :
  strict_total less D -> Forall D l -> is_heap less (reverse (stable_sort less l)).
Proof.
  intros Hord Hd. assert (StronglySorted (fun a b => less b a = false) (stable_sort less l)) as Hs.
  { induction l as [|x l IH] using rev_ind; [constructor|]. apply Forall_app in Hd as [Hd Hx].
    apply Forall_cons in Hx as [Hx _]. rewrite stable_sort_snoc. apply (insert_sorted_weak less D); try done; [|by apply IH].
    by rewrite stable_sort_perm. }
  intros i x y Hi Hx Hy. assert ((i - 1) / 2 < i) as Hlt by (apply Nat.Div0.div_lt_upper_bound; lia).
  apply reverse_lookup_Some in Hx as [Hx Hxl]. apply reverse_lookup_Some in Hy as [Hy Hyl].
  assert (length (stable_sort less l) - S i < length (stable_sort less l) - S ((i - 1) / 2)) as Hidx by lia.
  revert Hx Hy Hidx. generalize (length (stable_sort less l) - S i) (length (stable_sort less l) - S ((i - 1) / 2)).
  clear -Hs. intros a b. revert a b. induction Hs as [|z s Hs IH Ha]; intros a b Hb Hay Hab; [done|].
  destruct b as [|b]; [lia|]. destruct a as [|a].
  - injection Hay as <-. simpl in Hb. rewrite Forall_forall in Ha. apply Ha. by apply list_elem_of_lookup_2 in Hb.
  - simpl in *. apply (IH a b); [done..|lia].
Qed.

#[export] Instance sorted_StdHeap : StdHeap sorted_push_heap sorted_pop_heap.
Proof.
  split.
  - intros A comp D l x Hord Hd _. unfold sorted_push_heap. split; [by rewrite reverse_Permutation, stable_sort_perm|].
    by apply (reverse_sorted_heap comp D).
  - intros A comp D x l Hord Hd _. apply Forall_cons in Hd as [_ Hd]. exists (reverse (stable_sort comp l)).
    split; [done|]. split; [by rewrite reverse_Permutation, stable_sort_perm|]. by apply (reverse_sorted_heap comp D).
Qed.
