(* ===== verification/Sort.v ===== *)
(** * ORDER BY

    [operator/physical_sort.cpp] and [operator/physical_sort_source.cpp]: the
    sink copies its input, evaluates the sort keys and computes the order of
    the rows, all of them or the first [top_k]; the source emits the rows in
    that order.  The claims: the order is a permutation of the rows sorted by
    their keys, NULLs last in both directions, and ties in input order; the
    heap of a top-k query computes the prefix of that order; and the source
    emits every row once, in order. *)

From Stdlib Require Import ZArith SpecFloat String.
From stdpp Require Import base gmap strings list sorting.
From S2P Require Import Prelude Types Double Expr Operators PartitionInfo HashJoin Pipeline Sorting.

(** A row of the buffer: chunk and row in the chunk. *)
Notation row_ref := (nat * nat)%type.

(** ** Comparing rows *)

(** Original row order. *)
Definition compare_refs (a b : row_ref) : Z :=
  if negb (Nat.eqb a.1 b.1) then (if Nat.ltb a.1 b.1 then -1 else 1)
  else if negb (Nat.eqb a.2 b.2) then (if Nat.ltb a.2 b.2 then -1 else 1)
  else 0.

Definition three_way {A} (ltb : A -> A -> bool) (x y : A) : Z := if ltb x y then -1 else if ltb y x then 1 else 0.

(** The [switch] on the type of the key vector. *)
Definition compare_cells_at (dva dvb : DataVector) (i j : nat) : result Z :=
  match storage_of (dv_type dva) with
  | SInt => x ← int_at dva i; y ← int_at dvb j; Ok (three_way Z.ltb x y)
  | SFloat => x ← float_at dva i; y ← float_at dvb j; Ok (three_way f64_ltb x y)
  | SStr => x ← str_at dva i; y ← str_at dvb j; Ok (three_way String.ltb x y)
  | SNone => Ok 0%Z
  end.

(** [CompareSortRows]; [asc] advances with the keys. *)
Fixpoint CompareSortRows (keys : list (list DataVector)) (asc : list bool) (a b : row_ref) : result Z :=
  match keys with
  | [] => Ok (compare_refs a b)
  | vecs :: keys =>
      dva ← of_option UndefinedBehaviour (vecs !! a.1);
      dvb ← of_option UndefinedBehaviour (vecs !! b.1);
      let a_null := IsNull dva a.2 in
      let b_null := IsNull dvb b.2 in
      if a_null || b_null then
        if a_null && b_null then CompareSortRows keys (tail asc) a b
        else Ok (if a_null then 1%Z else (-1)%Z)
      else
        cmp ← compare_cells_at dva dvb a.2 b.2;
        if Z.eqb cmp 0 then CompareSortRows keys (tail asc) a b
        else up ← of_option UndefinedBehaviour (head asc); Ok (if up : bool then cmp else - cmp)%Z
  end.

(** The lambda [less_row].  On evaluated keys the comparison does not leave the
    vectors ([CompareSortRows_lex]). *)
Definition less_row (keys : list (list DataVector)) (asc : list bool) (a b : row_ref) : bool :=
  match CompareSortRows keys asc a b with Ok c => Z.ltb c 0 | Err _ => false end.

(** ** The sink *)

Record SortBuffer : Type := mkSortBuffer {
  sort_chunks : list DataChunk;
  key_vecs : list (list DataVector);
  sorted_order : list row_ref;
  sorted : bool;
}.

Definition SortBuffer_empty : SortBuffer := mkSortBuffer [] [] [] false.

(** The copy of one column: [memcpy] of [count] elements for the numeric types. *)
Definition copy_column (src : DataVector) : result DataVector :=
  match storage_of (dv_type src) with
  | SInt =>
      if decide (dv_count src <= length (int_data src))
      then Ok (mkDV (dv_type src) (dv_count src) (take (dv_count src) (int_data src)) [] [] (validity src))
      else Err UndefinedBehaviour
  | SFloat =>
      if decide (dv_count src <= length (float_data src))
      then Ok (mkDV (dv_type src) (dv_count src) [] (take (dv_count src) (float_data src)) [] (validity src))
      else Err UndefinedBehaviour
  | SStr => Ok (mkDV (dv_type src) (dv_count src) [] [] (str_data src) (validity src))
  | SNone => Ok (mkDV (dv_type src) (dv_count src) [] [] [] (validity src))
  end.

(** [PhysicalSort::Consume] *)
Definition Sort_Consume (buf : SortBuffer) (input : DataChunk) : result SortBuffer :=
  if decide (ch_count input = 0) then Ok buf
  else
    cols ← mapM_r copy_column (columns input);
    Ok (mkSortBuffer (sort_chunks buf ++ [mkChunk cols (ch_count input)]) (key_vecs buf) (sorted_order buf) (sorted buf)).

(** The nested loops over the rows of all chunks. *)
Definition all_rows (chunks : list DataChunk) : list row_ref :=
  concat (imap (fun ci c => pair ci <$> seq 0 (ch_count c)) chunks).

(** [reserve] on a vector of pairs of [size_t]: more than [max_size()] elements are
    a [std::length_error], and more than there is memory for a [std::bad_alloc]. *)
Definition MAX_PAIRS : Z := (2 ^ 63 - 1) / 16.
Definition reserve (memory : N) (n : Z) : result unit :=
  if Z.ltb MAX_PAIRS n then Err StdLengthError else if Z.ltb (Z.of_N memory) n then Err StdBadAlloc else Ok tt.

(** [PhysicalSort::Finalize] over the heap functions of the standard library.  The
    heap is reserved for [top_k] rows, whatever the input has; the order of all
    rows takes memory for the rows the buffer holds. *)
Definition Sort_Finalize (F : FPU) (memory : N) (push_heap pop_heap : forall A : Type, (A -> A -> bool) -> list A -> list A)
    (sort_keys : list LogicalExpr) (ascending : list bool) (top_k : Z) (buf : SortBuffer) : result SortBuffer :=
  keys ← mapM_r (fun k => mapM_r (Evaluate F k) (sort_chunks buf)) sort_keys;
  let less := less_row keys ascending in
  let rows := all_rows (sort_chunks buf) in
  order ←
    (if Z.eqb top_k 0 then Ok []
     else if Z.ltb 0 top_k then
       _ ← reserve memory top_k; Ok (stable_sort less (top_k_heap push_heap pop_heap less (Z.to_nat top_k) rows))
     else Ok (stable_sort less rows));
  Ok (mkSortBuffer (sort_chunks buf) keys order true).

(** ** The source *)

(** One row of the emit loop of [PhysicalSortSource::GetData]. *)
Definition emit_row (chunks : list DataChunk) (out : list DataVector) (r : row_ref) : result (list DataVector) :=
  src ← of_option UndefinedBehaviour (chunks !! r.1);
  emit_columns ((fun col dst => DataVectorAppend dst col r.2) <$> columns src) out.

(** [PhysicalSortSource::GetData]; the state is [chunk_idx], the position in the
    sorted order. *)
Definition SortSource_GetData (buf : SortBuffer) (chunk_idx : nat) (output : DataChunk)
    : result (OperatorResultType * DataChunk * nat) :=
  if negb (sorted buf) then Ok (FINISHED, output, chunk_idx)
  else if decide (length (sorted_order buf) <= chunk_idx) then Ok (FINISHED, output, chunk_idx)
  else match sort_chunks buf with
       | [] => Ok (FINISHED, output, chunk_idx)
       | first :: _ =>
           let batch := take STANDARD_VECTOR_SIZE (drop chunk_idx (sorted_order buf)) in
           cols ← foldM (emit_row (sort_chunks buf)) (columns (Initialize (col_types first))) batch;
           let chunk_idx := chunk_idx + length batch in
           Ok (if decide (length (sorted_order buf) <= chunk_idx) then FINISHED else HAVE_MORE_OUTPUT,
               mkChunk cols (length batch), chunk_idx)
       end.

(** ** The order of SQL rows *)

Definition cell_ltb (x y : cell) : bool :=
  match x, y with
  | CInt a, CInt b => Z.ltb a b
  | CFloat a, CFloat b => f64_ltb a b
  | CStr a, CStr b => String.ltb a b
  | _, _ => false
  end.

(** One key: NULLs last, whatever the direction. *)
Definition key_ltb (up : bool) (x y : option cell) : bool :=
  match x, y with
  | None, _ => false
  | Some _, None => true
  | Some a, Some b => if up then cell_ltb a b else cell_ltb b a
  end.

(** The first key that differs decides, then the tie break. *)
Fixpoint lex (asc : list bool) (xs ys : list (option cell)) (tie : bool) : bool :=
  match xs, ys with
  | x :: xs, y :: ys =>
      let up := default true (head asc) in
      if key_ltb up x y then true else if key_ltb up y x then false else lex (tail asc) xs ys tie
  | _, _ => tie
  end.

Definition ref_ltb (a b : row_ref) : bool := Nat.ltb a.1 b.1 || (Nat.eqb a.1 b.1 && Nat.ltb a.2 b.2).

Definition row_of (chunks : list DataChunk) (r : row_ref) : sql_row :=
  match chunks !! r.1 with Some c => row_at c r.2 | None => [] end.

(** The values of the sort keys of a row. *)
Definition key_values (F : FPU) (sort_keys : list LogicalExpr) (r : sql_row) : list (option cell) :=
  (fun k => default None (eval_row F k r)) <$> sort_keys.

(** Row [a] comes before row [b] in the result of ORDER BY. *)
Definition sql_before (F : FPU) (sort_keys : list LogicalExpr) (asc : list bool) (chunks : list DataChunk)
    (a b : row_ref) : bool :=
  lex asc (key_values F sort_keys (row_of chunks a)) (key_values F sort_keys (row_of chunks b)) (ref_ltb a b).

(** ** Key comparison is an order *)

(** A key value of type [t] that is not NaN. *)
Definition key_dom (t : TypeId) (x : option cell) : Prop :=
  match x with
  | None => True
  | Some (CInt _) => storage_of t = SInt
  | Some (CFloat b) => storage_of t = SFloat /\ f64_to_SF b <> S754_nan
  | Some (CStr _) => storage_of t = SStr
  end.

Lemma cell_ltb_irrefl x : cell_ltb x x = false.
Proof.
  destruct x as [z|b|s]; simpl; [apply Z.ltb_irrefl|apply SFltb_irrefl|].
  destruct (String.ltb s s) eqn:E; [|done]. apply string_ltb_lt in E. by rewrite string_compare_refl in E.
Qed.

Lemma cell_ltb_trans x y z : cell_ltb x y = true -> cell_ltb y z = true -> cell_ltb x z = true.
Proof.
  destruct x, y, z; simpl; try done.
  - rewrite !Z.ltb_lt. lia.
  - apply SFltb_trans.
  - apply string_ltb_trans.
Qed.

Lemma cell_ltb_asym x y : cell_ltb x y = true -> cell_ltb y x = false.
Proof.
  intros H. destruct (cell_ltb y x) eqn:E; [|done]. pose proof (cell_ltb_trans x y x H E) as Hx.
  by rewrite cell_ltb_irrefl in Hx.
Qed.

Lemma cell_ltb_cotrans t x y z :
  key_dom t (Some x) -> key_dom t (Some y) -> cell_ltb x z = true -> cell_ltb x y = true \/ cell_ltb y z = true.
Proof.
  destruct x, y, z; simpl; try done; try (intros; exfalso; intuition congruence).
  - rewrite !Z.ltb_lt. lia.
  - intros _ [_ Hn]. by apply SFltb_cotrans.
  - intros _ _. apply string_ltb_cotrans.
Qed.

Lemma key_ltb_trans up x y z : key_ltb up x y = true -> key_ltb up y z = true -> key_ltb up x z = true.
Proof.
  destruct x as [x|], y as [y|], z as [z|]; simpl; try done. destruct up; [apply cell_ltb_trans|].
  intros H1 H2. by apply (cell_ltb_trans z y x).
Qed.

Lemma key_ltb_irrefl up x : key_ltb up x x = false.
Proof. destruct x as [x|]; simpl; [|done]. destruct up; apply cell_ltb_irrefl. Qed.

Lemma key_ltb_cotrans t up x y z :
  key_dom t x -> key_dom t y -> key_dom t z -> key_ltb up x z = true -> key_ltb up x y = true \/ key_ltb up y z = true.
Proof.
  destruct x as [x|], y as [y|], z as [z|]; simpl; try done; auto. destruct up; intros Hx Hy Hz H.
  - by apply (cell_ltb_cotrans t).
  - destruct (cell_ltb_cotrans t z y x) as [?|?]; auto.
Qed.

Lemma lex_irrefl asc xs tie : lex asc xs xs tie = tie.
Proof. revert asc. induction xs as [|x xs IH]; intros asc; simpl; [done|]. by rewrite key_ltb_irrefl. Qed.

Lemma lex_total asc xs ys t1 t2 :
  t1 = true \/ t2 = true -> lex asc xs ys t1 = true \/ lex asc ys xs t2 = true.
Proof.
  intros Ht. revert asc ys. induction xs as [|x xs IH]; intros asc [|y ys]; simpl; try done.
  destruct (key_ltb _ x y) eqn:E1; [by left|]. destruct (key_ltb _ y x) eqn:E2; [by right|]. apply IH.
Qed.

Lemma lex_trans ts asc xs ys zs t1 t2 t3 :
  Forall2 key_dom ts xs -> Forall2 key_dom ts ys -> Forall2 key_dom ts zs ->
  (t1 = true -> t2 = true -> t3 = true) ->
  lex asc xs ys t1 = true -> lex asc ys zs t2 = true -> lex asc xs zs t3 = true.
Proof.
  intros Hx. revert asc ys zs. induction Hx as [|t x ts xs Dx Hx IH]; intros asc ys zs Hy Hz Ht.
  { apply Forall2_nil_inv_l in Hy as ->. apply Forall2_nil_inv_l in Hz as ->. exact Ht. }
  apply Forall2_cons_inv_l in Hy as (y & ys' & Dy & Hy & ->).
  apply Forall2_cons_inv_l in Hz as (z & zs' & Dz & Hz & ->). cbn [lex].
  set (up := default true (head asc)).
  destruct (key_ltb up x y) eqn:Exy.
  - intros _. destruct (key_ltb up y z) eqn:Eyz.
    { intros _. by rewrite (key_ltb_trans up x y z). }
    destruct (key_ltb up z y) eqn:Ezy; [done|]. intros _.
    destruct (key_ltb_cotrans t up x z y Dx Dz Dy Exy) as [E|E]; [by rewrite E|congruence].
  - destruct (key_ltb up y x) eqn:Eyx; [done|]. intros Hxy. destruct (key_ltb up y z) eqn:Eyz.
    { intros _. destruct (key_ltb_cotrans t up y x z Dy Dx Dz Eyz) as [E|E]; [congruence|by rewrite E]. }
    destruct (key_ltb up z y) eqn:Ezy; [done|]. intros Hyz.
    destruct (key_ltb up x z) eqn:Exz; [done|]. destruct (key_ltb up z x) eqn:Ezx; [|by apply (IH (tail asc) ys' zs')].
    destruct (key_ltb_cotrans t up z y x Dz Dy Dx Ezx) as [E|E]; congruence.
Qed.

Lemma ref_ltb_spec a b : ref_ltb a b = true <-> a.1 < b.1 \/ (a.1 = b.1 /\ a.2 < b.2).
Proof. unfold ref_ltb. rewrite orb_true_iff, andb_true_iff, !Nat.ltb_lt, Nat.eqb_eq. done. Qed.

Lemma sql_before_order F sort_keys asc chunks (D : row_ref -> Prop) :
  (forall r, D r -> Forall2 key_dom (type_of <$> sort_keys) (key_values F sort_keys (row_of chunks r))) ->
  strict_total (sql_before F sort_keys asc chunks) D.
Proof.
  intros HD. unfold sql_before. split.
  - intros x _. rewrite lex_irrefl. apply not_true_iff_false. rewrite ref_ltb_spec. lia.
  - intros x y z Hx Hy Hz. apply (lex_trans (type_of <$> sort_keys)); [by apply HD..|]. rewrite !ref_ltb_spec. lia.
  - intros x y Hx Hy Hne. apply lex_total. rewrite !ref_ltb_spec. destruct x as [a i], y as [b j]; simpl.
    assert (a <> b \/ i <> j) by (destruct (decide (a = b)); [right; congruence|by left]). lia.
Qed.

(** ** The comparison of the code *)

(** [v] holds the values of the key [k] on the chunk [c]. *)
Definition key_vec (F : FPU) (k : LogicalExpr) (c : DataChunk) (v : DataVector) : Prop :=
  dv_wf v /\ dv_type v = type_of k /\
  forall i, i < ch_count c -> eval_row F k (row_at c i) = Some (dv_row v i).

Definition key_matrix (F : FPU) (sort_keys : list LogicalExpr) (chunks : list DataChunk)
    (keys : list (list DataVector)) : Prop :=
  Forall2 (fun k vecs => Forall2 (key_vec F k) chunks vecs) sort_keys keys.

Definition in_rows (chunks : list DataChunk) (r : row_ref) : Prop :=
  exists c, chunks !! r.1 = Some c /\ r.2 < ch_count c.

Lemma compare_refs_neg a b : Z.ltb (compare_refs a b) 0 = ref_ltb a b.
Proof.
  unfold compare_refs, ref_ltb. destruct (Nat.eqb_spec a.1 b.1) as [E|E]; simpl.
  - rewrite E, Nat.ltb_irrefl. simpl. destruct (Nat.eqb_spec a.2 b.2) as [E'|E']; simpl; [by rewrite E', Nat.ltb_irrefl|].
    by destruct (Nat.ltb a.2 b.2).
  - rewrite orb_false_r. by destruct (Nat.ltb a.1 b.1).
Qed.

Lemma compare_cells_view va vb i j :
  dv_wf va -> dv_wf vb -> dv_type va = dv_type vb -> IsNull va i = false -> IsNull vb j = false ->
  exists x y, dv_row va i = Some x /\ dv_row vb j = Some y /\ compare_cells_at va vb i j = Ok (three_way cell_ltb x y).
Proof.
  intros Ha Hb Ht Hna Hnb. unfold compare_cells_at.
  destruct (dv_row_view va i Ha) as [Hn Hd|x Hn Hs He Hd|x Hn Hs He Hd|x Hn Hs He Hd]; [congruence|..];
  destruct (dv_row_view vb j Hb) as [Hn' Hd'|y Hn' Hs' He' Hd'|y Hn' Hs' He' Hd'|y Hn' Hs' He' Hd']; try congruence;
    rewrite Hs, He, He'; do 2 eexists; (split; [exact Hd|]); (split; [exact Hd'|]); reflexivity.
Qed.

(** The outcome of one key comparison, in both directions. *)
Lemma three_way_lex (up : bool) x y rest :
  (if Z.eqb (three_way cell_ltb x y) 0 then rest
   else Z.ltb (if up then three_way cell_ltb x y else - three_way cell_ltb x y) 0) =
  (if key_ltb up (Some x) (Some y) then true else if key_ltb up (Some y) (Some x) then false else rest).
Proof.
  unfold three_way. simpl. destruct (cell_ltb x y) eqn:E1.
  - rewrite (cell_ltb_asym x y E1). by destruct up.
  - destruct (cell_ltb y x) eqn:E2; by destruct up.
Qed.

Lemma key_values_cons F k ks r :
  key_values F (k :: ks) r = default None (eval_row F k r) :: key_values F ks r.
Proof. done. Qed.

(** A row that is not NULL has a cell. *)
Lemma dv_row_some v i : dv_wf v -> IsNull v i = false -> exists c, dv_row v i = Some c.
Proof.
  intros Hv Hn. destruct (dv_row_view v i Hv) as [Hn' Hd|x Hn' Hs He Hd|x Hn' Hs He Hd|x Hn' Hs He Hd]; [congruence|eauto..].
Qed.

Lemma CompareSortRows_lex F sort_keys chunks keys asc a b :
  key_matrix F sort_keys chunks keys -> length sort_keys <= length asc -> in_rows chunks a -> in_rows chunks b ->
  exists c, CompareSortRows keys asc a b = Ok c /\ Z.ltb c 0 = sql_before F sort_keys asc chunks a b.
Proof.
  intros Hm Hlen (ca & Hca & Hia) (cb & Hcb & Hib). unfold sql_before, row_of. rewrite Hca, Hcb.
  revert asc Hlen. induction Hm as [|k vecs sort_keys keys Hk _ IH]; intros asc Hlen.
  { eexists. split; [done|]. apply compare_refs_neg. }
  destruct (Forall2_lookup_l _ _ _ _ _ Hk Hca) as (va & Hva & Hwa & Hta & Hra).
  destruct (Forall2_lookup_l _ _ _ _ _ Hk Hcb) as (vb & Hvb & Hwb & Htb & Hrb).
  destruct asc as [|up asc]; [simpl in Hlen; lia|]. destruct (IH asc) as (c & Hc & Hlex); [simpl in Hlen; lia|].
  cbn [CompareSortRows]. rewrite !key_values_cons, Hva, Hvb, Hra, Hrb by done. cbn [of_option mbind result_bind].
  cbn [lex head tail from_option id].
  assert (forall v i, IsNull v i = true -> dv_row v i = None) as Hnull by (intros v i Hn; unfold dv_row; by rewrite Hn).
  destruct (IsNull va a.2) eqn:Ea, (IsNull vb b.2) eqn:Eb; cbn [orb andb].
  - rewrite (Hnull va a.2), (Hnull vb b.2) by done. by exists c.
  - destruct (dv_row_some vb b.2 Hwb Eb) as [y ->]. rewrite (Hnull va a.2) by done. by eexists.
  - destruct (dv_row_some va a.2 Hwa Ea) as [x ->]. rewrite (Hnull vb b.2) by done. by eexists.
  - destruct (compare_cells_view va vb a.2 b.2) as (x & y & -> & -> & ->); [done..|congruence|done|done|].
    cbn [mbind result_bind]. rewrite <- three_way_lex.
    destruct (Z.eqb (three_way cell_ltb x y) 0) eqn:Ez; [by exists c|]. cbn [head of_option mbind result_bind]. by eexists.
Qed.

Lemma less_row_before F sort_keys chunks keys asc a b :
  key_matrix F sort_keys chunks keys -> length sort_keys <= length asc -> in_rows chunks a -> in_rows chunks b ->
  less_row keys asc a b = sql_before F sort_keys asc chunks a b.
Proof.
  intros Hm Hl Ha Hb. unfold less_row. by destruct (CompareSortRows_lex F sort_keys chunks keys asc a b Hm Hl Ha Hb) as (c & -> & ->).
Qed.

(** ** All rows *)

Lemma elem_of_all_rows chunks r : r ∈ all_rows chunks <-> in_rows chunks r.
Proof.
  unfold all_rows, in_rows. rewrite list_elem_of_In, in_concat. setoid_rewrite <- list_elem_of_In. split.
  - intros (l & Hl & Hr). apply elem_of_lookup_imap in Hl as (ci & c & -> & Hc).
    apply list_elem_of_fmap in Hr as (ri & -> & Hri). apply elem_of_seq in Hri. exists c. split; [done|simpl; lia].
  - intros (c & Hc & Hr). exists (pair r.1 <$> seq 0 (ch_count c)). split.
    + apply elem_of_lookup_imap. eauto.
    + apply list_elem_of_fmap. exists r.2. split; [by destruct r|]. apply elem_of_seq. lia.
Qed.

Lemma NoDup_all_rows chunks : NoDup (all_rows chunks).
Proof.
  unfold all_rows. enough (forall off, NoDup (concat (imap (fun ci c => pair (off + ci) <$> seq 0 (ch_count c)) chunks)) /\
    forall r, r ∈ concat (imap (fun ci c => pair (off + ci) <$> seq 0 (ch_count c)) chunks) -> off <= r.1) as H
    by (apply (H 0)).
  induction chunks as [|c chunks IH]; intros off; simpl; [split; [constructor|by intros r ?%not_elem_of_nil]|].
  destruct (IH (S off)) as [IH1 IH2].
  rewrite (imap_ext _ (fun ci c => pair (S off + ci) <$> seq 0 (ch_count c))) by (intros; simpl; do 2 f_equal; lia).
  split.
  - apply NoDup_app. split_and!; [apply NoDup_fmap_2; [congruence|apply NoDup_seq]| |done].
    intros r Hr Hr'. apply list_elem_of_fmap in Hr as (i & -> & _). apply IH2 in Hr'. simpl in Hr'. lia.
  - intros r Hr. apply elem_of_app in Hr as [Hr|Hr]; [apply list_elem_of_fmap in Hr as (i & -> & _); simpl; lia|].
    apply IH2 in Hr. lia.
Qed.

(** ** Evaluating the keys *)

Definition not_nan (x : option cell) : Prop :=
  match x with Some (CFloat b) => f64_to_SF b <> S754_nan | _ => True end.

(** Chunks of one schema on which the keys are defined and not NaN. *)
Record sortable (F : FPU) (types : list TypeId) (sort_keys : list LogicalExpr) (c : DataChunk) : Prop := {
  so_batch : batch_ok c;
  so_types : col_types c = types;
  so_keys : Forall (fun k => well_typed types k = true /\
    Forall (fun r => exists x, eval_row F k r = Some x /\ not_nan x) (chunk_rows c)) sort_keys;
}.

Section sorting_rows.
Context (F : FPU) (types : list TypeId) (sort_keys : list LogicalExpr) (asc : list bool) (chunks : list DataChunk).
Hypothesis Hchunks : Forall (sortable F types sort_keys) chunks.
Hypothesis Hasc : length sort_keys <= length asc.

Lemma Evaluate_key_vec k c :
  batch_ok c -> well_typed (col_types c) k = true -> defined_on F k c ->
  exists v, Evaluate F k c = Ok v /\ key_vec F k c v.
Proof.
  intros [Hwf Hn] Hty Hd. destruct (defined_mapM _ _ _ Hd) as [vals Hv].
  pose proof (Evaluate_agrees F k c Hwf Hn Hty) as Hag. rewrite Hv in Hag. destruct Hag as (v & Hev & Hvec).
  rewrite mapM_chunk_rows in Hv. destruct (vec_is_rows _ _ _ _ _ Hv Hvec) as (Hw & Ht & _ & Hrow). by exists v.
Qed.

Lemma mapM_r_Forall2 {A B} (f : A -> result B) (P : A -> B -> Prop) l :
  Forall (fun x => exists y, f x = Ok y /\ P x y) l -> exists ys, mapM_r f l = Ok ys /\ Forall2 P l ys.
Proof.
  induction 1 as [|x l (y & Hy & HP) _ (ys & Hys & IH)]; [by exists []|].
  exists (y :: ys). cbn [mapM_r]. rewrite Hy. cbn [mbind result_bind]. rewrite Hys. split; [done|by constructor].
Qed.

Lemma eval_keys :
  exists keys, mapM_r (fun k => mapM_r (Evaluate F k) chunks) sort_keys = Ok keys /\ key_matrix F sort_keys chunks keys.
Proof.
  apply mapM_r_Forall2. apply Forall_lookup. intros n k Hk. apply mapM_r_Forall2.
  eapply Forall_impl; [exact Hchunks|]. intros c [Hb Hty Hks].
  destruct (proj1 (Forall_lookup _ _) Hks n k Hk) as [Hwt Hv]. apply Evaluate_key_vec; [done|by rewrite Hty|].
  eapply Forall_impl; [exact Hv|]. intros r (x & Hx & _). by exists x.
Qed.

Lemma key_values_dom r : in_rows chunks r -> Forall2 key_dom (type_of <$> sort_keys) (key_values F sort_keys (row_of chunks r)).
Proof.
  intros (c & Hc & Hi). unfold row_of. rewrite Hc. destruct (proj1 (Forall_lookup _ _) Hchunks _ _ Hc) as [Hb Hty Hks].
  unfold key_values. apply Forall2_fmap_2, Forall_Forall2_diag. eapply Forall_impl; [exact Hks|]. intros k [Hwt Hv].
  destruct (Evaluate_key_vec k c) as (v & _ & Hw & Ht & Hrow); [done|by rewrite Hty| |].
  { eapply Forall_impl; [exact Hv|]. intros x (y & Hy & _). by exists y. }
  rewrite (Hrow r.2 Hi). cbn [from_option id].
  assert (not_nan (dv_row v r.2)) as Hnn.
  { unfold chunk_rows in Hv. rewrite Forall_fmap in Hv. destruct (proj1 (Forall_lookup _ _) Hv r.2 r.2) as (x & Hx & Hn);
      [by rewrite lookup_seq_lt|]. simpl in Hx. rewrite (Hrow r.2 Hi) in Hx. by injection Hx as ->. }
  destruct (dv_row_view v r.2 Hw) as [Hn Hd|z Hn Hs He Hd|z Hn Hs He Hd|z Hn Hs He Hd]; rewrite Hd in *; simpl;
    rewrite <- ?Ht; done.
Qed.

Lemma before_order : strict_total (sql_before F sort_keys asc chunks) (in_rows chunks).
Proof. apply sql_before_order. apply key_values_dom. Qed.

Lemma less_row_order keys : key_matrix F sort_keys chunks keys -> strict_total (less_row keys asc) (in_rows chunks).
Proof.
  intros Hm. pose proof before_order as [H1 H2 H3].
  assert (forall a b, in_rows chunks a -> in_rows chunks b -> less_row keys asc a b = sql_before F sort_keys asc chunks a b) as E
    by (intros; by apply less_row_before).
  split.
  - intros x Hx. rewrite E by done. by apply H1.
  - intros x y z Hx Hy Hz. rewrite !E by done. by apply H2.
  - intros x y Hx Hy Hne. rewrite !E by done. by apply H3.
Qed.

Lemma all_rows_in : Forall (in_rows chunks) (all_rows chunks).
Proof. apply Forall_forall. intros r. apply elem_of_all_rows. Qed.

(** The sorted list of all rows, against the order of SQL. *)
Lemma stable_sort_rows keys :
  key_matrix F sort_keys chunks keys ->
  StronglySorted (fun a b => sql_before F sort_keys asc chunks a b = true) (stable_sort (less_row keys asc) (all_rows chunks)).
Proof.
  intros Hm. pose proof (stable_sort_sorted _ _ (less_row_order keys Hm) _ all_rows_in (NoDup_all_rows chunks)) as Hs.
  assert (Forall (in_rows chunks) (stable_sort (less_row keys asc) (all_rows chunks))) as Hin
    by (rewrite stable_sort_perm; apply all_rows_in).
  induction Hs as [|a l Hs IH Ha]; [constructor|]. apply Forall_cons in Hin as [Hia Hin]. constructor; [by apply IH|].
  rewrite Forall_forall in Ha, Hin. apply Forall_forall. intros b Hb. rewrite <- (less_row_before F sort_keys chunks keys) by auto.
  by apply Ha.
Qed.

End sorting_rows.

(** ** The copy of the input *)

Lemma copy_column_rows v :
  dv_wf v -> dv_full v -> exists w, copy_column v = Ok w /\ dv_wf w /\ dv_type w = dv_type v /\
    dv_count w = dv_count v /\ forall i, i < dv_count v -> dv_row w i = dv_row v i.
Proof.
  intros [Hst Hc Hcl Hce] Hf. unfold dv_full, copy_column in *.
  assert (forall w, dv_type w = dv_type v -> dv_count w = dv_count v -> validity w = validity v ->
    take (dv_count v) (cells w) = take (dv_count v) (cells v) -> dv_count v <= length (cells w) ->
    dv_wf w /\ dv_type w = dv_type v /\ dv_count w = dv_count v /\ forall i, i < dv_count v -> dv_row w i = dv_row v i) as Hfin.
  { intros w Ht Hcw Hv Htk Hl.
    assert (forall i, IsNull w i = IsNull v i) as Hn by (intros i; unfold IsNull; by rewrite Hv).
    split_and!; try done.
    - split; [congruence|lia| |].
      + intros i Hi. rewrite Hn. apply Hcl. lia.
      + intros i Hi. rewrite Hn in Hi. destruct (decide (i < dv_count v)); [lia|]. rewrite Hcl in Hi by lia. done.
    - intros i Hi. unfold dv_row. rewrite Hn. rewrite <- (lookup_take_lt (cells w) (dv_count v)), Htk, lookup_take_lt by done. done. }
  unfold cells in *. destruct (storage_of (dv_type v)) eqn:E; try done; rewrite ?length_fmap in Hf; rewrite ?decide_True by done;
    eexists; (split; [done|]); apply Hfin; simpl; try done; rewrite E; len; by rewrite <- ?fmap_take, ?take_take, ?Nat.min_id.
Qed.

(** The buffer with one more chunk. *)
Definition add_chunk (buf : SortBuffer) (c : DataChunk) : SortBuffer :=
  mkSortBuffer (sort_chunks buf ++ [c]) (key_vecs buf) (sorted_order buf) (sorted buf).

Lemma Sort_Consume_rows buf c :
  batch_ok c -> 0 < ch_count c -> Forall dv_full (columns c) ->
  exists c', Sort_Consume buf c = Ok (add_chunk buf c') /\ batch_ok c' /\ col_types c' = col_types c /\ chunk_rows c' = chunk_rows c.
Proof.
  intros [Hwf Hn] H0 Hf. unfold Sort_Consume. rewrite decide_False by lia.
  destruct (mapM_r_Forall2 copy_column (fun v w => dv_count v = ch_count c /\ dv_wf w /\ dv_type w = dv_type v /\ dv_count w = dv_count v /\
    forall i, i < dv_count v -> dv_row w i = dv_row v i) (columns c)) as (cols & -> & Hcols).
  { apply Forall_lookup. intros k v Hv. destruct (proj1 (Forall_lookup _ _) Hwf k v Hv) as [Hw Hc].
    destruct (copy_column_rows v Hw (proj1 (Forall_lookup _ _) Hf k v Hv)) as (w & -> & Hr). by exists w. }
  cbn [mbind result_bind]. exists (mkChunk cols (ch_count c)). split_and!; [done|split; [|done]| |].
  - unfold chunk_wf. simpl. clear -Hcols. induction Hcols as [|v w vs ws (Hc & Hw & _ & Hcw & _) _ IH]; constructor; [split; [done|congruence]|done].
  - unfold col_types. simpl. clear -Hcols. induction Hcols as [|v w vs ws (_ & _ & Ht & _) _ IH]; [done|]. by rewrite !fmap_cons, IH, Ht.
  - unfold chunk_rows. simpl. apply list_fmap_ext. intros i j Hij. apply lookup_seq in Hij as [-> Hi].
    unfold row_at. simpl. clear -Hcols Hi. induction Hcols as [|v w vs ws (Hc & _ & _ & _ & Hr) _ IH]; [done|].
    rewrite !fmap_cons, IH, Hr by lia. done.
Qed.

(** Every batch of a pipeline that ends in the sort. *)
Lemma Sort_Consume_all F types sort_keys cs buf :
  Forall (fun c => 0 < ch_count c /\ Forall dv_full (columns c) /\ sortable F types sort_keys c) cs ->
  exists buf', foldM Sort_Consume buf cs = Ok buf' /\ stream_rows (sort_chunks buf') = stream_rows (sort_chunks buf) ++ stream_rows cs /\
    (Forall (sortable F types sort_keys) (sort_chunks buf) -> Forall (sortable F types sort_keys) (sort_chunks buf')).
Proof.
  intros Hcs. revert buf. induction Hcs as [|c cs (Hc & Hf & Hs) _ IH]; intros buf; cbn [foldM].
  { exists buf. by rewrite app_nil_r. }
  destruct Hs as [Hb Ht Hk]. destruct (Sort_Consume_rows buf c Hb Hc Hf) as (c' & -> & Hb' & Ht' & Hr'). cbn [mbind result_bind].
  destruct (IH (add_chunk buf c')) as (buf' & -> & Hrows & Hall). exists buf'. split; [done|]. split.
  - rewrite Hrows. unfold stream_rows, add_chunk. cbn [sort_chunks]. rewrite fmap_app, concat_app. simpl. by rewrite Hr', app_nil_r, <- app_assoc.
  - intros Hbuf. apply Hall. unfold add_chunk. cbn [sort_chunks]. apply Forall_app. split; [done|]. constructor; [|done].
    split; [done|congruence|by rewrite Hr'].
Qed.

(** ** The source *)

Section source.
Context (buf : SortBuffer) (types : list TypeId).
Hypothesis Hsorted : sorted buf = true.
Hypothesis Hchunks : Forall (fun c => batch_ok c /\ col_types c = types) (sort_chunks buf).
Hypothesis Horder : Forall (in_rows (sort_chunks buf)) (sorted_order buf).

Lemma emit_row_rows cols n r :
  batch_ok (mkChunk cols n) -> dv_type <$> cols = types -> n < STANDARD_VECTOR_SIZE -> in_rows (sort_chunks buf) r ->
  exists cols', emit_row (sort_chunks buf) cols r = Ok cols' /\ batch_ok (mkChunk cols' (S n)) /\ dv_type <$> cols' = types /\
    chunk_rows (mkChunk cols' (S n)) = chunk_rows (mkChunk cols n) ++ [row_of (sort_chunks buf) r].
Proof.
  intros [Hwf Hn] Hty Hlt (c & Hc & Hr). unfold emit_row, row_of. rewrite Hc. cbn [of_option mbind result_bind].
  destruct (proj1 (Forall_lookup _ _) Hchunks _ _ Hc) as [[Hcw _] Hct].
  destruct (emit_columns_Ok ((fun col dst => DataVectorAppend dst col r.2) <$> columns c) cols (row_at c r.2)) as (cols' & -> & H3).
  { unfold row_at, col_types, chunk_wf in *. simpl in Hwf. rewrite <- Hct in Hty. clear -Hwf Hty Hcw Hlt Hr. revert cols Hwf Hty.
    induction Hcw as [|v vs [Hv Hvc] _ IH]; intros cols Hwf Hty; destruct cols as [|d ds]; try done; [constructor|].
    rewrite !fmap_cons in *. injection Hty as Ht Hty. apply Forall_cons in Hwf as [[Hd Hdc] Hwf].
    constructor; [|by apply IH]. apply DataVectorAppend_rows; [done|lia|by rewrite Ht|]. apply (dv_wf_readable v r.2 Hv). }
  exists cols'. split; [done|].
  destruct (appended_chunk_rows cols cols' (row_at c r.2) n H3 Hwf) as (Hb & Ht & Hrows); [lia|].
  split_and!; [done|by rewrite Ht|done].
Qed.

Lemma emit_batch first rest batch :
  sort_chunks buf = first :: rest -> Forall (in_rows (sort_chunks buf)) batch -> length batch <= STANDARD_VECTOR_SIZE ->
  exists cols, foldM (emit_row (sort_chunks buf)) (columns (Initialize (col_types first))) batch = Ok cols /\
    (batch_ok (mkChunk cols (length batch)) /\ dv_type <$> cols = types) /\
    chunk_rows (mkChunk cols (length batch)) = row_of (sort_chunks buf) <$> batch.
Proof.
  intros Hf Hin Hlen.
  assert (col_types first = types) as Ht by (rewrite Hf in Hchunks; by apply Forall_cons in Hchunks as [[_ ?] _]).
  assert (Forall (fun t => storage_of t <> SNone) types) as Hst.
  { rewrite Hf in Hchunks. apply Forall_cons in Hchunks as [[[Hw _] <-] _]. unfold col_types. apply Forall_fmap.
    eapply Forall_impl; [exact Hw|]. intros v [Hv _]. apply Hv. }
  destruct (foldM_invariant (fun pre cols => batch_ok (mkChunk cols (length pre)) /\ dv_type <$> cols = types /\
      chunk_rows (mkChunk cols (length pre)) = row_of (sort_chunks buf) <$> pre)
    (emit_row (sort_chunks buf)) (columns (Initialize (col_types first))) batch) as (cols & Hr & Hb & Hct & Hrows).
  - rewrite Ht. split_and!; [|simpl|done].
    + split; [|simpl; unfold STANDARD_VECTOR_SIZE; lia]. unfold chunk_wf. simpl. apply Forall_fmap.
      eapply Forall_impl; [exact Hst|]. intros t Hs. simpl. destruct (Reset0_wf t Hs) as [Hw _].
      split; [done|]. unfold Reset. by destruct (storage_of t).
    + rewrite <- list_fmap_compose. rewrite <- (list_fmap_id types) at 2. apply list_fmap_ext. intros i t Hi. simpl.
      unfold Reset. by destruct (storage_of t).
  - intros pre r cols (Hb & Hty & Hrows) [suf ->]. rewrite length_app in Hlen. simpl in Hlen.
    apply Forall_app in Hin as [_ Hin]. apply Forall_cons in Hin as [Hr _].
    destruct (emit_row_rows cols (length pre) r) as (cols' & He & Hb' & Ht' & Hr'); [done|done|lia|done|].
    exists cols'. rewrite length_app, Nat.add_1_r. split_and!; try done. by rewrite Hr', Hrows, fmap_app.
  - by exists cols.
Qed.

Lemma source_produces idx :
  exists cs, produces (SortSource_GetData buf) idx cs /\ Forall (fun c => (batch_ok c /\ col_types c = types) /\ 0 < ch_count c) cs /\
    stream_rows cs = row_of (sort_chunks buf) <$> drop idx (sorted_order buf).
Proof.
  apply (batched_produces _ _ _ (fun c => batch_ok c /\ col_types c = types)).
  { intros i c Hend Hc. exists c, i. unfold SortSource_GetData. rewrite Hsorted. simpl. by rewrite decide_True. }
  intros i Hi batch.
  assert (exists first rest, sort_chunks buf = first :: rest) as (first & rest & Hf).
  { clear batch. destruct (sorted_order buf) as [|r order]; [simpl in Hi; lia|].
    apply Forall_cons in Horder as [(c & Hc & _) _]. destruct (sort_chunks buf); [done|eauto]. }
  destruct (emit_batch first rest batch Hf) as (cols & He & Hb & Hrows);
    [by apply Forall_take, Forall_drop|unfold batch; rewrite length_take; lia|].
  exists (mkChunk cols (length batch)). split; [exact Hb|]. split; [done|]. intros c0.
  unfold SortSource_GetData. rewrite Hsorted. cbn [negb]. rewrite decide_False by lia.
  rewrite Hf at 1. fold batch. rewrite He. reflexivity.
Qed.

End source.

Lemma all_rows_stream chunks : row_of chunks <$> all_rows chunks = stream_rows chunks.
Proof.
  unfold all_rows, stream_rows. enough (forall pre, row_of (pre ++ chunks) <$>
    concat (imap (fun ci c => pair (length pre + ci) <$> seq 0 (ch_count c)) chunks) = concat (chunk_rows <$> chunks)) as H
    by (apply (H [])).
  induction chunks as [|c chunks IH]; intros pre; [done|]. rewrite imap_cons, fmap_cons. cbn [concat]. rewrite fmap_app. f_equal.
  - rewrite <- list_fmap_compose. unfold chunk_rows. apply list_fmap_ext. intros i j _. unfold row_of. simpl.
    by rewrite Nat.add_0_r, lookup_app_r, Nat.sub_diag by lia.
  - rewrite <- (IH (pre ++ [c])), <- app_assoc. f_equal. f_equal. apply imap_ext. intros i x _. simpl.
    rewrite length_app. simpl. do 2 f_equal. lia.
Qed.

(** ** The order of the rows alone *)

Lemma all_rows_ascending chunks : StronglySorted (fun a b => ref_ltb a b = true) (all_rows chunks).
Proof.
  unfold all_rows. enough (forall off, StronglySorted (fun a b => ref_ltb a b = true)
      (concat (imap (fun ci c => pair (off + ci) <$> seq 0 (ch_count c)) chunks)) /\
    forall r, r ∈ concat (imap (fun ci c => pair (off + ci) <$> seq 0 (ch_count c)) chunks) -> off <= r.1) as H by (apply (H 0)).
  induction chunks as [|c chunks IH]; intros off; simpl; [split; [constructor|by intros r ?%not_elem_of_nil]|].
  destruct (IH (S off)) as [IH1 IH2].
  rewrite (imap_ext _ (fun ci c => pair (S off + ci) <$> seq 0 (ch_count c))) by (intros; simpl; do 2 f_equal; lia).
  rewrite Nat.add_0_r. split.
  - generalize 0 at 1. intros k. generalize (ch_count c). intros n. revert k. induction n as [|n IHn]; intros k; [done|].
    cbn [seq fmap list_fmap app]. constructor; [apply IHn|]. apply Forall_forall. intros r Hr. apply ref_ltb_spec. simpl.
    apply elem_of_app in Hr as [Hr|Hr]; [|apply IH2 in Hr; lia].
    apply list_elem_of_fmap in Hr as (i & -> & Hi). apply elem_of_seq in Hi. simpl. lia.
  - intros r Hr. apply elem_of_app in Hr as [Hr|Hr]; [apply list_elem_of_fmap in Hr as (i & -> & _); simpl; lia|].
    apply IH2 in Hr. lia.
Qed.

(** What [Sort_Finalize] leaves, against sorting the rows themselves: the
    tie-break on positions is what makes the sort of the positions stable. *)
Lemma Sort_Finalize_rows F memory push_heap pop_heap `{!StdHeap push_heap pop_heap} types sort_keys asc top_k buf :
  Forall (sortable F types sort_keys) (sort_chunks buf) -> length sort_keys <= length asc -> reserve memory top_k = Ok tt ->
  exists buf', Sort_Finalize F memory push_heap pop_heap sort_keys asc top_k buf = Ok buf' /\
    sorted buf' = true /\ sort_chunks buf' = sort_chunks buf /\ Forall (in_rows (sort_chunks buf)) (sorted_order buf') /\
    row_of (sort_chunks buf) <$> sorted_order buf' =
      let rows := stable_sort (fun a b => lex asc (key_values F sort_keys a) (key_values F sort_keys b) false) (stream_rows (sort_chunks buf)) in
      if Z.leb 0 top_k then take (Z.to_nat top_k) rows else rows.
Proof.
  intros Hs Hasc Hres. destruct (eval_keys F types sort_keys (sort_chunks buf) Hs) as (keys & Hkeys & Hm).
  unfold Sort_Finalize. rewrite Hkeys, Hres. cbn [mbind result_bind].
  set (full := stable_sort (less_row keys asc) (all_rows (sort_chunks buf))).
  assert ((if Z.eqb top_k 0 then Ok [] else if Z.ltb 0 top_k
    then Ok (stable_sort (less_row keys asc) (top_k_heap push_heap pop_heap (less_row keys asc) (Z.to_nat top_k) (all_rows (sort_chunks buf))))
    else Ok full) = Ok (if Z.leb 0 top_k then take (Z.to_nat top_k) full else full)) as ->.
  { destruct (Z.eqb_spec top_k 0) as [->|]; [done|]. destruct (Z.ltb_spec 0 top_k), (Z.leb_spec 0 top_k); try lia; [|done]. f_equal.
    apply (top_k_sorted push_heap pop_heap _ (in_rows (sort_chunks buf))); [|lia|apply all_rows_in|apply NoDup_all_rows].
    by apply (less_row_order F types sort_keys). }
  cbn [mbind result_bind]. eexists. split; [done|]. cbn [sorted sort_chunks sorted_order]. split; [done|]. split; [done|].
  assert (Forall (in_rows (sort_chunks buf)) full) as Hin by (unfold full; rewrite stable_sort_perm; apply all_rows_in).
  assert (row_of (sort_chunks buf) <$> full =
    stable_sort (fun a b => lex asc (key_values F sort_keys a) (key_values F sort_keys b) false) (stream_rows (sort_chunks buf))) as Hfull.
  { unfold full. rewrite <- all_rows_stream. symmetry. apply (stable_sort_tie _ (fun a b => ref_ltb a b = true)); [apply all_rows_ascending|].
    intros a b Ha Hb Hba. apply elem_of_all_rows in Ha, Hb. rewrite (less_row_before F sort_keys (sort_chunks buf)) by done.
    unfold sql_before. f_equal. symmetry. apply not_true_iff_false. rewrite ref_ltb_spec in Hba |- *. lia. }
  split; [destruct (Z.leb 0 top_k); [by apply Forall_take|done]|]. cbn zeta. rewrite <- Hfull. destruct (Z.leb 0 top_k); [|done]. by rewrite fmap_take.
Qed.

(** ** Theorems *)

(** C13: ORDER BY without a bound gives back the rows of its input, each once,
    in the order of SQL: by the first key that differs, ascending or descending
    as asked, NULLs last, and in input order where all keys agree; the source
    hands them out in batches in that order, when the sort keys are well typed
    and have a value that is not NaN on every row. *)
Theorem order_by_rows F memory push_heap pop_heap types sort_keys asc top_k buf :
  Forall (sortable F types sort_keys) (sort_chunks buf) -> length sort_keys <= length asc -> (top_k < 0)%Z ->
  exists buf' cs, Sort_Finalize F memory push_heap pop_heap sort_keys asc top_k buf = Ok buf' /\
    produces (SortSource_GetData buf') 0 cs /\
    stream_rows cs = row_of (sort_chunks buf) <$> sorted_order buf' /\
    stream_rows cs ≡ₚ stream_rows (sort_chunks buf) /\
    StronglySorted (fun a b => sql_before F sort_keys asc (sort_chunks buf) a b = true) (sorted_order buf').
Proof.
  intros Hs Hasc Hk. destruct (eval_keys F types sort_keys (sort_chunks buf) Hs) as (keys & Hkeys & Hm).
  unfold Sort_Finalize. rewrite Hkeys. cbn [mbind result_bind].
  destruct (Z.eqb_spec top_k 0); [lia|]. destruct (Z.ltb_spec 0 top_k); [lia|]. cbn [mbind result_bind].
  set (buf' := mkSortBuffer _ _ _ _).
  destruct (source_produces buf' types eq_refl) with (idx := 0) as (cs & Hp & _ & Hr).
  - cbn [sort_chunks buf']. eapply Forall_impl; [exact Hs|]. intros c [Hb Ht _]. done.
  - cbn [sorted_order sort_chunks buf']. rewrite stable_sort_perm. apply all_rows_in.
  - rewrite drop_0 in Hr. exists buf', cs. split_and!; try done.
    + rewrite Hr. cbn [sorted_order sort_chunks buf']. rewrite stable_sort_perm. by rewrite all_rows_stream.
    + by apply (stable_sort_rows F types).
Qed.

Definition sample_sort_keys : list LogicalExpr := [BoundColumnRef INT64 0 "a"; BoundColumnRef VARCHAR 1 "s"].
Definition sample_buffer : SortBuffer := mkSortBuffer [sample_chunk; sample_chunk] [] [] false.

Lemma sample_sortable : Forall (sortable sample_FPU [INT64; VARCHAR] sample_sort_keys) (sort_chunks sample_buffer).
Proof.
  repeat (apply Forall_cons; split; [split; [split; [apply sample_chunk_wf|vm_compute; lia]|reflexivity|
    repeat (apply Forall_cons; split; [split; [reflexivity|
      repeat (apply Forall_cons; split; [eexists; split; [vm_compute; reflexivity|done]|]); apply Forall_nil_2]|]);
    apply Forall_nil_2]|]). apply Forall_nil_2.
Qed.

Lemma order_by_rows_witness :
  exists buf' cs, Sort_Finalize sample_FPU 1000 sorted_push_heap sorted_pop_heap sample_sort_keys [false; true] (-1) sample_buffer = Ok buf' /\
    produces (SortSource_GetData buf') 0 cs /\
    stream_rows cs = row_of (sort_chunks sample_buffer) <$> sorted_order buf' /\
    stream_rows cs ≡ₚ stream_rows (sort_chunks sample_buffer) /\
    StronglySorted (fun a b => sql_before sample_FPU sample_sort_keys [false; true] (sort_chunks sample_buffer) a b = true)
      (sorted_order buf').
Proof.
  apply (order_by_rows sample_FPU 1000 sorted_push_heap sorted_pop_heap [INT64; VARCHAR] sample_sort_keys [false; true] (-1) sample_buffer);
    [apply sample_sortable|simpl; lia|lia].
Defined.

(** C14: when the heap of top_k rows can be reserved, the bounded heap of ORDER
    BY with LIMIT computes the same rows as sorting everything and taking the
    first top_k, for every implementation of the heap functions of the standard
    library; when it cannot, because top_k exceeds the largest size of a vector
    or the memory there is, the sort fails with std::length_error or
    std::bad_alloc, however few rows there are. The sort keys have values that
    are not NaN. *)
Theorem top_k_prefix F memory push_heap pop_heap `{!StdHeap push_heap pop_heap} types sort_keys asc top_k buf :
  Forall (sortable F types sort_keys) (sort_chunks buf) -> length sort_keys <= length asc -> (0 <= top_k)%Z ->
  exists full, Sort_Finalize F memory push_heap pop_heap sort_keys asc (-1) buf = Ok full /\
    match reserve memory top_k with
    | Ok _ => exists top, Sort_Finalize F memory push_heap pop_heap sort_keys asc top_k buf = Ok top /\
        sorted_order top = take (Z.to_nat top_k) (sorted_order full)
    | Err e => Sort_Finalize F memory push_heap pop_heap sort_keys asc top_k buf = Err e
    end.
Proof.
  intros Hs Hasc Hk. destruct (eval_keys F types sort_keys (sort_chunks buf) Hs) as (keys & Hkeys & Hm).
  unfold Sort_Finalize. rewrite Hkeys. cbn [mbind result_bind]. eexists. split; [done|]. cbn [sorted_order].
  destruct (Z.eqb_spec top_k 0) as [->|].
  { unfold reserve. change (Z.ltb MAX_PAIRS 0) with false. cbn iota. destruct (Z.ltb_spec (Z.of_N memory) 0); [lia|]. by eexists. }
  destruct (Z.ltb_spec 0 top_k); [|lia]. destruct (reserve memory top_k) as [u|err]; [|done]. eexists. split; [done|]. cbn [sorted_order].
  apply (top_k_sorted push_heap pop_heap _ (in_rows (sort_chunks buf))); [|lia|apply all_rows_in|apply NoDup_all_rows].
  by apply (less_row_order F types sort_keys).
Qed.

Lemma top_k_prefix_witness :
  (exists full, Sort_Finalize sample_FPU 1000 sorted_push_heap sorted_pop_heap sample_sort_keys [false; true] (-1) sample_buffer = Ok full /\
    exists top, Sort_Finalize sample_FPU 1000 sorted_push_heap sorted_pop_heap sample_sort_keys [false; true] 3 sample_buffer = Ok top /\
      sorted_order top = take 3 (sorted_order full)) /\
  Sort_Finalize sample_FPU 1000 sorted_push_heap sorted_pop_heap sample_sort_keys [false; true] INT64_MAX sample_buffer = Err StdLengthError.
Proof.
  split.
  - apply (top_k_prefix sample_FPU 1000 sorted_push_heap sorted_pop_heap [INT64; VARCHAR] sample_sort_keys [false; true] 3 sample_buffer);
      [apply sample_sortable|simpl; lia|lia].
  - destruct (top_k_prefix sample_FPU 1000 sorted_push_heap sorted_pop_heap [INT64; VARCHAR] sample_sort_keys [false; true] INT64_MAX sample_buffer)
      as (full & _ & Htop); [apply sample_sortable|simpl; lia|unfold INT64_MAX; lia|exact Htop].
Defined.

Example sample_order :
  sorted_order <$> Sort_Finalize sample_FPU 1000 sorted_push_heap sorted_pop_heap sample_sort_keys [false; true] 3 sample_buffer
  = Ok [(0, 2); (1, 2); (0, 0)].
Proof. vm_compute. reflexivity. Qed.
