(* ===== verification/Aggregate.v ===== *)
(** * Hash aggregation

    [execution/aggregate_hash_table.cpp], [operator/physical_hash_aggregation.cpp]
    and [operator/physical_aggregation_source.cpp]: GROUP BY as a sink that
    accumulates groups in a hash table with chained buckets, and a source that
    emits one row per group.  The pointers of the table ([buckets_] and
    [AggEntry::next]) are indices into [entry_pool_], which owns the entries.

    The claim is that the source emits what SQL says of the rows the sink has
    consumed: one row per group in the order of first appearance, with the
    values of the aggregates over the rows of the group; the chains, the
    doubling of the table and the fast path without GROUP BY do not show.  It
    holds as long as no grouping key and no result is NULL; the claims that
    follow show what happens then, which is that of [HashJoin]: a typed NULL is
    the integer 0. *)

From Stdlib Require Import ZArith String.
From stdpp Require Import base gmap strings list fin_maps sorting.
From S2P Require Import Prelude Types Double Expr Operators PartitionInfo HashJoin Pipeline Sorting Sort.

(** ** The accumulators *)

Record AggregateState : Type := mkAggState {
  agg_count : Z;
  agg_sum : Z;
  min_val : Value;
  max_val : Value;
  min_set : bool;
  max_set : bool;
}.

Definition AggregateState_init : AggregateState :=
  mkAggState 0 0 (Value_Null INVALID) (Value_Null INVALID) false false.

Definition incr_count (n : Z) (st : AggregateState) : AggregateState :=
  mkAggState (agg_count st + n) (agg_sum st) (min_val st) (max_val st) (min_set st) (max_set st).

(** [VectorGetValue] *)
Definition VectorGetValue (vec : DataVector) (i : nat) : result Value :=
  if IsNull vec i then Ok (Value_Null (dv_type vec))
  else match dv_type vec with
       | BOOLEAN => z ← int_at vec i; Ok (Value_Boolean (negb (Z.eqb z 0)))
       | INT8 | INT16 | INT32 | INT64 => z ← int_at vec i; Ok (mkValue (dv_type vec) (VInt z))
       | FLOAT32 | FLOAT64 => b ← float_at vec i; Ok (mkValue (dv_type vec) (VDouble b))
       | VARCHAR => s ← str_at vec i; Ok (Value_Varchar s)
       | INVALID => Ok (Value_Null INVALID)
       end.

Section aggregate.
Context (F : FPU) (H : Hashes).

(** [AggUpdate]; a counter of rows does not reach the end of [int64_t]. *)
Definition AggUpdate (state : AggregateState) (func : AggFunc) (val_vec : DataVector) (row_idx : nat)
    : result AggregateState :=
  if IsNull val_vec row_idx then Ok state
  else match func with
       | COUNT => Ok (incr_count 1 state)
       | SUM | AVG =>
           v ← double_at val_vec row_idx;
           Ok (incr_count 1 (mkAggState (agg_count state) (f64_add F (agg_sum state) v)
                               (min_val state) (max_val state) (min_set state) (max_set state)))
       | MIN =>
           v ← VectorGetValue val_vec row_idx;
           smaller ← (if negb (min_set state) then Ok true else Value_lt v (min_val state));
           Ok (incr_count 1 (if smaller : bool
                             then mkAggState (agg_count state) (agg_sum state) v (max_val state) true (max_set state)
                             else state))
       | MAX =>
           v ← VectorGetValue val_vec row_idx;
           greater ← (if negb (max_set state) then Ok true else Value_lt (max_val state) v);
           Ok (incr_count 1 (if greater : bool
                             then mkAggState (agg_count state) (agg_sum state) (min_val state) v (min_set state) true
                             else state))
       end.

(** [AggFinalize] *)
Definition AggFinalize (state : AggregateState) (func : AggFunc) (result_type : TypeId) : result Value :=
  match func with
  | COUNT => Ok (Value_Integer (agg_count state))
  | SUM =>
      if Z.eqb (agg_count state) 0 then Ok (Value_Null result_type)
      else if is_float result_type then Ok (Value_Float (agg_sum state))
      else z ← of_option UndefinedBehaviour (f64_to_i64 (agg_sum state)); Ok (Value_Integer z)
  | AVG =>
      if Z.eqb (agg_count state) 0 then Ok (Value_Null FLOAT64)
      else Ok (Value_Float (f64_div F (agg_sum state) (f64_of_i64 (agg_count state))))
  | MIN => Ok (if min_set state then min_val state else Value_Null result_type)
  | MAX => Ok (if max_set state then max_val state else Value_Null result_type)
  end.

(** ** The hash table *)

Record AggEntry : Type := mkAggEntry {
  group_key : list Value;
  agg_states : list AggregateState;
  next : option nat;
}.

Record AggregateHashTable : Type := mkAggHT {
  num_aggregates : nat;
  capacity : nat;
  buckets : list (option nat);
  entry_pool : list AggEntry;
}.

(** The constructor; the default capacity of the declaration is 256. *)
Definition AggregateHashTable_new (num_aggregates initial_capacity : nat) : AggregateHashTable :=
  mkAggHT num_aggregates initial_capacity (replicate initial_capacity None) [].

(** [num_groups_] counts the entries of the pool. *)
Definition EntryCount (ht : AggregateHashTable) : nat := length (entry_pool ht).

(** [ForEach]: the callback may change the entries it is given. *)
Definition ForEach (ht : AggregateHashTable) (fn : AggEntry -> AggEntry) : AggregateHashTable :=
  mkAggHT (num_aggregates ht) (capacity ht) (buckets ht) (fn <$> entry_pool ht).

(** [HashGroupKey(key) & (capacity_ - 1)]; the mixing is the one of the join. *)
Definition HashGroupKey (key : list Value) : result Z := HashKey H key.
Definition bucket_of (cap : nat) (key : list Value) : result nat :=
  h ← HashGroupKey key; Ok (Z.to_nat (Z.land h (Z.of_nat cap - 1))).

(** [operator==] of [std::vector<Value>]. *)
Definition group_key_eq (a b : list Value) : result bool :=
  if decide (length a = length b) then keys_equal a b else Ok false.

Definition set_next (p : option nat) (e : AggEntry) : AggEntry := mkAggEntry (group_key e) (agg_states e) p.

(** The walk along a chain; [fuel] bounds its length. *)
Fixpoint find_chain (fuel : nat) (pool : list AggEntry) (key : list Value) (p : option nat) : result (option nat) :=
  match fuel, p with
  | _, None => Ok None
  | O, Some _ => Err UndefinedBehaviour
  | S fuel, Some i =>
      e ← of_option UndefinedBehaviour (pool !! i);
      eq ← group_key_eq (group_key e) key;
      if eq : bool then Ok (Some i) else find_chain fuel pool key (next e)
  end.

(** One iteration of the loop of [Resize]. *)
Definition relink (cap : nat) (st : list (option nat) * list AggEntry) (i : nat)
    : result (list (option nat) * list AggEntry) :=
  let '(bs, pool) := st in
  e ← of_option UndefinedBehaviour (pool !! i);
  h ← bucket_of cap (group_key e);
  p ← of_option UndefinedBehaviour (bs !! h);
  Ok (<[h := Some i]> bs, <[i := set_next p e]> pool).

Definition Resize (ht : AggregateHashTable) : result AggregateHashTable :=
  let cap := capacity ht * 2 in
  '(bs, pool) ← foldM (relink cap) (replicate cap None, entry_pool ht) (seq 0 (length (entry_pool ht)));
  Ok (mkAggHT (num_aggregates ht) cap bs pool).

(** [FindOrCreate]: the table and the index of the entry it points to. *)
Definition FindOrCreate (ht : AggregateHashTable) (key : list Value) : result (AggregateHashTable * nat) :=
  h ← bucket_of (capacity ht) key;
  p ← of_option UndefinedBehaviour (buckets ht !! h);
  found ← find_chain (S (length (entry_pool ht))) (entry_pool ht) key p;
  match found with
  | Some i => Ok (ht, i)
  | None =>
      let raw := length (entry_pool ht) in
      let entry := mkAggEntry key (replicate (num_aggregates ht) AggregateState_init) p in
      let ht := mkAggHT (num_aggregates ht) (capacity ht) (<[h := Some raw]> (buckets ht)) (entry_pool ht ++ [entry]) in
      ht ← (if decide (capacity ht * 3 / 4 < EntryCount ht) then Resize ht else Ok ht);
      Ok (ht, raw)
  end.

(** ** The sink *)

Record HashAggregation : Type := mkHashAgg {
  group_exprs : list LogicalExpr;
  aggr_exprs : list LogicalExpr;
}.

(** The argument vector of an aggregate; the static cast to [LogicalAggrExpr]
    and the dereference of [arg] are undefined on anything else. *)
Definition eval_arg (input : DataChunk) (a : LogicalExpr) : result DataVector :=
  match a with
  | LogicalAggrExpr _ _ is_star arg =>
      if is_star : bool then Ok DV_default
      else e ← of_option UndefinedBehaviour arg; Evaluate F e input
  | _ => Err UndefinedBehaviour
  end.

(** [entry->agg_states[j]] for [j] from 0, one update each. *)
Fixpoint update_states (upds : list (AggregateState -> result AggregateState)) (sts : list AggregateState)
    : result (list AggregateState) :=
  match upds, sts with
  | [], sts => Ok sts
  | u :: upds, st :: sts => st ← u st; sts ← update_states upds sts; Ok (st :: sts)
  | _ :: _, [] => Err UndefinedBehaviour
  end.

Definition update_entry (ht : AggregateHashTable) (i : nat) (upds : list (AggregateState -> result AggregateState))
    : result AggregateHashTable :=
  e ← of_option UndefinedBehaviour (entry_pool ht !! i);
  sts ← update_states upds (agg_states e);
  Ok (mkAggHT (num_aggregates ht) (capacity ht) (buckets ht)
        (<[i := mkAggEntry (group_key e) sts (next e)]> (entry_pool ht))).

(** One aggregate of one row. *)
Definition update_row (row : nat) (a : LogicalExpr) (vec : DataVector) (st : AggregateState) : result AggregateState :=
  match a with
  | LogicalAggrExpr _ func is_star _ => if is_star : bool then Ok (incr_count 1 st) else AggUpdate st func vec row
  | _ => Err UndefinedBehaviour
  end.

(** One aggregate of all rows of a batch. *)
Definition update_batch (n : nat) (a : LogicalExpr) (vec : DataVector) (st : AggregateState) : result AggregateState :=
  match a with
  | LogicalAggrExpr _ func is_star _ =>
      if is_star : bool then Ok (incr_count (Z.of_nat n) st)
      else foldM (fun st row => AggUpdate st func vec row) st (seq 0 n)
  | _ => Err UndefinedBehaviour
  end.

(** The body of the row loop of the general path. *)
Definition consume_row (aggrs : list LogicalExpr) (group_vecs agg_vecs : list DataVector) (ht : AggregateHashTable)
    (row : nat) : result AggregateHashTable :=
  key ← mapM_r (fun v => VectorGetValue v row) group_vecs;
  '(ht, i) ← FindOrCreate ht key;
  update_entry ht i (zip_with (update_row row) aggrs agg_vecs).

(** [PhysicalHashAggregation::Consume] *)
Definition Agg_Consume (op : HashAggregation) (ht : AggregateHashTable) (input : DataChunk) : result AggregateHashTable :=
  if decide (ch_count input = 0) then Ok ht
  else match group_exprs op with
       | [] =>
           agg_vecs ← mapM_r (eval_arg input) (aggr_exprs op);
           '(ht, i) ← FindOrCreate ht [];
           update_entry ht i (zip_with (update_batch (ch_count input)) (aggr_exprs op) agg_vecs)
       | _ :: _ =>
           group_vecs ← mapM_r (fun e => Evaluate F e input) (group_exprs op);
           agg_vecs ← mapM_r (eval_arg input) (aggr_exprs op);
           foldM (consume_row (aggr_exprs op) group_vecs agg_vecs) ht (seq 0 (ch_count input))
       end.

(** ** The source *)

Record AggregationSource : Type := mkAggSource {
  num_group_cols : nat;
  agg_funcs : list AggFunc;
  agg_result_types : list TypeId;
  agg_output_types : list TypeId;
}.

(** [AggFinalize] of state [j] appended to an output column. *)
Definition emit_agg (states : list AggregateState) (j : nat) (f : AggFunc) (t : TypeId) (dst : DataVector)
    : result DataVector :=
  st ← of_option UndefinedBehaviour (states !! j);
  v ← AggFinalize st f t; DataVectorAppendValue dst v.

Definition emit_key (key : list Value) (k : nat) (dst : DataVector) : result DataVector :=
  v ← of_option UndefinedBehaviour (key !! k); DataVectorAppendValue dst v.

Definition agg_writers (src : AggregationSource) (states : list AggregateState) : list (DataVector -> result DataVector) :=
  imap (fun j f dst => t ← of_option UndefinedBehaviour (agg_result_types src !! j); emit_agg states j f t dst) (agg_funcs src).

Definition emit_entry (src : AggregationSource) (cols : list DataVector) (e : AggEntry) : result (list DataVector) :=
  emit_columns ((emit_key (group_key e) <$> seq 0 (num_group_cols src)) ++ agg_writers src (agg_states e)) cols.

(** [PhysicalAggregationSource::GetData]; the state is [entry_idx]. *)
Definition AggSource_GetData (src : AggregationSource) (ht : AggregateHashTable) (entry_idx : nat) (output : DataChunk)
    : result (OperatorResultType * DataChunk * nat) :=
  let output := Initialize (agg_output_types src) in
  let n := EntryCount ht in
  if decide (num_group_cols src = 0 /\ n = 0 /\ entry_idx = 0) then
    cols ← emit_columns (agg_writers src (replicate (length (agg_funcs src)) AggregateState_init)) (columns output);
    Ok (FINISHED, mkChunk cols 1, 1)
  else
    let batch := take STANDARD_VECTOR_SIZE (drop entry_idx (entry_pool ht)) in
    cols ← foldM (emit_entry src) (columns output) batch;
    let entry_idx := entry_idx + length batch in
    Ok (if decide (n <= entry_idx) then FINISHED else HAVE_MORE_OUTPUT, mkChunk cols (length batch), entry_idx).

End aggregate.

(** ** The reference semantics of GROUP BY *)

Section semantics.
Context (F : FPU).

(** The key of a row; a NULL leaves it undefined. *)
Definition group_key_of (gs : list LogicalExpr) (r : sql_row) : option (list Value) :=
  mapM (fun e => x ← eval_row F e r; c ← x; Some (cell_value (type_of e) c)) gs.

(** Rows with a key join the first group with it, or open a new one. *)
Fixpoint insert_group (k : list Value) (new : list sql_row) (groups : list (list Value * list sql_row))
    : list (list Value * list sql_row) :=
  match groups with
  | [] => [(k, new)]
  | (k', rs) :: groups =>
      if keys_eqb k' k then (k', rs ++ new) :: groups else (k', rs) :: insert_group k new groups
  end.

Definition group_rows (gs : list LogicalExpr) (rows : list sql_row) : list (list Value * list sql_row) :=
  foldl (fun groups r => insert_group (default [] (group_key_of gs r)) [r] groups) [] rows.

(** Without GROUP BY there is one group, of no row when there is none. *)
Definition sql_groups (gs : list LogicalExpr) (rows : list sql_row) : list (list Value * list sql_row) :=
  match gs, rows with [], [] => [([], [])] | _, _ => group_rows gs rows end.

(** The values of an argument that are not NULL. *)
Definition arg_cells (arg : option LogicalExpr) (rs : list sql_row) : list cell :=
  match arg with Some e => omap (fun r => x ← eval_row F e r; x) rs | None => [] end.

Definition least (cs : list cell) : option cell :=
  foldl (fun m c => Some (match m with Some m => if cell_ltb c m then c else m | None => c end)) None cs.
Definition greatest (cs : list cell) : option cell :=
  foldl (fun m c => Some (match m with Some m => if cell_ltb m c then c else m | None => c end)) None cs.

(** The sum in the order of the rows, in doubles. *)
Definition cells_sum (cs : list cell) : Z :=
  foldl (fun s c => f64_add F s (default 0%Z (double_of c))) 0%Z cs.

(** The outer option is definedness, the inner one SQL's NULL. *)
Definition agg_cell (a : LogicalExpr) (rs : list sql_row) : option (option cell) :=
  match a with
  | LogicalAggrExpr rt func is_star arg =>
      if is_star : bool then Some (Some (CInt (Z.of_nat (length rs))))
      else
        let cs := arg_cells arg rs in
        match func with
        | COUNT => Some (Some (CInt (Z.of_nat (length cs))))
        | SUM =>
            match cs with
            | [] => Some None
            | _ => if is_float rt then Some (Some (CFloat (cells_sum cs)))
                   else z ← f64_to_i64 (cells_sum cs); Some (Some (CInt z))
            end
        | AVG =>
            match cs with
            | [] => Some None
            | _ => Some (Some (CFloat (f64_div F (cells_sum cs) (f64_of_i64 (Z.of_nat (length cs))))))
            end
        | MIN => Some (least cs)
        | MAX => Some (greatest cs)
        end
  | _ => None
  end.

Definition group_row (aggs : list LogicalExpr) (g : list Value * list sql_row) : option sql_row :=
  cs ← mapM (fun a => agg_cell a g.2) aggs; Some (right_cells g.1 ++ cs).

Definition aggregate_rows (gs aggs : list LogicalExpr) (rows : list sql_row) : option (list sql_row) :=
  mapM (group_row aggs) (sql_groups gs rows).

End semantics.

(** ** Keys *)

Lemma keys_eqb_sym a b : keys_eqb a b = keys_eqb b a.
Proof. revert b. induction a as [|x a IH]; intros [|y b]; simpl; try done. by rewrite Value_eqb_sym, IH. Qed.

Lemma keys_eqb_congr a b c : keys_eqb a b = true -> keys_eqb a c = keys_eqb b c.
Proof.
  revert b c. induction a as [|x a IH]; intros [|y b] [|z c]; simpl; try done.
  rewrite andb_true_iff. intros [Hxy Hab]. by rewrite (Value_eqb_congr x y z Hxy), (IH b c Hab).
Qed.

Lemma keys_eqb_join a b k : keys_eqb a k = true -> keys_eqb b k = true -> keys_eqb a b = true.
Proof. intros Ha Hb. by rewrite (keys_eqb_congr a k b Ha), keys_eqb_sym. Qed.

Lemma keys_eqb_length a b : keys_eqb a b = true -> length a = length b.
Proof. revert b. induction a as [|x a IH]; intros [|y b]; simpl; try done. rewrite andb_true_iff. intros [_ Hab]. by rewrite (IH b). Qed.

Lemma group_key_eq_eqb a b : Forall Value_wf a -> Forall Value_wf b -> group_key_eq a b = Ok (keys_eqb a b).
Proof.
  intros Ha Hb. unfold group_key_eq. case_decide as E; [by apply keys_equal_eqb|].
  destruct (keys_eqb a b) eqn:Ek; [|done]. apply keys_eqb_length in Ek. done.
Qed.

(** Groups with different keys. *)
Definition distinct_keys (keys : list (list Value)) : Prop :=
  forall i j a b, keys !! i = Some a -> keys !! j = Some b -> keys_eqb a b = true -> i = j.

Lemma insert_group_at k new groups i k' rs :
  distinct_keys groups.*1 -> groups !! i = Some (k', rs) -> keys_eqb k' k = true ->
  insert_group k new groups = <[i := (k', rs ++ new)]> groups.
Proof.
  revert i. induction groups as [|[k0 rs0] groups IH]; intros i Hd Hi Hk; [done|].
  destruct i as [|i]; simpl in Hi; cbn [insert_group].
  - injection Hi as -> ->. by rewrite Hk.
  - destruct (keys_eqb k0 k) eqn:E0.
    + specialize (Hd 0 (S i) k0 k' eq_refl). rewrite fmap_cons in Hd. simpl in Hd. rewrite list_lookup_fmap, Hi in Hd.
      specialize (Hd eq_refl (keys_eqb_join _ _ _ E0 Hk)). lia.
    + simpl. f_equal. apply IH; [|done|done]. intros j1 j2 a b H1 H2 Hab.
      specialize (Hd (S j1) (S j2) a b H1 H2 Hab). lia.
Qed.

Lemma insert_group_new k new groups :
  Forall (fun g => keys_eqb g.1 k = false) groups -> insert_group k new groups = groups ++ [(k, new)].
Proof. induction 1 as [|[k0 rs0] groups Hk _ IH]; [done|]. simpl in *. by rewrite Hk, IH. Qed.

Lemma distinct_keys_snoc keys k :
  distinct_keys keys -> Forall (fun k' => keys_eqb k' k = false) keys -> distinct_keys (keys ++ [k]).
Proof.
  intros Hd Hn i j a b Hi Hj Hab. rewrite !lookup_app in Hi, Hj.
  assert (forall i a, keys !! i = Some a -> keys_eqb a k = false) as Hno by (intros ? ? ?; by eapply (proj1 (Forall_lookup _ _) Hn)).
  destruct (keys !! i) as [a'|] eqn:Ei, (keys !! j) as [b'|] eqn:Ej; simplify_eq.
  - by eapply Hd.
  - apply list_lookup_singleton_Some in Hj as [_ <-]. rewrite (Hno i a) in Hab by done. done.
  - apply list_lookup_singleton_Some in Hi as [_ <-]. rewrite keys_eqb_sym, (Hno j b) in Hab by done. done.
  - apply list_lookup_singleton_Some in Hi as [Hi _]. apply list_lookup_singleton_Some in Hj as [Hj _].
    apply lookup_ge_None in Ei, Ej. lia.
Qed.

(** ** Chains *)

(** The chain from [p] visits the entries [l]. *)
Inductive linked (pool : list AggEntry) : option nat -> list nat -> Prop :=
  | linked_nil : linked pool None []
  | linked_cons i e l : pool !! i = Some e -> linked pool (next e) l -> linked pool (Some i) (i :: l).

(** Entries outside the chain do not matter. *)
Lemma linked_ext pool pool' p l :
  linked pool p l -> (forall i, i ∈ l -> pool' !! i = pool !! i) -> linked pool' p l.
Proof.
  induction 1 as [|i e l He _ IH]; intros Hext; [constructor|].
  econstructor; [rewrite Hext; [exact He|by left]|]. apply IH. intros j Hj. apply Hext. by right.
Qed.

Section table.
Context (H : Hashes).

(** Bucket [h] of the first [m] entries, latest first. *)
Definition chain_ok (cap m : nat) (pool : list AggEntry) (h : nat) (p : option nat) : Prop :=
  exists l, linked pool p l /\ NoDup l /\
    forall i, i ∈ l <-> i < m /\ exists e, pool !! i = Some e /\ bucket_of H cap (group_key e) = Ok h.

Definition chains_ok (cap m : nat) (bs : list (option nat)) (pool : list AggEntry) : Prop :=
  length bs = cap /\ forall h p, bs !! h = Some p -> chain_ok cap m pool h p.

Lemma land_le a k : (0 <= a)%Z -> (Z.land k a <= a)%Z.
Proof.
  intros Ha. rewrite Z.land_comm.
  assert (Z.land (Z.ldiff a k) (Z.land a k) = 0%Z) as Hd.
  { rewrite (Z.land_comm a k), Z.land_assoc, Z.land_ldiff. apply Z.land_0_l. }
  pose proof (Z.lor_ldiff_and a k) as Hor. rewrite <- Z.lxor_lor in Hor by done. rewrite <- Z.add_nocarry_lxor in Hor by done.
  assert (0 <= Z.ldiff a k)%Z by (apply Z.ldiff_nonneg; by left). lia.
Qed.

Lemma bucket_of_Ok cap key : 0 < cap -> Forall Value_wf key -> exists h, bucket_of H cap key = Ok h /\ h < cap.
Proof.
  intros Hc Hk. destruct (HashKey_Ok H key Hk) as [z Hz]. unfold bucket_of, HashGroupKey. rewrite Hz. simpl.
  eexists. split; [done|]. pose proof (land_le (Z.of_nat cap - 1) z ltac:(lia)).
  assert (0 <= Z.land z (Z.of_nat cap - 1))%Z by (apply Z.land_nonneg; lia). lia.
Qed.

Lemma bucket_of_congr `{!HashLaws H} cap a b :
  Forall Value_wf a -> Forall Value_wf b -> keys_eqb a b = true -> bucket_of H cap a = bucket_of H cap b.
Proof. intros Ha Hb Hab. unfold bucket_of, HashGroupKey. by rewrite (HashKey_congr H a b). Qed.

(** Entry [m] is put in front of the chain of its bucket. *)
Lemma chains_link cap m bs pool e h :
  0 < cap -> chains_ok cap m bs pool -> pool !! m = Some e -> bucket_of H cap (group_key e) = Ok h -> h < cap ->
  exists p, bs !! h = Some p /\ chains_ok cap (S m) (<[h := Some m]> bs) (<[m := set_next p e]> pool).
Proof.
  intros Hc [Hl Hch] He Hb Hh. assert (h < length bs) as Hhl by lia.
  destruct (lookup_lt_is_Some_2 bs h Hhl) as [p Hp]. exists p. split; [done|].
  assert (m < length pool) as Hm by by eapply lookup_lt_Some.
  assert (forall i e', i <> m -> <[m := set_next p e]> pool !! i = Some e' <-> pool !! i = Some e') as Hother
    by (intros i e' Hi; by rewrite list_lookup_insert_ne).
  assert (<[m := set_next p e]> pool !! m = Some (set_next p e)) as Hnew by by rewrite list_lookup_insert_eq.
  split; [by rewrite length_insert|]. intros h' p' Hp'.
  destruct (decide (h' = h)) as [->|Hne].
  - rewrite list_lookup_insert_eq in Hp' by done. injection Hp' as <-.
    destruct (Hch h p Hp) as (l & Hlk & Hnd & Hin). exists (m :: l). split_and!.
    + econstructor; [done|]. simpl. eapply linked_ext; [done|]. intros i Hi. apply Hin in Hi as [Hi _].
      rewrite list_lookup_insert_ne by lia. done.
    + constructor; [|done]. intros Hm'. apply Hin in Hm' as [? _]. lia.
    + intros i. rewrite elem_of_cons, Hin. split.
      * intros [->|(Hi & e' & He' & Hbe)]; [split; [lia|by eexists]|]. split; [lia|]. exists e'. rewrite Hother by lia. done.
      * intros (Hi & e' & He' & Hbe). destruct (decide (i = m)) as [->|Hne]; [by left|]. right. split; [lia|].
        exists e'. rewrite Hother in He' by lia. done.
  - rewrite list_lookup_insert_ne in Hp' by done. destruct (Hch h' p' Hp') as (l & Hlk & Hnd & Hin). exists l. split_and!.
    + eapply linked_ext; [done|]. intros i Hi. apply Hin in Hi as [Hi _]. rewrite list_lookup_insert_ne by lia. done.
    + done.
    + intros i. rewrite Hin. split.
      * intros (Hi & e' & He' & Hbe). split; [lia|]. exists e'. rewrite Hother by lia. done.
      * intros (Hi & e' & He' & Hbe). destruct (decide (i = m)) as [->|Hne'].
        { rewrite Hnew in He'. injection He' as <-. simpl in Hbe. congruence. }
        split; [lia|]. exists e'. rewrite Hother in He' by lia. done.
Qed.

(** The walk finds an entry with the key of the chain, if there is one. *)
Lemma find_chain_spec fuel pool key p l :
  linked pool p l -> length l < fuel -> Forall Value_wf key -> Forall (fun e => Forall Value_wf (group_key e)) pool ->
  exists found, find_chain fuel pool key p = Ok found /\
    match found with
    | Some i => i ∈ l /\ exists e, pool !! i = Some e /\ keys_eqb (group_key e) key = true
    | None => forall i e, i ∈ l -> pool !! i = Some e -> keys_eqb (group_key e) key = false
    end.
Proof.
  intros Hl Hf Hk Hp. revert fuel Hf. induction Hl as [|i e l He _ IH]; intros fuel Hf.
  { exists None. split; [by destruct fuel|]. intros i e Hi. by apply elem_of_nil in Hi. }
  destruct fuel as [|fuel]; [simpl in Hf; lia|]. cbn [find_chain]. rewrite He. cbn [of_option mbind result_bind].
  rewrite group_key_eq_eqb by (done || by eapply (proj1 (Forall_lookup _ _) Hp)). cbn [mbind result_bind].
  destruct (keys_eqb (group_key e) key) eqn:Ek.
  - exists (Some i). split; [done|]. split; [by left|]. by exists e.
  - destruct (IH fuel) as (found & -> & Hfound); [simpl in Hf; lia|]. exists found. split; [done|].
    destruct found as [j|]; [destruct Hfound as [Hj ?]; split; [by right|done]|].
    intros j e' Hj He'. apply elem_of_cons in Hj as [->|Hj]; [congruence|]. by apply (Hfound j).
Qed.

(** ** The invariant of the table *)

Record table_ok (ht : AggregateHashTable) : Prop := {
  to_cap : 0 < capacity ht;
  to_chains : chains_ok (capacity ht) (EntryCount ht) (buckets ht) (entry_pool ht);
  to_keys : Forall (fun e => Forall Value_wf (group_key e)) (entry_pool ht);
}.

(** What an entry holds besides its link. *)
Definition entry_data (e : AggEntry) : list Value * list AggregateState := (group_key e, agg_states e).

Lemma set_next_data p e : entry_data (set_next p e) = entry_data e.
Proof. done. Qed.

Lemma insert_same_data (pool : list AggEntry) i e e' :
  pool !! i = Some e -> entry_data e' = entry_data e -> entry_data <$> <[i := e']> pool = entry_data <$> pool.
Proof.
  intros He Hd. rewrite list_fmap_insert, Hd. apply list_insert_id. by rewrite list_lookup_fmap, He.
Qed.

Lemma keys_of_data (pool pool' : list AggEntry) :
  entry_data <$> pool = entry_data <$> pool' -> Forall (fun e => Forall Value_wf (group_key e)) pool ->
  Forall (fun e => Forall Value_wf (group_key e)) pool'.
Proof.
  intros Hd Hf. change (Forall ((fun d => Forall Value_wf d.1) ∘ entry_data) pool') .
  rewrite <- Forall_fmap, <- Hd, Forall_fmap. done.
Qed.

Lemma chains_empty cap pool : chains_ok cap 0 (replicate cap None) pool.
Proof.
  split; [by rewrite length_replicate|]. intros h p Hp. apply lookup_replicate in Hp as [-> _].
  exists []. split_and!; [constructor|constructor|]. intros i. split; [by intros ?%elem_of_nil|intros [? _]; lia].
Qed.

Lemma new_table_ok n cap : 0 < cap -> table_ok (AggregateHashTable_new n cap).
Proof. intros Hc. split; [done|apply chains_empty|constructor]. Qed.

Lemma Resize_ok ht :
  0 < capacity ht -> Forall (fun e => Forall Value_wf (group_key e)) (entry_pool ht) ->
  exists ht', Resize H ht = Ok ht' /\ table_ok ht' /\ num_aggregates ht' = num_aggregates ht /\
    entry_data <$> entry_pool ht' = entry_data <$> entry_pool ht.
Proof.
  intros Hc Hk. unfold Resize. set (cap := capacity ht * 2).
  destruct (foldM_invariant (fun pre st => chains_ok cap (length pre) st.1 st.2 /\
      entry_data <$> st.2 = entry_data <$> entry_pool ht)
    (relink H cap) (replicate cap None, entry_pool ht) (seq 0 (length (entry_pool ht)))) as ([bs pool] & Hr & Hch & Hd).
  - split; [apply chains_empty|done].
  - intros pre i [bs pool] [Hch Hd] [suf Hs]. simpl in Hch, Hd.
    assert (i = length pre /\ i < length (entry_pool ht)) as [Hi Hlt].
    { assert (seq 0 (length (entry_pool ht)) !! length pre = Some i) as Hl by (rewrite Hs; by apply list_lookup_middle).
      apply lookup_seq in Hl as [-> ?]. lia. }
    assert (i < length pool) as Hip by (apply (f_equal length) in Hd; rewrite !length_fmap in Hd; lia).
    destruct (lookup_lt_is_Some_2 pool i Hip) as [e He].
    pose proof (keys_of_data _ pool (eq_sym Hd) Hk) as Hkp.
    destruct (bucket_of_Ok cap (group_key e)) as (h & Hh & Hhc); [lia|by eapply (proj1 (Forall_lookup _ _) Hkp)|].
    rewrite <- Hi in Hch. destruct (chains_link cap i bs pool e h) as (p & Hp & Hch'); [lia|done..|].
    eexists. unfold relink. rewrite He. cbn [of_option mbind result_bind]. rewrite Hh. cbn [mbind result_bind].
    rewrite Hp. split; [reflexivity|]. simpl. rewrite length_app, Nat.add_1_r, <- Hi. split; [done|].
    rewrite (insert_same_data pool i e) by done. done.
  - rewrite Hr. simpl in Hch, Hd |- *. eexists. split; [done|]. rewrite length_seq in Hch.
    assert (length pool = length (entry_pool ht)) as Hlen by (apply (f_equal length) in Hd; by rewrite !length_fmap in Hd).
    split_and!; try done. split; simpl; [lia|unfold EntryCount; simpl; by rewrite Hlen|by eapply keys_of_data].
Qed.

(** The chain a key is looked up in: it holds the entry with the key, if the
    table has one. *)
Lemma find_in_table `{!HashLaws H} ht key :
  table_ok ht -> Forall Value_wf key ->
  exists h p found, bucket_of H (capacity ht) key = Ok h /\ h < capacity ht /\ buckets ht !! h = Some p /\
    find_chain (S (length (entry_pool ht))) (entry_pool ht) key p = Ok found /\
    match found with
    | Some i => exists e, entry_pool ht !! i = Some e /\ keys_eqb (group_key e) key = true
    | None => Forall (fun e => keys_eqb (group_key e) key = false) (entry_pool ht)
    end.
Proof.
  intros [Hc [Hl Hch] Hk] Hkey. destruct (bucket_of_Ok (capacity ht) key Hc Hkey) as (h & Hh & Hlt).
  destruct (lookup_lt_is_Some_2 (buckets ht) h) as [p Hp]; [lia|].
  destruct (Hch h p Hp) as (l & Hlk & Hnd & Hin).
  assert (length l <= length (entry_pool ht)) as Hlen.
  { rewrite <- (length_seq (length (entry_pool ht)) 0). apply submseteq_length, NoDup_submseteq; [done|].
    intros i Hi. apply Hin in Hi as [Hi _]. apply elem_of_seq. unfold EntryCount in Hi. lia. }
  destruct (find_chain_spec (S (length (entry_pool ht))) (entry_pool ht) key p l) as (found & Hf & Hspec); [done|lia|done..|].
  exists h, p, found. split_and!; try done. destruct found as [i|]; [naive_solver|].
  apply Forall_lookup. intros i e He. destruct (keys_eqb (group_key e) key) eqn:Ek; [|done].
  rewrite <- Ek. apply (Hspec i); [|done]. apply Hin. split; [by eapply lookup_lt_Some|].
  exists e. split; [done|]. rewrite <- Hh. apply bucket_of_congr; [by eapply (proj1 (Forall_lookup _ _) Hk)|done|done].
Qed.

(** The key is found where the reference finds it, or a group is added. *)
Lemma FindOrCreate_ok `{!HashLaws H} ht key :
  table_ok ht -> Forall Value_wf key ->
  exists ht' i, FindOrCreate H ht key = Ok (ht', i) /\ table_ok ht' /\ num_aggregates ht' = num_aggregates ht /\
    ((entry_data <$> entry_pool ht' = entry_data <$> entry_pool ht /\
      exists e, entry_pool ht !! i = Some e /\ keys_eqb (group_key e) key = true) \/
     (i = EntryCount ht /\ Forall (fun e => keys_eqb (group_key e) key = false) (entry_pool ht) /\
      entry_data <$> entry_pool ht' = (entry_data <$> entry_pool ht) ++
        [(key, replicate (num_aggregates ht) AggregateState_init)])).
Proof.
  intros Hok Hkey. destruct (find_in_table ht key Hok Hkey) as (h & p & found & Hh & Hlt & Hp & Hf & Hspec).
  unfold FindOrCreate. rewrite Hh. cbn [mbind result_bind]. rewrite Hp. cbn [of_option mbind result_bind]. rewrite Hf.
  cbn [mbind result_bind]. destruct found as [i|].
  { exists ht, i. split_and!; try done. left. by split. }
  destruct Hok as [Hc Hch Hk]. set (entry := mkAggEntry _ _ _). set (pool := entry_pool ht ++ [entry]).
  assert (pool !! length (entry_pool ht) = Some entry) as He by (unfold pool; by rewrite list_lookup_middle).
  assert (chains_ok (capacity ht) (length (entry_pool ht)) (buckets ht) pool) as Hch0.
  { destruct Hch as [Hl Hch]. split; [done|]. intros h' p' Hp'. destruct (Hch h' p' Hp') as (l & Hlk & Hnd & Hin).
    exists l. split_and!; [|done|].
    - eapply linked_ext; [done|]. intros i Hi. apply Hin in Hi as [Hi _]. unfold pool. by rewrite lookup_app_l.
    - intros i. rewrite Hin. unfold pool. split; intros (Hi & e & Hie & Hbe); (split; [done|]); exists e;
        rewrite lookup_app_l in * by done; done. }
  destruct (chains_link (capacity ht) (length (entry_pool ht)) (buckets ht) pool entry h) as (p' & Hp' & Hch'); [done..|].
  rewrite Hp in Hp'. injection Hp' as <-.
  rewrite (list_insert_id pool) in Hch' by exact He.
  assert (Forall (fun e => Forall Value_wf (group_key e)) pool) as Hkp by (apply Forall_app; split; [done|by repeat constructor]).
  set (ht1 := mkAggHT _ _ _ pool).
  assert (table_ok ht1) as Hok1.
  { split; simpl; [done| |done]. unfold EntryCount. simpl. unfold pool. rewrite length_app, Nat.add_1_r. done. }
  assert (entry_data <$> pool = (entry_data <$> entry_pool ht) ++ [(key, replicate (num_aggregates ht) AggregateState_init)]) as Hd
    by (unfold pool; by rewrite fmap_app).
  case_decide.
  - destruct (Resize_ok ht1) as (ht' & Hr & Hok' & Hna & Hd'); [done|done|]. rewrite Hr. cbn [mbind result_bind].
    exists ht', (length (entry_pool ht)). split_and!; try done. right. split_and!; try done. rewrite Hd'. done.
  - exists ht1, (length (entry_pool ht)). split_and!; try done. right. by split_and!.
Qed.

(** Updating the accumulators of an entry leaves the table as it is. *)
Lemma update_entry_ok ht i e upds sts :
  table_ok ht -> entry_pool ht !! i = Some e -> update_states upds (agg_states e) = Ok sts ->
  exists ht', update_entry ht i upds = Ok ht' /\ table_ok ht' /\ num_aggregates ht' = num_aggregates ht /\
    entry_data <$> entry_pool ht' = <[i := (group_key e, sts)]> (entry_data <$> entry_pool ht).
Proof.
  intros [Hc [Hl Hch] Hk] He Hu. unfold update_entry. rewrite He. cbn [of_option mbind result_bind]. rewrite Hu.
  set (e' := mkAggEntry (group_key e) sts (next e)).
  eexists. split; [reflexivity|]. split_and!; [|done|simpl; by rewrite list_fmap_insert].
  assert (i < length (entry_pool ht)) as Hi by by eapply lookup_lt_Some.
  assert (forall j, (exists a, <[i := e']> (entry_pool ht) !! j = Some a /\
             (exists a', entry_pool ht !! j = Some a' /\ group_key a = group_key a' /\ next a = next a')) \/
           (<[i := e']> (entry_pool ht) !! j = None /\ entry_pool ht !! j = None)) as Hsame.
  { intros j. destruct (decide (j = i)) as [->|Hne].
    - left. exists e'. rewrite list_lookup_insert_eq by done. split; [done|]. by exists e.
    - rewrite list_lookup_insert_ne by done. destruct (entry_pool ht !! j) as [a|] eqn:Ea; [left|by right].
      exists a. split; [done|]. by exists a. }
  split; simpl; [done| |].
  - split; [done|]. intros h p Hp. destruct (Hch h p Hp) as (l & Hlk & Hnd & Hin). exists l. split_and!; [|done|].
    + clear -Hlk Hsame. induction Hlk as [|j a l Ha _ IH]; [constructor|].
      destruct (Hsame j) as [(b & Hb & a' & Ha' & _ & Hn)|[_ Hnone]]; [|congruence].
      rewrite Ha in Ha'. injection Ha' as <-. econstructor; [exact Hb|]. by rewrite Hn.
    + intros j. rewrite Hin. unfold EntryCount. simpl. rewrite length_insert. split; intros (Hj & a & Ha & Hb); (split; [done|]).
      * destruct (Hsame j) as [(b & Hb' & a' & Ha' & Hg & _)|[_ Hnone]]; [|by rewrite Hnone in Ha].
        exists b. split; [done|]. rewrite Hg. by simplify_eq.
      * fold e' in Ha. destruct (Hsame j) as [(b & Hb' & a' & Ha' & Hg & _)|[Hnone _]]; [|by rewrite Hnone in Ha].
        exists a'. split; [done|]. rewrite <- Hg. rewrite Hb' in Ha. by simplify_eq.
  - apply Forall_insert; [done|]. simpl. by eapply (proj1 (Forall_lookup _ _) Hk).
Qed.

End table.

(** ** Accumulators as functions of the values seen *)

Section states.
Context (F : FPU).

Definition value_of (t : TypeId) (m : option cell) : Value :=
  match m with Some c => cell_value t c | None => Value_Null INVALID end.

(** The accumulator of a function after the values [cs] that are not NULL. *)
Definition state_after (func : AggFunc) (t : TypeId) (cs : list cell) : AggregateState :=
  let n := Z.of_nat (length cs) in
  match func with
  | COUNT => mkAggState n 0 (Value_Null INVALID) (Value_Null INVALID) false false
  | SUM | AVG => mkAggState n (cells_sum F cs) (Value_Null INVALID) (Value_Null INVALID) false false
  | MIN => mkAggState n 0 (value_of t (least cs)) (Value_Null INVALID) (bool_decide (is_Some (least cs))) false
  | MAX => mkAggState n 0 (Value_Null INVALID) (value_of t (greatest cs)) false (bool_decide (is_Some (greatest cs)))
  end.

Lemma state_after_nil func t : state_after func t [] = AggregateState_init.
Proof. by destruct func. Qed.

Lemma Value_lt_cells t x y :
  cell_fits t x -> cell_fits t y -> Value_lt (cell_value t x) (cell_value t y) = Ok (cell_ltb x y).
Proof.
  intros Hx Hy. unfold Value_lt.
  destruct (cell_value_spec t x Hx) as (_ & Htx & Hnx & _). destruct (cell_value_spec t y Hy) as (_ & Hty & _).
  rewrite Hnx, Htx, Hty, bool_decide_true by done. cbn [negb].
  destruct x as [a|a|a], y as [b|b|b]; simpl in Hx, Hy; destruct t; try naive_solver; cbn.
Qed.

Lemma VectorGetValue_cell v i c :
  dv_wf v -> dv_row v i = Some c -> VectorGetValue v i = Ok (cell_value (dv_type v) c).
Proof.
  intros Hwf Hr. rewrite <- (ExtractValue_cell v i c) by done. unfold VectorGetValue, ExtractValue.
  pose proof (wf_storage _ Hwf). by destruct (IsNull v i), (dv_type v).
Qed.

Lemma double_at_cell v i c :
  dv_wf v -> dv_row v i = Some c -> is_numeric (dv_type v) = true -> double_at v i = Ok (default 0%Z (double_of c)).
Proof.
  intros Hwf Hr Hnum. unfold double_at, is_float.
  destruct (dv_row_view v i Hwf) as [Hn Hd|z Hn Hs Ha Hd|z Hn Hs Ha Hd|z Hn Hs Ha Hd]; rewrite Hd in Hr; simplify_eq;
    unfold is_numeric in Hnum; destruct (dv_type v); try done; by rewrite Ha.
Qed.

Lemma least_snoc cs c :
  least (cs ++ [c]) = Some (match least cs with Some m => if cell_ltb c m then c else m | None => c end).
Proof. unfold least. by rewrite foldl_snoc. Qed.

Lemma greatest_snoc cs c :
  greatest (cs ++ [c]) = Some (match greatest cs with Some m => if cell_ltb m c then c else m | None => c end).
Proof. unfold greatest. by rewrite foldl_snoc. Qed.

(** The extremes are among the values. *)
Lemma least_elem cs m : least cs = Some m -> m ∈ cs.
Proof.
  revert m. induction cs as [|c cs IH] using rev_ind; intros m; [done|]. rewrite least_snoc. intros [= <-].
  destruct (least cs) as [x|] eqn:E; [|set_solver]. destruct (cell_ltb c x); [set_solver|].
  apply elem_of_app. left. by apply IH.
Qed.

Lemma greatest_elem cs m : greatest cs = Some m -> m ∈ cs.
Proof.
  revert m. induction cs as [|c cs IH] using rev_ind; intros m; [done|]. rewrite greatest_snoc. intros [= <-].
  destruct (greatest cs) as [x|] eqn:E; [|set_solver]. destruct (cell_ltb x c); [set_solver|].
  apply elem_of_app. left. by apply IH.
Qed.

(** [AggUpdate] appends the value of the row. *)
Lemma AggUpdate_after func v i cs :
  dv_wf v -> Forall (cell_fits (dv_type v)) cs -> (forall c, dv_row v i = Some c -> cell_fits (dv_type v) c) ->
  (func = SUM \/ func = AVG -> is_numeric (dv_type v) = true) ->
  AggUpdate F (state_after func (dv_type v) cs) func v i =
  Ok (state_after func (dv_type v) (cs ++ option_list (dv_row v i))).
Proof.
  intros Hwf Hcs Hfit Hnum. unfold AggUpdate.
  assert (forall c : cell, Z.of_nat (length (cs ++ [c])) = (Z.of_nat (length cs) + 1)%Z) as Hlen
    by (intros c; rewrite length_app; simpl; lia).
  destruct (dv_row v i) as [c|] eqn:Hr; cbn.
  2: { rewrite app_nil_r. destruct (IsNull v i) eqn:En; [done|]. destruct (dv_row_some v i Hwf En). congruence. }
  assert (IsNull v i = false) as ->.
  { unfold dv_row in Hr. by destruct (IsNull v i). }
  specialize (Hfit c eq_refl). unfold state_after, incr_count.
  destruct func; cbn [agg_count agg_sum min_val max_val min_set max_set].
  - by rewrite Hlen.
  - rewrite (double_at_cell v i c) by auto. simpl. rewrite Hlen. unfold cells_sum. by rewrite foldl_snoc.
  - rewrite (VectorGetValue_cell v i c) by done. cbn [mbind result_bind]. rewrite least_snoc.
    rewrite (bool_decide_true (is_Some (Some _))) by eauto.
    destruct (least cs) as [m|] eqn:Em; cbn [value_of].
    + rewrite bool_decide_true by eauto. cbn [negb]. rewrite Value_lt_cells.
      * cbn [mbind result_bind]. rewrite Hlen. by destruct (cell_ltb c m).
      * done.
      * apply (proj1 (Forall_forall _ _) Hcs). by apply least_elem.
    + rewrite bool_decide_false by (by intros [? ?]). cbn [negb mbind result_bind]. by rewrite Hlen.
  - rewrite (VectorGetValue_cell v i c) by done. cbn [mbind result_bind]. rewrite greatest_snoc.
    rewrite (bool_decide_true (is_Some (Some _))) by eauto.
    destruct (greatest cs) as [m|] eqn:Em; cbn [value_of].
    + rewrite bool_decide_true by eauto. cbn [negb]. rewrite Value_lt_cells.
      * cbn [mbind result_bind]. rewrite Hlen. by destruct (cell_ltb m c).
      * apply (proj1 (Forall_forall _ _) Hcs). by apply greatest_elem.
      * done.
    + rewrite bool_decide_false by (by intros [? ?]). cbn [negb mbind result_bind]. by rewrite Hlen.
  - rewrite (double_at_cell v i c) by auto. simpl. rewrite Hlen. unfold cells_sum. by rewrite foldl_snoc.
Qed.

End states.

(** ** The sink against the reference *)

Lemma group_rows_none F gs rows : gs = [] -> group_rows F gs rows = match rows with [] => [] | _ => [([], rows)] end.
Proof.
  intros ->. unfold group_rows. induction rows as [|r rows IH] using rev_ind; [done|]. rewrite foldl_snoc, IH. simpl.
  by destruct rows.
Qed.

Section sink.
Context (F : FPU) (H : Hashes) `{!HashLaws H} (gs aggs : list LogicalExpr) (types : list TypeId).

(** The typing of the aggregates of a plan. *)
Definition agg_ok (a : LogicalExpr) : Prop :=
  match a with
  | LogicalAggrExpr rt func is_star arg =>
      if is_star : bool then func = COUNT /\ rt = INT64
      else exists e, arg = Some e /\ well_typed types e = true /\
        match func with
        | COUNT => rt = INT64
        | SUM => is_numeric (type_of e) = true /\ is_int_type rt || is_float_type rt = true
        | AVG => is_numeric (type_of e) = true /\ rt = FLOAT64
        | MIN | MAX => rt = type_of e
        end
  | _ => False
  end.

(** On a row every key has a value, and the arguments are defined; the cells
    of a BOOLEAN expression are 0 and 1. *)
Definition key_fits (r : sql_row) (e : LogicalExpr) : Prop :=
  exists c, eval_row F e r = Some (Some c) /\ cell_fits (type_of e) c.
Definition arg_fits (r : sql_row) (a : LogicalExpr) : Prop :=
  match a with
  | LogicalAggrExpr _ _ false (Some e) =>
      exists x, eval_row F e r = Some x /\ forall c, x = Some c -> cell_fits (type_of e) c
  | _ => True
  end.
Definition row_ok (r : sql_row) : Prop := Forall (key_fits r) gs /\ Forall (arg_fits r) aggs.

Hypothesis Haggs : Forall agg_ok aggs.

(** The accumulator of an aggregate after the rows of a group. *)
Definition agg_state (a : LogicalExpr) (rs : list sql_row) : AggregateState :=
  match a with
  | LogicalAggrExpr _ func is_star arg =>
      if is_star : bool then incr_count (Z.of_nat (length rs)) AggregateState_init
      else state_after F func (match arg with Some e => type_of e | None => INVALID end) (arg_cells F arg rs)
  | _ => AggregateState_init
  end.

Lemma agg_state_nil a : agg_state a [] = AggregateState_init.
Proof. destruct a as [| | | | |rt f st arg]; try done. simpl. destruct st; [done|]. destruct arg; apply state_after_nil. Qed.

(** The argument vector of an aggregate on a batch. *)
Definition arg_vec (c : DataChunk) (a : LogicalExpr) (v : DataVector) : Prop :=
  match a with
  | LogicalAggrExpr _ _ false (Some e) =>
      dv_wf v /\ dv_type v = type_of e /\ forall i, i < ch_count c -> eval_row F e (row_at c i) = Some (dv_row v i)
  | _ => True
  end.

Lemma Evaluate_rows_at c e :
  batch_ok c -> well_typed (col_types c) e = true -> defined_on F e c ->
  exists v, Evaluate F e c = Ok v /\ dv_wf v /\ dv_type v = type_of e /\
    forall i, i < ch_count c -> eval_row F e (row_at c i) = Some (dv_row v i).
Proof.
  intros [Hwf Hn] Ht Hd. destruct (defined_mapM _ _ _ Hd) as [vals Hv].
  pose proof (Evaluate_agrees F e c Hwf Hn Ht) as Hag. rewrite Hv in Hag. destruct Hag as (v & Hev & Hvec).
  rewrite mapM_chunk_rows in Hv. destruct (vec_is_rows _ _ _ _ _ Hv Hvec) as (Hw & Htv & _ & Hrow). by exists v.
Qed.

(** What is assumed of an input batch. *)
Definition agg_input (c : DataChunk) : Prop := batch_ok c /\ col_types c = types /\ Forall row_ok (chunk_rows c).

Lemma eval_args c : agg_input c -> exists vecs, mapM_r (eval_arg F c) aggs = Ok vecs /\ Forall2 (arg_vec c) aggs vecs.
Proof.
  intros (Hb & Ht & Hrows). apply mapM_r_Forall2. apply Forall_forall. intros a Ha.
  pose proof (proj1 (Forall_forall _ _) Haggs a Ha) as Hok.
  destruct a as [| | | | |rt f st arg]; try done. simpl in Hok. destruct st; [by exists DV_default|].
  destruct Hok as (e & -> & Hwt & _). simpl.
  destruct (Evaluate_rows_at c e) as (v & Hv & Hspec); [done|by rewrite Ht| |by exists v].
  eapply Forall_impl; [exact Hrows|]. intros r [_ Hargs]. destruct (proj1 (Forall_forall _ _) Hargs _ Ha) as (x & Hx & _). by exists x.
Qed.

Lemma arg_cells_fit rt f e rs :
  LogicalAggrExpr rt f false (Some e) ∈ aggs -> Forall row_ok rs ->
  Forall (cell_fits (type_of e)) (arg_cells F (Some e) rs).
Proof.
  intros Ha Hrs. apply Forall_forall. intros c Hc. apply list_elem_of_omap in Hc as (r & Hr & Hc).
  destruct (proj1 (Forall_forall _ _) Hrs r Hr) as [_ Hargs].
  destruct (proj1 (Forall_forall _ _) Hargs _ Ha) as (x & Hx & Hfit). rewrite Hx in Hc. simpl in Hc. by apply Hfit.
Qed.

Lemma update_row_ok c i a v rs :
  agg_input c -> i < ch_count c -> a ∈ aggs -> arg_vec c a v -> Forall row_ok rs ->
  update_row F i a v (agg_state a rs) = Ok (agg_state a (rs ++ [row_at c i])).
Proof.
  intros (_ & _ & Hrows) Hi Ha Hv Hrs. pose proof (proj1 (Forall_forall _ _) Haggs a Ha) as Hok.
  destruct a as [| | | | |rt f st arg]; try done. simpl in Hok. cbn [update_row agg_state]. destruct st.
  { unfold incr_count. simpl. rewrite length_app. simpl. do 2 f_equal. lia. }
  destruct Hok as (e & -> & _ & Hty). destruct Hv as (Hwf & Ht & Hrow).
  assert (row_ok (row_at c i)) as [_ Hargs].
  { apply (proj1 (Forall_lookup _ _) Hrows i). unfold chunk_rows. by rewrite list_lookup_fmap, lookup_seq_lt. }
  destruct (proj1 (Forall_forall _ _) Hargs _ Ha) as (x & Hx & Hfit). specialize (Hrow i Hi).
  rewrite Hx in Hrow. injection Hrow as ->.
  rewrite <- Ht. rewrite AggUpdate_after; [|done| |by rewrite Ht|].
  - f_equal. f_equal. unfold arg_cells. rewrite omap_app. f_equal. cbn [omap list_omap]. rewrite Hx. simpl.
    by destruct (dv_row v i).
  - rewrite Ht. by eapply arg_cells_fit.
  - rewrite Ht. intros [-> | ->]; apply Hty.
Qed.

Lemma row_at_ok c i : agg_input c -> i < ch_count c -> row_ok (row_at c i).
Proof.
  intros (_ & _ & Hrows) Hi. apply (proj1 (Forall_lookup _ _) Hrows i). unfold chunk_rows.
  by rewrite list_lookup_fmap, lookup_seq_lt.
Qed.

Lemma update_batch_ok c a v rs :
  agg_input c -> a ∈ aggs -> arg_vec c a v -> Forall row_ok rs ->
  update_batch F (ch_count c) a v (agg_state a rs) = Ok (agg_state a (rs ++ chunk_rows c)).
Proof.
  intros Hin Ha Hv Hrs. pose proof (update_row_ok c) as Hrow.
  destruct a as [| | | | |rt f st arg]; try by (apply (proj1 (Forall_forall _ _) Haggs) in Ha). destruct st.
  { cbn [update_batch agg_state]. unfold incr_count. simpl. rewrite length_app, length_chunk_rows. do 2 f_equal. lia. }
  cbn [update_batch]. unfold chunk_rows.
  destruct (foldM_invariant (fun pre st => st = agg_state (LogicalAggrExpr rt f false arg) (rs ++ (row_at c <$> pre)))
    (fun st row => AggUpdate F st f v row) (agg_state (LogicalAggrExpr rt f false arg) rs) (seq 0 (ch_count c))) as (st & -> & ->).
  - by rewrite fmap_nil, app_nil_r.
  - intros pre i st -> [suf Hs]. eexists. split; [|reflexivity]. rewrite fmap_app, app_assoc.
    assert (Forall (fun j => j < ch_count c) (pre ++ i :: suf)) as Hlt
      by (rewrite <- Hs; apply Forall_forall; intros j Hj; apply elem_of_seq in Hj; lia).
    apply Forall_app in Hlt as [Hpre Hlt]. apply Forall_cons in Hlt as [Hi _].
    apply (Hrow i (LogicalAggrExpr rt f false arg)); [done..|]. apply Forall_app. split; [done|]. apply Forall_fmap.
    eapply Forall_impl; [exact Hpre|]. intros j Hj. by apply row_at_ok.
  - done.
Qed.

Lemma update_states_zip (u : LogicalExpr -> DataVector -> AggregateState -> result AggregateState) (f g : LogicalExpr -> AggregateState) l vs :
  Forall2 (fun a v => u a v (f a) = Ok (g a)) l vs -> update_states (zip_with u l vs) (f <$> l) = Ok (g <$> l).
Proof. induction 1 as [|a v l vs Hu _ IH]; [done|]. rewrite !fmap_cons. cbn [zip_with update_states]. rewrite Hu. simpl. by rewrite IH. Qed.

(** The table holds the groups. *)
Record holds (ht : AggregateHashTable) (groups : list (list Value * list sql_row)) : Prop := {
  ho_ok : table_ok H ht;
  ho_num : num_aggregates ht = length aggs;
  ho_data : entry_data <$> entry_pool ht = (fun g => (g.1, (fun a => agg_state a g.2) <$> aggs)) <$> groups;
  ho_keys : distinct_keys groups.*1;
  ho_rows : Forall (fun g => Forall row_ok g.2) groups;
}.

Lemma holds_keys ht groups : holds ht groups -> group_key <$> entry_pool ht = groups.*1.
Proof.
  intros Hh. pose proof (f_equal (fmap fst) (ho_data _ _ Hh)) as Hd. rewrite <- !list_fmap_compose in Hd.
  exact Hd.
Qed.

Lemma holds_new cap : 0 < cap -> holds (AggregateHashTable_new (length aggs) cap) [].
Proof. intros Hc. split; try done. by apply new_table_ok. Qed.

(** A key is looked up and the rows [new] are accumulated in its entry. *)
Lemma group_step ht groups k new upds :
  holds ht groups -> Forall Value_wf k -> Forall row_ok new ->
  (forall rs, Forall row_ok rs ->
     update_states upds ((fun a => agg_state a rs) <$> aggs) = Ok ((fun a => agg_state a (rs ++ new)) <$> aggs)) ->
  exists ht', ('(ht, i) ← FindOrCreate H ht k; update_entry ht i upds) = Ok ht' /\ holds ht' (insert_group k new groups).
Proof.
  intros Hh Hk Hnew Hu. pose proof (holds_keys ht groups Hh) as Hkeys. destruct Hh as [Hok Hnum Hdata Hdist Hrows].
  destruct (FindOrCreate_ok H ht k Hok Hk) as (ht1 & i & -> & Hok1 & Hnum1 & Hcase). cbn [mbind result_bind].
  set (upd := fun g : list Value * list sql_row => (g.1, (fun a => agg_state a g.2) <$> aggs)) in *.
  destruct Hcase as [[Hd (e & He & Hek)]|(-> & Hnone & Hd)].
  - assert (exists rs, groups !! i = Some (group_key e, rs)) as [rs Hg].
    { pose proof (f_equal (.!! i) Hdata) as Hl. rewrite !list_lookup_fmap, He in Hl. simpl in Hl.
      destruct (groups !! i) as [[k' rs]|]; [|done]. simpl in Hl. exists rs. unfold entry_data, upd in Hl. simpl in Hl. by injection Hl as <- _. }
    assert (exists e1, entry_pool ht1 !! i = Some e1 /\ entry_data e1 = upd (group_key e, rs)) as (e1 & He1 & Hd1).
    { rewrite Hdata in Hd. pose proof (f_equal (.!! i) Hd) as Hl. rewrite !list_lookup_fmap, Hg in Hl. simpl in Hl.
      destruct (entry_pool ht1 !! i) as [e1|]; [|done]. exists e1. split; [done|]. by apply (inj Some) in Hl. }
    injection Hd1 as Hk1 Hs1.
    assert (Forall row_ok rs) as Hrs by apply (proj1 (Forall_lookup _ _) Hrows i _ Hg).
    destruct (update_entry_ok H ht1 i e1 upds ((fun a => agg_state a (rs ++ new)) <$> aggs)) as (ht2 & -> & Hok2 & Hnum2 & Hd2);
      [done|done|by rewrite Hs1, Hu|].
    exists ht2. split; [done|]. rewrite (insert_group_at k new groups i (group_key e) rs) by done. split; [done|congruence| | |].
    + rewrite Hd2, Hd, Hdata, list_fmap_insert, Hk1. done.
    + rewrite list_fmap_insert, list_insert_id; [done|]. by rewrite list_lookup_fmap, Hg.
    + apply Forall_insert; [done|]. simpl. by apply Forall_app.
  - assert (Forall (fun k' => keys_eqb k' k = false) groups.*1) as Hno by (rewrite <- Hkeys; by apply Forall_fmap).
    assert (exists e1, entry_pool ht1 !! EntryCount ht = Some e1 /\ entry_data e1 = (k, replicate (num_aggregates ht) AggregateState_init))
      as (e1 & He1 & Hd1).
    { pose proof (f_equal (.!! EntryCount ht) Hd) as Hl. rewrite list_lookup_fmap in Hl.
      rewrite list_lookup_middle in Hl by (by rewrite length_fmap).
      destruct (entry_pool ht1 !! EntryCount ht) as [e1|]; [|done]. exists e1. split; [done|]. by apply (inj Some) in Hl. }
    injection Hd1 as Hk1 Hs1.
    destruct (update_entry_ok H ht1 (EntryCount ht) e1 upds ((fun a => agg_state a new) <$> aggs)) as (ht2 & -> & Hok2 & Hnum2 & Hd2);
      [done|done| |].
    { rewrite Hs1, Hnum, <- (const_fmap (fun a => agg_state a []) aggs) by (intros; apply agg_state_nil). apply (Hu []). constructor. }
    exists ht2. split; [done|]. rewrite insert_group_new by (by rewrite Forall_fmap in Hno). split; [done|congruence| | |].
    + rewrite Hd2, Hd, Hdata, fmap_app, Hk1. rewrite insert_app_r_alt by (rewrite length_fmap, <- (length_fmap fst), <- Hkeys, length_fmap; done).
      f_equal. rewrite length_fmap, <- (length_fmap fst groups), <- Hkeys, length_fmap. unfold EntryCount. by rewrite Nat.sub_diag.
    + rewrite fmap_app. by apply distinct_keys_snoc.
    + apply Forall_app. split; [done|]. by repeat constructor.
Qed.

Hypothesis Hgs : Forall (fun e => well_typed types e = true) gs.

Lemma row_key r : row_ok r -> exists k, group_key_of F gs r = Some k /\ Forall Value_wf k /\ Forall2 value_fits (type_of <$> gs) k.
Proof.
  intros [Hk _]. unfold group_key_of. clear Hgs Haggs. induction Hk as [|e es (c & Hc & Hfit) _ IH]; [by exists []|].
  destruct IH as (k & Hm & Hwf & Hf). cbn [mapM]. rewrite Hc. simpl. rewrite Hm. eexists. split; [done|].
  destruct (cell_value_spec _ _ Hfit) as (H1 & H2 & H3 & _). split; constructor; done.
Qed.

(** The vectors of the grouping expressions. *)
Lemma eval_groups c :
  agg_input c -> exists vecs, mapM_r (fun e => Evaluate F e c) gs = Ok vecs /\
    forall i, i < ch_count c -> exists k, group_key_of F gs (row_at c i) = Some k /\ mapM_r (fun v => VectorGetValue v i) vecs = Ok k.
Proof.
  intros (Hb & Ht & Hrows). destruct (eval_columns F gs c Hb) as (vecs & Hm & Hv).
  { by rewrite Ht. }
  { apply Forall_forall. intros e He. eapply Forall_impl; [exact Hrows|]. intros r [Hk _].
    destruct (proj1 (Forall_forall _ _) Hk e He) as (x & Hx & _). by eexists. }
  exists vecs. split; [done|]. intros i Hi. destruct (row_at_ok c i) as [Hk _]; [done..|].
  unfold group_key_of. clear -Hv Hk Hi. induction Hv as [|e v es vs (Hw & Htv & _ & Hrow) _ IH]; [by exists []|].
  apply Forall_cons in Hk as [(x & Hx & _) Hk]. destruct (IH Hk) as (k & Hm & Hg).
  specialize (Hrow i Hi). rewrite Hx in Hrow. injection Hrow as Hrow. cbn [mapM mapM_r]. rewrite Hx. simpl. rewrite Hm.
  rewrite (VectorGetValue_cell v i x) by done. simpl. rewrite Hg. rewrite Htv. by eexists.
Qed.

Definition add_row (groups : list (list Value * list sql_row)) (r : sql_row) : list (list Value * list sql_row) :=
  insert_group (default [] (group_key_of F gs r)) [r] groups.

Lemma consume_rows_ok ht groups c gvecs avecs :
  agg_input c -> holds ht groups -> Forall2 (arg_vec c) aggs avecs ->
  (forall i, i < ch_count c -> exists k, group_key_of F gs (row_at c i) = Some k /\ mapM_r (fun v => VectorGetValue v i) gvecs = Ok k) ->
  exists ht', foldM (consume_row F H aggs gvecs avecs) ht (seq 0 (ch_count c)) = Ok ht' /\
    holds ht' (foldl add_row groups (chunk_rows c)).
Proof.
  intros Hin Hh Hav Hgv.
  destruct (foldM_invariant (fun pre ht => holds ht (foldl add_row groups (row_at c <$> pre)))
    (consume_row F H aggs gvecs avecs) ht (seq 0 (ch_count c))) as (ht' & Hf & Hh'); [done| |by exists ht'].
  intros pre i ht0 Hh0 [suf Hs]. assert (i < ch_count c) as Hi.
  { assert (i ∈ seq 0 (ch_count c)) as Hel by (rewrite Hs; set_solver). apply elem_of_seq in Hel. lia. }
  pose proof (row_at_ok c i Hin Hi) as Hok. destruct (Hgv i Hi) as (k & Hk & Hread).
  destruct (row_key _ Hok) as (k' & Hk' & Hwf & _). rewrite Hk in Hk'. injection Hk' as <-.
  unfold consume_row. rewrite Hread. cbn [mbind result_bind]. rewrite fmap_app, foldl_app. simpl.
  unfold add_row at 1. rewrite Hk. apply group_step; [done|done|by constructor|].
  intros rs Hrs. apply update_states_zip. eapply Forall2_impl_in; [exact Hav|]. intros a v Ha Hv. by apply update_row_ok.
Qed.

Lemma Agg_Consume_path ht c :
  Agg_Consume F H (mkHashAgg gs aggs) ht c =
  if decide (ch_count c = 0) then Ok ht
  else if decide (gs = []) then
    agg_vecs ← mapM_r (eval_arg F c) aggs; '(ht, i) ← FindOrCreate H ht [];
    update_entry ht i (zip_with (update_batch F (ch_count c)) aggs agg_vecs)
  else
    group_vecs ← mapM_r (fun e => Evaluate F e c) gs; agg_vecs ← mapM_r (eval_arg F c) aggs;
    foldM (consume_row F H aggs group_vecs agg_vecs) ht (seq 0 (ch_count c)).
Proof. unfold Agg_Consume. cbn [group_exprs aggr_exprs]. clear Hgs. destruct gs; [done|]. case_decide; done. Qed.

(** One batch adds its rows to the groups. *)
Lemma Agg_Consume_ok ht rows c :
  agg_input c -> holds ht (group_rows F gs rows) ->
  exists ht', Agg_Consume F H (mkHashAgg gs aggs) ht c = Ok ht' /\ holds ht' (group_rows F gs (rows ++ chunk_rows c)).
Proof.
  intros Hin Hh. rewrite Agg_Consume_path. case_decide as H0.
  { exists ht. split; [done|]. by rewrite chunk_rows_empty, app_nil_r. }
  destruct (eval_args c Hin) as (avecs & Hav & Hvec).
  case_decide as Eg.
  - rewrite Hav. cbn [mbind result_bind].
    destruct (group_step ht (group_rows F gs rows) [] (chunk_rows c) (zip_with (update_batch F (ch_count c)) aggs avecs)) as (ht' & Hs & Hh').
    + done.
    + constructor.
    + apply Hin.
    + intros rs Hrs. apply update_states_zip. eapply Forall2_impl_in; [exact Hvec|]. intros a v Ha Hv. by apply update_batch_ok.
    + exists ht'. split; [done|]. rewrite group_rows_none in Hh' |- * by done.
      assert (chunk_rows c <> []) as Hne by (intros E; apply (f_equal length) in E; rewrite length_chunk_rows in E; done).
      destruct rows; [simpl in *; by destruct (chunk_rows c)|done].
  - destruct (eval_groups c Hin) as (gvecs & Hgv & Hkeys). rewrite Hgv. cbn [mbind result_bind]. rewrite Hav.
    cbn [mbind result_bind]. destruct (consume_rows_ok ht _ c gvecs avecs Hin Hh Hvec Hkeys) as (ht' & -> & Hh').
    exists ht'. split; [done|]. unfold group_rows. by rewrite foldl_app.
Qed.

Lemma consume_stream cs :
  Forall agg_input cs ->
  exists ht, foldM (Agg_Consume F H (mkHashAgg gs aggs)) (AggregateHashTable_new (length aggs) 256) cs = Ok ht /\
    holds ht (group_rows F gs (stream_rows cs)).
Proof.
  intros Hcs. destruct (foldM_invariant (fun pre ht => holds ht (group_rows F gs (stream_rows pre)))
    (Agg_Consume F H (mkHashAgg gs aggs)) (AggregateHashTable_new (length aggs) 256) cs) as (ht & Hf & Hh).
  - apply holds_new. lia.
  - intros pre c ht Hh [suf ->]. apply Forall_app in Hcs as [_ Hcs]. apply Forall_cons in Hcs as [Hc _].
    destruct (Agg_Consume_ok ht (stream_rows pre) c Hc Hh) as (ht' & Hc' & Hh'). exists ht'. split; [done|].
    unfold stream_rows in *. rewrite fmap_app, concat_app. simpl. by rewrite app_nil_r.
  - by exists ht.
Qed.

End sink.

(** ** The source *)

(** A value that can be appended to a column of type [t]. *)
Definition append_fits (t : TypeId) (v : Value) : Prop :=
  t <> INVALID /\ Value_IsNull v = false /\ Value_wf (mkValue t (data v)).

Lemma value_fits_append t v : value_fits t v -> append_fits t v.
Proof.
  intros (Hw & <- & Hn). split_and!; [|done|by destruct v].
  intros Ht. unfold Value_IsNull in Hn. by rewrite Ht in Hn.
Qed.

Lemma append_value dst v :
  dv_wf dst -> dv_count dst < STANDARD_VECTOR_SIZE -> append_fits (dv_type dst) v ->
  exists dst', DataVectorAppendValue dst v = Ok dst' /\ appended dst dst' (Some (value_cell v)).
Proof.
  intros Hwf Hlt (Ht & Hn & Hw).
  assert (Value_IsNull (mkValue (dv_type dst) (data v)) = false) as Hn'
    by (unfold Value_IsNull; simpl; by rewrite bool_decide_false).
  destruct (DataVectorAppendValue_rows dst (mkValue (dv_type dst) (data v))) as (dst' & Ha & Happ); [done..|].
  exists dst'. split; [|done]. rewrite <- Ha. unfold DataVectorAppendValue. by rewrite Hn, Hn'.
Qed.

(** A row of values appended to the columns of a batch. *)
Lemma emit_values ws cols n ts vals :
  Forall2 (fun w v => forall dst, w dst = DataVectorAppendValue dst v) ws vals ->
  Forall2 append_fits ts vals -> dv_type <$> cols = ts ->
  Forall (fun col => dv_wf col /\ dv_count col = n) cols -> n < STANDARD_VECTOR_SIZE ->
  exists cols', emit_columns ws cols = Ok cols' /\ batch_ok (mkChunk cols' (S n)) /\ dv_type <$> cols' = ts /\
    chunk_rows (mkChunk cols' (S n)) = chunk_rows (mkChunk cols n) ++ [right_cells vals].
Proof.
  intros Hws Hfit Hty Hwf Hn.
  destruct (emit_columns_Ok ws cols (right_cells vals)) as (cols' & He & H3).
  { clear -Hws Hfit Hty Hwf Hn. revert ts cols Hfit Hty Hwf. unfold right_cells.
    induction Hws as [|w v ws vals Hw _ IH]; intros ts cols Hfit Hty Hwf.
    { inversion Hfit; subst. destruct cols; [constructor|done]. }
    subst ts. destruct cols as [|c cols]; [inversion Hfit|]. rewrite !fmap_cons in *. apply Forall2_cons in Hfit as [Hf Hfit].
    apply Forall_cons in Hwf as [[Hc Hcn] Hwf]. constructor; [|by eapply IH]. rewrite Hw. apply append_value; [done|lia|done]. }
  exists cols'. split; [done|]. destruct (appended_chunk_rows cols cols' (right_cells vals) n H3 Hwf) as (Hb & Ht & Hr); [lia|].
  split_and!; [done|congruence|done].
Qed.

Definition agg_func (a : LogicalExpr) : AggFunc := match a with LogicalAggrExpr _ f _ _ => f | _ => COUNT end.

(** The source the planner pairs with the sink. *)
Definition source_of (gs aggs : list LogicalExpr) : AggregationSource :=
  mkAggSource (length gs) (agg_func <$> aggs) (result_type <$> aggs) ((type_of <$> gs) ++ (result_type <$> aggs)).

Section source.
Context (F : FPU) (H : Hashes) (gs aggs : list LogicalExpr) (types : list TypeId).
Hypothesis Haggs : Forall (agg_ok types) aggs.

Local Notation agg_state := (agg_state F).
Local Notation row_ok := (row_ok F gs aggs).

(** Finalising an accumulator gives the aggregate, when that is not NULL. *)
Lemma AggFinalize_cell a rs c :
  a ∈ aggs -> Forall row_ok rs -> agg_cell F a rs = Some (Some c) ->
  exists v, AggFinalize F (agg_state a rs) (agg_func a) (result_type a) = Ok v /\ append_fits (result_type a) v /\ value_cell v = c.
Proof.
  intros Ha Hrs Hc. pose proof (proj1 (Forall_forall _ _) Haggs a Ha) as Hok.
  destruct a as [| | | | |rt f st arg]; try done. cbn [agg_ok agg_cell Aggregate.agg_state agg_func result_type] in *.
  destruct st.
  { destruct Hok as [-> ->]. simplify_eq. eexists. split; [done|]. by split_and!. }
  destruct Hok as (e & -> & Hwt & Hty). pose proof (arg_cells_fit F gs aggs rt f e rs Ha Hrs) as Hfit.
  destruct f; cbn [AggFinalize state_after agg_count agg_sum min_val max_val min_set max_set].
  - subst rt. simplify_eq. eexists. split; [done|]. by split_and!.
  - destruct (arg_cells F (Some e) rs) as [|x cs] eqn:Ecs; [done|]. rewrite <- Ecs in *.
    rewrite (proj2 (Z.eqb_neq _ 0)) by (rewrite Ecs; simpl; lia).
    destruct Hty as [_ Hty]. destruct (is_float rt) eqn:Ef.
    + simplify_eq. eexists. split; [done|]. split; [|done]. split_and!; [by destruct rt|done|by destruct rt].
    + apply bind_Some in Hc as (z & Hz & Hc). simplify_eq. rewrite Hz. eexists. split; [done|].
      split; [|done]. split_and!; [by destruct rt|done|by destruct rt].
  - subst rt. destruct (least (arg_cells F (Some e) rs)) as [m|] eqn:Em; simplify_eq.
    rewrite bool_decide_true by eauto. eexists. split; [done|]. cbn [value_of].
    destruct (cell_value_spec (type_of e) c) as (H1 & H2 & H3 & H4).
    { apply (proj1 (Forall_forall _ _) Hfit). by apply least_elem. }
    split; [|done]. by apply value_fits_append.
  - subst rt. destruct (greatest (arg_cells F (Some e) rs)) as [m|] eqn:Em; simplify_eq.
    rewrite bool_decide_true by eauto. eexists. split; [done|]. cbn [value_of].
    destruct (cell_value_spec (type_of e) c) as (H1 & H2 & H3 & H4).
    { apply (proj1 (Forall_forall _ _) Hfit). by apply greatest_elem. }
    split; [|done]. by apply value_fits_append.
  - destruct (arg_cells F (Some e) rs) as [|x cs] eqn:Ecs; [done|]. rewrite <- Ecs in *.
    rewrite (proj2 (Z.eqb_neq _ 0)) by (rewrite Ecs; simpl; lia). destruct Hty as [_ ->]. simplify_eq.
    eexists. split; [done|]. by split_and!.
Qed.

Local Notation out_types := ((type_of <$> gs) ++ (result_type <$> aggs)).

(** A group whose row has no NULL, and the values that are appended for it. *)
Lemma group_values g r :
  Forall row_ok g.2 -> Forall2 value_fits (type_of <$> gs) g.1 -> group_row F aggs g = Some r -> no_nulls r ->
  exists vals, Forall2 append_fits out_types (g.1 ++ vals) /\ right_cells (g.1 ++ vals) = r /\
    Forall2 (fun a v => AggFinalize F (agg_state a g.2) (agg_func a) (result_type a) = Ok v) aggs vals.
Proof.
  intros Hrs Hk Hr Hnn. unfold group_row in Hr. apply bind_Some in Hr as (cs & Hcs & Hr). injection Hr as <-.
  apply Forall_app in Hnn as [_ Hnn]. apply mapM_Some in Hcs.
  assert (exists vals, Forall2 append_fits (result_type <$> aggs) vals /\ right_cells vals = cs /\
    Forall2 (fun a v => AggFinalize F (agg_state a g.2) (agg_func a) (result_type a) = Ok v) aggs vals) as (vals & H1 & H2 & H3).
  { assert (Forall2 (fun a x => exists v, AggFinalize F (agg_state a g.2) (agg_func a) (result_type a) = Ok v /\
      append_fits (result_type a) v /\ Some (value_cell v) = x) aggs cs) as Hall.
    { apply Forall2_same_length_lookup. split; [by eapply Forall2_length|]. intros i a x Ha Hx.
      destruct (proj1 (Forall_lookup _ _) Hnn i x Hx) as [c ->].
      pose proof (Forall2_lookup_lr _ _ _ i a _ Hcs Ha Hx) as Hc.
      destruct (AggFinalize_cell a g.2 c) as (v & H1 & H2 & <-); [by eapply list_elem_of_lookup_2|done..|]. by exists v. }
    clear -Hall. induction Hall as [|a x l cs (v & H1 & H2 & <-) _ (vals & H3 & <- & H4)]; [by exists []|].
    exists (v :: vals). rewrite fmap_cons. split_and!; [by constructor|done|by constructor]. }
  exists vals. split_and!; [|unfold right_cells in *; by rewrite fmap_app, H2|done].
  apply Forall2_app; [|done]. eapply Forall2_impl; [exact Hk|]. apply value_fits_append.
Qed.

(** The writers of the source append these values. *)
Lemma writers_values states rs vals :
  states = (fun a => agg_state a rs) <$> aggs ->
  Forall2 (fun a v => AggFinalize F (agg_state a rs) (agg_func a) (result_type a) = Ok v) aggs vals ->
  Forall2 (fun w v => forall dst, w dst = DataVectorAppendValue dst v) (agg_writers F (source_of gs aggs) states) vals.
Proof.
  intros -> Hv. apply Forall2_same_length_lookup. unfold agg_writers. cbn [source_of agg_funcs agg_result_types]. split.
  { rewrite length_imap, length_fmap. by eapply Forall2_length. }
  intros j w v Hw Hvj dst. apply list_lookup_imap_Some in Hw as (f & Hf & ->).
  apply list_lookup_fmap_Some in Hf as (a & -> & Ha).
  rewrite list_lookup_fmap, Ha. simpl. unfold emit_agg. rewrite list_lookup_fmap, Ha. simpl.
  rewrite (Forall2_lookup_lr _ _ _ j a v Hv Ha Hvj). done.
Qed.

Lemma key_writers_values (k : list Value) :
  Forall2 (fun w v => forall dst, w dst = DataVectorAppendValue dst v) (emit_key k <$> seq 0 (length k)) k.
Proof.
  apply Forall2_same_length_lookup. split; [by rewrite length_fmap, length_seq|]. intros j w v Hw Hv dst.
  apply list_lookup_fmap_Some in Hw as (i & -> & Hi). apply lookup_seq in Hi as [-> _]. unfold emit_key. simpl. by rewrite Hv.
Qed.

Lemma emit_entry_rows e g r cols n :
  entry_data e = (g.1, (fun a => agg_state a g.2) <$> aggs) ->
  Forall row_ok g.2 -> Forall2 value_fits (type_of <$> gs) g.1 -> group_row F aggs g = Some r -> no_nulls r ->
  Forall (fun col => dv_wf col /\ dv_count col = n) cols -> dv_type <$> cols = out_types -> n < STANDARD_VECTOR_SIZE ->
  exists cols', emit_entry F (source_of gs aggs) cols e = Ok cols' /\ batch_ok (mkChunk cols' (S n)) /\
    dv_type <$> cols' = out_types /\ chunk_rows (mkChunk cols' (S n)) = chunk_rows (mkChunk cols n) ++ [r].
Proof.
  intros Hd Hrs Hk Hr Hnn Hwf Hty Hn. destruct (group_values g r Hrs Hk Hr Hnn) as (vals & Hfit & <- & Hfin).
  injection Hd as Hgk Hst. unfold emit_entry. eapply emit_values; try done.
  apply Forall2_app; [|by eapply writers_values].
  rewrite Hgk. cbn [source_of num_group_cols]. apply Forall2_length in Hk. rewrite length_fmap in Hk. rewrite Hk.
  apply key_writers_values.
Qed.

(** The columns of a fresh output batch, when its types have storage. *)
Lemma initial_columns ts :
  Forall (fun t => storage_of t <> SNone) ts ->
  Forall (fun col => dv_wf col /\ dv_count col = 0) (columns (Initialize ts)) /\ dv_type <$> columns (Initialize ts) = ts.
Proof.
  intros Hst. simpl. split.
  - apply Forall_fmap. eapply Forall_impl; [exact Hst|]. intros t Hs. simpl. destruct (Reset0_wf t Hs) as [Hw _].
    split; [done|]. unfold Reset. by destruct (storage_of t).
  - rewrite <- list_fmap_compose. rewrite <- (list_fmap_id ts) at 2. apply list_fmap_ext. intros i t Hi. simpl.
    unfold Reset. by destruct (storage_of t).
Qed.

Lemma append_fits_storage ts vals : Forall2 append_fits ts vals -> Forall (fun t => storage_of t <> SNone) ts.
Proof. induction 1 as [|t v ts vals (Ht & _) _ IH]; constructor; [by destruct t|done]. Qed.

(** The entries of one output batch. *)
Lemma emit_batch_rows es batch rows :
  Forall2 (fun e g => entry_data e = (g.1, (fun a => agg_state a g.2) <$> aggs)) es batch ->
  Forall (fun g => Forall row_ok g.2 /\ Forall2 value_fits (type_of <$> gs) g.1) batch ->
  mapM (group_row F aggs) batch = Some rows -> Forall no_nulls rows -> 0 < length batch <= STANDARD_VECTOR_SIZE ->
  exists cols, foldM (emit_entry F (source_of gs aggs)) (columns (Initialize out_types)) es = Ok cols /\
    batch_ok (mkChunk cols (length es)) /\ dv_type <$> cols = out_types /\ chunk_rows (mkChunk cols (length es)) = rows.
Proof.
  intros Hes Hgood Hrows Hnn Hlen. apply mapM_Some in Hrows. pose proof (Forall2_length _ _ _ Hes) as Hl.
  pose proof (Forall2_length _ _ _ Hrows) as Hlr.
  assert (Forall (fun t => storage_of t <> SNone) out_types) as Hst.
  { destruct batch as [|g batch]; [simpl in Hlen; lia|]. apply Forall2_cons_inv_l in Hrows as (r & rows' & Hr & _ & ->).
    apply Forall_cons in Hgood as [[H1 H2] _]. apply Forall_cons in Hnn as [Hn _].
    destruct (group_values g r H1 H2 Hr Hn) as (vals & Hfit & _). by eapply append_fits_storage. }
  destruct (initial_columns out_types Hst) as [Hw0 Ht0].
  destruct (foldM_invariant (fun pre cols => Forall (fun col => dv_wf col /\ dv_count col = length pre) cols /\
      dv_type <$> cols = out_types /\ chunk_rows (mkChunk cols (length pre)) = take (length pre) rows)
    (emit_entry F (source_of gs aggs)) (columns (Initialize out_types)) es) as (cols & Hf & Hw & Ht & Hr).
  - split_and!; try done. 
  - intros pre e cols (Hw & Ht & Hr) [suf Hs].
    assert (es !! length pre = Some e) as He by (rewrite Hs; by apply list_lookup_middle).
    destruct (Forall2_lookup_l _ _ _ _ _ Hes He) as (g & Hg & Hd). destruct (Forall2_lookup_l _ _ _ _ _ Hrows Hg) as (r & Hri & Hgr).
    destruct (proj1 (Forall_lookup _ _) Hgood _ _ Hg) as [H1 H2].
    destruct (emit_entry_rows e g r cols (length pre)) as (cols' & He' & Hb' & Ht' & Hr'); try done.
    { by apply (proj1 (Forall_lookup _ _) Hnn _ _ Hri). }
    { apply lookup_lt_Some in Hg. lia. }
    exists cols'. split; [done|]. rewrite length_app, Nat.add_1_r. split_and!; [apply Hb'|done|].
    by rewrite Hr', Hr, (take_S_r _ _ r).
  - exists cols. split_and!; [done|split; [done|simpl; lia]|done|]. rewrite Hr. apply take_ge. lia.
Qed.

End source.

(** A batch the source emits. *)
Definition agg_output (gs aggs : list LogicalExpr) (c : DataChunk) : Prop :=
  batch_ok c /\ 0 < ch_count c /\ col_types c = (type_of <$> gs) ++ (result_type <$> aggs).

Lemma insert_group_Forall (P : list Value -> Prop) k new groups :
  P k -> Forall (fun g => P g.1) groups -> Forall (fun g => P g.1) (insert_group k new groups).
Proof.
  intros Hk. induction 1 as [|[k' rs] groups Hk' Hg IH]; cbn [insert_group]; [by repeat constructor|].
  destruct (keys_eqb k' k); by constructor.
Qed.

Section theorem.
Context (F : FPU) (H : Hashes) `{!HashLaws H} (gs aggs : list LogicalExpr) (types : list TypeId).
Hypothesis Haggs : Forall (agg_ok types) aggs.
Hypothesis Hgs : Forall (fun e => well_typed types e = true) gs.

Lemma group_rows_keys rows :
  Forall (row_ok F gs aggs) rows -> Forall (fun g => Forall2 value_fits (type_of <$> gs) g.1) (group_rows F gs rows).
Proof.
  unfold group_rows. induction rows as [|r rows IH] using rev_ind; intros Hrows; [constructor|].
  apply Forall_app in Hrows as [Hrows Hr]. apply Forall_cons in Hr as [Hr _]. rewrite foldl_snoc.
  destruct (row_key F gs aggs r Hr) as (k & -> & _ & Hk). simpl. by apply insert_group_Forall; [|apply IH].
Qed.

Lemma scan_groups ht groups out :
  holds F H gs aggs ht groups -> Forall (fun g => Forall2 value_fits (type_of <$> gs) g.1) groups ->
  mapM (group_row F aggs) groups = Some out -> Forall no_nulls out -> gs <> [] \/ groups <> [] ->
  exists outs, produces (AggSource_GetData F (source_of gs aggs) ht) 0 outs /\ Forall (agg_output gs aggs) outs /\ stream_rows outs = out.
Proof.
  intros Hh Hk Hm Hnn Hne. apply mapM_Some in Hm. pose proof (Forall2_length _ _ _ Hm) as Hlm.
  assert (length (entry_pool ht) = length groups) as Hlen
    by (rewrite <- (length_fmap entry_data), (ho_data _ _ _ _ _ _ Hh), length_fmap; done).
  assert (~ (num_group_cols (source_of gs aggs) = 0 /\ EntryCount ht = 0 /\ 0 = 0)) as Hnosyn.
  { unfold EntryCount. simpl. rewrite Hlen. intros (H1 & H2 & _). apply length_zero_iff_nil in H1, H2. naive_solver. }
  assert (forall idx, ~ (num_group_cols (source_of gs aggs) = 0 /\ EntryCount ht = 0 /\ idx = 0)) as Hnosyn'.
  { intros idx (H1 & H2 & _). by apply Hnosyn. }
  assert (Forall2 (fun e g => entry_data e = (g.1, (fun a => agg_state F a g.2) <$> aggs)) (entry_pool ht) groups) as Hes.
  { pose proof (ho_data _ _ _ _ _ _ Hh) as Hd. apply Forall2_same_length_lookup. split; [done|]. intros i e g He Hg.
    pose proof (f_equal (.!! i) Hd) as Hl. rewrite !list_lookup_fmap, He, Hg in Hl. by apply (inj Some) in Hl. }
  destruct (batched_produces (AggSource_GetData F (source_of gs aggs) ht) out id
    (fun c => batch_ok c /\ col_types c = (type_of <$> gs) ++ (result_type <$> aggs))) with (idx := 0) as (outs & Hp & Hb & Hr).
  - intros idx c Hend Hc. unfold AggSource_GetData. rewrite decide_False by apply Hnosyn'.
    rewrite drop_ge by lia. rewrite take_nil. cbn [foldM mbind result_bind length]. rewrite decide_True by (unfold EntryCount; lia).
    by do 2 eexists.
  - intros idx Hidx batch. set (gbatch := take STANDARD_VECTOR_SIZE (drop idx groups)).
    set (ebatch := take STANDARD_VECTOR_SIZE (drop idx (entry_pool ht))).
    assert (length ebatch = length batch) as Hle by (unfold ebatch, batch; rewrite !length_take, !length_drop; lia).
    destruct (emit_batch_rows F gs aggs types Haggs ebatch gbatch batch) as (cols & Hf & Hbo & Hct & Hrows).
    + by apply Forall2_take, Forall2_drop.
    + apply Forall_take, Forall_drop. apply Forall_and. split; [apply (ho_rows _ _ _ _ _ _ Hh)|done].
    + apply mapM_Some. by apply Forall2_take, Forall2_drop.
    + by apply Forall_take, Forall_drop.
    + unfold gbatch. rewrite length_take, length_drop. unfold STANDARD_VECTOR_SIZE. lia.
    + exists (mkChunk cols (length ebatch)). rewrite list_fmap_id. split_and!; [done..|]. intros c0.
      unfold AggSource_GetData. rewrite decide_False by apply Hnosyn'. fold ebatch. cbn [source_of agg_output_types].
      fold (source_of gs aggs). rewrite Hf. cbn [mbind result_bind]. unfold EntryCount. by rewrite Hle, Hlen, Hlm.
  - exists outs. split_and!; [done| |by rewrite Hr, drop_0, list_fmap_id]. eapply Forall_impl; [exact Hb|]. by intros x [[? ?] ?].
Qed.

(** Without GROUP BY and without rows the source makes up the only row. *)
Lemma synthetic_row ht out :
  gs = [] -> holds F H gs aggs ht [] -> mapM (group_row F aggs) [([], [])] = Some out -> Forall no_nulls out ->
  exists outs, produces (AggSource_GetData F (source_of gs aggs) ht) 0 outs /\ Forall (agg_output gs aggs) outs /\ stream_rows outs = out.
Proof.
  intros Hg Hh Hm Hnn. apply mapM_Some in Hm. apply Forall2_cons_inv_l in Hm as (r & rows & Hr & Hm & ->).
  apply Forall2_nil_inv_l in Hm as ->. apply Forall_cons in Hnn as [Hnn _].
  destruct (group_values F gs aggs types Haggs ([], []) r) as (vals & Hfit & <- & Hfin); [constructor|by rewrite Hg|done..|].
  assert (EntryCount ht = 0) as He by (unfold EntryCount; rewrite <- (length_fmap entry_data), (ho_data _ _ _ _ _ _ Hh); done).
  simpl in Hfit, Hfin.
  destruct (initial_columns ((type_of <$> gs) ++ (result_type <$> aggs))) as [Hw Ht]; [by eapply append_fits_storage|].
  destruct (emit_values (agg_writers F (source_of gs aggs) (replicate (length (agg_func <$> aggs)) AggregateState_init))
    (columns (Initialize ((type_of <$> gs) ++ (result_type <$> aggs)))) 0 ((type_of <$> gs) ++ (result_type <$> aggs)) vals)
    as (cols & Hec & Hb & Hct & Hrows); [|done|done|done|unfold STANDARD_VECTOR_SIZE; lia|].
  { eapply writers_values with (rs := []); [|done]. symmetry. rewrite length_fmap. apply const_fmap. intros. apply agg_state_nil. }
  exists [mkChunk cols 1]. split_and!; [|constructor; [|constructor]; split_and!; [done|simpl; lia|done]|].
  2: { unfold stream_rows. rewrite fmap_cons. cbn [concat]. rewrite Hrows. by rewrite app_nil_r. }
  apply produces_last with 1; [simpl; lia|]. intros c0 _. unfold AggSource_GetData.
  rewrite decide_True by (rewrite Hg; done). cbn [source_of agg_output_types agg_funcs]. fold (source_of gs aggs). by rewrite Hec.
Qed.

End theorem.

(** ** Theorems *)

Lemma aggregate_stream F H `{!HashLaws H} gs aggs types cs out :
  Forall (agg_ok types) aggs -> Forall (fun e => well_typed types e = true) gs ->
  Forall (agg_input F gs aggs types) cs ->
  aggregate_rows F gs aggs (stream_rows cs) = Some out -> Forall no_nulls out ->
  exists ht outs,
    foldM (Agg_Consume F H (mkHashAgg gs aggs)) (AggregateHashTable_new (length aggs) 256) cs = Ok ht /\
    produces (AggSource_GetData F (source_of gs aggs) ht) 0 outs /\ Forall (agg_output gs aggs) outs /\ stream_rows outs = out.
Proof.
  intros Haggs Hgs Hcs Hout Hnn. destruct (consume_stream F H gs aggs types Haggs Hgs cs Hcs) as (ht & Hf & Hh).
  exists ht. rewrite Hf. unfold aggregate_rows in Hout.
  assert (Forall (row_ok F gs aggs) (stream_rows cs)) as Hrows.
  { unfold stream_rows. apply Forall_concat, Forall_fmap. eapply Forall_impl; [exact Hcs|]. intros c (_ & _ & Hr). done. }
  pose proof (group_rows_keys F gs aggs (stream_rows cs) Hrows) as Hk.
  destruct (decide (gs = [] /\ stream_rows cs = [])) as [[Hg Hs]|Hne].
  - assert (sql_groups F gs (stream_rows cs) = [([], [])]) as Hgr by (by rewrite Hg, Hs). rewrite Hgr in Hout.
    rewrite Hs in Hh. destruct (synthetic_row F H gs aggs types Haggs ht out) as (outs & Hp); [done..|]. by exists outs.
  - assert (sql_groups F gs (stream_rows cs) = group_rows F gs (stream_rows cs)) as Hgr.
    { unfold sql_groups. destruct gs, (stream_rows cs); try done. naive_solver. }
    rewrite Hgr in Hout. destruct (scan_groups F H gs aggs types Haggs Hgs ht (group_rows F gs (stream_rows cs)) out) as (outs & Hp); [done..| |].
    + destruct (decide (gs = [])) as [Hg|]; [right|by left]. rewrite (group_rows_none F gs) by done.
      destruct (stream_rows cs); [naive_solver|done].
    + by exists outs.
Qed.


(** Columns [g = 1, 2, 1] and [v = 10, 20, 30]. *)
Definition sample_agg_chunk : DataChunk :=
  mkChunk [mkDV INT64 3 [1; 2; 1]%Z [] [] 7%Z; mkDV INT64 3 [10; 20; 30]%Z [] [] 7%Z] 3.
Definition sample_groups : list LogicalExpr := [BoundColumnRef INT64 0 "g"].
Definition sample_aggs : list LogicalExpr :=
  [LogicalAggrExpr INT64 SUM false (Some (BoundColumnRef INT64 1 "v")); LogicalAggrExpr INT64 COUNT true None;
   LogicalAggrExpr INT64 MAX false (Some (BoundColumnRef INT64 1 "v"))].

Lemma sample_agg_input : agg_input sample_FPU sample_groups sample_aggs [INT64; INT64] sample_agg_chunk.
Proof.
  split_and!; [split; [chunk_wf_tac|vm_compute; lia]|reflexivity|].
  assert (forall a b, row_ok sample_FPU sample_groups sample_aggs [Some (CInt a); Some (CInt b)]) as Hrow.
  { intros a b. split; repeat constructor; eexists; (split; [reflexivity|]); try by intros c [= <-]. by split. }
  repeat (apply Forall_cons; split; [apply Hrow|]). apply Forall_nil_2.
Qed.


(** ** NULLs *)

(** The comment of [GetData] says that an aggregate over no row is NULL except
    for COUNT.  [SUM] over an empty table is 0: [Value::Null(INT64)] is not a
    NULL to [DataVectorAppendValue].  [AVG] does not return at all. *)
Theorem empty_aggregate_not_null F c :
  let ht := AggregateHashTable_new 1 256 in
  let arg := Some (BoundColumnRef INT64 0 "v") in
  (exists out, AggSource_GetData F (source_of [] [LogicalAggrExpr INT64 SUM false arg]) ht 0 c = Ok (FINISHED, out, 1) /\
     chunk_rows out = [[Some (CInt 0)]] /\
     aggregate_rows F [] [LogicalAggrExpr INT64 SUM false arg] [] = Some [[None]]) /\
  AggSource_GetData F (source_of [] [LogicalAggrExpr FLOAT64 AVG false arg]) ht 0 c = Err BadVariantAccess /\
  aggregate_rows F [] [LogicalAggrExpr FLOAT64 AVG false arg] [] = Some [[None]].
Proof. split_and!; try (eexists; split_and!); reflexivity. Qed.

(** Rows whose key is NULL fall into the group of the key 0, for every hash
    function: two rows with the keys NULL and 0 make one group of two rows. *)
Theorem null_group_merges_zero F H :
  let c := mkChunk [mkDV INT64 2 [0; 0]%Z [] [] 2%Z] 2 in
  let op := mkHashAgg [BoundColumnRef INT64 0 "g"] [LogicalAggrExpr INT64 COUNT true None] in
  chunk_rows c = [[None]; [Some (CInt 0)]] /\
  exists ht, Agg_Consume F H op (AggregateHashTable_new 1 256) c = Ok ht /\
    entry_data <$> entry_pool ht = [([Value_Integer 0], [incr_count 2 AggregateState_init])].
Proof.
  cbv zeta. split; [reflexivity|].
  destruct (bucket_of_Ok H 256 [Value_Integer 0]) as (b & Hb & Hlt); [lia|by repeat constructor|].
  assert (replicate 256 None !! b = Some (None : option nat)) as H0 by (by apply lookup_replicate_2).
  set (bs := <[b := Some 0]> (replicate 256 None)).
  assert (bs !! b = Some (Some 0)) as H1 by (unfold bs; by rewrite list_lookup_insert_eq by (rewrite length_replicate; done)).
  set (e := fun sts => mkAggEntry [Value_Integer 0] sts None). set (ht := fun sts => mkAggHT 1 256 bs [e sts]).
  assert (FindOrCreate H (AggregateHashTable_new 1 256) [Value_Integer 0] = Ok (ht [AggregateState_init], 0)) as F1.
  { unfold FindOrCreate. cbn [AggregateHashTable_new capacity buckets entry_pool]. rewrite Hb. cbn [mbind result_bind].
    rewrite H0. reflexivity. }
  assert (forall sts, FindOrCreate H (ht sts) [Value_Integer 0] = Ok (ht sts, 0)) as F2.
  { intros sts. unfold FindOrCreate. cbn [ht capacity buckets entry_pool]. rewrite Hb. cbn [mbind result_bind].
    rewrite H1. reflexivity. }
  exists (ht [incr_count 2 AggregateState_init]). split; [|reflexivity].
  unfold Agg_Consume. cbn [ch_count decide group_exprs aggr_exprs]. rewrite decide_False by done.
  set (vec := mkDV INT64 2 [0; 0]%Z [] [] 2%Z).
  change (foldM (consume_row F H [LogicalAggrExpr INT64 COUNT true None] [vec] [DV_default]) (AggregateHashTable_new 1 256) [0; 1]
          = Ok (ht [incr_count 2 AggregateState_init])).
  assert (forall t row, mapM_r (fun v => VectorGetValue v row) [vec] = Ok [Value_Integer 0] ->
    consume_row F H [LogicalAggrExpr INT64 COUNT true None] [vec] [DV_default] t row =
    ('(t, i) ← FindOrCreate H t [Value_Integer 0]; update_entry t i [fun st => Ok (incr_count 1 st)])) as Hrow.
  { intros t row Hr. unfold consume_row. by rewrite Hr. }
  cbn [foldM]. rewrite Hrow, F1 by reflexivity. cbn [mbind result_bind].
  change (update_entry _ _ _) with (Ok (ht [incr_count 1 AggregateState_init])). cbn [mbind result_bind].
  rewrite Hrow, F2 by reflexivity. reflexivity.
Qed.

(** Grouping by a NULL of another type throws when the key is hashed. *)
Theorem null_group_throws F H :
  let c := mkChunk [mkDV VARCHAR 1 [] [] [""]%string 0%Z] 1 in
  chunk_rows c = [[None]] /\
  Agg_Consume F H (mkHashAgg [BoundColumnRef VARCHAR 0 "g"] [LogicalAggrExpr INT64 COUNT true None])
    (AggregateHashTable_new 1 256) c = Err BadVariantAccess.
Proof. split; reflexivity. Qed.
