(* ===== verification/Transaction.v ===== *)
(** * Transactions and their undo buffers

    [transaction/undo_buffer.hpp], [undo_buffer.cpp] and the state of
    [transaction/transaction.hpp].  The undo buffer is the log of what a
    transaction changed: the commit replays it forwards, the rollback
    backwards. *)

From Stdlib Require Import ZArith String.
From stdpp Require Import base gmap strings list.
From S2P Require Import Prelude Types PartitionInfo.

Record CatalogUndoEntry : Type := mkCatalogUndo {
  cu_schema : string;
  cu_table : string;
  was_create : bool;
  cu_col_names : list string;
  cu_col_types : list TypeId;
  cu_partition_info : PartitionInfo;
}.

Record InsertUndoEntry : Type := mkInsertUndo {
  iu_schema : string;
  iu_table : string;
  iu_row_group_id : nat;
  append_start : nat;
  append_count : nat;
  inserted_rows : DataChunk;
}.

Record DeleteUndoEntry : Type := mkDeleteUndo {
  du_schema : string;
  du_table : string;
  du_row_ids : list Z;
}.

Record UpdateUndoEntry : Type := mkUpdateUndo {
  uu_schema : string;
  uu_table : string;
  uu_row_ids : list Z;
  uu_col_ids : list nat;
  old_values : DataChunk;
  new_values : DataChunk;
}.

Inductive AlterKind : Type := DROP_PARTITION | ADD_PARTITION.

Record AlterPartitionUndoEntry : Type := mkAlterUndo {
  au_schema : string;
  au_table : string;
  au_kind : AlterKind;
  old_partition_info : PartitionInfo;
  old_partition_rg_indices : list (list nat);
  new_partition_info : PartitionInfo;
  new_partition_rg_indices : list (list nat);
}.

Inductive UndoEntry : Type :=
  | UndoCatalog (e : CatalogUndoEntry)
  | UndoInsert (e : InsertUndoEntry)
  | UndoDelete (e : DeleteUndoEntry)
  | UndoUpdate (e : UpdateUndoEntry)
  | UndoAlter (e : AlterPartitionUndoEntry).

Definition UndoBuffer : Type := list UndoEntry.

(** [PushCatalogEntry], [PushInsert], [PushDelete], [PushUpdate] and
    [PushAlterPartition]. *)
Definition Push (b : UndoBuffer) (e : UndoEntry) : UndoBuffer := b ++ [e].
Definition UB_IsEmpty (b : UndoBuffer) : bool := bool_decide (b = []).
Definition UB_Clear (_ : UndoBuffer) : UndoBuffer := [].

Definition ForEachForward {A} (fn : A -> UndoEntry -> result A) (a : A) (b : UndoBuffer) : result A :=
  foldM fn a b.
Definition ForEachReverse {A} (fn : A -> UndoEntry -> result A) (a : A) (b : UndoBuffer) : result A :=
  foldM fn a (rev b).

Record Transaction : Type := mkTx {
  tx_id : Z;
  start_time : Z;
  commit_time : Z;
  auto_commit : bool;
  is_invalid : bool;
  undo_buffer : UndoBuffer;
  local_storage : gmap string DataChunk;
}.

(** [Transaction(tx_id, start_time, auto_commit)] and [MakeReadOnly]. *)
Definition Tx_new (id start : Z) (auto : bool) : Transaction :=
  mkTx id start INVALID_TIMESTAMP auto false [] ∅.
Definition MakeReadOnly (snapshot_time : Z) : Transaction := Tx_new INVALID_TRANSACTION snapshot_time false.

Definition with_commit_time (tx : Transaction) (t : Z) : Transaction :=
  mkTx (tx_id tx) (start_time tx) t (auto_commit tx) (is_invalid tx) (undo_buffer tx) (local_storage tx).
Definition clear_local_storage (tx : Transaction) : Transaction :=
  mkTx (tx_id tx) (start_time tx) (commit_time tx) (auto_commit tx) (is_invalid tx) (undo_buffer tx) ∅.
Definition log_change (tx : Transaction) (e : UndoEntry) : Transaction :=
  mkTx (tx_id tx) (start_time tx) (commit_time tx) (auto_commit tx) (is_invalid tx)
       (Push (undo_buffer tx) e) (local_storage tx).
