(* ===== verification/Schema.v ===== *)
(** * Catalog entries and schemas

    [catalog/catalog_entry.hpp], [catalog_entry.cpp], [catalog/schema.hpp] and
    [schema.cpp].  A schema keeps, for every table name, the vector of the
    versions of that table; a transaction sees the last version its snapshot
    allows.  The only entries are tables, so the class hierarchy of the source
    is one record, and a pointer to an entry is its position in the vector. *)

From Stdlib Require Import ZArith String.
From stdpp Require Import base gmap strings list.
From S2P Require Import Prelude Types PartitionInfo Transaction ColumnChunk VersionInfo RowGroup.

Record ColumnDefinition : Type := mkCol {
  cd_name : string;
  cd_type : TypeId;
  not_null : bool;
  primary_key : bool;
}.

#[export] Instance ColumnDefinition_eq_dec : EqDecision ColumnDefinition.
Proof. solve_decision. Defined.

(** [TableCatalogEntry] with the fields of its base class [CatalogEntry]. *)
Record TableCatalogEntry : Type := mkEntry {
  e_name : string;
  schema_name : string;
  create_tx_id : Z;
  create_commit_time : Z;
  delete_tx_id : Z;
  delete_commit_time : Z;
  tbl_columns : list ColumnDefinition;
  row_groups : list RowGroup;
  partition_info : PartitionInfo;
  partition_rg_indices : list (list nat);
}.

(** Field updates. *)
Definition set_create (e : TableCatalogEntry) (t : Z) : TableCatalogEntry :=
  mkEntry (e_name e) (schema_name e) (create_tx_id e) t (delete_tx_id e) (delete_commit_time e)
    (tbl_columns e) (row_groups e) (partition_info e) (partition_rg_indices e).
Definition set_delete (e : TableCatalogEntry) (tx t : Z) : TableCatalogEntry :=
  mkEntry (e_name e) (schema_name e) (create_tx_id e) (create_commit_time e) tx t
    (tbl_columns e) (row_groups e) (partition_info e) (partition_rg_indices e).
Definition set_row_groups (e : TableCatalogEntry) (rgs : list RowGroup) : TableCatalogEntry :=
  mkEntry (e_name e) (schema_name e) (create_tx_id e) (create_commit_time e) (delete_tx_id e)
    (delete_commit_time e) (tbl_columns e) rgs (partition_info e) (partition_rg_indices e).
Definition set_partition (e : TableCatalogEntry) (pi : PartitionInfo) (idx : list (list nat)) : TableCatalogEntry :=
  mkEntry (e_name e) (schema_name e) (create_tx_id e) (create_commit_time e) (delete_tx_id e)
    (delete_commit_time e) (tbl_columns e) (row_groups e) pi idx.

(** ** Tables *)

(** The position of the first column of that name, or -1. *)
Fixpoint find_column (cols : list ColumnDefinition) (name : string) (i : Z) : Z :=
  match cols with
  | [] => (-1)%Z
  | c :: cols => if String.eqb (cd_name c) name then i else find_column cols name (i + 1)
  end.
Definition FindColumn (e : TableCatalogEntry) (name : string) : Z := find_column (tbl_columns e) name 0.

Definition ColumnNames (e : TableCatalogEntry) : list string := cd_name <$> tbl_columns e.
Definition ColumnTypes (e : TableCatalogEntry) : list TypeId := cd_type <$> tbl_columns e.

Definition has_room (rg : RowGroup) : bool := Z.ltb (Z.of_nat (row_count_ rg)) ROW_GROUP_SIZE.

(** Both return the table and the position of the row group. *)
Definition GetOrAddRowGroup (e : TableCatalogEntry) : TableCatalogEntry * nat :=
  let n := length (row_groups e) in
  match last (row_groups e) with
  | Some rg =>
      if has_room rg then (e, n - 1)
      else (set_row_groups e (row_groups e ++ [RG_new (row_key n) (ColumnTypes e)]), n)
  | None => (set_row_groups e [RG_new (row_key n) (ColumnTypes e)], n)
  end.

Definition GetOrAddRowGroupForPartition (e : TableCatalogEntry) (pid : nat) : result (TableCatalogEntry * nat) :=
  indices ← of_option UndefinedBehaviour (partition_rg_indices e !! pid);
  let n := length (row_groups e) in
  let fresh :=
    (set_partition (set_row_groups e (row_groups e ++ [RG_new (row_key n) (ColumnTypes e)]))
       (partition_info e) (<[pid := indices ++ [n]]> (partition_rg_indices e)), n) in
  match last indices with
  | None => Ok fresh
  | Some i =>
      rg ← of_option UndefinedBehaviour (row_groups e !! i);
      Ok (if has_room rg then (e, i) else fresh)
  end.

(** ** Visibility *)

Definition IsCatalogEntryVisible (e : TableCatalogEntry) (tx : Transaction) : bool :=
  (if Z.eqb (create_tx_id e) (tx_id tx) then true
   else if Z.eqb (create_commit_time e) INVALID_TIMESTAMP then false
   else negb (Z.leb (start_time tx) (create_commit_time e))) &&
  (if Z.eqb (delete_tx_id e) (tx_id tx) then false
   else if Z.eqb (delete_commit_time e) INVALID_TIMESTAMP then true
   else negb (Z.ltb (delete_commit_time e) (start_time tx))).

(** The last version the transaction sees: its position and what it holds. *)
Fixpoint last_visible (tx : Transaction) (versions : list TableCatalogEntry) : option (nat * TableCatalogEntry) :=
  match versions with
  | [] => None
  | e :: versions =>
      match last_visible tx versions with
      | Some (i, e') => Some (S i, e')
      | None => if IsCatalogEntryVisible e tx then Some (0, e) else None
      end
  end.

(** ** Schemas *)

(** The order in which a [std::unordered_map] is traversed is not specified:
    some enumeration of its entries. *)
Class MapOrder : Type := {
  map_order : forall {A}, gmap string A -> list (string * A);
  map_order_perm : forall {A} (m : gmap string A), map_order m ≡ₚ map_to_list m;
}.

Definition sorted_order : MapOrder := {| map_order := fun A m => map_to_list m; map_order_perm := fun A m => reflexivity _ |}.

Record Schema : Type := mkSchema {
  name_ : string;
  entries_ : gmap string (list TableCatalogEntry);
}.

Definition Schema_new (name : string) : Schema := mkSchema name ∅.

Inductive OnNotFound : Type := THROW | RETURN_NULL.

Definition versions_of (s : Schema) (name : string) : list TableCatalogEntry := default [] (entries_ s !! name).

Definition schema_GetEntry (s : Schema) (name : string) (tx : Transaction) (policy : OnNotFound)
    : result (option (nat * TableCatalogEntry)) :=
  match last_visible tx (versions_of s name), policy with
  | Some p, _ => Ok (Some p)
  | None, THROW => Err (BindError ("Entry not found in schema '" +:+ name_ s +:+ "': " +:+ name))
  | None, RETURN_NULL => Ok None
  end.

Definition schema_CreateEntry (s : Schema) (e : TableCatalogEntry) : Schema :=
  mkSchema (name_ s) (<[e_name e := versions_of s (e_name e) ++ [e]]> (entries_ s)).

(** [it->second] changed by [f], when the name has versions at all. *)
Definition alter_versions (f : list TableCatalogEntry -> list TableCatalogEntry) (name : string) (s : Schema) : Schema :=
  mkSchema (name_ s) (alter f name (entries_ s)).

Definition schema_MarkDeleted (s : Schema) (name : string) (tx : Transaction) : Schema :=
  alter_versions (fun versions =>
    match last_visible tx versions with
    | Some (i, _) => alter (fun e => set_delete e (tx_id tx) INVALID_TIMESTAMP) i versions
    | None => versions
    end) name s.

Definition commit_entry (tx t : Z) (e : TableCatalogEntry) : TableCatalogEntry :=
  let e := if Z.eqb (create_tx_id e) tx && Z.eqb (create_commit_time e) INVALID_TIMESTAMP
           then set_create e t else e in
  if negb (Z.eqb tx INVALID_TRANSACTION) && Z.eqb (delete_tx_id e) tx
     && Z.eqb (delete_commit_time e) INVALID_TIMESTAMP
  then set_delete e (delete_tx_id e) t else e.

Definition schema_CommitEntry (s : Schema) (name : string) (tx t : Z) : Schema :=
  alter_versions (fmap (commit_entry tx t)) name s.

Definition created_by (tx : Z) (e : TableCatalogEntry) : bool :=
  Z.eqb (create_tx_id e) tx && Z.eqb (create_commit_time e) INVALID_TIMESTAMP.

Definition schema_RollbackCreate (s : Schema) (name : string) (tx : Z) : Schema :=
  alter_versions (filter (fun e => created_by tx e = false)) name s.

Definition undrop_entry (tx : Z) (e : TableCatalogEntry) : TableCatalogEntry :=
  if Z.eqb (delete_tx_id e) tx && Z.eqb (delete_commit_time e) INVALID_TIMESTAMP
  then set_delete e INVALID_TRANSACTION INVALID_TIMESTAMP else e.

Definition schema_RollbackDrop (s : Schema) (name : string) (tx : Z) : Schema :=
  alter_versions (fmap (undrop_entry tx)) name s.
