(* ===== verification/LogicalPlan.v ===== *)
(** * Logical plans

    The plan tree of [planner/logical_plan/logical_plan.hpp] and what it means.
    The binder resolves a column of a base table to its position in the table,
    and the planner later translates these positions to positions in the batches
    a scan delivers ([column_ids]); the meaning of a plan is therefore given on
    whole rows of the tables ([plan_rows]), and what a batch holds of a row
    is the selection [narrow].  The semantics composes those of the operators:
    [Operators], [Sort], [Aggregate] and [HashJoin]. *)

From Stdlib Require Import ZArith String.
From stdpp Require Import base gmap strings list fin_maps.
From S2P Require Import Prelude Types Double Expr PartitionInfo Operators HashJoin Sorting Sort Aggregate Schema.

(** ** The tree *)

Record OutputSchema : Type := mkOut { output_types : list TypeId; output_names : list string }.

Definition no_output : OutputSchema := mkOut [] [].

Record LogicalGet : Type := mkGet {
  get_schema_name : string;
  get_table_name : string;
  get_column_ids : list nat;
  catalog_row_count : Z;
  get_partition_info : PartitionInfo;
  get_pushed_filters : list LogicalExpr;
}.

Inductive AlterKind : Type := DROP_PARTITION | ADD_PARTITION.

Record LogicalAlter : Type := mkAlter {
  alter_kind : AlterKind;
  alter_schema_name : string;
  alter_table_name : string;
  alter_partition_idx : Z;
  new_bound : list Value;
  new_values : list (list Value);
}.

(** One constructor per subclass of [LogicalPlan], with its output schema first
    and its [children] last; the SELECT of an INSERT is there when
    [has_select_source] is. *)
#[warnings="-register-all"]
Inductive LogicalPlan : Type :=
  | LGet (out : OutputSchema) (get : LogicalGet)
  | LFilter (out : OutputSchema) (predicate : LogicalExpr) (child : LogicalPlan)
  | LProjection (out : OutputSchema) (exprs : list LogicalExpr) (child : LogicalPlan)
  | LLimit (out : OutputSchema) (limit offset : Z) (child : LogicalPlan)
  | LSort (out : OutputSchema) (sort_keys : list LogicalExpr) (ascending : list bool) (child : LogicalPlan)
  | LAggregate (out : OutputSchema) (group_exprs aggr_exprs : list LogicalExpr) (child : LogicalPlan)
  | LJoin (out : OutputSchema) (condition : LogicalExpr) (left_key_col_ids right_key_col_ids : list nat)
      (left right : LogicalPlan)
  | LInsert (out : OutputSchema) (schema_name table_name : string) (column_ids : list nat) (rows : DataChunk)
      (select : option LogicalPlan)
  | LDelete (out : OutputSchema) (schema_name table_name : string) (child : LogicalPlan)
  | LUpdate (out : OutputSchema) (schema_name table_name : string) (update_col_ids : list nat)
      (update_exprs : list LogicalExpr) (child : LogicalPlan)
  | LCreateTable (out : OutputSchema) (schema_name table_name : string) (columns : list ColumnDefinition)
      (if_not_exists : bool) (partition_info : PartitionInfo)
  | LDropTable (out : OutputSchema) (schema_name table_name : string) (if_exists : bool)
  | LAlterTable (out : OutputSchema) (alter : LogicalAlter).

Definition plan_out (p : LogicalPlan) : OutputSchema :=
  match p with
  | LGet o _ | LFilter o _ _ | LProjection o _ _ | LLimit o _ _ _ | LSort o _ _ _ | LAggregate o _ _ _
  | LJoin o _ _ _ _ _ | LInsert o _ _ _ _ _ | LDelete o _ _ _ | LUpdate o _ _ _ _ _ | LCreateTable o _ _ _ _ _
  | LDropTable o _ _ _ | LAlterTable o _ => o
  end.

(** [CloneExpr] *)
Fixpoint CloneExpr (e : LogicalExpr) : LogicalExpr :=
  match e with
  | BoundColumnRef t i n => BoundColumnRef t i n
  | LogicalLit t v is_null => LogicalLit t v is_null
  | LogicalBinaryOp t op l r => LogicalBinaryOp t op (CloneExpr l) (CloneExpr r)
  | LogicalUnaryOp t op c => LogicalUnaryOp t op (CloneExpr c)
  | LogicalCast t from c => LogicalCast t from (CloneExpr c)
  | LogicalAggrExpr t f is_star arg =>
      LogicalAggrExpr t f is_star (match arg with Some a => Some (CloneExpr a) | None => None end)
  end.

Lemma CloneExpr_id e : CloneExpr e = e.
Proof.
  induction e as [| |t op l r IHl IHr|t op c IH|t from c IH|t f st arg IH] using expr_ind; cbn [CloneExpr]; try congruence.
  destruct arg as [a|]; [|done]. by rewrite (IH a).
Qed.

(** ** The columns an expression reads *)

(** [Optimizer::CollectColumnRefs] and [CollectBoundColumnRefs] of the binder. *)
Fixpoint CollectColumnRefs (e : LogicalExpr) (out : gset nat) : gset nat :=
  match e with
  | BoundColumnRef _ i _ => {[i]} ∪ out
  | LogicalBinaryOp _ _ l r => CollectColumnRefs r (CollectColumnRefs l out)
  | LogicalUnaryOp _ _ c | LogicalCast _ _ c => CollectColumnRefs c out
  | LogicalAggrExpr _ _ _ arg => match arg with Some a => CollectColumnRefs a out | None => out end
  | LogicalLit _ _ _ => out
  end.

Definition refs (e : LogicalExpr) : gset nat := CollectColumnRefs e ∅.

Lemma CollectColumnRefs_union e out : CollectColumnRefs e out = refs e ∪ out.
Proof.
  revert out. unfold refs.
  induction e as [t i n|t v b|t op l r IHl IHr|t op c IH|t from c IH|t f st arg IH] using expr_ind; intros out; cbn [CollectColumnRefs].
  - set_solver.
  - set_solver.
  - rewrite (IHr (CollectColumnRefs l out)), (IHl out), (IHr (CollectColumnRefs l ∅)). set_solver.
  - apply IH.
  - apply IH.
  - destruct arg as [a|]; [by apply IH|set_solver].
Qed.

Lemma refs_binary t op l r : refs (LogicalBinaryOp t op l r) = refs l ∪ refs r.
Proof. unfold refs at 1. cbn [CollectColumnRefs]. rewrite !CollectColumnRefs_union. set_solver. Qed.

(** The value of an expression depends only on the columns it reads. *)
Lemma eval_row_refs F e r r' : (forall i, i ∈ refs e -> r !! i = r' !! i) -> eval_row F e r = eval_row F e r'.
Proof.
  induction e as [t i n|t v b|t op a IHa b IHb|t op a IHa|t from a IHa|t f st arg]; intros Hi; cbn [eval_row]; try done.
  - apply Hi. unfold refs. cbn [CollectColumnRefs]. set_solver.
  - rewrite refs_binary in Hi. rewrite IHa, IHb by set_solver. done.
  - by rewrite IHa.
  - by rewrite IHa.
Qed.

(** ** Join keys *)

(** [ExtractEquiJoinKeys] of the binder, on the pair of key lists. *)
Fixpoint ExtractEquiJoinKeys (cond : LogicalExpr) (left_count : nat) (keys : list nat * list nat) : list nat * list nat :=
  match cond with
  | LogicalBinaryOp _ op l r =>
      if String.eqb op "AND" then ExtractEquiJoinKeys r left_count (ExtractEquiJoinKeys l left_count keys)
      else if String.eqb op "=" then
        match l, r with
        | BoundColumnRef _ li _, BoundColumnRef _ ri _ =>
            if Nat.ltb li left_count && Nat.leb left_count ri then (keys.1 ++ [li], keys.2 ++ [ri - left_count])
            else if Nat.ltb ri left_count && Nat.leb left_count li then (keys.1 ++ [ri], keys.2 ++ [li - left_count])
            else keys
        | _, _ => keys
        end
      else keys
  | _ => keys
  end.

(** ** What a plan computes *)

Section semantics.
Context (F : FPU).

(** The rows of a table that a query sees, none when there is no such table. *)
Context (tables : string -> string -> list sql_row).

(** ORDER BY: stable, NULLs last. *)
Definition sort_rows (keys : list LogicalExpr) (asc : list bool) (rows : list sql_row) : list sql_row :=
  stable_sort (fun a b => lex asc (key_values F keys a) (key_values F keys b) false) rows.

Definition select_cols (ids : list nat) (r : sql_row) : sql_row := (fun i => default None (r !! i)) <$> ids.

(** The scan whose table rows the rows of a plan are. *)
Fixpoint get_source (p : LogicalPlan) : option LogicalGet :=
  match p with
  | LGet _ g => Some g
  | LFilter _ _ c | LLimit _ _ _ c | LSort _ _ _ c => get_source c
  | _ => None
  end.

(** What a batch holds of a row. *)
Definition narrow (p : LogicalPlan) (r : sql_row) : sql_row :=
  match get_source p with Some g => select_cols (get_column_ids g) r | None => r end.

Definition passing (p : LogicalExpr) (rows : list sql_row) : list sql_row := filter (fun r => row_passes F p r = true) rows.

Definition get_rows (g : LogicalGet) : list sql_row :=
  filter (fun r => forallb (fun f => row_passes F f r) (get_pushed_filters g) = true)
    (tables (get_schema_name g) (get_table_name g)).

(** The join of the rows for which the whole ON condition holds. *)
Definition join_rows (condition : LogicalExpr) (L R : list sql_row) : list sql_row :=
  l ← L; passing condition ((fun r => l ++ r) <$> R).

(** The expressions an aggregation evaluates on its input rows. *)
Definition agg_inputs (gs aggs : list LogicalExpr) : list LogicalExpr :=
  gs ++ omap (fun a => match a with LogicalAggrExpr _ _ false arg => arg | _ => None end) aggs.

Definition defined_rows (es : list LogicalExpr) (rows : list sql_row) : bool :=
  forallb (fun r => forallb (fun e => bool_decide (is_Some (eval_row F e r))) es) rows.

Definition aggregated (gs aggs : list LogicalExpr) (rows : list sql_row) : option (list sql_row) :=
  if defined_rows (agg_inputs gs aggs) rows then aggregate_rows F gs aggs rows else None.

(** [None] is a computation that is undefined in C++, or a plan that is not a
    query. *)
Fixpoint plan_rows (p : LogicalPlan) : option (list sql_row) :=
  match p with
  | LGet _ g => Some (get_rows g)
  | LFilter _ pred c => passing pred <$> plan_rows c
  | LProjection _ es c => rows ← plan_rows c; mapM (project_row F es) rows
  | LLimit _ l o c => window l o 0 0 <$> plan_rows c
  | LSort _ ks asc c => sort_rows ks asc <$> plan_rows c
  | LAggregate _ gs aggs c => rows ← plan_rows c; aggregated gs aggs rows
  | LJoin _ cond _ _ l r =>
      L ← plan_rows l; R ← plan_rows r; Some (join_rows cond (narrow l <$> L) (narrow r <$> R))
  | _ => None
  end.

(** The rows a query returns. *)
Definition query_rows (p : LogicalPlan) : option (list sql_row) :=
  (fun rows : list sql_row => narrow p <$> rows) <$> plan_rows p.

End semantics.
