(* ===== verification/PhysicalPlanner.v ===== *)
(** * The physical planner

    [planner/physical_planner.cpp]: the translation of a logical plan to a tree
    of operators.  References to columns of a base table become positions in
    the batches of its scan, a LIMIT over an ORDER BY leaves the number of rows
    it needs at the sort, and a join is planned on its equality keys.

    The claim is that the operators compute the rows of the logical plan, for
    the plans whose references the translation can resolve.  The aggregation is
    not among them: the planner looks for the scan below an aggregation with a
    function that stops at one, so its expressions are not translated. *)

From Stdlib Require Import ZArith String.
From stdpp Require Import base gmap strings list fin_maps.
From S2P Require Import Prelude Types Double Expr PartitionInfo Operators HashJoin Sorting Sort Aggregate Schema LogicalPlan.

(** ** The operator tree *)

(** The subclasses of [PhysicalOperator] with the fields the planner sets.  A
    sort and an aggregation stand for their sink and the source that shares its
    buffer; a join for its build and probe operators, which share their tables. *)
#[warnings="-register-all"]
Inductive PhysicalPlan : Type :=
  | PTableScan (out : OutputSchema) (schema_name table_name : string) (column_ids : list nat)
      (pushed_filters : list LogicalExpr)
  | PFilter (out : OutputSchema) (predicate : LogicalExpr) (child : PhysicalPlan)
  | PProjection (out : OutputSchema) (exprs : list LogicalExpr) (child : PhysicalPlan)
  | PLimit (out : OutputSchema) (limit offset : Z) (child : PhysicalPlan)
  | PSort (out : OutputSchema) (top_k : Z) (sort_keys : list LogicalExpr) (ascending : list bool) (child : PhysicalPlan)
  | PHashAggregation (out : OutputSchema) (op : HashAggregation) (aggr_result_types : list TypeId)
      (source : AggregationSource) (child : PhysicalPlan)
  | PHashJoin (out : OutputSchema) (partitions : option (PartitionInfo * PartitionInfo)) (left_key_col_idxs right_key_col_idxs : list nat)
      (left_types right_types : list TypeId) (left right : PhysicalPlan)
  | PInsert (schema_name table_name : string) (column_ids : list nat) (rows : DataChunk) (select : option PhysicalPlan)
  | PDelete (schema_name table_name : string) (predicate : option LogicalExpr)
  | PUpdate (schema_name table_name : string) (update_col_ids scan_col_ids : list nat) (update_exprs : list LogicalExpr)
      (predicate : option LogicalExpr)
  | PCreateTable (schema_name table_name : string) (columns : list ColumnDefinition) (if_not_exists : bool)
      (partition_info : PartitionInfo)
  | PDropTable (schema_name table_name : string) (if_exists : bool)
  | PAlterTable (alter : LogicalAlter).

Definition phys_types (p : PhysicalPlan) : list TypeId :=
  match p with
  | PTableScan o _ _ _ _ | PFilter o _ _ | PProjection o _ _ | PLimit o _ _ _ | PSort o _ _ _ _
  | PHashAggregation o _ _ _ _ | PHashJoin o _ _ _ _ _ _ _ => output_types o
  | _ => []
  end.

(** ** The translation *)

(** [PhysicalPlanner::TryFindLogicalGet] *)
Fixpoint TryFindLogicalGet (p : LogicalPlan) : option LogicalGet :=
  match p with
  | LGet _ g => Some g
  | LAggregate _ _ _ _ | LJoin _ _ _ _ _ _ => None
  | LFilter _ _ c | LProjection _ _ c | LLimit _ _ _ c | LSort _ _ _ c | LDelete _ _ _ c | LUpdate _ _ _ _ _ c =>
      TryFindLogicalGet c
  | LInsert _ _ _ _ _ select => match select with Some c => TryFindLogicalGet c | None => None end
  | LCreateTable _ _ _ _ _ _ | LDropTable _ _ _ _ | LAlterTable _ _ => None
  end.

(** The map from table columns to positions in a batch. *)
Definition remap_of (column_ids : list nat) : gmap nat nat :=
  foldl (fun m '(i, c) => <[c := i]> m) ∅ (imap pair column_ids).

(** [PhysicalPlanner::RemapColumnRefs] *)
Fixpoint RemapColumnRefs (e : LogicalExpr) (column_ids : list nat) : LogicalExpr :=
  match e with
  | BoundColumnRef t i n => BoundColumnRef t (default i (remap_of column_ids !! i)) n
  | LogicalBinaryOp t op l r => LogicalBinaryOp t op (RemapColumnRefs l column_ids) (RemapColumnRefs r column_ids)
  | LogicalUnaryOp t op c => LogicalUnaryOp t op (RemapColumnRefs c column_ids)
  | LogicalCast t from c => LogicalCast t from (RemapColumnRefs c column_ids)
  | LogicalLit _ _ _ | LogicalAggrExpr _ _ _ _ => e
  end.

(** The clone of an expression of a node, remapped when the node has a scan. *)
Definition plan_expr (node : LogicalPlan) (e : LogicalExpr) : LogicalExpr :=
  match TryFindLogicalGet node with
  | Some g => RemapColumnRefs (CloneExpr e) (get_column_ids g)
  | None => CloneExpr e
  end.

(** [FindTopKSortCandidate]: whether LIMIT reaches a sort below. *)
Fixpoint FindTopKSortCandidate (p : LogicalPlan) : bool :=
  match p with
  | LSort _ _ _ _ => true
  | LProjection _ _ c => FindTopKSortCandidate c
  | _ => false
  end.

(** The rows a LIMIT needs of its sort. *)
Definition top_k_of (limit offset : Z) : Z :=
  let eff_offset := Z.max 0 offset in
  if Z.ltb (INT64_MAX - eff_offset) limit then INT64_MAX else limit + eff_offset.

(** The eligibility test of [PlanJoin]: the partitioning of the two tables of
    a partition-wise join. *)
Definition partition_wise (lk rk : list nat) (left right : LogicalPlan) : option (PartitionInfo * PartitionInfo) :=
  lg ← TryFindLogicalGet left; rg ← TryFindLogicalGet right;
  let lpi := get_partition_info lg in
  let rpi := get_partition_info rg in
  if IsPartitioned lpi && IsPartitioned rpi && bool_decide (ptype lpi = ptype rpi) &&
     Z.eqb (num_partitions lpi) (num_partitions rpi)
  then
    let nkeys := Nat.min (Nat.min (length (partition_col_idxs lpi)) (length (partition_col_idxs rpi)))
                         (Nat.min (length lk) (length rk)) in
    let matches (ids : list nat) (pi : PartitionInfo) :=
      forallb (fun '(k, c) => Z.eqb (Z.of_nat k) c) (zip (take nkeys ids) (take nkeys (partition_col_idxs pi))) in
    if Nat.ltb 0 nkeys && matches lk lpi && matches rk rpi then Some (lpi, rpi) else None
  else None.

(** The predicate of DELETE and UPDATE comes from a filter child. *)
Definition dml_predicate (node child : LogicalPlan) : option LogicalExpr :=
  match child with LFilter _ pred _ => Some (plan_expr node pred) | _ => None end.

(** The functions [PlanNode] dispatches to, one per node type, with the planned
    children as arguments. *)
Definition PlanGet (out : OutputSchema) (g : LogicalGet) : PhysicalPlan :=
  PTableScan out (get_schema_name g) (get_table_name g) (get_column_ids g)
    ((fun f => RemapColumnRefs (CloneExpr f) (get_column_ids g)) <$> get_pushed_filters g).

Definition PlanFilter (node : LogicalPlan) (out : OutputSchema) (pred : LogicalExpr) (child : PhysicalPlan) : PhysicalPlan :=
  PFilter out (plan_expr node pred) child.

Definition PlanProjection (node : LogicalPlan) (out : OutputSchema) (es : list LogicalExpr) (child : PhysicalPlan) : PhysicalPlan :=
  PProjection out (plan_expr node <$> es) child.

(** The entry of [top_k_hints_] that [PlanLimit] makes for the sort below. *)
Definition limit_hint (limit offset : Z) (c : LogicalPlan) : option Z :=
  if Z.leb 0 limit && FindTopKSortCandidate c then Some (top_k_of limit offset) else None.

Definition PlanLimit (out : OutputSchema) (limit offset : Z) (child : PhysicalPlan) : PhysicalPlan :=
  PLimit out limit offset child.

Definition PlanSort (node : LogicalPlan) (hint : option Z) (out : OutputSchema) (keys : list LogicalExpr) (asc : list bool)
    (child : PhysicalPlan) : PhysicalPlan :=
  PSort out (default (-1)%Z hint) (plan_expr node <$> keys) asc child.

Definition PlanAggregate (node : LogicalPlan) (out : OutputSchema) (gs aggs : list LogicalExpr) (child : PhysicalPlan) : PhysicalPlan :=
  PHashAggregation out (mkHashAgg (plan_expr node <$> gs) (plan_expr node <$> aggs)) (drop (length gs) (output_types out))
    (mkAggSource (length gs) (agg_func <$> aggs) (take (length aggs) (drop (length gs) (output_types out))) (output_types out))
    child.

Definition PlanJoin (out : OutputSchema) (lk rk : list nat) (l r : LogicalPlan) (left right : PhysicalPlan) : PhysicalPlan :=
  PHashJoin out (partition_wise lk rk l r) lk rk (output_types (plan_out l)) (phys_types right) left right.

Definition PlanInsert (s t : string) (ids : list nat) (rows : DataChunk) (select : option PhysicalPlan) : PhysicalPlan :=
  PInsert s t ids rows select.

Definition PlanDelete (node : LogicalPlan) (s t : string) (c : LogicalPlan) : PhysicalPlan :=
  PDelete s t (dml_predicate node c).

Definition PlanUpdate (node : LogicalPlan) (s t : string) (ids : list nat) (es : list LogicalExpr) (c : LogicalPlan) : PhysicalPlan :=
  PUpdate s t ids (match TryFindLogicalGet node with Some g => get_column_ids g | None => ids end)
    (plan_expr node <$> es) (dml_predicate node c).

Definition PlanCreateTable (s t : string) (cols : list ColumnDefinition) (ine : bool) (pi : PartitionInfo) : PhysicalPlan :=
  PCreateTable s t cols ine pi.
Definition PlanDropTable (s t : string) (ie : bool) : PhysicalPlan := PDropTable s t ie.
Definition PlanAlterTable (a : LogicalAlter) : PhysicalPlan := PAlterTable a.

(** [PhysicalPlanner::PlanNode].  The map [top_k_hints_] holds at most one hint
    at a time, for the sort that the enclosing LIMIT reaches through projections;
    it is passed down this path. *)
Fixpoint PlanNode (hint : option Z) (p : LogicalPlan) : PhysicalPlan :=
  match p with
  | LGet out g => PlanGet out g
  | LFilter out pred c => PlanFilter p out pred (PlanNode None c)
  | LProjection out es c => PlanProjection p out es (PlanNode hint c)
  | LLimit out limit offset c => PlanLimit out limit offset (PlanNode (limit_hint limit offset c) c)
  | LSort out keys asc c => PlanSort p hint out keys asc (PlanNode None c)
  | LAggregate out gs aggs c => PlanAggregate p out gs aggs (PlanNode None c)
  | LJoin out _ lk rk l r => PlanJoin out lk rk l r (PlanNode None l) (PlanNode None r)
  | LInsert _ s t ids rows select =>
      PlanInsert s t ids rows (match select with Some c => Some (PlanNode None c) | None => None end)
  | LDelete _ s t c => PlanDelete p s t c
  | LUpdate _ s t ids es c => PlanUpdate p s t ids es c
  | LCreateTable _ s t cols ine pi => PlanCreateTable s t cols ine pi
  | LDropTable _ s t ie => PlanDropTable s t ie
  | LAlterTable _ a => PlanAlterTable a
  end.

Definition Plan (p : LogicalPlan) : PhysicalPlan := PlanNode None p.

(** ** What the operators compute *)

Section rows.
Context (F : FPU) (tables : string -> string -> list sql_row).

(** The specification of each operator on the rows of its input, by which plans
    are compared: filters are applied, joins are nested loops.  That the
    operators of the program compute it, and on which inputs, is what the theorems
    of [TableScan], [Sort], [HashJoin], [Aggregate] and [Pipeline] show; where they
    do not (filters on every scanned column, NULL keys, a full batch of a join),
    those files have the counterexamples. *)
Fixpoint phys_rows (p : PhysicalPlan) : option (list sql_row) :=
  match p with
  | PTableScan _ s t ids filters =>
      Some (filter (fun r => forallb (fun f => row_passes F f r) filters = true) (select_cols ids <$> tables s t))
  | PFilter _ pred c => passing F pred <$> phys_rows c
  | PProjection _ es c => rows ← phys_rows c; mapM (project_row F es) rows
  | PLimit _ l o c => window l o 0 0 <$> phys_rows c
  | PSort _ top_k ks asc c =>
      (fun rows => let sorted := sort_rows F ks asc rows in
                   if Z.leb 0 top_k then take (Z.to_nat top_k) sorted else sorted) <$> phys_rows c
  | PHashAggregation _ op _ _ c => rows ← phys_rows c; aggregated F (group_exprs op) (aggr_exprs op) rows
  | PHashJoin _ _ lk rk lt rt l r =>
      L ← phys_rows l; R ← phys_rows r; Some (nested_loop_join lt lk rt rk L R)
  | _ => None
  end.

(** One node planned, and its rows. *)
Ltac plan_step :=
  cbn [PlanNode PlanGet PlanFilter PlanProjection PlanLimit PlanSort PlanAggregate PlanJoin phys_rows].

(** ** Remapping *)

Lemma remap_of_spec ids i j : remap_of ids !! i = Some j -> ids !! j = Some i.
Proof.
  unfold remap_of. revert j. induction ids as [|c ids IH] using rev_ind; intros j; [done|].
  rewrite imap_app, foldl_app. simpl. rewrite Nat.add_0_r. destruct (decide (c = i)) as [->|Hne].
  - rewrite lookup_insert_eq. intros [= <-]. by rewrite lookup_app_r, Nat.sub_diag by done.
  - rewrite lookup_insert_ne by done. intros Hj. apply IH in Hj. by apply lookup_app_l_Some.
Qed.

Lemma remap_of_in ids i : i ∈ ids -> is_Some (remap_of ids !! i).
Proof.
  unfold remap_of. induction ids as [|c ids IH] using rev_ind; [by intros ?%elem_of_nil|].
  rewrite imap_app, foldl_app, elem_of_app, list_elem_of_singleton. simpl. intros Hi.
  destruct (decide (c = i)) as [->|Hne]; [rewrite lookup_insert_eq; eauto|]. rewrite lookup_insert_ne by done. naive_solver.
Qed.

(** The columns an expression reads are delivered by the scan. *)
Definition covered (ids : list nat) (e : LogicalExpr) : Prop := forall i, i ∈ refs e -> i ∈ ids.

(** A row of the table has every column of the scan. *)
Definition row_covers (ids : list nat) (r : sql_row) : Prop := Forall (fun i => i < length r) ids.

Lemma Remap_eval e ids r :
  covered ids e -> row_covers ids r -> eval_row F (RemapColumnRefs e ids) (select_cols ids r) = eval_row F e r.
Proof.
  intros Hc Hr. induction e as [t i n|t v b|t op a IHa b IHb|t op a IHa|t from a IHa|t f st arg]; cbn [RemapColumnRefs eval_row]; try done.
  - assert (i ∈ ids) as Hi by (apply Hc; unfold refs; cbn [CollectColumnRefs]; set_solver).
    destruct (remap_of_in ids i Hi) as [j Hj]. rewrite Hj. simpl. apply remap_of_spec in Hj.
    unfold select_cols. rewrite list_lookup_fmap, Hj. simpl.
    apply (proj1 (Forall_forall _ _) Hr) in Hi. apply lookup_lt_is_Some in Hi as [x ->]. done.
  - unfold covered in *. rewrite refs_binary in Hc. rewrite IHa, IHb by set_solver. done.
  - by rewrite IHa.
  - by rewrite IHa.
Qed.

Lemma Remap_passes e ids r :
  covered ids e -> row_covers ids r -> row_passes F (RemapColumnRefs e ids) (select_cols ids r) = row_passes F e r.
Proof. intros Hc Hr. unfold row_passes. by rewrite Remap_eval. Qed.

(** ** Plans the translation resolves *)

Definition table_of (g : LogicalGet) : list sql_row := tables (get_schema_name g) (get_table_name g).

(** The expressions of a node whose rows are those of [child]. *)
Definition exprs_ok (child : LogicalPlan) (es : list LogicalExpr) : Prop :=
  TryFindLogicalGet child = get_source child /\
  forall g, get_source child = Some g -> table_of g = [] \/ Forall (covered (get_column_ids g)) es.

(** An aggregation reads its input positions as they are. *)
Definition agg_exprs_ok (child : LogicalPlan) (es : list LogicalExpr) : Prop :=
  forall g i, get_source child = Some g -> table_of g <> [] -> i ∈ ⋃ (refs <$> es) -> get_column_ids g !! i = Some i.

(** The keys of a join are its whole condition. *)
Definition join_keys_ok (cond : LogicalExpr) (lk rk : list nat) (l r : LogicalPlan) : Prop :=
  forall L R x y, query_rows F tables l = Some L -> query_rows F tables r = Some R -> x ∈ L -> y ∈ R ->
    row_passes F cond (x ++ y) =
    keys_match (key_of (output_types (plan_out l)) lk x) (key_of (output_types (plan_out r)) rk y).

Fixpoint plan_ok (p : LogicalPlan) : Prop :=
  match p with
  | LGet _ g =>
      Forall (row_covers (get_column_ids g)) (table_of g) /\
      (table_of g = [] \/ Forall (covered (get_column_ids g)) (get_pushed_filters g))
  | LFilter _ pred c => exprs_ok c [pred] /\ plan_ok c
  | LProjection _ es c => exprs_ok c es /\ plan_ok c
  | LLimit _ l o c => (l + Z.max 0 o <= INT64_MAX)%Z /\ plan_ok c
  | LSort _ ks _ c => exprs_ok c ks /\ plan_ok c
  | LAggregate _ gs aggs c => agg_exprs_ok c (gs ++ aggs) /\ plan_ok c
  | LJoin _ cond lk rk l r => join_keys_ok cond lk rk l r /\ plan_ok l /\ plan_ok r
  | _ => True
  end.

(** The rows of a plan over a scan are rows of its table. *)
Lemma source_rows_in p g res r :
  get_source p = Some g -> plan_rows F tables p = Some res -> r ∈ res -> r ∈ table_of g.
Proof.
  revert res. induction p; intros res Hs Hr Hin; try done; cbn [get_source plan_rows] in *.
  - simplify_eq. by apply list_elem_of_filter in Hin as [_ Hin].
  - apply fmap_Some in Hr as (res' & Hr & ->). apply list_elem_of_filter in Hin as [_ Hin]. by eapply IHp.
  - apply fmap_Some in Hr as (res' & Hr & ->). eapply IHp; [done..|]. revert Hin. unfold window.
    assert (forall n (l : list sql_row), r ∈ drop n l -> r ∈ l) as Hd by (intros n l Hl; rewrite <- (take_drop n l); set_solver).
    assert (forall n (l : list sql_row), r ∈ take n l -> r ∈ l) as Htk by (intros n l Hl; rewrite <- (take_drop n l); set_solver).
    destruct (Z.leb 0 limit); [intros Hin%Htk|intros Hin]; by eapply Hd.
  - apply fmap_Some in Hr as (res' & Hr & ->). eapply IHp; [done..|]. unfold sort_rows in Hin. by rewrite stable_sort_perm in Hin.
Qed.

(** They have the columns of the scan. *)
Lemma source_rows_cover p g res r :
  plan_ok p -> get_source p = Some g -> plan_rows F tables p = Some res -> r ∈ res -> row_covers (get_column_ids g) r.
Proof.
  intros Hok Hs Hr Hin. pose proof (source_rows_in p g res r Hs Hr Hin) as Ht. clear Hr Hin.
  induction p; try done; cbn [plan_ok get_source] in *; [|by apply IHp; [apply Hok|]..].
  simplify_eq. by apply (proj1 (Forall_forall _ _) (proj1 Hok)).
Qed.

(** ** The translation preserves the rows *)

Lemma filter_fmap {A B} (f : A -> B) (P : A -> bool) (Q : B -> bool) (l : list A) :
  (forall x, x ∈ l -> Q (f x) = P x) -> filter (fun y => Q y = true) (f <$> l) = f <$> filter (fun x => P x = true) l.
Proof.
  induction l as [|x l IH]; intros HPQ; [done|]. rewrite fmap_cons, !filter_cons, (HPQ x), IH by (try intros; set_solver).
  by destruct (P x).
Qed.

Lemma mapM_fmap_ext {A B C} (f : A -> B) (g : B -> option C) (h : A -> option C) (l : list A) :
  (forall x, x ∈ l -> g (f x) = h x) -> mapM g (f <$> l) = mapM h l.
Proof.
  induction l as [|x l IH]; intros Hgh; [done|]. rewrite fmap_cons. cbn [mapM].
  rewrite (Hgh x), IH by (try intros; set_solver). done.
Qed.

Lemma mapM_take {A B} (g : A -> option B) l k n : mapM g l = Some k -> mapM g (take n l) = Some (take n k).
Proof. rewrite !mapM_Some. apply Forall2_take. Qed.

(** Truncating to the rows a LIMIT needs does not change its window. *)
Lemma window_top_k {A} limit offset (l : list A) :
  (0 <= limit)%Z -> (limit + Z.max 0 offset <= INT64_MAX)%Z ->
  window limit offset 0 0 (take (Z.to_nat (top_k_of limit offset)) l) = window limit offset 0 0 l.
Proof.
  intros Hl Hm. unfold top_k_of, window. rewrite !Z.sub_0_r. rewrite (proj2 (Z.leb_le 0 limit)) by done.
  destruct (Z.ltb_spec (INT64_MAX - Z.max 0 offset) limit); [lia|].
  rewrite skipn_firstn_comm, take_take. f_equal. lia.
Qed.

(** The expressions of a node on the rows of its child. *)
Lemma plan_expr_eval node child es e rows r :
  TryFindLogicalGet node = TryFindLogicalGet child -> exprs_ok child es -> plan_ok child ->
  plan_rows F tables child = Some rows -> r ∈ rows -> e ∈ es ->
  eval_row F (plan_expr node e) (narrow child r) = eval_row F e r.
Proof.
  intros Hn [Ht Hc] Hok Hrows Hr He. unfold plan_expr, narrow. rewrite Hn, Ht, CloneExpr_id.
  destruct (get_source child) as [g|] eqn:Eg; [|done]. apply Remap_eval.
  - pose proof (source_rows_in child g rows r Eg Hrows Hr) as Hin.
    destruct (Hc g eq_refl) as [Hnil|Hcov]; [rewrite Hnil in Hin; by apply elem_of_nil in Hin|].
    by apply (proj1 (Forall_forall _ _) Hcov).
  - by apply (source_rows_cover child g rows).
Qed.

Lemma plan_exprs_project node child es rows r :
  TryFindLogicalGet node = TryFindLogicalGet child -> exprs_ok child es -> plan_ok child ->
  plan_rows F tables child = Some rows -> r ∈ rows ->
  project_row F (plan_expr node <$> es) (narrow child r) = project_row F es r.
Proof.
  intros Hn Hok Hpc Hrows Hr. unfold project_row. apply mapM_fmap_ext. intros e He.
  by apply (plan_expr_eval node child es e rows r).
Qed.

Lemma plan_keys node child ks rows r :
  TryFindLogicalGet node = TryFindLogicalGet child -> exprs_ok child ks -> plan_ok child ->
  plan_rows F tables child = Some rows -> r ∈ rows ->
  key_values F (plan_expr node <$> ks) (narrow child r) = key_values F ks r.
Proof.
  intros Hn Hok Hpc Hrows Hr. unfold key_values. rewrite <- list_fmap_compose. apply list_fmap_ext. intros i k Hk. simpl.
  rewrite (plan_expr_eval node child ks k rows r); try done. by eapply list_elem_of_lookup_2.
Qed.

(** *** Aggregation of rows that agree on its inputs *)

Lemma group_rows_fmap (gs : list LogicalExpr) (f : sql_row -> sql_row) (rows : list sql_row) :
  (forall r e, r ∈ rows -> e ∈ gs -> eval_row F e (f r) = eval_row F e r) ->
  group_rows F gs (f <$> rows) = (fun g : list Value * list sql_row => (g.1, f <$> g.2)) <$> group_rows F gs rows.
Proof.
  unfold group_rows. induction rows as [|r rows IH] using rev_ind; intros Hf; [done|]. rewrite fmap_app. cbn [fmap list_fmap].
  rewrite !foldl_snoc, IH by (intros; apply Hf; set_solver).
  assert (group_key_of F gs (f r) = group_key_of F gs r) as ->.
  { unfold group_key_of. rewrite <- (list_fmap_id gs) at 1. apply mapM_fmap_ext. intros e He. simpl. rewrite Hf; [done|set_solver|done]. }
  generalize (foldl (fun groups r => insert_group (default [] (group_key_of F gs r)) [r] groups) [] rows). intros groups.
  generalize (default [] (group_key_of F gs r)). intros k.
  induction groups as [|[k' rs] groups IHg]; [done|]. rewrite fmap_cons. cbn [insert_group fst snd].
  destruct (keys_eqb k' k); [by rewrite fmap_cons; cbn [fst snd]; rewrite fmap_app|]. by rewrite fmap_cons, IHg.
Qed.

Lemma group_rows_subset gs rows g : g ∈ group_rows F gs rows -> forall r, r ∈ g.2 -> r ∈ rows.
Proof.
  unfold group_rows. revert g. induction rows as [|r rows IH] using rev_ind; intros g Hg; [by apply elem_of_nil in Hg|].
  rewrite foldl_snoc in Hg. revert Hg IH.
  generalize (foldl (fun groups r => insert_group (default [] (group_key_of F gs r)) [r] groups) [] rows). intros groups.
  generalize (default [] (group_key_of F gs r)). intros k Hg IH.
  induction groups as [|[k' rs] groups IHg]; cbn [insert_group] in Hg.
  - apply list_elem_of_singleton in Hg as ->. simpl. set_solver.
  - destruct (keys_eqb k' k); apply elem_of_cons in Hg as [->|Hg].
    + simpl. intros x Hx. apply elem_of_app in Hx as [Hx|Hx]; [|set_solver].
      apply elem_of_app. left. apply (IH (k', rs)); [by left|done].
    + intros x Hx. apply elem_of_app. left. apply (IH g); [by right|done].
    + intros x Hx. apply elem_of_app. left. apply (IH (k', rs)); [by left|done].
    + apply IHg; [done|]. intros g' Hg'. apply IH. by right.
Qed.

Lemma agg_cell_fmap a (f : sql_row -> sql_row) (rs : list sql_row) :
  (forall r e, r ∈ rs -> e ∈ agg_inputs [] [a] -> eval_row F e (f r) = eval_row F e r) ->
  agg_cell F a (f <$> rs) = agg_cell F a rs.
Proof.
  intros Hf. destruct a as [| | | | |rt func st arg]; try done. cbn [agg_cell]. rewrite length_fmap.
  destruct st; [done|].
  assert (arg_cells F arg (f <$> rs) = arg_cells F arg rs) as ->; [|done].
  destruct arg as [e|]; [|done]. simpl. unfold agg_inputs in Hf. simpl in Hf.
  induction rs as [|r rs IH]; [done|]. rewrite fmap_cons. cbn [omap list_omap]. rewrite Hf by set_solver.
  by rewrite IH by (intros; apply Hf; set_solver).
Qed.

Lemma agg_inputs_in gs aggs a e : a ∈ aggs -> e ∈ agg_inputs [] [a] -> e ∈ agg_inputs gs aggs.
Proof.
  intros Ha He. unfold agg_inputs in *. simpl in He. apply elem_of_app. right. apply list_elem_of_omap.
  exists a. split; [done|]. destruct a as [| | | | |rt func [] [arg|]]; simpl in *; try (by apply elem_of_nil in He).
  by apply list_elem_of_singleton in He as ->.
Qed.

Lemma aggregated_fmap gs aggs (f : sql_row -> sql_row) (rows : list sql_row) :
  (forall r e, r ∈ rows -> e ∈ agg_inputs gs aggs -> eval_row F e (f r) = eval_row F e r) ->
  aggregated F gs aggs (f <$> rows) = aggregated F gs aggs rows.
Proof.
  intros Hf. unfold aggregated.
  assert (defined_rows F (agg_inputs gs aggs) (f <$> rows) = defined_rows F (agg_inputs gs aggs) rows) as ->.
  { unfold defined_rows. clear -Hf. induction rows as [|r rows IH]; [done|]. rewrite fmap_cons. simpl. f_equal.
    - assert (forall e, e ∈ agg_inputs gs aggs -> eval_row F e (f r) = eval_row F e r) as He by (intros; apply Hf; set_solver).
      clear -He. induction (agg_inputs gs aggs) as [|e es IH]; [done|]. simpl. rewrite He by set_solver.
      f_equal. apply IH. intros; apply He; set_solver.
    - apply IH. intros; apply Hf; set_solver. }
  destruct (defined_rows _ _ _); [|done]. unfold aggregate_rows.
  assert (sql_groups F gs (f <$> rows) = (fun g : list Value * list sql_row => (g.1, f <$> g.2)) <$> sql_groups F gs rows) as ->.
  { pose proof (group_rows_fmap gs f rows) as Hg. unfold sql_groups. destruct gs as [|e gs'], rows; try done;
      apply Hg; intros; apply Hf; try done; unfold agg_inputs; set_solver. }
  apply mapM_fmap_ext. intros g Hg. unfold group_row. simpl. f_equal.
  rewrite <- (list_fmap_id aggs) at 1. apply mapM_fmap_ext. intros a Ha. apply agg_cell_fmap. intros r e Hr He.
  apply Hf; [|by eapply agg_inputs_in]. unfold sql_groups in Hg. destruct gs, rows; try by eapply group_rows_subset.
  apply list_elem_of_singleton in Hg as ->. by apply elem_of_nil in Hr.
Qed.

Lemma agg_inputs_refs gs aggs e i : e ∈ agg_inputs gs aggs -> i ∈ refs e -> i ∈ ⋃ (refs <$> (gs ++ aggs)).
Proof.
  intros He Hi. apply elem_of_union_list. unfold agg_inputs in He. apply elem_of_app in He as [He|He].
  - exists (refs e). split; [|done]. apply list_elem_of_fmap. exists e. split; [done|set_solver].
  - apply list_elem_of_omap in He as (a & Ha & He). exists (refs a). split; [apply list_elem_of_fmap; exists a; split; [done|set_solver]|].
    destruct a as [| | | | |rt func [] [arg|]]; simplify_eq. done.
Qed.

(** *** Joins *)

Lemma join_rows_keys cond lk rk lt rt (L R : list sql_row) :
  (forall x y, x ∈ L -> y ∈ R -> row_passes F cond (x ++ y) = keys_match (key_of lt lk x) (key_of rt rk y)) ->
  nested_loop_join lt lk rt rk L R = join_rows F cond L R.
Proof.
  intros Hk. unfold nested_loop_join, join_rows.
  assert (forall l, l ∈ L -> (fun r => l ++ r) <$> filter (fun r => keys_match (key_of lt lk l) (key_of rt rk r) = true) R =
    passing F cond ((fun r => l ++ r) <$> R)) as Hl.
  { intros l Hl. unfold passing. symmetry. apply filter_fmap. intros r Hr. by apply Hk. }
  clear Hk. induction L as [|l L IH]; [done|]. rewrite !bind_cons, Hl, IH by (try intros; set_solver). done.
Qed.

Lemma PlanNode_types p hint : is_Some (plan_rows F tables p) -> phys_types (PlanNode hint p) = output_types (plan_out p).
Proof. destruct p; cbn; try done; by intros [? ?]. Qed.

(** What the operators compute with a hint is the rows or a prefix of them. *)
Lemma PlanNode_rows p hint res :
  plan_ok p -> plan_rows F tables p = Some res ->
  exists rows', phys_rows (PlanNode hint p) = Some rows' /\
    (rows' = narrow p <$> res \/
     exists k, hint = Some k /\ (0 <= k)%Z /\ rows' = take (Z.to_nat k) (narrow p <$> res)).
Proof.
  revert hint res. induction p as [out g|out pred c IH|out es c IH|out l o c IH|out ks asc c IH|out gs aggs c IH
    |out cond lk rk l IHl r IHr| | | | | |]; intros hint res Hok Hr; try done; cbn [plan_ok plan_rows] in *.
  - injection Hr as <-. eexists. split; [reflexivity|]. left. destruct Hok as [Hcov Hf]. unfold get_rows, narrow. cbn [get_source].
    apply filter_fmap. intros r Hr. destruct Hf as [Hnil|Hf].
    { unfold table_of in Hnil. rewrite Hnil in Hr. by apply elem_of_nil in Hr. }
    apply (proj1 (Forall_forall _ _) Hcov) in Hr. clear -Hf Hr tables. induction Hf as [|f fs Hf _ IH]; [done|]. rewrite fmap_cons. simpl. rewrite CloneExpr_id, Remap_passes, IH by done. done.
  - destruct Hok as [He Hok]. apply fmap_Some in Hr as (crows & Hc & ->).
    destruct (IH None crows Hok Hc) as (rows' & Hp & [->|(? & ? & _)]); [|done].
    plan_step. rewrite Hp. eexists. split; [reflexivity|]. left. unfold passing. apply filter_fmap. intros r Hr.
    unfold row_passes. change (narrow (LFilter out pred c) r) with (narrow c r).
    by rewrite (plan_expr_eval (LFilter out pred c) c [pred] pred crows r) by (done || set_solver).
  - destruct Hok as [He Hok]. apply bind_Some in Hr as (crows & Hc & Hm).
    assert (narrow (LProjection out es c) <$> res = res) as Hn by apply list_fmap_id.
    assert (mapM (project_row F (plan_expr (LProjection out es c) <$> es)) (narrow c <$> crows) = Some res) as Hm'.
    { rewrite <- Hm. apply mapM_fmap_ext. intros r Hr. by apply (plan_exprs_project (LProjection out es c) c es crows r). }
    destruct (IH hint crows Hok Hc) as (rows' & Hp & [->|(k & -> & Hk & ->)]); plan_step; rewrite Hp; cbn [mbind option_bind].
    + exists res. split; [done|]. by left.
    + exists (take (Z.to_nat k) res). split; [by apply mapM_take|]. right. exists k. by rewrite Hn.
  - destruct Hok as [Hl Hok]. apply fmap_Some in Hr as (crows & Hc & ->). plan_step.
    set (h := limit_hint l o c).
    destruct (IH h crows Hok Hc) as (rows' & Hp & Hcase). rewrite Hp. eexists. split; [reflexivity|]. left.
    change (narrow (LLimit out l o c)) with (narrow c). rewrite window_fmap.
    destruct Hcase as [->|(k & Hk & _ & ->)]; [done|]. unfold h, limit_hint in Hk.
    destruct (Z.leb 0 l && FindTopKSortCandidate c)%bool eqn:E; [|done]. injection Hk as <-.
    apply andb_true_iff in E as [E%Z.leb_le _]. by apply window_top_k.
  - destruct Hok as [He Hok]. apply fmap_Some in Hr as (crows & Hc & ->).
    destruct (IH None crows Hok Hc) as (rows' & Hp & [->|(? & ? & _)]); [|done].
    plan_step. rewrite Hp. cbn [fmap option_fmap option_map]. eexists. split; [reflexivity|].
    change (narrow (LSort out ks asc c)) with (narrow c).
    assert (sort_rows F (plan_expr (LSort out ks asc c) <$> ks) asc (narrow c <$> crows) = narrow c <$> sort_rows F ks asc crows) as ->.
    { unfold sort_rows. apply stable_sort_fmap. intros x y Hx Hy.
      by rewrite !(plan_keys (LSort out ks asc c) c ks crows) by done. }
    destruct hint as [k|]; [|by left]. simpl. destruct (Z.leb_spec 0 k); [right; by exists k|by left].
  - destruct Hok as [Hid Hok]. apply bind_Some in Hr as (crows & Hc & Ha).
    destruct (IH None crows Hok Hc) as (rows' & Hp & [->|(? & ? & _)]); [|done].
    plan_step. rewrite Hp. cbn [mbind option_bind group_exprs aggr_exprs].
    assert (forall es : list LogicalExpr, plan_expr (LAggregate out gs aggs c) <$> es = es) as Hpe.
    { intros es. rewrite <- (list_fmap_id es) at 2. apply list_fmap_ext. intros i e _. unfold plan_expr. simpl. by rewrite CloneExpr_id. }
    rewrite !Hpe. exists res. split; [|left; symmetry; apply list_fmap_id]. rewrite <- Ha. apply aggregated_fmap.
    intros r e Hr He. unfold narrow. destruct (get_source c) as [g|] eqn:Eg; [|done]. apply eval_row_refs. intros i Hi.
    assert (table_of g <> []) as Hne
      by (intros Hnil; pose proof (source_rows_in c g crows r Eg Hc Hr) as Hin; rewrite Hnil in Hin; by apply elem_of_nil in Hin).
    pose proof (Hid g i Eg Hne (agg_inputs_refs _ _ _ _ He Hi)) as Hgi.
    unfold select_cols. rewrite list_lookup_fmap, Hgi. simpl.
    pose proof (source_rows_cover c g crows r Hok Eg Hc Hr) as Hcov.
    apply (proj1 (Forall_lookup _ _) Hcov) in Hgi. apply lookup_lt_is_Some in Hgi as [x ->]. done.
  - destruct Hok as (Hk & Hokl & Hokr). apply bind_Some in Hr as (L & HL & Hr). apply bind_Some in Hr as (R & HR & Hr). injection Hr as <-.
    destruct (IHl None L Hokl HL) as (L' & HpL & [->|(? & ? & _)]); [|done].
    destruct (IHr None R Hokr HR) as (R' & HpR & [->|(? & ? & _)]); [|done].
    plan_step. rewrite HpL, HpR. cbn [mbind option_bind]. eexists. split; [reflexivity|].
    left. rewrite PlanNode_types by eauto. unfold narrow at 3. cbn [get_source]. rewrite list_fmap_id.
    apply join_rows_keys. intros x y Hx Hy. apply (Hk (narrow l <$> L) (narrow r <$> R)); [| |done|done]; unfold query_rows; by rewrite ?HL, ?HR.
Qed.

End rows.

(** ** Equality joins *)

(** A condition that is nothing but equalities between a column of the left and
    one of the right side, of the same type. *)
Fixpoint pure_equi (cond : LogicalExpr) (n : nat) : bool :=
  match cond with
  | LogicalBinaryOp _ op l r =>
      if String.eqb op "AND" then pure_equi l n && pure_equi r n
      else String.eqb op "=" &&
        match l, r with
        | BoundColumnRef t li _, BoundColumnRef t' ri _ =>
            bool_decide (t = t') && ((Nat.ltb li n && Nat.leb n ri) || (Nat.ltb ri n && Nat.leb n li))
        | _, _ => false
        end
  | _ => false
  end.

(** The rows of a side have the cells of its types, NULLs allowed. *)
Definition row_typed (types : list TypeId) (r : sql_row) : Prop :=
  Forall2 (fun t x => forall c, x = Some c -> cell_fits t c) types r.

Section equi.
Context (F : FPU).

Lemma row_passes_and t p q r :
  row_passes F (LogicalBinaryOp t "AND" p q) r = row_passes F p r && row_passes F q r.
Proof.
  unfold row_passes. cbn [eval_row]. destruct (eval_row F p r) as [x|]; [|done]. cbn [mbind option_bind].
  destruct (eval_row F q r) as [y|]; cbn [mbind option_bind]; [|by rewrite andb_false_r].
  destruct x as [[a|a|a]|], y as [[b|b|b]|]; cbn; rewrite ?andb_false_r; try done.
  by destruct (Z.eqb a 0), (Z.eqb b 0).
Qed.

Definition key_match (lt : list TypeId) (i : nat) (rt : list TypeId) (j : nat) (x y : sql_row) : bool :=
  keys_match (key_of lt [i] x) (key_of rt [j] y).

Lemma mapM_snoc {A B} (f : A -> option B) l x :
  mapM f (l ++ [x]) = (vs ← mapM f l; v ← f x; Some (vs ++ [v])).
Proof.
  induction l as [|y l IH]; cbn [app mapM]; [cbn [mbind option_bind mret]; by destruct (f x)|].
  rewrite IH. destruct (f y); [|done]. cbn [mbind option_bind]. destruct (mapM f l); [|done]. cbn [mbind option_bind mret].
  by destruct (f x).
Qed.

Lemma keys_match_snoc lt lk i rt rk j x y :
  length lk = length rk ->
  keys_match (key_of lt (lk ++ [i]) x) (key_of rt (rk ++ [j]) y) =
  keys_match (key_of lt lk x) (key_of rt rk y) && key_match lt i rt j x y.
Proof.
  assert (forall ts ks k r, key_of ts (ks ++ [k]) r = (vs ← key_of ts ks r; vs' ← key_of ts [k] r; Some (vs ++ vs'))) as Happ.
  { intros ts ks k r. unfold key_of. rewrite mapM_snoc. cbn [mapM]. destruct (mapM _ ks); [|done]. cbn [mbind option_bind].
    by destruct (t ← ts !! k; _). }
  intros Hlen. rewrite !Happ. unfold key_match.
  assert (forall ts ks r vs, key_of ts ks r = Some vs -> length vs = length ks) as Hkl
    by (intros ts ks r vs Hk; apply mapM_Some in Hk; symmetry; by eapply Forall2_length).
  destruct (key_of lt lk x) as [a|] eqn:Ea; [|done]. cbn [mbind option_bind].
  destruct (key_of rt rk y) as [b|] eqn:Eb; cbn [mbind option_bind].
  2: { by destruct (key_of lt [i] x). }
  destruct (key_of lt [i] x) as [a'|]; cbn [mbind option_bind]; [|by rewrite andb_false_r].
  destruct (key_of rt [j] y) as [b'|]; cbn [mbind option_bind keys_match]; [|by rewrite andb_false_r].
  apply Hkl in Ea, Eb. assert (length a = length b) as Hab by congruence. clear -Hab. revert b Hab.
  induction a as [|u a IH]; intros [|v b] Hab; try done. simpl. rewrite IH by (simpl in Hab; lia). by rewrite andb_assoc.
Qed.

(** Equality of two cells of a type is equality of their values. *)
Lemma compare_cells_eq t a b :
  cell_fits t a -> cell_fits t b -> compare_cells "=" a b = Some (Value_eqb (cell_value t a) (cell_value t b)).
Proof.
  intros Ha Hb. destruct (cell_value_spec t a Ha) as (_ & Hta & Hna & _). destruct (cell_value_spec t b Hb) as (_ & Htb & _).
  unfold Value_eqb. rewrite Hta, Htb, Hna, bool_decide_true by done.
  destruct a as [a|a|a], b as [b|b|b]; simpl in Ha, Hb; destruct t; naive_solver.
Qed.

(** One equality between columns of the same type. *)
Lemma equality_match t t' lt rt li ri nm nm' x y :
  row_typed lt x -> row_typed rt y -> lt !! li = Some t -> rt !! ri = Some t ->
  row_passes F (LogicalBinaryOp t' "=" (BoundColumnRef t li nm) (BoundColumnRef t (length lt + ri) nm')) (x ++ y) =
    key_match lt li rt ri x y /\
  row_passes F (LogicalBinaryOp t' "=" (BoundColumnRef t (length lt + ri) nm') (BoundColumnRef t li nm)) (x ++ y) =
    key_match lt li rt ri x y.
Proof.
  intros Hx Hy Hl Hr. pose proof (Forall2_length _ _ _ Hx) as Hlx.
  destruct (Forall2_lookup_l _ _ _ _ _ Hx Hl) as (cx & Hcx & Hfx). destruct (Forall2_lookup_l _ _ _ _ _ Hy Hr) as (cy & Hcy & Hfy).
  unfold row_passes, key_match, key_of. cbn [eval_row mapM].
  rewrite Hl, Hr, Hcx, Hcy. rewrite (lookup_app_l_Some x y li cx) by done.
  rewrite (lookup_app_r x y) by lia. replace (length lt + ri - length x) with ri by lia. rewrite Hcy. cbn [mbind option_bind].
  destruct cx as [a|], cy as [b|]; cbn [mbind option_bind binary_cell]; try done.
  specialize (Hfx a eq_refl). specialize (Hfy b eq_refl).
  change (is_arithmetic "=") with false. change (is_comparison "=") with true. cbv iota.
  rewrite !(compare_cells_eq t) by done. cbn [keys_match keys_eqb mret option_ret mbind option_bind]. rewrite (Value_eqb_sym (cell_value t b)), andb_true_r.
  by destruct (Value_eqb (cell_value t a) (cell_value t b)).
Qed.

(** The extracted keys say what the condition says. *)
Lemma equi_keys lt rt cond lk rk x y :
  pure_equi cond (length lt) = true -> well_typed (lt ++ rt) cond = true -> row_typed lt x -> row_typed rt y ->
  length lk = length rk ->
  let keys := ExtractEquiJoinKeys cond (length lt) (lk, rk) in
  length keys.1 = length keys.2 /\
  keys_match (key_of lt keys.1 x) (key_of rt keys.2 y) =
    keys_match (key_of lt lk x) (key_of rt rk y) && row_passes F cond (x ++ y).
Proof.
  intros Hp Hw Hx Hy. revert lk rk. induction cond as [| |t op l IHl r IHr| | |]; intros lk rk Hlen; try done.
  cbn [pure_equi well_typed] in Hp, Hw. cbn [ExtractEquiJoinKeys]. apply andb_true_iff in Hw as [Hw _]. apply andb_true_iff in Hw as [Hwl Hwr].
  destruct (String.eqb_spec op "AND") as [->|Hand].
  - apply andb_true_iff in Hp as [Hpl Hpr]. destruct (IHl Hpl Hwl lk rk Hlen) as [Hlen1 Hm1].
    destruct (ExtractEquiJoinKeys l (length lt) (lk, rk)) as [lk1 rk1] eqn:E1. simpl in Hlen1, Hm1.
    destruct (IHr Hpr Hwr lk1 rk1 Hlen1) as [Hlen2 Hm2]. split; [done|]. by rewrite Hm2, Hm1, row_passes_and, andb_assoc.
  - apply andb_true_iff in Hp as [Hop Hp]. rewrite Hop. apply String.eqb_eq in Hop as ->.
    destruct l as [tl li nl| | | | |]; try done. destruct r as [tr ri nr| | | | |]; try done.
    apply andb_true_iff in Hp as [Ht Hp]. apply bool_decide_eq_true in Ht as ->.
    cbn [well_typed] in Hwl, Hwr. apply bool_decide_eq_true in Hwl, Hwr.
    destruct (Nat.ltb_spec li (length lt)) as [Hl|Hl], (Nat.leb_spec (length lt) ri) as [Hr|Hr],
      (Nat.ltb_spec ri (length lt)) as [Hr'|Hr'], (Nat.leb_spec (length lt) li) as [Hl'|Hl'];
      cbn [andb orb] in Hp |- *; try lia; try done.
    + rewrite lookup_app_l in Hwl by done. rewrite lookup_app_r in Hwr by done. cbn [fst snd]. split; [rewrite !length_app; simpl; lia|].
      rewrite keys_match_snoc by done. f_equal. symmetry.
      replace ri with (length lt + (ri - length lt)) at 1 by lia. by apply equality_match.
    + rewrite lookup_app_r in Hwl by done. rewrite lookup_app_l in Hwr by done. cbn [fst snd].
      split; [rewrite !length_app; simpl; lia|]. rewrite keys_match_snoc by done. f_equal. symmetry.
      replace li with (length lt + (li - length lt)) at 1 by lia. by apply equality_match.
Qed.

End equi.

(** ** Theorems *)

(** C19: if the rows of a logical plan are defined, the physical plan made from
    it has the same rows, both read by the ideal meaning of their operators
    ([query_rows], [phys_rows]), when scans deliver the columns the expressions
    above them use and the rows of their tables have these columns, the
    translation finds the scan whose rows an expression reads, aggregations read
    columns that stand at their own positions in the scan, the keys of every
    join are equivalent to its condition on the rows joined, and LIMIT plus
    OFFSET fits int64_t ([plan_ok]). Outside these conditions it fails:
    [cast_join_is_cross_product], [aggregate_reads_wrong_column]. *)
Theorem planner_rows F tables p rows :
  plan_ok F tables p -> query_rows F tables p = Some rows -> phys_rows F tables (Plan p) = Some rows.
Proof.
  intros Hok Hq. unfold query_rows in Hq. apply fmap_Some in Hq as (wide & Hw & ->).
  destruct (PlanNode_rows F tables p None wide Hok Hw) as (rows' & Hp & [->|(k & [=] & _)]). done.
Qed.

(** Table [t(a, b, c)], and [SELECT c FROM t WHERE a > 1 ORDER BY a LIMIT 1] with
    the scan of the columns [a] and [c]. *)
Definition sample_tables (s t : string) : list sql_row :=
  if String.eqb t "t" then
    [[Some (CInt 3); Some (CInt 7); Some (CInt 30)]; [Some (CInt 2); None; Some (CInt 20)];
     [Some (CInt 1); Some (CInt 9); Some (CInt 10)]]
  else [].
Definition int_ref (i : nat) (n : string) : LogicalExpr := BoundColumnRef INT64 i n.
Definition sample_get (ids : list nat) : LogicalPlan := LGet no_output (mkGet "main" "t" ids 3 PI_none []).
Definition sample_plan : LogicalPlan :=
  LLimit no_output 1 0 (LProjection no_output [int_ref 2 "c"] (LSort no_output [int_ref 0 "a"] [true]
    (LFilter no_output (LogicalBinaryOp BOOLEAN ">" (int_ref 0 "a") (LogicalLit INT64 (Value_Integer 1) false))
      (sample_get [0; 2])))).

Lemma planner_rows_witness :
  plan_ok sample_FPU sample_tables sample_plan /\
  phys_rows sample_FPU sample_tables (Plan sample_plan) = Some [[Some (CInt 20)]].
Proof.
  assert (plan_ok sample_FPU sample_tables sample_plan) as Hok.
  { cbn [plan_ok sample_plan sample_get]. 
    assert (forall i n, i = 0 \/ i = 2 -> covered [0; 2] (int_ref i n)) as Hc.
    { intros i n Hi j Hj. unfold refs in Hj. cbn in Hj. set_solver. }
    split; [vm_compute; congruence|]. split.
    { split; [reflexivity|]. intros g [= <-]. right. apply Forall_cons; split; [apply Hc; by right|apply Forall_nil_2]. }
    split.
    { split; [reflexivity|]. intros g [= <-]. right. apply Forall_cons; split; [apply Hc; by left|apply Forall_nil_2]. }
    split.
    { split; [reflexivity|]. intros g [= <-]. right. apply Forall_cons; split; [|apply Forall_nil_2].
      intros j Hj. rewrite refs_binary in Hj. unfold refs in Hj. cbn in Hj. set_solver. }
    split; [|right; constructor]. repeat constructor; simpl; lia. }
  split; [exact Hok|]. apply (planner_rows sample_FPU sample_tables sample_plan); [exact Hok|]. vm_compute. reflexivity.
Defined.

(** The keys the binder extracts from an ON condition made of
    equalities between columns of the same type say what the condition says, for
    NULLs too: the hash join on the keys is the join on the condition. *)
Theorem equi_join_exact F lt rt cond x y :
  pure_equi cond (length lt) = true -> well_typed (lt ++ rt) cond = true -> row_typed lt x -> row_typed rt y ->
  let keys := ExtractEquiJoinKeys cond (length lt) ([], []) in
  keys_match (key_of lt keys.1 x) (key_of rt keys.2 y) = row_passes F cond (x ++ y).
Proof. intros Hp Hw Hx Hy keys. unfold keys. destruct (equi_keys F lt rt cond [] [] x y Hp Hw Hx Hy eq_refl) as [_ ->]. done. Qed.

(** [t.a = u.a AND u.b = t.b] *)
Definition sample_on : LogicalExpr :=
  LogicalBinaryOp BOOLEAN "AND"
    (LogicalBinaryOp BOOLEAN "=" (int_ref 0 "a") (int_ref 2 "a"))
    (LogicalBinaryOp BOOLEAN "=" (int_ref 3 "b") (int_ref 1 "b")).

Lemma equi_join_exact_witness :
  let keys := ExtractEquiJoinKeys sample_on 2 ([], []) in
  keys = ([0; 1], [0; 1]) /\
  keys_match (key_of [INT64; INT64] keys.1 [Some (CInt 1); None]) (key_of [INT64; INT64] keys.2 [Some (CInt 1); None]) =
  row_passes sample_FPU sample_on [Some (CInt 1); None; Some (CInt 1); None].
Proof.
  split; [reflexivity|].
  apply (equi_join_exact sample_FPU [INT64; INT64] [INT64; INT64] sample_on [Some (CInt 1); None] [Some (CInt 1); None]).
  - reflexivity.
  - vm_compute. reflexivity.
  - repeat constructor; intros; simplify_eq; by split.
  - repeat constructor; intros; simplify_eq; by split.
Defined.

Lemma filter_all_true {A} (l : list A) : filter (fun _ => true = true) l = l.
Proof. induction l as [|x l IH]; [done|]. by rewrite filter_cons_True, IH. Qed.

Lemma no_keys_cross lt rt (L R : list sql_row) : nested_loop_join lt [] rt [] L R = (l ← L; (fun r => l ++ r) <$> R).
Proof.
  unfold nested_loop_join. induction L as [|l L IH]; [done|]. rewrite !bind_cons, IH. f_equal. f_equal. apply filter_all_true.
Qed.

(** What is not an equality between two columns is not evaluated: when
    the columns of an equality differ in type the binder casts them, no key is
    left, and the join is the cross product of its sides. *)
Theorem cast_join_is_cross_product F tables :
  let cond := LogicalBinaryOp BOOLEAN "=" (LogicalCast FLOAT64 INT32 (BoundColumnRef INT32 0 "a"))
                (LogicalCast FLOAT64 INT64 (BoundColumnRef INT64 1 "a")) in
  let keys := ExtractEquiJoinKeys cond 1 ([], []) in
  let scan name t := LGet (mkOut [t] ["a"%string]) (mkGet "main" name [0] 0 PI_none []) in
  let L := select_cols [0] <$> tables "main"%string "t"%string in
  let R := select_cols [0] <$> tables "main"%string "u"%string in
  phys_rows F tables (Plan (LJoin no_output cond keys.1 keys.2 (scan "t"%string INT32) (scan "u"%string INT64))) =
    Some (l ← L; (fun r => l ++ r) <$> R).
Proof.
  cbv zeta. cbn [ExtractEquiJoinKeys String.eqb Ascii.eqb Bool.eqb fst snd Plan PlanNode PlanGet PlanJoin phys_rows forallb fmap list_fmap mbind option_bind
    get_schema_name get_table_name get_column_ids get_pushed_filters].
  by rewrite no_keys_cross, !filter_all_true.
Qed.
