(* ===== verification/Optimizer.v ===== *)
(** * The optimizer

    [planner/optimizer.cpp]: four passes over a logical plan.  Constant folding
    evaluates operators on literals and drops filters that are always true or
    always false; predicate pushdown moves the predicates of filters into the
    scan below; column pruning restricts a scan to the columns that are read
    above it; filter merging joins stacked filters.

    The claims are that the passes do not change the rows of a query, and that
    the plan they leave is one whose references the planner resolves, so that
    the operators compute the rows of the query the binder built.  Others show
    where this fails: integer arithmetic is folded in 64 bits but evaluated in
    doubles, a folded comparison is a literal that the evaluator cannot read,
    and an aggregation over a pruned scan reads the wrong columns. *)

From Stdlib Require Import ZArith String.
From stdpp Require Import base gmap strings list fin_maps.
From S2P Require Import Prelude Types Double Expr PartitionInfo Operators HashJoin Sorting Sort Aggregate Schema LogicalPlan PhysicalPlanner.

(** ** Constant folding *)

(** The literals are tested by their [result_type]. *)
Definition IsNumericLit (t : TypeId) : bool := is_int_type t || is_float_type t.
Definition IsBoolLit (t : TypeId) : bool := bool_decide (t = BOOLEAN).

Definition LitToDouble (t : TypeId) (v : Value) : result Z :=
  if is_float t then GetFloat64 v else f64_of_i64 <$> GetInt64 v.

Definition MakeIntLit (z : Z) : LogicalExpr := LogicalLit INT64 (Value_Integer z) false.
Definition MakeFloatLit (b : Z) : LogicalExpr := LogicalLit FLOAT64 (Value_Float b) false.
Definition MakeBoolLit (b : bool) : LogicalExpr := LogicalLit BOOLEAN (Value_Boolean b) false.

(** An [int64_t] result; overflow is undefined. *)
Definition checked_i64 (z : Z) : result Z :=
  if Z.leb INT64_MIN z && Z.leb z INT64_MAX then Ok z else Err UndefinedBehaviour.

(** The integer operators; [None] is the division by zero that is not folded. *)
Definition int_arith (op : string) (lv rv : Z) : result (option Z) :=
  if String.eqb op "+" then Some <$> checked_i64 (lv + rv)
  else if String.eqb op "-" then Some <$> checked_i64 (lv - rv)
  else if String.eqb op "*" then Some <$> checked_i64 (lv * rv)
  else if Z.eqb rv 0 then Ok None
  else Some <$> checked_i64 (Z.quot lv rv).

Section optimizer.
Context (F : FPU).

(** The part of [FoldExpr] for a binary operator [e] on two literals that are
    not NULL. *)
Definition fold_binary (e : LogicalExpr) (op : string) (lt : TypeId) (lval : Value) (rt : TypeId) (rval : Value)
    : result LogicalExpr :=
  let both_numeric := IsNumericLit lt && IsNumericLit rt in
  let any_float := is_float lt || is_float rt in
  if is_arithmetic op then
    if negb both_numeric then Ok e
    else if any_float then
      lv ← LitToDouble lt lval; rv ← LitToDouble rt rval;
      Ok (match arith F op lv rv with Some res => MakeFloatLit res | None => e end)
    else
      lv ← GetInt64 lval; rv ← GetInt64 rval; res ← int_arith op lv rv;
      Ok (match res with Some z => MakeIntLit z | None => e end)
  else if is_comparison op then
    if negb both_numeric then
      if String.eqb op "=" && negb (IsBoolLit lt) && negb (IsBoolLit rt) then
        eq ← Value_eq lval rval; Ok (MakeBoolLit eq)
      else Ok e
    else if any_float then
      lv ← LitToDouble lt lval; rv ← LitToDouble rt rval; Ok (MakeBoolLit (compare_doubles op lv rv))
    else
      lv ← GetInt64 lval; rv ← GetInt64 rval; Ok (MakeBoolLit (compare_ints op lv rv))
  else if is_logical op then
    if negb (IsBoolLit lt && IsBoolLit rt) then Ok e
    else
      lv ← GetBool lval; rv ← GetBool rval;
      Ok (MakeBoolLit (if String.eqb op "AND" then lv && rv else lv || rv))
  else Ok e.

Definition fold_unary (e : LogicalExpr) (op : string) (t : TypeId) (v : Value) : result LogicalExpr :=
  if String.eqb op "NOT" && IsBoolLit t then b ← GetBool v; Ok (MakeBoolLit (negb b))
  else if String.eqb op "-" && IsNumericLit t then
    if is_float t then b ← LitToDouble t v; Ok (MakeFloatLit (f64_opp b))
    else z ← GetInt64 v; z ← checked_i64 (- z); Ok (MakeIntLit z)
  else Ok e.

(** [Optimizer::FoldExpr] *)
Fixpoint FoldExpr (e : LogicalExpr) : result LogicalExpr :=
  match e with
  | LogicalBinaryOp t op l r =>
      l ← FoldExpr l; r ← FoldExpr r;
      let e := LogicalBinaryOp t op l r in
      match l, r with
      | LogicalLit lt lv false, LogicalLit rt rv false => fold_binary e op lt lv rt rv
      | _, _ => Ok e
      end
  | LogicalUnaryOp t op c =>
      c ← FoldExpr c;
      let e := LogicalUnaryOp t op c in
      match c with
      | LogicalLit ct v false => fold_unary e op ct v
      | _ => Ok e
      end
  | _ => Ok e
  end.

Definition empty_get (out : OutputSchema) : LogicalPlan := LGet out (mkGet "" "__empty__" [] 0 PI_none []).

(** [Optimizer::FoldPlan] *)
Fixpoint FoldPlan (p : LogicalPlan) : result LogicalPlan :=
  match p with
  | LFilter out pred c =>
      c ← FoldPlan c; pred ← FoldExpr pred;
      match pred with
      | LogicalLit t v false =>
          if bool_decide (t = BOOLEAN) then
            b ← GetBool v; Ok (if b : bool then c else empty_get out)
          else Ok (LFilter out pred c)
      | _ => Ok (LFilter out pred c)
      end
  | LProjection out es c => c ← FoldPlan c; es ← mapM_r FoldExpr es; Ok (LProjection out es c)
  | LLimit out l o c => c ← FoldPlan c; Ok (LLimit out l o c)
  | LSort out ks asc c => c ← FoldPlan c; Ok (LSort out ks asc c)
  | LAggregate out gs aggs c => c ← FoldPlan c; Ok (LAggregate out gs aggs c)
  | LJoin out cond lk rk l r => l ← FoldPlan l; r ← FoldPlan r; Ok (LJoin out cond lk rk l r)
  | LInsert out s t ids rows (Some c) => c ← FoldPlan c; Ok (LInsert out s t ids rows (Some c))
  | LDelete out s t c => c ← FoldPlan c; Ok (LDelete out s t c)
  | LUpdate out s t ids es c => c ← FoldPlan c; Ok (LUpdate out s t ids es c)
  | LGet _ _ | LInsert _ _ _ _ _ None | LCreateTable _ _ _ _ _ _ | LDropTable _ _ _ _ | LAlterTable _ _ => Ok p
  end.

End optimizer.

(** ** Predicate pushdown *)

Definition conj (p q : LogicalExpr) : LogicalExpr := LogicalBinaryOp BOOLEAN "AND" p q.

(** [CombinePredicates]; [None] is the null pointer. *)
Definition CombinePredicates (pending : list LogicalExpr) : option LogicalExpr :=
  match pending with [] => None | p :: rest => Some (foldl conj p rest) end.

(** A new filter for the predicates that are left over. *)
Definition reattach (out : OutputSchema) (pending : list LogicalExpr) (p : LogicalPlan) : LogicalPlan :=
  match CombinePredicates pending with Some pred => LFilter out pred p | None => p end.

(** [Optimizer::Pushdown] returns the new node and what is left of [pending]. *)
Fixpoint Pushdown (p : LogicalPlan) (pending : list LogicalExpr) : LogicalPlan * list LogicalExpr :=
  match p with
  | LGet out g =>
      (LGet out (mkGet (get_schema_name g) (get_table_name g) (get_column_ids g) (catalog_row_count g)
                   (get_partition_info g) (get_pushed_filters g ++ pending)), [])
  | LFilter out pred c =>
      let '(c, pending) := Pushdown c (pending ++ [pred]) in (reattach out pending c, [])
  | LAggregate out _ _ _ | LJoin out _ _ _ _ _ => (reattach out pending p, [])
  | LProjection out es c => let '(c, pending) := Pushdown c pending in (reattach out pending (LProjection out es c), [])
  | LLimit out l o c => let '(c, pending) := Pushdown c pending in (reattach out pending (LLimit out l o c), [])
  | LSort out ks asc c => let '(c, pending) := Pushdown c pending in (reattach out pending (LSort out ks asc c), [])
  | LInsert out s t ids rows (Some c) =>
      let '(c, pending) := Pushdown c pending in (reattach out pending (LInsert out s t ids rows (Some c)), [])
  | LDelete out s t c => let '(c, pending) := Pushdown c pending in (reattach out pending (LDelete out s t c), [])
  | LUpdate out s t ids es c =>
      let '(c, pending) := Pushdown c pending in (reattach out pending (LUpdate out s t ids es c), [])
  | LInsert out _ _ _ _ None | LCreateTable out _ _ _ _ _ | LDropTable out _ _ _ | LAlterTable out _ =>
      (reattach out pending p, [])
  end.

(** ** Column pruning *)

(** The positions of a scan whose column is required, and at least one. *)
Definition kept_positions (column_ids : list nat) (required_cols : gset nat) : list nat :=
  let kept := filter (fun i => match column_ids !! i with Some c => bool_decide (c ∈ required_cols) | None => false end = true)
                (seq 0 (length column_ids)) in
  match kept, column_ids with [], _ :: _ => [0] | _, _ => kept end.

(** The entries of a parallel array at these positions, those it has. *)
Definition keep {A} (l : list A) (positions : list nat) : list A := omap (fun i => l !! i) positions.

Definition collect (es : list LogicalExpr) (required_cols : gset nat) : gset nat :=
  foldl (fun s e => CollectColumnRefs e s) required_cols es.

(** The branch of [PruneColumns] for a scan. *)
Definition prune_get (out : OutputSchema) (g : LogicalGet) (required_cols : gset nat) : LogicalPlan :=
  if decide (required_cols = ∅) then LGet out g
  else
    let positions := kept_positions (get_column_ids g) (collect (get_pushed_filters g) required_cols) in
    LGet (mkOut (keep (output_types out) positions) (keep (output_names out) positions))
      (mkGet (get_schema_name g) (get_table_name g) (keep (get_column_ids g) positions) (catalog_row_count g)
         (get_partition_info g) (get_pushed_filters g)).

(** [Optimizer::PruneColumns] *)
Fixpoint PruneColumns (p : LogicalPlan) (required_cols : gset nat) : LogicalPlan :=
  match p with
  | LGet out g => prune_get out g required_cols
  | LFilter out pred c => LFilter out pred (PruneColumns c (CollectColumnRefs pred required_cols))
  | LProjection out es c => LProjection out es (PruneColumns c (collect es required_cols))
  | LLimit out l o c => LLimit out l o (PruneColumns c required_cols)
  | LSort out ks asc c => LSort out ks asc (PruneColumns c (collect ks required_cols))
  | LAggregate out gs aggs c => LAggregate out gs aggs (PruneColumns c (collect aggs (collect gs ∅)))
  | _ => p
  end.

(** ** Filter merging *)

(** [Optimizer::MergeFilters] *)
Fixpoint MergeFilters (p : LogicalPlan) : LogicalPlan :=
  match p with
  | LFilter out pred c =>
      match MergeFilters c with
      | LFilter _ inner c' => LFilter out (conj pred inner) c'
      | c' => LFilter out pred c'
      end
  | LProjection out es c => LProjection out es (MergeFilters c)
  | LLimit out l o c => LLimit out l o (MergeFilters c)
  | LSort out ks asc c => LSort out ks asc (MergeFilters c)
  | LAggregate out gs aggs c => LAggregate out gs aggs (MergeFilters c)
  | LJoin out cond lk rk l r => LJoin out cond lk rk (MergeFilters l) (MergeFilters r)
  | LInsert out s t ids rows (Some c) => LInsert out s t ids rows (Some (MergeFilters c))
  | LDelete out s t c => LDelete out s t (MergeFilters c)
  | LUpdate out s t ids es c => LUpdate out s t ids es (MergeFilters c)
  | LGet _ _ | LInsert _ _ _ _ _ None | LCreateTable _ _ _ _ _ _ | LDropTable _ _ _ _ | LAlterTable _ _ => p
  end.

(** ** The entry point *)

Record OptimizerConfig : Type := mkOptimizerConfig {
  constant_folding : bool;
  predicate_pushdown : bool;
  column_pruning : bool;
  filter_merge : bool;
}.

Definition OptimizerConfig_default : OptimizerConfig := mkOptimizerConfig true true true true.

Definition IsTrivialPlan (p : LogicalPlan) : bool :=
  match p with
  | LCreateTable _ _ _ _ _ _ | LDropTable _ _ _ _ | LInsert _ _ _ _ _ _ | LUpdate _ _ _ _ _ _ | LDelete _ _ _ _ => true
  | _ => false
  end.

(** [Optimizer::Optimize] *)
Definition Optimize (F : FPU) (cfg : OptimizerConfig) (p : LogicalPlan) : result LogicalPlan :=
  if IsTrivialPlan p then Ok p
  else
    p ← (if constant_folding cfg then FoldPlan F p else Ok p);
    let p := if predicate_pushdown cfg then (Pushdown p []).1 else p in
    let p := if column_pruning cfg then PruneColumns p ∅ else p in
    Ok (if filter_merge cfg then MergeFilters p else p).

(** ** Folding preserves values *)

(** A literal whose value has the type the literal announces. *)
Definition lit_ok (t : TypeId) (v : Value) : Prop := vtype v = t /\ Value_wf v /\ t <> INVALID.

Fixpoint lits_ok (e : LogicalExpr) : Prop :=
  match e with
  | LogicalLit t v is_null => is_null = true \/ lit_ok t v
  | LogicalBinaryOp _ _ l r => lits_ok l /\ lits_ok r
  | LogicalUnaryOp _ _ c => lits_ok c
  | _ => True
  end.

Section fold.
Context (F : FPU).

(** An arithmetic operator on two literals that folding computes exactly: with
    a double among them both the folder and the evaluator compute in doubles;
    two integers are added in 64 bits here and in doubles there, which agree
    when the sum is exact.  The literals of a comparison are both numbers or of
    the same type. *)
Definition exact_step (t : TypeId) (op : string) (l r : LogicalExpr) : bool :=
  match l, r with
  | LogicalLit lt lv false, LogicalLit rt rv false =>
      if is_arithmetic op then
        if is_float lt || is_float rt then is_float t
        else match (a ← GetInt64 lv; b ← GetInt64 rv; z ← int_arith op a b; Ok (a, b, z)) with
             | Ok (a, b, Some z) => bool_decide (arith_cell F op t (CInt a) (CInt b) = Some (Some (CInt z)))
             | _ => true
             end
      else (IsNumericLit lt && IsNumericLit rt) || bool_decide (lt = rt)
  | _, _ => true
  end.

(** Every operator that is folded is exact. *)
Fixpoint fold_exact (e : LogicalExpr) : bool :=
  match e with
  | LogicalBinaryOp t op l r =>
      fold_exact l && fold_exact r &&
      match FoldExpr F l, FoldExpr F r with
      | Ok l, Ok r => exact_step t op l r
      | _, _ => true
      end
  | LogicalUnaryOp _ _ c => fold_exact c
  | _ => true
  end.

(** The value of a literal, by the kind of its type. *)
Lemma lit_int t v : lit_ok t v -> is_int_type t = true -> exists z, v = mkValue t (VInt z) /\ GetInt64 v = Ok z.
Proof.
  intros (<- & Hw & _) Ht. destruct v as [t d]. unfold Value_wf in Hw. simpl in *.
  destruct t; try done; destruct d; try done; eexists; split; reflexivity.
Qed.

Lemma lit_float t v : lit_ok t v -> is_float_type t = true -> exists b, v = mkValue t (VDouble b) /\ GetFloat64 v = Ok b.
Proof.
  intros (<- & Hw & _) Ht. destruct v as [t d]. unfold Value_wf in Hw. simpl in *.
  destruct t; try done; destruct d; try done; eexists; split; reflexivity.
Qed.

Lemma lit_bool t v : lit_ok t v -> IsBoolLit t = true -> exists b, v = Value_Boolean b /\ t = BOOLEAN.
Proof.
  intros (<- & Hw & _) Ht. apply bool_decide_eq_true in Ht. destruct v as [t d]. unfold Value_wf in Hw. simpl in *. subst t.
  destruct d; try done. by eexists.
Qed.

Lemma is_float_types t : is_float t = is_float_type t.
Proof. by destruct t. Qed.

(** A numeric literal as a double. *)
Lemma LitToDouble_cell t v : lit_ok t v -> IsNumericLit t = true ->
  exists c d, literal_cell v = Some c /\ double_of c = Some d /\ LitToDouble t v = Ok d /\
    (is_float t = false -> exists z, c = CInt z /\ GetInt64 v = Ok z) /\ (is_float t = true -> exists b, c = CFloat b).
Proof.
  intros Hl Hn. unfold IsNumericLit in Hn. unfold LitToDouble. rewrite is_float_types.
  destruct (is_float_type t) eqn:Ef.
  - destruct (lit_float t v Hl Ef) as (b & -> & Hg). exists (CFloat b), b. rewrite Hg. split_and!; try done. by eexists.
  - rewrite orb_false_r in Hn. destruct (lit_int t v Hl Hn) as (z & -> & Hg). exists (CInt z), (f64_of_i64 z). rewrite Hg.
    split_and!; try done. by eexists.
Qed.

(** Arithmetic on two numeric literals. *)
Lemma fold_arith_eval t op lt lv rt rv e' :
  lit_ok lt lv -> lit_ok rt rv -> is_arithmetic op = true -> IsNumericLit lt && IsNumericLit rt = true ->
  let e := LogicalBinaryOp t op (LogicalLit lt lv false) (LogicalLit rt rv false) in
  exact_step t op (LogicalLit lt lv false) (LogicalLit rt rv false) = true ->
  fold_binary F e op lt lv rt rv = Ok e' ->
  e' = e \/ exists t' v, e' = LogicalLit t' v false /\ lit_ok t' v /\
    binary_cell F op t (literal_cell lv) (literal_cell rv) = Some (literal_cell v).
Proof.
  intros Hl Hr Ha Hn e Hex Hf. unfold fold_binary in Hf. unfold exact_step in Hex. rewrite Ha, Hn in Hf. rewrite Ha in Hex. cbn [negb] in Hf.
  apply andb_true_iff in Hn as [Hnl Hnr].
  destruct (LitToDouble_cell lt lv Hl Hnl) as (cl & dl & Hcl & Hdl & Htl & Hil & Hfl).
  destruct (LitToDouble_cell rt rv Hr Hnr) as (cr & dr & Hcr & Hdr & Htr & Hir & Hfr).
  unfold binary_cell. rewrite Hcl, Hcr, Ha. destruct (is_float lt || is_float rt)%bool eqn:Ef.
  - rewrite Htl, Htr in Hf. cbn [mbind result_bind] in Hf. unfold arith_cell. rewrite Hdl, Hdr, Hex. cbn [mbind option_bind].
    destruct (arith F op dl dr) as [res|]; [|left; congruence]. right. exists FLOAT64, (Value_Float res).
    split_and!; [by injection Hf as <-|by repeat split|done].
  - apply orb_false_iff in Ef as [El Er]. destruct (Hil El) as (a & -> & Hga), (Hir Er) as (b & -> & Hgb).
    rewrite Hga, Hgb in Hf, Hex. cbn [mbind result_bind] in Hf, Hex.
    destruct (int_arith op a b) as [[z|]|]; cbn [mbind result_bind] in Hf, Hex; [|left; congruence|done].
    apply bool_decide_eq_true in Hex. right. exists INT64, (Value_Integer z). split_and!; [by injection Hf as <-|by repeat split|done].
Qed.

Lemma fold_binary_eval t op lt lv rt rv e' r :
  lit_ok lt lv -> lit_ok rt rv ->
  let e := LogicalBinaryOp t op (LogicalLit lt lv false) (LogicalLit rt rv false) in
  exact_step t op (LogicalLit lt lv false) (LogicalLit rt rv false) = true ->
  fold_binary F e op lt lv rt rv = Ok e' -> lits_ok e' /\ eval_row F e' r = eval_row F e r.
Proof.
  intros Hl Hr e Hex Hf. assert (lits_ok e /\ eval_row F e r = eval_row F e r) as Hsame by (split; [split; by right|done]).
  assert (eval_row F e r = binary_cell F op t (literal_cell lv) (literal_cell rv)) as Hev by done.
  destruct (is_arithmetic op) eqn:Ea.
  { destruct (IsNumericLit lt && IsNumericLit rt)%bool eqn:En.
    - destruct (fold_arith_eval t op lt lv rt rv e' Hl Hr Ea En Hex Hf) as [->|(t' & v & -> & Hok & Hc)]; [done|].
      split; [by right|]. by rewrite Hev, Hc.
    - unfold fold_binary in Hf. rewrite Ea, En in Hf. by simplify_eq/=. }
  unfold exact_step in Hex. rewrite Ea in Hex. revert Hex. unfold fold_binary in Hf. rewrite Ea in Hf.
  destruct (is_comparison op) eqn:Ec.
  { rewrite Hev. cbn [andb]. unfold binary_cell. rewrite Ea, Ec.
    destruct (IsNumericLit lt && IsNumericLit rt)%bool eqn:En; cbn [negb orb] in Hf |- *.
    - intros _. apply andb_true_iff in En as [Hnl Hnr].
      destruct (LitToDouble_cell lt lv Hl Hnl) as (cl & dl & Hcl & Hdl & Htl & Hil & Hfl).
      destruct (LitToDouble_cell rt rv Hr Hnr) as (cr & dr & Hcr & Hdr & Htr & Hir & Hfr). rewrite Hcl, Hcr.
      assert (compare_cells op cl cr = Some (if is_float lt || is_float rt then compare_doubles op dl dr
                                             else match cl, cr with CInt a, CInt b => compare_ints op a b | _, _ => false end)) as Hcmp.
      { destruct (is_float lt) eqn:El, (is_float rt) eqn:Er; cbn [orb].
        all: try destruct (Hfl eq_refl) as [b ->]; try destruct (Hfr eq_refl) as [b' ->];
             try destruct (Hil eq_refl) as (z & -> & _); try destruct (Hir eq_refl) as (z' & -> & _); by simplify_eq/=. }
      rewrite Hcmp. destruct (is_float lt || is_float rt)%bool eqn:Ef.
      + rewrite Htl, Htr in Hf. simplify_eq/=. by split; [right; repeat split|].
      + apply orb_false_iff in Ef as [El Er]. destruct (Hil El) as (z & -> & Hz), (Hir Er) as (z' & -> & Hz').
        rewrite Hz, Hz' in Hf. simplify_eq/=. by split; [right; repeat split|].
    - intros Ht. apply bool_decide_eq_true in Ht as <-.
      destruct (String.eqb op "=" && negb (IsBoolLit lt) && negb (IsBoolLit lt))%bool eqn:Eq.
      2: { injection Hf as <-. split; [apply Hsame|]. rewrite Hev. unfold binary_cell. by rewrite Ea, Ec. }
      apply andb_true_iff in Eq as [Eq Hb]. apply andb_true_iff in Eq as [Hop _]. apply String.eqb_eq in Hop as ->.
      destruct Hl as (Htl & Hwl & Hni), Hr as (Htr & Hwr & _). rewrite Value_eq_wf in Hf by done. simplify_eq/=.
      split; [right; by repeat split|]. f_equal.
      destruct lv as [t1 d1], rv as [t2 d2]. simpl in *. subst t2. unfold Value_wf in *. simpl in *.
      destruct t1; try done; destruct d1; try done; destruct d2; try done. }
  destruct (is_logical op) eqn:El; [|intros _; by simplify_eq]. intros _. rewrite Hev.
  destruct (IsBoolLit lt && IsBoolLit rt)%bool eqn:Eb; cbn [negb] in Hf.
  2: { injection Hf as <-. by rewrite <- Hev. }
  apply andb_true_iff in Eb as [Hbl Hbr]. destruct (lit_bool lt lv Hl Hbl) as (a & -> & ->). destruct (lit_bool rt rv Hr Hbr) as (b & -> & ->).
  simplify_eq/=. split; [right; by repeat split|]. unfold binary_cell. rewrite Ea, Ec. simpl.
  destruct (String.eqb op "AND"), a, b; done.
Qed.

Lemma fold_unary_eval t op ct v e' r :
  lit_ok ct v ->
  let e := LogicalUnaryOp t op (LogicalLit ct v false) in
  fold_unary e op ct v = Ok e' -> lits_ok e' /\ eval_row F e' r = eval_row F e r.
Proof.
  intros Hl e Hf. assert (eval_row F e r = unary_cell op (literal_cell v)) as Hev by done.
  assert (lits_ok e) as Hsame by (by right). rewrite Hev. unfold fold_unary in Hf.
  destruct (String.eqb_spec op "NOT") as [->|Hop]; cbn [andb] in Hf.
  { destruct (IsBoolLit ct) eqn:Eb; [|by injection Hf as <-].
    destruct (lit_bool ct v Hl Eb) as (b & -> & ->). injection Hf as <-. split; [right; by repeat split|]. by destruct b. }
  destruct (String.eqb_spec op "-") as [->|Hop']; cbn [andb] in Hf; [|by injection Hf as <-].
  destruct (IsNumericLit ct) eqn:En; [|by injection Hf as <-].
  destruct (LitToDouble_cell ct v Hl En) as (c & d & Hc & Hd & Ht & Hi & Hff). rewrite Hc.
  destruct (is_float ct) eqn:Ef.
  - rewrite Ht in Hf. injection Hf as <-. destruct (Hff eq_refl) as [b ->]. simplify_eq/=. by split; [right; repeat split|].
  - destruct (Hi eq_refl) as (z & -> & Hz). rewrite Hz in Hf. cbn [mbind result_bind] in Hf. unfold checked_i64 in Hf.
    destruct (Z.leb INT64_MIN (- z) && Z.leb (- z) INT64_MAX)%bool eqn:Eb; [|done]. injection Hf as <-.
    split; [by right; repeat split|]. simpl. destruct (Z.eqb_spec z INT64_MIN) as [->|Hne]; [done|done].
Qed.

Lemma FoldExpr_eval e e' :
  lits_ok e -> fold_exact e = true -> FoldExpr F e = Ok e' ->
  lits_ok e' /\ forall r, eval_row F e' r = eval_row F e r.
Proof.
  revert e'. induction e as [| |t op a IHa b IHb|t op c IH| |]; intros e' Hl Hx Hf; cbn [FoldExpr lits_ok fold_exact] in *; try by simplify_eq.
  - destruct Hl as [Hla Hlb]. apply andb_true_iff in Hx as [Hx Hst]. apply andb_true_iff in Hx as [Hxa Hxb].
    destruct (FoldExpr F a) as [a'|]; [|done]. destruct (FoldExpr F b) as [b'|]; [|done]. cbn [mbind result_bind] in Hf.
    destruct (IHa a' Hla Hxa eq_refl) as [Hla' Ha], (IHb b' Hlb Hxb eq_refl) as [Hlb' Hb].
    assert (forall r, eval_row F (LogicalBinaryOp t op a b) r = eval_row F (LogicalBinaryOp t op a' b') r) as Heq
      by (intros r; cbn [eval_row]; by rewrite Ha, Hb).
    setoid_rewrite Heq. clear Heq Ha Hb IHa IHb.
    destruct a' as [|lt lv [] | | | |], b' as [|rt rv []| | | |]; try by injection Hf as <-; split; [split|].
    destruct Hla' as [?|Hla'], Hlb' as [?|Hlb']; try done.
    pose proof (fun r => fold_binary_eval t op lt lv rt rv e' r Hla' Hlb' Hst Hf) as Hb. split; [apply (Hb [])|apply Hb].
  - destruct (FoldExpr F c) as [c'|]; [|done]. destruct (IH c' Hl Hx eq_refl) as [Hl' Hc]. cbn [mbind result_bind] in Hf.
    assert (forall r, eval_row F (LogicalUnaryOp t op c) r = eval_row F (LogicalUnaryOp t op c') r) as Heq
      by (intros r; cbn [eval_row]; by rewrite Hc).
    setoid_rewrite Heq. destruct c' as [|ct v []| | | |]; try by injection Hf as <-.
    destruct Hl' as [?|Hl']; [done|]. pose proof (fun r => fold_unary_eval t op ct v e' r Hl' Hf) as Hb. split; [apply (Hb [])|apply Hb].
Qed.

(** Folding reads no new columns. *)
Lemma fold_refs e e' : FoldExpr F e = Ok e' -> refs e' ⊆ refs e.
Proof.
  revert e'. induction e as [| |t op a IHa b IHb|t op c IH| |]; intros e' Hf; cbn [FoldExpr] in Hf; try by simplify_eq.
  - destruct (FoldExpr F a) as [a'|]; [|done]. destruct (FoldExpr F b) as [b'|]; [|done]. cbn [mbind result_bind] in Hf.
    assert (refs (LogicalBinaryOp t op a' b') ⊆ refs (LogicalBinaryOp t op a b)) as Hs
      by (rewrite !refs_binary; specialize (IHa a' eq_refl); specialize (IHb b' eq_refl); set_solver).
    destruct a' as [|lt lv [] | | | |], b' as [|rt rv []| | | |]; try by injection Hf as <-.
    unfold fold_binary in Hf. repeat (case_match; inv_ok); first [exact Hs|apply empty_subseteq].
  - destruct (FoldExpr F c) as [c'|]; [|done]. cbn [mbind result_bind] in Hf.
    assert (refs (LogicalUnaryOp t op c') ⊆ refs (LogicalUnaryOp t op c)) as Hs by (exact (IH c' eq_refl)).
    destruct c' as [|ct v []| | | |]; try by injection Hf as <-.
    unfold fold_unary in Hf. repeat (case_match; inv_ok); first [exact Hs|apply empty_subseteq].
Qed.

End fold.

(** ** The passes preserve the rows *)

Section rows.
Context (F : FPU) (tables : string -> string -> list sql_row).

(** There is no table by the name the folder invents. *)
Context (no_empty_table : tables ""%string "__empty__"%string = []).

Notation rows_of := (plan_rows F tables).

(** The expressions that are folded, in filters and projections. *)
Fixpoint fold_ok (p : LogicalPlan) : Prop :=
  match p with
  | LFilter _ pred c => lits_ok pred /\ fold_exact F pred = true /\ fold_ok c
  | LProjection _ es c => Forall (fun e => lits_ok e /\ fold_exact F e = true) es /\ fold_ok c
  | LLimit _ _ _ c | LSort _ _ _ c | LAggregate _ _ _ c => fold_ok c
  | LJoin _ _ _ _ l r => fold_ok l /\ fold_ok r
  | _ => True
  end.

Lemma passing_ext p q (rows : list sql_row) :
  (forall r, eval_row F p r = eval_row F q r) -> passing F p rows = passing F q rows.
Proof. intros H. unfold passing. apply list_filter_iff. intros r. unfold row_passes. by rewrite H. Qed.

Lemma passing_bool b (rows : list sql_row) : passing F (MakeBoolLit b) rows = if b then rows else [].
Proof. unfold passing. induction rows as [|r rows IH]; [by destruct b|]. rewrite filter_cons, IH. by destruct b. Qed.

Lemma project_row_fold es es' r :
  Forall (fun e => lits_ok e /\ fold_exact F e = true) es -> mapM_r (FoldExpr F) es = Ok es' ->
  project_row F es' r = project_row F es r.
Proof.
  unfold project_row. revert es'. induction es as [|e es IH]; intros es' Hok Hf; [by simplify_eq/=|].
  apply Forall_cons in Hok as [[Hl Hx] Hok]. cbn [mapM_r] in Hf. inv_ok.
  match goal with H : FoldExpr F e = Ok _ |- _ => destruct (FoldExpr_eval F e _ Hl Hx H) as [_ He] end.
  cbn [mapM]. erewrite He, IH by eauto. done.
Qed.

Lemma FoldPlan_rows p p' rows :
  fold_ok p -> FoldPlan F p = Ok p' -> rows_of p = Some rows ->
  rows_of p' = Some rows /\ (get_source p' = get_source p \/ rows = []).
Proof.
  revert p' rows. induction p as [| out pred c IH|out es c IH|out lim off c IH|out ks asc c IH|out gs aggs c IH|out cond lk rk l IHl r IHr|
    o0 s0 t0 i0 r0 sel| | | | |]; intros p' rows Hok Hf Hr; cbn [FoldPlan fold_ok plan_rows] in *; try done; try (by simplify_eq; auto).
  - destruct Hok as (Hl & Hx & Hok). apply fmap_Some in Hr as (crows & Hc & ->). apply bind_Ok_inv in Hf as (c' & Hfc & Hf).
    apply bind_Ok_inv in Hf as (pred' & Hfp & Hf). destruct (IH c' crows Hok Hfc Hc) as [Hc' Hs].
    destruct (FoldExpr_eval F pred pred' Hl Hx Hfp) as [Hl' He].
    rewrite <- (passing_ext pred' pred crows He).
    assert (rows_of (LFilter out pred' c') = Some (passing F pred' crows) /\
            (get_source c' = get_source c \/ passing F pred' crows = [])) as Hkeep.
    { cbn [plan_rows]. rewrite Hc'. split; [done|]. destruct Hs as [Hs| ->]; [by left|by right]. }
    destruct pred' as [|t v []| | | |]; try by injection Hf as <-.
    destruct (bool_decide_reflect (t = BOOLEAN)) as [->|]; [|by injection Hf as <-].
    destruct Hl' as [?|Hl']; [done|]. destruct (lit_bool BOOLEAN v Hl' eq_refl) as (b & -> & _). cbn [mbind result_bind] in Hf.
    assert (GetBool (Value_Boolean b) = Ok b) as Hg by done. rewrite Hg in Hf. cbn [mbind result_bind] in Hf. injection Hf as <-.
    change (LogicalLit BOOLEAN (Value_Boolean b) false) with (MakeBoolLit b) in *. rewrite passing_bool in *.
    destruct b; [split; [done|]; apply Hkeep|]. split; [|by right]. simpl. unfold get_rows. simpl. by rewrite no_empty_table.
  - destruct Hok as [Hes Hok]. apply bind_Some in Hr as (crows & Hc & Hm). apply bind_Ok_inv in Hf as (c' & Hfc & Hf).
    apply bind_Ok_inv in Hf as (es' & Hfe & Hf). injection Hf as <-. destruct (IH c' crows Hok Hfc Hc) as [Hc' _].
    split; [|by left]. cbn [plan_rows]. rewrite Hc'. cbn [mbind option_bind]. rewrite <- Hm.
    apply mapM_ext. intros r. by apply project_row_fold.
  - apply fmap_Some in Hr as (crows & Hc & ->). apply bind_Ok_inv in Hf as (c' & Hfc & Hf). injection Hf as <-.
    destruct (IH c' crows Hok Hfc Hc) as [Hc' Hs]. cbn [plan_rows get_source]. rewrite Hc'. split; [done|].
    destruct Hs as [Hs| ->]; [by left|right]. unfold window. rewrite drop_nil, take_nil. by destruct (Z.leb 0 lim).
  - apply fmap_Some in Hr as (crows & Hc & ->). apply bind_Ok_inv in Hf as (c' & Hfc & Hf). injection Hf as <-.
    destruct (IH c' crows Hok Hfc Hc) as [Hc' Hs]. cbn [plan_rows get_source]. rewrite Hc'. split; [done|].
    destruct Hs as [Hs| ->]; [by left|by right].
  - apply bind_Some in Hr as (crows & Hc & Hm). apply bind_Ok_inv in Hf as (c' & Hfc & Hf). injection Hf as <-.
    destruct (IH c' crows Hok Hfc Hc) as [Hc' _]. cbn [plan_rows get_source]. rewrite Hc'. by split; [|left].
  - destruct Hok as [Hokl Hokr]. apply bind_Some in Hr as (L & HL & Hr). apply bind_Some in Hr as (R & HR & Hr). injection Hr as <-.
    apply bind_Ok_inv in Hf as (l' & Hfl & Hf). apply bind_Ok_inv in Hf as (r' & Hfr & Hf). injection Hf as <-.
    destruct (IHl l' L Hokl Hfl HL) as [HL' HsL], (IHr r' R Hokr Hfr HR) as [HR' HsR].
    assert (forall q q' (X : list sql_row), get_source q' = get_source q \/ X = [] -> narrow q' <$> X = narrow q <$> X) as Hn.
    { intros q q' X [Hs| ->]; [|done]. unfold narrow. by rewrite Hs. }
    cbn [plan_rows get_source]. rewrite HL', HR'. cbn [mbind option_bind]. rewrite (Hn l l'), (Hn r r') by done. by split; [|left].
Qed.

(** The plans into which predicates sink without passing another operator. *)
Fixpoint sinks (p : LogicalPlan) : bool :=
  match p with
  | LGet _ _ | LAggregate _ _ _ _ | LJoin _ _ _ _ _ _ => true
  | LFilter _ _ c => sinks c
  | _ => false
  end.

(** The filters of a plan are over scans, aggregations and joins. *)
Fixpoint pushable (p : LogicalPlan) : bool :=
  match p with
  | LProjection _ _ c | LLimit _ _ _ c | LSort _ _ _ c => pushable c
  | _ => sinks p
  end.

Lemma sinks_pushable p : sinks p = true -> pushable p = true.
Proof. by destruct p. Qed.

Lemma FoldPlan_sinks p p' : FoldPlan F p = Ok p' -> sinks p = true -> sinks p' = true.
Proof.
  revert p'. induction p; intros p' Hf Hs; cbn [FoldPlan sinks] in *; try done; inv_ok; try done.
  repeat (case_match; inv_ok); eauto.
Qed.

Lemma FoldPlan_pushable p p' : FoldPlan F p = Ok p' -> pushable p = true -> pushable p' = true.
Proof.
  revert p'. induction p; intros p' Hf Hs; try (by apply sinks_pushable; eapply FoldPlan_sinks);
    cbn [FoldPlan pushable] in *; inv_ok; cbn [pushable]; eauto.
Qed.

(** The conjunction of the pending predicates. *)
Lemma CombinePredicates_passes pending pred r :
  CombinePredicates pending = Some pred -> row_passes F pred r = forallb (fun p => row_passes F p r) pending.
Proof.
  destruct pending as [|p rest]; [done|]. intros [= <-]. cbn [forallb]. revert p.
  induction rest as [|q rest IH]; intros p; cbn [foldl forallb]; [by rewrite andb_true_r|].
  rewrite IH. unfold conj. rewrite row_passes_and. by rewrite andb_assoc.
Qed.

Definition passing_all (pending : list LogicalExpr) (rows : list sql_row) : list sql_row :=
  filter (fun r => forallb (fun p => row_passes F p r) pending = true) rows.

Lemma passing_all_nil (rows : list sql_row) : passing_all [] rows = rows.
Proof. apply filter_all_true. Qed.

Lemma passing_all_app ps qs (rows : list sql_row) : passing_all (ps ++ qs) rows = passing_all ps (passing_all qs rows).
Proof.
  unfold passing_all. rewrite list_filter_filter. apply list_filter_iff. intros r. by rewrite forallb_app, andb_true_iff.
Qed.

Lemma passing_all_one p (rows : list sql_row) : passing_all [p] rows = passing F p rows.
Proof. unfold passing_all, passing. apply list_filter_iff. intros r. cbn [forallb]. by rewrite andb_true_r. Qed.

Lemma reattach_rows out pending p : rows_of (reattach out pending p) = passing_all pending <$> rows_of p.
Proof.
  unfold reattach. destruct (CombinePredicates pending) as [pred|] eqn:Ec.
  - cbn [plan_rows]. destruct (rows_of p) as [rows|]; [|done]. cbn [fmap option_fmap option_map]. f_equal. unfold passing, passing_all.
    apply list_filter_iff. intros r. by rewrite (CombinePredicates_passes pending pred).
  - destruct pending; [|done]. destruct (rows_of p) as [rows|]; [|done]. cbn. by rewrite passing_all_nil.
Qed.

Lemma reattach_nil out p : reattach out [] p = p.
Proof. done. Qed.

Lemma reattach_source out pending p : get_source (reattach out pending p) = get_source p.
Proof. unfold reattach. by destruct (CombinePredicates pending). Qed.

Definition scan_ids (p : LogicalPlan) : option (list nat) := get_column_ids <$> get_source p.

Lemma scan_ids_narrow p q : scan_ids p = scan_ids q -> forall r, narrow p r = narrow q r.
Proof.
  assert (forall p r, narrow p r = match scan_ids p with Some ids => select_cols ids r | None => r end) as Hn
    by (intros x r; unfold narrow, scan_ids; by destruct (get_source x)).
  intros H r. by rewrite !Hn, H.
Qed.

Lemma Pushdown_sinks p pending :
  sinks p = true ->
  let '(p', pending') := Pushdown p pending in
  pending' = [] /\ rows_of p' = passing_all pending <$> rows_of p /\ scan_ids p' = scan_ids p.
Proof.
  revert pending. induction p as [out g|out pred c IH| | | |out gs aggs c|out cond lk rk l _ r _| | | | | |]; intros pending Hs;
    cbn [Pushdown sinks] in *; try done.
  - split_and!; [done| |done]. cbn [plan_rows]. unfold get_rows. cbn [get_schema_name get_table_name get_pushed_filters fmap option_fmap option_map].
    f_equal. fold (passing_all (get_pushed_filters g)). change (filter _ ?l) with (passing_all (get_pushed_filters g ++ pending) l) at 1.
    rewrite passing_all_app. unfold passing_all. rewrite !list_filter_filter. apply list_filter_iff. intros r. tauto.
  - specialize (IH (pending ++ [pred]) Hs). destruct (Pushdown c (pending ++ [pred])) as [c' pending'].
    destruct IH as (-> & Hr & Hi). rewrite reattach_nil. split_and!; [done| |done]. rewrite Hr. cbn [plan_rows].
    destruct (rows_of c) as [rows|]; [|done]. cbn [fmap option_fmap option_map]. by rewrite passing_all_app, passing_all_one.
  - split_and!; [done|apply reattach_rows|]. unfold scan_ids. by rewrite reattach_source.
  - split_and!; [done|apply reattach_rows|]. unfold scan_ids. by rewrite reattach_source.
Qed.

Lemma Pushdown_rows p :
  pushable p = true -> let '(p', pending') := Pushdown p [] in pending' = [] /\ rows_of p' = rows_of p /\ scan_ids p' = scan_ids p.
Proof.
  assert (forall p, sinks p = true -> let '(p', pending') := Pushdown p [] in
    pending' = [] /\ rows_of p' = rows_of p /\ scan_ids p' = scan_ids p) as Hsink.
  { intros q Hq. pose proof (Pushdown_sinks q [] Hq) as Hs. destruct (Pushdown q []) as [p' pending'].
    destruct Hs as (-> & -> & Hi). split_and!; [done| |done]. destruct (rows_of q) as [rows|]; [|done]. cbn. by rewrite passing_all_nil. }
  induction p; intros Hp; try (by apply Hsink); cbn [pushable Pushdown] in *;
    specialize (IHp Hp); destruct (Pushdown p []) as [p' pending']; destruct IHp as (-> & Hr & Hi);
    rewrite reattach_nil; (split_and!; [done| |done]); cbn [plan_rows]; by rewrite Hr.
Qed.

Lemma PruneColumns_rows p required : rows_of (PruneColumns p required) = rows_of p.
Proof.
  revert required. induction p; intros required; cbn [PruneColumns plan_rows]; rewrite ?IHp; try done.
  unfold prune_get. by destruct (decide (required = ∅)).
Qed.

Lemma PruneColumns_source p required : get_source (PruneColumns p required) = None <-> get_source p = None.
Proof.
  revert required. induction p; intros required; cbn [PruneColumns get_source]; rewrite ?IHp; try done.
  unfold prune_get. by destruct (decide (required = ∅)).
Qed.

Lemma passing_conj p q (rows : list sql_row) : passing F (conj p q) rows = passing F p (passing F q rows).
Proof.
  unfold passing, conj. rewrite list_filter_filter. apply list_filter_iff. intros r. by rewrite row_passes_and, andb_true_iff.
Qed.

Lemma MergeFilters_rows p : rows_of (MergeFilters p) = rows_of p /\ get_source (MergeFilters p) = get_source p.
Proof.
  induction p as [| out pred c IH| | | | |out cond lk rk l [IHl Hl] r [IHr Hr]|out s t ids rows sel| | | | |];
    cbn [MergeFilters plan_rows get_source]; try done; try (destruct IHp as [-> Hsrc]; rewrite ?Hsrc; done).
  - destruct IH as [<- <-]. destruct (MergeFilters c); try done. cbn [plan_rows get_source]. split; [|done].
    destruct (rows_of _) as [rows|]; [|done]. cbn [fmap option_fmap option_map]. by rewrite passing_conj.
  - rewrite IHl, IHr. split; [|done]. unfold narrow. by rewrite Hl, Hr.
  - by destruct sel.
Qed.

End rows.

(** ** The passes leave plans the planner resolves *)

(** The shapes of a SELECT without aggregates, as [BindSelect] and
    [BindSelectWithJoin] build them: LIMIT, projection, ORDER BY and WHERE over
    a table or a chain of joins. *)
Fixpoint source (p : LogicalPlan) : bool :=
  match p with LGet _ _ => true | LJoin _ _ _ _ l r => source l && source r | _ => false end.
Fixpoint filtered (p : LogicalPlan) : bool := match p with LFilter _ _ c => filtered c | _ => source p end.

(** LIMIT and ORDER BY are there or not. *)
Definition with_limit (lim : option (OutputSchema * Z * Z)) (p : LogicalPlan) : LogicalPlan :=
  match lim with Some (out, l, o) => LLimit out l o p | None => p end.
Definition with_sort (srt : option (OutputSchema * list LogicalExpr * list bool)) (p : LogicalPlan) : LogicalPlan :=
  match srt with Some (out, ks, asc) => LSort out ks asc p | None => p end.
Definition select_plan lim (out : OutputSchema) (es : list LogicalExpr) srt (c : LogicalPlan) : LogicalPlan :=
  with_limit lim (LProjection out es (with_sort srt c)).
Definition keys_of (srt : option (OutputSchema * list LogicalExpr * list bool)) : list LogicalExpr :=
  match srt with Some (_, ks, _) => ks | None => [] end.

Section resolve.
Context (F : FPU) (tables : string -> string -> list sql_row).
Context (no_empty_table : tables ""%string "__empty__"%string = []).

Notation ok := (plan_ok F tables).
Notation resolves := (exprs_ok tables).

(** A pass that turns [p] into [p'] keeps what the planner needs of it. *)
Definition keeps (p p' : LogicalPlan) : Prop := ok p' /\ forall es, resolves p es -> resolves p' es.

Lemma resolves_sub c es es' :
  resolves c es -> (forall e, e ∈ es' -> refs e ⊆ ⋃ (refs <$> es)) -> resolves c es'.
Proof.
  intros [Hs Hc] Hsub. split; [done|]. intros g Hg. destruct (Hc g Hg) as [Ht|Ha]; [by left|right].
  apply Forall_forall. intros e He i Hi. apply Hsub, elem_of_subseteq in He. apply He in Hi.
  apply elem_of_union_list in Hi as (X & HX & Hi). apply list_elem_of_fmap in HX as (e' & -> & He').
  by apply (proj1 (Forall_forall _ _) Ha e' He').
Qed.

Lemma resolves_app c es es' : resolves c (es ++ es') <-> resolves c es /\ resolves c es'.
Proof.
  split.
  - intros H. split; (eapply resolves_sub; [exact H|]); intros e He; rewrite fmap_app, union_list_app_L;
      assert (refs e ∈ refs <$> es ∨ refs e ∈ refs <$> es') as Hin by (rewrite !list_elem_of_fmap; naive_solver);
      intros i Hi; rewrite elem_of_union, !elem_of_union_list; naive_solver.
  - intros [[Hs H1] [_ H2]]. split; [done|]. intros g Hg. destruct (H1 g Hg); [by left|]. destruct (H2 g Hg); [by left|right].
    by apply Forall_app.
Qed.

Lemma resolves_nil p es : TryFindLogicalGet p = None -> get_source p = None -> resolves p es.
Proof. intros Ht Hs. split; [congruence|]. intros g Hg. congruence. Qed.

Lemma source_find p es : source p = true -> resolves p es \/ exists out g, p = LGet out g.
Proof. destruct p; try done; intros _; [right; eauto|left; by apply resolves_nil]. Qed.

Lemma fold_source p : source p = true -> FoldPlan F p = Ok p.
Proof.
  induction p; try done; cbn [source FoldPlan]; intros Hs. apply andb_true_iff in Hs as [Hl Hr]. by rewrite IHp1, IHp2.
Qed.

Lemma merge_source p : source p = true -> MergeFilters p = p.
Proof.
  induction p; try done; cbn [source MergeFilters]; intros Hs. apply andb_true_iff in Hs as [Hl Hr]. by rewrite IHp1, IHp2.
Qed.

Lemma union_refs_one e : ⋃ (refs <$> [e]) = refs e.
Proof. simpl. set_solver. Qed.

(** Folding under a filter chain. *)
Lemma fold_filtered p p' : filtered p = true -> ok p -> FoldPlan F p = Ok p' -> filtered p' = true /\ keeps p p'.
Proof.
  revert p'. induction p as [out g|out pred c IH| | | | |out cond lk rk l _ r _| | | | | |]; intros p' Hs Hok Hf; cbn [filtered] in Hs;
    try (by rewrite fold_source in Hf by done; injection Hf as <-; split; [|split]); try done.
  cbn [FoldPlan plan_ok] in *. destruct Hok as [Hres Hok]. apply bind_Ok_inv in Hf as (c' & Hfc & Hf).
  apply bind_Ok_inv in Hf as (pred' & Hfp & Hf). destruct (IH c' Hs Hok Hfc) as (Hs' & Hok' & Hk).
  assert (filtered (LFilter out pred' c') = true /\ keeps (LFilter out pred c) (LFilter out pred' c')) as Hkeep.
  { split; [done|]. split; [|done]. cbn [plan_ok]. split; [|done]. apply Hk. eapply resolves_sub; [exact Hres|].
    intros e He. apply list_elem_of_singleton in He as ->. rewrite union_refs_one. by eapply fold_refs. }
  destruct pred' as [|t v []| | | |]; try by injection Hf as <-.
  destruct (bool_decide (t = BOOLEAN)); [|by injection Hf as <-]. apply bind_Ok_inv in Hf as (b & _ & Hf). injection Hf as <-.
  destruct b; [split; [exact Hs'|split; [exact Hok'|exact Hk]]|]. split; [done|]. split.
  - cbn [plan_ok empty_get get_column_ids]. unfold table_of. simpl. rewrite no_empty_table. by split; [constructor|left].
  - intros es _. split; [done|]. intros g [= <-]. left. exact no_empty_table.
Qed.

Lemma pushdown_filtered p pending :
  filtered p = true -> ok p -> resolves p pending ->
  let p' := (Pushdown p pending).1 in (Pushdown p pending).2 = [] /\ filtered p' = true /\ keeps p p'.
Proof.
  revert pending. induction p as [out g|out pred c IH| | | | |out cond lk rk l _ r _| | | | | |]; intros pending Hs Hok Hp; try done;
    cbn [Pushdown filtered plan_ok] in *.
  - split; [done|]. split; [done|]. split.
    2: { intros es [_ Hes]. split; [done|]. intros g' [= <-]. exact (Hes g eq_refl). }
    cbn [plan_ok fst]. destruct Hok as [Hr Hc]. split; [exact Hr|].
    destruct (proj2 Hp g eq_refl) as [Ht|Ha]; [by left|]. destruct Hc as [Ht|Hc]; [by left|right]. by apply Forall_app.
  - destruct Hok as [Hres Hok]. destruct (IH (pending ++ [pred]) Hs Hok) as (Hnil & Hs' & Hk); [by apply resolves_app|].
    destruct (Pushdown c (pending ++ [pred])) as [c' pending']. simpl in *. subst pending'. by rewrite reattach_nil.
  - split; [done|]. unfold reattach. destruct (CombinePredicates pending); [|by split; [|split]].
    split; [done|]. split; [|done]. split; [by apply resolves_nil|done].
Qed.

(** The columns a pruned scan keeps. *)
Lemma kept_in ids required c : c ∈ ids -> c ∈ required -> c ∈ keep ids (kept_positions ids required).
Proof.
  intros Hc Hr. apply list_elem_of_lookup in Hc as [i Hi]. unfold keep. apply list_elem_of_omap. exists i. split; [|done].
  unfold kept_positions.
  set (kept := filter _ _). assert (i ∈ kept) as Hk.
  { apply list_elem_of_filter. rewrite Hi, bool_decide_true by done. split; [done|]. apply elem_of_seq.
    apply lookup_lt_Some in Hi. lia. }
  destruct kept; [by apply elem_of_nil in Hk|done].
Qed.

Lemma kept_sub {A} (l : list A) positions x : x ∈ keep l positions -> x ∈ l.
Proof. unfold keep. rewrite list_elem_of_omap. intros (i & _ & Hi). by apply list_elem_of_lookup_2 in Hi. Qed.

Lemma collect_union es required : collect es required = ⋃ (refs <$> es) ∪ required.
Proof.
  unfold collect. revert required. induction es as [|e es IH]; intros required; simpl; [set_solver|].
  rewrite IH, CollectColumnRefs_union. set_solver.
Qed.

Lemma prune_get_keeps out g required :
  ok (LGet out g) ->
  ok (prune_get out g required) /\
  forall es, resolves (LGet out g) es -> ⋃ (refs <$> es) ⊆ required -> resolves (prune_get out g required) es.
Proof.
  intros Hok. unfold prune_get. destruct (decide (required = ∅)) as [->|Hne]; [done|].
  rewrite collect_union. set (req := _ ∪ required). set (ids := keep (get_column_ids g) _).
  assert (forall e, covered (get_column_ids g) e -> refs e ⊆ req -> covered ids e) as Hcov.
  { intros e Hc He i Hi. apply kept_in; [by apply Hc|set_solver]. }
  assert (forall es : list LogicalExpr, Forall (covered (get_column_ids g)) es -> ⋃ (refs <$> es) ⊆ req -> Forall (covered ids) es) as Hall.
  { intros es Hes Hsub. apply Forall_forall. intros e He. apply Hcov; [by apply (proj1 (Forall_forall _ _) Hes)|].
    intros i Hi. apply Hsub, elem_of_union_list. exists (refs e). split; [by apply list_elem_of_fmap_2|done]. }
  cbn [plan_ok] in *. destruct Hok as [Hr Hf]. split; [split|].
  - eapply Forall_impl; [exact Hr|]. intros r Hrow. cbn [get_column_ids]. apply Forall_forall. intros i Hi.
    apply kept_sub in Hi. by apply (proj1 (Forall_forall _ _) Hrow).
  - destruct Hf as [Ht|Hf]; [by left|right]. apply Hall; [done|set_solver].
  - intros es [_ Hes] Hsub. split; [done|]. intros g' [= <-]. destruct (Hes g eq_refl) as [Ht|Hc]; [by left|right].
    apply Hall; [done|set_solver].
Qed.

Lemma prune_filtered p required :
  filtered p = true -> ok p ->
  filtered (PruneColumns p required) = true /\ ok (PruneColumns p required) /\
  forall es, resolves p es -> ⋃ (refs <$> es) ⊆ required -> resolves (PruneColumns p required) es.
Proof.
  revert required. induction p as [out g|out pred c IH| | | | |out cond lk rk l _ r _| | | | | |]; intros required Hs Hok; try done;
    cbn [PruneColumns filtered plan_ok] in *.
  - split; [unfold prune_get; by case_decide|]. by apply prune_get_keeps.
  - destruct Hok as [Hres Hok]. destruct (IH (CollectColumnRefs pred required) Hs Hok) as (Hs' & Hok' & Hk).
    rewrite CollectColumnRefs_union in *. split; [done|]. split.
    + split; [|done]. apply Hk; [done|]. rewrite union_refs_one. set_solver.
    + intros es Hes Hsub. apply Hk; [done|]. set_solver.
Qed.

Lemma merge_filtered p : filtered p = true -> ok p -> filtered (MergeFilters p) = true /\ keeps p (MergeFilters p).
Proof.
  induction p as [out g|out pred c IH| | | | |out cond lk rk l _ r _| | | | | |]; intros Hs Hok; cbn [filtered] in Hs; try done;
    try by rewrite merge_source.
  cbn [MergeFilters plan_ok] in *. destruct Hok as [Hres Hok]. destruct (IH Hs Hok) as (Hs' & Hok' & Hk). clear IH.
  pose proof (Hk _ Hres) as Hres'.
  destruct (MergeFilters c) as [|out' inner c'| | | | | | | | | | |]; try by split; [|split].
  cbn [filtered plan_ok] in *. destruct Hok' as [Hin Hok']. split; [done|]. split; [|exact Hk]. split; [|done].
  eapply resolves_sub; [apply resolves_app; split; [exact Hres'|exact Hin]|].
  intros e He. apply list_elem_of_singleton in He as ->. unfold conj. rewrite refs_binary. simpl. set_solver.
Qed.

(** What the planner needs of such a plan. *)
Lemma select_ok lim out es srt c :
  ok (select_plan lim out es srt c) <->
  match lim with Some (_, l, o) => (l + Z.max 0 o <= INT64_MAX)%Z | None => True end /\
  resolves c es /\ resolves c (keys_of srt) /\ ok c.
Proof.
  assert (resolves c es -> resolves c []) as Hnil by (intros H; eapply resolves_sub; [exact H|by intros e ?%elem_of_nil]).
  unfold select_plan. destruct lim as [[[lo l] o]|], srt as [[[so ks] asc]|]; cbn [with_limit with_sort plan_ok keys_of];
    unfold exprs_ok in *; cbn [TryFindLogicalGet get_source]; tauto.
Qed.

Lemma select_fold lim out es srt c q :
  FoldPlan F (select_plan lim out es srt c) = Ok q ->
  exists es' c', mapM_r (FoldExpr F) es = Ok es' /\ FoldPlan F c = Ok c' /\ q = select_plan lim out es' srt c'.
Proof.
  unfold select_plan. destruct lim as [[[lo l] o]|], srt as [[[so ks] asc]|]; cbn [with_limit with_sort FoldPlan]; intros Hf;
    inv_ok; eauto 10.
Qed.

Lemma select_push lim out es srt c :
  (Pushdown c []).2 = [] -> (Pushdown (select_plan lim out es srt c) []).1 = select_plan lim out es srt (Pushdown c []).1.
Proof.
  unfold select_plan. intros Hnil. destruct (Pushdown c []) as [c' pending] eqn:Ep. simpl in Hnil. subst pending.
  destruct lim as [[[lo l] o]|], srt as [[[so ks] asc]|]; cbn [with_limit with_sort Pushdown]; by rewrite Ep.
Qed.

Lemma select_prune lim out es srt c required :
  PruneColumns (select_plan lim out es srt c) required =
  select_plan lim out es srt (PruneColumns c (collect (keys_of srt) (collect es required))).
Proof. by destruct lim as [[[lo l] o]|], srt as [[[so ks] asc]|]. Qed.

Lemma select_merge lim out es srt c :
  MergeFilters (select_plan lim out es srt c) = select_plan lim out es srt (MergeFilters c).
Proof. by destruct lim as [[[lo l] o]|], srt as [[[so ks] asc]|]. Qed.

Lemma fold_refs_all es es' : mapM_r (FoldExpr F) es = Ok es' -> forall e, e ∈ es' -> refs e ⊆ ⋃ (refs <$> es).
Proof.
  revert es'. induction es as [|e0 es IH]; intros es' Hf e He; cbn [mapM_r] in Hf; inv_ok; [by apply elem_of_nil in He|].
  apply elem_of_cons in He as [->|He].
  - match goal with H : FoldExpr F e0 = Ok _ |- _ => apply fold_refs in H end. set_solver.
  - match goal with H : mapM_r _ _ = Ok _ |- _ => pose proof (IH _ H e He) end. set_solver.
Qed.

(** The optimizer leaves a plan of this shape for the planner. *)
Lemma optimize_select cfg lim out es srt c p' :
  filtered c = true -> ok (select_plan lim out es srt c) -> Optimize F cfg (select_plan lim out es srt c) = Ok p' -> ok p'.
Proof.
  intros Hs Hok Ho. unfold Optimize in Ho.
  assert (IsTrivialPlan (select_plan lim out es srt c) = false) as Ht by (by destruct lim as [[[? ?] ?]|]).
  rewrite Ht in Ho. clear Ht. apply bind_Ok_inv in Ho as (p1 & Hp1 & Ho).
  assert (exists es c, p1 = select_plan lim out es srt c /\ filtered c = true /\ ok p1) as (es1 & c1 & -> & Hs1 & Hok1).
  { destruct (constant_folding cfg); [|injection Hp1 as <-; eauto]. apply select_fold in Hp1 as (es' & c' & Hes & Hc & ->).
    apply select_ok in Hok as (Hl & Hre & Hrk & Hok). destruct (fold_filtered c c' Hs Hok Hc) as (Hs' & Hok' & Hk).
    exists es', c'. split_and!; [done|done|]. apply select_ok. split_and!; [done| |by apply Hk|done].
    apply Hk. eapply resolves_sub; [exact Hre|]. by apply fold_refs_all. }
  clear Hp1 Hs Hok es c. cbv zeta in Ho.
  assert (exists c, (if predicate_pushdown cfg then (Pushdown (select_plan lim out es1 srt c1) []).1 else select_plan lim out es1 srt c1) =
    select_plan lim out es1 srt c /\ filtered c = true /\ ok (select_plan lim out es1 srt c)) as (c2 & Hp2 & Hs2 & Hok2).
  { destruct (predicate_pushdown cfg); [|by eauto]. apply select_ok in Hok1 as (Hl & Hre & Hrk & Hok).
    destruct (pushdown_filtered c1 [] Hs1 Hok) as (Hnil & Hs' & Hok' & Hk); [eapply resolves_sub; [exact Hre|by intros e ?%elem_of_nil]|].
    rewrite select_push by done. eexists. split_and!; [done|done|]. apply select_ok. auto. }
  rewrite Hp2 in Ho. clear Hp2 Hok1 Hs1 c1.
  assert (exists c, (if column_pruning cfg then PruneColumns (select_plan lim out es1 srt c2) ∅ else select_plan lim out es1 srt c2) =
    select_plan lim out es1 srt c /\ filtered c = true /\ ok (select_plan lim out es1 srt c)) as (c3 & Hp3 & Hs3 & Hok3).
  { destruct (column_pruning cfg); [|by eauto]. apply select_ok in Hok2 as (Hl & Hre & Hrk & Hok). rewrite select_prune.
    destruct (prune_filtered c2 (collect (keys_of srt) (collect es1 ∅)) Hs2 Hok) as (Hs' & Hok' & Hk). rewrite !collect_union in *.
    eexists. split_and!; [done|done|]. apply select_ok. split_and!; [done|apply Hk; [done|set_solver]|apply Hk; [done|set_solver]|done]. }
  rewrite Hp3 in Ho. injection Ho as <-. destruct (filter_merge cfg); [|done].
  apply select_ok in Hok3 as (Hl & Hre & Hrk & Hok). destruct (merge_filtered c3 Hs3 Hok) as (_ & Hok' & Hk).
  rewrite select_merge. apply select_ok. auto.
Qed.

End resolve.

(** ** Theorems *)

Section optimize.
Context (F : FPU) (tables : string -> string -> list sql_row).

(** The passes after folding. *)
Lemma later_passes_rows cfg p rows :
  pushable p = true -> get_source p = None \/ rows = [] -> plan_rows F tables p = Some rows ->
  let p := if predicate_pushdown cfg then (Pushdown p []).1 else p in
  let p := if column_pruning cfg then PruneColumns p ∅ else p in
  query_rows F tables (if filter_merge cfg then MergeFilters p else p) = Some rows.
Proof.
  intros Hp Hs Hr.
  assert (forall q, plan_rows F tables q = Some rows -> get_source q = None \/ rows = [] -> query_rows F tables q = Some rows) as Hq.
  { intros q Hqr Hqs. unfold query_rows. rewrite Hqr. cbn. f_equal. destruct Hqs as [Hn| ->]; [|done]. unfold narrow. rewrite Hn.
    apply list_fmap_id. }
  assert (exists q, (if predicate_pushdown cfg then (Pushdown p []).1 else p) = q /\ plan_rows F tables q = Some rows /\
    (get_source q = None \/ rows = [])) as (q & -> & Hqr & Hqs).
  { destruct (predicate_pushdown cfg); [|by eauto]. pose proof (Pushdown_rows F tables p Hp) as Hd.
    destruct (Pushdown p []) as [p1 pending]. destruct Hd as (_ & Hd & Hi). eexists. split_and!; [done|by rewrite <- Hr|].
    destruct Hs as [Hs|Hs]; [left|by right]. simpl. unfold scan_ids in Hi. rewrite Hs in Hi. by destruct (get_source p1). }
  cbv zeta. destruct (column_pruning cfg), (filter_merge cfg);
    rewrite ?MergeFilters_rows, ?PruneColumns_rows, ?PruneColumns_source; apply Hq;
    rewrite ?(proj1 (MergeFilters_rows F tables _)), ?(proj2 (MergeFilters_rows F tables _)), ?PruneColumns_rows, ?PruneColumns_source; done.
Qed.

Lemma Optimize_query cfg p p' rows :
  tables ""%string "__empty__"%string = [] -> fold_ok F p -> pushable p = true -> get_source p = None ->
  query_rows F tables p = Some rows -> Optimize F cfg p = Ok p' -> query_rows F tables p' = Some rows.
Proof.
  intros Hno Hok Hp Hs Hq Ho. unfold query_rows in Hq. apply fmap_Some in Hq as (rows0 & Hr & ->).
  assert (narrow p <$> rows0 = rows0) as -> by (unfold narrow; rewrite Hs; apply list_fmap_id).
  unfold Optimize in Ho. assert (IsTrivialPlan p = false) as Ht by (by destruct p). rewrite Ht in Ho.
  apply bind_Ok_inv in Ho as (p1 & Hf & Ho). injection Ho as <-. destruct (constant_folding cfg).
  - destruct (FoldPlan_rows F tables Hno p p1 rows0 Hok Hf Hr) as [Hr1 Hs1]. apply later_passes_rows; [|by rewrite Hs in Hs1|done].
    by eapply FoldPlan_pushable.
  - injection Hf as <-. apply later_passes_rows; auto.
Qed.

End optimize.

(** C18: the optimizer does not change the rows of a plan whose rows are
    defined, whichever of its passes are on, when the literals it folds have the
    values of their types and folding computes what the evaluator computes, the
    filters stand over scans, aggregations, joins or other filters, the plan is
    more than a scan under filters, sorts and limits, and the table __empty__ of
    the schema with the empty name has no rows. Without exact folding it fails:
    [folding_changes_value], and a folded comparison throws when it is
    evaluated: [folded_comparison_throws]. *)
Theorem optimize_rows F tables cfg p p' rows :
  tables ""%string "__empty__"%string = [] -> fold_ok F p -> pushable p = true -> get_source p = None ->
  query_rows F tables p = Some rows -> Optimize F cfg p = Ok p' -> query_rows F tables p' = Some rows.
Proof. apply Optimize_query. Qed.

(** [SELECT c FROM t WHERE a > 1 + 0.5 AND a > 0], with the AND as two filters *)
Definition sample_filtered : LogicalPlan :=
  LProjection no_output [int_ref 2 "c"]
    (LFilter no_output (LogicalBinaryOp BOOLEAN ">" (int_ref 0 "a") (LogicalLit INT64 (Value_Integer 0) false))
      (LFilter no_output (LogicalBinaryOp BOOLEAN ">" (int_ref 0 "a")
          (LogicalBinaryOp FLOAT64 "+" (LogicalLit INT64 (Value_Integer 1) false)
             (LogicalLit FLOAT64 (Value_Float (1022 * 2 ^ 52)) false)))
        (sample_get [0; 1; 2]))).

Lemma sample_fold_ok : fold_ok sample_FPU sample_filtered.
Proof.
  cbn [fold_ok sample_filtered lits_ok sample_get]. split_and!; try done; try (right; by repeat split).
Qed.

Lemma optimize_rows_witness :
  exists p', Optimize sample_FPU OptimizerConfig_default sample_filtered = Ok p' /\
    query_rows sample_FPU sample_tables p' = Some [[Some (CInt 30)]; [Some (CInt 20)]].
Proof.
  eexists. split; [vm_compute; reflexivity|].
  apply (optimize_rows sample_FPU sample_tables OptimizerConfig_default sample_filtered).
  - reflexivity.
  - exact sample_fold_ok.
  - reflexivity.
  - reflexivity.
  - vm_compute. reflexivity.
  - vm_compute. reflexivity.
Defined.

Lemma optimized_plan_rows F tables cfg lim out es srt c p' rows :
  let p := select_plan lim out es srt c in
  tables ""%string "__empty__"%string = [] -> filtered c = true -> fold_ok F p -> plan_ok F tables p ->
  query_rows F tables p = Some rows -> Optimize F cfg p = Ok p' -> phys_rows F tables (Plan p') = Some rows.
Proof.
  intros p Hno Hs Hfo Hok Hq Ho. pose proof (optimize_select F tables Hno cfg lim out es srt c p' Hs Hok Ho) as Hok'.
  assert (pushable p = true /\ get_source p = None) as [Hpush Hsrc].
  { assert (pushable c = true) as Hc.
    { apply sinks_pushable. clear -Hs. induction c; cbn [filtered sinks] in *; try done. by apply IHc. }
    unfold p, select_plan. destruct lim as [[[? ?] ?]|], srt as [[[? ?] ?]|]; done. }
  pose proof (Optimize_query F tables cfg p p' rows Hno Hfo Hpush Hsrc Hq Ho) as Hq'.
  unfold query_rows in Hq'. apply fmap_Some in Hq' as (rows1 & Hr1 & ->).
  destruct (PlanNode_rows F tables p' None rows1 Hok' Hr1) as (rows' & Hp & [->|(k & [=] & _)]). done.
Qed.

(** The operators that are planned for the optimized plan of a SELECT
    without aggregates compute the rows of the plan the binder built: the scan
    delivers every column that is read above it or by the filters moved into it. *)
Theorem optimized_select_rows F tables cfg lim out es srt c p' rows :
  let p := select_plan lim out es srt c in
  tables ""%string "__empty__"%string = [] -> filtered c = true -> fold_ok F p -> plan_ok F tables p ->
  query_rows F tables p = Some rows -> Optimize F cfg p = Ok p' -> phys_rows F tables (Plan p') = Some rows.
Proof. apply optimized_plan_rows. Qed.

(** The plan of [sample_plan] with a scan of the whole table. *)
Definition sample_wide : LogicalPlan :=
  select_plan (Some (no_output, 1%Z, 0%Z)) no_output [int_ref 2 "c"] (Some (no_output, [int_ref 0 "a"], [true]))
    (LFilter no_output (LogicalBinaryOp BOOLEAN ">" (int_ref 0 "a") (LogicalLit INT64 (Value_Integer 1) false))
      (sample_get [0; 1; 2])).

Lemma sample_wide_ok : plan_ok sample_FPU sample_tables sample_wide.
Proof.
  assert (forall e, (forall i, i ∈ refs e -> i = 0 \/ i = 2) -> exprs_ok sample_tables (sample_get [0; 1; 2]) [e]) as Hres.
  { intros e He. split; [done|]. intros g [= <-]. right. apply Forall_singleton. intros i Hi. simpl. apply He in Hi. set_solver. }
  apply select_ok. split_and!; [done| | |].
  - apply Hres. intros i Hi. unfold refs in Hi. cbn in Hi. set_solver.
  - apply Hres. intros i Hi. unfold refs in Hi. cbn in Hi. set_solver.
  - cbn [plan_ok]. split; [apply Hres; intros i Hi; rewrite refs_binary in Hi; unfold refs in Hi; cbn in Hi; set_solver|].
    split; [|right; constructor]. repeat constructor; simpl; lia.
Qed.

Lemma optimized_select_rows_witness :
  exists p', Optimize sample_FPU OptimizerConfig_default sample_wide = Ok p' /\
    TryFindLogicalGet p' = Some (mkGet "main" "t" [0; 2] 3 PI_none
      [LogicalBinaryOp BOOLEAN ">" (int_ref 0 "a") (LogicalLit INT64 (Value_Integer 1) false)]) /\
    phys_rows sample_FPU sample_tables (Plan p') = Some [[Some (CInt 20)]].
Proof.
  eexists. split; [vm_compute; reflexivity|]. split; [reflexivity|].
  eapply (optimized_select_rows sample_FPU sample_tables OptimizerConfig_default).
  - reflexivity.
  - instantiate (1 := LFilter no_output (LogicalBinaryOp BOOLEAN ">" (int_ref 0 "a") (LogicalLit INT64 (Value_Integer 1) false))
      (sample_get [0; 1; 2])). reflexivity.
  - instantiate (1 := Some (no_output, [int_ref 0 "a"], [true])). instantiate (1 := [int_ref 2 "c"]). instantiate (1 := no_output).
    instantiate (1 := Some (no_output, 1%Z, 0%Z)). cbn. split_and!; try done; try (right; by repeat split).
  - exact sample_wide_ok.
  - vm_compute. reflexivity.
  - vm_compute. reflexivity.
Defined.

(** The planner does not translate the references of an aggregation, so
    an aggregation over a pruned scan reads other columns than the query names:
    [SELECT SUM(b) FROM t WHERE c > 0] returns the sum of [c]. *)
Theorem aggregate_reads_wrong_column :
  let out := mkOut [INT64] ["sum"%string] in
  let p := LProjection out [int_ref 0 "sum"] (LAggregate out [] [LogicalAggrExpr INT64 SUM false (Some (int_ref 1 "b"))]
             (LFilter no_output (LogicalBinaryOp BOOLEAN ">" (int_ref 2 "c") (LogicalLit INT64 (Value_Integer 0) false))
               (sample_get [0; 1; 2]))) in
  query_rows sample_FPU sample_tables p = Some [[Some (CInt 16)]] /\
  exists p', Optimize sample_FPU OptimizerConfig_default p = Ok p' /\
    phys_rows sample_FPU sample_tables (Plan p') = Some [[Some (CInt 60)]].
Proof. split; [vm_compute; reflexivity|]. eexists. split; [vm_compute; reflexivity|]. vm_compute. reflexivity. Qed.

(** Integers are folded in 64 bits but evaluated in doubles: [2^53 + 1] is
    [2^53 + 1] between literals and [2^53] when the evaluator computes it. *)
Theorem folding_changes_value :
  let e := LogicalBinaryOp INT64 "+" (LogicalLit INT64 (Value_Integer (2 ^ 53)) false) (LogicalLit INT64 (Value_Integer 1) false) in
  FoldExpr sample_FPU e = Ok (MakeIntLit (2 ^ 53 + 1)) /\ eval_row sample_FPU e [] = Some (Some (CInt (2 ^ 53))).
Proof. split; vm_compute; reflexivity. Qed.

(** A comparison of literals is folded to a BOOLEAN literal, which the
    evaluator cannot put in a vector: [a = a AND 1 = 1] evaluates before the
    folding and throws after it. *)
Theorem folded_comparison_throws :
  let one := LogicalLit INT64 (Value_Integer 1) false in
  let lhs := LogicalBinaryOp BOOLEAN "=" (int_ref 0 "a") (int_ref 0 "a") in
  let e := LogicalBinaryOp BOOLEAN "AND" lhs (LogicalBinaryOp BOOLEAN "=" one one) in
  (exists sel, EvaluatePredicate sample_FPU e sample_chunk = Ok sel) /\
  exists e', FoldExpr sample_FPU e = Ok e' /\ EvaluatePredicate sample_FPU e' sample_chunk = Err BadVariantAccess.
Proof. split; [eexists; vm_compute; reflexivity|]. eexists. split; [vm_compute; reflexivity|]. vm_compute. reflexivity. Qed.
