(* ===== verification/Catalog.v ===== *)
(** * The catalog

    [catalog/catalog.hpp] and [catalog.cpp], less its checkpoint format (see
    [CatalogCheckpoint]).  The mutex makes every operation atomic.  The claims
    are about the multi-version behaviour of DDL: what a transaction sees of
    the catalog is not changed by the others, a created table becomes visible
    to the transactions that start after its commit and to no older one, and
    rolling a CREATE or a DROP back restores the catalog; concurrent drops of
    one table are the case the single delete marker does not cover. *)

From Stdlib Require Import ZArith String.
From stdpp Require Import base gmap strings list relations.
From S2P Require Import Prelude Types PartitionInfo Transaction BufferManager ColumnChunk VersionInfo RowGroup Schema.

Record Catalog : Type := mkCatalog { schemas_ : gmap string Schema }.

Definition DEFAULT_SCHEMA : string := "main".

Definition Catalog_new : Catalog := mkCatalog {[DEFAULT_SCHEMA := Schema_new DEFAULT_SCHEMA]}.

Definition CreateSchema (c : Catalog) (name : string) : result Catalog :=
  match schemas_ c !! name with
  | Some _ => Err (BindError ("Schema already exists: " +:+ name))
  | None => Ok (mkCatalog (<[name := Schema_new name]> (schemas_ c)))
  end.

Definition DropSchema (c : Catalog) (name : string) : result Catalog :=
  match schemas_ c !! name with
  | None => Err (BindError ("Schema not found: " +:+ name))
  | Some _ => Ok (mkCatalog (delete name (schemas_ c)))
  end.

Definition GetSchema (c : Catalog) (name : string) : option Schema := schemas_ c !! name.

Definition with_schema (c : Catalog) (schema : string) (s : Schema) : Catalog :=
  mkCatalog (<[schema := s]> (schemas_ c)).

(** The schema, or the error every DDL statement throws without it. *)
Definition need_schema (c : Catalog) (schema : string) : result Schema :=
  of_option (BindError ("Schema not found: " +:+ schema)) (GetSchema c schema).

Definition GetEntry (c : Catalog) (schema name : string) (tx : Transaction) (policy : OnNotFound)
    : result (option (nat * TableCatalogEntry)) :=
  match GetSchema c schema, policy with
  | Some s, _ => schema_GetEntry s name tx policy
  | None, THROW => Err (BindError ("Schema not found: " +:+ schema))
  | None, RETURN_NULL => Ok None
  end.

(** With [RETURN_NULL] nothing is thrown. *)
Definition GetTable (c : Catalog) (schema name : string) (tx : Transaction) : option (nat * TableCatalogEntry) :=
  match GetEntry c schema name tx RETURN_NULL with Ok p => p | Err _ => None end.

Definition CreateTable (c : Catalog) (schema name : string) (cols : list ColumnDefinition) (tx : Transaction)
    (pi : PartitionInfo) : result Catalog :=
  s ← need_schema c schema;
  found ← schema_GetEntry s name tx RETURN_NULL;
  match found with
  | Some _ => Err (BindError ("Table already exists: " +:+ schema +:+ "." +:+ name))
  | None =>
      let idx := if IsPartitioned pi then replicate (Z.to_nat (num_partitions pi)) [] else [] in
      let e := mkEntry name schema (tx_id tx) INVALID_TIMESTAMP INVALID_TRANSACTION INVALID_TIMESTAMP
                 cols [] pi idx in
      Ok (with_schema c schema (schema_CreateEntry s e))
  end.

Definition DropTable (c : Catalog) (schema name : string) (tx : Transaction) : result Catalog :=
  s ← need_schema c schema;
  _ ← schema_GetEntry s name tx THROW;
  Ok (with_schema c schema (schema_MarkDeleted s name tx)).

(** The entry at position [i] of the versions of a table, changed in place
    through the pointer a lookup returned. *)
Definition update_entry (c : Catalog) (schema name : string) (i : nat) (f : TableCatalogEntry -> TableCatalogEntry)
    : Catalog :=
  mkCatalog (alter (alter_versions (alter f i) name) schema (schemas_ c)).

(** [GetEntry(name, tx, THROW)] on a schema that exists never returns null. *)
Definition need_entry (c : Catalog) (schema name : string) (tx : Transaction) : result (nat * TableCatalogEntry) :=
  s ← need_schema c schema;
  found ← schema_GetEntry s name tx THROW;
  of_option UndefinedBehaviour found.

Definition erase_at {A} (i : nat) (l : list A) : result (list A) :=
  if decide (i < length l) then Ok (delete i l) else Err UndefinedBehaviour.

(** Both return the old partition state for the undo entry. *)
Definition DropPartition (c : Catalog) (schema name : string) (pid : nat) (tx : Transaction)
    : result (Catalog * PartitionInfo * list (list nat)) :=
  '(i, e) ← need_entry c schema name tx;
  let pi := partition_info e in
  ds ← erase_at pid (defs pi);
  idx ← erase_at pid (partition_rg_indices e);
  let pi' := mkPI (ptype pi) (partition_cols pi) (partition_col_idxs pi) (u32 (num_partitions pi - 1)) ds in
  Ok (update_entry c schema name i (fun e => set_partition e pi' idx), pi, partition_rg_indices e).

Definition close_last (ds : list PartitionDef) (bound : list Value) : list PartitionDef :=
  alter (fun d => mkDef bound (list_values d)) (length ds - 1) ds.

Definition AddPartition (c : Catalog) (schema name : string) (new_bound : list Value)
    (new_values : list (list Value)) (tx : Transaction) : result (Catalog * PartitionInfo * list (list nat)) :=
  '(i, e) ← need_entry c schema name tx;
  let pi := partition_info e in
  let ds := if decide (ptype pi = PT_RANGE) then close_last (defs pi) new_bound ++ [mkDef [] []]
            else defs pi ++ [mkDef [] new_values] in
  let pi' := mkPI (ptype pi) (partition_cols pi) (partition_col_idxs pi) (u32 (num_partitions pi + 1)) ds in
  Ok (update_entry c schema name i (fun e => set_partition e pi' (partition_rg_indices e ++ [[]])),
      pi, partition_rg_indices e).

Definition RestorePartitionState (c : Catalog) (schema name : string) (pi : PartitionInfo)
    (idx : list (list nat)) (tx : Transaction) : Catalog :=
  match GetTable c schema name tx with
  | Some (i, _) => update_entry c schema name i (fun e => set_partition e pi idx)
  | None => c
  end.

Definition on_schema (c : Catalog) (schema : string) (f : Schema -> Schema) : Catalog :=
  mkCatalog (alter f schema (schemas_ c)).

Definition CommitEntry (c : Catalog) (schema name : string) (tx t : Z) : Catalog :=
  on_schema c schema (fun s => schema_CommitEntry s name tx t).
Definition RollbackCreate (c : Catalog) (schema name : string) (tx : Z) : Catalog :=
  on_schema c schema (fun s => schema_RollbackCreate s name tx).
Definition RollbackDrop (c : Catalog) (schema name : string) (tx : Z) : Catalog :=
  on_schema c schema (fun s => schema_RollbackDrop s name tx).

(** The tables a checkpoint covers: created and not dropped by a committed
    transaction. *)
Definition live (e : TableCatalogEntry) : bool :=
  negb (Z.eqb (create_commit_time e) INVALID_TIMESTAMP) && Z.eqb (delete_commit_time e) INVALID_TIMESTAMP.

Definition HasUncommittedVersionMarkers `{MapOrder} (c : Catalog) : bool :=
  existsb (fun p : string * Schema =>
    existsb (fun q : string * list TableCatalogEntry =>
      existsb (fun e => live e && existsb (fun rg => HasUncommittedMarkers (version_info_ rg)) (row_groups e))
        q.2) (map_order (entries_ p.2))) (map_order (schemas_ c)).

Section Flush.
Context {S : Type} {BSops : BlockStore S}.

Fixpoint flush_row_groups (s : S) (rgs : list RowGroup) : result (S * list RowGroup) :=
  match rgs with
  | [] => Ok (s, [])
  | rg :: rgs =>
      '(s, rg) ← (if HasUncommittedMarkers (version_info_ rg) then Ok (s, rg) else rg_Flush s rg);
      '(s, rgs) ← flush_row_groups s rgs;
      Ok (s, rg :: rgs)
  end.

Fixpoint flush_entries (s : S) (es : list TableCatalogEntry) : result (S * list TableCatalogEntry) :=
  match es with
  | [] => Ok (s, [])
  | e :: es =>
      '(s, rgs) ← (if live e then flush_row_groups s (row_groups e) else Ok (s, row_groups e));
      '(s, es) ← flush_entries s es;
      Ok (s, set_row_groups e rgs :: es)
  end.

(** The schemas and tables are visited in the order of the maps; the entries
    of the visited table are replaced. *)
Fixpoint flush_tables (s : S) (sch : Schema) (names : list string) : result (S * Schema) :=
  match names with
  | [] => Ok (s, sch)
  | name :: names =>
      '(s, es) ← flush_entries s (versions_of sch name);
      flush_tables s (alter_versions (fun _ => es) name sch) names
  end.

Fixpoint flush_schemas (s : S) (c : Catalog) (order : list (string * list string)) : result (S * Catalog) :=
  match order with
  | [] => Ok (s, c)
  | (sname, tnames) :: order =>
      match GetSchema c sname with
      | Some sch => '(s, sch) ← flush_tables s sch tnames; flush_schemas s (with_schema c sname sch) order
      | None => flush_schemas s c order
      end
  end.

Definition flush_order `{MapOrder} (c : Catalog) : list (string * list string) :=
  (fun p : string * Schema => (p.1, (map_order (entries_ p.2)).*1)) <$> map_order (schemas_ c).

Definition FlushAllRowGroups `{MapOrder} (s : S) (c : Catalog) : result (S * Catalog) := flush_schemas s c (flush_order c).
End Flush.

(** ** What a transaction sees *)

(** A version without its delete marker. *)
Definition image (e : TableCatalogEntry) : TableCatalogEntry := set_delete e INVALID_TRANSACTION INVALID_TIMESTAMP.

Definition versions_view (tx : Transaction) (l : list TableCatalogEntry) : option TableCatalogEntry :=
  (fun p => image p.2) <$> last_visible tx l.

Definition view (tx : Transaction) (c : Catalog) (schema name : string) : option TableCatalogEntry :=
  (fun p => image p.2) <$> GetTable c schema name tx.

Lemma GetTable_eq c schema name tx :
  GetTable c schema name tx =
    s ← GetSchema c schema; last_visible tx (versions_of s name).
Proof.
  unfold GetTable, GetEntry, schema_GetEntry. destruct (GetSchema c schema) as [s|]; [|done]. simpl.
  by destruct (last_visible tx (versions_of s name)).
Qed.

Lemma view_eq tx c schema name :
  view tx c schema name = s ← GetSchema c schema; versions_view tx (versions_of s name).
Proof. unfold view. rewrite GetTable_eq. by destruct (GetSchema c schema). Qed.

(** Two versions that the transaction cannot tell apart. *)
Definition same_for (tx : Transaction) (e e' : TableCatalogEntry) : Prop :=
  IsCatalogEntryVisible e tx = IsCatalogEntryVisible e' tx /\
  (IsCatalogEntryVisible e tx = true -> image e = image e').

#[local] Instance same_for_refl tx : Reflexive (same_for tx).
Proof. done. Qed.

Lemma versions_view_cons tx e l :
  versions_view tx (e :: l) =
    match versions_view tx l with
    | Some v => Some v
    | None => if IsCatalogEntryVisible e tx then Some (image e) else None
    end.
Proof.
  unfold versions_view. simpl. destruct (last_visible tx l) as [[i e']|]; simpl; [done|].
  by destruct (IsCatalogEntryVisible e tx).
Qed.

Lemma versions_view_same tx l l' : Forall2 (same_for tx) l l' -> versions_view tx l = versions_view tx l'.
Proof.
  induction 1 as [|e e' l l' [Hv Hi] _ IH]; [done|]. rewrite !versions_view_cons, IH, <- Hv.
  destruct (versions_view tx l'); [done|]. destruct (IsCatalogEntryVisible e tx) eqn:E; [by rewrite Hi|done].
Qed.

Lemma versions_view_fmap tx f l :
  (forall e, same_for tx e (f e)) -> versions_view tx (f <$> l) = versions_view tx l.
Proof. intros Hf. symmetry. apply versions_view_same. rewrite Forall2_fmap_r. by apply Forall_Forall2_diag, Forall_true. Qed.

Lemma versions_view_snoc tx e l :
  IsCatalogEntryVisible e tx = false -> versions_view tx (l ++ [e]) = versions_view tx l.
Proof.
  intros He. induction l as [|x l IH]; simpl app; rewrite !versions_view_cons; [by rewrite He|by rewrite IH].
Qed.

Lemma versions_view_filter tx (P : TableCatalogEntry -> Prop) `{forall e, Decision (P e)} l :
  (forall e, ~ P e -> IsCatalogEntryVisible e tx = false) -> versions_view tx (filter P l) = versions_view tx l.
Proof.
  intros Hp. induction l as [|e l IH]; [done|]. rewrite filter_cons, (versions_view_cons tx e l).
  case_decide as He; [by rewrite versions_view_cons, IH|].
  rewrite IH, (Hp e He). by destruct (versions_view tx l).
Qed.

Lemma versions_view_alter tx f i l :
  (forall e, l !! i = Some e -> same_for tx e (f e)) -> versions_view tx (alter f i l) = versions_view tx l.
Proof.
  intros Hf. symmetry. apply versions_view_same. apply Forall2_same_length_lookup.
  split; [by rewrite length_alter|]. intros j e e' Hj Hj'.
  destruct (decide (i = j)) as [->|Hne].
  - rewrite list_lookup_alter_eq, Hj in Hj'. simpl in Hj'. simplify_eq. by apply Hf.
  - rewrite list_lookup_alter_ne in Hj' by done. by simplify_eq.
Qed.

(** An operation on the versions of one table. *)
Lemma view_alter tx c schema name f :
  (forall l, versions_view tx (f l) = versions_view tx l) ->
  forall sch n, view tx (on_schema c schema (alter_versions f name)) sch n = view tx c sch n.
Proof.
  intros Hf sch n. rewrite !view_eq. unfold on_schema, GetSchema. simpl.
  destruct (decide (schema = sch)) as [->|Hne]; [|by rewrite lookup_alter_ne].
  rewrite lookup_alter_eq. destruct (schemas_ c !! sch) as [s|]; [|done]. simpl.
  unfold versions_of, alter_versions. simpl. destruct (decide (name = n)) as [->|Hne].
  - rewrite lookup_alter_eq. destruct (entries_ s !! n); [apply Hf|done].
  - by rewrite lookup_alter_ne.
Qed.

Lemma last_visible_Some tx l i e :
  last_visible tx l = Some (i, e) -> l !! i = Some e /\ IsCatalogEntryVisible e tx = true.
Proof.
  revert i. induction l as [|x l IH]; intros i; simpl; [done|].
  destruct (last_visible tx l) as [[j e']|] eqn:E; [intros [= <- ->]; simpl; by apply IH|].
  destruct (IsCatalogEntryVisible x tx) eqn:Ex; [intros [= <- <-]; done|done].
Qed.

(** The markers another transaction sets, commits or clears. *)
Section Others.
Context (T : Transaction) (HT : tx_id T <> INVALID_TRANSACTION).
#[local] Opaque INVALID_TRANSACTION INVALID_TIMESTAMP.

Lemma commit_same u t e : u <> tx_id T -> (start_time T <= t)%Z -> t <> INVALID_TIMESTAMP -> same_for T e (commit_entry u t e).
Proof.
  intros Hu Ht Hti. unfold commit_entry, same_for, IsCatalogEntryVisible, image.
  destruct e as [nm sn ct cc dt dc cols rgs pi idx]; simpl.
  destruct (Z.eqb_spec ct u), (Z.eqb_spec cc INVALID_TIMESTAMP), (Z.eqb_spec u INVALID_TRANSACTION),
    (Z.eqb_spec dt u), (Z.eqb_spec dc INVALID_TIMESTAMP); subst; simpl;
    repeat match goal with |- context [Z.eqb ?a ?b] => destruct (Z.eqb_spec a b); subst; simpl; try done end;
    repeat match goal with
      | |- context [Z.leb ?a ?b] => destruct (Z.leb_spec a b); simpl; try lia
      | |- context [Z.ltb ?a ?b] => destruct (Z.ltb_spec a b); simpl; try lia
      end; done.
Qed.

Lemma undrop_same u e : u <> tx_id T -> same_for T e (undrop_entry u e).
Proof.
  intros Hu. unfold undrop_entry. destruct (_ && _) eqn:E; [|done].
  apply andb_true_iff in E as [Hd%Z.eqb_eq Hc%Z.eqb_eq]. unfold same_for, IsCatalogEntryVisible, image.
  destruct e as [nm sn ct cc dt dc cols rgs pi idx]; simpl in *. subst.
  destruct (Z.eqb_spec u (tx_id T)), (Z.eqb_spec INVALID_TRANSACTION (tx_id T)); try done; congruence.
Qed.

Lemma drop_same u e :
  u <> tx_id T -> delete_tx_id e = INVALID_TRANSACTION -> delete_commit_time e = INVALID_TIMESTAMP ->
  same_for T e (set_delete e u INVALID_TIMESTAMP).
Proof.
  intros Hu Hd Hc. unfold same_for, IsCatalogEntryVisible, image.
  destruct e as [nm sn ct cc dt dc cols rgs pi idx]; simpl in *. subst.
  destruct (Z.eqb_spec u (tx_id T)), (Z.eqb_spec INVALID_TRANSACTION (tx_id T)); try done; congruence.
Qed.

Lemma created_invisible u e : u <> tx_id T -> created_by u e = true -> IsCatalogEntryVisible e T = false.
Proof.
  unfold created_by, IsCatalogEntryVisible. rewrite andb_true_iff, !Z.eqb_eq. intros Hu [-> ->].
  destruct (Z.eqb_spec u (tx_id T)); done.
Qed.
#[local] Transparent INVALID_TRANSACTION INVALID_TIMESTAMP.
End Others.

(** ** Histories of DDL

    The steps another transaction can take while [T] runs.  A drop hits a
    table that nobody has dropped yet, and commits get times from the start
    time of [T] on, as [BeginTransaction] and [Commit] hand them out. *)
Inductive ddl_step (T : Transaction) : Catalog -> Catalog -> Prop :=
  | ds_schema c c' name : CreateSchema c name = Ok c' -> ddl_step T c c'
  | ds_create c c' schema name cols U pi :
      tx_id U <> tx_id T -> CreateTable c schema name cols U pi = Ok c' -> ddl_step T c c'
  | ds_drop c c' schema name U i e :
      tx_id U <> tx_id T -> GetTable c schema name U = Some (i, e) ->
      delete_tx_id e = INVALID_TRANSACTION -> delete_commit_time e = INVALID_TIMESTAMP ->
      DropTable c schema name U = Ok c' -> ddl_step T c c'
  | ds_commit c schema name u t :
      u <> tx_id T -> (start_time T <= t)%Z -> t <> INVALID_TIMESTAMP ->
      ddl_step T c (CommitEntry c schema name u t)
  | ds_undo_create c schema name u :
      u <> tx_id T -> ddl_step T c (RollbackCreate c schema name u)
  | ds_undo_drop c schema name u :
      u <> tx_id T -> ddl_step T c (RollbackDrop c schema name u).

Lemma view_with_schema tx c schema s s' sch n :
  GetSchema c schema = Some s ->
  (forall n, versions_view tx (versions_of s' n) = versions_view tx (versions_of s n)) ->
  view tx (with_schema c schema s') sch n = view tx c sch n.
Proof.
  intros Hs Hv. rewrite !view_eq. unfold GetSchema, with_schema in *. simpl.
  destruct (decide (schema = sch)) as [->|Hne]; [|by rewrite lookup_insert_ne].
  rewrite lookup_insert_eq, Hs. simpl. apply Hv.
Qed.

Lemma need_schema_Ok c schema s : need_schema c schema = Ok s -> GetSchema c schema = Some s.
Proof. unfold need_schema. by destruct (GetSchema c schema); simpl; intros; simplify_eq. Qed.

Lemma CreateTable_Ok c schema name cols U pi c' :
  CreateTable c schema name cols U pi = Ok c' ->
  exists s e, GetSchema c schema = Some s /\ c' = with_schema c schema (schema_CreateEntry s e) /\
    e_name e = name /\ tbl_columns e = cols /\ partition_info e = pi /\ row_groups e = [] /\
    create_tx_id e = tx_id U /\ create_commit_time e = INVALID_TIMESTAMP /\
    delete_tx_id e = INVALID_TRANSACTION /\ delete_commit_time e = INVALID_TIMESTAMP /\
    last_visible U (versions_of s name) = None.
Proof.
  unfold CreateTable. intros (s & Hs%need_schema_Ok & H)%bind_Ok_inv.
  apply bind_Ok_inv in H as (found & Hf & H). destruct found; [done|]. injection H as <-.
  unfold schema_GetEntry in Hf. destruct (last_visible U (versions_of s name)) eqn:E; [done|].
  exists s. eexists. by split_and!.
Qed.

Lemma versions_of_create s e n :
  versions_of (schema_CreateEntry s e) n =
    if decide (e_name e = n) then versions_of s n ++ [e] else versions_of s n.
Proof.
  unfold versions_of, schema_CreateEntry. simpl. case_decide as Hn.
  - by rewrite Hn, lookup_insert_eq.
  - by rewrite lookup_insert_ne.
Qed.

Lemma DropTable_Ok c schema name U c' :
  DropTable c schema name U = Ok c' ->
  exists s i e, GetSchema c schema = Some s /\ last_visible U (versions_of s name) = Some (i, e) /\
    c' = on_schema c schema (alter_versions (alter (fun e => set_delete e (tx_id U) INVALID_TIMESTAMP) i) name).
Proof.
  unfold DropTable. intros (s & Hs%need_schema_Ok & H)%bind_Ok_inv.
  apply bind_Ok_inv in H as (found & Hf & H). injection H as <-.
  unfold schema_GetEntry in Hf. destruct (last_visible U (versions_of s name)) as [[i e]|] eqn:E; [|done].
  exists s, i, e. split_and!; try done. unfold with_schema, on_schema, schema_MarkDeleted, alter_versions. f_equal.
  apply map_eq. intros k. unfold GetSchema in Hs. destruct (decide (schema = k)) as [->|]; simpl_map; [|done].
  rewrite ?Hs. simpl. do 2 f_equal. apply alter_ext. intros l Hl. unfold versions_of in E. rewrite Hl in E. simpl in E.
  by rewrite E.
Qed.

Lemma ddl_step_view T c c' schema name :
  tx_id T <> INVALID_TRANSACTION -> ddl_step T c c' -> view T c' schema name = view T c schema name.
Proof.
  intros HT [c0 c1 nm Hc|c0 c1 sch nm cols U pi HU Hc|c0 c1 sch nm U i e HU Hg Hd1 Hd2 Hc|c0 sch nm u t Hu Ht Hti
    |c0 sch nm u Hu|c0 sch nm u Hu].
  - unfold CreateSchema in Hc. destruct (schemas_ c0 !! nm) eqn:E; [done|]. injection Hc as <-.
    rewrite !view_eq. unfold GetSchema. simpl. destruct (decide (nm = schema)) as [->|]; simpl_map; [|done].
    by rewrite E.
  - destruct (CreateTable_Ok _ _ _ _ _ _ _ Hc) as (s & e & Hs & -> & He & _ & _ & _ & Hct & Hcc & _).
    apply (view_with_schema T c0 sch s); [done|]. intros n. rewrite versions_of_create. case_decide; [|done].
    apply versions_view_snoc, (created_invisible T (tx_id U)); [done|]. unfold created_by. by rewrite Hct, Hcc, Z.eqb_refl.
  - destruct (DropTable_Ok _ _ _ _ _ Hc) as (s & j & e' & Hs & Hl & ->).
    rewrite GetTable_eq, Hs in Hg. simpl in Hg. rewrite Hl in Hg. simplify_eq.
    apply last_visible_Some in Hl as [Hi _].
    rewrite !view_eq. unfold on_schema, GetSchema in *. simpl.
    destruct (decide (sch = schema)) as [->|]; simpl_map; [|done]. rewrite ?Hs. simpl.
    unfold versions_of, alter_versions in *. simpl. destruct (decide (nm = name)) as [->|]; simpl_map; [|done].
    destruct (entries_ s !! name) as [l|] eqn:El; [|done]. simpl in *.
    apply versions_view_alter. intros e0 He0. rewrite Hi in He0. simplify_eq. by apply drop_same.
  - apply view_alter. intros l. apply versions_view_fmap. intros e. by apply commit_same.
  - apply view_alter. intros l. apply versions_view_filter. intros e He.
    apply (created_invisible T u); [done|]. by destruct (created_by u e).
  - apply view_alter. intros l. apply versions_view_fmap. intros e. by apply undrop_same.
Qed.

(** C8: what a transaction with an id finds in the catalog, up to the delete
    marker of the entry, does not change while other transactions create
    schemas, create tables, drop tables that carry no delete marker, commit at
    its start time or later, and roll back creates and drops. DROP SCHEMA and
    the in-place ALTER TABLE of partitions are not among these steps, and
    neither is the drop of a table that another transaction has already marked,
    after which a committed drop can be lost ([concurrent_drop_lost]). *)
Theorem catalog_snapshot_stable T c c' schema name :
  tx_id T <> INVALID_TRANSACTION -> rtc (ddl_step T) c c' -> view T c' schema name = view T c schema name.
Proof.
  intros HT. induction 1 as [|c1 c2 c3 Hs _ IH]; [done|]. rewrite IH. by apply ddl_step_view.
Qed.

(** ** The life of a table *)

Lemma last_visible_snoc tx l e :
  IsCatalogEntryVisible e tx = true -> last_visible tx (l ++ [e]) = Some (length l, e).
Proof. intros He. induction l as [|x l IH]; simpl; [by rewrite He|]. by rewrite IH. Qed.

Lemma GetTable_with_schema c schema s name tx :
  GetTable (with_schema c schema s) schema name tx = last_visible tx (versions_of s name).
Proof. rewrite GetTable_eq. unfold GetSchema, with_schema. simpl. by rewrite lookup_insert_eq. Qed.

(** A new table is seen by its creator at once, by nobody else before the
    commit, and after the commit at time [t] exactly by the transactions that
    start after [t] (its creator apart). *)
Theorem created_table_visible c schema name cols U pi c1 t V :
  CreateTable c schema name cols U pi = Ok c1 ->
  tx_id U <> INVALID_TRANSACTION -> tx_id V <> INVALID_TRANSACTION -> tx_id V <> tx_id U ->
  t <> INVALID_TIMESTAMP ->
  let c2 := CommitEntry c1 schema name (tx_id U) t in
  (exists i e, GetTable c1 schema name U = Some (i, e) /\ tbl_columns e = cols /\ partition_info e = pi) /\
  view V c1 schema name = view V c schema name /\
  ((t < start_time V)%Z ->
   exists i e, GetTable c2 schema name V = Some (i, e) /\ create_tx_id e = tx_id U /\
               tbl_columns e = cols /\ row_groups e = []) /\
  ((start_time V <= t)%Z -> view V c2 schema name = view V c schema name).
Proof.
  intros Hc HU HV HVU Ht c2.
  assert (Hstep : view V c1 schema name = view V c schema name)
    by (apply ddl_step_view; [done|]; by eapply ds_create).
  destruct (CreateTable_Ok _ _ _ _ _ _ _ Hc)
    as (s & e & Hs & -> & <- & Hcols & Hpi & Hrg & Hct & Hcc & Hdt & Hdc & _).
  split_and!; [| |intros Hst|intros Hst].
  - rewrite GetTable_with_schema, versions_of_create, decide_True by done.
    exists (length (versions_of s (e_name e))), e. split_and!; try done. apply last_visible_snoc.
    unfold IsCatalogEntryVisible. rewrite Hct, Hdt, Hdc, Z.eqb_refl.
    by rewrite (proj2 (Z.eqb_neq INVALID_TRANSACTION (tx_id U))).
  - done.
  - unfold c2, CommitEntry, on_schema. rewrite GetTable_eq. unfold GetSchema, with_schema. simpl.
    rewrite lookup_alter_eq, lookup_insert_eq. simpl.
    unfold versions_of, schema_CommitEntry, alter_versions, schema_CreateEntry. simpl.
    rewrite lookup_alter_eq, lookup_insert_eq. simpl. rewrite fmap_app.
    exists (length (commit_entry (tx_id U) t <$> versions_of s (e_name e))), (set_create e t). split_and!; try done.
    assert (commit_entry (tx_id U) t e = set_create e t) as Hce.
    { unfold commit_entry. rewrite Hct, Hcc, !Z.eqb_refl. simpl. rewrite Hdt.
      rewrite (proj2 (Z.eqb_neq INVALID_TRANSACTION (tx_id U))) by done. by rewrite andb_false_r. }
    simpl. rewrite Hce. apply last_visible_snoc. unfold IsCatalogEntryVisible, set_create. simpl.
    rewrite Hct, Hdt, Hdc, (proj2 (Z.eqb_neq (tx_id U) (tx_id V))), (proj2 (Z.eqb_neq t _)) by done.
    rewrite (proj2 (Z.eqb_neq INVALID_TRANSACTION (tx_id V))) by done.
    by rewrite (proj2 (Z.leb_gt (start_time V) t)).
  - rewrite <- Hstep. apply ddl_step_view; [done|]. by apply ds_commit.
Qed.

(** The versions of a table, none when its schema or name is unknown. *)
Definition table_versions (c : Catalog) (schema name : string) : list TableCatalogEntry :=
  from_option (fun s => versions_of s name) [] (GetSchema c schema).

Lemma table_versions_alter c schema name f sch n :
  f [] = [] ->
  table_versions (on_schema c schema (alter_versions f name)) sch n =
    if decide (schema = sch /\ name = n) then f (table_versions c sch n) else table_versions c sch n.
Proof.
  intros Hf. unfold table_versions, on_schema, GetSchema. simpl.
  destruct (decide (schema = sch)) as [->|].
  - rewrite lookup_alter_eq. destruct (schemas_ c !! sch) as [s|]; simpl; [|case_decide; congruence].
    unfold versions_of, alter_versions. simpl. destruct (decide (name = n)) as [->|].
    + rewrite lookup_alter_eq, decide_True by done. by destruct (entries_ s !! n).
    + rewrite lookup_alter_ne, decide_False by naive_solver. done.
  - rewrite lookup_alter_ne, decide_False by naive_solver. done.
Qed.

Lemma filter_id {A} (P : A -> Prop) `{forall x, Decision (P x)} l : Forall P l -> filter P l = l.
Proof. induction 1; [done|]. by rewrite filter_cons_True, IHForall. Qed.

(** Rolling DDL back leaves no trace: [RollbackCreate] after a CREATE and
    [RollbackDrop] after a DROP give every table its old versions back, if the
    transaction had no earlier uncommitted version of the name and the dropped
    table carried no delete marker. *)
Theorem ddl_rollback_restores c schema name U :
  tx_id U <> INVALID_TRANSACTION ->
  (forall e, e ∈ table_versions c schema name -> create_tx_id e <> tx_id U /\ delete_tx_id e = INVALID_TRANSACTION) ->
  (forall e, e ∈ table_versions c schema name -> delete_commit_time e = INVALID_TIMESTAMP) ->
  (forall cols pi c1, CreateTable c schema name cols U pi = Ok c1 ->
     forall sch n, table_versions (RollbackCreate c1 schema name (tx_id U)) sch n = table_versions c sch n) /\
  (forall c1, DropTable c schema name U = Ok c1 ->
     forall sch n, table_versions (RollbackDrop c1 schema name (tx_id U)) sch n = table_versions c sch n).
Proof.
  intros HU Hown Hdc. split.
  - intros cols pi c1 Hc sch n.
    destruct (CreateTable_Ok _ _ _ _ _ _ _ Hc) as (s & e & Hs & -> & <- & _ & _ & _ & Hct & Hcc & _).
    unfold RollbackCreate, schema_RollbackCreate. rewrite table_versions_alter by done.
    assert (Hv : forall sch n, table_versions (with_schema c schema (schema_CreateEntry s e)) sch n =
              if decide (schema = sch /\ e_name e = n) then table_versions c sch n ++ [e] else table_versions c sch n).
    { intros sch' n'. unfold table_versions, with_schema, GetSchema in *. simpl.
      destruct (decide (schema = sch')) as [->|]; simpl_map; [|by rewrite decide_False by naive_solver].
      simpl. rewrite versions_of_create, ?Hs. simpl. do 2 case_decide; naive_solver. }
    rewrite Hv. case_decide as Heq; [|done]. destruct Heq as [-> <-].
    rewrite filter_app, filter_cons_False, filter_nil, app_nil_r.
    + apply filter_id, Forall_forall. intros x Hx. unfold created_by.
      by rewrite (proj2 (Z.eqb_neq _ _) (proj1 (Hown x Hx))).
    + unfold created_by. by rewrite Hct, Hcc, !Z.eqb_refl.
  - intros c1 Hc sch n. destruct (DropTable_Ok _ _ _ _ _ Hc) as (s & i & e & Hs & Hl & ->).
    unfold RollbackDrop, schema_RollbackDrop. rewrite !table_versions_alter by done. case_decide as Heq; [|done]. destruct Heq as [-> <-].
    apply last_visible_Some in Hl as [Hi _]. apply list_eq. intros j. rewrite list_lookup_fmap.
    assert (Hid : forall x, x ∈ table_versions c sch name -> undrop_entry (tx_id U) x = x).
    { intros x Hx. unfold undrop_entry. rewrite (proj2 (Hown x Hx)).
      by rewrite (proj2 (Z.eqb_neq INVALID_TRANSACTION (tx_id U))). }
    destruct (decide (i = j)) as [->|Hne].
    + rewrite list_lookup_alter_eq. destruct (table_versions c sch name !! j) as [x|] eqn:Ej; [|done]. simpl. f_equal.
      apply list_elem_of_lookup_2 in Ej. unfold undrop_entry. simpl. rewrite Z.eqb_refl. simpl.
      destruct (Hown x Ej) as [_ Hd]. specialize (Hdc x Ej). destruct x. simpl in *. by subst.
    + rewrite list_lookup_alter_ne by done. destruct (table_versions c sch name !! j) as [x|] eqn:Ej; [|done].
      simpl. f_equal. apply Hid. by eapply list_elem_of_lookup_2.
Qed.

(** ** Concurrent drops *)

Definition sample_cols : list ColumnDefinition := [mkCol "a" INT64 true false].
Definition tx_at (id start : Z) : Transaction := Tx_new id start true.

(** A catalog with one committed table [t]. *)
Definition one_table : Catalog :=
  match CreateTable Catalog_new "main" "t" sample_cols (tx_at 9 1) PI_none with
  | Ok c => CommitEntry c "main" "t" 9 0
  | Err _ => Catalog_new
  end.

(** The drop of a table is lost when two transactions drop it: the second
    DROP takes the delete marker over, so the commit of the first finds no
    marker of its own, and after the second rolls back the table is there
    again for everyone. *)
Theorem concurrent_drop_lost :
  match (c ← DropTable one_table "main" "t" (tx_at 1 1);
         c ← DropTable c "main" "t" (tx_at 2 1);
         Ok (RollbackDrop (CommitEntry c "main" "t" 1 1) "main" "t" 2)) with
  | Ok c => bool_decide (is_Some (GetTable c "main" "t" (tx_at 3 2))) = true
  | Err _ => False
  end.
Proof. vm_compute. reflexivity. Qed.

(** A transaction without an id, as [MakeReadOnly] makes it, takes every table
    that nobody has dropped for one it has dropped itself. *)
Lemma read_only_sees_no_table e t :
  delete_tx_id e = INVALID_TRANSACTION -> IsCatalogEntryVisible e (MakeReadOnly t) = false.
Proof. intros Hd. unfold IsCatalogEntryVisible. rewrite Hd. simpl. apply andb_false_r. Qed.

(** ** Witnesses *)

Lemma catalog_snapshot_stable_witness :
  exists c1 c2, CreateTable one_table "main" "u" sample_cols (tx_at 2 1) PI_none = Ok c1 /\
    DropTable c1 "main" "t" (tx_at 2 1) = Ok c2 /\
    view (tx_at 1 1) (CommitEntry c2 "main" "t" 2 1) "main" "t" = view (tx_at 1 1) one_table "main" "t".
Proof.
  eexists _, _. split; [vm_compute; reflexivity|]. split; [vm_compute; reflexivity|].
  apply (catalog_snapshot_stable (tx_at 1 1)); [done|].
  eapply rtc_l; [|eapply rtc_l; [|apply rtc_once]].
  - eapply (ds_create _ _ _ "main" "u" sample_cols (tx_at 2 1) PI_none); [done|vm_compute; reflexivity].
  - eapply (ds_drop _ _ _ "main" "t" (tx_at 2 1)); [done|vm_compute; reflexivity|reflexivity|reflexivity|vm_compute; reflexivity].
  - apply ds_commit; [done|simpl; lia|done].
Defined.

Lemma created_table_visible_witness :
  exists c1, CreateTable one_table "main" "u" sample_cols (tx_at 2 1) PI_none = Ok c1 /\
  exists i e, GetTable (CommitEntry c1 "main" "u" 2 1) "main" "u" (tx_at 3 2) = Some (i, e) /\
              create_tx_id e = 2%Z /\ tbl_columns e = sample_cols /\ row_groups e = [].
Proof.
  eexists. split; [vm_compute; reflexivity|].
  apply (created_table_visible one_table "main" "u" sample_cols (tx_at 2 1) PI_none _ 1 (tx_at 3 2));
    try (vm_compute; reflexivity); done.
Defined.

Lemma ddl_rollback_restores_witness :
  exists c1, DropTable one_table "main" "t" (tx_at 1 1) = Ok c1 /\
    table_versions (RollbackDrop c1 "main" "t" 1) "main" "t" = table_versions one_table "main" "t".
Proof.
  eexists. split; [vm_compute; reflexivity|].
  apply (ddl_rollback_restores one_table "main" "t" (tx_at 1 1)); try (vm_compute; reflexivity); try done;
    intros e He; vm_compute in He; apply list_elem_of_singleton in He; by subst.
Defined.
