(* ===== verification/Ast.v ===== *)
(** * The syntax tree

    [parser/ast/parsed_statement.hpp]: what the parser hands to the binder.  A
    subclass of [Expr] or [ParsedStatement] is a constructor; a null pointer is
    [None]. *)

From Stdlib Require Import ZArith String.
From stdpp Require Import base strings list.
From S2P Require Import Prelude Types.

(** ** Expressions *)

(** A double is its object representation, as everywhere. *)
#[warnings="-register-all"]
Inductive Expr : Type :=
  | ColumnRefExpr (table_name column_name : string)
  | IntegerLitExpr (value : Z)
  | FloatLitExpr (value : Z)
  | StringLitExpr (value : string)
  | BoolLitExpr (value : bool)
  | NullLitExpr
  | StarExpr
  | BinaryOpExpr (op : string) (left right : Expr)
  | UnaryOpExpr (op : string) (operand : Expr)
  | FunctionCallExpr (name : string) (args : list Expr) (is_star : bool).

(** Induction with the hypothesis for the arguments of a call. *)
Lemma Expr_nested_ind (P : Expr -> Prop) :
  (forall t c, P (ColumnRefExpr t c)) -> (forall z, P (IntegerLitExpr z)) -> (forall z, P (FloatLitExpr z)) ->
  (forall s, P (StringLitExpr s)) -> (forall b, P (BoolLitExpr b)) -> P NullLitExpr -> P StarExpr ->
  (forall op l r, P l -> P r -> P (BinaryOpExpr op l r)) -> (forall op x, P x -> P (UnaryOpExpr op x)) ->
  (forall name args star, Forall P args -> P (FunctionCallExpr name args star)) -> forall e, P e.
Proof.
  intros H1 H2 H3 H4 H5 H6 H7 H8 H9 H10. fix IH 1. intros [t c|z|z|s|b| | |op l r|op x|name args star].
  - apply H1.
  - apply H2.
  - apply H3.
  - apply H4.
  - apply H5.
  - exact H6.
  - exact H7.
  - apply H8; apply IH.
  - apply H9; apply IH.
  - apply H10. induction args as [|a args IHa]; constructor; [apply IH|exact IHa].
Qed.

(** ** Statements *)

Record ColumnDef : Type := mkColumnDef {
  def_name : string;
  def_type : TypeId;
  def_not_null : bool;
  def_primary_key : bool;
}.

Record JoinClause : Type := mkJoin {
  join_table : string;
  join_schema : string;
  join_condition : Expr;
}.

Record SelectStatement : Type := mkSelect {
  distinct : bool;
  select_list : list Expr;
  from_table : string;
  from_schema : string;
  joins : list JoinClause;
  sel_where : option Expr;
  group_by : list Expr;
  order_by : list Expr;
  order_asc : list bool;
  sel_limit : option Z;
  sel_offset : option Z;
}.

Record InsertStatement : Type := mkInsert {
  ins_table : string;
  ins_schema : string;
  column_names : list string;
  values : list (list Expr);
  select_stmt : option SelectStatement;
}.

Record UpdateSetClause : Type := mkSetClause { set_column : string; value_expr : Expr }.

Record UpdateStatement : Type := mkUpdate {
  upd_table : string;
  upd_schema : string;
  set_clauses : list UpdateSetClause;
  upd_where : option Expr;
}.

Record DeleteStatement : Type := mkDelete {
  del_table : string;
  del_schema : string;
  del_where : option Expr;
}.

Inductive PartitionKind : Type := PK_NONE | PK_RANGE | PK_HASH | PK_LIST.

Record CreateTableStatement : Type := mkCreate {
  ct_schema : string;
  ct_table : string;
  ct_columns : list ColumnDef;
  if_not_exists : bool;
  partition_kind : PartitionKind;
  ct_partition_cols : list string;
  hash_partition_count : Z;
  range_bounds : list (list Expr);
  ct_list_values : list (list (list Expr));
}.

Record DropTableStatement : Type := mkDrop {
  dt_schema : string;
  dt_table : string;
  if_exists : bool;
}.

Inductive AlterStatementKind : Type := AK_DROP_PARTITION | AK_ADD_PARTITION.

Record AlterTableStatement : Type := mkAlterStmt {
  at_kind : AlterStatementKind;
  at_schema : string;
  at_table : string;
  at_partition_idx : Z;
  new_range_bound : list Expr;
  new_list_values : list (list Expr);
}.

(** The statements; BEGIN, COMMIT and ROLLBACK are the [TransactionStatement]. *)
#[warnings="-register-all"]
Inductive ParsedStatement : Type :=
  | StmtSelect (stmt : SelectStatement)
  | StmtInsert (stmt : InsertStatement)
  | StmtUpdate (stmt : UpdateStatement)
  | StmtDelete (stmt : DeleteStatement)
  | StmtCreateTable (stmt : CreateTableStatement)
  | StmtDropTable (stmt : DropTableStatement)
  | StmtAlterTable (stmt : AlterTableStatement)
  | StmtBegin
  | StmtCommit
  | StmtRollback
  | StmtExplain (analyze : bool) (inner : ParsedStatement).
