(* ===== verification/Tokenizer.v ===== *)
(** * The tokenizer

    [parser/token.hpp] and [parser/tokenizer.cpp]: SQL text becomes a list of
    tokens that ends with [END_OF_INPUT].

    The claims are that every text is tokenized or refused with a [ParseError]
    (the scan always advances), that the tokens are what the parser relies on,
    and that tokens written out with spaces between them are read back. *)

From Stdlib Require Import ZArith String Ascii.
From stdpp Require Import base strings list pretty.
From S2P Require Import Prelude.

Inductive TokenType : Type :=
  | KEYWORD | IDENTIFIER | INTEGER_LIT | FLOAT_LIT | STRING_LIT | OPERATOR | PUNCTUATION | END_OF_INPUT.

#[export] Instance TokenType_eq_dec : EqDecision TokenType.
Proof. solve_decision. Defined.

Record Token : Type := mkToken {
  t_type : TokenType;
  t_value : string;
  t_pos : nat;
}.

Definition KEYWORD_SET : list string := [
    "SELECT"; "FROM"; "WHERE"; "INSERT"; "INTO"; "UPDATE"; "SET";
    "DELETE"; "CREATE"; "TABLE"; "DROP"; "BEGIN"; "COMMIT"; "ROLLBACK";
    "EXPLAIN"; "ANALYZE"; "AND"; "OR"; "NOT"; "NULL"; "TRUE"; "FALSE";
    "GROUP"; "BY"; "ORDER"; "ASC"; "DESC"; "LIMIT"; "OFFSET";
    "VALUES"; "PRIMARY"; "KEY"; "DISTINCT"; "IF"; "EXISTS";
    "JOIN"; "ON"; "INNER"; "LEFT"; "RIGHT"; "OUTER"; "CROSS";
    "AS"; "IN"; "IS"; "LIKE"; "BETWEEN"; "HAVING";
    "PARTITION"; "RANGE"; "HASH"; "LIST"; "PARTITIONS";
    "ALTER"; "ADD"; "LESS"; "THAN";
    "INT8"; "INT16"; "INT32"; "INT64";
    "FLOAT32"; "FLOAT64"; "BOOLEAN"; "VARCHAR";
    "INT"; "INTEGER"; "FLOAT"; "DOUBLE"; "BOOL"; "TEXT"]%string.

Definition is_keyword (s : string) : bool := existsb (String.eqb s) KEYWORD_SET.

(** ** Character classes of the C locale *)

Definition between (lo hi : nat) (c : ascii) : bool := Nat.leb lo (nat_of_ascii c) && Nat.leb (nat_of_ascii c) hi.
Definition isspace (c : ascii) : bool := between 9 13 c || Ascii.eqb c " ".
Definition isdigit (c : ascii) : bool := between 48 57 c.
Definition isalpha (c : ascii) : bool := between 65 90 c || between 97 122 c.
Definition isalnum (c : ascii) : bool := isalpha c || isdigit c.
Definition word_start (c : ascii) : bool := isalpha c || Ascii.eqb c "_".
Definition word_char (c : ascii) : bool := isalnum c || Ascii.eqb c "_".

(** ** Scanning *)

(** The longest prefix whose characters satisfy [p], and what follows it. *)
Fixpoint span (p : ascii -> bool) (s : string) : string * string :=
  match s with
  | EmptyString => (""%string, ""%string)
  | String c s' => if p c then let '(w, rest) := span p s' in (String c w, rest) else (""%string, s)
  end.

Definition quote : ascii := "'".

(** The body of a string literal, up to its closing quote; the escape is tested
    behind a loop condition that excludes it. *)
Fixpoint scan_string (s : string) : string * string :=
  match s with
  | EmptyString => (""%string, ""%string)
  | String c s' =>
      if Ascii.eqb c quote then (""%string, s)
      else
        match s' with
        | String c' s'' =>
            if Ascii.eqb c quote && Ascii.eqb c' quote then let '(v, rest) := scan_string s'' in (String quote v, rest)
            else let '(v, rest) := scan_string s' in (String c v, rest)
        | EmptyString => let '(v, rest) := scan_string s' in (String c v, rest)
        end
  end.

Definition scan_word (s : string) (pos : nat) : Token * string :=
  let '(word, rest) := span word_char s in
  if is_keyword (upper word) then (mkToken KEYWORD (upper word) pos, rest) else (mkToken IDENTIFIER word pos, rest).

(** Digits, and a fraction when a digit follows the point. *)
Definition scan_number (s : string) (pos : nat) : Token * string :=
  let '(int_part, rest) := span isdigit s in
  match rest with
  | String "." (String d _ as frac) =>
      if isdigit d then let '(f, rest) := span isdigit frac in (mkToken FLOAT_LIT (int_part +:+ "." +:+ f) pos, rest)
      else (mkToken INTEGER_LIT int_part pos, rest)
  | _ => (mkToken INTEGER_LIT int_part pos, rest)
  end.

Definition one_of (cs : string) (c : ascii) : bool := existsb (Ascii.eqb c) (list_ascii_of_string cs).

(** Two-character operators, then one-character ones and punctuation. *)
Definition two_char (c : ascii) (s' : string) : option (string * string) :=
  match s' with
  | String c' s'' =>
      let two := String c (String c' "") in
      if existsb (String.eqb two) ["<="; ">="; "<>"]%string then Some (two, s'') else None
  | EmptyString => None
  end.

Definition scan_symbol (c : ascii) (s' : string) (pos : nat) : result (Token * string) :=
  match two_char c s' with
  | Some (two, s'') => Ok (mkToken OPERATOR two pos, s'')
  | None =>
      if one_of "=<>+-*/" c then Ok (mkToken OPERATOR (String c "") pos, s')
      else if one_of "(),;." c then Ok (mkToken PUNCTUATION (String c "") pos, s')
      else Err (ParseError ("unrecognized character '" +:+ String c "" +:+ "' at position " +:+ pretty pos) (Some pos))
  end.

(** One turn of the loop at the character [c] before [s']: a token, or [None]
    for white space, and the rest of the text. *)
Definition scan (c : ascii) (s' : string) (pos : nat) : result (option Token * string) :=
  if isspace c then Ok (None, s')
  else if word_start c then let '(t, rest) := scan_word (String c s') pos in Ok (Some t, rest)
  else if isdigit c then let '(t, rest) := scan_number (String c s') pos in Ok (Some t, rest)
  else if Ascii.eqb c quote then
    let '(val, rest) := scan_string s' in
    match rest with
    | EmptyString => Err (ParseError "unterminated string literal" (Some pos))
    | String _ rest => Ok (Some (mkToken STRING_LIT val pos), rest)
    end
  else '(t, rest) ← scan_symbol c s' pos; Ok (Some t, rest).

(** The loop; [fuel] bounds its turns, of which there are at most as many as
    characters. *)
Fixpoint tokenize_loop (fuel : nat) (s : string) (pos : nat) : result (list Token) :=
  match s with
  | EmptyString => Ok [mkToken END_OF_INPUT "" pos]
  | String c s' =>
      match fuel with
      | 0 => Err UndefinedBehaviour
      | S fuel =>
          '(t, rest) ← scan c s' pos;
          ts ← tokenize_loop fuel rest (pos + (String.length s - String.length rest));
          Ok (match t with Some t => t :: ts | None => ts end)
      end
  end.

Definition Tokenize (sql : string) : result (list Token) := tokenize_loop (String.length sql) sql 0.

Example tokenize_sample :
  Tokenize "select a.b, 'x y' <= 1.50*2." = Ok [mkToken KEYWORD "SELECT" 0; mkToken IDENTIFIER "a" 7; mkToken PUNCTUATION "." 8;
    mkToken IDENTIFIER "b" 9; mkToken PUNCTUATION "," 10; mkToken STRING_LIT "x y" 12; mkToken OPERATOR "<=" 18;
    mkToken FLOAT_LIT "1.50" 21; mkToken OPERATOR "*" 25; mkToken INTEGER_LIT "2" 26; mkToken PUNCTUATION "." 27;
    mkToken END_OF_INPUT "" 28].
Proof. vm_compute. reflexivity. Qed.

(** ** The scan advances *)

Fixpoint all_chars (p : ascii -> bool) (s : string) : bool :=
  match s with EmptyString => true | String c s => p c && all_chars p s end.

Lemma span_spec p s w rest : span p s = (w, rest) -> s = (w +:+ rest)%string /\ all_chars p w = true.
Proof.
  revert w rest; induction s as [|c s IH]; intros w rest H; cbn in H; [by injection H as <- <-|].
  destruct (p c) eqn:Ec; [|by injection H as <- <-]. destruct (span p s) as [w' r'] eqn:E. injection H as <- <-.
  destruct (IH _ _ eq_refl) as [-> Hw]. cbn. by rewrite Ec.
Qed.

Lemma length_app_string (a b : string) : String.length (a +:+ b) = String.length a + String.length b.
Proof. induction a as [|c a IH]; [done|]. change (S (String.length (a +:+ b)) = S (String.length a + String.length b)). by rewrite IH. Qed.

Lemma span_shorter p s w rest : span p s = (w, rest) -> String.length rest <= String.length s.
Proof. intros H. apply span_spec in H as [-> _]. rewrite length_app_string. lia. Qed.

Lemma scan_string_body n s : String.length s <= n ->
  exists v rest, scan_string s = (v, rest) /\ s = (v +:+ rest)%string /\ all_chars (fun c => negb (Ascii.eqb c quote)) v = true.
Proof.
  revert s; induction n as [|n IH]; intros [|c s] Hn; cbn [String.length] in Hn; try lia; [by exists "", ""..|].
  cbn [scan_string]. destruct (Ascii.eqb c quote) eqn:Ec; [by exists "", (String c s)|].
  destruct (IH s) as (v & rest & Hs & -> & Hv); [lia|]. exists (String c v), rest. cbn [andb].
  rewrite Hs. cbn [all_chars]. rewrite Ec, Hv. split_and!; [by destruct (v +:+ rest)%string|done..].
Qed.

(** What the parser relies on about a token. *)
Definition digits (s : string) : bool := match s with EmptyString => false | _ => all_chars isdigit s end.

Definition token_ok (t : Token) : Prop :=
  match t_type t with
  | KEYWORD => is_keyword (t_value t) = true
  | INTEGER_LIT => digits (t_value t) = true
  | FLOAT_LIT => exists i f, t_value t = (i +:+ "." +:+ f)%string /\ digits i = true /\ digits f = true
  | END_OF_INPUT => False
  | _ => True
  end.

Lemma scan_word_ok c s pos t rest :
  word_start c = true -> scan_word (String c s) pos = (t, rest) -> token_ok t /\ String.length rest <= String.length s.
Proof.
  intros Hc H. unfold scan_word in H. cbn [span] in H.
  assert (word_char c = true) as Hw by (unfold word_start, word_char, isalnum in *; by destruct (isalpha c), (Ascii.eqb c "_"), (isdigit c)).
  rewrite Hw in H. destruct (span word_char s) as [w r] eqn:E. apply span_shorter in E.
  destruct (is_keyword (upper (String c w))) eqn:Ek; simplify_eq; split; done.
Qed.

Lemma scan_number_ok c s pos t rest :
  isdigit c = true -> scan_number (String c s) pos = (t, rest) -> token_ok t /\ String.length rest <= String.length s.
Proof.
  intros Hc H. unfold scan_number in H. cbn [span] in H. rewrite Hc in H.
  destruct (span isdigit s) as [w r] eqn:E. pose proof (span_shorter _ _ _ _ E) as Hr. apply span_spec in E as [-> Hw].
  assert (digits (String c w) = true) as Hd by (cbn; by rewrite Hc).
  assert ((mkToken INTEGER_LIT (String c w) pos, r) = (t, rest) -> token_ok t /\ String.length rest <= String.length (w +:+ r)) as Hint
    by (intros; simplify_eq; done).
  destruct r as [|c1 [|d frac]]; [by apply Hint|destruct c1 as [[] [] [] [] [] [] [] []]; by apply Hint|].
  destruct (decide (c1 = "."%char)) as [->|Hne].
  - destruct (isdigit d) eqn:Ed; [|by apply Hint]. destruct (span isdigit (String d frac)) as [f r'] eqn:E'. simplify_eq.
    pose proof (span_shorter _ _ _ _ E') as Hr'. cbn [span] in E'. rewrite Ed in E'. destruct (span isdigit frac) as [f' r''] eqn:E2. simplify_eq.
    apply span_spec in E2 as [-> Hf]. split; [|cbn [String.length] in *; lia].
    exists (String c w), (String d f'). split_and!; [done..|]. cbn. by rewrite Ed.
  - destruct c1 as [[] [] [] [] [] [] [] []]; try (by apply Hint).
Qed.

Lemma scan_symbol_ok c s pos t rest :
  scan_symbol c s pos = Ok (t, rest) -> token_ok t /\ String.length rest <= String.length s.
Proof.
  unfold scan_symbol, two_char. intros H. destruct s as [|c' s]; [|destruct (existsb _ _) eqn:?];
    repeat case_match; simplify_eq; cbn; split; try done; lia.
Qed.

(** Every turn takes a character or refuses the text. *)
Lemma scan_ok c s pos :
  match scan c s pos with
  | Ok (t, rest) => String.length rest <= String.length s /\ match t with Some t => token_ok t | None => True end
  | Err e => exists msg p, e = ParseError msg (Some p)
  end.
Proof.
  unfold scan. destruct (isspace c); [done|]. destruct (word_start c) eqn:Ew.
  { destruct (scan_word _ _) as [t r] eqn:E. by apply scan_word_ok in E as []. }
  destruct (isdigit c) eqn:Ed.
  { destruct (scan_number _ _) as [t r] eqn:E. by apply scan_number_ok in E as []. }
  destruct (Ascii.eqb c quote).
  { destruct (scan_string_body (String.length s) s) as (v & rest & -> & -> & Hv); [done|].
    destruct rest; [by eauto|]. rewrite length_app_string. cbn. split; [lia|done]. }
  destruct (scan_symbol c s pos) as [[t r]|e] eqn:E; cbn; [by apply scan_symbol_ok in E as []|].
  unfold scan_symbol in E. repeat case_match; simplify_eq; eauto.
Qed.

(** A list of tokens that ends with its only [END_OF_INPUT]. *)
Inductive stream : list Token -> Prop :=
  | stream_end v p : stream [mkToken END_OF_INPUT v p]
  | stream_cons t ts : token_ok t -> stream ts -> stream (t :: ts).

(** The tokenizer is total: it gives a stream of tokens or throws a
    [ParseError] with a position, for every text. *)
Lemma tokenize_loop_total fuel s pos :
  String.length s <= fuel ->
  (exists ts, tokenize_loop fuel s pos = Ok ts /\ stream ts) \/
  (exists msg p, tokenize_loop fuel s pos = Err (ParseError msg (Some p))).
Proof.
  revert s pos; induction fuel as [|fuel IH]; intros [|c s] pos Hn; cbn [String.length] in Hn; try lia;
    [left; eexists; split; [done|constructor]..|].
  cbn [tokenize_loop]. pose proof (scan_ok c s pos) as Hs. destruct (scan c s pos) as [[t rest]|e]; cbn [mbind result_bind].
  - destruct Hs as [Hl Ht]. destruct (IH rest (pos + (String.length (String c s) - String.length rest))) as [(ts & -> & Hts)|(msg & p & ->)]; [lia|..].
    + left. eexists. split; [done|]. destruct t; [by constructor|done].
    + right. by exists msg, p.
  - destruct Hs as (msg & p & ->). right. by exists msg, p.
Qed.

Lemma Tokenize_total sql :
  (exists ts, Tokenize sql = Ok ts /\ stream ts) \/ (exists msg p, Tokenize sql = Err (ParseError msg (Some p))).
Proof. by apply tokenize_loop_total. Qed.

(** ** Writing tokens out *)

(** A token without its position. *)
Definition lexeme : Type := TokenType * string.
Definition lexeme_of (t : Token) : lexeme := (t_type t, t_value t).

Definition quoted (v : string) : string := String quote (v +:+ String quote "").
Definition text (l : lexeme) : string := match l.1 with STRING_LIT => quoted l.2 | _ => l.2 end.

(** Every lexeme is followed by a space. *)
Fixpoint render (ls : list lexeme) : string :=
  match ls with [] => ""%string | l :: ls => (text l +:+ String " " (render ls))%string end.

Definition is_word (s : string) : bool := match s with EmptyString => false | String c s => word_start c && all_chars word_char s end.

Definition lexeme_ok (l : lexeme) : Prop :=
  match l.1 with
  | KEYWORD => is_keyword l.2 = true
  | IDENTIFIER => is_word l.2 = true /\ is_keyword (upper l.2) = false
  | INTEGER_LIT => digits l.2 = true
  | FLOAT_LIT => exists i f, l.2 = (i +:+ "." +:+ f)%string /\ digits i = true /\ digits f = true
  | STRING_LIT => all_chars (fun c => negb (Ascii.eqb c quote)) l.2 = true
  | OPERATOR => existsb (String.eqb l.2) ["<="; ">="; "<>"; "="; "<"; ">"; "+"; "-"; "*"; "/"]%string = true
  | PUNCTUATION => existsb (String.eqb l.2) ["("; ")"; ","; ";"; "."]%string = true
  | END_OF_INPUT => False
  end.

Lemma cons_app c (a b : string) : (String c a +:+ b)%string = String c (a +:+ b).
Proof. done. Qed.

Lemma app_assoc_string (a b c : string) : ((a +:+ b) +:+ c)%string = (a +:+ (b +:+ c))%string.
Proof. induction a as [|x a IH]; [done|]. rewrite !cons_app. by rewrite IH. Qed.

Lemma span_app p w c s : all_chars p w = true -> p c = false -> span p (w +:+ String c s) = (w, String c s).
Proof.
  intros Hw Hc. induction w as [|x w IH]; [change (span p (String c s) = (""%string, String c s)); cbn; by rewrite Hc|].
  cbn in Hw. apply andb_true_iff in Hw as [Hx Hw]. rewrite cons_app. cbn [span]. by rewrite Hx, (IH Hw).
Qed.

Lemma scan_string_app v s :
  all_chars (fun c => negb (Ascii.eqb c quote)) v = true -> scan_string (v +:+ String quote s) = (v, String quote s).
Proof.
  induction v as [|x v IH]; intros Hv; [done|]. cbn in Hv. apply andb_true_iff in Hv as [Hx Hv]. apply negb_true_iff in Hx.
  rewrite cons_app. cbn [scan_string]. rewrite Hx, (IH Hv). by destruct (v +:+ String quote s)%string.
Qed.

(** The keywords are words in upper case. *)
Lemma keyword_word v : is_keyword v = true -> is_word v = true /\ upper v = v.
Proof.
  intros H. apply existsb_exists in H as (k & Hk & Heq). apply String.eqb_eq in Heq as ->.
  assert (Forall (fun k => is_word k = true /\ upper k = k) KEYWORD_SET) as Hall by (repeat constructor).
  rewrite Forall_forall in Hall. apply Hall. by apply list_elem_of_In.
Qed.

(** The first characters decide the class of a lexeme. *)
Lemma word_start_class c : word_start c = true -> isspace c = false.
Proof. by destruct c as [[] [] [] [] [] [] [] []]. Qed.
Lemma isdigit_class c : isdigit c = true -> isspace c = false /\ word_start c = false.
Proof. by destruct c as [[] [] [] [] [] [] [] []]. Qed.
Lemma word_start_char c : word_start c = true -> word_char c = true.
Proof. by destruct c as [[] [] [] [] [] [] [] []]. Qed.

Lemma scan_words (w s : string) pos :
  is_word w = true -> exists c w', w = String c w' /\
    scan c (w' +:+ String " " s) pos =
      Ok (Some (if is_keyword (upper w) then mkToken KEYWORD (upper w) pos else mkToken IDENTIFIER w pos), String " " s).
Proof.
  destruct w as [|c w]; [done|]. cbn [is_word]. intros Hw. apply andb_true_iff in Hw as [Hc Hw]. exists c, w. split; [done|].
  unfold scan. rewrite (word_start_class _ Hc), Hc. unfold scan_word. rewrite <- cons_app.
  rewrite span_app; [|cbn; by rewrite (word_start_char _ Hc)|done]. by destruct (is_keyword _).
Qed.

Lemma scan_digits (i s : string) pos :
  digits i = true -> exists c i', i = String c i' /\ forall rest t,
    scan_number (i +:+ rest) pos = (t, s) -> scan c (i' +:+ rest) pos = Ok (Some t, s).
Proof.
  destruct i as [|c i]; [done|]. cbn [digits all_chars]. intros Hd. apply andb_true_iff in Hd as [Hc Hi]. exists c, i. split; [done|].
  intros rest t Hs. unfold scan. destruct (isdigit_class _ Hc) as [-> ->]. rewrite Hc, <- cons_app. by rewrite Hs.
Qed.

Lemma digits_all s : digits s = true -> all_chars isdigit s = true.
Proof. by destruct s. Qed.

Lemma scan_integer i s pos : digits i = true -> scan_number (i +:+ String " " s) pos = (mkToken INTEGER_LIT i pos, String " " s).
Proof. intros Hi. unfold scan_number. rewrite span_app; [done|by apply digits_all|done]. Qed.

Lemma scan_float i f s pos : digits i = true -> digits f = true ->
  scan_number (i +:+ ("." +:+ f) +:+ String " " s) pos = (mkToken FLOAT_LIT (i +:+ "." +:+ f) pos, String " " s).
Proof.
  intros Hi Hf. rewrite cons_app. change ("" +:+ f)%string with f. rewrite cons_app. unfold scan_number. rewrite span_app; [|by apply digits_all|done].
  pose proof (digits_all _ Hf) as Ha. destruct f as [|d f]; [done|]. rewrite cons_app. cbn in Ha. apply andb_true_iff in Ha as [Hd Ha].
  rewrite Hd, <- cons_app, span_app; [done|cbn; by rewrite Hd|done].
Qed.

(** A lexeme that is followed by a space is scanned back. *)
Lemma scan_lexeme l s pos :
  lexeme_ok l -> exists c w, text l = String c w /\ scan c (w +:+ String " " s) pos = Ok (Some (mkToken l.1 l.2 pos), String " " s).
Proof.
  destruct l as [ty v]. unfold lexeme_ok, text. cbn [fst snd]. destruct ty; intros H.
  - destruct (keyword_word _ H) as [Hw Hu]. destruct (scan_words v s pos Hw) as (c & w & -> & Hs). exists c, w. by rewrite Hs, Hu, H.
  - destruct H as [Hw Hk]. destruct (scan_words v s pos Hw) as (c & w & -> & Hs). exists c, w. by rewrite Hs, Hk.
  - destruct (scan_digits v (String " " s) pos H) as (c & w & -> & Hs). exists c, w. split; [done|]. apply Hs. by apply scan_integer.
  - destruct H as (i & f & -> & Hi & Hf). destruct (scan_digits i (String " " s) pos Hi) as (c & w & -> & Hs).
    exists c, (w +:+ "." +:+ f)%string. split; [done|]. rewrite app_assoc_string. apply Hs. by apply scan_float.
  - exists quote, (v +:+ String quote "")%string. split; [done|]. unfold scan. cbn [isspace word_start isdigit].
    rewrite app_assoc_string, cons_app. change (isspace quote) with false. change (word_start quote) with false.
    change (isdigit quote) with false. change (Ascii.eqb quote quote) with true. cbn iota. by rewrite scan_string_app.
  - apply existsb_exists in H as (k & Hk & Heq). apply String.eqb_eq in Heq as ->.
    assert (Forall (fun k => exists c w, k = String c w /\ forall s, scan c (w +:+ String " " s) pos = Ok (Some (mkToken OPERATOR k pos), String " " s))
      ["<="; ">="; "<>"; "="; "<"; ">"; "+"; "-"; "*"; "/"]%string) as Hall by (repeat (constructor; [by do 2 eexists|]); constructor).
    rewrite Forall_forall in Hall. apply list_elem_of_In in Hk. destruct (Hall k Hk) as (c & w & -> & Hs). by exists c, w.
  - apply existsb_exists in H as (k & Hk & Heq). apply String.eqb_eq in Heq as ->.
    assert (Forall (fun k => exists c w, k = String c w /\ forall s, scan c (w +:+ String " " s) pos = Ok (Some (mkToken PUNCTUATION k pos), String " " s))
      ["("; ")"; ","; ";"; "."]%string) as Hall by (repeat (constructor; [by do 2 eexists|]); constructor).
    rewrite Forall_forall in Hall. apply list_elem_of_In in Hk. destruct (Hall k Hk) as (c & w & -> & Hs). by exists c, w.
  - done.
Qed.

Lemma tokenize_loop_render ls fuel pos :
  Forall lexeme_ok ls -> String.length (render ls) <= fuel ->
  exists ts, tokenize_loop fuel (render ls) pos = Ok ts /\ lexeme_of <$> ts = ls ++ [(END_OF_INPUT, ""%string)].
Proof.
  revert fuel pos; induction ls as [|l ls IH]; intros fuel pos Hok Hn.
  { eexists. by destruct fuel. }
  apply Forall_cons in Hok as [Hl Hok]. destruct (scan_lexeme l (render ls) pos Hl) as (c & w & Ht & Hs).
  cbn [render] in *. rewrite Ht, cons_app in *. cbn [String.length] in Hn. rewrite length_app_string in Hn. cbn [String.length] in Hn.
  destruct fuel as [|[|fuel]]; [lia..|]. cbn [tokenize_loop]. rewrite Hs. cbn [mbind result_bind].
  change (scan " " (render ls) ?p) with (@Ok (option Token * string) (None, render ls)). cbn [mbind result_bind].
  edestruct (IH fuel) as (ts & -> & Hts); [done|lia|]. eexists. split; [done|]. cbn [lexeme_of]. rewrite fmap_cons, Hts. by destruct l.
Qed.

(** Tokens that are written out with a space behind each are read back. *)
Theorem tokenize_render ls :
  Forall lexeme_ok ls -> exists ts, Tokenize (render ls) = Ok ts /\ lexeme_of <$> ts = ls ++ [(END_OF_INPUT, ""%string)].
Proof. intros H. by apply tokenize_loop_render. Qed.
