(* ===== verification/Parser.v ===== *)
(** * The parser

    [parser/parser.cpp]: recursive descent over the tokens.  The state of a
    [Parser] is [tokens_] and [pos_], here the tokens from [pos_] on; reading
    behind the last one is undefined, and [Consume] never steps over
    [END_OF_INPUT].  A function that recurses without a bound on its own takes
    [fuel], and each entry passes the number of tokens that are left.

    The claims are that the parser is total on what the tokenizer gives it, and
    that the expressions it accepts are those of the grammar of the header, with
    its precedences and associativities, so that printed expressions are read
    back. *)

From Stdlib Require Import ZArith SpecFloat String Ascii.
From stdpp Require Import base strings list pretty.
From S2P Require Import Prelude Types Double Ast Tokenizer.

(** ** The state *)

Definition parser (A : Type) : Type := list Token -> result (A * list Token).

#[export] Instance parser_ret : MRet parser := fun A x ts => Ok (x, ts).
#[export] Instance parser_bind : MBind parser := fun A B f m ts => match m ts with Ok (x, ts) => f x ts | Err e => Err e end.

Definition throw {A} (e : error) : parser A := fun _ => Err e.
Definition lift {A} (r : result A) : parser A := fun ts => x ← r; Ok (x, ts).

Definition Peek : parser Token := fun ts => match ts with t :: _ => Ok (t, ts) | [] => Err UndefinedBehaviour end.

Definition Consume : parser Token := fun ts =>
  match ts with
  | t :: ts' => Ok (t, if decide (t_type t = END_OF_INPUT) then ts else ts')
  | [] => Err UndefinedBehaviour
  end.

(** An empty [value] matches every token of the type. *)
Definition token_is (t : TokenType) (value : string) (tok : Token) : bool :=
  if negb (bool_decide (t_type tok = t)) then false
  else if String.eqb value "" then true
  else if bool_decide (t = KEYWORD) then String.eqb (upper (t_value tok)) (upper value)
  else String.eqb (t_value tok) value.

Definition Check (t : TokenType) (value : string) : parser bool := tok ← Peek; mret (token_is t value tok).

Definition Match (t : TokenType) (value : string) : parser bool :=
  b ← Check t value; if b : bool then (_ ← Consume; mret true) else mret false.

(** [static_cast<int>(t)] *)
Definition token_type_number (t : TokenType) : nat :=
  match t with
  | KEYWORD => 0 | IDENTIFIER => 1 | INTEGER_LIT => 2 | FLOAT_LIT => 3 | STRING_LIT => 4 | OPERATOR => 5 | PUNCTUATION => 6
  | END_OF_INPUT => 7
  end.

Definition expected (t : TokenType) (value : string) (tok : Token) : error :=
  ParseError ("expected " +:+ (if String.eqb value "" then "token type " +:+ pretty (token_type_number t) else "'" +:+ value +:+ "'")
              +:+ " but got '" +:+ t_value tok +:+ "'") (Some (t_pos tok)).

Definition Expect (t : TokenType) (value : string) : parser Token :=
  b ← Check t value;
  if b : bool then Consume else (tok ← Peek; throw (expected t value tok)).

(** [Expect(t).value] *)
Definition ExpectValue (t : TokenType) : parser string := tok ← Expect t ""; mret (t_value tok).

(** [while (guard) items.push_back(item)] *)
Fixpoint many_fuel {A} (fuel : nat) (guard : parser bool) (item : parser A) : parser (list A) :=
  match fuel with
  | 0 => throw UndefinedBehaviour
  | S fuel =>
      b ← guard;
      if b : bool then (x ← item; xs ← many_fuel fuel guard item; mret (x :: xs)) else mret []
  end.
Definition many {A} (guard : parser bool) (item : parser A) : parser (list A) := fun ts => many_fuel (S (length ts)) guard item ts.

(** [item, item, ...] *)
Definition comma_list {A} (item : parser A) : parser (list A) :=
  x ← item; xs ← many (Match PUNCTUATION ",") item; mret (x :: xs).

(** ** Numbers *)

(** The value of a string of digits, and [std::stoll] and [std::stoul] on the
    text of an integer literal, which has no sign. *)
Fixpoint digits_value (acc : Z) (s : string) : Z :=
  match s with EmptyString => acc | String c s => digits_value (10 * acc + (Z.of_nat (nat_of_ascii c) - 48)) s end.

Definition stoint (bound : Z) (s : string) : result Z :=
  let '(ds, _) := span isdigit s in
  if String.eqb ds "" then Err StdInvalidArgument
  else let z := digits_value 0 ds in if Z.ltb z bound then Ok z else Err StdOutOfRange.

Definition stoll : string -> result Z := stoint (2 ^ 63).
Definition stoul : string -> result Z := stoint (2 ^ 64).

(** [std::stod] on the text of a float literal: the double nearest to the
    fraction [num / 10^k]; overflow throws, and so does a subnormal or zero
    result that is not exact. *)
Definition nearest (num den : positive) : spec_float :=
  SFdiv 53 1024 (S754_finite false num 0) (S754_finite false den 0).

Definition stod_value (num : Z) (k : nat) : result Z :=
  match num with
  | Zpos n =>
      let den := Z.to_pos (10 ^ Z.of_nat k) in
      match nearest n den with
      | S754_finite s m e =>
          if Z.ltb (Zpos m) (2 ^ 52) && negb (Z.eqb (Zpos m * Zpos den) (Zpos n * 2 ^ 1074)) then Err StdOutOfRange
          else Ok (SF_to_f64 0 (S754_finite s m e))
      | _ => Err StdOutOfRange
      end
  | _ => Ok 0%Z
  end.

Definition stod (s : string) : result Z :=
  let '(i, rest) := span isdigit s in
  match rest with
  | String "." rest =>
      let '(f, _) := span isdigit rest in
      if String.eqb (i +:+ f) "" then Err StdInvalidArgument else stod_value (digits_value 0 (i +:+ f)) (String.length f)
  | _ => if String.eqb i "" then Err StdInvalidArgument else stod_value (digits_value 0 i) 0
  end.

(** ** Names and types *)

(** [[schema.]name] *)
Definition ParseQualifiedName : parser (string * string) :=
  first ← ExpectValue IDENTIFIER;
  dot ← Check PUNCTUATION ".";
  if dot : bool then (_ ← Consume; second ← ExpectValue IDENTIFIER; mret (first, second)) else mret (""%string, first).

Definition type_names : list (string * TypeId) :=
  [("INT8", INT8); ("INT16", INT16); ("INT32", INT32); ("INT64", INT64); ("INT", INT64); ("INTEGER", INT64);
   ("FLOAT32", FLOAT32); ("FLOAT64", FLOAT64); ("FLOAT", FLOAT64); ("DOUBLE", FLOAT64);
   ("BOOLEAN", BOOLEAN); ("BOOL", BOOLEAN); ("VARCHAR", VARCHAR); ("TEXT", VARCHAR)]%string.

Definition ParseTypeName : parser TypeId :=
  tok ← Peek;
  if negb (bool_decide (t_type tok = KEYWORD)) && negb (bool_decide (t_type tok = IDENTIFIER)) then
    throw (ParseError "expected type name" (Some (t_pos tok)))
  else
    _ ← Consume;
    match list_find (fun p => p.1 = upper (t_value tok)) type_names with
    | Some (_, (_, t)) => mret t
    | None => throw (ParseError ("unknown type name '" +:+ t_value tok +:+ "'") (Some (t_pos tok)))
    end.

(** ** Expressions *)

(** [while (Check(op)) { op = Consume(); right = operand(); left = node(left, right); }],
    with the operator of the node given by its token. *)
Fixpoint binary_loop (fuel : nat) (is_op : Token -> bool) (name : Token -> string) (operand : parser Expr) (left : Expr) : parser Expr :=
  match fuel with
  | 0 => throw UndefinedBehaviour
  | S fuel =>
      tok ← Peek;
      if is_op tok then
        op ← Consume; right ← operand; binary_loop fuel is_op name operand (BinaryOpExpr (name op) left right)
      else mret left
  end.

Definition binary (is_op : Token -> bool) (name : Token -> string) (operand : parser Expr) : parser Expr :=
  left ← operand; (fun ts => binary_loop (S (length ts)) is_op name operand left ts) : parser Expr.

(** [if (Check(op)) { Consume(); return node(self()); } return operand();] *)
Fixpoint prefix_loop (fuel : nat) (is_op : Token -> bool) (op : string) (operand : parser Expr) : parser Expr :=
  match fuel with
  | 0 => throw UndefinedBehaviour
  | S fuel =>
      tok ← Peek;
      if is_op tok then (_ ← Consume; x ← prefix_loop fuel is_op op operand; mret (UnaryOpExpr op x)) else operand
  end.

Definition prefix (is_op : Token -> bool) (op : string) (operand : parser Expr) : parser Expr :=
  fun ts => prefix_loop (S (length ts)) is_op op operand ts.

Definition is_operator (ops : list string) (tok : Token) : bool := existsb (fun op => token_is OPERATOR op tok) ops.

(** The arguments of a call, behind its parenthesis. *)
Definition ParseArgs (ParseExpr : parser Expr) : parser (list Expr * bool) :=
  tok ← Peek;
  if token_is PUNCTUATION ")" tok then mret ([], false)
  else if token_is OPERATOR "*" tok then (_ ← Consume; mret ([], true))
  else (args ← comma_list ParseExpr; mret (args, false)).

(** A call or a column reference, behind its first identifier. *)
Definition ParseName (ParseExpr : parser Expr) (name : string) : parser Expr :=
  tok ← Peek;
  if token_is PUNCTUATION "(" tok then
    _ ← Consume;
    '(args, is_star) ← ParseArgs ParseExpr;
    _ ← Expect PUNCTUATION ")";
    mret (FunctionCallExpr (upper name) args is_star)
  else if token_is PUNCTUATION "." tok then
    _ ← Consume; col ← ExpectValue IDENTIFIER; mret (ColumnRefExpr name col)
  else mret (ColumnRefExpr "" name).

Definition ParsePrimary (ParseExpr : parser Expr) : parser Expr :=
  tok ← Peek;
  if token_is PUNCTUATION "(" tok then
    _ ← Consume; e ← ParseExpr; _ ← Expect PUNCTUATION ")"; mret e
  else if token_is OPERATOR "*" tok then (_ ← Consume; mret StarExpr)
  else if bool_decide (t_type tok = INTEGER_LIT) then (_ ← Consume; z ← lift (stoll (t_value tok)); mret (IntegerLitExpr z))
  else if bool_decide (t_type tok = FLOAT_LIT) then (_ ← Consume; b ← lift (stod (t_value tok)); mret (FloatLitExpr b))
  else if bool_decide (t_type tok = STRING_LIT) then (_ ← Consume; mret (StringLitExpr (t_value tok)))
  else if token_is KEYWORD "TRUE" tok then (_ ← Consume; mret (BoolLitExpr true))
  else if token_is KEYWORD "FALSE" tok then (_ ← Consume; mret (BoolLitExpr false))
  else if token_is KEYWORD "NULL" tok then (_ ← Consume; mret NullLitExpr)
  else if bool_decide (t_type tok = IDENTIFIER) then (_ ← Consume; ParseName ParseExpr (t_value tok))
  else throw (ParseError ("unexpected token '" +:+ t_value tok +:+ "' in expression") (Some (t_pos tok))).

Definition ParseUnary (ParsePrimary : parser Expr) : parser Expr := prefix (token_is OPERATOR "-") "-" ParsePrimary.
Definition ParseMulDiv (ParseUnary : parser Expr) : parser Expr := binary (is_operator ["*"; "/"]%string) t_value ParseUnary.
Definition ParseAddSub (ParseMulDiv : parser Expr) : parser Expr := binary (is_operator ["+"; "-"]%string) t_value ParseMulDiv.
Definition ParseComparison (ParseAddSub : parser Expr) : parser Expr :=
  binary (is_operator ["="; "<"; ">"; "<="; ">="; "<>"]%string) t_value ParseAddSub.
Definition ParseNot (ParseComparison : parser Expr) : parser Expr := prefix (token_is KEYWORD "NOT") "NOT" ParseComparison.
Definition ParseAnd (ParseNot : parser Expr) : parser Expr := binary (token_is KEYWORD "AND") (fun _ => "AND"%string) ParseNot.
Definition ParseOr (ParseAnd : parser Expr) : parser Expr := binary (token_is KEYWORD "OR") (fun _ => "OR"%string) ParseAnd.

(** The levels above a primary expression. *)
Definition levels (ParsePrimary : parser Expr) : parser Expr :=
  ParseOr (ParseAnd (ParseNot (ParseComparison (ParseAddSub (ParseMulDiv (ParseUnary ParsePrimary)))))).

Fixpoint parse_expr (fuel : nat) : parser Expr :=
  match fuel with
  | 0 => throw UndefinedBehaviour
  | S fuel => levels (ParsePrimary (parse_expr fuel))
  end.

Definition ParseExpr : parser Expr := fun ts => parse_expr (length ts) ts.

(** ** Statements *)

(** A [KEYWORD] that is required. *)
Definition keyword (k : string) : parser Token := Expect KEYWORD k.
Definition punct (p : string) : parser Token := Expect PUNCTUATION p.

(** [if (Match(k)) x = p();] *)
Definition clause {A} (k : string) (none : A) (p : parser A) : parser A :=
  b ← Match KEYWORD k; if b : bool then p else mret none.

Definition ParseJoin : parser JoinClause :=
  _ ← Match KEYWORD "INNER";
  _ ← keyword "JOIN";
  '(schema_name, table_name) ← ParseQualifiedName;
  _ ← keyword "ON";
  condition ← ParseExpr;
  mret (mkJoin table_name schema_name condition).

Definition at_join : parser bool := tok ← Peek; mret (token_is KEYWORD "INNER" tok || token_is KEYWORD "JOIN" tok).

Definition ParseOrderItem : parser (Expr * bool) :=
  e ← ParseExpr;
  desc ← Match KEYWORD "DESC";
  if desc : bool then mret (e, false) else (_ ← Match KEYWORD "ASC"; mret (e, true)).

(** The number behind LIMIT and OFFSET. *)
Definition ParseCount : parser (option Z) := t ← ExpectValue INTEGER_LIT; z ← lift (stoll t); mret (Some z).

Definition ParseWhere : parser (option Expr) := clause "WHERE" None (e ← ParseExpr; mret (Some e)).

Definition ParseSelect : parser SelectStatement :=
  _ ← keyword "SELECT";
  distinct ← Match KEYWORD "DISTINCT";
  select_list ← comma_list ParseExpr;
  _ ← keyword "FROM";
  '(from_schema, from_table) ← ParseQualifiedName;
  joins ← many at_join ParseJoin;
  where_clause ← ParseWhere;
  group_by ← clause "GROUP" [] (_ ← keyword "BY"; comma_list ParseExpr);
  order ← clause "ORDER" [] (_ ← keyword "BY"; comma_list ParseOrderItem);
  limit ← clause "LIMIT" None ParseCount;
  offset ← clause "OFFSET" None ParseCount;
  mret (mkSelect distinct select_list from_table from_schema joins where_clause group_by (map fst order) (map snd order) limit offset).

(** [(item, ...)] *)
Definition paren_list {A} (item : parser A) : parser (list A) := _ ← punct "("; xs ← comma_list item; _ ← punct ")"; mret xs.

Definition ParseInsert : parser InsertStatement :=
  _ ← keyword "INSERT";
  _ ← keyword "INTO";
  '(schema_name, table_name) ← ParseQualifiedName;
  paren ← Match PUNCTUATION "(";
  column_names ← (if paren : bool then (cs ← comma_list (ExpectValue IDENTIFIER); _ ← punct ")"; mret cs) else mret []);
  sel ← Check KEYWORD "SELECT";
  if sel : bool then
    select ← ParseSelect; mret (mkInsert table_name schema_name column_names [] (Some select))
  else
    _ ← keyword "VALUES";
    rows ← comma_list (paren_list ParseExpr);
    mret (mkInsert table_name schema_name column_names rows None).

Definition ParseSetClause : parser UpdateSetClause :=
  column_name ← ExpectValue IDENTIFIER; _ ← Expect OPERATOR "="; e ← ParseExpr; mret (mkSetClause column_name e).

Definition ParseUpdate : parser UpdateStatement :=
  _ ← keyword "UPDATE";
  '(schema_name, table_name) ← ParseQualifiedName;
  _ ← keyword "SET";
  set_clauses ← comma_list ParseSetClause;
  where_clause ← ParseWhere;
  mret (mkUpdate table_name schema_name set_clauses where_clause).

Definition ParseDelete : parser DeleteStatement :=
  _ ← keyword "DELETE";
  _ ← keyword "FROM";
  '(schema_name, table_name) ← ParseQualifiedName;
  where_clause ← ParseWhere;
  mret (mkDelete table_name schema_name where_clause).

(** NOT NULL and PRIMARY KEY, repeated; [PRIMARY KEY] implies [NOT NULL]. *)
Definition ParseConstraint : parser bool :=
  b ← Match KEYWORD "NOT";
  if b : bool then (_ ← keyword "NULL"; mret false)
  else (b ← Match KEYWORD "PRIMARY"; if b : bool then (_ ← keyword "KEY"; mret true) else mret false).

Definition at_constraint : parser bool := tok ← Peek; mret (token_is KEYWORD "NOT" tok || token_is KEYWORD "PRIMARY" tok).

Definition ParseColDef : parser ColumnDef :=
  name ← ExpectValue IDENTIFIER;
  type ← ParseTypeName;
  constraints ← many at_constraint ParseConstraint;
  mret (mkColumnDef name type (match constraints with [] => false | _ :: _ => true end) (existsb id constraints)).

(** [ParseBoundTuple] and [parseTuple]: a tuple in parentheses or one value. *)
Definition ParseBoundTuple : parser (list Expr) :=
  nx ← Peek;
  if bool_decide (t_type nx = PUNCTUATION) && String.eqb (t_value nx) "(" then paren_list ParseExpr
  else (e ← ParseExpr; mret [e]).

Definition ParseListPartition : parser (list (list Expr)) :=
  _ ← keyword "PARTITION";
  _ ← ExpectValue IDENTIFIER;
  _ ← keyword "VALUES";
  _ ← keyword "IN";
  paren_list ParseBoundTuple.

(** The partition clause: kind, key columns, count, bounds and lists. *)
Definition PartitionClause : Type := PartitionKind * list string * Z * list (list Expr) * list (list (list Expr)).

Definition ParsePartition : parser PartitionClause :=
  _ ← keyword "BY";
  range ← Match KEYWORD "RANGE";
  if range : bool then
    cols ← paren_list (ExpectValue IDENTIFIER);
    _ ← keyword "VALUES";
    bounds ← paren_list ParseBoundTuple;
    mret (PK_RANGE, cols, 0%Z, bounds, [])
  else
    hash ← Match KEYWORD "HASH";
    if hash : bool then
      cols ← paren_list (ExpectValue IDENTIFIER);
      _ ← keyword "PARTITIONS";
      cnt ← ExpectValue INTEGER_LIT;
      z ← lift (stoll cnt);
      mret (PK_HASH, cols, u32 z, [], [])
    else
      lst ← Match KEYWORD "LIST";
      if lst : bool then
        cols ← paren_list (ExpectValue IDENTIFIER);
        parts ← comma_list ParseListPartition;
        mret (PK_LIST, cols, 0%Z, [], parts)
      else mret (PK_NONE, [], 0%Z, [], []).

Definition ParseCreateTable : parser CreateTableStatement :=
  _ ← keyword "CREATE";
  _ ← keyword "TABLE";
  ine ← clause "IF" false (_ ← keyword "NOT"; _ ← keyword "EXISTS"; mret true);
  '(schema_name, table_name) ← ParseQualifiedName;
  columns ← paren_list ParseColDef;
  '(kind, cols, count, bounds, lists) ← clause "PARTITION" (PK_NONE, [], 0%Z, [], []) ParsePartition;
  mret (mkCreate schema_name table_name columns ine kind cols count bounds lists).

Definition ParseDropTable : parser DropTableStatement :=
  _ ← keyword "DROP";
  _ ← keyword "TABLE";
  ie ← clause "IF" false (_ ← keyword "EXISTS"; mret true);
  '(schema_name, table_name) ← ParseQualifiedName;
  mret (mkDrop schema_name table_name ie).

(** The bound of [VALUES LESS THAN (...)]. *)
Definition ParseRangeBound : parser (list Expr) := _ ← punct "("; b ← ParseBoundTuple; _ ← punct ")"; mret b.

Definition ParseAlterTable : parser AlterTableStatement :=
  _ ← keyword "ALTER";
  _ ← keyword "TABLE";
  '(schema_name, table_name) ← ParseQualifiedName;
  drop ← Match KEYWORD "DROP";
  if drop : bool then
    _ ← keyword "PARTITION";
    tok ← ExpectValue INTEGER_LIT;
    z ← lift (stoul tok);
    mret (mkAlterStmt AK_DROP_PARTITION schema_name table_name (u32 z) [] [])
  else
    add ← Match KEYWORD "ADD";
    if add : bool then
      _ ← keyword "PARTITION";
      _ ← keyword "VALUES";
      less ← Match KEYWORD "LESS";
      if less : bool then
        _ ← keyword "THAN";
        bound ← ParseRangeBound;
        mret (mkAlterStmt AK_ADD_PARTITION schema_name table_name 0 bound [])
      else
        _ ← keyword "IN";
        tuples ← paren_list ParseBoundTuple;
        mret (mkAlterStmt AK_ADD_PARTITION schema_name table_name 0 [] tuples)
    else throw (ParseError "ALTER TABLE: expected DROP or ADD" None).

Definition ParseTransaction (stmt : ParsedStatement) : parser ParsedStatement := _ ← Consume; mret stmt.

Definition ParseExplain (ParseStatement : parser ParsedStatement) : parser ParsedStatement :=
  _ ← keyword "EXPLAIN";
  analyze ← Match KEYWORD "ANALYZE";
  inner ← ParseStatement;
  mret (StmtExplain analyze inner).

Definition parsed {A} (f : A -> ParsedStatement) (p : parser A) : parser ParsedStatement := x ← p; mret (f x).

(** The statement that starts with keyword [k]. *)
Definition dispatch (ParseStatement : parser ParsedStatement) (tok : Token) : parser ParsedStatement :=
  let at_kw k := bool_decide (t_type tok = KEYWORD) && String.eqb (t_value tok) k in
  if at_kw "SELECT"%string then parsed StmtSelect ParseSelect
  else if at_kw "INSERT"%string then parsed StmtInsert ParseInsert
  else if at_kw "UPDATE"%string then parsed StmtUpdate ParseUpdate
  else if at_kw "DELETE"%string then parsed StmtDelete ParseDelete
  else if at_kw "CREATE"%string then parsed StmtCreateTable ParseCreateTable
  else if at_kw "DROP"%string then parsed StmtDropTable ParseDropTable
  else if at_kw "ALTER"%string then parsed StmtAlterTable ParseAlterTable
  else if at_kw "BEGIN"%string then ParseTransaction StmtBegin
  else if at_kw "COMMIT"%string then ParseTransaction StmtCommit
  else if at_kw "ROLLBACK"%string then ParseTransaction StmtRollback
  else if at_kw "EXPLAIN"%string then ParseExplain ParseStatement
  else throw (ParseError ("unexpected token '" +:+ t_value tok +:+ "'") (Some (t_pos tok))).

Fixpoint parse_statement (fuel : nat) : parser ParsedStatement :=
  match fuel with
  | 0 => throw UndefinedBehaviour
  | S fuel => tok ← Peek; dispatch (parse_statement fuel) tok
  end.

Definition ParseStatement : parser ParsedStatement := fun ts => parse_statement (length ts) ts.

Definition Parse (tokens : list Token) : result ParsedStatement :=
  '(stmt, _) ← (stmt ← ParseStatement;
                _ ← Match PUNCTUATION ";";
                tok ← Peek;
                if token_is END_OF_INPUT "" tok then mret stmt
                else throw (ParseError ("unexpected trailing token '" +:+ t_value tok +:+ "'") (Some (t_pos tok)))) tokens;
  Ok stmt.

(** What [ClientContext] does with a text: tokenize, then parse. *)
Definition ParseSQL (sql : string) : result ParsedStatement := ts ← Tokenize sql; Parse ts.

Example parse_sample :
  ParseSQL "SELECT a, COUNT(*) FROM s.t JOIN u ON t.x = u.y WHERE NOT a + 2 * -b > 3.5 OR c = 'x' GROUP BY a ORDER BY a DESC, b LIMIT 7;" =
  Ok (StmtSelect (mkSelect false [ColumnRefExpr "" "a"; FunctionCallExpr "COUNT" [] true] "t" "s"
    [mkJoin "u" "" (BinaryOpExpr "=" (ColumnRefExpr "t" "x") (ColumnRefExpr "u" "y"))]
    (Some (BinaryOpExpr "OR"
       (UnaryOpExpr "NOT" (BinaryOpExpr ">"
          (BinaryOpExpr "+" (ColumnRefExpr "" "a") (BinaryOpExpr "*" (IntegerLitExpr 2) (UnaryOpExpr "-" (ColumnRefExpr "" "b"))))
          (FloatLitExpr (1024 * 2 ^ 52 + 3 * 2 ^ 50))))
       (BinaryOpExpr "=" (ColumnRefExpr "" "c") (StringLitExpr "x"))))
    [ColumnRefExpr "" "a"] [ColumnRefExpr "" "a"; ColumnRefExpr "" "b"] [false; true] (Some 7%Z) None)).
Proof. vm_compute. reflexivity. Qed.

(** ** Totality

    A parser is run on a stream of tokens, at most [n] of them; it refuses the
    text, or leaves a stream that is at least [d] tokens shorter. *)

Definition refusal (e : error) : Prop := (exists msg p, e = ParseError msg p) \/ e = StdOutOfRange.

Definition ok_run {A} (d : nat) (ts : list Token) (r : result (A * list Token)) : Prop :=
  match r with Ok (_, rest) => stream rest /\ length rest + d <= length ts | Err e => refusal e end.

Definition runs {A} (d n : nat) (p : parser A) : Prop := forall ts, stream ts -> length ts <= n -> ok_run d ts (p ts).
Definition total {A} (d : nat) (p : parser A) : Prop := forall n, runs d n p.

Create HintDb parser.

Lemma refusal_parse msg p : refusal (ParseError msg p).
Proof. left. by eexists _, _. Qed.
Lemma refusal_range : refusal StdOutOfRange.
Proof. by right. Qed.
#[export] Hint Resolve refusal_parse refusal_range : parser.

Lemma stream_nonempty ts : stream ts -> 1 <= length ts.
Proof. intros []; cbn; lia. Qed.

Lemma ok_run_weaken {A} d d' ts ts' (r : result (A * list Token)) :
  ok_run d ts r -> length ts + d' <= length ts' + d -> ok_run d' ts' r.
Proof. destruct r as [[x rest]|e]; [|done]. intros [Hs Hl] ?. split; [done|lia]. Qed.

Lemma runs_weaken {A} d d' n n' (p : parser A) : runs d n p -> d' <= d -> n' <= n -> runs d' n' p.
Proof. intros H ? ? ts Hs Hn. apply (ok_run_weaken d _ ts); [apply H; [done|lia]|lia]. Qed.

Lemma runs_ret {A} n (x : A) : runs 0 n (mret x).
Proof. intros ts Hs Hn. split; [done|lia]. Qed.

Lemma runs_throw {A} d n e : refusal e -> runs d n (throw (A := A) e).
Proof. by intros H ts Hs Hn. Qed.

Lemma runs_lift {A} n (r : result A) : (forall e, r = Err e -> refusal e) -> runs 0 n (lift r).
Proof. intros H ts Hs Hn. unfold lift. destruct r; cbn; [split; [done|lia]|by apply H]. Qed.

(** The state behind [p] is that of [f]. *)
Lemma ok_run_bind {A B} d1 d2 n ts (p : parser A) (f : A -> parser B) :
  ok_run d1 ts (p ts) -> length ts <= n -> (forall x, runs d2 (n - d1) (f x)) -> ok_run (d1 + d2) ts ((p ≫= f) ts).
Proof.
  intros Hp Hn Hf. unfold mbind, parser_bind. destruct (p ts) as [[x rest]|e]; [|done]. destruct Hp as [Hs Hl].
  apply (ok_run_weaken d2 _ rest); [apply Hf; [done|lia]|lia].
Qed.

Lemma runs_bind {A B} d1 d2 n (p : parser A) (f : A -> parser B) :
  runs d1 n p -> (forall x, runs d2 (n - d1) (f x)) -> runs (d1 + d2) n (p ≫= f).
Proof. intros Hp Hf ts Hs Hn. apply (ok_run_bind d1 d2 n); [by apply Hp|done|done]. Qed.

Lemma runs_peek {A} d n (f : Token -> parser A) :
  (forall tok ts, stream (tok :: ts) -> length (tok :: ts) <= n -> ok_run d (tok :: ts) (f tok (tok :: ts))) -> runs d n (Peek ≫= f).
Proof. intros H [|tok ts] Hs Hn; [inversion Hs|]. by apply H. Qed.

Lemma stream_inv tok ts : stream (tok :: ts) -> t_type tok <> END_OF_INPUT -> token_ok tok /\ stream ts.
Proof. intros H. inversion H; subst; [done|]. done. Qed.

Lemma consume_then {A} d n tok ts (q : Token -> parser A) :
  stream (tok :: ts) -> length (tok :: ts) <= n -> t_type tok <> END_OF_INPUT -> (forall x, runs d (n - 1) (q x)) ->
  ok_run (S d) (tok :: ts) ((Consume ≫= q) (tok :: ts)).
Proof.
  intros Hs Hn He Hq. apply (ok_run_bind 1 d n); [|done|done]. unfold Consume. rewrite decide_False by done.
  apply stream_inv in Hs as [_ Hs]; [|done]. split; [done|cbn; lia].
Qed.

Lemma token_is_type t v tok : token_is t v tok = true -> t_type tok = t.
Proof. unfold token_is. by case_bool_decide. Qed.

Lemma token_is_not_end t v tok : t <> END_OF_INPUT -> token_is t v tok = true -> t_type tok <> END_OF_INPUT.
Proof. intros Ht H. apply token_is_type in H. congruence. Qed.

Ltac not_end := match goal with H : token_is _ _ ?tok = true |- t_type ?tok <> _ => refine (token_is_not_end _ _ _ _ H); done end.

Lemma runs_check t v n : runs 0 n (Check t v).
Proof. apply runs_peek. intros tok ts Hs Hn. split; [done|lia]. Qed.

(** What [Match] and [Expect] consume. *)
Lemma Match_cons t v tok ts :
  t <> END_OF_INPUT -> Match t v (tok :: ts) = if token_is t v tok then Ok (true, ts) else Ok (false, tok :: ts).
Proof.
  intros Ht. unfold Match, Check, Peek, mbind, parser_bind, mret, parser_ret. cbn. destruct (token_is t v tok) eqn:E; [|done].
  unfold Consume. by rewrite decide_False by (by eapply token_is_not_end).
Qed.

Lemma Expect_cons t v tok ts :
  t <> END_OF_INPUT -> Expect t v (tok :: ts) = if token_is t v tok then Ok (tok, ts) else Err (expected t v tok).
Proof.
  intros Ht. unfold Expect, Check, Peek, mbind, parser_bind, mret, parser_ret. cbn. destruct (token_is t v tok) eqn:E; [|done].
  unfold Consume. by rewrite decide_False by (by eapply token_is_not_end).
Qed.

Lemma runs_match t v n : t <> END_OF_INPUT -> runs 0 n (Match t v).
Proof.
  intros Ht [|tok ts] Hs Hn; [inversion Hs|]. rewrite Match_cons by done. destruct (token_is t v tok) eqn:E; [|split; [done|lia]].
  apply stream_inv in Hs as [_ Hs]; [|by eapply token_is_not_end]. split; [done|cbn; lia].
Qed.

Lemma runs_expect t v n : t <> END_OF_INPUT -> runs 1 n (Expect t v).
Proof.
  intros Ht [|tok ts] Hs Hn; [inversion Hs|]. rewrite Expect_cons by done. destruct (token_is t v tok) eqn:E; [|apply refusal_parse].
  apply stream_inv in Hs as [_ Hs]; [|by eapply token_is_not_end]. split; [done|cbn; lia].
Qed.

Lemma runs_expect_value t n : t <> END_OF_INPUT -> runs 1 n (ExpectValue t).
Proof. intros Ht. apply (runs_bind 1 0); [by apply runs_expect|]. intros x. apply runs_ret. Qed.

(** [while (guard) item], when a turn of the loop takes a token. *)
Lemma runs_many {A} n (guard : parser bool) (item : parser A) :
  (forall ts, stream ts -> length ts <= n ->
     match guard ts with Ok (b, rest) => if b : bool then ok_run 1 ts (item rest) else ok_run 0 ts (guard ts) | Err e => refusal e end) ->
  runs 0 n (many guard item).
Proof.
  intros Hstep ts Hs Hn. unfold many. assert (length ts < S (length ts)) as Hf by lia. revert Hf.
  generalize (S (length ts)) as fuel. intros fuel. revert ts Hs Hn. induction fuel as [|fuel IH]; [lia|]. intros ts Hs Hn Hf.
  specialize (Hstep ts Hs Hn). cbn [many_fuel]. unfold mbind at 1, parser_bind at 1.
  destruct (guard ts) as [[[] rest]|e]; [|done|done].
  unfold mbind at 1, parser_bind at 1. destruct (item rest) as [[x rest']|e]; [|done]. destruct Hstep as [Hs' Hl].
  apply (ok_run_weaken 0 _ rest'); [|lia]. apply (ok_run_bind 0 0 n); [apply IH; [done|lia|lia]|lia|intros y; apply runs_ret].
Qed.

Lemma runs_many_match {A} t v n (item : parser A) :
  t <> END_OF_INPUT -> runs 0 (n - 1) item -> runs 0 n (many (Match t v) item).
Proof.
  intros Ht Hi. apply runs_many. intros [|tok ts] Hs Hn; [inversion Hs|]. rewrite Match_cons by done.
  destruct (token_is t v tok) eqn:E; [|split; [done|lia]].
  apply stream_inv in Hs as [_ Hs]; [|by eapply token_is_not_end]. cbn [length] in Hn.
  apply (ok_run_weaken 0 _ ts); [apply Hi; [done|lia]|cbn; lia].
Qed.

Lemma runs_many_check {A} g n (item : parser A) : runs 1 n item -> runs 0 n (many (tok ← Peek; mret (g tok)) item).
Proof.
  intros Hi. apply runs_many. intros [|tok ts] Hs Hn; [inversion Hs|].
  change ((Peek ≫= λ tok, mret (g tok)) (tok :: ts)) with (@Ok (bool * list Token) (g tok, tok :: ts)).
  destruct (g tok); [by apply Hi|split; [done|cbn; lia]].
Qed.

Lemma runs_comma_list {A} n (item : parser A) : runs 1 n item -> runs 1 n (comma_list item).
Proof.
  intros Hi. apply (runs_bind 1 0); [done|]. intros x. apply (runs_bind 0 0); [|intros xs; apply runs_ret].
  apply runs_many_match; [done|]. by apply (runs_weaken 1 _ n); [|lia..].
Qed.

(** *** Expressions *)

Lemma runs_binary n is_op name operand :
  (forall tok, is_op tok = true -> t_type tok <> END_OF_INPUT) -> runs 1 n operand -> runs 1 n (binary is_op name operand).
Proof.
  intros Hop Ho. apply (runs_bind 1 0); [done|]. intros left ts Hs Hn. assert (length ts < S (length ts)) as Hf by lia. revert Hf.
  generalize (S (length ts)) as fuel. intros fuel. revert left ts Hs Hn. induction fuel as [|fuel IH]; [lia|]. intros left ts Hs Hn Hf.
  cbn [binary_loop]. destruct ts as [|tok ts]; [inversion Hs|]. unfold mbind at 1, parser_bind at 1. cbn [Peek].
  destruct (is_op tok) eqn:E; [|split; [done|lia]].
  apply (ok_run_weaken 1 _ (tok :: ts)); [|lia]. apply (consume_then 0 (length (tok :: ts))); [done|done|by apply Hop|].
  intros x ts' Hs' Hn'. cbn [length] in *. apply (ok_run_weaken 1 _ ts'); [|lia].
  apply (ok_run_bind 1 0 (length ts')); [apply Ho; [done|lia]|done|]. intros r ts2 Hs2 Hn2. apply IH; [done|lia..].
Qed.

Lemma runs_prefix n is_op op operand :
  (forall tok, is_op tok = true -> t_type tok <> END_OF_INPUT) -> runs 1 n operand -> runs 1 n (prefix is_op op operand).
Proof.
  intros Hop Ho ts Hs Hn. unfold prefix. assert (length ts < S (length ts)) as Hf by lia. revert Hf.
  generalize (S (length ts)) as fuel. intros fuel. revert ts Hs Hn. induction fuel as [|fuel IH]; [lia|]. intros ts Hs Hn Hf.
  cbn [prefix_loop]. destruct ts as [|tok ts]; [inversion Hs|]. unfold mbind at 1, parser_bind at 1. cbn [Peek].
  destruct (is_op tok) eqn:E; [|by apply Ho].
  apply (consume_then 0 (length (tok :: ts))); [done|done|by apply Hop|]. intros _ ts' Hs' Hn'. cbn [length] in *.
  apply (ok_run_bind 0 0 (length ts')); [|done|intros x; apply runs_ret].
  apply (ok_run_weaken 1 _ ts'); [apply IH; [done|lia..]|lia].
Qed.

Lemma is_operator_not_end ops tok : is_operator ops tok = true -> t_type tok <> END_OF_INPUT.
Proof. intros H. apply existsb_exists in H as (op & _ & H). cbv beta in H. not_end. Qed.

Lemma runs_levels n p : runs 1 n p -> runs 1 n (levels p).
Proof.
  intros H. unfold levels, ParseOr, ParseAnd, ParseNot, ParseComparison, ParseAddSub, ParseMulDiv, ParseUnary.
  repeat (apply runs_binary || apply runs_prefix); try done; intros tok;
    (apply is_operator_not_end || (intros; not_end)).
Qed.

Lemma stoint_refusal bound v e : digits v = true -> stoint bound v = Err e -> refusal e.
Proof.
  unfold stoint. intros Hd H. destruct v as [|c v]; [done|]. cbn in Hd. apply andb_true_iff in Hd as [Hc Hv].
  cbn [span] in H. rewrite Hc in H. destruct (span isdigit v) as [ds r]. cbn [String.eqb] in H.
  destruct (Z.ltb _ _); simplify_eq. apply refusal_range.
Qed.

Lemma stod_refusal v e : (exists i f, v = (i +:+ "." +:+ f)%string /\ digits i = true /\ digits f = true) -> stod v = Err e -> refusal e.
Proof.
  intros (i & f & -> & Hi & Hf) H. unfold stod in H. rewrite cons_app in H. change ("" +:+ f)%string with f in H.
  rewrite span_app in H; [|by apply digits_all|done]. destruct (span isdigit f) as [f' r]. destruct i as [|c i]; [done|].
  rewrite cons_app in H. change (String.eqb (String c (i +:+ f')) "") with false in H. unfold stod_value in H.
  repeat case_match; simplify_eq; apply refusal_range.
Qed.

Lemma runs_args n pe : runs 1 n pe -> runs 0 n (ParseArgs pe).
Proof.
  intros Hpe. apply runs_peek. intros tok ts Hs Hn. destruct (token_is PUNCTUATION ")" tok); [split; [done|lia]|].
  destruct (token_is OPERATOR "*" tok) eqn:E.
  - apply (ok_run_weaken 1 _ (tok :: ts)); [|lia]. apply (consume_then 0 n); [done|done|not_end|]. intros x. apply runs_ret.
  - apply (ok_run_bind 0 0 n); [|done|intros x; apply runs_ret].
    apply (ok_run_weaken 1 _ (tok :: ts)); [by apply runs_comma_list with (n := n)|lia].
Qed.

Lemma runs_name n pe name : runs 1 (n - 1) pe -> runs 0 n (ParseName pe name).
Proof.
  intros Hpe. apply runs_peek. intros tok ts Hs Hn. destruct (token_is PUNCTUATION "(" tok) eqn:E1.
  { apply (ok_run_weaken 1 _ (tok :: ts)); [|lia]. apply (consume_then 0 n); [done|done|not_end|]. intros x.
    apply (runs_bind 0 0); [by apply runs_args|]. intros [args star]. apply (runs_weaken 1 _ (n - 1 - 0)); [|lia..].
    apply (runs_bind 1 0); [by apply runs_expect|]. intros y. apply runs_ret. }
  destruct (token_is PUNCTUATION "." tok) eqn:E2; [|split; [done|lia]].
  apply (ok_run_weaken 1 _ (tok :: ts)); [|lia]. apply (consume_then 0 n); [done|done|not_end|]. intros x.
  apply (runs_weaken 1 _ (n - 1)); [|lia..]. apply (runs_bind 1 0); [by apply runs_expect_value|]. intros y. apply runs_ret.
Qed.

Lemma runs_primary n pe : runs 1 (n - 1) pe -> runs 1 n (ParsePrimary pe).
Proof.
  intros Hpe. apply runs_peek. intros tok ts Hs Hn.
  assert (forall A (x : A), runs 0 (n - 1) (mret x)) as Hret by (intros; apply runs_ret).
  repeat match goal with |- ok_run _ _ ((if ?b then _ else _) _) => destruct b eqn:? end;
    try (apply runs_throw with (n := n); [apply refusal_parse|done|done]);
    repeat match goal with H : bool_decide _ = true |- _ => apply bool_decide_eq_true in H end;
    (apply (consume_then 0 n); [done|done|(not_end || congruence)|]); intros x; try apply Hret.
  - apply (runs_weaken 1 _ (n - 1)); [|lia..]. apply (runs_bind 1 0); [done|]. intros e.
    apply (runs_weaken 1 _ (n - 1 - 1)); [|lia..]. apply (runs_bind 1 0); [by apply runs_expect|]. intros y. apply runs_ret.
  - apply (runs_bind 0 0); [|intros z; apply runs_ret]. apply runs_lift. intros e. apply stoint_refusal.
    apply stream_inv in Hs as [Hok _]; [|congruence]. unfold token_ok in Hok. by match goal with H : t_type tok = _ |- _ => rewrite H in Hok end.
  - apply (runs_bind 0 0); [|intros z; apply runs_ret]. apply runs_lift. intros e. apply stod_refusal.
    apply stream_inv in Hs as [Hok _]; [|congruence]. unfold token_ok in Hok. by match goal with H : t_type tok = _ |- _ => rewrite H in Hok end.
  - apply runs_name. by apply (runs_weaken 1 _ (n - 1)); [|lia..].
Qed.

Lemma runs_parse_expr fuel : runs 1 fuel (parse_expr fuel).
Proof.
  induction fuel as [|fuel IH]; cbn [parse_expr].
  - intros ts Hs Hn. apply stream_nonempty in Hs. lia.
  - apply runs_levels, runs_primary. by rewrite Nat.sub_1_r.
Qed.

Lemma runs_expr n : runs 1 n ParseExpr.
Proof. intros ts Hs _. by apply runs_parse_expr. Qed.

(** *** Statements *)

Lemma total_bind {A B} d (p : parser A) (f : A -> parser B) : total d p -> (forall x, total 0 (f x)) -> total d (p ≫= f).
Proof. intros Hp Hf n. rewrite <- (Nat.add_0_r d). apply runs_bind; [apply Hp|]. intros x. apply Hf. Qed.
Lemma total_weaken {A} (p : parser A) : total 1 p -> total 0 p.
Proof. intros H n. by apply (runs_weaken 1 _ n); [apply H|lia..]. Qed.
Lemma total_ret {A} (x : A) : total 0 (mret x).
Proof. intros n. apply runs_ret. Qed.
Lemma total_throw {A} d e : refusal e -> total d (throw (A := A) e).
Proof. intros H n. by apply runs_throw. Qed.
Lemma total_check t v : total 0 (Check t v).
Proof. intros n. apply runs_check. Qed.
Lemma total_match t v : t <> END_OF_INPUT -> total 0 (Match t v).
Proof. intros Ht n. by apply runs_match. Qed.
Lemma total_expect t v : t <> END_OF_INPUT -> total 1 (Expect t v).
Proof. intros Ht n. by apply runs_expect. Qed.
Lemma total_expect_value t : t <> END_OF_INPUT -> total 1 (ExpectValue t).
Proof. intros Ht n. by apply runs_expect_value. Qed.
Lemma total_keyword k : total 1 (keyword k).
Proof. by apply total_expect. Qed.
Lemma total_punct k : total 1 (punct k).
Proof. by apply total_expect. Qed.
Lemma total_expr : total 1 ParseExpr.
Proof. intros n. apply runs_expr. Qed.
Lemma total_many {A} g (item : parser A) : total 1 item -> total 0 (many (tok ← Peek; mret (g tok)) item).
Proof. intros H n. by apply runs_many_check. Qed.
Lemma total_comma_list {A} (item : parser A) : total 1 item -> total 1 (comma_list item).
Proof. intros H n. by apply runs_comma_list. Qed.
Lemma total_peek {A} d (f : Token -> parser A) : (forall tok, total d (f tok)) -> total d (Peek ≫= f).
Proof. intros H n. apply runs_peek. intros tok ts Hs Hn. by apply (H tok n). Qed.
Lemma total_consume : total 0 Consume.
Proof.
  intros n [|tok ts] Hs Hn; [inversion Hs|]. unfold Consume. case_decide; [split; [done|lia]|].
  apply stream_inv in Hs as [_ Hs]; [|done]. split; [done|cbn; lia].
Qed.

(** The digits of a literal make [std::stoll] and [std::stoul] total. *)
Lemma total_int {A} d (f : string -> parser A) :
  (forall v, digits v = true -> total 0 (f v)) -> d <= 1 -> total d (ExpectValue INTEGER_LIT ≫= f).
Proof.
  intros Hf Hd n [|tok ts] Hs Hn; [inversion Hs|]. unfold ExpectValue, mbind at 1, parser_bind at 1, mbind at 1, parser_bind at 1.
  rewrite Expect_cons by done. destruct (token_is INTEGER_LIT "" tok) eqn:E; [|apply refusal_parse]. pose proof (token_is_type _ _ _ E) as Ht.
  apply stream_inv in Hs as [Hok Hs]; [|congruence]. unfold token_ok in Hok. rewrite Ht in Hok. cbn.
  apply (ok_run_weaken 0 _ ts); [|cbn; lia]. apply (Hf _ Hok n); [done|cbn in Hn; lia].
Qed.
Lemma total_stoint {A} bound v (f : Z -> parser A) : digits v = true -> (forall z, total 0 (f z)) -> total 0 (lift (stoint bound v) ≫= f).
Proof. intros Hv Hf. apply total_bind; [|done]. intros n. apply runs_lift. intros e. by apply stoint_refusal. Qed.

#[export] Hint Resolve total_ret total_check total_keyword total_punct total_expr total_consume : parser.
#[export] Hint Resolve total_weaken total_comma_list total_many : parser.
#[export] Hint Extern 2 (total _ (Match _ _)) => (apply total_match; discriminate) : parser.
#[export] Hint Extern 2 (total _ (Expect _ _)) => (apply total_expect; discriminate) : parser.
#[export] Hint Extern 2 (total _ (ExpectValue _)) => (apply total_expect_value; discriminate) : parser.
#[export] Hint Extern 2 (total _ (throw _)) => (apply total_throw; apply refusal_parse) : parser.
#[export] Hint Extern 5 (total _ (_ ≫= _)) => (apply total_bind; [|intros ?]) : parser.

(** Through the sequence of a parsing function. *)
Ltac total_step :=
  match goal with
  | |- total _ (if ?b then _ else _) => destruct b
  | |- total _ (match ?x with pair _ _ => _ end) => destruct x
  | |- total _ (Peek ≫= _) => apply total_peek; intros ?
  | |- total _ (ExpectValue INTEGER_LIT ≫= _) => apply total_int; [intros ? ?|lia]
  | |- total _ (lift _ ≫= _) => apply total_stoint; [assumption|intros ?]
  | |- total _ (?p ≫= _) => apply total_bind; [solve [auto 7 with parser]|intros ?]
  | |- total _ (_ ≫= _) => apply total_weaken
  | |- total _ _ => solve [auto 7 with parser]
  end.
Ltac total_auto := repeat (cbv beta; total_step).

Lemma total_paren_list {A} (item : parser A) : total 1 item -> total 1 (paren_list item).
Proof. intros H. unfold paren_list. total_auto. Qed.
#[export] Hint Resolve total_paren_list : parser.

Lemma total_clause {A} k (none : A) (p : parser A) : total 0 p -> total 0 (clause k none p).
Proof. intros H. unfold clause. total_auto. Qed.
#[export] Hint Resolve total_clause : parser.

Lemma total_qualified_name : total 1 ParseQualifiedName.
Proof. unfold ParseQualifiedName. total_auto. Qed.
#[export] Hint Resolve total_qualified_name : parser.

Lemma total_bound_tuple : total 1 ParseBoundTuple.
Proof. unfold ParseBoundTuple. total_auto. Qed.
#[export] Hint Resolve total_bound_tuple : parser.

Lemma total_type_name : total 0 ParseTypeName.
Proof. unfold ParseTypeName. total_auto. destruct (list_find _ _) as [[? []]|]; auto with parser. Qed.
#[export] Hint Resolve total_type_name : parser.

(** A constraint is parsed only in front of its keyword, and takes it. *)
Lemma total_constraints : total 0 (many at_constraint ParseConstraint).
Proof.
  intros n. apply runs_many. intros [|tok ts] Hs Hn; [inversion Hs|].
  change (at_constraint (tok :: ts)) with (@Ok (bool * list Token) (token_is KEYWORD "NOT" tok || token_is KEYWORD "PRIMARY" tok, tok :: ts)).
  destruct (_ || _) eqn:E; [|split; [done|lia]]. unfold ParseConstraint, mbind at 1, parser_bind at 1. rewrite Match_cons by done.
  assert (t_type tok <> END_OF_INPUT) as He by (apply orb_true_iff in E as [E|E]; not_end).
  apply stream_inv in Hs as [_ Hs]; [|done]. cbn [length] in Hn.
  assert (forall k b, total 0 (_ ← keyword k; mret b : parser bool)) as Hk by (intros; total_auto).
  destruct (token_is KEYWORD "NOT" tok).
  - apply (ok_run_weaken 0 _ ts); [|cbn; lia]. apply (Hk _ _ n); [done|lia].
  - cbn [orb] in E. unfold mbind at 1, parser_bind at 1. rewrite Match_cons, E by done.
    apply (ok_run_weaken 0 _ ts); [|cbn; lia]. apply (Hk _ _ n); [done|lia].
Qed.
#[export] Hint Resolve total_constraints : parser.

Lemma total_order_item : total 1 ParseOrderItem.
Proof. unfold ParseOrderItem. total_auto. Qed.
Lemma total_count : total 0 ParseCount.
Proof. unfold ParseCount, stoll. total_auto. Qed.
Lemma total_where : total 0 ParseWhere.
Proof. unfold ParseWhere. apply total_clause. total_auto. Qed.
Lemma total_by {A} (p : parser A) : total 0 p -> total 0 (_ ← keyword "BY"; p).
Proof. intros H. total_auto. Qed.
#[export] Hint Resolve total_order_item total_count total_where total_by : parser.

(** INNER is optional: JOIN and the rest take tokens. *)
Lemma total_join : total 1 ParseJoin.
Proof.
  intros n. apply (runs_bind 0 1); [by apply runs_match|]. intros _.
  enough (total 1 (_ ← keyword "JOIN"; '(s, t) ← ParseQualifiedName; _ ← keyword "ON"; c ← ParseExpr; mret (mkJoin t s c))) as H by apply H.
  total_auto.
Qed.
Lemma total_joins : total 0 (many at_join ParseJoin).
Proof. apply total_many, total_join. Qed.
#[export] Hint Resolve total_joins : parser.

Lemma total_select : total 1 ParseSelect.
Proof. unfold ParseSelect. total_auto. Qed.
Lemma total_set_clause : total 1 ParseSetClause.
Proof. unfold ParseSetClause. total_auto. Qed.
Lemma total_col_def : total 1 ParseColDef.
Proof. unfold ParseColDef. total_auto. Qed.
Lemma total_list_partition : total 1 ParseListPartition.
Proof. unfold ParseListPartition. total_auto. Qed.
#[export] Hint Resolve total_select total_set_clause total_col_def total_list_partition : parser.
Lemma total_partition : total 0 ParsePartition.
Proof. unfold ParsePartition, stoll. total_auto. Qed.
#[export] Hint Resolve total_partition : parser.
Lemma total_insert : total 0 ParseInsert.
Proof.
  unfold ParseInsert. do 3 total_step. destruct x1 as [s t]. do 1 total_step.
  apply total_bind; [destruct x1; total_auto|]. intros cs. total_auto.
Qed.
Lemma total_update : total 0 ParseUpdate.
Proof. unfold ParseUpdate. total_auto. Qed.
Lemma total_delete : total 0 ParseDelete.
Proof. unfold ParseDelete. total_auto. Qed.
Lemma total_create : total 0 ParseCreateTable.
Proof. unfold ParseCreateTable. total_auto. Qed.
Lemma total_drop : total 0 ParseDropTable.
Proof. unfold ParseDropTable. total_auto. Qed.
Lemma total_range_bound : total 1 ParseRangeBound.
Proof. unfold ParseRangeBound. total_auto. Qed.
#[export] Hint Resolve total_range_bound : parser.
Lemma total_alter : total 0 ParseAlterTable.
Proof. unfold ParseAlterTable, stoul. total_auto. Qed.

(** *** The statement and the text *)

Lemma runs_parsed {A} n (f : A -> ParsedStatement) p : total 0 p -> runs 0 n (parsed f p).
Proof. intros Hp. apply (total_bind 0); [done|]. auto with parser. Qed.

Lemma runs_statement fuel : runs 0 fuel (parse_statement fuel).
Proof.
  induction fuel as [|fuel IH]; cbn [parse_statement].
  { intros ts Hs Hn. apply stream_nonempty in Hs. lia. }
  apply runs_peek. intros tok ts Hs Hn. assert (runs 0 (S fuel) (dispatch (parse_statement fuel) tok)) as H; [|by apply H].
  unfold dispatch. repeat match goal with |- runs _ _ (if ?b then _ else _) => destruct b end;
    try (apply runs_parsed; first [apply total_weaken, total_select|apply total_insert|apply total_update|apply total_delete|
           apply total_create|apply total_drop|apply total_alter]);
    try (apply (total_bind 0); solve [auto with parser]).
  - apply (runs_weaken 1 _ (S fuel)); [|lia..]. apply (runs_bind 1 0); [by apply runs_expect|]. intros _.
    apply (runs_bind 0 0); [by apply runs_match|]. intros b. rewrite Nat.sub_0_r, Nat.sub_1_r.
    apply (runs_bind 0 0); [done|]. intros x. apply runs_ret.
  - apply runs_throw, refusal_parse.
Qed.

Lemma Parse_total ts : stream ts -> match Parse ts with Ok _ => True | Err e => refusal e end.
Proof.
  intros Hs. unfold Parse. set (p := ParseStatement ≫= _).
  assert (ok_run 0 ts (p ts)) as Hp; [|by destruct (p ts) as [[]|]].
  apply (ok_run_bind 0 0 (length ts)); [by apply runs_statement|done|]. intros stmt.
  enough (total 0 (_ ← Match PUNCTUATION ";"; tok ← Peek;
    if token_is END_OF_INPUT "" tok then mret stmt
    else throw (ParseError ("unexpected trailing token '" +:+ t_value tok +:+ "'") (Some (t_pos tok))) : parser ParsedStatement)) as H
    by apply H.
  total_auto.
Qed.

(** C35: the tokenizer and the parser are total: for every text they return a
    statement, throw a [ParseError], or throw [std::out_of_range] for a number
    that does not fit; no loop runs forever and no token is read behind the last
    one. *)
Theorem parse_terminates (sql : string) :
  (exists stmt, ParseSQL sql = Ok stmt) \/ (exists msg p, ParseSQL sql = Err (ParseError msg p)) \/ ParseSQL sql = Err StdOutOfRange.
Proof.
  unfold ParseSQL. destruct (Tokenize_total sql) as [(ts & -> & Hs)|(msg & p & ->)]; cbn [mbind result_bind]; [|by eauto].
  pose proof (Parse_total ts Hs) as Hp. destruct (Parse ts) as [stmt|e]; [by eauto|]. right. destruct Hp as [(msg & p & ->)| ->]; eauto.
Qed.
