(* ===== verification/Grammar.v ===== *)
(** * The grammar of expressions

    A declarative grammar with the precedences and associativities that
    [parser/parser.hpp] announces ("lowest to highest precedence"), the theorem
    that [ParseExpr] accepts exactly its expressions, and a printer whose output
    is read back. *)

From Stdlib Require Import ZArith String Ascii.
From stdpp Require Import base strings list sets.
From S2P Require Import Prelude Types Ast Tokenizer Parser.

(** ** Levels

    0 primary, 1 unary minus, 2 multiplicative, 3 additive, 4 comparison, 5 NOT,
    6 AND, 7 OR. *)

(** The operators between expressions of level [k], and the name of their node. *)
Definition bin_test (k : nat) : Token -> bool :=
  match k with
  | 2 => is_operator ["*"; "/"]%string
  | 3 => is_operator ["+"; "-"]%string
  | 4 => is_operator ["="; "<"; ">"; "<="; ">="; "<>"]%string
  | 6 => token_is KEYWORD "AND"
  | 7 => token_is KEYWORD "OR"
  | _ => fun _ => false
  end.
Definition bin_name (k : nat) : Token -> string :=
  match k with 6 => fun _ => "AND"%string | 7 => fun _ => "OR"%string | _ => t_value end.

(** The operators in front of an expression of level [k]. *)
Definition pre_test (k : nat) : Token -> bool :=
  match k with 1 => token_is OPERATOR "-" | 5 => token_is KEYWORD "NOT" | _ => fun _ => false end.
Definition pre_name (k : nat) : string := match k with 1 => "-" | _ => "NOT" end.

(** Binary operators associate to the left; prefix operators repeat. *)
Inductive derives : nat -> list Token -> Expr -> Prop :=
  | d_up k ts e : derives k ts e -> k < 7 -> derives (S k) ts e
  | d_binary k l op r el er :
      bin_test (S k) op = true -> derives (S k) l el -> derives k r er ->
      derives (S k) (l ++ op :: r) (BinaryOpExpr (bin_name (S k) op) el er)
  | d_prefix k op ts e :
      pre_test (S k) op = true -> derives (S k) ts e -> derives (S k) (op :: ts) (UnaryOpExpr (pre_name (S k)) e)
  | d_paren o ts c e :
      token_is PUNCTUATION "(" o = true -> derives 7 ts e -> token_is PUNCTUATION ")" c = true -> derives 0 (o :: ts ++ [c]) e
  | d_star t : token_is OPERATOR "*" t = true -> derives 0 [t] StarExpr
  | d_integer t z : t_type t = INTEGER_LIT -> stoll (t_value t) = Ok z -> derives 0 [t] (IntegerLitExpr z)
  | d_float t b : t_type t = FLOAT_LIT -> stod (t_value t) = Ok b -> derives 0 [t] (FloatLitExpr b)
  | d_string t : t_type t = STRING_LIT -> derives 0 [t] (StringLitExpr (t_value t))
  | d_true t : token_is KEYWORD "TRUE" t = true -> derives 0 [t] (BoolLitExpr true)
  | d_false t : token_is KEYWORD "FALSE" t = true -> derives 0 [t] (BoolLitExpr false)
  | d_null t : token_is KEYWORD "NULL" t = true -> derives 0 [t] NullLitExpr
  | d_column t : t_type t = IDENTIFIER -> derives 0 [t] (ColumnRefExpr "" (t_value t))
  | d_qualified t d c :
      t_type t = IDENTIFIER -> token_is PUNCTUATION "." d = true -> t_type c = IDENTIFIER ->
      derives 0 [t; d; c] (ColumnRefExpr (t_value t) (t_value c))
  | d_call_empty t o c :
      t_type t = IDENTIFIER -> token_is PUNCTUATION "(" o = true -> token_is PUNCTUATION ")" c = true ->
      derives 0 [t; o; c] (FunctionCallExpr (upper (t_value t)) [] false)
  | d_call_star t o s c :
      t_type t = IDENTIFIER -> token_is PUNCTUATION "(" o = true -> token_is OPERATOR "*" s = true -> token_is PUNCTUATION ")" c = true ->
      derives 0 [t; o; s; c] (FunctionCallExpr (upper (t_value t)) [] true)
  | d_call t o a ts c args :
      t_type t = IDENTIFIER -> token_is PUNCTUATION "(" o = true -> token_is OPERATOR "*" a = false ->
      derives_args (a :: ts) args -> token_is PUNCTUATION ")" c = true ->
      derives 0 (t :: o :: (a :: ts) ++ [c]) (FunctionCallExpr (upper (t_value t)) args false)
with derives_args : list Token -> list Expr -> Prop :=
  | da_one ts e : derives 7 ts e -> derives_args ts [e]
  | da_cons ts e c ts' es :
      derives 7 ts e -> token_is PUNCTUATION "," c = true -> derives_args ts' es -> derives_args (ts ++ c :: ts') (e :: es).

Scheme derives_mut := Minimality for derives Sort Prop with derives_args_mut := Minimality for derives_args Sort Prop.

(** ** The levels of the parser *)

Definition is_binary (k : nat) : bool := match k with 2 | 3 | 4 | 6 | 7 => true | _ => false end.

(** The parser of level [k]. *)
Fixpoint level (k : nat) (prim : parser Expr) : parser Expr :=
  match k with
  | 0 => prim
  | S k' =>
      if is_binary k then binary (bin_test k) (bin_name k) (level k' prim) else prefix (pre_test k) (pre_name k) (level k' prim)
  end.

Lemma levels_level prim : levels prim = level 7 prim.
Proof. done. Qed.

(** *** Soundness *)

Definition sound (k : nat) (p : parser Expr) : Prop :=
  forall ts e rest, p ts = Ok (e, rest) -> exists pre, ts = pre ++ rest /\ derives k pre e.

Lemma bind_inv {A B} (p : parser A) (f : A -> parser B) ts r :
  (p ≫= f) ts = Ok r -> exists x ts', p ts = Ok (x, ts') /\ f x ts' = Ok r.
Proof. unfold mbind, parser_bind. destruct (p ts) as [[x ts']|e]; [|done]. eauto. Qed.

Lemma Peek_inv {A} (f : Token -> parser A) ts r :
  (Peek ≫= f) ts = Ok r -> exists tok ts', ts = tok :: ts' /\ f tok ts = Ok r.
Proof. destruct ts as [|tok ts']; [done|]. intros H. by exists tok, ts'. Qed.

Lemma Consume_inv {A} (f : Token -> parser A) tok ts r :
  t_type tok <> END_OF_INPUT -> (Consume ≫= f) (tok :: ts) = Ok r -> f tok ts = Ok r.
Proof. intros He H. unfold mbind, parser_bind, Consume in H. by rewrite decide_False in H by done. Qed.

Lemma Expect_inv {A} t v (f : Token -> parser A) ts r :
  t <> END_OF_INPUT -> (Expect t v ≫= f) ts = Ok r -> exists tok ts', ts = tok :: ts' /\ token_is t v tok = true /\ f tok ts' = Ok r.
Proof.
  intros Ht H. destruct ts as [|tok ts]; [done|]. unfold mbind, parser_bind in H. rewrite Expect_cons in H by done.
  destruct (token_is t v tok) eqn:E; [|done]. by exists tok, ts.
Qed.

Lemma Match_inv {A} t v (f : bool -> parser A) ts r :
  t <> END_OF_INPUT -> (Match t v ≫= f) ts = Ok r -> exists tok ts', ts = tok :: ts' /\
    if token_is t v tok then f true ts' = Ok r else f false ts = Ok r.
Proof.
  intros Ht H. destruct ts as [|tok ts]; [done|]. unfold mbind, parser_bind in H. rewrite Match_cons in H by done.
  exists tok, ts. split; [done|]. by destruct (token_is t v tok).
Qed.

Lemma bin_test_not_end k tok : bin_test k tok = true -> t_type tok <> END_OF_INPUT.
Proof. do 8 (destruct k as [|k]; [cbn [bin_test]; intros H; first [done|by apply is_operator_not_end in H|not_end]|]). done. Qed.

Lemma pre_test_not_end k tok : pre_test k tok = true -> t_type tok <> END_OF_INPUT.
Proof. do 6 (destruct k as [|k]; [cbn [pre_test]; intros H; first [done|not_end]|]). done. Qed.

Lemma binary_loop_sound k operand : sound k operand ->
  forall fuel l el ts e rest, derives (S k) l el -> binary_loop fuel (bin_test (S k)) (bin_name (S k)) operand el ts = Ok (e, rest) ->
    exists pre, l ++ ts = pre ++ rest /\ derives (S k) pre e.
Proof.
  intros Ho. induction fuel as [|fuel IH]; intros l el ts e rest Hl H; [done|]. cbn [binary_loop] in H.
  apply Peek_inv in H as (tok & ts' & -> & H). destruct (bin_test (S k) tok) eqn:E.
  - apply Consume_inv in H; [|by eapply bin_test_not_end]. apply bind_inv in H as (er & ts2 & Hr & H).
    apply Ho in Hr as (r & -> & Hr). apply (IH (l ++ tok :: r)) in H as (pre & Heq & Hd); [|by apply d_binary].
    exists pre. split; [|done]. rewrite <- Heq, <- app_assoc. done.
  - injection H as <- <-. by exists l.
Qed.

Lemma prefix_loop_sound k operand : k < 7 -> sound k operand ->
  forall fuel, sound (S k) (prefix_loop fuel (pre_test (S k)) (pre_name (S k)) operand).
Proof.
  intros Hk Ho. induction fuel as [|fuel IH]; intros ts e rest H; [done|]. cbn [prefix_loop] in H.
  apply Peek_inv in H as (tok & ts' & -> & H). destruct (pre_test (S k) tok) eqn:E.
  - apply Consume_inv in H; [|by eapply pre_test_not_end]. apply bind_inv in H as (x & ts2 & Hx & H). injection H as <- <-.
    apply IH in Hx as (pre & -> & Hd). exists (tok :: pre). split; [done|]. by apply d_prefix.
  - apply Ho in H as (pre & -> & Hd). exists pre. split; [done|]. by apply d_up.
Qed.

Lemma level_sound k prim : k <= 7 -> sound 0 prim -> sound k (level k prim).
Proof.
  intros Hk Hp. induction k as [|k IH]; [done|]. specialize (IH ltac:(lia)). cbn [level]. destruct (is_binary (S k)).
  - intros ts e rest H. apply bind_inv in H as (el & ts1 & Hl & H). apply IH in Hl as (l & -> & Hl).
    eapply binary_loop_sound; [exact IH| |exact H]. by apply d_up.
  - intros ts e rest. by apply prefix_loop_sound.
Qed.

Lemma many_args_sound pe fuel ts es rest :
  sound 7 pe -> many_fuel fuel (Match PUNCTUATION ",") pe ts = Ok (es, rest) ->
  (es = [] /\ ts = rest) \/ exists c pre, token_is PUNCTUATION "," c = true /\ ts = c :: pre ++ rest /\ derives_args pre es.
Proof.
  intros Hpe. revert ts es rest; induction fuel as [|fuel IH]; intros ts es rest H; [done|]. cbn [many_fuel] in H.
  apply Match_inv in H as (tok & ts' & -> & H); [|done]. destruct (token_is PUNCTUATION "," tok) eqn:E.
  - right. apply bind_inv in H as (x & ts1 & Hx & H). apply bind_inv in H as (xs & ts2 & Hxs & H). injection H as <- <-.
    apply Hpe in Hx as (pre & -> & Hd). apply IH in Hxs as [[-> ->]|(c & pre' & Hc & -> & Hd')].
    + exists tok, pre. split_and!; [done..|]. by apply da_one.
    + exists tok, (pre ++ c :: pre'). split_and!; [done|by rewrite <- app_assoc|]. by apply da_cons.
  - left. injection H as <- <-. done.
Qed.

Lemma comma_list_sound pe ts es rest :
  sound 7 pe -> comma_list pe ts = Ok (es, rest) -> exists pre, ts = pre ++ rest /\ derives_args pre es.
Proof.
  intros Hpe H. apply bind_inv in H as (x & ts1 & Hx & H). apply bind_inv in H as (xs & ts2 & Hxs & H). injection H as <- <-.
  apply Hpe in Hx as (pre & -> & Hd). apply many_args_sound in Hxs as [[-> ->]|(c & pre' & Hc & -> & Hd')]; [| |done].
  - exists pre. split; [done|by apply da_one].
  - exists (pre ++ c :: pre'). split; [by rewrite <- app_assoc|by apply da_cons].
Qed.

(** Every expression starts with a token. *)
Lemma derives_cons k ts e : derives k ts e -> ts <> [].
Proof. induction 1; try done. intros [? ?]%app_eq_nil. done. Qed.

Lemma derives_args_cons ts es : derives_args ts es -> ts <> [].
Proof. intros [? ? H|? ? ? ? ? H]; apply derives_cons in H; [done|]. by destruct ts0. Qed.

Lemma token_is_any t tok : token_is t "" tok = true <-> t_type tok = t.
Proof. unfold token_is. by case_bool_decide. Qed.

Lemma name_sound pe t ts e rest :
  sound 7 pe -> t_type t = IDENTIFIER -> ParseName pe (t_value t) ts = Ok (e, rest) ->
  exists pre, t :: ts = pre ++ rest /\ derives 0 pre e.
Proof.
  intros Hpe Ht H. apply Peek_inv in H as (tok & ts' & -> & H). destruct (token_is PUNCTUATION "(" tok) eqn:E1.
  - apply Consume_inv in H; [|not_end]. apply bind_inv in H as ([args star] & ts2 & Ha & H).
    apply Expect_inv in H as (c & ts3 & -> & Hc & H); [|done]. injection H as <- <-.
    apply Peek_inv in Ha as (a & ts4 & -> & Ha). destruct (token_is PUNCTUATION ")" a) eqn:E2.
    { injection Ha as <- <- <- <-. exists [t; tok; a]. split; [done|by constructor]. }
    destruct (token_is OPERATOR "*" a) eqn:E3.
    { apply Consume_inv in Ha; [|not_end]. injection Ha as <- <- ->. exists [t; tok; a; c]. split; [done|by constructor]. }
    apply bind_inv in Ha as (es & ts5 & Ha & H). injection H as <- <- ->. apply comma_list_sound in Ha as (pre & Heq & Hd); [|done].
    destruct pre as [|a' pre]; [by apply derives_args_cons in Hd|]. injection Heq as <- ->.
    exists (t :: tok :: (a :: pre) ++ [c]). split; [by rewrite <- !app_comm_cons, <- app_assoc|by apply d_call].
  - destruct (token_is PUNCTUATION "." tok) eqn:E2.
    + apply Consume_inv in H; [|not_end]. apply bind_inv in H as (col & ts2 & Hc & H). injection H as <- <-.
      apply Expect_inv in Hc as (c & ts3 & -> & Hc & H); [|done]. injection H as <- <-.
      exists [t; tok; c]. split; [done|]. apply d_qualified; [done|done|by apply token_is_any].
    + injection H as <- <-. exists [t]. split; [done|by apply d_column].
Qed.

Lemma primary_sound pe : sound 7 pe -> sound 0 (ParsePrimary pe).
Proof.
  intros Hpe ts e rest H. apply Peek_inv in H as (tok & ts' & -> & H).
  repeat match type of H with (if ?b then _ else _) _ = _ => destruct b eqn:? end; try done;
    repeat match goal with H : bool_decide _ = true |- _ => apply bool_decide_eq_true in H end;
    (apply Consume_inv in H; [|first [not_end|congruence]]).
  - apply bind_inv in H as (x & ts2 & Hx & H). apply Expect_inv in H as (c & ts3 & -> & Hc & H); [|done]. injection H as <- <-.
    apply Hpe in Hx as (pre & -> & Hd). exists (tok :: pre ++ [c]). split; [by rewrite <- app_comm_cons, <- app_assoc|by apply d_paren].
  - injection H as <- <-. exists [tok]. split; [done|by constructor].
  - apply bind_inv in H as (z & ts2 & Hz & H). injection H as <- <-. unfold lift in Hz. apply bind_Ok_inv in Hz as (z' & Hz & [= <- <-]).
    exists [tok]. split; [done|by constructor].
  - apply bind_inv in H as (z & ts2 & Hz & H). injection H as <- <-. unfold lift in Hz. apply bind_Ok_inv in Hz as (z' & Hz & [= <- <-]).
    exists [tok]. split; [done|by constructor].
  - injection H as <- <-. exists [tok]. split; [done|by constructor].
  - injection H as <- <-. exists [tok]. split; [done|by constructor].
  - injection H as <- <-. exists [tok]. split; [done|by constructor].
  - injection H as <- <-. exists [tok]. split; [done|by constructor].
  - by apply name_sound in H.
Qed.

Lemma parse_expr_sound fuel : sound 7 (parse_expr fuel).
Proof. induction fuel as [|fuel IH]; [done|]. cbn [parse_expr]. rewrite levels_level. by apply level_sound, primary_sound. Qed.

Lemma ParseExpr_sound ts e rest : ParseExpr ts = Ok (e, rest) -> exists pre, ts = pre ++ rest /\ derives 7 pre e.
Proof. apply parse_expr_sound. Qed.

(** *** Completeness *)

(** The token behind an expression of level [k] does not continue it. *)
Definition follow (k : nat) (rest : list Token) : Prop :=
  exists tok rest', rest = tok :: rest' /\ (forall j, j <= k -> bin_test j tok = false) /\
    token_is PUNCTUATION "(" tok = false /\ token_is PUNCTUATION "." tok = false.

Lemma follow_le j k rest : j <= k -> follow k rest -> follow j rest.
Proof. intros Hj (tok & rest' & -> & Hb & H). exists tok, rest'. split_and!; [done| |by apply H..]. intros i Hi. apply Hb. lia. Qed.

(** A token that passes one test fails another. *)
Definition clash (t : TokenType) (v : string) (t' : TokenType) (v' : string) : bool :=
  negb (bool_decide (t = t')) ||
  (negb (String.eqb v "") && negb (String.eqb v' "") && negb (if bool_decide (t = KEYWORD) then String.eqb (upper v) (upper v') else String.eqb v v')).

Lemma token_is_clash t v t' v' tok : clash t v t' v' = true -> token_is t v tok = true -> token_is t' v' tok = false.
Proof.
  unfold clash, token_is. intros Hc H. destruct (bool_decide_reflect (t_type tok = t)) as [Ht|]; [|done]. cbn [negb] in H.
  destruct (bool_decide_reflect (t_type tok = t')) as [Ht'|]; [|done]. cbn [negb]. rewrite bool_decide_true in Hc by congruence. cbn [negb orb] in Hc.
  assert (t' = t) as -> by congruence. apply andb_true_iff in Hc as [[Hv Hv']%andb_true_iff Hc]. apply negb_true_iff in Hv, Hv', Hc.
  rewrite Hv in H. rewrite Hv'. destruct (bool_decide (t = KEYWORD)).
  - apply String.eqb_eq in H. rewrite H. done.
  - apply String.eqb_eq in H. rewrite H. done.
Qed.

Lemma type_clash t t' v' tok : t_type tok = t -> bool_decide (t = t') = false -> token_is t' v' tok = false.
Proof. intros <- H. unfold token_is. by rewrite H. Qed.

Ltac clash :=
  match goal with
  | H : token_is _ _ ?tok = true |- token_is _ _ ?tok = false => refine (token_is_clash _ _ _ _ _ _ H); vm_compute; reflexivity
  | H : t_type ?tok = _ |- token_is _ _ ?tok = false => refine (type_clash _ _ _ _ H _); vm_compute; reflexivity
  end.

(** The first token is no prefix operator of a higher level. *)
Lemma derives_head k ts e :
  derives k ts e -> exists tok ts', ts = tok :: ts' /\ (k <= 4 -> pre_test 5 tok = false) /\ (k = 0 -> pre_test 1 tok = false).
Proof.
  induction 1 as [k ts e Hd (tok & ts' & -> & H5 & H1) Hk|k l op r el er Hop Hl (tok & l' & -> & H5 & H1) Hr _|k op ts e Hop Hd _| | | | | | | | | | | | |];
    try (eexists _, _; split_and!; [reflexivity|intros _; cbn [pre_test]; clash|intros _; cbn [pre_test]; clash]).
  - exists tok, ts'. split_and!; [done|intros; apply H5; lia|done].
  - exists tok, (l' ++ op :: r). split_and!; [done|intros; apply H5; lia|done].
  - exists op, ts. split_and!; [done| |done]. intros Hk. destruct k as [|k]; [cbn [pre_test] in *; clash|].
    do 3 (destruct k as [|k]; [done|]). lia.
Qed.

Lemma Peek_run {A} (f : Token -> parser A) tok ts : (Peek ≫= f) (tok :: ts) = f tok (tok :: ts).
Proof. done. Qed.
Lemma bind_run {A B} (p : parser A) (f : A -> parser B) ts x ts' : p ts = Ok (x, ts') -> (p ≫= f) ts = f x ts'.
Proof. intros H. unfold mbind, parser_bind. by rewrite H. Qed.
Lemma Consume_run {A} (f : Token -> parser A) tok ts : t_type tok <> END_OF_INPUT -> (Consume ≫= f) (tok :: ts) = f tok ts.
Proof. intros H. apply bind_run. unfold Consume. by rewrite decide_False by done. Qed.
Lemma Expect_run {A} t v (f : Token -> parser A) tok ts :
  t <> END_OF_INPUT -> token_is t v tok = true -> (Expect t v ≫= f) (tok :: ts) = f tok ts.
Proof. intros Ht H. apply bind_run. by rewrite Expect_cons, H by done. Qed.
Lemma Match_run {A} t v (f : bool -> parser A) tok ts :
  t <> END_OF_INPUT -> (Match t v ≫= f) (tok :: ts) = if token_is t v tok then f true ts else f false (tok :: ts).
Proof. intros Ht. unfold mbind, parser_bind. rewrite Match_cons by done. by destruct (token_is t v tok). Qed.

Definition primary (f : nat) : parser Expr := ParsePrimary (parse_expr f).

(** With a derivation of [pre], the parser of level [k] gets to [rest]: the loop
    of a binary level is left there with its accumulator. *)
Definition reaches (k f : nat) (pre : list Token) (e : Expr) : Prop :=
  forall rest, length (pre ++ rest) <= S f ->
  match k with
  | 0 => follow 0 rest -> primary f (pre ++ rest) = Ok (e, rest)
  | S k' =>
      if is_binary k then
        follow k' rest -> exists fuel, S (length rest) <= fuel /\
          level k (primary f) (pre ++ rest) = binary_loop fuel (bin_test k) (bin_name k) (level k' (primary f)) e rest
      else
        forall fuel, S (length (pre ++ rest)) <= fuel -> follow k rest ->
          prefix_loop fuel (pre_test k) (pre_name k) (level k' (primary f)) (pre ++ rest) = Ok (e, rest)
  end.

Lemma reaches_level k f pre e rest :
  reaches k f pre e -> length (pre ++ rest) <= S f -> follow k rest -> level k (primary f) (pre ++ rest) = Ok (e, rest).
Proof.
  intros H Hn Hf. specialize (H rest Hn). destruct k as [|k]; [by apply H|]. cbn [level] in *. destruct (is_binary (S k)) eqn:Ek.
  - destruct H as (fuel & Hfuel & ->); [by apply (follow_le k (S k)); [lia|]|]. destruct fuel as [|fuel]; [lia|].
    destruct Hf as (tok & rest' & -> & Hb & _). cbn [binary_loop]. rewrite Peek_run, (Hb (S k)) by done. done.
  - by apply H.
Qed.

Lemma reaches_expr f pre e rest :
  (forall f, reaches 7 f pre e) -> pre <> [] -> length (pre ++ rest) <= f -> follow 7 rest -> parse_expr f (pre ++ rest) = Ok (e, rest).
Proof.
  intros H Hne Hn Hf. destruct f as [|f]; [destruct pre; [done|cbn in Hn; lia]|]. cbn [parse_expr]. rewrite levels_level.
  by apply reaches_level.
Qed.

Lemma many_more {A} g (item : parser A) fuel fuel' ts r :
  many_fuel fuel g item ts = Ok r -> fuel <= fuel' -> many_fuel fuel' g item ts = Ok r.
Proof.
  revert fuel' ts r. induction fuel as [|fuel IH]; intros fuel' ts r H Hle; [done|]. destruct fuel' as [|fuel']; [lia|].
  cbn [many_fuel] in *. apply bind_inv in H as (b & ts1 & Hb & H). rewrite (bind_run _ _ _ _ _ Hb). destruct b; [|done].
  apply bind_inv in H as (x & ts2 & Hx & H). rewrite (bind_run _ _ _ _ _ Hx). apply bind_inv in H as (xs & ts3 & Hxs & H).
  rewrite (bind_run _ _ _ _ _ (IH fuel' _ _ Hxs ltac:(lia))). done.
Qed.

(** The arguments up to a closing parenthesis. *)
Definition reaches_args (f : nat) (pre : list Token) (es : list Expr) : Prop :=
  forall c rest, token_is PUNCTUATION ")" c = true -> length (pre ++ c :: rest) <= f ->
  exists e es' mid fuel, es = e :: es' /\ parse_expr f (pre ++ c :: rest) = Ok (e, mid) /\ length mid <= length (pre ++ c :: rest) /\
    fuel <= S (length mid) /\ many_fuel fuel (Match PUNCTUATION ",") (parse_expr f) mid = Ok (es', c :: rest).

Lemma follow_punct k t rest : t_type t = PUNCTUATION -> token_is PUNCTUATION "(" t = false -> token_is PUNCTUATION "." t = false -> follow k (t :: rest).
Proof.
  intros Ht H1 H2. exists t, rest. split_and!; [done| |done..]. intros j _.
  do 8 (destruct j as [|j]; [cbn [bin_test]; unfold is_operator, token_is; cbn [existsb]; rewrite ?Ht; done|]). done.
Qed.

Lemma reaches_comma_list f pre es c rest :
  reaches_args f pre es -> token_is PUNCTUATION ")" c = true -> length (pre ++ c :: rest) <= f ->
  comma_list (parse_expr f) (pre ++ c :: rest) = Ok (es, c :: rest).
Proof.
  intros H Hc Hn. destruct (H c rest Hc Hn) as (e & es' & mid & fuel & -> & He & Hm & Hfuel & Hes). unfold comma_list.
  rewrite (bind_run _ _ _ _ _ He). assert (many (Match PUNCTUATION ",") (parse_expr f) mid = Ok (es', c :: rest)) as Hm'
    by exact (many_more _ _ _ (S (length mid)) _ _ Hes Hfuel).
  by rewrite (bind_run _ _ _ _ _ Hm').
Qed.

Lemma reaches_up k f pre e : k < 7 -> derives k pre e -> reaches k f pre e -> reaches (S k) f pre e.
Proof.
  intros Hk Hd H rest Hn. destruct (is_binary (S k)) eqn:Eb.
  - intros Hf. pose proof (reaches_level k f pre e rest H Hn Hf) as Hp. exists (S (length rest)). split; [done|].
    cbn [level]. rewrite Eb. unfold binary. by rewrite (bind_run _ _ _ _ _ Hp).
  - intros fuel Hfuel Hf. apply (follow_le k) in Hf; [|lia]. pose proof (reaches_level k f pre e rest H Hn Hf) as Hp.
    destruct fuel as [|fuel]; [lia|]. cbn [prefix_loop]. destruct (derives_head k pre e Hd) as (tok & ts & -> & H5 & H1).
    rewrite <- app_comm_cons in *. rewrite Peek_run.
    assert (pre_test (S k) tok = false) as ->; [|done].
    destruct k as [|k]; [by apply H1|]. do 3 (destruct k as [|k]; [done|]). destruct k as [|k]; [apply H5; lia|]. done.
Qed.

(** An operator belongs to one level. *)
Definition op_level (tok : Token) : nat :=
  match t_type tok with
  | KEYWORD => if String.eqb (upper (t_value tok)) "AND" then 6 else 7
  | _ => if String.eqb (t_value tok) "*" || String.eqb (t_value tok) "/" then 2
         else if String.eqb (t_value tok) "+" || String.eqb (t_value tok) "-" then 3 else 4
  end.

Lemma is_operator_spec ops tok : "" ∉ ops -> is_operator ops tok = true -> t_type tok = OPERATOR /\ t_value tok ∈ ops.
Proof.
  intros Hne H. apply existsb_exists in H as (op & Hin & H). apply list_elem_of_In in Hin. split; [by apply token_is_type in H|].
  unfold token_is in H. destruct (bool_decide _); [|done]. cbn in H. destruct (String.eqb_spec op "") as [->|]; [done|].
  apply String.eqb_eq in H. by rewrite H.
Qed.

Lemma bin_test_level k tok : bin_test k tok = true -> op_level tok = k.
Proof.
  assert (forall ops, "" ∉ ops -> is_operator ops tok = true ->
    Forall (fun v => op_level (mkToken OPERATOR v 0) = k) ops -> op_level tok = k) as Hops.
  { intros ops Hne H Hall. apply is_operator_spec in H as [Ht Hv]; [|done]. rewrite Forall_forall in Hall. apply Hall in Hv.
    unfold op_level in *. by rewrite Ht. }
  assert (forall v, v <> ""%string -> token_is KEYWORD v tok = true -> t_type tok = KEYWORD /\ upper (t_value tok) = upper v) as Hkw.
  { intros v Hv H. split; [by apply token_is_type in H|]. unfold token_is in H. destruct (bool_decide (t_type tok = KEYWORD)); [|done].
    cbn in H. destruct (String.eqb_spec v ""); [done|]. by apply String.eqb_eq in H. }
  destruct k as [|[|[|[|[|[|[|[|k]]]]]]]]; try done; cbn [bin_test]; intros H.
  - eapply Hops; [|exact H|]; [set_solver|repeat constructor].
  - eapply Hops; [|exact H|]; [set_solver|repeat constructor].
  - eapply Hops; [|exact H|]; [set_solver|repeat constructor].
  - apply Hkw in H as [Ht Hv]; [|done]. unfold op_level. by rewrite Ht, Hv.
  - apply Hkw in H as [Ht Hv]; [|done]. unfold op_level. by rewrite Ht, Hv.
Qed.

Lemma bin_test_type k op : bin_test k op = true -> t_type op <> PUNCTUATION.
Proof.
  intros H Ht. assert (forall ops, is_operator ops op = false) as Hn.
  { intros ops. destruct (is_operator ops op) eqn:E; [|done]. apply existsb_exists in E as (v & _ & E). apply token_is_type in E. congruence. }
  destruct k as [|[|[|[|[|[|[|[|k]]]]]]]]; try done; cbn [bin_test] in H; rewrite ?Hn in H; try done; apply token_is_type in H; congruence.
Qed.

Lemma bin_test_follow k op rest : bin_test (S k) op = true -> follow k (op :: rest).
Proof.
  intros H. exists op, rest. pose proof (bin_test_type _ _ H) as Ht. split_and!; [done| |unfold token_is; by rewrite bool_decide_false..].
  intros j Hj. destruct (bin_test j op) eqn:E; [|done]. apply bin_test_level in H, E. lia.
Qed.

Lemma reaches_binary k f l op r el er :
  bin_test (S k) op = true -> reaches (S k) f l el -> reaches k f r er ->
  reaches (S k) f (l ++ op :: r) (BinaryOpExpr (bin_name (S k) op) el er).
Proof.
  intros Hop Hl Hr rest Hn. assert (is_binary (S k) = true) as Eb by (do 7 (destruct k as [|k]; [done|]); done).
  rewrite Eb. intros Hf. specialize (Hl (op :: r ++ rest)). rewrite Eb in Hl. rewrite <- app_assoc, <- app_comm_cons in Hn |- *.
  destruct Hl as (fuel & Hfuel & Hl); [done|by apply bin_test_follow|]. rewrite Hl. destruct fuel as [|fuel]; [lia|].
  cbn [length] in Hfuel. rewrite length_app in Hn, Hfuel. cbn [length] in Hn. rewrite length_app in Hn. exists fuel. split; [lia|].
  cbn [binary_loop]. rewrite Peek_run, Hop, Consume_run by (by eapply bin_test_not_end).
  assert (level k (primary f) (r ++ rest) = Ok (er, rest)) as Hp by (apply reaches_level; [done|rewrite length_app; lia|done]).
  by rewrite (bind_run _ _ _ _ _ Hp).
Qed.

Lemma reaches_prefix k f op ts e :
  pre_test (S k) op = true -> reaches (S k) f ts e -> reaches (S k) f (op :: ts) (UnaryOpExpr (pre_name (S k)) e).
Proof.
  intros Hop H rest Hn. assert (is_binary (S k) = false) as Eb by (do 7 (destruct k as [|k]; [done|]); done).
  rewrite Eb. intros fuel Hfuel Hf. rewrite <- app_comm_cons in *. cbn [length] in *. specialize (H rest ltac:(lia)). rewrite Eb in H.
  destruct fuel as [|fuel]; [lia|]. cbn [prefix_loop]. rewrite Peek_run, Hop, Consume_run by (by eapply pre_test_not_end).
  by rewrite (bind_run _ _ _ _ _ (H fuel ltac:(lia) Hf)).
Qed.

(** A primary expression of one token. *)
Ltac primary_run :=
  intros rest Hn Hf; unfold primary, ParsePrimary; cbn [app]; rewrite Peek_run;
  repeat match goal with
  | H : token_is ?t ?v ?tok = true |- context [token_is ?t ?v ?tok] => rewrite H
  | |- context [token_is ?t ?v ?tok] => replace (token_is t v tok) with false by (symmetry; clash)
  | H : t_type ?tok = _ |- context [t_type ?tok] => rewrite H
  | H : token_is _ _ ?tok = true |- context [t_type ?tok] => rewrite (token_is_type _ _ _ H)
  end;
  repeat match goal with |- context [bool_decide (?a = ?b)] => let v := eval vm_compute in (bool_decide (a = b)) in change (bool_decide (a = b)) with v end;
  cbn iota.

Lemma follow_not rest k tok rest' : follow k rest -> rest = tok :: rest' ->
  token_is PUNCTUATION "(" tok = false /\ token_is PUNCTUATION "." tok = false.
Proof. intros (t & r & -> & _ & H) [= -> ->]. exact H. Qed.

Lemma reaches_call f t ts e :
  t_type t = IDENTIFIER ->
  (forall rest, length (t :: ts ++ rest) <= S f -> follow 0 rest -> ParseName (parse_expr f) (t_value t) (ts ++ rest) = Ok (e, rest)) ->
  reaches 0 f (t :: ts) e.
Proof. intros Ht H. primary_run. rewrite Consume_run by congruence. by apply H. Qed.

Lemma reaches_primary_args f t o a ts c args :
  t_type t = IDENTIFIER -> token_is PUNCTUATION "(" o = true -> token_is OPERATOR "*" a = false ->
  token_is PUNCTUATION ")" a = false -> reaches_args f (a :: ts) args -> token_is PUNCTUATION ")" c = true ->
  reaches 0 f (t :: o :: (a :: ts) ++ [c]) (FunctionCallExpr (upper (t_value t)) args false).
Proof.
  intros Ht Ho Ha Ha' Hargs Hc. apply reaches_call; [done|]. intros rest Hn Hf.
  assert ((o :: (a :: ts) ++ [c]) ++ rest = o :: (a :: ts) ++ c :: rest) as E by (cbn; by rewrite <- app_assoc).
  rewrite E in *. unfold ParseName. rewrite Peek_run, Ho, Consume_run by not_end.
  assert (ParseArgs (parse_expr f) ((a :: ts) ++ c :: rest) = Ok ((args, false), c :: rest)) as Hp.
  { unfold ParseArgs. rewrite <- app_comm_cons, Peek_run, Ha', Ha, app_comm_cons.
    rewrite (bind_run _ _ _ args (c :: rest)); [done|]. apply reaches_comma_list; [done|done|cbn in *; lia]. }
  by rewrite (bind_run _ _ _ _ _ Hp), Expect_run.
Qed.

(** No expression starts with a closing parenthesis. *)
Lemma derives_no_close k ts e : derives k ts e -> forall tok ts', ts = tok :: ts' -> token_is PUNCTUATION ")" tok = false.
Proof.
  induction 1 as [k ts e Hd IH Hk|k l op r el er Hop Hl IH Hr _|k op ts e Hop Hd _| | | | | | | | | | | | |]; intros tok ts' Heq;
    try (injection Heq as <- <-; clash).
  - by apply (IH tok ts').
  - destruct l as [|t l]; [by apply derives_cons in Hl|]. injection Heq as <- _. by apply (IH t l).
  - injection Heq as <- _. unfold token_is. rewrite bool_decide_false; [done|]. intros Ht.
    do 5 (destruct k as [|k]; [try done; cbn [pre_test] in Hop; apply token_is_type in Hop; congruence|]). done.
Qed.

Lemma derives_args_no_close ts es tok ts' : derives_args ts es -> ts = tok :: ts' -> token_is PUNCTUATION ")" tok = false.
Proof.
  intros [ts0 e0 H|ts0 e0 c0 ts1 es1 H]; intros Heq; [by apply (derives_no_close _ _ _ H tok ts')|].
  destruct ts0 as [|t ts0]; [by apply derives_cons in H|]. injection Heq as <- _. by apply (derives_no_close _ _ _ H t ts0).
Qed.

Lemma derives_reaches k pre e : derives k pre e -> forall f, reaches k f pre e.
Proof.
  intros H. apply (derives_mut (fun k pre e => derives k pre e /\ forall f, reaches k f pre e)
                     (fun pre es => derives_args pre es /\ forall f, reaches_args f pre es)) in H as [_ H]; [exact H|..].
  - intros k0 ts e0 _ [Hd IH] Hk. split; [by apply d_up|]. intros f. by apply reaches_up.
  - intros k0 l op r el er Hop _ [Hl IHl] _ [Hr IHr]. split; [by apply d_binary|]. intros f. by apply reaches_binary.
  - intros k0 op ts e0 Hop _ [Hd IH]. split; [by apply d_prefix|]. intros f. by apply reaches_prefix.
  - intros o ts c e0 Ho _ [Hd IH] Hc. split; [by apply d_paren|]. intros f. primary_run. rewrite Consume_run by not_end.
    rewrite <- app_assoc. cbn [app]. rewrite (bind_run _ _ _ e0 (c :: rest)); [by rewrite Expect_run|].
    apply reaches_expr; [done|by eapply derives_cons|cbn in Hn; rewrite <- app_assoc in Hn; cbn in Hn; lia|].
    apply follow_punct; [by apply token_is_type in Hc|clash|clash].
  - intros t Ht. split; [by constructor|]. intros f. primary_run. by rewrite Consume_run by not_end.
  - intros t z Ht Hz. split; [by constructor|]. intros f. primary_run. rewrite Consume_run by congruence. unfold lift, mbind at 1, parser_bind at 1.
    by rewrite Hz.
  - intros t b Ht Hb. split; [by constructor|]. intros f. primary_run. rewrite Consume_run by congruence. unfold lift, mbind at 1, parser_bind at 1.
    by rewrite Hb.
  - intros t Ht. split; [by constructor|]. intros f. primary_run. by rewrite Consume_run by congruence.
  - intros t Ht. split; [by constructor|]. intros f. primary_run. by rewrite Consume_run by not_end.
  - intros t Ht. split; [by constructor|]. intros f. primary_run. by rewrite Consume_run by not_end.
  - intros t Ht. split; [by constructor|]. intros f. primary_run. by rewrite Consume_run by not_end.
  - intros t Ht. split; [by constructor|]. intros f. apply reaches_call; [done|]. intros rest Hn Hf. cbn [app].
    destruct rest as [|tok rest]; [by destruct Hf as (? & ? & ? & _)|]. destruct (follow_not _ _ _ _ Hf eq_refl) as [H1 H2].
    unfold ParseName. by rewrite Peek_run, H1, H2.
  - intros t d c Ht Hd Hc. split; [by constructor|]. intros f. apply reaches_call; [done|]. intros rest Hn Hf. cbn [app].
    unfold ParseName. rewrite Peek_run. replace (token_is PUNCTUATION "(" d) with false by (symmetry; clash). rewrite Hd, Consume_run by not_end.
    unfold ExpectValue. rewrite (bind_run _ _ _ (t_value c) rest); [done|]. rewrite Expect_run; [done|done|by apply token_is_any].
  - intros t o c Ht Ho Hc. split; [by constructor|]. intros f. apply reaches_call; [done|]. intros rest Hn Hf. cbn [app].
    unfold ParseName. rewrite Peek_run, Ho, Consume_run by not_end. unfold ParseArgs.
    rewrite (bind_run _ _ _ ([], false) (c :: rest)); [by rewrite Expect_run|]. by rewrite Peek_run, Hc.
  - intros t o s c Ht Ho Hs Hc. split; [by constructor|]. intros f. apply reaches_call; [done|]. intros rest Hn Hf. cbn [app].
    unfold ParseName. rewrite Peek_run, Ho, Consume_run by not_end. unfold ParseArgs.
    rewrite (bind_run _ _ _ ([], true) (c :: rest)); [by rewrite Expect_run|].
    rewrite Peek_run. replace (token_is PUNCTUATION ")" s) with false by (symmetry; clash). by rewrite Hs, Consume_run by not_end.
  - intros t o a ts c args Ht Ho Ha _ [Hd IH] Hc. split; [by apply d_call|]. intros f. apply reaches_primary_args; try done.
    by apply (derives_args_no_close _ _ a ts Hd).
  - intros ts e0 _ [Hd IH]. split; [by apply da_one|]. intros f c rest Hc Hn. exists e0, [], (c :: rest), 1. split_and!; [done| |rewrite length_app; lia|cbn; lia|].
    + apply reaches_expr; [done|by eapply derives_cons|done|]. apply follow_punct; [by apply token_is_type in Hc|clash|clash].
    + cbn [many_fuel]. rewrite Match_run by done. by replace (token_is PUNCTUATION "," c) with false by (symmetry; clash).
  - intros ts e0 c0 ts' es _ [Hd IH] Hc0 _ [Hds IHs]. split; [by apply da_cons|]. intros f c rest Hc Hn.
    rewrite <- app_assoc, <- app_comm_cons in *.
    destruct (IHs f c rest Hc) as (e1 & es' & mid & fuel & -> & He & Hm & Hfuel & Hes); [rewrite !length_app in *; cbn in *; rewrite ?length_app in *; cbn in *; lia|].
    exists e0, (e1 :: es'), (c0 :: ts' ++ c :: rest), (S fuel). split_and!; [done| |rewrite length_app; lia|cbn; lia|].
    + apply reaches_expr; [done|by eapply derives_cons|done|]. apply follow_punct; [by apply token_is_type in Hc0|clash|clash].
    + cbn [many_fuel]. rewrite Match_run by done. rewrite Hc0. rewrite (bind_run _ _ _ _ _ He). by rewrite (bind_run _ _ _ _ _ Hes).
Qed.

(** C28: on the tokens of an expression up to the end of the text, the parser
    succeeds exactly when the grammar derives the expression; the tree is the
    one of the grammar, with its precedences and left associativity. *)
Theorem parse_expr_grammar pre e v p :
  ParseExpr (pre ++ [mkToken END_OF_INPUT v p]) = Ok (e, [mkToken END_OF_INPUT v p]) <-> derives 7 pre e.
Proof.
  split.
  - intros H. apply ParseExpr_sound in H as (pre' & Heq & Hd). by apply app_inj_tail in Heq as [-> _].
  - intros H. apply reaches_expr; [by apply derives_reaches|by eapply derives_cons|done|].
    exists (mkToken END_OF_INPUT v p), []. split_and!; [done| |done..]. intros j _.
    destruct (bin_test j _) eqn:E; [|done]. by apply bin_test_not_end in E.
Qed.

(** ** Printing *)

Fixpoint dec (fuel : nat) (z : Z) (acc : string) : string :=
  match fuel with
  | 0 => acc
  | S fuel =>
      let acc := String (ascii_of_nat (48 + Z.to_nat (z mod 10))) acc in
      if Z.ltb z 10 then acc else dec fuel (z / 10) acc
  end.

Lemma digit_code n : n < 10 -> nat_of_ascii (ascii_of_nat (48 + n)) = 48 + n /\ isdigit (ascii_of_nat (48 + n)) = true.
Proof. intros H. do 10 (destruct n as [|n]; [done|]). lia. Qed.

Lemma dec_value fuel z acc : (0 <= z < 10 ^ Z.of_nat fuel)%Z -> fuel <> 0 -> digits_value 0 (dec fuel z acc) = digits_value z acc.
Proof.
  revert z acc. induction fuel as [|fuel IH]; intros z acc Hz Hf; [done|]. cbn [dec].
  pose proof (Z.mod_pos_bound z 10 ltac:(lia)) as Hm. destruct (digit_code (Z.to_nat (z mod 10))) as [Hd _]; [lia|].
  destruct (Z.ltb_spec z 10).
  - cbn [digits_value]. rewrite Hd. f_equal. rewrite Z.mod_small by lia. lia.
  - rewrite IH.
    + cbn [digits_value]. rewrite Hd. f_equal. pose proof (Z.div_mod z 10 ltac:(lia)). lia.
    + split; [apply Z.div_pos; lia|]. apply Z.div_lt_upper_bound; [lia|]. rewrite Nat2Z.inj_succ, Z.pow_succ_r in Hz by lia. lia.
    + intros ->. cbn in Hz. lia.
Qed.

Lemma dec_digits fuel z acc : (0 <= z)%Z -> fuel <> 0 -> all_chars isdigit acc = true -> digits (dec fuel z acc) = true.
Proof.
  revert z acc. induction fuel as [|fuel IH]; intros z acc Hz Hf Ha; [done|]. cbn [dec].
  pose proof (Z.mod_pos_bound z 10 ltac:(lia)) as Hm. destruct (digit_code (Z.to_nat (z mod 10))) as [_ Hd]; [lia|].
  assert (all_chars isdigit (String (ascii_of_nat (48 + Z.to_nat (z mod 10))) acc) = true) as Ha' by (cbn [all_chars]; by rewrite Hd).
  destruct (Z.ltb z 10); [done|]. destruct fuel as [|fuel]; [done|]. apply IH; [apply Z.div_pos; lia|done|done].
Qed.

(** Nineteen digits are enough below [2^63]. *)
Definition int_text (z : Z) : string := dec 19 z "".

Lemma span_all p s : all_chars p s = true -> span p s = (s, ""%string).
Proof. induction s as [|c s IH]; [done|]. cbn. intros H. apply andb_true_iff in H as [-> H]. by rewrite IH. Qed.

Lemma stoll_int_text z : (0 <= z < 2 ^ 63)%Z -> digits (int_text z) = true /\ stoll (int_text z) = Ok z.
Proof.
  intros Hz. assert (digits (int_text z) = true) as Hd by (apply dec_digits; [lia|done|done]). split; [done|].
  unfold stoll, stoint. rewrite span_all by (by apply digits_all). assert (String.eqb (int_text z) "" = false) as -> by (by destruct (int_text z)).
  unfold int_text. rewrite dec_value by (try done; cbn; lia). cbn [digits_value]. destruct (Z.ltb_spec z (2 ^ 63)); [done|lia].
Qed.

Section printing.
(** The text of a float literal. *)
Context (float_text : Z -> string).

Definition op_class (op : string) : nat :=
  if existsb (String.eqb op) ["*"; "/"]%string then 2
  else if existsb (String.eqb op) ["+"; "-"]%string then 3
  else if existsb (String.eqb op) ["="; "<"; ">"; "<="; ">="; "<>"]%string then 4
  else if String.eqb op "AND" then 6 else 7.

Definition op_lexeme (op : string) : lexeme := (if Nat.leb (op_class op) 4 then OPERATOR else KEYWORD, op).

(** The level of a node. *)
Definition node_level (e : Expr) : nat :=
  match e with
  | BinaryOpExpr op _ _ => op_class op
  | UnaryOpExpr op _ => if String.eqb op "-" then 1 else 5
  | _ => 0
  end.

Definition parens (b : bool) (ls : list lexeme) : list lexeme :=
  if b then ls else (PUNCTUATION, "("%string) :: ls ++ [(PUNCTUATION, ")"%string)].

(** The text of an expression where level [k] is read: parentheses only where
    the precedences need them. *)
Fixpoint print (k : nat) (e : Expr) : list lexeme :=
  parens (Nat.leb (node_level e) k)
    match e with
    | ColumnRefExpr t c => if String.eqb t "" then [(IDENTIFIER, c)] else [(IDENTIFIER, t); (PUNCTUATION, "."%string); (IDENTIFIER, c)]
    | IntegerLitExpr z => [(INTEGER_LIT, int_text z)]
    | FloatLitExpr b => [(FLOAT_LIT, float_text b)]
    | StringLitExpr s => [(STRING_LIT, s)]
    | BoolLitExpr b => [(KEYWORD, if b : bool then "TRUE"%string else "FALSE"%string)]
    | NullLitExpr => [(KEYWORD, "NULL"%string)]
    | StarExpr => [(OPERATOR, "*"%string)]
    | BinaryOpExpr op l r => print (op_class op) l ++ op_lexeme op :: print (op_class op - 1) r
    | UnaryOpExpr op x =>
        if String.eqb op "-" then (OPERATOR, op) :: print 1 x else (KEYWORD, op) :: print 5 x
    | FunctionCallExpr name args is_star =>
        (IDENTIFIER, name) :: (PUNCTUATION, "("%string) ::
        (if is_star : bool then [(OPERATOR, "*"%string)]
         else (fix go (args : list Expr) : list lexeme :=
                 match args with
                 | [] => []
                 | [a] => print 7 a
                 | a :: args => print 7 a ++ (PUNCTUATION, ","%string) :: go args
                 end) args)
        ++ [(PUNCTUATION, ")"%string)]
    end.

Fixpoint print_args (args : list Expr) : list lexeme :=
  match args with
  | [] => []
  | [a] => print 7 a
  | a :: args => print 7 a ++ (PUNCTUATION, ","%string) :: print_args args
  end.

(** Names and literals that have a text; a call does not start with [*]. *)
Definition ident (s : string) : Prop := is_word s = true /\ is_keyword (upper s) = false.

Fixpoint printable (e : Expr) : Prop :=
  match e with
  | ColumnRefExpr t c => (t = ""%string \/ ident t) /\ ident c
  | IntegerLitExpr z => (0 <= z < 2 ^ 63)%Z
  | FloatLitExpr b =>
      stod (float_text b) = Ok b /\ exists i f, float_text b = (i +:+ "." +:+ f)%string /\ digits i = true /\ digits f = true
  | StringLitExpr s => all_chars (fun c => negb (Ascii.eqb c quote)) s = true
  | BoolLitExpr _ | NullLitExpr | StarExpr => True
  | BinaryOpExpr op l r =>
      existsb (String.eqb op) ["*"; "/"; "+"; "-"; "="; "<"; ">"; "<="; ">="; "<>"; "AND"; "OR"]%string = true /\ printable l /\ printable r
  | UnaryOpExpr op x => (op = "-"%string \/ op = "NOT"%string) /\ printable x
  | FunctionCallExpr name args is_star =>
      ident name /\ upper name = name /\
      (if is_star : bool then args = [] else head (print_args args) <> Some (OPERATOR, "*"%string)) /\
      (fix go (args : list Expr) : Prop := match args with [] => True | a :: args => printable a /\ go args end) args
  end.

Lemma op_class_le op : op_class op <= 7.
Proof. unfold op_class. repeat case_match; lia. Qed.

Lemma node_level_le e : node_level e <= 7.
Proof. destruct e; cbn; [lia..|apply op_class_le|destruct (String.eqb _ _); lia|lia]. Qed.

Lemma print_eq k e : print k e = parens (Nat.leb (node_level e) k) (print 7 e).
Proof.
  assert (Nat.leb (node_level e) 7 = true) as H by (apply Nat.leb_le, node_level_le).
  destruct e; cbn [print] in *; rewrite H; done.
Qed.

Lemma derives_le j k ts e : derives j ts e -> j <= k -> k <= 7 -> derives k ts e.
Proof. intros Hd Hj Hk. induction Hj as [|k Hj IH]; [done|]. apply d_up; [apply IH; lia|lia]. Qed.

Lemma token_is_lexeme t v tok : lexeme_of tok = (t, v) -> token_is t v tok = true.
Proof.
  intros [= <- <-]. unfold token_is. rewrite bool_decide_true by done. cbn [negb]. destruct (String.eqb _ ""); [done|].
  destruct (bool_decide _); apply String.eqb_refl.
Qed.

(** Tokens whose lexemes are known. *)
Ltac lexemes H :=
  repeat match type of H with
  | _ <$> _ = _ :: _ => let t := fresh "t" in let ts := fresh "ts" in let H1 := fresh "Ht" in
      apply fmap_cons_inv in H as (t & ts & H1 & H & ->); symmetry in H1, H
  | _ <$> _ = [] => apply fmap_nil_inv in H as ->
  end.

(** What the tokens of a printed expression derive, at the level of its node. *)
Definition prints (e : Expr) : Prop := forall ts, lexeme_of <$> ts = print 7 e -> derives (node_level e) ts e.

Lemma prints_at e k ts : prints e -> k <= 7 -> lexeme_of <$> ts = print k e -> derives k ts e.
Proof.
  intros He Hk H. rewrite print_eq in H. destruct (Nat.leb_spec (node_level e) k); cbn [parens] in H.
  - apply (derives_le (node_level e)); [by apply He|done|done].
  - lexemes H. apply fmap_app_inv in H as (ts1 & ts2 & H1 & H2 & ->). symmetry in H2. lexemes H2.
    apply (derives_le 0); [|lia|done]. apply d_paren; [by apply token_is_lexeme| |by apply token_is_lexeme].
    apply (derives_le (node_level e)); [by apply He|apply node_level_le|done].
Qed.

Lemma op_lexeme_test op tok :
  existsb (String.eqb op) ["*"; "/"; "+"; "-"; "="; "<"; ">"; "<="; ">="; "<>"; "AND"; "OR"]%string = true ->
  lexeme_of tok = op_lexeme op -> bin_test (op_class op) tok = true /\ bin_name (op_class op) tok = op.
Proof.
  intros Hop Ht. apply existsb_exists in Hop as (o & Hin & Heq). apply String.eqb_eq in Heq as <-.
  destruct tok as [ty v p]. injection Ht as -> ->. apply list_elem_of_In in Hin.
  assert (Forall (fun op => forall p, bin_test (op_class op) (mkToken (op_lexeme op).1 op p) = true /\
    bin_name (op_class op) (mkToken (op_lexeme op).1 op p) = op) ["*"; "/"; "+"; "-"; "="; "<"; ">"; "<="; ">="; "<>"; "AND"; "OR"]%string) as Hall
    by (repeat constructor).
  rewrite Forall_forall in Hall. by apply Hall.
Qed.

Lemma op_class_pos op : 2 <= op_class op.
Proof. unfold op_class. repeat case_match; lia. Qed.

Lemma prints_args args ts :
  Forall prints args -> args <> [] -> lexeme_of <$> ts = print_args args -> derives_args ts args.
Proof.
  intros Hall. revert ts. induction Hall as [|a args Ha Hall IH]; intros ts Hne H; [done|]. destruct args as [|b args].
  - apply da_one. by apply prints_at.
  - cbn [print_args] in H. apply fmap_app_inv in H as (ts1 & ts2 & H1 & H2 & ->). symmetry in H2.
    apply fmap_cons_inv in H2 as (c & ts3 & Hc & H2 & ->). apply da_cons; [by apply prints_at|by apply token_is_lexeme|by apply IH].
Qed.

Lemma printable_prints e : printable e -> prints e.
Proof.
  induction e as [t c|z|b|s|b| | |op l r IHl IHr|op x IHx|name args star IHargs] using Expr_nested_ind; intros Hp ts H; cbn [print printable] in *.
  - destruct (String.eqb_spec t "") as [->|Hne]; cbn [parens node_level Nat.leb] in H; lexemes H.
    + injection Ht as Hty <-. by apply d_column.
    + injection Ht as Hty <-. injection Ht1 as Hty1 <-. apply d_qualified; [done|by apply token_is_lexeme|done].
  - cbn [parens node_level Nat.leb] in H. lexemes H. injection Ht as Hty Hv. apply d_integer; [done|]. rewrite Hv. by apply stoll_int_text.
  - cbn [parens node_level Nat.leb] in H. lexemes H. injection Ht as Hty Hv. apply d_float; [done|]. rewrite Hv. by apply Hp.
  - cbn [parens node_level Nat.leb] in H. lexemes H. injection Ht as Hty <-. by apply d_string.
  - cbn [parens node_level Nat.leb] in H. lexemes H. apply token_is_lexeme in Ht. by destruct b; constructor.
  - cbn [parens node_level Nat.leb] in H. lexemes H. apply token_is_lexeme in Ht. by constructor.
  - cbn [parens node_level Nat.leb] in H. lexemes H. apply token_is_lexeme in Ht. by constructor.
  - destruct Hp as (Hop & Hl & Hr). cbn [node_level] in *. pose proof (op_class_le op) as H7. pose proof (op_class_pos op) as H2.
    apply Nat.leb_le in H7 as E. rewrite E in H. cbn [parens] in H. apply fmap_app_inv in H as (ts1 & ts2 & H1 & H3 & ->). symmetry in H3.
    apply fmap_cons_inv in H3 as (t & ts3 & Ht & H3 & ->). destruct (op_lexeme_test op t Hop (eq_sym Ht)) as [Htest Hname].
    assert (derives (op_class op) ts1 l) as D1 by (apply prints_at; [by apply IHl|done|done]).
    assert (derives (op_class op - 1) ts3 r) as D2 by (apply prints_at; [by apply IHr|lia|done]).
    destruct (op_class op) as [|k]; [lia|]. cbn in D2. rewrite Nat.sub_0_r in D2. rewrite <- Hname. by apply d_binary.
  - destruct Hp as [[-> | ->] Hx]; cbn in H; lexemes H; apply token_is_lexeme in Ht.
    + change "-"%string with (pre_name 1). apply (d_prefix 0); [done|]. apply prints_at; [by apply IHx|lia|done].
    + change "NOT"%string with (pre_name 5). apply (d_prefix 4); [done|]. apply prints_at; [by apply IHx|lia|done].
  - destruct Hp as (Hid & Hup & Hhd & Hargs). cbn [node_level Nat.leb parens] in H. lexemes H.
    apply fmap_app_inv in H as (ts1 & ts2 & H1 & H2 & ->). symmetry in H2. lexemes H2. apply token_is_lexeme in Ht0, Ht1.
    injection Ht as Hty Hv. rewrite <- Hup, <- Hv. destruct star.
    + rewrite Hhd in *. symmetry in H1. lexemes H1. apply token_is_lexeme in Ht. by apply (d_call_star t t0 t2 t1).
    + change (print_args args = lexeme_of <$> ts1) in H1. destruct args as [|a args].
      { symmetry in H1. cbn in H1. lexemes H1. by apply (d_call_empty t t0 t1). }
      assert (Forall prints (a :: args)) as Hall.
      { apply Forall_cons in IHargs as [Ha Hl]. destruct Hargs as [Hpa Hps]. constructor; [by apply Ha|]. clear -Hl Hps.
        induction Hl as [|x l Hx Hl IH]; [constructor|]. destruct Hps as [Hp Hps]. constructor; [by apply Hx|by apply IH]. }
      assert (derives_args ts1 (a :: args)) as D by (by apply prints_args).
      destruct ts1 as [|t2 ts1]; [by apply derives_args_cons in D|]. apply (d_call t t0 t2 ts1 t1); [done|done| |done|done].
      destruct (token_is OPERATOR "*" t2) eqn:E; [|done]. exfalso. apply Hhd. rewrite H1. cbn. f_equal.
      pose proof (token_is_type _ _ _ E) as Hty2. unfold lexeme_of. rewrite Hty2. f_equal. unfold token_is in E.
      rewrite Hty2 in E. cbn in E. by apply String.eqb_eq in E.
Qed.

(** The lexemes of a printed expression have a text. *)
Lemma op_lexeme_ok op :
  existsb (String.eqb op) ["*"; "/"; "+"; "-"; "="; "<"; ">"; "<="; ">="; "<>"; "AND"; "OR"]%string = true -> lexeme_ok (op_lexeme op).
Proof.
  intros Hop. apply existsb_exists in Hop as (o & Hin & Heq). apply String.eqb_eq in Heq as <-. apply list_elem_of_In in Hin.
  assert (Forall (fun op => lexeme_ok (op_lexeme op)) ["*"; "/"; "+"; "-"; "="; "<"; ">"; "<="; ">="; "<>"; "AND"; "OR"]%string) as Hall
    by (repeat constructor).
  rewrite Forall_forall in Hall. by apply Hall.
Qed.

Lemma print_lexemes e : printable e -> Forall lexeme_ok (print 7 e).
Proof.
  assert (forall k e, Forall lexeme_ok (print 7 e) -> Forall lexeme_ok (print k e)) as Hk.
  { intros k e0 H. rewrite print_eq. destruct (Nat.leb _ _); [done|]. cbn [parens]. constructor; [done|]. apply Forall_app. split; [done|by repeat constructor]. }
  induction e as [t c|z|b|s|b| | |op l r IHl IHr|op x IHx|name args star IHargs] using Expr_nested_ind; intros Hp;
    cbn [print printable node_level Nat.leb parens] in *; try (by repeat constructor).
  - destruct Hp as [Ht Hc]. destruct (String.eqb_spec t "") as [->|]; [constructor; [exact Hc|constructor]|].
    destruct Ht as [|Ht]; [done|]. constructor; [exact Ht|]. constructor; [done|]. constructor; [exact Hc|constructor].
  - repeat constructor. by apply stoll_int_text.
  - constructor; [|constructor]. apply Hp.
  - by destruct b; repeat constructor.
  - destruct Hp as (Hop & Hl & Hr). pose proof (op_class_le op) as H7. apply Nat.leb_le in H7. rewrite H7. cbn [parens].
    apply Forall_app. split; [by apply Hk, IHl|]. constructor; [by apply op_lexeme_ok|by apply Hk, IHr].
  - destruct Hp as [[-> | ->] Hx]; cbn; (constructor; [done|by apply Hk, IHx]).
  - destruct Hp as (Hid & _ & _ & Hargs). constructor; [done|]. constructor; [done|]. apply Forall_app. split; [|by repeat constructor].
    destruct star; [by repeat constructor|]. induction IHargs as [|a args Ha Hall IH]; [constructor|]. destruct Hargs as [Hpa Hps].
    specialize (IH Hps). destruct args as [|b args]; [by apply Ha|]. apply Forall_app. split; [by apply Ha|]. by constructor.
Qed.

(** An expression that is written out with the parentheses its precedences
    need is tokenized and parsed back to itself. *)
Theorem print_parse e :
  printable e -> exists ts p, Tokenize (render (print 7 e)) = Ok ts /\ ParseExpr ts = Ok (e, [mkToken END_OF_INPUT "" p]).
Proof.
  intros Hp. destruct (tokenize_render _ (print_lexemes e Hp)) as (ts & Ht & Hl).
  apply fmap_app_inv in Hl as (pre & end_ & H1 & H2 & ->). symmetry in H2. lexemes H2. destruct t as [ty v p]. injection Ht0 as -> ->.
  eexists _, p. split; [exact Ht|]. apply parse_expr_grammar. apply (derives_le (node_level e)); [|apply node_level_le|done].
  by apply printable_prints.
Qed.

End printing.

(** [(a + 1) * -b < MAX(c, 2) OR NOT x = 'y'] *)
Definition print_sample : Expr :=
  BinaryOpExpr "OR"
    (BinaryOpExpr "<"
       (BinaryOpExpr "*" (BinaryOpExpr "+" (ColumnRefExpr "" "a") (IntegerLitExpr 1)) (UnaryOpExpr "-" (ColumnRefExpr "t" "b")))
       (FunctionCallExpr "MAX" [ColumnRefExpr "" "c"; IntegerLitExpr 2] false))
    (UnaryOpExpr "NOT" (BinaryOpExpr "=" (ColumnRefExpr "" "x") (StringLitExpr "y"))).

Lemma print_parse_witness :
  render (print (fun _ => "0.0"%string) 7 print_sample) = "( a + 1 ) * - t . b < MAX ( c , 2 ) OR NOT x = 'y' "%string /\
  exists ts p, Tokenize (render (print (fun _ => "0.0"%string) 7 print_sample)) = Ok ts /\
    ParseExpr ts = Ok (print_sample, [mkToken END_OF_INPUT "" p]).
Proof.
  split; [vm_compute; reflexivity|]. apply (print_parse (fun _ => "0.0"%string) print_sample). cbn.
  repeat split; try (vm_compute; reflexivity); try lia; try (by left); try (by right). vm_compute. congruence.
Defined.

(** ** Literals *)

(** The integers of an expression, from left to right, and those its tokens
    denote. *)
Fixpoint integer_literals (e : Expr) : list Z :=
  match e with
  | IntegerLitExpr z => [z]
  | BinaryOpExpr _ l r => integer_literals l ++ integer_literals r
  | UnaryOpExpr _ x => integer_literals x
  | FunctionCallExpr _ args _ => concat (map integer_literals args)
  | _ => []
  end.

Definition literal_value (t : Token) : Z := digits_value 0 (span isdigit (t_value t)).1.
Definition is_integer (t : Token) : bool := bool_decide (t_type t = INTEGER_LIT).
Definition integer_tokens (ts : list Token) : list Token := filter (fun t => is_integer t = true) ts.

Lemma digits_value_nonneg s acc : (0 <= acc)%Z -> all_chars isdigit s = true -> (0 <= digits_value acc s)%Z.
Proof.
  revert acc. induction s as [|c s IH]; intros acc Ha H; [done|]. cbn in H. apply andb_true_iff in H as [Hc H]. cbn [digits_value].
  apply IH; [|done]. unfold isdigit, between in Hc. apply andb_true_iff in Hc as [Hc _]. apply Nat.leb_le in Hc. lia.
Qed.

Lemma stoint_value bound t z : stoint bound (t_value t) = Ok z -> z = literal_value t /\ (0 <= z < bound)%Z.
Proof.
  unfold stoint, literal_value. destruct (span isdigit (t_value t)) as [ds r] eqn:E. apply span_spec in E as [_ Hd]. destruct (String.eqb ds ""); [done|].
  destruct (Z.ltb_spec (digits_value 0 ds) bound); [|done]. intros [= <-]. split; [done|]. split; [by apply digits_value_nonneg|done].
Qed.

Lemma token_is_other ty v t : token_is ty v t = true -> ty <> INTEGER_LIT -> is_integer t = false.
Proof. unfold token_is, is_integer. case_bool_decide; [|done]. intros _ Hne. apply bool_decide_eq_false. congruence. Qed.

Lemma bin_test_other k t : bin_test k t = true -> is_integer t = false.
Proof.
  assert (forall vs, is_operator vs t = true -> is_integer t = false) as Hop.
  { intros vs (op & _ & Ht)%existsb_exists. by eapply token_is_other. }
  do 8 (destruct k as [|k]; [cbn [bin_test]; first [apply Hop | intros H; by apply token_is_other in H | done]|]). done.
Qed.

Lemma pre_test_other k t : pre_test k t = true -> is_integer t = false.
Proof. do 6 (destruct k as [|k]; [cbn [pre_test]; first [intros H; by apply token_is_other in H | done]|]). done. Qed.

Lemma integer_tokens_app a b : integer_tokens (a ++ b) = integer_tokens a ++ integer_tokens b.
Proof. apply filter_app. Qed.
Lemma integer_tokens_skip t ts : is_integer t = false -> integer_tokens (t :: ts) = integer_tokens ts.
Proof. intros H. unfold integer_tokens. rewrite filter_cons, decide_False; [done|]. by rewrite H. Qed.

(** The integers of an expression are the values of its tokens. *)
Lemma derives_integers k ts e : derives k ts e -> integer_literals e = literal_value <$> integer_tokens ts.
Proof.
  assert (forall ty t, t_type t = ty -> ty <> INTEGER_LIT -> is_integer t = false) as Hty.
  { intros ty t <- H. by apply bool_decide_eq_false. }
  apply (derives_mut (fun _ ts e => integer_literals e = literal_value <$> integer_tokens ts)
           (fun ts es => concat (map integer_literals es) = literal_value <$> integer_tokens ts));
    cbn [integer_literals map concat]; intros;
    repeat match goal with
    | H : token_is _ _ _ = true |- _ => apply token_is_other in H; [|done]
    | H : bin_test _ _ = true |- _ => apply bin_test_other in H
    | H : pre_test _ _ = true |- _ => apply pre_test_other in H
    | H : t_type _ = INTEGER_LIT |- _ => fail 1
    | H : t_type ?t = _ |- _ => apply Hty in H; [|done]
    end;
    rewrite ?integer_tokens_app, ?integer_tokens_skip, ?integer_tokens_app, ?integer_tokens_skip by done;
    rewrite ?fmap_app, ?app_nil_r; try done; try congruence.
  - apply stoint_value in H0 as [-> _]. unfold integer_tokens. rewrite filter_cons, decide_True; [done|]. by apply bool_decide_eq_true.
  - rewrite (integer_tokens_skip c) by done. by rewrite app_nil_r.
Qed.

Lemma derives_fit k ts e : derives k ts e -> Forall (fun z => 0 <= z < 2 ^ 63)%Z (integer_literals e).
Proof.
  apply (derives_mut (fun _ _ e => Forall (fun z => 0 <= z < 2 ^ 63)%Z (integer_literals e))
           (fun _ es => Forall (fun z => 0 <= z < 2 ^ 63)%Z (concat (map integer_literals es))));
    cbn [integer_literals map concat]; intros; rewrite ?app_nil_r, ?Forall_app; try done; [|by constructor..].
  apply (stoint_value _ t) in H0 as [_ ?]. constructor; [done|constructor].
Qed.

(** An exception of the primary expression passes through all levels. *)
Lemma level_Err k prim t ts err : (forall j, pre_test j t = false) -> prim (t :: ts) = Err err -> level k prim (t :: ts) = Err err.
Proof.
  intros Hpre Hp. induction k as [|k IH]; [done|]. cbn [level]. destruct (is_binary (S k)).
  - unfold binary, mbind, parser_bind. by rewrite IH.
  - unfold prefix. cbn [prefix_loop length]. unfold mbind, parser_bind, Peek. by rewrite Hpre.
Qed.

Lemma oversized_literal t ts : t_type t = INTEGER_LIT -> (2 ^ 63 <= literal_value t)%Z -> ParseExpr (t :: ts) = Err StdOutOfRange.
Proof.
  intros Ht Hbig. assert (forall ty v, ty <> INTEGER_LIT -> token_is ty v t = false) as Hno.
  { intros ty v Hne. unfold token_is. rewrite bool_decide_eq_false_2; [done|congruence]. }
  unfold ParseExpr. cbn [length parse_expr]. rewrite levels_level. apply level_Err.
  { intros j. destruct (pre_test j t) eqn:E; [|done]. apply pre_test_other in E. unfold is_integer in E. by rewrite bool_decide_eq_true_2 in E. }
  unfold ParsePrimary, mbind, parser_bind, Peek. rewrite !Hno, bool_decide_eq_true_2 by done. unfold Consume, lift.
  unfold stoll, stoint. unfold literal_value in Hbig. destruct (span isdigit (t_value t)) as [ds r]. cbn [fst] in Hbig.
  destruct (String.eqb_spec ds "") as [->|]; [cbn in Hbig; lia|]. by destruct (Z.ltb_spec (digits_value 0 ds) (2 ^ 63)); [lia|].
Qed.

(** C40: the integer literals of a parsed expression are, in order, the values
    of the digits of the integer tokens it consumed, and each is a non-negative
    int64_t: none wraps around. So a literal that does not fit is in no parsed
    expression, and where it is the first token of the expression the parser
    throws std::out_of_range. *)
Theorem parsed_integers_fit ts :
  (forall e rest, ParseExpr ts = Ok (e, rest) ->
     exists pre, ts = pre ++ rest /\ integer_literals e = literal_value <$> integer_tokens pre /\
       Forall (fun z => 0 <= z < 2 ^ 63)%Z (integer_literals e)) /\
  (forall t rest, ts = t :: rest -> t_type t = INTEGER_LIT -> (2 ^ 63 <= literal_value t)%Z -> ParseExpr ts = Err StdOutOfRange).
Proof.
  split.
  - intros e rest (pre & -> & Hd)%ParseExpr_sound. exists pre. split; [done|]. split; [by eapply derives_integers|by eapply derives_fit].
  - intros t rest -> Ht Hbig. by apply oversized_literal.
Qed.

(** [-9223372036854775807 + 7] and [9223372036854775808]. *)
Definition literal_tokens : list Token :=
  [mkToken OPERATOR "-" 0; mkToken INTEGER_LIT "9223372036854775807" 1; mkToken OPERATOR "+" 21; mkToken INTEGER_LIT "7" 23; mkToken END_OF_INPUT "" 24].

Lemma parsed_integers_fit_witness :
  (exists e rest pre, ParseExpr literal_tokens = Ok (e, rest) /\ literal_tokens = pre ++ rest /\ integer_literals e = [9223372036854775807; 7]%Z) /\
  ParseExpr [mkToken INTEGER_LIT "9223372036854775808" 0; mkToken END_OF_INPUT "" 19] = Err StdOutOfRange.
Proof.
  split.
  - destruct (ParseExpr literal_tokens) as [[e rest]|] eqn:E; [|vm_compute in E; discriminate].
    destruct (proj1 (parsed_integers_fit literal_tokens) e rest E) as (pre & Hpre & _ & _). exists e, rest, pre. split; [done|]. split; [exact Hpre|].
    vm_compute in E. injection E as <- <-. reflexivity.
  - apply (proj2 (parsed_integers_fit [mkToken INTEGER_LIT "9223372036854775808" 0; mkToken END_OF_INPUT "" 19]) (mkToken INTEGER_LIT "9223372036854775808" 0)
      [mkToken END_OF_INPUT "" 19]); [reflexivity|reflexivity|vm_compute; discriminate].
Defined.

(** The sign is an operator of its own, so the least [int64_t] has no literal. *)
Example least_int64_refused : ParseSQL "SELECT -9223372036854775808 FROM t" = Err StdOutOfRange.
Proof. vm_compute. reflexivity. Qed.

(** A quote cannot be written inside a string: the escape ends the literal. *)
Example quote_escape_refused :
  ParseSQL "DELETE FROM t WHERE a = 'it''s'" = Err (ParseError "unexpected trailing token 's'" (Some 28)).
Proof. vm_compute. reflexivity. Qed.

(** Comparisons chain to the left. *)
Example comparison_chain :
  (ts ← Tokenize "a < b < c"; ParseExpr ts) =
  Ok (BinaryOpExpr "<" (BinaryOpExpr "<" (ColumnRefExpr "" "a") (ColumnRefExpr "" "b")) (ColumnRefExpr "" "c"), [mkToken END_OF_INPUT "" 9]).
Proof. vm_compute. reflexivity. Qed.
