(* ===== verification/Binder.v ===== *)
(** * The binder

    [planner/bind_context] and [planner/binder]: names are resolved against the
    catalog, expressions get their types and casts, and a statement becomes a
    logical plan.

    The claims are that a bound expression is well typed for the rows it will be
    evaluated on, that the plans of SELECT statements are ones the optimizer and
    the planner treat correctly, that the partition metadata CREATE TABLE builds
    satisfies what routing and pruning rely on, and that the literals of INSERT
    arrive in the batch.  Others show what the binder gets wrong. *)

From Stdlib Require Import ZArith String Ascii.
From stdpp Require Import base gmap strings list fin_maps pretty sorting.
From S2P Require Import Prelude Types Double Expr PartitionInfo RowGroup Operators HashJoin Sorting Sort Aggregate Transaction Schema LogicalPlan PhysicalPlanner Optimizer Catalog Ast.

(** ** Name resolution *)

Record ColumnBinding : Type := mkBinding {
  b_table_idx : nat;
  b_column_idx : nat;
  b_type : TypeId;
  b_column_name : string;
  b_table_name : string;
}.

Record BindContext : Type := mkContext {
  columns_ : gmap string (list ColumnBinding);
  tables_ : gmap string (list ColumnBinding);
  table_order_ : list string;
}.

Definition BindContext_empty : BindContext := mkContext ∅ ∅ [].

(** [m[k].push_back(b)] *)
Definition push_binding (k : string) (b : ColumnBinding) (m : gmap string (list ColumnBinding)) : gmap string (list ColumnBinding) :=
  <[k := default [] (m !! k) ++ [b]]> m.

Definition AddTable (ctx : BindContext) (table_idx : nat) (alias : string) (col_names : list string)
    (col_types : list TypeId) (col_idx_offset : nat) : result BindContext :=
  foldM (fun ctx '(i, name) =>
           t ← of_option UndefinedBehaviour (col_types !! i);
           let b := mkBinding table_idx (col_idx_offset + i) t name alias in
           Ok (mkContext (push_binding name b (columns_ ctx)) (push_binding alias b (tables_ ctx)) (table_order_ ctx)))
    (mkContext (columns_ ctx) (tables_ ctx) (table_order_ ctx ++ [alias])) (imap pair col_names).

Definition ResolveColumn (ctx : BindContext) (col_name : string) : result ColumnBinding :=
  match columns_ ctx !! col_name with
  | None | Some [] => Err (BindError ("column not found: " +:+ col_name))
  | Some [b] => Ok b
  | Some _ => Err (BindError ("ambiguous column: " +:+ col_name))
  end.

Definition ResolveQualified (ctx : BindContext) (table_alias col_name : string) : result ColumnBinding :=
  match tables_ ctx !! table_alias with
  | None => Err (BindError ("table not found in context: " +:+ table_alias))
  | Some bs =>
      match list_find (fun b => b_column_name b = col_name) bs with
      | Some (_, b) => Ok b
      | None => Err (BindError ("column not found: " +:+ table_alias +:+ "." +:+ col_name))
      end
  end.

(** ** Expressions *)

Definition IsNumericType (t : TypeId) : bool := is_int_type t || is_float_type t.
Definition IsIntegerType (t : TypeId) : bool := is_int_type t.
Definition IsComparisonOp (op : string) : bool := is_comparison op.

Definition Coerce (e : LogicalExpr) (to_type : TypeId) : LogicalExpr :=
  if bool_decide (result_type e = to_type) then e else LogicalCast to_type (result_type e) e.

(** The guarded calls of [Coerce] for a mixed pair of numbers. *)
Definition promote (t : TypeId) (e : LogicalExpr) : LogicalExpr :=
  if bool_decide (t = FLOAT64) then e else Coerce e FLOAT64.

(** The result type and the operands with their casts. *)
Definition InferBinaryType (op : string) (left_type right_type : TypeId) (left right : LogicalExpr)
    : result (TypeId * LogicalExpr * LogicalExpr) :=
  if is_arithmetic op then
    if negb (IsNumericType left_type) then Err (BindError ("operator '" +:+ op +:+ "' requires numeric left operand"))
    else if negb (IsNumericType right_type) then Err (BindError ("operator '" +:+ op +:+ "' requires numeric right operand"))
    else if IsIntegerType left_type && IsIntegerType right_type then Ok (INT64, left, right)
    else Ok (FLOAT64, promote left_type left, promote right_type right)
  else if IsComparisonOp op then
    if bool_decide (left_type = right_type) then Ok (BOOLEAN, left, right)
    else if IsNumericType left_type && IsNumericType right_type then
      Ok (BOOLEAN, promote left_type left, promote right_type right)
    else Err (BindError ("cannot compare " +:+ TypeName left_type +:+ " with " +:+ TypeName right_type))
  else if is_logical op then
    if negb (bool_decide (left_type = BOOLEAN)) then Err (BindError "AND/OR left operand must be BOOLEAN")
    else if negb (bool_decide (right_type = BOOLEAN)) then Err (BindError "AND/OR right operand must be BOOLEAN")
    else Ok (BOOLEAN, left, right)
  else Err (BindError ("unknown binary operator: " +:+ op)).

Definition agg_func_of (name : string) : result AggFunc :=
  let upper_name := upper name in
  if String.eqb upper_name "COUNT" then Ok COUNT
  else if String.eqb upper_name "SUM" then Ok SUM
  else if String.eqb upper_name "MIN" then Ok MIN
  else if String.eqb upper_name "MAX" then Ok MAX
  else if String.eqb upper_name "AVG" then Ok AVG
  else Err (BindError ("unknown aggregate function: " +:+ name)).

(** [BindAggregate], given the first argument as it is bound, if there is one. *)
Definition bind_aggregate (name : string) (is_star : bool) (first : option (result LogicalExpr)) : result LogicalExpr :=
  func ← agg_func_of name;
  if is_star then Ok (LogicalAggrExpr INT64 func true None)
  else
    match first with
    | None => Err (BindError ("aggregate '" +:+ name +:+ "' requires an argument"))
    | Some arg =>
        arg ← arg;
        Ok (match func with
            | COUNT => LogicalAggrExpr INT64 func false (Some arg)
            | SUM | MIN | MAX => LogicalAggrExpr (result_type arg) func false (Some arg)
            | AVG => LogicalAggrExpr FLOAT64 func false
                       (Some (if IsIntegerType (result_type arg) then Coerce arg FLOAT64 else arg))
            end)
    end.

(** [BindBinaryOp], on the bound operands. *)
Definition BindBinaryOp (op : string) (left right : LogicalExpr) : result LogicalExpr :=
  '(t, l, r) ← InferBinaryType op (result_type left) (result_type right) left right;
  Ok (LogicalBinaryOp t op l r).

Definition bind_unary (op : string) (child : LogicalExpr) : result LogicalExpr :=
  if String.eqb op "NOT" && negb (bool_decide (result_type child = BOOLEAN)) then Err (BindError "NOT requires BOOLEAN operand")
  else if String.eqb op "-" && negb (IsNumericType (result_type child)) then
    Err (BindError "unary minus requires numeric operand")
  else Ok (LogicalUnaryOp (result_type child) op child).

Definition ref_of (b : ColumnBinding) : LogicalExpr := BoundColumnRef (b_type b) (b_column_idx b) (b_column_name b).

(** [Binder::BindExpr] *)
Fixpoint BindExpr (ctx : BindContext) (allow_aggregates : bool) (expr : Expr) : result LogicalExpr :=
  match expr with
  | ColumnRefExpr table_name column_name =>
      b ← (if String.eqb table_name "" then ResolveColumn ctx column_name else ResolveQualified ctx table_name column_name);
      Ok (ref_of b)
  | IntegerLitExpr z => Ok (LogicalLit INT64 (Value_Integer z) false)
  | FloatLitExpr b => Ok (LogicalLit FLOAT64 (Value_Float b) false)
  | StringLitExpr s => Ok (LogicalLit VARCHAR (Value_Varchar s) false)
  | BoolLitExpr b => Ok (LogicalLit BOOLEAN (Value_Boolean b) false)
  | NullLitExpr => Ok (LogicalLit INVALID (Value_Null INVALID) true)
  | BinaryOpExpr op l r =>
      left ← BindExpr ctx allow_aggregates l; right ← BindExpr ctx allow_aggregates r; BindBinaryOp op left right
  | UnaryOpExpr op x => child ← BindExpr ctx allow_aggregates x; bind_unary op child
  | FunctionCallExpr name args is_star =>
      if negb allow_aggregates then Err (BindError ("aggregate function '" +:+ name +:+ "' not allowed here"))
      else bind_aggregate name is_star (match args with [] => None | a :: _ => Some (BindExpr ctx false a) end)
  | StarExpr => Err (BindError "* not allowed here")
  end.

Definition BindAggregate (ctx : BindContext) (name : string) (args : list Expr) (is_star : bool) : result LogicalExpr :=
  bind_aggregate name is_star (match args with [] => None | a :: _ => Some (BindExpr ctx false a) end).

(** [Binder::ExpandStar]; [at] throws for a table that has no entry. *)
Definition star_refs (ctx : BindContext) (alias : string) : result (list LogicalExpr) :=
  bs ← of_option StdOutOfRange (tables_ ctx !! alias); Ok (map ref_of bs).
Definition ExpandStar (ctx : BindContext) : result (list LogicalExpr) :=
  foldM (fun result alias => refs ← star_refs ctx alias; Ok (result ++ refs)) [] (table_order_ ctx).

Fixpoint HasAggregateExpr (e : Expr) : bool :=
  match e with
  | FunctionCallExpr _ _ _ => true
  | BinaryOpExpr _ l r => HasAggregateExpr l || HasAggregateExpr r
  | UnaryOpExpr _ x => HasAggregateExpr x
  | _ => false
  end.

(** ** Statements *)

(** The list pushed into by the loops over an index and an expression. *)
Definition each {A B} (f : nat -> A -> result B) (l : list A) : result (list B) :=
  mapM_r (fun '(i, x) => f i x) (imap pair l).

Section statements.
Context (catalog : Catalog) (tx : Transaction).

Definition or_default (schema : string) : string := if String.eqb schema "" then DEFAULT_SCHEMA else schema.

Definition find_table (schema name : string) (err : string) : result TableCatalogEntry :=
  match GetTable catalog schema name tx with
  | Some (_, table) => Ok table
  | None => Err (BindError (err +:+ name))
  end.

Definition schema_of (table : TableCatalogEntry) : OutputSchema := mkOut (ColumnTypes table) (ColumnNames table).

(** The sum of the rows of the row groups, a [uint64_t]. *)
Definition catalog_rows (table : TableCatalogEntry) : Z :=
  foldl (fun n rg => u64 (n + Z.of_nat (row_count_ rg))) 0%Z (row_groups table).

(** A scan of every column of a table. *)
Definition full_get (schema name : string) (table : TableCatalogEntry) (pi : PartitionInfo) : LogicalPlan :=
  LGet (schema_of table) (mkGet schema name (seq 0 (length (tbl_columns table))) (catalog_rows table) pi []).

(** The WHERE clause as a filter with the output schema of its child. *)
Definition bind_predicate (ctx : BindContext) (where_clause : Expr) : result LogicalExpr :=
  pred ← BindExpr ctx false where_clause;
  if bool_decide (result_type pred = BOOLEAN) then Ok pred else Err (BindError "WHERE clause must be boolean").

Definition bind_where (ctx : BindContext) (where_clause : option Expr) (source : LogicalPlan) : result LogicalPlan :=
  match where_clause with
  | None => Ok source
  | Some e => pred ← bind_predicate ctx e; Ok (LFilter (plan_out source) pred source)
  end.

Definition has_aggregates (stmt : SelectStatement) : bool :=
  match group_by stmt with [] => existsb HasAggregateExpr (select_list stmt) | _ :: _ => true end.

(** A projected column: the expression, its name and its type. *)
Definition proj_col : Type := LogicalExpr * string * TypeId.

Definition projection (cols : list proj_col) (child : LogicalPlan) : LogicalPlan :=
  LProjection (mkOut (snd <$> cols) ((fun c => c.1.2) <$> cols)) ((fun c => c.1.1) <$> cols) child.

(** A column of [*], and the name of an item. *)
Definition star_col (r : LogicalExpr) : proj_col :=
  (r, match r with BoundColumnRef _ _ name => name | _ => ""%string end, result_type r).
Definition item_name (e : Expr) : string := match e with ColumnRefExpr _ column_name => column_name | _ => "?col" end.

(** The SELECT list without aggregation. *)
Definition bind_item (ctx : BindContext) (e : Expr) : result (list proj_col) :=
  match e with
  | StarExpr => expanded ← ExpandStar ctx; Ok (map star_col expanded)
  | _ => bound ← BindExpr ctx true e; Ok [(bound, item_name e, result_type bound)]
  end.

Definition bind_items (ctx : BindContext) (items : list Expr) : result (list proj_col) :=
  cols ← mapM_r (bind_item ctx) items; Ok (concat cols).

(** The sort over [child]; [bind] is how a key is bound, and [order_asc] is
    parallel to the keys. *)
Definition bind_sort (bind : Expr -> result LogicalExpr) (stmt : SelectStatement) (child : LogicalPlan) : result LogicalPlan :=
  match order_by stmt with
  | [] => Ok child
  | _ :: _ =>
      keys ← each (fun i e => k ← bind e; asc ← of_option UndefinedBehaviour (order_asc stmt !! i); Ok (k, asc)) (order_by stmt);
      Ok (LSort (plan_out child) (fst <$> keys) (snd <$> keys) child)
  end.

(** A key of ORDER BY over an aggregation: a qualified name that does not
    resolve is tried again without its qualifier. *)
Definition bind_post_key (out_ctx : BindContext) (e : Expr) : result LogicalExpr :=
  match BindExpr out_ctx false e with
  | Err (BindError msg) =>
      match e with
      | ColumnRefExpr table_name column_name =>
          if String.eqb table_name "" then Err (BindError msg) else BindExpr out_ctx false (ColumnRefExpr "" column_name)
      | _ => Err (BindError msg)
      end
  | r => r
  end.

Definition bind_limit (stmt : SelectStatement) (child : LogicalPlan) : result LogicalPlan :=
  match sel_limit stmt with
  | None => Ok child
  | Some limit =>
      if Z.ltb limit 0 then Err (BindError "LIMIT must be non-negative")
      else Ok (LLimit (plan_out child) limit (default 0%Z (sel_offset stmt)) child)
  end.

(** *** Aggregation *)

Definition group_name (g : Expr) : string := match g with ColumnRefExpr _ column_name => column_name | _ => "?group" end.

(** The aggregate calls of an item, in order of appearance, with their names. *)
Fixpoint CollectAggr (ctx : BindContext) (e : Expr) : result (list (LogicalExpr * string)) :=
  match e with
  | FunctionCallExpr name args is_star =>
      bound ← BindAggregate ctx name args is_star; Ok [(bound, if is_star : bool then (name +:+ "(*)")%string else name)]
  | BinaryOpExpr _ l r => ls ← CollectAggr ctx l; rs ← CollectAggr ctx r; Ok (ls ++ rs)
  | UnaryOpExpr _ x => CollectAggr ctx x
  | _ => Ok []
  end.

(** [BindPostAgg]: an item over the output of the aggregation, and the number of
    aggregates that are used up. *)
Definition BindPostAgg (G : nat) (out : OutputSchema) (agg_cursor : nat) (e : Expr) : result (nat * list proj_col) :=
  let group_names := take G (output_names out) in
  match e with
  | StarExpr =>
      cols ← each (fun i name => t ← of_option UndefinedBehaviour (output_types out !! i); Ok (BoundColumnRef t i name, name, t))
               (output_names out);
      Ok (agg_cursor, cols)
  | FunctionCallExpr _ _ _ =>
      let pos := G + agg_cursor in
      t ← of_option UndefinedBehaviour (output_types out !! pos);
      name ← of_option UndefinedBehaviour (output_names out !! pos);
      Ok (S agg_cursor, [(BoundColumnRef t pos name, name, t)])
  | ColumnRefExpr _ column_name =>
      match list_find (fun name => name = column_name) group_names with
      | Some (i, name) =>
          t ← of_option UndefinedBehaviour (output_types out !! i);
          Ok (agg_cursor, [(BoundColumnRef t i name, column_name, t)])
      | None => Err (BindError ("column '" +:+ column_name +:+ "' must appear in GROUP BY"))
      end
  | _ => Err (BindError "complex expressions in SELECT with GROUP BY not supported")
  end.

Definition BindAggregateSelect (stmt : SelectStatement) (ctx : BindContext) (scan_filter : LogicalPlan) : result LogicalPlan :=
  groups ← mapM_r (fun g => bound ← BindExpr ctx false g; Ok (bound, group_name g)) (group_by stmt);
  aggs ← mapM_r (CollectAggr ctx) (select_list stmt);
  let cols := groups ++ concat aggs in
  let out := mkOut ((fun c => result_type c.1) <$> cols) (snd <$> cols) in
  let agg_node := LAggregate out ((fun c => CloneExpr c.1) <$> groups) ((fun c => CloneExpr c.1) <$> concat aggs) scan_filter in
  items ← foldM (fun '(cursor, items) e =>
                   '(cursor, cols) ← BindPostAgg (length groups) out cursor e; Ok (cursor, items ++ cols))
            (0, []) (select_list stmt);
  Ok (projection items.2 agg_node).

(** *** SELECT *)

(** ORDER BY over the projected columns of an aggregation. *)
Definition bind_post_sort (stmt : SelectStatement) (top : LogicalPlan) : result LogicalPlan :=
  match order_by stmt with
  | [] => Ok top
  | _ :: _ =>
      out_ctx ← AddTable BindContext_empty 0 "__result__" (output_names (plan_out top)) (output_types (plan_out top)) 0;
      bind_sort (bind_post_key out_ctx) stmt top
  end.

(** What follows the WHERE clause, with and without joins. *)
Definition bind_rest (stmt : SelectStatement) (ctx : BindContext) (source : LogicalPlan) : result LogicalPlan :=
  if has_aggregates stmt then
    top ← BindAggregateSelect stmt ctx source; top ← bind_post_sort stmt top; bind_limit stmt top
  else
    cols ← bind_items ctx (select_list stmt);
    sorted ← bind_sort (BindExpr ctx false) stmt source;
    bind_limit stmt (projection cols sorted).

(** The ON clause and the scan of one join, over the plan so far and its number
    of columns. *)
Definition bind_join (ctx : BindContext) (cur : LogicalPlan * nat) (j : JoinClause * TableCatalogEntry) : result (LogicalPlan * nat) :=
  let '(current_plan, left_count) := cur in
  let '(jc, rtable) := j in
  let right_get := full_get (or_default (join_schema jc)) (join_table jc) rtable PI_none in
  condition ← BindExpr ctx false (join_condition jc);
  let keys := ExtractEquiJoinKeys condition left_count ([], []) in
  let out := mkOut (output_types (plan_out current_plan) ++ ColumnTypes rtable) (output_names (plan_out current_plan) ++ ColumnNames rtable) in
  Ok (LJoin out condition keys.1 keys.2 current_plan right_get, left_count + length (tbl_columns rtable)).

(** The tables of the FROM clause and its joins in one context, each behind the
    columns of the ones before it. *)
Definition join_context (from : string) (table : TableCatalogEntry) (js : list (JoinClause * TableCatalogEntry)) : result BindContext :=
  ctx ← AddTable BindContext_empty 0 from (ColumnNames table) (ColumnTypes table) 0;
  st ← foldM (fun '(ctx, i, col_offset) '(jc, rtable) =>
                ctx ← AddTable ctx (S i) (join_table jc) (ColumnNames rtable) (ColumnTypes rtable) col_offset;
                Ok (ctx, S i, col_offset + length (tbl_columns rtable)))
         (ctx, 0, length (tbl_columns table)) js;
  Ok st.1.1.

Definition BindSelectWithJoin (stmt : SelectStatement) : result LogicalPlan :=
  let left_schema := or_default (from_schema stmt) in
  left_table ← find_table left_schema (from_table stmt) "table not found: ";
  right_tables ← mapM_r (fun jc => find_table (or_default (join_schema jc)) (join_table jc) "table not found: ") (joins stmt);
  let js := zip (joins stmt) right_tables in
  ctx ← join_context (from_table stmt) left_table js;
  cur ← foldM (bind_join ctx) (full_get left_schema (from_table stmt) left_table PI_none, length (tbl_columns left_table)) js;
  source ← bind_where ctx (sel_where stmt) cur.1;
  bind_rest stmt ctx source.

Definition BindSelect (stmt : SelectStatement) : result LogicalPlan :=
  match joins stmt with
  | _ :: _ => BindSelectWithJoin stmt
  | [] =>
      if String.eqb (from_table stmt) "" then Err (BindError "SELECT requires a FROM clause")
      else
        let schema_name := or_default (from_schema stmt) in
        table ← find_table schema_name (from_table stmt) "table not found: ";
        ctx ← AddTable BindContext_empty 0 (from_table stmt) (ColumnNames table) (ColumnTypes table) 0;
        source ← bind_where ctx (sel_where stmt) (full_get schema_name (from_table stmt) table (partition_info table));
        bind_rest stmt ctx source
  end.

(** *** INSERT *)

(** The target columns; without a list, all of them. *)
Definition insert_columns (table : TableCatalogEntry) (names : list string) : result (list nat) :=
  match names with
  | [] => Ok (seq 0 (length (tbl_columns table)))
  | _ :: _ =>
      mapM_r (fun name =>
                let idx := FindColumn table name in
                if Z.ltb idx 0 then Err (BindError ("column not found in table: " +:+ name)) else Ok (Z.to_nat idx)) names
  end.

(** A column of the batch, resized to [n] rows. *)
Definition values_column (n : nat) (t : TypeId) : DataVector :=
  if bool_decide (t = VARCHAR) then mkDV t n [] [] (replicate n ""%string) 0
  else if is_float t then mkDV t n [] (replicate n 0%Z) [] 0
  else mkDV t n (replicate n 0%Z) [] [] 0.

Definition cannot_assign {A} (col : string) (v : Value) (to : string) : result A :=
  Err (BindError ("column '" +:+ col +:+ "': cannot assign " +:+ TypeName (vtype v) +:+ " to " +:+ to)).

Definition put_str (v : DataVector) (i : nat) (x : string) : result DataVector :=
  l ← assign i x (str_data v); Ok (with_str l v).

(** One literal into row [row_idx] of its column. *)
Definition store_literal (col : string) (expected : TypeId) (vec : DataVector) (row_idx : nat) (v : Value) (is_null : bool)
    : result DataVector :=
  if is_null then SetNull vec row_idx
  else
    vec ← SetValid vec row_idx;
    match expected with
    | BOOLEAN | INT8 | INT16 | INT32 | INT64 =>
        if bool_decide (vtype v = INT64) || bool_decide (vtype v = BOOLEAN) then z ← GetInt64 v; put_int vec row_idx z
        else if is_float (vtype v) then
          x ← GetFloat64 v; z ← of_option UndefinedBehaviour (f64_to_i64 x); put_int vec row_idx z
        else cannot_assign col v (TypeName expected)
    | FLOAT32 | FLOAT64 =>
        if is_float (vtype v) then x ← GetFloat64 v; put_float vec row_idx x
        else if IsNumericType (vtype v) then z ← GetInt64 v; put_float vec row_idx (f64_of_i64 z)
        else cannot_assign col v (TypeName expected)
    | VARCHAR =>
        if bool_decide (vtype v = VARCHAR) then s ← GetVarchar v; put_str vec row_idx s else cannot_assign col v "VARCHAR"
    | INVALID => Err (BindError "unsupported column type in INSERT")
    end.

Definition store_value (name : nat -> string) (row_idx : nat) (cols : list DataVector) '((i, e) : nat * Expr) : result (list DataVector) :=
  bound ← BindExpr BindContext_empty false e;
  match bound with
  | LogicalLit _ v is_null =>
      vec ← of_option UndefinedBehaviour (cols !! i);
      vec ← store_literal (name i) (dv_type vec) vec row_idx v is_null; Ok (<[i := vec]> cols)
  | _ => Err (BindError "INSERT VALUES must contain only literals")
  end.

Definition store_row (name : nat -> string) (n : nat) (cols : list DataVector) '((row_idx, row) : nat * list Expr)
    : result (list DataVector) :=
  if negb (Nat.eqb (length row) n) then
    Err (BindError ("row " +:+ pretty row_idx +:+ ": expected " +:+ pretty n +:+ " values, got " +:+ pretty (length row)))
  else foldM (store_value name row_idx) cols (imap pair row).

Definition BindInsert (stmt : InsertStatement) : result LogicalPlan :=
  let schema_name := or_default (ins_schema stmt) in
  table ← find_table schema_name (ins_table stmt) "table not found: ";
  column_ids ← insert_columns table (column_names stmt);
  match select_stmt stmt with
  | Some select =>
      select_plan ← BindSelect select;
      if negb (Nat.eqb (length (output_types (plan_out select_plan))) (length column_ids)) then
        Err (BindError "INSERT...SELECT: column count mismatch")
      else Ok (LInsert no_output schema_name (ins_table stmt) column_ids (mkChunk [] 0) (Some select_plan))
  | None =>
      col_types ← mapM_r (fun c => of_option UndefinedBehaviour (cd_type <$> tbl_columns table !! c)) column_ids;
      let n := length (values stmt) in
      let name i := default ""%string (c ← column_ids !! i; cd_name <$> tbl_columns table !! c) in
      cols ← foldM (store_row name (length column_ids)) (values_column n <$> col_types) (imap pair (values stmt));
      Ok (LInsert no_output schema_name (ins_table stmt) column_ids (mkChunk cols n) None)
  end.

(** *** UPDATE and DELETE *)

(** The binder has its own copy of the function of the optimizer. *)
Definition CollectBoundColumnRefs : LogicalExpr -> gset nat -> gset nat := CollectColumnRefs.

(** The elements of a [std::set], in order. *)
Definition sorted_elements (s : gset nat) : list nat := merge_sort le (elements s).

Definition opt_filter (pred : option LogicalExpr) (source : LogicalPlan) : LogicalPlan :=
  match pred with Some pred => LFilter (plan_out source) pred source | None => source end.

Definition bind_set (table : TableCatalogEntry) (ctx : BindContext) (clause : UpdateSetClause) : result (nat * LogicalExpr) :=
  let idx := FindColumn table (set_column clause) in
  if Z.ltb idx 0 then Err (BindError ("column not found: " +:+ set_column clause))
  else e ← BindExpr ctx false (value_expr clause); Ok (Z.to_nat idx, e).

Definition BindUpdate (stmt : UpdateStatement) : result LogicalPlan :=
  let schema_name := or_default (upd_schema stmt) in
  table ← find_table schema_name (upd_table stmt) "table not found: ";
  ctx ← AddTable BindContext_empty 0 (upd_table stmt) (ColumnNames table) (ColumnTypes table) 0;
  sets ← mapM_r (bind_set table ctx) (set_clauses stmt);
  pred ← match upd_where stmt with None => Ok None | Some e => Some <$> bind_predicate ctx e end;
  let required := list_to_set (fst <$> sets) in
  let required := match pred with Some p => CollectBoundColumnRefs p required | None => required end in
  let required := foldl (fun cols e => CollectBoundColumnRefs e cols) required (snd <$> sets) in
  let column_ids := sorted_elements required in
  cols ← mapM_r (fun c => of_option UndefinedBehaviour (tbl_columns table !! c)) column_ids;
  let get := LGet (mkOut (cd_type <$> cols) (cd_name <$> cols))
               (mkGet schema_name (upd_table stmt) column_ids (catalog_rows table) (partition_info table) []) in
  Ok (LUpdate (schema_of table) schema_name (upd_table stmt) (fst <$> sets) (snd <$> sets) (opt_filter pred get)).

Definition BindDelete (stmt : DeleteStatement) : result LogicalPlan :=
  let schema_name := or_default (del_schema stmt) in
  table ← find_table schema_name (del_table stmt) "table not found: ";
  ctx ← AddTable BindContext_empty 0 (del_table stmt) (ColumnNames table) (ColumnTypes table) 0;
  source ← bind_where ctx (del_where stmt) (full_get schema_name (del_table stmt) table PI_none);
  Ok (LDelete (schema_of table) schema_name (del_table stmt) source).

(** *** DDL *)

Definition check_column (seen : gset string) (col : ColumnDef) : result (gset string) :=
  if bool_decide (def_name col ∈ seen) then Err (BindError ("duplicate column name: " +:+ def_name col))
  else if bool_decide (def_type col = INVALID) then Err (BindError ("invalid type for column: " +:+ def_name col))
  else Ok ({[def_name col]} ∪ seen).

Definition col_definition (c : ColumnDef) : ColumnDefinition :=
  mkCol (def_name c) (def_type c) (def_not_null c) (def_primary_key c).

Definition partition_column (cols : list ColumnDefinition) (pcol : string) : result Z :=
  match list_find (fun c => cd_name c = pcol) cols with
  | Some (i, _) => Ok (Z.of_nat i)
  | None => Err (BindError ("partition column not found: " +:+ pcol))
  end.

(** [ExprToValue] for the [k]-th key column. *)
Definition ExprToValue (cols : list ColumnDefinition) (idxs : list Z) (err : string) (k : nat) (e : Expr) : result Value :=
  c ← of_option UndefinedBehaviour (idx ← idxs !! k; cols !! Z.to_nat idx);
  match e with
  | IntegerLitExpr z => Ok (mkValue (cd_type c) (VInt z))
  | FloatLitExpr b => Ok (mkValue (cd_type c) (VDouble b))
  | StringLitExpr s => Ok (Value_Varchar s)
  | _ => Err (BindError err)
  end.

(** A tuple of bounds, cut to the number of keys. *)
Definition bound_tuple (cols : list ColumnDefinition) (idxs : list Z) (err : string) (es : list Expr) : result (list Value) :=
  each (ExprToValue cols idxs err) (take (length idxs) es).

Fixpoint LexLess (a b : list Value) : result bool :=
  match a, b with
  | x :: a, y :: b =>
      lt ← Value_lt x y;
      if lt : bool then Ok true else gt ← Value_lt y x; if gt : bool then Ok false else LexLess a b
  | _, _ => Ok (Nat.ltb (length a) (length b))
  end.

Fixpoint check_bounds (bounds : list (list Value)) : result unit :=
  match bounds with
  | a :: (b :: _) as rest =>
      lt ← LexLess a b;
      if lt : bool then check_bounds rest else Err (BindError "RANGE partition bounds must be strictly increasing")
  | _ => Ok tt
  end.

Definition bound_err : string := "partition bound must be a literal constant".

(** The partition clause of CREATE TABLE; a statement has fewer than [2^32]
    partitions. *)
Definition bind_partition (stmt : CreateTableStatement) (cols : list ColumnDefinition) : result PartitionInfo :=
  match partition_kind stmt with
  | PK_NONE => Ok PI_none
  | kind =>
      match ct_partition_cols stmt with
      | [] => Err (BindError "partition clause has no key columns")
      | _ :: _ =>
          idxs ← mapM_r (partition_column cols) (ct_partition_cols stmt);
          match kind with
          | PK_RANGE =>
              match range_bounds stmt with
              | [] => Err (BindError "RANGE partitioning requires at least one bound")
              | _ :: _ =>
                  bounds ← mapM_r (bound_tuple cols idxs bound_err) (range_bounds stmt);
                  _ ← check_bounds bounds;
                  Ok (mkPI PT_RANGE (ct_partition_cols stmt) idxs (Z.of_nat (length bounds) + 1)
                        (((fun b => mkDef b []) <$> bounds) ++ [mkDef [] []]))
              end
          | PK_HASH =>
              if Z.ltb (hash_partition_count stmt) 1 then Err (BindError "HASH partitioning requires PARTITIONS >= 1")
              else Ok (mkPI PT_HASH (ct_partition_cols stmt) idxs (hash_partition_count stmt) [])
          | _ =>
              match ct_list_values stmt with
              | [] => Err (BindError "LIST partitioning requires at least one partition")
              | _ :: _ =>
                  parts ← mapM_r (mapM_r (bound_tuple cols idxs bound_err)) (ct_list_values stmt);
                  Ok (mkPI PT_LIST (ct_partition_cols stmt) idxs (Z.of_nat (length parts)) (mkDef [] <$> parts))
              end
          end
      end
  end.

Definition BindCreateTable (stmt : CreateTableStatement) : result LogicalPlan :=
  match ct_columns stmt with
  | [] => Err (BindError "CREATE TABLE requires at least one column")
  | _ :: _ =>
      _ ← foldM check_column ∅ (ct_columns stmt);
      let cols := map col_definition (ct_columns stmt) in
      pi ← bind_partition stmt cols;
      Ok (LCreateTable no_output (or_default (ct_schema stmt)) (ct_table stmt) cols (if_not_exists stmt) pi)
  end.

Definition BindDropTable (stmt : DropTableStatement) : result LogicalPlan :=
  Ok (LDropTable no_output (or_default (dt_schema stmt)) (dt_table stmt) (if_exists stmt)).

Definition alter_err : string := "ALTER TABLE: partition bound must be a literal".

(** The bound or the values of ADD PARTITION. *)
Definition bind_add_partition (stmt : AlterTableStatement) (table : TableCatalogEntry) : result (list Value * list (list Value)) :=
  let pi := partition_info table in
  let tuple := bound_tuple (tbl_columns table) (partition_col_idxs pi) alter_err in
  match partition_col_idxs pi with
  | [] => Err (BindError "ALTER TABLE: partition has no key columns")
  | _ :: _ =>
      match ptype pi with
      | PT_RANGE =>
          match new_range_bound stmt with
          | [] => Err (BindError "ALTER TABLE ADD PARTITION: missing bound for RANGE")
          | es => bound ← tuple es; Ok (bound, [])
          end
      | PT_LIST =>
          match new_list_values stmt with
          | [] => Err (BindError "ALTER TABLE ADD PARTITION: missing values for LIST")
          | tuples => vs ← mapM_r tuple tuples; Ok ([], vs)
          end
      | _ => Err (BindError "ALTER TABLE ADD PARTITION: HASH partitions have fixed count")
      end
  end.

Definition BindAlterTable (stmt : AlterTableStatement) : result LogicalPlan :=
  let schema_name := or_default (at_schema stmt) in
  table ← find_table schema_name (at_table stmt) "ALTER TABLE: table not found: ";
  if negb (IsPartitioned (partition_info table)) then
    Err (BindError ("ALTER TABLE: table is not partitioned: " +:+ at_table stmt))
  else
    match at_kind stmt with
    | AK_DROP_PARTITION =>
        if Z.leb (num_partitions (partition_info table)) (at_partition_idx stmt) then
          Err (BindError "ALTER TABLE: partition index out of range")
        else Ok (LAlterTable no_output (mkAlter DROP_PARTITION schema_name (at_table stmt) (at_partition_idx stmt) [] []))
    | AK_ADD_PARTITION =>
        '(bound, vs) ← bind_add_partition stmt table;
        Ok (LAlterTable no_output (mkAlter ADD_PARTITION schema_name (at_table stmt) 0 bound vs))
    end.

(** [Binder::Bind], and [LogicalPlanner::Plan], which calls it. *)
Definition Bind (stmt : ParsedStatement) : result LogicalPlan :=
  match stmt with
  | StmtSelect s => BindSelect s
  | StmtInsert s => BindInsert s
  | StmtUpdate s => BindUpdate s
  | StmtDelete s => BindDelete s
  | StmtCreateTable s => BindCreateTable s
  | StmtDropTable s => BindDropTable s
  | StmtAlterTable s => BindAlterTable s
  | _ => Err (BindError "Binder: unsupported statement type")
  end.

End statements.

(** ** Bound expressions are well typed *)

(** Every binding of a context is a column of the rows of types [types]. *)
Definition bindings_ok (types : list TypeId) (m : gmap string (list ColumnBinding)) : Prop :=
  forall name bs b, m !! name = Some bs -> b ∈ bs -> types !! b_column_idx b = Some (b_type b).

Definition ctx_ok (types : list TypeId) (ctx : BindContext) : Prop :=
  bindings_ok types (columns_ ctx) /\ bindings_ok types (tables_ ctx).

Lemma ctx_ok_empty types : ctx_ok types BindContext_empty.
Proof. split; intros name bs b H; cbn in H; by rewrite lookup_empty in H. Qed.

Lemma push_binding_ok types k b m :
  bindings_ok types m -> types !! b_column_idx b = Some (b_type b) -> bindings_ok types (push_binding k b m).
Proof.
  intros Hm Hb name bs b' Hl Hin. unfold push_binding in Hl. destruct (decide (k = name)) as [->|Hne].
  - rewrite lookup_insert_eq in Hl. injection Hl as <-. apply elem_of_app in Hin as [Hin|Hin].
    + destruct (m !! name) as [bs'|] eqn:E; [by eapply Hm|]. by apply elem_of_nil in Hin.
    + by apply list_elem_of_singleton in Hin as ->.
  - rewrite lookup_insert_ne in Hl by done. by eapply Hm.
Qed.

Lemma AddTable_ok types ctx i alias names ts off ctx' :
  ctx_ok types ctx -> (forall k t, ts !! k = Some t -> types !! (off + k) = Some t) ->
  AddTable ctx i alias names ts off = Ok ctx' -> ctx_ok types ctx'.
Proof.
  intros Hctx Hts. unfold AddTable.
  assert (ctx_ok types (mkContext (columns_ ctx) (tables_ ctx) (table_order_ ctx ++ [alias]))) as H0 by done.
  revert H0. generalize (mkContext (columns_ ctx) (tables_ ctx) (table_order_ ctx ++ [alias])). clear Hctx ctx.
  induction (imap pair names) as [|[k name] l IH]; intros ctx Hctx Hf; cbn [foldM] in Hf; [by simplify_eq|].
  apply bind_Ok_inv in Hf as (ctx1 & H1 & Hf). apply bind_Ok_inv in H1 as (t & Ht & H1). injection H1 as <-.
  apply (IH _) in Hf; [done|]. apply of_option_Ok_inv in Ht. split; apply push_binding_ok; simpl; (apply Hctx || by apply Hts).
Qed.

Lemma ResolveColumn_ok types ctx name b :
  ctx_ok types ctx -> ResolveColumn ctx name = Ok b -> types !! b_column_idx b = Some (b_type b).
Proof.
  intros [Hc _] Hr. unfold ResolveColumn in Hr. destruct (columns_ ctx !! name) as [[|b' [|]]|] eqn:E; try done.
  injection Hr as <-. by eapply Hc; [|apply list_elem_of_singleton].
Qed.

Lemma ResolveQualified_ok types ctx alias name b :
  ctx_ok types ctx -> ResolveQualified ctx alias name = Ok b -> types !! b_column_idx b = Some (b_type b).
Proof.
  intros [_ Ht] Hr. unfold ResolveQualified in Hr. destruct (tables_ ctx !! alias) as [bs|] eqn:E; [|done].
  destruct (list_find _ bs) as [[i b']|] eqn:Ef; [|done]. injection Hr as <-. apply list_find_Some in Ef as (Hi & _ & _).
  apply list_elem_of_lookup_2 in Hi. by eapply Ht.
Qed.

(** The column types for which a cast to FLOAT64 converts. *)
Definition wide (t : TypeId) : bool :=
  match t with BOOLEAN | INT64 | FLOAT64 | VARCHAR => true | _ => false end.

(** Expressions without BOOLEAN literals, with the unary operators of the
    parser. *)
Fixpoint plain (e : Expr) : bool :=
  match e with
  | BoolLitExpr _ => false
  | BinaryOpExpr _ l r => plain l && plain r
  | UnaryOpExpr op x => (String.eqb op "NOT" || String.eqb op "-") && plain x
  | _ => true
  end.

(** A bound expression: NULL has no type, and is evaluated as an INT64. *)
Record bound (types : list TypeId) (e : LogicalExpr) : Prop := {
  bd_typed : well_typed types e = true;
  bd_type : type_of e = if bool_decide (result_type e = INVALID) then INT64 else result_type e;
  bd_wide : wide (result_type e) = true \/ result_type e = INVALID;
}.

Lemma bound_promote types t e :
  bound types e -> result_type e = t -> IsNumericType t = true -> bound types (promote t e) /\ result_type (promote t e) = FLOAT64.
Proof.
  intros [Hw Ht Hd] <- Hn. unfold promote, Coerce. destruct (bool_decide_reflect (result_type e = FLOAT64)) as [He|He]; [done|].
  destruct Hd as [Hd|Hd]; [|by rewrite Hd in Hn]. assert (result_type e = INT64) as Hi by (by destruct (result_type e)).
  split; [|done]. split; [|done|by left]. cbn [well_typed]. rewrite Hw, Hi. cbn [andb]. rewrite Hi in Ht. by rewrite Ht.
Qed.

Lemma BindBinaryOp_bound types op l r e :
  bound types l -> bound types r -> BindBinaryOp op l r = Ok e -> bound types e.
Proof.
  intros Hl Hr Hb. unfold BindBinaryOp in Hb. apply bind_Ok_inv in Hb as ([[t l'] r'] & Hi & Hb). injection Hb as <-.
  assert (forall a b t', bound types a -> bound types b -> wide t' = true -> binary_ok op t' (type_of a) (type_of b) = true ->
    bound types (LogicalBinaryOp t' op a b)) as Hmk.
  { intros a b t' [Ha _ _] [Hb _ _] Hw Hok. split; [|by destruct t'|by left]. cbn [well_typed]. by rewrite Ha, Hb, Hok. }
  unfold InferBinaryType in Hi. unfold binary_ok in Hmk. destruct (is_arithmetic op) eqn:Ea.
  - destruct (IsNumericType (result_type l)) eqn:Enl; [|done]. destruct (IsNumericType (result_type r)) eqn:Enr; [|done].
    cbn [negb] in Hi.
    destruct (IsIntegerType (result_type l) && IsIntegerType (result_type r))%bool.
    + injection Hi as <- <- <-. apply Hmk; try done. rewrite (bd_type _ _ Hl), (bd_type _ _ Hr).
      by destruct (result_type l), (result_type r).
    + injection Hi as <- <- <-. destruct (bound_promote types _ l Hl eq_refl Enl) as [Hl' Htl], (bound_promote types _ r Hr eq_refl Enr) as [Hr' Htr].
      apply Hmk; try done. by rewrite (bd_type _ _ Hl'), (bd_type _ _ Hr'), Htl, Htr.
  - unfold IsComparisonOp in Hi. destruct (is_comparison op) eqn:Ec.
    + destruct (bool_decide_reflect (result_type l = result_type r)) as [He|He].
      * injection Hi as <- <- <-. apply Hmk; try done. rewrite (bd_type _ _ Hl), (bd_type _ _ Hr), <- He.
        destruct (bd_wide _ _ Hl) as [Hw|Hw]; [|by rewrite Hw]. by destruct (result_type l).
      * destruct (IsNumericType (result_type l)) eqn:Enl; [|done]. destruct (IsNumericType (result_type r)) eqn:Enr; [|done].
        cbn [andb] in Hi. injection Hi as <- <- <-.
        destruct (bound_promote types _ l Hl eq_refl Enl) as [Hl' Htl], (bound_promote types _ r Hr eq_refl Enr) as [Hr' Htr].
        apply Hmk; try done. by rewrite (bd_type _ _ Hl'), (bd_type _ _ Hr'), Htl, Htr.
    + destruct (is_logical op) eqn:El; [|done]. destruct (bool_decide_reflect (result_type l = BOOLEAN)) as [Hbl|]; [|done].
      destruct (bool_decide_reflect (result_type r = BOOLEAN)) as [Hbr|]; [|done]. injection Hi as <- <- <-. apply Hmk; try done.
      by rewrite (bd_type _ _ Hl), (bd_type _ _ Hr), Hbl, Hbr.
Qed.

Lemma bind_unary_bound types op c e :
  bound types c -> (String.eqb op "NOT" || String.eqb op "-")%bool = true -> bind_unary op c = Ok e -> bound types e.
Proof.
  intros [Hw Ht Hd] Hop Hb. unfold bind_unary in Hb.
  assert (forall t, unary_ok op (type_of c) = true -> t = result_type c -> bound types (LogicalUnaryOp t op c)) as Hmk.
  { intros t Hok ->. split; [|done|done]. cbn [well_typed]. by rewrite Hw, Hok. }
  unfold unary_ok in Hmk. rewrite Ht in Hmk.
  destruct (String.eqb_spec op "NOT") as [->|]; cbn [andb orb] in *.
  - destruct (bool_decide_reflect (result_type c = BOOLEAN)) as [He|]; [|done]. rewrite He in *. injection Hb as <-. by apply Hmk.
  - rewrite Hop in *. cbn [andb] in *. destruct (IsNumericType (result_type c)) eqn:En; [|done]. injection Hb as <-. apply Hmk; [|done].
    by destruct (result_type c).
Qed.

Lemma BindExpr_bound types ctx e e' :
  ctx_ok types ctx -> Forall (fun t => wide t = true) types -> plain e = true -> BindExpr ctx false e = Ok e' -> bound types e'.
Proof.
  intros Hctx Hwide. revert e'. induction e as [t c|z|z|s|b| | |op l r IHl IHr|op x IH|name args star _] using Expr_nested_ind;
    intros e' Hp Hb; cbn [plain BindExpr] in *; try done.
  - apply bind_Ok_inv in Hb as (b & Hr & Hb). injection Hb as <-.
    assert (types !! b_column_idx b = Some (b_type b)) as Hl
      by (destruct (String.eqb t ""); [by eapply ResolveColumn_ok|by eapply ResolveQualified_ok]).
    assert (wide (b_type b) = true) as Hw by (by apply (proj1 (Forall_lookup _ _) Hwide) in Hl).
    split; [by apply bool_decide_eq_true|by destruct b as [? ? [] ? ?]|by left].
  - injection Hb as <-. split; [done|done|by left].
  - injection Hb as <-. split; [done|done|by left].
  - injection Hb as <-. split; [done|done|by left].
  - injection Hb as <-. split; [done|done|by right].
  - apply andb_true_iff in Hp as [Hpl Hpr]. apply bind_Ok_inv in Hb as (l' & Hl & Hb). apply bind_Ok_inv in Hb as (r' & Hr & Hb).
    eapply BindBinaryOp_bound; [by apply IHl|by apply IHr|done].
  - apply andb_true_iff in Hp as [Hop Hp]. apply bind_Ok_inv in Hb as (x' & Hx & Hb). eapply bind_unary_bound; [by apply IH|done|done].
Qed.

(** ** The plans of SELECT *)

(** What the passes need of an expression over rows of [n] columns: the columns
    it reads exist and its literals are what their types say. *)
Record resolved (n : nat) (e : LogicalExpr) : Prop := {
  rs_refs : forall i, i ∈ refs e -> i < n;
  rs_lits : lits_ok e;
}.

Lemma resolved_ref types b : types !! b_column_idx b = Some (b_type b) -> resolved (length types) (ref_of b).
Proof.
  intros Hb. split; [|done]. intros i Hi. unfold refs, ref_of in Hi. cbn in Hi. apply lookup_lt_Some in Hb. set_solver.
Qed.

Lemma resolved_coerce n e t : resolved n e -> resolved n (Coerce e t).
Proof. intros [Hr Hl]. unfold Coerce. by destruct (bool_decide (result_type e = t)). Qed.

Lemma BindBinaryOp_resolved n op l r e : resolved n l -> resolved n r -> BindBinaryOp op l r = Ok e -> resolved n e.
Proof.
  intros Hl Hr Hb. unfold BindBinaryOp in Hb. apply bind_Ok_inv in Hb as ([[t l'] r'] & Hi & Hb). injection Hb as <-.
  assert (resolved n l' /\ resolved n r') as [[Hrl Hll] [Hrr Hlr]].
  { unfold InferBinaryType, promote in Hi. repeat (case_match; simplify_eq/=; try done); auto using resolved_coerce. }
  split; [|done]. intros i Hi'. rewrite refs_binary in Hi'. apply elem_of_union in Hi' as [|]; auto.
Qed.

Lemma BindExpr_resolved types ctx allow e e' :
  ctx_ok types ctx -> BindExpr ctx allow e = Ok e' -> resolved (length types) e'.
Proof.
  intros Hctx. revert allow e'. induction e as [t c|z|z|s|b| | |op l r IHl IHr|op x IH|name args star IH] using Expr_nested_ind;
    intros allow e' Hb; cbn [BindExpr] in Hb; try done;
    try (injection Hb as <-; split; [intros i Hi; unfold refs in Hi; cbn in Hi; set_solver|right; by repeat split]).
  - apply bind_Ok_inv in Hb as (b & Hr & Hb). injection Hb as <-. apply resolved_ref.
    destruct (String.eqb t ""); [by eapply ResolveColumn_ok|by eapply ResolveQualified_ok].
  - injection Hb as <-. split; [intros i Hi; unfold refs in Hi; cbn in Hi; set_solver|by left].
  - apply bind_Ok_inv in Hb as (l' & Hl & Hb). apply bind_Ok_inv in Hb as (r' & Hr & Hb). eapply BindBinaryOp_resolved; [by eapply IHl|by eapply IHr|done].
  - apply bind_Ok_inv in Hb as (x' & Hx & Hb). destruct (IH _ _ Hx) as [Hr Hl]. unfold bind_unary in Hb.
    repeat (case_match; simplify_eq/=; try done).
  - destruct allow; [|done]. cbn [negb] in Hb. unfold bind_aggregate in Hb. apply bind_Ok_inv in Hb as (f & _ & Hb).
    destruct star; [injection Hb as <-; split; [intros i Hi; unfold refs in Hi; cbn in Hi; set_solver|done]|].
    destruct args as [|a args]; [done|]. apply Forall_cons in IH as [IH _]. apply bind_Ok_inv in Hb as (a' & Ha & Hb).
    destruct (IH _ _ Ha) as [Hr Hl]. injection Hb as <-. destruct (resolved_coerce _ a' FLOAT64 (IH _ _ Ha)) as [Hrc _].
    destruct f; (split; [|done]); cbn; try exact Hr. by destruct (IsIntegerType (result_type a')).
Qed.

Lemma foldM_concat {A B} (f : A -> result (list B)) l acc res :
  foldM (fun r x => y ← f x; Ok (r ++ y)) acc l = Ok res -> forall z, z ∈ res -> z ∈ acc \/ exists x y, x ∈ l /\ f x = Ok y /\ z ∈ y.
Proof.
  revert acc. induction l as [|x l IH]; intros acc Hf z Hz; cbn [foldM] in Hf; [injection Hf as <-; by left|].
  apply bind_Ok_inv in Hf as (acc' & Hx & Hf). apply bind_Ok_inv in Hx as (y & Hy & Hx). injection Hx as <-.
  destruct (IH _ Hf z Hz) as [Ha|(x' & y' & Hx' & Hfy & Hzy)].
  - apply elem_of_app in Ha as [Ha|Ha]; [by left|right]. exists x, y. split; [set_solver|done].
  - right. exists x', y'. split; [set_solver|done].
Qed.

Lemma ExpandStar_resolved types ctx es : ctx_ok types ctx -> ExpandStar ctx = Ok es -> Forall (resolved (length types)) es.
Proof.
  intros [_ Ht] Hs. apply Forall_forall. intros e He.
  destruct (foldM_concat _ _ _ _ Hs e He) as [Hn|(alias & y & _ & Hy & Hin)]; [by apply elem_of_nil in Hn|].
  apply bind_Ok_inv in Hy as (bs & Hb & Hy). injection Hy as <-. apply of_option_Ok_inv in Hb.
  apply list_elem_of_fmap in Hin as (b & -> & Hin). apply resolved_ref. by eapply Ht.
Qed.

Lemma bind_items_resolved types ctx items cols :
  ctx_ok types ctx -> bind_items ctx items = Ok cols -> Forall (fun c => resolved (length types) c.1.1) cols.
Proof.
  intros Hctx Hb. apply bind_Ok_inv in Hb as (cs & Hm & Hb). injection Hb as <-. apply mapM_r_inv in Hm.
  induction Hm as [|e c items cs He Hm IH]; [constructor|]. cbn [concat]. apply Forall_app. split; [|done].
  assert ((exists expanded, e = StarExpr /\ ExpandStar ctx = Ok expanded /\ c = map star_col expanded) \/
          exists b, BindExpr ctx true e = Ok b /\ c = [(b, item_name e, result_type b)]) as [(ex & _ & Hx & ->)|(b & Hbe & ->)].
  { unfold bind_item in He. destruct e; apply bind_Ok_inv in He as (b & Hbe & He); injection He as <-; eauto. }
  - apply (ExpandStar_resolved types) in Hx; [|done]. clear He. by induction Hx; cbn [map]; constructor.
  - apply Forall_singleton. by eapply BindExpr_resolved.
Qed.

Lemma each_inv {A B} (f : nat -> A -> result B) l k : each f l = Ok k -> Forall2 (fun p y => f p.1 p.2 = Ok y) (imap pair l) k.
Proof. intros H. apply mapM_r_inv in H. eapply Forall2_impl; [exact H|]. by intros [i x] y. Qed.

Lemma bind_sort_cases types ctx stmt source p :
  ctx_ok types ctx -> bind_sort (BindExpr ctx false) stmt source = Ok p ->
  exists srt, p = with_sort srt source /\ Forall (resolved (length types)) (keys_of srt).
Proof.
  intros Hctx Hb. unfold bind_sort in Hb. destruct (order_by stmt) as [|e0 es0]; [injection Hb as <-; exists None; by split|].
  apply bind_Ok_inv in Hb as (keys & Hk & Hb). injection Hb as <-.
  exists (Some (plan_out source, fst <$> keys, snd <$> keys)). split; [done|]. cbn [keys_of]. apply each_inv in Hk.
  induction Hk as [|[i e] [k a] l ks Hke Hk IH]; [constructor|]. constructor; [|exact IH].
  simpl in Hke. apply bind_Ok_inv in Hke as (k' & Hk' & Hke). apply bind_Ok_inv in Hke as (a' & _ & Hke). injection Hke as <- _.
  by eapply BindExpr_resolved.
Qed.

Lemma bind_limit_cases stmt c p :
  bind_limit stmt c = Ok p ->
  exists lim, p = with_limit lim c /\
    match lim with Some (_, l, o) => sel_limit stmt = Some l /\ (0 <= l)%Z /\ o = default 0%Z (sel_offset stmt) | None => sel_limit stmt = None end.
Proof.
  unfold bind_limit. intros Hb. destruct (sel_limit stmt) as [l|]; [|injection Hb as <-; by exists None].
  destruct (Z.ltb_spec l 0); [done|]. injection Hb as <-. by exists (Some (plan_out c, l, default 0%Z (sel_offset stmt))).
Qed.

(** A SELECT without aggregates is a [select_plan] over its source. *)
Lemma bind_rest_cases types ctx stmt source p :
  ctx_ok types ctx -> has_aggregates stmt = false -> bind_rest stmt ctx source = Ok p ->
  exists lim out es srt, p = select_plan lim out es srt source /\
    Forall (resolved (length types)) es /\ Forall (resolved (length types)) (keys_of srt) /\
    match lim with Some (_, l, o) => sel_limit stmt = Some l /\ o = default 0%Z (sel_offset stmt) | None => True end.
Proof.
  intros Hctx Ha Hb. unfold bind_rest in Hb. rewrite Ha in Hb. apply bind_Ok_inv in Hb as (cols & Hc & Hb).
  apply bind_Ok_inv in Hb as (sorted & Hs & Hb). apply (bind_items_resolved types) in Hc; [|done].
  apply (bind_sort_cases types) in Hs as (srt & -> & Hk); [|done]. apply bind_limit_cases in Hb as (lim & -> & Hl).
  exists lim. unfold select_plan, projection. eexists _, _, srt. split; [done|]. split; [|split; [done|]].
  - by apply Forall_fmap.
  - destruct lim as [[[? ?] ?]|]; naive_solver.
Qed.

(** The literals that folding reads, and its exactness, per plan. *)
Fixpoint lits_plan (p : LogicalPlan) : Prop :=
  match p with
  | LFilter _ pred c => lits_ok pred /\ lits_plan c
  | LProjection _ es c => Forall lits_ok es /\ lits_plan c
  | LLimit _ _ _ c | LSort _ _ _ c | LAggregate _ _ _ c => lits_plan c
  | LJoin _ _ _ _ l r => lits_plan l /\ lits_plan r
  | _ => True
  end.

Fixpoint exact_plan (F : FPU) (p : LogicalPlan) : bool :=
  match p with
  | LFilter _ pred c => fold_exact F pred && exact_plan F c
  | LProjection _ es c => forallb (fold_exact F) es && exact_plan F c
  | LLimit _ _ _ c | LSort _ _ _ c | LAggregate _ _ _ c => exact_plan F c
  | LJoin _ _ _ _ l r => exact_plan F l && exact_plan F r
  | _ => true
  end.

Lemma exact_fold_ok F p : lits_plan p -> exact_plan F p = true -> fold_ok F p.
Proof.
  induction p; cbn [lits_plan exact_plan fold_ok]; rewrite ?andb_true_iff; try naive_solver.
  intros [Hl Hc] [He Hx]. split; [|naive_solver]. apply Forall_forall. intros e Hin.
  split; [by apply (proj1 (Forall_forall _ _) Hl)|]. by apply (proj1 (List.forallb_forall _ _) He), list_elem_of_In.
Qed.

Lemma source_lits p : source p = true -> lits_plan p.
Proof. induction p; try done. cbn [source lits_plan]. rewrite andb_true_iff. naive_solver. Qed.

(** The joins of a plan are on equalities of columns of one type, all of tables
    that are joined already. *)
Fixpoint equi_joins (p : LogicalPlan) : bool :=
  match p with
  | LFilter _ _ c | LProjection _ _ c | LLimit _ _ _ c | LSort _ _ _ c | LAggregate _ _ _ c => equi_joins c
  | LJoin out cond _ _ l r =>
      pure_equi cond (length (output_types (plan_out l))) && well_typed (output_types out) cond && equi_joins l && equi_joins r
  | _ => true
  end.

Section select.
Context (F : FPU) (catalog : Catalog) (tx : Transaction) (tables : string -> string -> list sql_row).

(** The rows of a table have the cells of its columns. *)
Definition tables_fit : Prop :=
  forall schema name i table, GetTable catalog schema name tx = Some (i, table) ->
    Forall (row_typed (ColumnTypes table)) (tables schema name).

Context (Hfit : tables_fit).

Notation ok := (plan_ok F tables).
Notation resolves := (exprs_ok tables).

(** What is proved of the source of a SELECT: a join chain or a scan. *)
Record source_ok (p : LogicalPlan) : Prop := {
  so_source : source p = true;
  so_ok : ok p;
  so_resolves : forall es, Forall (resolved (length (output_types (plan_out p)))) es -> resolves p es;
  so_rows : forall rows, query_rows F tables p = Some rows -> Forall (row_typed (output_types (plan_out p))) rows;
}.

Lemma length_ColumnTypes table : length (ColumnTypes table) = length (tbl_columns table).
Proof. apply length_fmap. Qed.

Lemma select_cols_all (r : sql_row) : select_cols (seq 0 (length r)) r = r.
Proof.
  apply list_eq. intros i. unfold select_cols. rewrite list_lookup_fmap. destruct (decide (i < length r)) as [Hi|Hi].
  - rewrite lookup_seq_lt by done. simpl. apply lookup_lt_is_Some in Hi as [x ->]. done.
  - rewrite (lookup_ge_None_2 r i) by lia. by rewrite lookup_seq_ge by lia.
Qed.

Lemma full_get_ok schema name i table pi :
  GetTable catalog schema name tx = Some (i, table) -> source_ok (full_get schema name table pi).
Proof.
  intros Hg. pose proof (Hfit _ _ _ _ Hg) as Hrows. pose proof (length_ColumnTypes table) as Hlen.
  assert (forall r, r ∈ tables schema name -> length r = length (tbl_columns table)) as Hl.
  { intros r Hr. apply (proj1 (Forall_forall _ _) Hrows) in Hr. apply Forall2_length in Hr. congruence. }
  split; [done| | |].
  - split; [|by right]. apply Forall_forall. intros r Hr. apply Forall_forall. intros k Hk. cbn in Hk.
    apply elem_of_seq in Hk. rewrite (Hl r Hr). lia.
  - intros es Hes. split; [done|]. intros g [= <-]. right. eapply Forall_impl; [exact Hes|]. intros e [He _] k Hk.
    apply He in Hk. cbn in Hk |- *. apply elem_of_seq. lia.
  - intros rows Hq. unfold query_rows in Hq. cbn [plan_rows full_get] in Hq. injection Hq as <-.
    apply Forall_forall. intros r Hr. apply list_elem_of_fmap in Hr as (w & -> & Hw). apply list_elem_of_filter in Hw as [_ Hw].
    cbn in Hw. change (narrow _ w) with (select_cols (seq 0 (length (tbl_columns table))) w). rewrite <- (Hl w Hw), select_cols_all.
    by apply (proj1 (Forall_forall _ _) Hrows).
Qed.

(** One more join. *)
Lemma join_ok out cond keys l r :
  source_ok l -> source_ok r -> keys = ExtractEquiJoinKeys cond (length (output_types (plan_out l))) ([], []) ->
  output_types out = output_types (plan_out l) ++ output_types (plan_out r) ->
  equi_joins (LJoin out cond keys.1 keys.2 l r) = true -> source_ok (LJoin out cond keys.1 keys.2 l r).
Proof.
  intros [Hsl Hokl Hrl Htl] [Hsr Hokr Hrr Htr] -> Hout He. cbn [equi_joins] in He. rewrite Hout, !andb_true_iff in He.
  destruct He as [[[Hp Hw] _] _]. split; [by cbn [source]; rewrite Hsl, Hsr| | |].
  - split; [|done]. intros L R x y HL HR Hx Hy. apply (proj1 (Forall_forall _ _) (Htl L HL)) in Hx.
    apply (proj1 (Forall_forall _ _) (Htr R HR)) in Hy. symmetry.
    by destruct (equi_keys F _ _ cond [] [] x y Hp Hw Hx Hy eq_refl) as [_ ->].
  - intros es _. by apply resolves_nil.
  - intros rows Hq. unfold query_rows in Hq. cbn [plan_rows] in Hq. apply fmap_Some in Hq as (rows' & Hr & ->).
    apply bind_Some in Hr as (L & HL & Hr). apply bind_Some in Hr as (R & HR & Hr). injection Hr as <-.
    apply Forall_forall. intros z Hz. cbn [plan_out]. rewrite Hout. unfold narrow at 1 in Hz. cbn [get_source] in Hz.
    rewrite list_fmap_id in Hz. unfold join_rows in Hz. apply list_elem_of_bind in Hz as (x & Hz & Hx).
    apply list_elem_of_filter in Hz as [_ Hz]. apply list_elem_of_fmap in Hz as (y & -> & Hy).
    assert (query_rows F tables l = Some (narrow l <$> L)) as HqL by (unfold query_rows; by rewrite HL).
    assert (query_rows F tables r = Some (narrow r <$> R)) as HqR by (unfold query_rows; by rewrite HR).
    apply Forall2_app; [by apply (proj1 (Forall_forall _ _) (Htl _ HqL))|by apply (proj1 (Forall_forall _ _) (Htr _ HqR))].
Qed.

Lemma find_table_Ok schema name err table :
  find_table catalog tx schema name err = Ok table -> exists i, GetTable catalog schema name tx = Some (i, table).
Proof. unfold find_table. destruct (GetTable _ _ _ _) as [[i t]|]; [|done]. intros [= <-]. eauto. Qed.

(** The invariant of the loop over the joins. *)
Definition chain_inv (cur : LogicalPlan * nat) : Prop :=
  cur.2 = length (output_types (plan_out cur.1)) /\ source cur.1 = true /\ (equi_joins cur.1 = true -> source_ok cur.1).

Lemma bind_join_inv ctx cur jc rtable cur' :
  chain_inv cur -> (exists i, GetTable catalog (or_default (join_schema jc)) (join_table jc) tx = Some (i, rtable)) ->
  bind_join ctx cur (jc, rtable) = Ok cur' -> chain_inv cur'.
Proof.
  intros (Hn & Hs & Hinv) [i Hg] Hb. destruct cur as [p n]. cbn [fst snd] in *. subst n. unfold bind_join in Hb.
  apply bind_Ok_inv in Hb as (cond & Hc & Hb). injection Hb as <-. split; [|split].
  - cbn [fst snd plan_out output_types]. by rewrite length_app, length_ColumnTypes.
  - cbn [fst source]. by rewrite Hs.
  - cbn [fst]. intros He. apply join_ok; [|by eapply full_get_ok|done|done|done].
    apply Hinv. cbn [equi_joins] in He. rewrite !andb_true_iff in He. by destruct He as [[_ ?] _].
Qed.

Lemma join_chain_inv ctx js cur cur' :
  chain_inv cur ->
  Forall (fun j => exists i, GetTable catalog (or_default (join_schema j.1)) (join_table j.1) tx = Some (i, j.2)) js ->
  foldM (bind_join ctx) cur js = Ok cur' -> chain_inv cur'.
Proof.
  intros Hc Hjs. apply foldM_keeps; [done|]. intros a [jc rt] a' Ha Hin. apply (proj1 (Forall_forall _ _) Hjs) in Hin. by apply bind_join_inv.
Qed.

(** The context of a join holds the columns of all its tables. *)
Lemma join_context_ok from table js ctx :
  join_context from table js = Ok ctx -> ctx_ok (ColumnTypes table ++ concat (map (fun j => ColumnTypes j.2) js)) ctx.
Proof.
  intros Hc. apply bind_Ok_inv in Hc as (ctx0 & H0 & Hc). apply bind_Ok_inv in Hc as (st & Hf & Hc). injection Hc as <-.
  set (T := ColumnTypes table ++ _).
  assert (ctx_ok T ctx0) as Hctx0.
  { eapply AddTable_ok; [apply ctx_ok_empty| |exact H0]. intros k t Hk. by apply lookup_app_l_Some. }
  clear H0. assert (T = ColumnTypes table ++ concat (map (fun j : JoinClause * TableCatalogEntry => ColumnTypes j.2) js)) as HT by done.
  rewrite <- length_ColumnTypes in Hf. revert HT Hf. generalize (ColumnTypes table) as pre, 0 as i. clearbody T.
  revert ctx0 Hctx0. induction js as [|[jc rt] js IH]; intros ctx0 Hctx0 pre i HT Hf; cbn [foldM] in Hf; [by injection Hf as <-|].
  apply bind_Ok_inv in Hf as ([[ctx1 i1] off1] & H1 & Hf). apply bind_Ok_inv in H1 as (ctx2 & H2 & H1). injection H1 as <- <- <-.
  cbn [map concat snd] in HT. rewrite app_assoc in HT. eapply (IH _ _ _ _ HT).
  - rewrite length_app, length_ColumnTypes. exact Hf.
  Unshelve.
  eapply AddTable_ok; [exact Hctx0| |exact H2]. intros k t Hk. rewrite HT, <- app_assoc.
  rewrite lookup_app_r by lia. apply lookup_app_l_Some. by replace (length pre + k - length pre) with k by lia.
Qed.

Lemma join_chain_types ctx js cur cur' :
  foldM (bind_join ctx) cur js = Ok cur' ->
  output_types (plan_out cur'.1) = output_types (plan_out cur.1) ++ concat (map (fun j => ColumnTypes j.2) js).
Proof.
  revert cur. induction js as [|[jc rt] js IH]; intros cur Hf; cbn [foldM] in Hf; [injection Hf as <-; by rewrite app_nil_r|].
  apply bind_Ok_inv in Hf as (cur1 & H1 & Hf). rewrite (IH _ Hf). destruct cur as [p n]. apply bind_Ok_inv in H1 as (cond & _ & H1).
  injection H1 as <-. cbn. by rewrite <- app_assoc.
Qed.

(** A source, with its filter if there is one. *)
Lemma bind_where_cases types ctx w src p :
  ctx_ok types ctx -> bind_where ctx w src = Ok p ->
  p = src \/ exists pred, p = LFilter (plan_out src) pred src /\ resolved (length types) pred.
Proof.
  intros Hctx Hb. destruct w as [e|]; [|injection Hb as <-; by left]. apply bind_Ok_inv in Hb as (pred & Hp & Hb). injection Hb as <-.
  right. exists pred. split; [done|]. apply bind_Ok_inv in Hp as (pred' & He & Hp). destruct (bool_decide _); [|done].
  injection Hp as <-. by eapply BindExpr_resolved.
Qed.

(** What SELECT binds its clauses over. *)
Lemma BindSelect_source stmt p :
  BindSelect catalog tx stmt = Ok p ->
  exists types ctx src w, ctx_ok types ctx /\ source src = true /\ bind_where ctx (sel_where stmt) src = Ok w /\
    bind_rest stmt ctx w = Ok p /\
    (equi_joins src = true -> source_ok src /\ forall es, Forall (resolved (length types)) es -> resolves src es).
Proof.
  intros Hb. unfold BindSelect in Hb. destruct (joins stmt) as [|j js] eqn:Ej.
  - destruct (String.eqb (from_table stmt) ""); [done|]. apply bind_Ok_inv in Hb as (table & Ht & Hb).
    apply bind_Ok_inv in Hb as (ctx & Hc & Hb). apply bind_Ok_inv in Hb as (w & Hw & Hb).
    apply find_table_Ok in Ht as [i Ht].
    exists (ColumnTypes table), ctx, (full_get (or_default (from_schema stmt)) (from_table stmt) table (partition_info table)), w.
    split_and!; [|done|exact Hw|done|].
    + eapply AddTable_ok; [apply ctx_ok_empty| |exact Hc]. done.
    + intros _. pose proof (full_get_ok _ _ _ _ (partition_info table) Ht) as Hs. split; [done|]. apply Hs.
  - clear Ej. unfold BindSelectWithJoin in Hb. apply bind_Ok_inv in Hb as (left & Hl & Hb). apply bind_Ok_inv in Hb as (rights & Hr & Hb).
    apply bind_Ok_inv in Hb as (ctx & Hc & Hb). apply bind_Ok_inv in Hb as (cur & Hj & Hb). apply bind_Ok_inv in Hb as (w & Hw & Hb).
    apply find_table_Ok in Hl as [i Hl].
    assert (chain_inv cur) as (_ & Hsrc & Hinv).
    { eapply join_chain_inv; [| |exact Hj].
      - split; [symmetry; apply length_ColumnTypes|]. split; [done|]. intros _. by eapply full_get_ok.
      - apply mapM_r_inv in Hr. clear -Hr. induction Hr as [|jc rt js rts Ht Hr IH]; [constructor|]. cbn [zip_with]. constructor; [|done].
        simpl. by eapply find_table_Ok. }
    exists (ColumnTypes left ++ concat (map (fun j => ColumnTypes j.2) (zip (joins stmt) rights))), ctx, cur.1, w.
    split_and!; [by apply join_context_ok in Hc|done|done|done|]. intros He. split; [by apply Hinv|]. intros es Hes.
    apply Hinv; [done|]. by rewrite (join_chain_types _ _ _ _ Hj).
Qed.

(** The plan of a SELECT without aggregates. *)
Lemma BindSelect_plain stmt p :
  BindSelect catalog tx stmt = Ok p -> has_aggregates stmt = false -> equi_joins p = true ->
  (default 0 (sel_limit stmt) + Z.max 0 (default 0 (sel_offset stmt)) <= INT64_MAX)%Z ->
  exists lim out es srt c, p = select_plan lim out es srt c /\ filtered c = true /\ ok p /\ lits_plan p.
Proof.
  intros Hb Ha He Hl. apply BindSelect_source in Hb as (types & ctx & src & w & Hctx & Hsrc & Hw & Hr & Hinv).
  apply (bind_rest_cases types) in Hr as (lim & out & es & srt & -> & Hes & Hks & Hlim); [|done|done].
  assert (equi_joins src = true /\ filtered w = true) as [Hej Hfw].
  { apply (bind_where_cases types) in Hw as [->|(pred & -> & _)]; [| |done]; split;
      try (destruct lim as [[[? ?] ?]|], srt as [[[? ?] ?]|]; exact He); [by destruct src|by destruct src]. }
  destruct (Hinv Hej) as [[_ Hok _ _] Hres]. exists lim, out, es, srt, w. split; [done|]. split; [done|].
  assert (ok w /\ lits_plan w /\ forall es, Forall (resolved (length types)) es -> resolves w es) as (Hokw & Hlw & Hrw).
  { apply (bind_where_cases types) in Hw as [->|(pred & -> & Hp)]; [| |done].
    - split_and!; [done|by apply source_lits|done].
    - split_and!; [split; [|done]|split; [apply Hp|by apply source_lits]|done]. apply Hres. by apply Forall_singleton. }
  split.
  - apply select_ok. split_and!; [|by apply Hrw|by apply Hrw|done]. destruct lim as [[[o l] off]|]; [|done].
    destruct Hlim as [Hsl ->]. rewrite Hsl in Hl. exact Hl.
  - assert (Forall lits_ok es) as Hle by (eapply Forall_impl; [exact Hes|]; by intros e []).
    destruct lim as [[[? ?] ?]|], srt as [[[? ?] ?]|]; by split.
Qed.

(** The plan of a SELECT with aggregates. *)
Lemma post_agg_refs G out cursor e cursor' cols :
  BindPostAgg G out cursor e = Ok (cursor', cols) -> Forall (fun c => lits_ok c.1.1) cols.
Proof.
  unfold BindPostAgg. intros Hb. destruct e; try done.
  - destruct (list_find _ _) as [[i n]|]; [|done]. apply bind_Ok_inv in Hb as (t & _ & Hb). injection Hb as _ <-. by apply Forall_singleton.
  - apply bind_Ok_inv in Hb as (cs & Hc & Hb). injection Hb as _ <-. apply each_inv in Hc.
    induction Hc as [|[i n] c l cs Hi Hc IH]; [constructor|]. constructor; [|exact IH].
    apply bind_Ok_inv in Hi as (t & _ & Hi). by injection Hi as <-.
  - apply bind_Ok_inv in Hb as (t & _ & Hb). apply bind_Ok_inv in Hb as (n & _ & Hb). injection Hb as _ <-. by apply Forall_singleton.
Qed.

Lemma BindAggregateSelect_cases stmt ctx w p :
  BindAggregateSelect stmt ctx w = Ok p -> exists out es gout gs aggs, p = LProjection out es (LAggregate gout gs aggs w) /\ Forall lits_ok es.
Proof.
  intros Hb. unfold BindAggregateSelect in Hb. apply bind_Ok_inv in Hb as (groups & _ & Hb). apply bind_Ok_inv in Hb as (aggs & _ & Hb).
  cbv zeta in Hb. apply bind_Ok_inv in Hb as (items & Hi & Hb). injection Hb as <-. unfold projection. do 5 eexists. split; [done|].
  apply Forall_fmap. revert Hi. generalize (length groups) as G. intros G Hi.
  eapply (foldM_keeps (fun st : nat * list proj_col => Forall (fun c => lits_ok c.1.1) st.2) _ (0, []) _ items); [constructor| |exact Hi].
  intros [c it] e [c' it'] Hit _ Hs. apply bind_Ok_inv in Hs as ([c1 cols] & Hc & Hs). injection Hs as <- <-.
  apply Forall_app. split; [done|]. by eapply post_agg_refs.
Qed.

Lemma bind_sort_shape bind stmt c p :
  bind_sort bind stmt c = Ok p -> exists srt, p = with_sort srt c.
Proof.
  unfold bind_sort. destruct (order_by stmt); intros Hb; [injection Hb as <-; by exists None|].
  apply bind_Ok_inv in Hb as (keys & _ & Hb). injection Hb as <-. by exists (Some (plan_out c, fst <$> keys, snd <$> keys)).
Qed.

(** The plan of every SELECT is one whose filters sink. *)
Lemma BindSelect_pushable stmt p :
  BindSelect catalog tx stmt = Ok p -> pushable p = true /\ get_source p = None /\ lits_plan p.
Proof.
  intros Hb. apply BindSelect_source in Hb as (types & ctx & src & w & Hctx & Hsrc & Hw & Hr & _).
  assert (pushable w = true /\ lits_plan w) as [Hpw Hlw].
  { assert (sinks src = true) as Hs by (by destruct src). pose proof (source_lits src Hsrc).
    apply (bind_where_cases types) in Hw as [->|(pred & -> & Hp)]; [|split; [done|split; [apply Hp|done]]|done].
    split; [by apply sinks_pushable|done]. }
  destruct (has_aggregates stmt) eqn:Ea.
  - unfold bind_rest in Hr. rewrite Ea in Hr. apply bind_Ok_inv in Hr as (top & Ht & Hr). apply bind_Ok_inv in Hr as (top' & Ho & Hr).
    apply BindAggregateSelect_cases in Ht as (out & es & gout & gs & aggs & -> & Hes).
    assert (exists srt, top' = with_sort srt (LProjection out es (LAggregate gout gs aggs w))) as [srt ->].
    { unfold bind_post_sort in Ho. destruct (order_by stmt); [injection Ho as <-; by exists None|].
      apply bind_Ok_inv in Ho as (octx & _ & Ho). by eapply bind_sort_shape. }
    apply bind_limit_cases in Hr as (lim & -> & _). destruct lim as [[[? ?] ?]|], srt as [[[? ?] ?]|]; by split_and!.
  - apply (bind_rest_cases types) in Hr as (lim & out & es & srt & -> & Hes & _); [|done|done].
    assert (Forall lits_ok es) as Hle by (eapply Forall_impl; [exact Hes|]; by intros e []).
    destruct lim as [[[? ?] ?]|], srt as [[[? ?] ?]|]; by split_and!.
Qed.

End select.

(** ** Theorems *)


(** The plan of every SELECT keeps its rows through the optimizer. *)
Theorem bound_select_optimizes F catalog tx tables cfg stmt p p' rows :
  tables ""%string "__empty__"%string = [] -> tables_fit catalog tx tables ->
  BindSelect catalog tx stmt = Ok p -> exact_plan F p = true ->
  query_rows F tables p = Some rows -> Optimize F cfg p = Ok p' -> query_rows F tables p' = Some rows.
Proof.
  intros Hno Hfit Hb He Hq Ho. destruct (BindSelect_pushable F catalog tx tables Hfit stmt p Hb) as (Hp & Hs & Hl).
  eapply Optimize_query; [exact Hno|by apply exact_fold_ok|exact Hp|exact Hs|exact Hq|exact Ho].
Qed.

(** C17: for a SELECT without aggregates that binds, whose joins are on
    equalities of columns of one type, in which constant folding computes what
    the evaluator computes and whose LIMIT plus OFFSET fits int64_t, over tables
    whose rows have the cells of their columns: if the rows of the plan the
    binder builds are defined, the physical plan made from the optimized plan
    has the same rows, both read by the ideal meaning of their operators
    ([query_rows], [phys_rows]: filters applied, nested-loop joins). Other joins
    and other constants change the rows: [cast_join_is_cross_product],
    [folding_changes_value]. *)
Theorem bound_select_rows F catalog tx tables cfg stmt p p' rows :
  tables ""%string "__empty__"%string = [] -> tables_fit catalog tx tables ->
  BindSelect catalog tx stmt = Ok p -> has_aggregates stmt = false -> equi_joins p = true -> exact_plan F p = true ->
  (default 0 (sel_limit stmt) + Z.max 0 (default 0 (sel_offset stmt)) <= INT64_MAX)%Z ->
  query_rows F tables p = Some rows -> Optimize F cfg p = Ok p' -> phys_rows F tables (Plan p') = Some rows.
Proof.
  intros Hno Hfit Hb Ha Hj He Hl Hq Ho.
  destruct (BindSelect_plain F catalog tx tables Hfit stmt p Hb Ha Hj Hl) as (lim & out & es & srt & c & -> & Hs & Hok & Hlits).
  eapply optimized_plan_rows; [exact Hno|exact Hs|by apply exact_fold_ok|exact Hok|exact Hq|exact Ho].
Qed.

(** *** Examples *)

(** Tables [t(a, c)] and [u(a, d)], as the transaction that creates them sees
    them, and their rows. *)
Definition shop_tx : Transaction := tx_at 9 1.
Definition shop : Catalog :=
  match (c ← CreateTable Catalog_new "main" "t" [mkCol "a" INT64 true false; mkCol "c" INT64 true false] shop_tx PI_none;
         CreateTable c "main" "u" [mkCol "a" INT64 true false; mkCol "d" VARCHAR false false] shop_tx PI_none) with
  | Ok c => c
  | Err _ => Catalog_new
  end.

Definition shop_tables (schema name : string) : list sql_row :=
  if String.eqb schema "main" then
    if String.eqb name "t" then [[Some (CInt 3); Some (CInt 30)]; [Some (CInt 2); Some (CInt 20)]; [Some (CInt 1); Some (CInt 10)]]
    else if String.eqb name "u" then [[Some (CInt 1); Some (CStr "x")]; [Some (CInt 3); None]]
    else []
  else [].

Definition shop_types (name : string) : list TypeId := if String.eqb name "t" then [INT64; INT64] else [INT64; VARCHAR].

Lemma shop_fits : tables_fit shop shop_tx shop_tables.
Proof.
  intros schema name i table Hg. unfold shop_tables.
  destruct (String.eqb_spec schema "main") as [->|]; [|constructor].
  destruct (String.eqb_spec name "t") as [->|].
  - vm_compute in Hg. injection Hg as <- <-. repeat constructor; intros; by simplify_eq.
  - destruct (String.eqb_spec name "u") as [->|]; [|constructor].
    vm_compute in Hg. injection Hg as <- <-. repeat constructor; intros; by simplify_eq.
Qed.

Definition col (name : string) : Expr := ColumnRefExpr "" name.
Definition qcol (table name : string) : Expr := ColumnRefExpr table name.

(** [SELECT c, d FROM t JOIN u ON t.a = u.a WHERE c > 10 ORDER BY c LIMIT 5] *)
Definition shop_join : SelectStatement :=
  mkSelect false [col "c"; col "d"] "t" "" [mkJoin "u" "" (BinaryOpExpr "=" (qcol "t" "a") (qcol "u" "a"))]
    (Some (BinaryOpExpr ">" (col "c") (IntegerLitExpr 10))) [] [col "c"] [true] (Some 5%Z) None.

(** [SELECT SUM(c) FROM t WHERE c > 10] *)
Definition shop_sum : SelectStatement :=
  mkSelect false [FunctionCallExpr "sum" [col "c"] false] "t" "" [] (Some (BinaryOpExpr ">" (col "c") (IntegerLitExpr 10)))
    [] [] [] None None.

Lemma bound_select_optimizes_witness :
  exists p p', BindSelect shop shop_tx shop_sum = Ok p /\ Optimize sample_FPU OptimizerConfig_default p = Ok p' /\
    query_rows sample_FPU shop_tables p' = Some [[Some (CInt 50)]].
Proof.
  eexists _, _. split; [vm_compute; reflexivity|]. split; [vm_compute; reflexivity|].
  eapply (bound_select_optimizes sample_FPU shop shop_tx shop_tables OptimizerConfig_default shop_sum).
  - reflexivity.
  - exact shop_fits.
  - vm_compute. reflexivity.
  - vm_compute. reflexivity.
  - vm_compute. reflexivity.
  - vm_compute. reflexivity.
Defined.

Lemma bound_select_rows_witness :
  exists p p', BindSelect shop shop_tx shop_join = Ok p /\ Optimize sample_FPU OptimizerConfig_default p = Ok p' /\
    phys_rows sample_FPU shop_tables (Plan p') = Some [[Some (CInt 30); None]].
Proof.
  eexists _, _. split; [vm_compute; reflexivity|]. split; [vm_compute; reflexivity|].
  eapply (bound_select_rows sample_FPU shop shop_tx shop_tables OptimizerConfig_default shop_join).
  - reflexivity.
  - exact shop_fits.
  - vm_compute. reflexivity.
  - reflexivity.
  - vm_compute. reflexivity.
  - vm_compute. reflexivity.
  - vm_compute. congruence.
  - vm_compute. reflexivity.
  - vm_compute. reflexivity.
Defined.

(** [a + 1 > 4.5 AND s <> 'x'] against the columns of [sample_chunk]. *)
Definition sample_ast : Expr :=
  BinaryOpExpr "AND"
    (BinaryOpExpr ">" (BinaryOpExpr "+" (col "a") (IntegerLitExpr 1)) (FloatLitExpr (1025 * 2 ^ 52 + 2 ^ 49)))
    (BinaryOpExpr "<>" (col "s") (StringLitExpr "x")).

Definition sample_ctx : BindContext :=
  match AddTable BindContext_empty 0 "t" ["a"; "s"]%string [INT64; VARCHAR] 0 with Ok ctx => ctx | Err _ => BindContext_empty end.
Definition sample_bound : LogicalExpr :=
  match BindExpr sample_ctx false sample_ast with Ok e => e | Err _ => sample_expr end.

Lemma sample_ctx_ok : ctx_ok [INT64; VARCHAR] sample_ctx.
Proof.
  apply (AddTable_ok [INT64; VARCHAR] BindContext_empty 0 "t" ["a"; "s"]%string [INT64; VARCHAR] 0); [apply ctx_ok_empty|done|].
  vm_compute. reflexivity.
Qed.

