(* ===== verification/BinderStatements.v ===== *)
(** * Statements that the binder checks

    What the binder guarantees about CREATE TABLE (the partition metadata that
    routing and pruning rely on), INSERT (the batch of literals) and UPDATE (the
    columns that are scanned), and the statements it gets wrong. *)

From Stdlib Require Import ZArith String.
From stdpp Require Import base gmap strings list fin_maps sorting.
From S2P Require Import Prelude Types Double Expr PartitionInfo Operators Transaction Schema LogicalPlan PhysicalPlanner Optimizer Catalog Ast Binder.

(** ** CREATE TABLE *)

(** A bound whose literal has the representation of the key column. *)
Definition bound_fits (t : TypeId) (e : Expr) : bool :=
  match e, t with
  | IntegerLitExpr _, (INT8 | INT16 | INT32 | INT64) => true
  | FloatLitExpr _, (FLOAT32 | FLOAT64) => true
  | StringLitExpr _, _ => true
  | _, _ => false
  end.

Definition tuple_fits (cols : list ColumnDefinition) (idxs : list Z) (es : list Expr) : bool :=
  forallb (fun '(k, e) => match idx ← idxs !! k; cols !! Z.to_nat idx with Some c => bound_fits (cd_type c) e | None => false end)
    (imap pair (take (length idxs) es)).

Lemma ExprToValue_wf cols idxs err k e v :
  (match idx ← idxs !! k; cols !! Z.to_nat idx with Some c => bound_fits (cd_type c) e | None => false end) = true ->
  ExprToValue cols idxs err k e = Ok v -> Value_wf v.
Proof.
  unfold ExprToValue. destruct (idx ← idxs !! k; cols !! Z.to_nat idx) as [c|]; [|done]. cbn [of_option mbind result_bind].
  destruct e; cbn [bound_fits]; try done; intros Hf [= <-]; unfold Value_wf; cbn; by destruct (cd_type c).
Qed.

Lemma bound_tuple_wf cols idxs err es vs :
  tuple_fits cols idxs es = true -> bound_tuple cols idxs err es = Ok vs -> Forall Value_wf vs /\ length vs = Nat.min (length idxs) (length es).
Proof.
  unfold bound_tuple, tuple_fits. intros Hf Hb. apply each_inv in Hb.
  split.
  - induction Hb as [|[k e] v l vs He Hb IH]; [constructor|]. cbn [forallb] in Hf. apply andb_true_iff in Hf as [Hk Hf].
    constructor; [by eapply ExprToValue_wf|by apply IH].
  - apply Forall2_length in Hb. rewrite length_imap, length_take in Hb. lia.
Qed.

(** Strictly increasing tuples, as [LexLess] compares them. *)
Fixpoint increasing (bounds : list (list Value)) : Prop :=
  match bounds with
  | a :: (b :: _) as rest => LexLess a b = Ok true /\ increasing rest
  | _ => True
  end.

Lemma check_bounds_increasing bounds : check_bounds bounds = Ok tt -> increasing bounds.
Proof.
  induction bounds as [|a [|b rest] IH]; try done. cbn [check_bounds]. intros Hc. apply bind_Ok_inv in Hc as ([] & Hl & Hc); [|done].
  split; [done|]. by apply IH.
Qed.

Lemma partition_column_spec cols idxs names :
  mapM_r (partition_column cols) names = Ok idxs ->
  Forall2 (fun name idx => exists c, cols !! Z.to_nat idx = Some c /\ cd_name c = name) names idxs.
Proof.
  intros H. apply mapM_r_inv in H. eapply Forall2_impl; [exact H|]. intros name idx Hp. unfold partition_column in Hp.
  destruct (list_find _ cols) as [[i c]|] eqn:E; [|done]. injection Hp as <-. apply list_find_Some in E as (Hi & Hn & _).
  exists c. by rewrite Nat2Z.id.
Qed.

Lemma check_columns_spec cols seen seen' :
  foldM check_column seen cols = Ok seen' ->
  NoDup (def_name <$> cols) /\ Forall (fun c => def_type c <> INVALID) cols /\ Forall (fun c => def_name c ∉ seen) cols.
Proof.
  revert seen. induction cols as [|c cols IH]; intros seen Hf; cbn [foldM] in Hf; [by repeat constructor|].
  apply bind_Ok_inv in Hf as (s1 & H1 & Hf). unfold check_column in H1.
  destruct (bool_decide_reflect (def_name c ∈ seen)) as [|Hn]; [done|].
  destruct (bool_decide_reflect (def_type c = INVALID)) as [|Ht]; [done|]. injection H1 as <-.
  destruct (IH _ Hf) as (Hnd & Hty & Hns). split_and!.
  - rewrite fmap_cons. apply NoDup_cons. split; [|done]. intros Hin. apply list_elem_of_fmap in Hin as (c' & He & Hin).
    apply (proj1 (Forall_forall _ _) Hns) in Hin. set_solver.
  - by constructor.
  - constructor; [done|]. eapply Forall_impl; [exact Hns|]. set_solver.
Qed.

(** What CREATE TABLE promises of its columns and partitions. *)
Record create_ok (cols : list ColumnDefinition) (pi : PartitionInfo) : Prop := {
  co_names : NoDup (cd_name <$> cols);
  co_types : Forall (fun c => cd_type c <> INVALID) cols;
  co_keys : Forall2 (fun name idx => exists c, cols !! Z.to_nat idx = Some c /\ cd_name c = name) (partition_cols pi) (partition_col_idxs pi);
  co_wf : IsPartitioned pi = true -> pi_wf pi;
  co_range : ptype pi = PT_RANGE -> exists bounds, defs pi = ((fun b => mkDef b []) <$> bounds) ++ [mkDef [] []] /\ increasing bounds;
}.

(** The number of partitions is a [uint32_t], tuples are not empty and their
    literals are of the types of the key columns. *)
Definition partition_clause_ok (stmt : CreateTableStatement) (pi : PartitionInfo) : Prop :=
  let cols := map col_definition (ct_columns stmt) in
  (num_partitions pi < 2 ^ 32)%Z /\
  Forall (fun es => tuple_fits cols (partition_col_idxs pi) es = true) (range_bounds stmt) /\
  Forall (Forall (fun es => es <> [] /\ tuple_fits cols (partition_col_idxs pi) es = true)) (ct_list_values stmt).

Lemma mapM_r_length {A B} (f : A -> result B) l k : mapM_r f l = Ok k -> length k = length l.
Proof. intros H. apply mapM_r_inv, Forall2_length in H. done. Qed.

Lemma range_defs_wf cols idxs ess bounds :
  Forall (fun es => tuple_fits cols idxs es = true) ess -> mapM_r (bound_tuple cols idxs bound_err) ess = Ok bounds ->
  defs_wf (((fun b => mkDef b []) <$> bounds) ++ [mkDef [] []]) /\
  Forall (fun d => [] ∉ list_values d) (((fun b => mkDef b []) <$> bounds) ++ [mkDef [] []]).
Proof.
  intros Hf Hb. apply mapM_r_inv in Hb. induction Hb as [|es vs ess vss He Hb IH].
  - split; repeat constructor. by intros ?%elem_of_nil.
  - apply Forall_cons in Hf as [Hes Hf]. destruct (IH Hf) as [Hw Ht]. destruct (bound_tuple_wf _ _ _ _ _ Hes He) as [Hv _].
    split; constructor; try done; cbn; [by rewrite app_nil_r|by intros ?%elem_of_nil].
Qed.

Lemma list_part_wf cols idxs ess tuples :
  idxs <> [] -> Forall (fun es => es <> [] /\ tuple_fits cols idxs es = true) ess -> mapM_r (bound_tuple cols idxs bound_err) ess = Ok tuples ->
  Forall Value_wf (concat tuples) /\ [] ∉ tuples.
Proof.
  intros Hne Hf Hb. apply mapM_r_inv in Hb. induction Hb as [|es vs ess vss He Hb IH].
  - split; [constructor|by intros ?%elem_of_nil].
  - apply Forall_cons in Hf as [[Hes Hfit] Hf]. destruct (IH Hf) as [Hw Ht]. destruct (bound_tuple_wf _ _ _ _ _ Hfit He) as [Hv Hl].
    split; [by apply Forall_app|]. apply not_elem_of_cons. split; [|done]. intros <-. destruct idxs, es; try done; simpl in Hl; lia.
Qed.

Lemma list_defs_wf cols idxs lists parts :
  idxs <> [] -> Forall (Forall (fun es => es <> [] /\ tuple_fits cols idxs es = true)) lists ->
  mapM_r (mapM_r (bound_tuple cols idxs bound_err)) lists = Ok parts ->
  defs_wf (mkDef [] <$> parts) /\ Forall (fun d => [] ∉ list_values d) (mkDef [] <$> parts).
Proof.
  intros Hne Hf Hb. apply mapM_r_inv in Hb. induction Hb as [|ess ts lists parts He Hb IH]; [by split; constructor|].
  apply Forall_cons in Hf as [Hes Hf]. destruct (IH Hf) as [Hw Ht]. destruct (list_part_wf _ _ _ _ Hne Hes He) as [Hv Hn].
  by split; constructor.
Qed.

Lemma bind_partition_ok stmt cols pi :
  cols = map col_definition (ct_columns stmt) -> partition_clause_ok stmt pi -> bind_partition stmt cols = Ok pi ->
  Forall2 (fun name idx => exists c, cols !! Z.to_nat idx = Some c /\ cd_name c = name) (partition_cols pi) (partition_col_idxs pi) /\
  (IsPartitioned pi = true -> pi_wf pi) /\
  (ptype pi = PT_RANGE -> exists bounds, defs pi = ((fun b => mkDef b []) <$> bounds) ++ [mkDef [] []] /\ increasing bounds).
Proof.
  intros Hcols (Hn & Hr & Hl) Hb. rewrite <- Hcols in Hr, Hl. unfold bind_partition in Hb.
  destruct (partition_kind stmt); [injection Hb as <-; by split; [constructor|]|..];
    (destruct (ct_partition_cols stmt) as [|pc pcs] eqn:Epc; [done|]); rewrite <- Epc in Hb;
    apply bind_Ok_inv in Hb as (idxs & Hi & Hb); pose proof (partition_column_spec _ _ _ Hi) as Hk;
    assert (idxs <> []) as Hne by (rewrite Epc in Hk; by inversion Hk).
  - destruct (range_bounds stmt) as [|rb rbs]; [done|]. apply bind_Ok_inv in Hb as (bounds & Hbs & Hb).
    apply bind_Ok_inv in Hb as ([] & Hc & Hb). injection Hb as <-. cbn in Hn, Hr.
    destruct (range_defs_wf cols idxs _ bounds Hr Hbs) as [Hw Ht]. split; [done|].
    split; [|intros _; exists bounds; split; [done|by apply check_bounds_increasing]]. intros _.
    split; cbn; [done|done|done|lia|]. intros _. rewrite length_app, length_fmap. simpl. lia.
  - destruct (Z.ltb_spec (hash_partition_count stmt) 1); [done|]. injection Hb as <-. cbn in *. split; [done|]. split; [|done]. intros _.
    split; cbn; [done|constructor|constructor|lia|done].
  - destruct (ct_list_values stmt) as [|lv lvs]; [done|]. apply bind_Ok_inv in Hb as (parts & Hp & Hb).
    injection Hb as <-. cbn in Hn, Hl. destruct (list_defs_wf cols idxs _ parts Hne Hl Hp) as [Hw Ht].
    apply mapM_r_length in Hp. simpl in Hp. split; [done|]. split; [|done]. intros _.
    split; cbn; [done|done|done|lia|]. intros _. by rewrite length_fmap.
Qed.

(** What CREATE TABLE binds. *)
Lemma BindCreateTable_ok stmt p :
  BindCreateTable stmt = Ok p ->
  exists cols pi, p = LCreateTable no_output (or_default (ct_schema stmt)) (ct_table stmt) cols (if_not_exists stmt) pi /\
    (partition_clause_ok stmt pi -> create_ok cols pi).
Proof.
  intros Hb. unfold BindCreateTable in Hb. destruct (ct_columns stmt) as [|c0 cs] eqn:Ec; [done|]. rewrite <- Ec in Hb.
  apply bind_Ok_inv in Hb as (seen & Hs & Hb). apply bind_Ok_inv in Hb as (pi & Hp & Hb). injection Hb as <-.
  apply check_columns_spec in Hs as (Hnd & Hty & _). eexists _, pi. split; [done|]. intros Hok.
  destruct (bind_partition_ok stmt _ pi eq_refl Hok Hp) as (Hk & Hw & Hr). split; [| |done..].
  - change (map col_definition (ct_columns stmt)) with (col_definition <$> ct_columns stmt). by rewrite <- list_fmap_compose.
  - change (map col_definition (ct_columns stmt)) with (col_definition <$> ct_columns stmt). by apply Forall_fmap.
Qed.

(** What a partitioned CREATE TABLE is bound to, when its bounds are
    literals of the types of the key columns: distinct columns of valid types,
    key positions that name the key columns, metadata that satisfies what
    routing and pruning need, and for RANGE strictly increasing bounds closed by
    one partition without a bound. *)
Theorem create_table_partitions stmt out schema name cols ine pi :
  BindCreateTable stmt = Ok (LCreateTable out schema name cols ine pi) -> partition_clause_ok stmt pi -> create_ok cols pi.
Proof. intros Hb Hp. apply BindCreateTable_ok in Hb as (cols' & pi' & [= -> -> -> -> -> ->] & H). by apply H. Qed.

(** ** INSERT *)

(** The cell a literal leaves in a column of type [t]; [None] for what is
    refused or undefined. *)
Definition insert_cell (t : TypeId) (e : Expr) : option (option cell) :=
  match e, storage_of t with
  | NullLitExpr, _ => Some None
  | IntegerLitExpr z, SInt => Some (Some (CInt z))
  | IntegerLitExpr z, SFloat => Some (Some (CFloat (f64_of_i64 z)))
  | FloatLitExpr b, SFloat => Some (Some (CFloat b))
  | FloatLitExpr b, SInt => (fun z => Some (CInt z)) <$> f64_to_i64 b
  | StringLitExpr s, SStr => Some (Some (CStr s))
  | _, _ => None
  end.

(** Writing a cell of the storage of a vector and then setting its bit, in
    either order. *)
Lemma store_int vec i z :
  i < STANDARD_VECTOR_SIZE -> i < length (cells vec) -> storage_of (dv_type vec) = SInt ->
  exists vec', (v ← SetValid vec i; put_int v i z) = Ok vec' /\ row_put vec vec' i (Some (CInt z)).
Proof.
  intros Hi Hl Hs. destruct (put_row_Ok vec i (Some (CInt z)) Hi Hl Hs) as (vec' & Hp & Hr). exists vec'. split; [|done].
  rewrite <- Hp. unfold put_row, put_int, SetValid, bitset_set. rewrite decide_True by done. cbn.
  assert (length (cells vec) = length (int_data vec)) as E by (unfold cells; rewrite Hs; len).
  unfold assign. rewrite !decide_True by lia. cbn. by rewrite ?decide_True by done.
Qed.

Lemma store_float vec i b :
  i < STANDARD_VECTOR_SIZE -> i < length (cells vec) -> storage_of (dv_type vec) = SFloat ->
  exists vec', (v ← SetValid vec i; put_float v i b) = Ok vec' /\ row_put vec vec' i (Some (CFloat b)).
Proof.
  intros Hi Hl Hs. destruct (put_row_Ok vec i (Some (CFloat b)) Hi Hl Hs) as (vec' & Hp & Hr). exists vec'. split; [|done].
  rewrite <- Hp. unfold put_row, put_float, SetValid, bitset_set. rewrite decide_True by done. cbn.
  assert (length (cells vec) = length (float_data vec)) as E by (unfold cells; rewrite Hs; len).
  unfold assign. rewrite !decide_True by lia. cbn. by rewrite ?decide_True by done.
Qed.

Lemma store_str vec i s :
  i < STANDARD_VECTOR_SIZE -> i < length (cells vec) -> storage_of (dv_type vec) = SStr ->
  exists vec', (v ← SetValid vec i; put_str v i s) = Ok vec' /\ row_put vec vec' i (Some (CStr s)).
Proof.
  intros Hi Hl Hs. assert (length (cells vec) = length (str_data vec)) as E by (unfold cells; rewrite Hs; len).
  destruct (set_valid_put vec (with_str (<[i := s]> (str_data vec)) vec) i (CStr s)) as (vec' & Hp & Hr); try done.
  { unfold cells. simpl. rewrite Hs. apply list_fmap_insert. }
  exists vec'. split; [|done]. rewrite <- Hp. unfold put_str, SetValid, bitset_set. rewrite decide_True by done. cbn.
  unfold assign. rewrite !decide_True by lia. cbn. by rewrite ?decide_True by done.
Qed.

Lemma store_value_put name i cols j e vec r :
  cols !! j = Some vec -> i < STANDARD_VECTOR_SIZE -> i < length (cells vec) -> insert_cell (dv_type vec) e = Some r ->
  exists vec', store_value name i cols (j, e) = Ok (<[j := vec']> cols) /\ row_put vec vec' i r.
Proof.
  intros Hj Hi Hl Hc. unfold store_value.
  assert (exists v is_null, BindExpr BindContext_empty false e = Ok (LogicalLit (if is_null : bool then INVALID else vtype v) v is_null) /\
    exists vec', store_literal (name j) (dv_type vec) vec i v is_null = Ok vec' /\ row_put vec vec' i r) as (v & is_null & Hb & vec' & Hs & Hr).
  { unfold insert_cell in Hc. destruct e as [| z | b | s | | | | | |]; try done; cbn [BindExpr].
    - exists (Value_Integer z), false. split; [done|]. unfold store_literal.
      destruct (dv_type vec) eqn:Et; try done; cbn in Hc; injection Hc as <-;
        (apply store_int || apply store_float); try done; by rewrite Et.
    - exists (Value_Float b), false. split; [done|]. unfold store_literal.
      destruct (dv_type vec) eqn:Et; try done; cbn in Hc;
        [..|injection Hc as <-; apply store_float; try done; by rewrite Et|injection Hc as <-; apply store_float; try done; by rewrite Et];
        (destruct (f64_to_i64 b) as [z|] eqn:Ez; [|done]); cbn in Hc; injection Hc as <-;
        (destruct (store_int vec i z Hi Hl) as (vec' & Hp & Hr); [by rewrite Et|]); exists vec'; (split; [|done]);
        destruct (SetValid vec i); try done; cbn; rewrite Ez; exact Hp.
    - exists (Value_Varchar s), false. split; [done|]. unfold store_literal.
      destruct (dv_type vec) eqn:Et; try done. injection Hc as <-. apply store_str; try done. by rewrite Et.
    - exists (Value_Null INVALID), true. split; [done|]. assert (r = None) as -> by (destruct (storage_of (dv_type vec)); congruence).
      unfold store_literal. exact (put_row_Ok vec i None Hi Hl I). }
  rewrite Hb. cbn [mbind result_bind]. rewrite Hj. cbn [of_option mbind result_bind]. rewrite Hs. by exists vec'.
Qed.

(** Column [j] of rows of cells. *)
Definition column (j : nat) (rows : list sql_row) : list (option cell) := (fun r => default None (r !! j)) <$> rows.

(** The batch after some of its [n] rows. *)
Record batch_built (types : list TypeId) (n : nat) (rows : list sql_row) (cols : list DataVector) : Prop := {
  bb_length : length cols = length types;
  bb_built : forall j t, types !! j = Some t -> exists v, cols !! j = Some v /\ built t n (column j rows) v;
}.

Lemma column_app j rows r : column j (rows ++ [r]) = column j rows ++ [default None (r !! j)].
Proof. unfold column. by rewrite fmap_app. Qed.

Lemma length_column j rows : length (column j rows) = length rows.
Proof. apply length_fmap. Qed.

Lemma store_row_built name types n rows cols es r :
  batch_built types n rows cols -> length rows < n -> n <= STANDARD_VECTOR_SIZE ->
  length es = length types -> zip_with insert_cell types es = Some <$> r ->
  exists cols', store_row name (length types) cols (length rows, es) = Ok cols' /\ batch_built types n (rows ++ [r]) cols'.
Proof.
  intros [Hlen Hb] Hrows Hn Hes Hr. unfold store_row. rewrite Hes, Nat.eqb_refl. cbn [negb].
  destruct (foldM_invariant (fun pre cols => length cols = length types /\
      forall j t, types !! j = Some t -> exists v, cols !! j = Some v /\
        built t n (if decide (j < length pre) then column j (rows ++ [r]) else column j rows) v)
    (store_value name (length rows)) cols (imap pair es)) as (cols' & Hf & Hl' & Hb').
  - split; [done|]. intros j t Hj. destruct (Hb j t Hj) as (v & Hv & Hbv). exists v. split; [done|]. by rewrite decide_False by (simpl; lia).
  - intros pre [k e] cs [Hcl Hcb] [suf Hsuf].
    assert (k = length pre /\ es !! k = Some e) as [-> He].
    { assert (imap pair es !! length pre = Some (k, e)) as Hk by (by rewrite Hsuf, lookup_app_r, Nat.sub_diag by done).
      rewrite list_lookup_imap in Hk. apply fmap_Some in Hk as (e' & He' & [= -> ->]). done. }
    assert (length pre < length types) as Hpre by (apply lookup_lt_Some in He; lia).
    destruct (lookup_lt_is_Some_2 types _ Hpre) as [t Ht]. destruct (Hcb _ t Ht) as (v & Hv & Hbv). rewrite decide_False in Hbv by lia.
    assert (exists c, insert_cell t e = Some c /\ r !! length pre = Some c) as (c & Hc & Hrc).
    { assert (zip_with insert_cell types es !! length pre = Some (insert_cell t e)) as Hz by (rewrite lookup_zip_with, Ht; cbn; by rewrite He).
      rewrite Hr, list_lookup_fmap in Hz. apply fmap_Some in Hz as (c & Hc & Heq). by exists c. }
    destruct (store_value_put name (length rows) cs (length pre) e v c Hv) as (v' & Hs & Hp).
    { lia. } { rewrite (Expr.b_cells _ _ _ _ Hbv). lia. } { by rewrite (Expr.b_type _ _ _ _ Hbv). }
    eexists. split; [exact Hs|]. split; [by rewrite length_insert|]. intros j t' Hj. rewrite length_app. cbn [length].
    destruct (decide (j = length pre)) as [->|Hne].
    + rewrite list_lookup_insert_eq by (rewrite Hcl; lia). exists v'. split; [done|]. rewrite decide_True by lia.
      rewrite column_app, Hrc. cbn [default]. assert (t' = t) as -> by congruence.
      apply (built_snoc t n _ v); [done|by rewrite length_column|by rewrite length_column].
    + rewrite list_lookup_insert_ne by done. destruct (Hcb j t' Hj) as (w & Hw & Hbw). exists w. split; [done|].
      destruct (decide (j < length pre)), (decide (j < length pre + 1)); try lia; done.
  - exists cols'. split; [done|]. split; [done|]. intros j t Hj. destruct (Hb' j t Hj) as (v & Hv & Hbv). exists v. split; [done|].
    rewrite length_imap in Hbv. rewrite decide_True in Hbv; [done|]. apply lookup_lt_Some in Hj. lia.
Qed.

Lemma values_column_built n t : storage_of t <> SNone -> built t n [] (values_column n t).
Proof. intros Hs. replace (values_column n t) with (Reset t n) by (by destruct t). by apply built_Reset. Qed.

Lemma store_rows_built name types vals rows :
  length vals <= STANDARD_VECTOR_SIZE -> Forall (fun t => storage_of t <> SNone) types ->
  Forall2 (fun es r => length es = length types /\ zip_with insert_cell types es = Some <$> r) vals rows ->
  exists cols, foldM (store_row name (length types)) (values_column (length vals) <$> types) (imap pair vals) = Ok cols /\
    batch_built types (length vals) rows cols.
Proof.
  intros Hn Ht Hv. pose proof (Forall2_length _ _ _ Hv) as Hlen.
  destruct (foldM_invariant (fun pre cols => batch_built types (length vals) (take (length pre) rows) cols)
    (store_row name (length types)) (values_column (length vals) <$> types) (imap pair vals)) as (cols & Hf & Hb).
  - split; [len|]. intros j t Hj. rewrite list_lookup_fmap, Hj. eexists. split; [done|]. apply values_column_built.
    by apply (proj1 (Forall_lookup _ _) Ht j).
  - intros pre [k es] cs Hb [suf Hsuf].
    assert (imap pair vals !! length pre = Some (k, es)) as Hk by (by rewrite Hsuf, lookup_app_r, Nat.sub_diag by done).
    rewrite list_lookup_imap in Hk. apply fmap_Some in Hk as (es' & Hes & [= -> ->]).
    destruct (Forall2_lookup_l _ _ _ _ _ Hv Hes) as (r & Hr & Hl & Hz). pose proof (lookup_lt_Some _ _ _ Hr) as Hlt.
    assert (length (take (length pre) rows) = length pre) as E by (rewrite length_take; lia).
    destruct (store_row_built name types (length vals) (take (length pre) rows) cs es' r) as (cs' & Hs & Hb'); [done|lia|done..|].
    rewrite E in Hs. exists cs'. split; [exact Hs|]. rewrite length_app. cbn [length]. rewrite Nat.add_1_r.
    by rewrite (take_S_r _ _ r Hr).
  - exists cols. split; [done|]. rewrite length_imap, Hlen, firstn_all in Hb. by rewrite Hlen.
Qed.

(** The rows of a finished batch. *)
Lemma batch_built_rows types rows cols :
  length rows <= STANDARD_VECTOR_SIZE -> Forall (fun t => storage_of t <> SNone) types ->
  Forall (fun r => length r = length types) rows -> batch_built types (length rows) rows cols ->
  batch_ok (mkChunk cols (length rows)) /\ col_types (mkChunk cols (length rows)) = types /\ chunk_rows (mkChunk cols (length rows)) = rows.
Proof.
  intros Hn Ht Hr [Hl Hb].
  assert (forall j v, cols !! j = Some v -> exists t, types !! j = Some t /\ vec_is t (column j rows) v /\ dv_count v = length rows) as Hcol.
  { intros j v Hv. destruct (lookup_lt_is_Some_2 types j) as [t Hj]; [apply lookup_lt_Some in Hv; lia|]. exists t. split; [done|].
    destruct (Hb j t Hj) as (v' & Hv' & Hbv). assert (v' = v) as -> by congruence. split; [|apply Hbv].
    apply (built_done t (length rows)); [by apply (proj1 (Forall_lookup _ _) Ht j)|done|apply length_column|done]. }
  split_and!.
  - split; [|done]. apply Forall_lookup. intros j v Hv. by destruct (Hcol j v Hv) as (t & _ & [Hw _] & Hc).
  - apply (list_eq_same_length _ _ (length types)); unfold col_types; [done|by rewrite length_fmap|]. intros j x y _ Hx Hy.
    rewrite list_lookup_fmap in Hx. apply fmap_Some in Hx as (v & Hv & ->).
    destruct (Hcol j v Hv) as (t & Hj & (_ & Ht' & _) & _). congruence.
  - unfold chunk_rows. apply (list_eq_same_length _ _ (length rows)); [done|by rewrite length_fmap, length_seq|]. intros i x y Hi Hx Hy.
    rewrite list_lookup_fmap, lookup_seq_lt in Hx by done. injection Hx as <-.
    pose proof (proj1 (Forall_lookup _ _) Hr i y Hy) as Hly. unfold row_at.
    apply (list_eq_same_length _ _ (length types)); [done|by rewrite length_fmap|]. intros j x z _ Hx Hz.
    cbn [columns] in Hx. rewrite list_lookup_fmap in Hx. apply fmap_Some in Hx as (v & Hv & ->).
    destruct (Hcol j v Hv) as (t & _ & (_ & _ & Hrows) & Hc).
    assert (dv_rows v !! i = Some (dv_row v i)) as H1 by (unfold dv_rows; rewrite list_lookup_fmap, lookup_seq_lt by lia; done).
    rewrite Hrows in H1. unfold column in H1. rewrite list_lookup_fmap, Hy in H1. cbn in H1. rewrite Hz in H1. cbn in H1. congruence.
Qed.

(** INSERT ... VALUES with at most 1024 rows of literals that fit their
    columns is bound to a batch, one column per target column with the column's
    type, whose rows are the cells of the literals in the order of the
    statement: integers, floats (converted when the column is of the other
    kind), strings and NULL. *)
Theorem insert_values_rows catalog tx stmt table ids types rows :
  find_table catalog tx (or_default (ins_schema stmt)) (ins_table stmt) "table not found: " = Ok table ->
  insert_columns table (column_names stmt) = Ok ids -> select_stmt stmt = None ->
  mapM_r (fun c => of_option UndefinedBehaviour (cd_type <$> tbl_columns table !! c)) ids = Ok types ->
  Forall (fun t => storage_of t <> SNone) types -> length (values stmt) <= STANDARD_VECTOR_SIZE ->
  Forall2 (fun es r => length es = length types /\ zip_with insert_cell types es = Some <$> r) (values stmt) rows ->
  exists chunk, BindInsert catalog tx stmt = Ok (LInsert no_output (or_default (ins_schema stmt)) (ins_table stmt) ids chunk None) /\
    batch_ok chunk /\ col_types chunk = types /\ chunk_rows chunk = rows.
Proof.
  intros Hf Hi Hs Ht Hst Hn Hv. unfold BindInsert. rewrite Hf. cbn [mbind result_bind]. rewrite Hi. cbn [mbind result_bind].
  rewrite Hs, Ht. cbn [mbind result_bind].
  assert (length ids = length types) as -> by (apply mapM_r_length in Ht; done).
  edestruct store_rows_built as (cols & Hc & Hb); [exact Hn|exact Hst|exact Hv|]. rewrite Hc. cbn [mbind result_bind].
  eexists. split; [done|]. rewrite (Forall2_length _ _ _ Hv) in Hn, Hb |- *. apply batch_built_rows; try done.
  apply Forall_lookup. intros i r Hr. destruct (Forall2_lookup_r _ _ _ _ _ Hv Hr) as (es & _ & Hl & Hz).
  apply (f_equal length) in Hz. rewrite length_zip_with, length_fmap in Hz. lia.
Qed.

(** ** Examples *)

(** [CREATE TABLE r (k BIGINT, v VARCHAR) PARTITION BY RANGE (k) (10, 20)], with
    and without increasing bounds. *)
Definition range_table (b1 b2 : Z) : CreateTableStatement :=
  mkCreate "" "r" [mkColumnDef "k" INT64 false false; mkColumnDef "v" VARCHAR false false] false PK_RANGE ["k"%string] 0
    [[IntegerLitExpr b1]; [IntegerLitExpr b2]] [].

Definition range_columns : list ColumnDefinition := [mkCol "k" INT64 false false; mkCol "v" VARCHAR false false].
Definition range_info : PartitionInfo :=
  mkPI PT_RANGE ["k"%string] [0%Z] 3 [mkDef [Value_Integer 10] []; mkDef [Value_Integer 20] []; mkDef [] []].

Lemma create_table_partitions_witness : create_ok range_columns range_info.
Proof.
  apply (create_table_partitions (range_table 10 20) no_output "main" "r" range_columns false range_info).
  - vm_compute. reflexivity.
  - split_and!; [vm_compute; reflexivity|repeat constructor..].
Defined.

Example decreasing_bounds_refused :
  BindCreateTable (range_table 20 10) = Err (BindError "RANGE partition bounds must be strictly increasing").
Proof. vm_compute. reflexivity. Qed.

(** [INSERT INTO u VALUES (7, 'x'), (8, NULL)] *)
Definition shop_insert : InsertStatement :=
  mkInsert "u" "" [] [[IntegerLitExpr 7; StringLitExpr "x"]; [IntegerLitExpr 8; NullLitExpr]] None.

Lemma insert_values_rows_witness :
  exists chunk, BindInsert shop shop_tx shop_insert = Ok (LInsert no_output "main" "u" [0; 1] chunk None) /\
    chunk_rows chunk = [[Some (CInt 7); Some (CStr "x")]; [Some (CInt 8); None]].
Proof.
  destruct (find_table shop shop_tx "main" "u" "table not found: ") as [table|] eqn:E; [|vm_compute in E; discriminate].
  destruct (insert_values_rows shop shop_tx shop_insert table [0; 1] [INT64; VARCHAR]
    [[Some (CInt 7); Some (CStr "x")]; [Some (CInt 8); None]]) as (chunk & Hb & _ & _ & Hr); [exact E|..].
  - vm_compute in E. injection E as <-. vm_compute. reflexivity.
  - reflexivity.
  - vm_compute in E. injection E as <-. vm_compute. reflexivity.
  - repeat constructor; done.
  - apply Nat.leb_le. vm_compute. reflexivity.
  - repeat constructor.
  - exists chunk. split; [exact Hb|exact Hr].
Defined.

(** ** What the binder gets wrong *)

(** DISTINCT changes nothing, and OFFSET nothing without LIMIT. *)
Definition with_distinct (b : bool) (s : SelectStatement) : SelectStatement :=
  mkSelect b (select_list s) (from_table s) (from_schema s) (joins s) (sel_where s) (group_by s) (order_by s) (order_asc s)
    (sel_limit s) (sel_offset s).
Definition with_offset (off : option Z) (s : SelectStatement) : SelectStatement :=
  mkSelect (distinct s) (select_list s) (from_table s) (from_schema s) (joins s) (sel_where s) (group_by s) (order_by s)
    (order_asc s) (sel_limit s) off.

Lemma distinct_ignored catalog tx b s : BindSelect catalog tx (with_distinct b s) = BindSelect catalog tx s.
Proof. by destruct s. Qed.

Lemma offset_needs_limit catalog tx off s :
  sel_limit s = None -> BindSelect catalog tx (with_offset off s) = BindSelect catalog tx s.
Proof.
  destruct s. cbn. intros ->. unfold BindSelect. cbn. destruct joins; [|done].
  destruct (String.eqb _ _); [done|]. destruct (find_table _ _ _ _ _) as [t|]; [|done]. cbn. done.
Qed.

(** [SELECT t.a, t.c FROM t JOIN t ON t.a = t.a]: both copies have the name [t],
    every reference is to the left one, and the join has no key: it is the
    cross product. *)
Definition self_join : SelectStatement :=
  mkSelect false [qcol "t" "a"] "t" "" [mkJoin "t" "" (BinaryOpExpr "=" (qcol "t" "a") (qcol "t" "a"))] None [] [] [] None None.

Example self_join_is_cross_product :
  exists out cond l r, BindSelect shop shop_tx self_join = Ok (LProjection out [BoundColumnRef INT64 0 "a"]
    (LJoin (mkOut [INT64; INT64; INT64; INT64] ["a"; "c"; "a"; "c"]%string) cond [] [] l r)).
Proof. do 4 eexists. vm_compute. reflexivity. Qed.

(** [SELECT u.a FROM t JOIN u ON t.a = u.a GROUP BY t.c, u.a] keeps [u.a], but
    with [GROUP BY t.a, u.a] the qualifier is not looked at: the column is [t.a]. *)
Definition group_join : SelectStatement :=
  mkSelect false [qcol "u" "a"] "t" "" [mkJoin "u" "" (BinaryOpExpr "=" (qcol "t" "c") (qcol "u" "a"))] None
    [qcol "t" "a"; qcol "u" "a"] [] [] None None.

Example group_by_ignores_qualifier :
  exists out aout child, BindSelect shop shop_tx group_join =
    Ok (LProjection out [BoundColumnRef INT64 0 "a"]
          (LAggregate aout [BoundColumnRef INT64 0 "a"; BoundColumnRef INT64 2 "a"] [] child)).
Proof. do 3 eexists. vm_compute. reflexivity. Qed.

(** A BOOLEAN literal passes the type test of an integer column and is then read
    with the wrong getter. *)
Lemma boolean_insert_throws name expected vec i b :
  expected = BOOLEAN \/ expected = INT64 -> i < STANDARD_VECTOR_SIZE ->
  exists e, store_literal name expected vec i (Value_Boolean b) false = Err e.
Proof.
  intros He Hi. unfold store_literal, SetValid, bitset_set. rewrite decide_True by done. cbn.
  destruct He as [-> | ->]; cbn; by eexists.
Qed.

(** An integer bound for a key of type FLOAT is refused by the variant, not by
    the binder. *)
Definition float_key_table : CreateTableStatement :=
  mkCreate "" "r" [mkColumnDef "k" FLOAT64 false false] false PK_RANGE ["k"%string] 0 [[IntegerLitExpr 1]; [IntegerLitExpr 2]] [].

Example float_key_bounds_throw : BindCreateTable float_key_table = Err BadVariantAccess.
Proof. vm_compute. reflexivity. Qed.
