(* ===== verification/TableScan.v ===== *)
(** * Table scans

    [PhysicalTableScan] ([execution/operator/physical_table_scan.cpp]): the
    source of every SELECT.  It extracts zone-map predicates from the filters
    the optimizer pushed into it, splits the columns into those the filters
    need and the others, prunes partitions, and hands out batches: segments
    that no row can match are skipped, the filter columns of a batch are read
    and filtered, and the remaining columns are read for the surviving rows
    only (late materialization).

    The claim is that the batches are the visible rows of the table that pass
    the filters, in order.  It needs two conditions that the planner does not
    ensure, and two claims show what happens without them: a scan whose columns
    are all used by its filters does not apply the filters at all, and the zone
    maps are consulted at the position of the column in the output instead of
    its position in the table. *)

From Stdlib Require Import ZArith SpecFloat String.
From stdpp Require Import base gmap strings list fin_maps sorting.
From S2P Require Import Prelude Types Double Expr Operators Compression BufferManager ColumnChunk ZoneMap VersionInfo RowGroup PartitionInfo HashJoin Pipeline Transaction Schema Catalog.

(** ** Predicates and columns of a filter *)

(** The operator of the zone-map predicate; the literal on the left flips it. *)
Definition scan_op (s : string) (flipped : bool) : option ScanPredicateOp :=
  if String.eqb s "=" then Some EQ
  else if String.eqb s "<" then Some (if flipped then GT else LT)
  else if String.eqb s "<=" then Some (if flipped then GE else LE)
  else if String.eqb s ">" then Some (if flipped then LT else GT)
  else if String.eqb s ">=" then Some (if flipped then LE else GE)
  else None.

Definition TryExtractPredicate (expr : LogicalExpr) : option ScanPredicate :=
  match expr with
  | LogicalBinaryOp _ s (BoundColumnRef _ col _) (LogicalLit _ value is_null) =>
      if is_null : bool then None else op ← scan_op s false; Some (mkPred col op value)
  | LogicalBinaryOp _ s (LogicalLit _ value is_null) (BoundColumnRef _ col _) =>
      if is_null : bool then None else op ← scan_op s true; Some (mkPred col op value)
  | _ => None
  end.

Fixpoint CollectFilterCols (expr : LogicalExpr) (cols : gset nat) : gset nat :=
  match expr with
  | BoundColumnRef _ column_idx _ => {[column_idx]} ∪ cols
  | LogicalBinaryOp _ _ l r => CollectFilterCols r (CollectFilterCols l cols)
  | LogicalUnaryOp _ _ child => CollectFilterCols child cols
  | LogicalCast _ _ child => CollectFilterCols child cols
  | _ => cols
  end.

Fixpoint CloneAndRemap (expr : LogicalExpr) (col_map : gmap nat nat) : LogicalExpr :=
  match expr with
  | BoundColumnRef rt column_idx name => BoundColumnRef rt (default column_idx (col_map !! column_idx)) name
  | LogicalLit rt value is_null => LogicalLit rt value is_null
  | LogicalBinaryOp rt op l r => LogicalBinaryOp rt op (CloneAndRemap l col_map) (CloneAndRemap r col_map)
  | LogicalUnaryOp rt op child => LogicalUnaryOp rt op (CloneAndRemap child col_map)
  | LogicalCast rt from_type child => LogicalCast rt from_type (CloneAndRemap child col_map)
  | LogicalAggrExpr _ _ _ _ => expr
  end.

(** ** The operator *)

Record TableScanState : Type := mkScanState {
  row_group_idx : nat;
  row_offset_in_group : nat;
  partition_idx : nat;
}.

Definition CreateScanState : TableScanState := mkScanState 0 0 0.

(** The parameters set by the planner, then what [InitScan] computes. *)
Record PhysicalTableScan : Type := mkTableScan {
  ts_schema_name : string;
  ts_table_name : string;
  column_ids : list nat;
  pushed_filters : list LogicalExpr;
  ts_output_types : list TypeId;
  scan_predicates_ : list ScanPredicate;
  filter_col_ids_ : list nat;
  payload_col_ids_ : list nat;
  filter_table_col_ids_ : list nat;
  payload_table_col_ids_ : list nat;
  early_filters_ : list LogicalExpr;
  active_partition_ids_ : list Z;
}.

Definition Scan_new (schema table : string) (ids : list nat) (filters : list LogicalExpr) (types : list TypeId)
    : PhysicalTableScan := mkTableScan schema table ids filters types [] [] [] [] [] [] [].

(** The part of the client context a scan looks at. *)
Record ScanContext : Type := mkScanContext { ctx_catalog : option Catalog; ctx_transaction : option Transaction }.

Definition get_table (ctx : ScanContext) (schema table : string) : option (Transaction * TableCatalogEntry) :=
  c ← ctx_catalog ctx; tx ← ctx_transaction ctx; '(_, e) ← GetTable c schema table tx; Some (tx, e).

(** A zone-map predicate at the table column its output column comes from. *)
Definition table_pred (ids : list nat) (sp : ScanPredicate) : ScanPredicate :=
  mkPred (default (pred_col_idx sp) (ids !! pred_col_idx sp)) (pred_op sp) (pred_bound sp).

(** [PhysicalTableScan::InitScan] *)
Definition InitScan (H : Hashes) (ts : PhysicalTableScan) (ctx : ScanContext) : result PhysicalTableScan :=
  let preds := omap TryExtractPredicate (pushed_filters ts) in
  let filter_set : gset nat := foldl (fun cols f => CollectFilterCols f cols) ∅ (pushed_filters ts) in
  let positions := match pushed_filters ts with [] => [] | _ => imap pair (column_ids ts) end in
  let early := filter (fun p => p.1 ∈ filter_set) positions in
  let late := filter (fun p => p.1 ∉ filter_set) positions in
  let full_to_early : gmap nat nat := list_to_map (imap (fun i p => (p.1, i)) early) in
  active ← match get_table ctx (ts_schema_name ts) (ts_table_name ts) with
           | Some (_, e) =>
               if IsPartitioned (partition_info e) then
                 PrunedPartitions H (partition_info e) (table_pred (column_ids ts) <$> preds)
               else Ok []
           | None => Ok []
           end;
  Ok (mkTableScan (ts_schema_name ts) (ts_table_name ts) (column_ids ts) (pushed_filters ts) (ts_output_types ts)
        preds early.*1 late.*1 early.*2 late.*2 ((fun f => CloneAndRemap f full_to_early) <$> pushed_filters ts) active).

(** ** Batches *)

(** The loop that skips segments by their zone maps. *)
Fixpoint zone_skip (fuel : nat) (rg : RowGroup) (offset : nat) (preds : list ScanPredicate) : result nat :=
  match fuel with
  | O => Err UndefinedBehaviour
  | Datatypes.S fuel =>
      if decide (offset < row_count_ rg) then
        skip ← rg_ZoneMapSkipRows rg offset preds;
        if decide (skip = 0) then Ok offset else zone_skip fuel rg (offset + skip) preds
      else Ok offset
  end.

Definition skip_segments (rg : RowGroup) (offset : nat) (preds : list ScanPredicate) : result nat :=
  match preds with [] => Ok offset | _ => zone_skip (Datatypes.S (row_count_ rg)) rg offset preds end.

(** The merge of two ascending selections; [j] has moved past [sel2]. *)
Fixpoint skip_below (idx : nat) (sel2 : list nat) : list nat :=
  match sel2 with
  | x :: rest => if decide (x < idx) then skip_below idx rest else sel2
  | [] => []
  end.

Fixpoint intersect (pred_sel sel2 : list nat) : list nat :=
  match pred_sel with
  | [] => []
  | idx :: rest =>
      let sel2 := skip_below idx sel2 in
      match sel2 with
      | x :: _ => if decide (x = idx) then idx :: intersect rest sel2 else intersect rest sel2
      | [] => intersect rest sel2
      end
  end.

Section scan.
Context (F : FPU).

Fixpoint more_filters (filters : list LogicalExpr) (early_chunk : DataChunk) (pred_sel : list nat) : result (list nat) :=
  match filters, pred_sel with
  | [], _ | _, [] => Ok pred_sel
  | f :: filters, _ =>
      sel2 ← EvaluatePredicate F f early_chunk;
      more_filters filters early_chunk (intersect pred_sel sel2)
  end.

Definition apply_filters (filters : list LogicalExpr) (early_chunk : DataChunk) : result (list nat) :=
  match filters with
  | [] => Ok (seq 0 (ch_count early_chunk))
  | f :: filters => pred_sel ← EvaluatePredicate F f early_chunk; more_filters filters early_chunk pred_sel
  end.

(** Filter columns compacted into the output, payload columns moved into it. *)
Definition place_filter_col (pred_sel : list nat) (cols : list DataVector) (p : nat * DataVector)
    : result (list DataVector) :=
  dst ← of_option UndefinedBehaviour (cols !! p.1);
  dst ← foldM (fun dst i => DataVectorAppend dst p.2 i) dst pred_sel;
  Ok (<[p.1 := dst]> cols).

Definition place_payload_col (cols : list DataVector) (p : nat * DataVector) : result (list DataVector) :=
  assign p.1 p.2 cols.

Definition assemble (ts : PhysicalTableScan) (pred_sel : list nat) (early late : list DataVector) : result DataChunk :=
  cols ← foldM (place_filter_col pred_sel) (columns (Initialize (ts_output_types ts))) (zip (filter_col_ids_ ts) early);
  cols ← foldM place_payload_col cols (zip (payload_col_ids_ ts) late);
  Ok (mkChunk cols (length pred_sel)).

Context {S : Type} {BSops : BlockStore S}.

(** One batch at [offset] of a row group: the offset after it, and the output
    ([None] leaves the output of the caller alone). *)
Definition scan_batch (ts : PhysicalTableScan) (tx : Transaction) (s : S) (rg : RowGroup) (offset : nat)
    : result (S * nat * option DataChunk) :=
  match payload_col_ids_ ts with
  | _ :: _ =>
      '(s, offset, early_chunk, vis_offsets, _) ←
        ScanBatchWithOffsets s rg offset (filter_table_col_ids_ ts) (mkChunk [] 0) [] (tx_id tx) (start_time tx);
      if decide (ch_count early_chunk = 0) then Ok (s, offset, None) else
      pred_sel ← apply_filters (early_filters_ ts) early_chunk;
      match pred_sel with
      | [] => Ok (s, offset, None)
      | _ =>
          final_offsets ← mapM_r (fun idx => of_option UndefinedBehaviour (vis_offsets !! idx)) pred_sel;
          '(s, late_chunk) ← ScanLate s rg (Z.to_nat <$> final_offsets) (payload_table_col_ids_ ts);
          output ← assemble ts pred_sel (columns early_chunk) (columns late_chunk);
          Ok (s, offset, Some output)
      end
  | [] =>
      '(s, offset, output, _) ← rg_Scan s rg offset (column_ids ts) (mkChunk [] 0) (tx_id tx) (start_time tx);
      Ok (s, offset, Some output)
  end.

(** The loop over the row groups [idxs] of the table, shared by the two branches
    of [GetData]: it stops with a batch, or past the last group. *)
Fixpoint scan_groups (fuel : nat) (ts : PhysicalTableScan) (tx : Transaction) (s : S) (rgs : list RowGroup)
    (idxs : list nat) (idx offset : nat) (output : DataChunk) : result (bool * DataChunk * S * nat * nat) :=
  match fuel with
  | O => Err UndefinedBehaviour
  | Datatypes.S fuel =>
      match idxs !! idx with
      | None => Ok (false, output, s, idx, offset)
      | Some i =>
          rg ← of_option UndefinedBehaviour (rgs !! i);
          offset ← skip_segments rg offset (scan_predicates_ ts);
          if decide (row_count_ rg <= offset) then scan_groups fuel ts tx s rgs idxs (idx + 1) 0 output else
          '(s, offset, batch) ← scan_batch ts tx s rg offset;
          let '(idx, offset) := if decide (row_count_ rg <= offset) then (idx + 1, 0) else (idx, offset) in
          match batch with
          | Some output =>
              if decide (0 < ch_count output) then Ok (true, output, s, idx, offset)
              else scan_groups fuel ts tx s rgs idxs idx offset output
          | None => scan_groups fuel ts tx s rgs idxs idx offset output
          end
      end
  end.

(** Every round moves on in a group or to the next one. *)
Definition group_rounds (rgs : list RowGroup) (i : nat) : nat :=
  match rgs !! i with Some rg => Datatypes.S (row_count_ rg) | None => 1 end.
Definition scan_fuel (rgs : list RowGroup) (idxs : list nat) : nat := Datatypes.S (sum_list_with (group_rounds rgs) idxs).

(** The loop over the active partitions. *)
Fixpoint scan_partitions (ts : PhysicalTableScan) (tx : Transaction) (e : TableCatalogEntry) (s : S) (pids : list Z)
    (st : TableScanState) (output : DataChunk) : result (OperatorResultType * DataChunk * S * TableScanState) :=
  match pids with
  | [] => Ok (FINISHED, output, s, st)
  | pid :: pids =>
      rg_indices ← of_option UndefinedBehaviour (partition_rg_indices e !! Z.to_nat pid);
      '(found, output, s, idx, offset) ←
        scan_groups (scan_fuel (row_groups e) rg_indices) ts tx s (row_groups e) rg_indices (row_group_idx st) (row_offset_in_group st) output;
      if found : bool then Ok (HAVE_MORE_OUTPUT, output, s, mkScanState idx offset (partition_idx st))
      else scan_partitions ts tx e s pids (mkScanState 0 0 (partition_idx st + 1)) output
  end.

(** [PhysicalTableScan::GetData] *)
Definition GetData (ts : PhysicalTableScan) (ctx : ScanContext) (src : S * TableScanState) (output : DataChunk)
    : result (OperatorResultType * DataChunk * (S * TableScanState)) :=
  let '(s, st) := src in
  match get_table ctx (ts_schema_name ts) (ts_table_name ts) with
  | None => Ok (FINISHED, output, (s, st))
  | Some (tx, e) =>
      match active_partition_ids_ ts with
      | _ :: _ =>
          '(r, output, s, st) ← scan_partitions ts tx e s (drop (partition_idx st) (active_partition_ids_ ts)) st output;
          Ok (r, output, (s, st))
      | [] =>
          let all := seq 0 (length (row_groups e)) in
          '(found, output, s, idx, offset) ←
            scan_groups (scan_fuel (row_groups e) all) ts tx s (row_groups e) all (row_group_idx st) (row_offset_in_group st) output;
          Ok (if found : bool then HAVE_MORE_OUTPUT else FINISHED, output, (s, mkScanState idx offset (partition_idx st)))
      end
  end.

End scan.

(** ** Remapping a filter to the early columns *)

Lemma CollectFilterCols_acc e X : CollectFilterCols e X = CollectFilterCols e ∅ ∪ X.
Proof.
  revert X. induction e as [t i nm|t v n|rt op a IHa b IHb|rt op a IHa|rt from a IHa|rt f st arg]; intros X; simpl;
    rewrite ?(right_id_L ∅ (∪)), ?(left_id_L ∅ (∪)); try done; try apply IHa.
  rewrite IHb, (IHb (CollectFilterCols a ∅)), IHa. apply (assoc_L (∪)).
Qed.

(** The early row has the columns the expression mentions, where the map says. *)
Definition remaps {A} (cols : gset nat) (m : gmap nat nat) (full early : list A) : Prop :=
  forall i, i ∈ cols -> early !! default i (m !! i) = full !! i.

Lemma remaps_binary {A} a b m (full early : list A) :
  remaps (CollectFilterCols b (CollectFilterCols a ∅)) m full early ->
  remaps (CollectFilterCols a ∅) m full early /\ remaps (CollectFilterCols b ∅) m full early.
Proof. rewrite CollectFilterCols_acc. intros H. split; intros i Hi; apply H; set_solver. Qed.

Lemma CloneAndRemap_type e m : type_of (CloneAndRemap e m) = type_of e.
Proof. by induction e. Qed.

Lemma CloneAndRemap_eval F e m full early :
  remaps (CollectFilterCols e ∅) m full early -> eval_row F (CloneAndRemap e m) early = eval_row F e full.
Proof.
  induction e as [t i nm|t v n|rt op a IHa b IHb|rt op a IHa|rt from a IHa|rt f st arg]; simpl; intros H; try done.
  - apply H. set_solver.
  - apply remaps_binary in H as [Ha Hb]. by rewrite IHa, IHb.
  - by rewrite IHa.
  - by rewrite IHa.
Qed.

Lemma CloneAndRemap_typed e m full early :
  remaps (CollectFilterCols e ∅) m full early -> well_typed full e = true -> well_typed early (CloneAndRemap e m) = true.
Proof.
  induction e as [t i nm|t v n|rt op a IHa b IHb|rt op a IHa|rt from a IHa|rt f st arg]; simpl; intros H; try done.
  - rewrite !bool_decide_eq_true. rewrite H by set_solver. done.
  - apply remaps_binary in H as [Ha Hb]. rewrite !andb_true_iff, !CloneAndRemap_type. naive_solver.
  - rewrite !andb_true_iff, !CloneAndRemap_type. naive_solver.
  - rewrite !andb_true_iff, !CloneAndRemap_type. naive_solver.
Qed.

(** ** Selections *)

Lemma filter_ext_Forall {A} (P Q : A -> Prop) `{forall x, Decision (P x), forall x, Decision (Q x)} l :
  Forall (fun x => P x <-> Q x) l -> filter P l = filter Q l.
Proof.
  induction 1 as [|x l Hx _ IH]; [done|]. rewrite !filter_cons, IH. by rewrite (decide_ext _ _ _ _ Hx).
Qed.

Lemma skip_below_elem idx sel i :
  StronglySorted lt sel -> idx <= i -> i ∈ skip_below idx sel <-> i ∈ sel.
Proof.
  intros Hs Hi. induction Hs as [|x sel Hs IH Hx]; [done|]. simpl. case_decide; [|done]. rewrite IH, elem_of_cons. intuition lia.
Qed.

Lemma skip_below_sorted idx sel : StronglySorted lt sel -> StronglySorted lt (skip_below idx sel).
Proof. induction 1 as [|x sel Hs IH Hx]; simpl; [constructor|]. case_decide; [done|by constructor]. Qed.

Lemma skip_below_head idx sel x rest : skip_below idx sel = x :: rest -> idx <= x.
Proof. induction sel as [|y sel IH]; simpl; [done|]. case_decide; [done|]. intros [= <- _]. lia. Qed.

Lemma intersect_filter a b :
  StronglySorted lt a -> StronglySorted lt b -> intersect a b = filter (fun i => i ∈ b) a.
Proof.
  intros Ha. revert b. induction Ha as [|idx a Ha IH Hidx]; intros b Hb; [done|].
  cbn [intersect]. rewrite filter_cons.
  assert (filter (fun i => i ∈ b) a = intersect a (skip_below idx b)) as ->.
  { rewrite IH by by apply skip_below_sorted. apply filter_ext_Forall. rewrite Forall_forall in Hidx.
    apply Forall_forall. intros i Hi. rewrite skip_below_elem; [done|done|]. apply Hidx in Hi. lia. }
  pose proof (skip_below_elem idx b idx Hb ltac:(lia)) as Hel.
  pose proof (skip_below_sorted idx b Hb) as Hss.
  destruct (skip_below idx b) as [|x rest] eqn:E.
  - rewrite decide_False; [done|]. rewrite <- Hel. apply not_elem_of_nil.
  - pose proof (skip_below_head _ _ _ _ E). destruct (decide (x = idx)) as [->|Hne].
    + rewrite decide_True; [done|]. rewrite <- Hel. apply elem_of_cons. by left.
    + rewrite decide_False; [done|]. rewrite <- Hel. inversion Hss as [|? ? _ Hall]; subst.
      rewrite elem_of_cons. intros [->|Hin]; [done|]. rewrite Forall_forall in Hall. apply Hall in Hin. lia.
Qed.

Lemma sorted_lt_filter_seq (P : nat -> Prop) `{forall x, Decision (P x)} start n : StronglySorted lt (filter P (seq start n)).
Proof.
  apply StronglySorted_filter. revert start. induction n as [|n IH]; intros start; simpl; constructor; [done|].
  apply Forall_forall. intros x Hx%elem_of_seq. lia.
Qed.

Section filters.
Context (F : FPU).

Definition passes_all (filters : list LogicalExpr) (r : sql_row) : bool := forallb (fun f => row_passes F f r) filters.

Definition filter_ok (types : list TypeId) (f : LogicalExpr) : Prop :=
  well_typed types f = true /\ is_intlike (type_of f) = true.

Lemma more_filters_Ok filters c P :
  batch_ok c -> Forall (filter_ok (col_types c)) filters -> Forall (fun f => defined_on F f c) filters ->
  more_filters F filters c (filter (fun i => P (Expr.row_at c i) = true) (seq 0 (ch_count c))) =
  Ok (filter (fun i => P (Expr.row_at c i) && passes_all filters (Expr.row_at c i) = true) (seq 0 (ch_count c))).
Proof.
  intros [Hwf Hn] Hok. revert P. induction Hok as [|f filters [Hty Hb] _ IH]; intros P Hdef.
  - cbn [more_filters]. f_equal. apply filter_ext_Forall, Forall_true. intros i. simpl. by rewrite andb_true_r.
  - apply Forall_cons in Hdef as [Hd Hdef]. cbn [more_filters]. set (sel := filter _ (seq 0 _)).
    assert (filter (fun i => (P (Expr.row_at c i) && passes_all (f :: filters) (Expr.row_at c i)) = true) (seq 0 (ch_count c)) =
      filter (fun i => (P (Expr.row_at c i) && row_passes F f (Expr.row_at c i)) && passes_all filters (Expr.row_at c i) = true)
        (seq 0 (ch_count c))) as Heq by (apply filter_ext_Forall, Forall_true; intros i; simpl; by rewrite andb_assoc).
    destruct sel as [|i0 sel'] eqn:Es.
    + f_equal. symmetry. apply elem_of_nil_inv. intros i [Hp Hi]%list_elem_of_filter.
      apply andb_true_iff in Hp as [Hp _]. apply (not_elem_of_nil i). rewrite <- Es. by apply list_elem_of_filter.
    + rewrite EvaluatePredicate_Ok by done. cbn [mbind result_bind]. rewrite <- Es. unfold sel.
      rewrite intersect_filter by apply sorted_lt_filter_seq. rewrite Heq, <- (IH (fun r => P r && row_passes F f r)) by done. f_equal.
      rewrite list_filter_filter. apply filter_ext_Forall, Forall_forall. intros i Hi.
      rewrite list_elem_of_filter, andb_true_iff. naive_solver.
Qed.

Lemma apply_filters_Ok filters c :
  batch_ok c -> Forall (filter_ok (col_types c)) filters -> Forall (fun f => defined_on F f c) filters ->
  apply_filters F filters c = Ok (filter (fun i => passes_all filters (Expr.row_at c i) = true) (seq 0 (ch_count c))).
Proof.
  intros Hb Hok Hdef. destruct filters as [|f filters]; cbn [apply_filters].
  - f_equal. symmetry. apply filter_all, Forall_true. done.
  - apply Forall_cons in Hok as [[Hty Hi] Hok]. apply Forall_cons in Hdef as [Hd Hdef].
    rewrite EvaluatePredicate_Ok by (done || apply Hb). cbn [mbind result_bind]. by rewrite more_filters_Ok.
Qed.

End filters.

(** ** Zone-map predicates *)

Section predicates.
Context {A : Type} (eqb ltb leb : A -> A -> bool).
Hypothesis leb_spec : forall a b, leb a b = ltb a b || eqb a b.
Hypothesis eqb_sym : forall a b, eqb a b = eqb b a.

(** The comparison the scan predicate stands for. *)
Definition op_holds (op : ScanPredicateOp) (a b : A) : bool :=
  match op with
  | EQ => eqb a b | LT => ltb a b | LE => ltb a b || eqb a b | GT => ltb b a | GE => ltb b a || eqb b a
  end.

Lemma compare_by_op s flipped op a b :
  scan_op s flipped = Some op ->
  is_arithmetic s = false /\ is_comparison s = true /\
  compare_by eqb ltb leb s (if flipped then b else a) (if flipped then a else b) = op_holds op a b.
Proof.
  unfold scan_op. intros H.
  repeat (match type of H with (if String.eqb s ?k then _ else _) = _ => destruct (String.eqb_spec s k) as [->|] end;
    [injection H as <-; destruct flipped; cbn; rewrite ?leb_spec; by try rewrite eqb_sym|]).
  done.
Qed.
End predicates.

Lemma Z_leb_spec a b : Z.leb a b = Z.ltb a b || Z.eqb a b.
Proof. lia. Qed.

Lemma f64_leb_spec a b : f64_leb a b = f64_ltb a b || f64_eqb a b.
Proof.
  with_strategy transparent [f64_leb] unfold f64_leb, f64_ltb, f64_eqb, SFleb, SFltb, SFeqb.
  by destruct (SFcompare _ _) as [[]|].
Qed.

Lemma string_leb_spec a b : String.leb a b = String.ltb a b || String.eqb a b.
Proof.
  unfold String.leb, String.ltb. destruct (String.compare a b) eqn:E; try done.
  - apply String.compare_eq_iff in E as ->. by rewrite String.eqb_refl.
  - simpl. symmetry. apply String.eqb_neq. intros ->. pose proof (String.compare_antisym b b) as H. rewrite E in H. done.
Qed.

Lemma Value_int_cmp z v : vtype v = INT64 -> literal_ok v = true ->
  exists b, data v = VInt b /\ forall op, pred_holds op (Value_Integer z) v = op_holds Z.eqb Z.ltb op z b.
Proof.
  destruct v as [t d]. simpl. intros ->. destruct d as [b| | |]; try done. intros _. exists b. split; [done|]. by intros [].
Qed.

Lemma Value_float_cmp z v : vtype v = FLOAT64 -> literal_ok v = true ->
  exists b, data v = VDouble b /\ forall op, pred_holds op (Value_Float z) v = op_holds f64_eqb f64_ltb op z b.
Proof.
  destruct v as [t d]. simpl. intros ->. destruct d as [|b| |]; try done. intros _. exists b. split; [done|]. by intros [].
Qed.

Lemma Value_str_cmp z v : vtype v = VARCHAR -> literal_ok v = true ->
  exists b, data v = VStr b /\ forall op, pred_holds op (Value_Varchar z) v = op_holds String.eqb String.ltb op z b.
Proof.
  destruct v as [t d]. simpl. intros ->. destruct d as [| | |b]; try done. intros _. exists b. split; [done|]. by intros [].
Qed.

(** The comparison of a cell with the literal of a predicate. *)
Lemma compare_literal s flipped op t c v :
  scan_op s flipped = Some op -> literal_ok v = true -> stat_type t = vtype v -> bound_typed t (ColumnChunk.cell_value c) ->
  exists l, literal_cell v = Some l /\
    compare_cells s (if flipped then l else c) (if flipped then c else l) = Some (pred_holds op (ColumnChunk.cell_value c) v).
Proof.
  intros Hop Hl Ht [_ Hc]. rewrite Ht in Hc. destruct c as [z|z|z]; simpl in Hc; symmetry in Hc; unfold literal_cell.
  - destruct (Value_int_cmp z v Hc Hl) as (b & -> & Hp). exists (CInt b). split; [done|]. simpl. rewrite Hp.
    destruct (compare_by_op Z.eqb Z.ltb Z.leb Z_leb_spec Z.eqb_sym s flipped op z b Hop) as (_ & _ & <-). by destruct flipped.
  - destruct (Value_float_cmp z v Hc Hl) as (b & -> & Hp). exists (CFloat b). split; [done|]. simpl. rewrite Hp.
    destruct (compare_by_op f64_eqb f64_ltb f64_leb f64_leb_spec (fun a b => SFeqb_sym _ _) s flipped op z b Hop) as (_ & _ & <-).
    by destruct flipped.
  - destruct (Value_str_cmp z v Hc Hl) as (b & -> & Hp). exists (CStr b). split; [done|]. simpl. rewrite Hp.
    destruct (compare_by_op String.eqb String.ltb String.leb string_leb_spec String.eqb_sym s flipped op z b Hop) as (_ & _ & <-).
    by destruct flipped.
Qed.

(** A row that the predicate excludes does not pass the filter. *)
Lemma excluded_row F tys f sp r x t :
  TryExtractPredicate f = Some sp -> well_typed tys f = true -> r !! pred_col_idx sp = Some x ->
  (forall c, x = Some c -> pred_holds (pred_op sp) (ColumnChunk.cell_value c) (pred_bound sp) = false /\
     stat_type t = vtype (pred_bound sp) /\ bound_typed t (ColumnChunk.cell_value c)) ->
  row_passes F f r = false.
Proof.
  intros He Hty Hx Hc. unfold row_passes.
  destruct f as [| |rt s [] []| | |]; try done; simpl in He.
  - destruct is_null; [done|]. destruct (scan_op s false) as [op|] eqn:Hop; [|done]. injection He as <-.
    cbn [well_typed] in Hty. apply andb_true_iff in Hty as [[_ Hl]%andb_true_iff _]. simpl in Hl, Hx, Hc.
    cbn [eval_row]. rewrite Hx. cbn [mbind option_bind]. destruct x as [c|]; [|done].
    destruct (Hc c eq_refl) as (Hp & Hst & Hb). destruct (compare_literal s false op t c value Hop Hl Hst Hb) as (l & Hlit & Hcmp).
    destruct (compare_by_op Z.eqb Z.ltb Z.leb Z_leb_spec Z.eqb_sym s false op 0%Z 0%Z Hop) as (Ha & Hco & _).
    rewrite Hlit. cbn [binary_cell]. rewrite Ha, Hco, Hcmp, Hp. done.
  - destruct is_null; [done|]. destruct (scan_op s true) as [op|] eqn:Hop; [|done]. injection He as <-.
    cbn [well_typed] in Hty. apply andb_true_iff in Hty as [[Hl _]%andb_true_iff _]. simpl in Hl, Hx, Hc.
    cbn [eval_row]. rewrite Hx. cbn [mbind option_bind]. destruct x as [c|]; [|by destruct (literal_cell value)].
    destruct (Hc c eq_refl) as (Hp & Hst & Hb). destruct (compare_literal s true op t c value Hop Hl Hst Hb) as (l & Hlit & Hcmp).
    destruct (compare_by_op Z.eqb Z.ltb Z.leb Z_leb_spec Z.eqb_sym s true op 0%Z 0%Z Hop) as (Ha & Hco & _).
    rewrite Hlit. cbn [binary_cell]. rewrite Ha, Hco, Hcmp, Hp. done.
Qed.

(** ** Early and late columns *)

Definition filter_cols (filters : list LogicalExpr) : gset nat := foldl (fun cols f => CollectFilterCols f cols) ∅ filters.

Lemma filter_cols_elem filters f i : f ∈ filters -> i ∈ CollectFilterCols f ∅ -> i ∈ filter_cols filters.
Proof.
  unfold filter_cols. generalize (∅ : gset nat) at 2. induction filters as [|g filters IH]; intros X Hf Hi; [by apply not_elem_of_nil in Hf|].
  simpl. apply elem_of_cons in Hf as [->|Hf]; [|by apply IH].
  assert (forall l Y, i ∈ Y -> i ∈ foldl (fun cols f => CollectFilterCols f cols) Y l) as Hmono.
  { induction l as [|h l IHl]; intros Y HY; simpl; [done|]. apply IHl. rewrite CollectFilterCols_acc. apply elem_of_union. by right. }
  apply Hmono. rewrite CollectFilterCols_acc. apply elem_of_union. by left.
Qed.

Lemma elem_of_filter_cols filters i : i ∈ filter_cols filters -> exists f, f ∈ filters /\ i ∈ CollectFilterCols f ∅.
Proof.
  unfold filter_cols. enough (forall X, i ∈ foldl (fun cols f => CollectFilterCols f cols) X filters ->
    i ∈ X \/ exists f, f ∈ filters /\ i ∈ CollectFilterCols f ∅) as H by (intros Hi; destruct (H ∅ Hi) as [|]; [set_solver|done]).
  induction filters as [|f fs IH]; intros X Hi; [by left|]. destruct (IH _ Hi) as [Hx|(g & Hg & Hx)].
  - rewrite CollectFilterCols_acc in Hx. apply elem_of_union in Hx as [Hx|Hx]; [|by left]. right. exists f. set_solver.
  - right. exists g. set_solver.
Qed.

(** NULL propagates through every operator, so a row that passes the filters has
    no NULL in the columns they use. *)
Lemma eval_row_null_free F e r v i :
  eval_row F e r = Some (Some v) -> i ∈ CollectFilterCols e ∅ -> exists x, r !! i = Some (Some x).
Proof.
  revert v. induction e as [t k nm|t w b|rt op a IHa b IHb|rt op a IHa|rt ft a IHa|]; intros v He Hi; cbn in He, Hi; try set_solver.
  - rewrite CollectFilterCols_acc in Hi. apply bind_Some in He as (x & Hx & He). apply bind_Some in He as (y & Hy & He).
    destruct x as [x|], y as [y|]; try done. apply elem_of_union in Hi as [Hi|Hi]; [by eapply IHb|by eapply IHa].
  - apply bind_Some in He as (x & Hx & He). destruct x as [x|]; [|done]. by eapply IHa.
  - apply bind_Some in He as (x & Hx & He). destruct x as [x|]; [|done]. by eapply IHa.
Qed.

Lemma passes_null_free F filters r i :
  passes_all F filters r = true -> i ∈ filter_cols filters -> exists x, r !! i = Some (Some x).
Proof.
  intros Hp Hi. apply elem_of_filter_cols in Hi as (f & Hf & Hi). unfold passes_all in Hp. rewrite forallb_forall in Hp.
  specialize (Hp f (proj1 (list_elem_of_In _ _) Hf)). unfold row_passes in Hp. destruct (eval_row F f r) as [[v|]|] eqn:E; try done.
  by eapply eval_row_null_free.
Qed.

(** A vector without NULLs has an element for each row. *)
Lemma null_free_full v : dv_wf v -> Forall is_Some (dv_rows v) -> dv_full v.
Proof.
  intros Hw Hr. unfold dv_full. destruct (dv_count v) as [|n] eqn:Hc; [lia|].
  assert (dv_rows v !! n = Some (dv_row v n)) as Hl by (apply lookup_dv_rows; lia).
  destruct (Forall_lookup_1 _ _ _ _ Hr Hl) as [x Hx]. apply (wf_cells v Hw). unfold dv_row in Hx. by destruct (IsNull v n).
Qed.

Definition early_cols (fs : gset nat) (ids : list nat) : list (nat * nat) := filter (fun p => p.1 ∈ fs) (imap pair ids).
Definition late_cols (fs : gset nat) (ids : list nat) : list (nat * nat) := filter (fun p => p.1 ∉ fs) (imap pair ids).
Definition to_early (fs : gset nat) (ids : list nat) : gmap nat nat := list_to_map (imap (fun i p => (p.1, i)) (early_cols fs ids)).

Lemma imap_pair_fst {A} (l : list A) k : (imap (fun i x => (k + i, x)) l).*1 = seq k (length l).
Proof.
  revert k. induction l as [|x l IH]; intros k; [done|]. simpl. f_equal; [lia|]. rewrite <- IH. f_equal. apply imap_ext.
  intros i y _. simpl. f_equal. lia.
Qed.

Lemma NoDup_filter_fst (P : nat * nat -> Prop) `{forall x, Decision (P x)} ids : NoDup (filter P (imap pair ids)).*1.
Proof.
  assert (NoDup (imap pair ids).*1) as Hnd by (change (NoDup (imap (fun i x => (0 + i, x)) ids).*1); rewrite imap_pair_fst; apply NoDup_seq).
  revert Hnd. generalize (imap pair ids). intros l. induction l as [|p l IH]; intros Hnd; [done|].
  simpl in Hnd. apply NoDup_cons in Hnd as [Hp Hnd]. rewrite filter_cons. case_decide; [|by apply IH].
  simpl. apply NoDup_cons. split; [|by apply IH]. intros Hin. apply Hp. apply list_elem_of_fmap in Hin as (q & -> & Hq).
  apply list_elem_of_filter in Hq as [_ Hq]. by apply list_elem_of_fmap_2.
Qed.

Lemma elem_of_imap_pair {A} (l : list A) i x : (i, x) ∈ imap pair l <-> l !! i = Some x.
Proof.
  rewrite list_elem_of_lookup. split.
  - intros [k Hk]. rewrite list_lookup_imap in Hk. apply fmap_Some in Hk as (y & Hy & [= -> ->]). done.
  - intros Hi. exists i. by rewrite list_lookup_imap, Hi.
Qed.

(** Expressions over the scan's columns can be evaluated on the early ones. *)
Lemma to_early_remaps {A} fs ids (g : nat -> A) :
  remaps fs (to_early fs ids) (g <$> ids) (g <$> (early_cols fs ids).*2).
Proof.
  intros i Hi. rewrite !list_lookup_fmap. destruct (ids !! i) as [c|] eqn:Hc.
  - assert ((i, c) ∈ early_cols fs ids) as Hin by (apply list_elem_of_filter; split; [done|by apply elem_of_imap_pair]).
    apply list_elem_of_lookup in Hin as [k Hk]. unfold to_early.
    rewrite (elem_of_list_to_map_1 _ i k); [simpl; by rewrite Hk| |].
    + replace ((imap (fun i p => (p.1, i)) (early_cols fs ids)).*1) with ((early_cols fs ids).*1); [apply NoDup_filter_fst|].
      rewrite fmap_imap. generalize (early_cols fs ids). intros l. clear. apply list_eq. intros j.
      rewrite list_lookup_imap, list_lookup_fmap. by destruct (l !! j).
    + apply list_elem_of_lookup. exists k. by rewrite list_lookup_imap, Hk.
  - destruct (to_early fs ids !! i) as [k|] eqn:Hk.
    + exfalso. apply elem_of_list_to_map_2, list_elem_of_lookup in Hk as [j Hj].
      rewrite list_lookup_imap in Hj. apply fmap_Some in Hj as ((i' & c) & Hj & [= -> ->]).
      apply list_elem_of_lookup_2, list_elem_of_filter in Hj as [_ Hj]. apply elem_of_imap_pair in Hj. congruence.
    + simpl. apply lookup_ge_None in Hc. assert (length (early_cols fs ids) <= i) as Hl.
      { unfold early_cols. etrans; [apply length_filter|]. by rewrite length_imap. }
      by rewrite (proj2 (lookup_ge_None _ _) Hl).
Qed.

(** ** Assembling the output *)

(** Writing to distinct positions of a list of columns. *)
Lemma place_loop {A B} (f : A -> B -> result A) (R : nat -> A -> Prop) cols (ps : list (nat * B)) :
  NoDup ps.*1 ->
  (forall i v, (i, v) ∈ ps -> exists dst d, cols !! i = Some dst /\ f dst v = Ok d /\ R i d) ->
  exists cols', foldM (fun cols p => dst ← of_option UndefinedBehaviour (cols !! p.1); d ← f dst p.2; Ok (<[p.1 := d]> cols)) cols ps = Ok cols' /\
    length cols' = length cols /\ (forall i, i ∈ ps.*1 -> exists d, cols' !! i = Some d /\ R i d) /\
    (forall i, i ∉ ps.*1 -> cols' !! i = cols !! i).
Proof.
  revert cols. induction ps as [|[i v] ps IH]; intros cols Hnd Hf.
  { exists cols. split_and!; try done. intros i Hi. by apply not_elem_of_nil in Hi. }
  apply NoDup_cons in Hnd as [Hi Hnd]. destruct (Hf i v) as (dst & d & Hdst & Hd & HR); [apply elem_of_cons; by left|].
  cbn [foldM]. simpl. rewrite Hdst. cbn [of_option mbind result_bind]. rewrite Hd. cbn [mbind result_bind].
  destruct (IH (<[i := d]> cols) Hnd) as (cols' & -> & Hl & Hin & Hout).
  { intros j w Hj. destruct (Hf j w) as (dst' & d' & H1 & H2 & H3); [apply elem_of_cons; by right|].
    exists dst', d'. split_and!; try done. rewrite list_lookup_insert_ne; [done|]. intros ->. apply Hi.
    by apply (list_elem_of_fmap_2 fst ps (j, w)). }
  rewrite length_insert in Hl. exists cols'. split_and!; try done.
  - intros j Hj. apply elem_of_cons in Hj as [->|Hj]; [|by apply Hin]. exists d. split; [|done].
    rewrite Hout by done. apply list_lookup_insert_eq. by apply lookup_lt_Some in Hdst.
  - intros j Hj. apply not_elem_of_cons in Hj as [Hne Hj]. rewrite Hout by done. by rewrite list_lookup_insert_ne.
Qed.

Lemma place_payload_step cols p :
  place_payload_col cols p = (dst ← of_option UndefinedBehaviour (cols !! p.1); d ← Ok p.2; Ok (<[p.1 := d]> cols)).
Proof.
  unfold place_payload_col, assign. destruct (cols !! p.1) as [dst|] eqn:E; cbn [of_option mbind result_bind].
  - apply lookup_lt_Some in E. by rewrite decide_True.
  - apply lookup_ge_None in E. by rewrite decide_False by lia.
Qed.

Lemma place_payload_eq cols ps :
  foldM place_payload_col cols ps =
  foldM (fun cols p => dst ← of_option UndefinedBehaviour (cols !! p.1); d ← Ok p.2; Ok (<[p.1 := d]> cols)) cols ps.
Proof.
  revert cols. induction ps as [|p ps IH]; intros cols; [done|]. cbn [foldM]. rewrite place_payload_step.
  destruct (of_option _ _); cbn [mbind result_bind]; [apply IH|done].
Qed.

(** A batch given by its columns. *)
Lemma chunk_of_columns cols n (rows : list sql_row) :
  n <= STANDARD_VECTOR_SIZE -> length rows = n ->
  (forall j v, cols !! j = Some v -> dv_wf v /\ dv_rows v = (fun r => default None (r !! j)) <$> rows) ->
  Forall (fun r => length r = length cols) rows ->
  batch_ok (mkChunk cols n) /\ chunk_rows (mkChunk cols n) = rows.
Proof.
  intros Hn Hlen Hcols Hrows.
  assert (chunk_wf (mkChunk cols n)) as Hwf.
  { unfold chunk_wf. simpl. apply Forall_lookup. intros j v Hv. destruct (Hcols j v Hv) as [Hw Hr]. split; [done|].
    by rewrite <- length_dv_rows, Hr, length_fmap. }
  split; [by split|]. unfold chunk_rows. simpl. apply list_eq_same_length with (n := n);
    [done|by rewrite length_fmap, length_seq|].
  intros i x y Hi Hx Hy. apply list_lookup_fmap_Some in Hx as (k & -> & Hk). rewrite lookup_seq_lt in Hk by done.
  injection Hk as <-. pose proof (Forall_lookup_1 _ _ _ _ Hrows Hy) as Hly. simpl in Hly.
  unfold Expr.row_at. simpl. apply list_eq_same_length with (n := length cols); [done|by rewrite length_fmap|].
  intros j a b Hj Ha Hb. apply list_lookup_fmap_Some in Ha as (v & -> & Hv). destruct (Hcols j v Hv) as [Hw Hr].
  assert (dv_rows v !! i = Some (dv_row v i)) as Hdv
    by (apply lookup_dv_rows; rewrite <- length_dv_rows, Hr, length_fmap; lia).
  rewrite Hr, list_lookup_fmap, Hy in Hdv. simpl in Hdv. rewrite Hb in Hdv. simpl in Hdv. congruence.
Qed.

(** Picking by position and filtering commute. *)
Lemma pick_filter {A} (P : A -> bool) (l : list A) (d : A) :
  (fun j => default d (l !! j)) <$> filter (fun j => P (default d (l !! j)) = true) (seq 0 (length l)) =
  filter (fun x => P x = true) l.
Proof.
  assert ((fun j => default d (l !! j)) <$> seq 0 (length l) = l) as Hl.
  { apply list_eq_same_length with (n := length l); [done|by rewrite length_fmap, length_seq|].
    intros i x y Hi Hx Hy. apply list_lookup_fmap_Some in Hx as (k & -> & Hk). rewrite lookup_seq_lt in Hk by done.
    injection Hk as <-. by rewrite Hy. }
  transitivity (filter (fun x => P x = true) ((fun j => default d (l !! j)) <$> seq 0 (length l))); [|by rewrite Hl].
  generalize (seq 0 (length l)). intros js. induction js as [|j js IH]; [done|].
  rewrite fmap_cons, !filter_cons. destruct (P (default d (l !! j))); simpl; by rewrite <- IH.
Qed.

(** The rows of a batch whose columns are read off at the positions [sel]. *)
Lemma row_at_of_columns {K} c (g : K -> nat -> option cell) (L : list K) sel j :
  chunk_wf c -> ch_count c = length sel -> dv_rows <$> columns c = (fun k => g k <$> sel) <$> L -> j < length sel ->
  Expr.row_at c j = (fun k => g k (default 0 (sel !! j))) <$> L.
Proof.
  intros Hwf Hc Hr Hj. rewrite row_at_cols by (done || lia). rewrite Hr, <- list_fmap_compose. apply list_fmap_ext.
  intros i k _. simpl. rewrite list_lookup_fmap. destruct (lookup_lt_is_Some_2 sel j Hj) as [x Hx]. by rewrite Hx.
Qed.

Lemma chunk_rows_of_columns {K} c (g : K -> nat -> option cell) (L : list K) sel :
  chunk_wf c -> ch_count c = length sel -> dv_rows <$> columns c = (fun k => g k <$> sel) <$> L ->
  chunk_rows c = (fun i => (fun k => g k i) <$> L) <$> sel.
Proof.
  intros Hwf Hc Hr. unfold chunk_rows. rewrite Hc. apply list_eq_same_length with (n := length sel);
    [by rewrite length_fmap|by rewrite length_fmap, length_seq|].
  intros j x y Hj Hx Hy. apply list_lookup_fmap_Some in Hx as (k & -> & Hk). rewrite lookup_seq_lt in Hk by done.
  injection Hk as <-. apply list_lookup_fmap_Some in Hy as (i & -> & Hi).
  rewrite (row_at_of_columns c g L sel j) by done. by rewrite Hi.
Qed.

Section batches.
Context (F : FPU) {S : Type} {BSops : BlockStore S} {BSlaws : BlockStoreLaws S}.
Context (types : list TypeId) (ids : list nat) (filters : list LogicalExpr) (tx : Transaction).

(** The type of a column of the table. *)
Definition table_type (c : nat) : TypeId := default INVALID (types !! c).

(** A row group, its columns and what the scan relies on: truthful statistics,
    the table's column types, and the marker protocol. *)
Record group_ok (s : S) (rg : RowGroup) (cols : list (list (option cell))) : Prop := {
  go_rep : rg_rep s rg cols;
  go_zone : Forall2 (zone_rep s) (column_chunks_ rg) cols;
  go_types : type_ <$> column_chunks_ rg = types;
  go_versions : version_reachable (version_info_ rg);
  go_small : (Z.of_nat (row_count_ rg) < 2 ^ 32)%Z;
}.

Lemma group_ok_same_view s s' rg cols : same_view s s' -> group_ok s rg cols -> group_ok s' rg cols.
Proof.
  intros Hv [Hr Hz Ht Hver Hsm]. split; try done; [by apply (same_view_rep s)|].
  eapply Forall2_impl; [exact Hz|]. intros cc col. destruct Hv as (Hok & _ & Hv). by apply zone_rep_same_view.
Qed.

Lemma group_cols s rg cols : group_ok s rg cols -> length cols = length types.
Proof. intros [[_ HF _ _] _ <- _ _]. rewrite length_fmap. symmetry. by eapply Forall2_length. Qed.

Lemma group_col_type s rg cols c : group_ok s rg cols -> col_type rg c = table_type c.
Proof.
  intros [_ _ Ht _ _]. unfold col_type, table_type. rewrite <- Ht, list_lookup_fmap. by destruct (column_chunks_ rg !! c).
Qed.

(** Row [i] of a group, at the columns of the scan. *)
Definition table_row (cols : list (list (option cell))) (i : nat) : sql_row := (fun c => row_at (col_of cols c) i) <$> ids.

Definition sees (rg : RowGroup) (i : nat) : bool := IsVisible (version_info_ rg) (row_key i) (tx_id tx) (start_time tx).

(** The rows of a group from [off] to [off + n] that the transaction sees. *)
Definition seen_rows (rg : RowGroup) (cols : list (list (option cell))) (off n : nat) : list sql_row :=
  table_row cols <$> filter (fun i => sees rg i = true) (seq off n).

Definition passing_rows (rows : list sql_row) : list sql_row := filter (fun r => passes_all F filters r = true) rows.

(** The filters have a value on every row the transaction sees. *)
Definition filters_defined (rg : RowGroup) (cols : list (list (option cell))) : Prop :=
  Forall (fun f => Forall (fun r => is_Some (eval_row F f r)) (seen_rows rg cols 0 (row_count_ rg))) filters.

Hypothesis ids_ok : Forall (fun c => c < length types) ids.
Hypothesis filters_ok : Forall (filter_ok (table_type <$> ids)) filters.

Lemma seen_rows_selection rg cols off n :
  seen_rows rg cols off n =
  (fun i => table_row cols (off + i)) <$> selection (version_info_ rg) off n (tx_id tx) (start_time tx).
Proof.
  unfold seen_rows, selection, sees.
  replace (seq off n) with (Nat.add off <$> seq 0 n) by by rewrite fmap_add_seq, Nat.add_0_r.
  induction (seq 0 n) as [|j js IH]; [done|]. rewrite fmap_cons, !filter_cons.
  case_decide; rewrite ?fmap_cons, IH; done.
Qed.

Lemma defined_on_batch rg cols off n f :
  filters_defined rg cols -> off + n <= row_count_ rg -> f ∈ filters ->
  Forall (fun r => is_Some (eval_row F f r)) (seen_rows rg cols off n).
Proof.
  intros Hd Hle Hf. unfold filters_defined in Hd. rewrite Forall_forall in Hd. specialize (Hd f Hf).
  rewrite Forall_forall in Hd. apply Forall_forall. intros r Hr. apply Hd. unfold seen_rows in *.
  apply list_elem_of_fmap in Hr as (i & -> & Hi). apply list_elem_of_fmap_2. apply list_elem_of_filter in Hi as [Hs Hi].
  apply list_elem_of_filter. split; [done|]. apply elem_of_seq in Hi. apply elem_of_seq. lia.
Qed.

(** What [InitScan] sets up for these columns and filters. *)
Record scan_ready (ts : PhysicalTableScan) : Prop := {
  sr_ids : column_ids ts = ids;
  sr_out : ts_output_types ts = table_type <$> ids;
  sr_early : filters <> [] -> filter_col_ids_ ts = (early_cols (filter_cols filters) ids).*1 /\
    filter_table_col_ids_ ts = (early_cols (filter_cols filters) ids).*2;
  sr_late : payload_col_ids_ ts = match filters with [] => [] | _ => (late_cols (filter_cols filters) ids).*1 end;
  sr_late_table : filters <> [] -> payload_table_col_ids_ ts = (late_cols (filter_cols filters) ids).*2;
  sr_filters : early_filters_ ts = (fun f => CloneAndRemap f (to_early (filter_cols filters) ids)) <$> filters;
  sr_preds : scan_predicates_ ts = omap TryExtractPredicate filters;
}.

(** The early columns of a row. *)
Definition early_row (cols : list (list (option cell))) (i : nat) : sql_row :=
  (fun c => row_at (col_of cols c) i) <$> (early_cols (filter_cols filters) ids).*2.

Lemma early_eval f cols i :
  f ∈ filters -> eval_row F (CloneAndRemap f (to_early (filter_cols filters) ids)) (early_row cols i) = eval_row F f (table_row cols i).
Proof.
  intros Hf. apply CloneAndRemap_eval. intros k Hk. apply (to_early_remaps (filter_cols filters) ids (fun c => row_at (col_of cols c) i)).
  by apply (filter_cols_elem _ f).
Qed.

Lemma early_passes ts cols i :
  scan_ready ts -> passes_all F (early_filters_ ts) (early_row cols i) = passes_all F filters (table_row cols i).
Proof.
  intros Hts. rewrite (sr_filters _ Hts). unfold passes_all. assert (forall l, l ⊆ filters ->
    forallb (fun f => row_passes F f (early_row cols i)) ((fun f => CloneAndRemap f (to_early (filter_cols filters) ids)) <$> l) =
    forallb (fun f => row_passes F f (table_row cols i)) l) as H; [|by apply H].
  induction l as [|f l IH]; intros Hl; [done|]. cbn [forallb fmap list_fmap]. rewrite IH by set_solver. f_equal.
  unfold row_passes. rewrite early_eval; [done|]. set_solver.
Qed.

Lemma early_typed :
  Forall (filter_ok (table_type <$> (early_cols (filter_cols filters) ids).*2))
    ((fun f => CloneAndRemap f (to_early (filter_cols filters) ids)) <$> filters).
Proof.
  rewrite Forall_fmap. apply Forall_forall. intros f Hf. pose proof filters_ok as Hok. rewrite Forall_forall in Hok.
  destruct (Hok f Hf) as [Hty Hb]. split; [|by rewrite CloneAndRemap_type].
  eapply CloneAndRemap_typed; [|exact Hty]. intros k Hk. apply to_early_remaps. by apply (filter_cols_elem _ f).
Qed.

Lemma cols_in_range (P : nat * nat -> Prop) `{forall x, Decision (P x)} n :
  length types = n -> Forall (fun c => c < n) (filter P (imap pair ids)).*2.
Proof.
  intros <-. apply Forall_fmap, Forall_forall. intros [i c] Hp. apply list_elem_of_filter in Hp as [_ Hp].
  apply elem_of_imap_pair in Hp. exact (Forall_lookup_1 _ _ _ _ ids_ok Hp).
Qed.

(** Column [j] of the output: the type of its table column and its cells. *)
Definition out_col (cols : list (list (option cell))) (off : nat) (fsel : list nat) (j : nat) (d : DataVector) : Prop :=
  dv_wf d /\ dv_full d /\
  exists c, ids !! j = Some c /\ dv_type d = table_type c /\ dv_rows d = (fun i => row_at (col_of cols c) (off + i)) <$> fsel.

(** The vectors read for some columns, at the positions [sel]. *)
Record read_cols (cols : list (list (option cell))) (off : nat) (sel cs : list nat) (vs : list DataVector) : Prop := {
  rc_rows : dv_rows <$> vs = (fun c => (fun i => row_at (col_of cols c) (off + i)) <$> sel) <$> cs;
  rc_wf : Forall dv_wf vs;
  rc_types : dv_type <$> vs = table_type <$> cs;
}.

Lemma read_cols_at cols off sel (ps : list (nat * nat)) vs j v :
  read_cols cols off sel ps.*2 vs -> (j, v) ∈ zip ps.*1 vs ->
  exists c, (j, c) ∈ ps /\ dv_wf v /\ dv_type v = table_type c /\ dv_rows v = (fun i => row_at (col_of cols c) (off + i)) <$> sel.
Proof.
  intros [Hr Hwf Ht] [k Hk]%list_elem_of_lookup. apply lookup_zip_Some in Hk as [Hk Hv].
  apply list_lookup_fmap_Some in Hk as ([j' c] & -> & Hk). exists c. simpl.
  assert (ps.*2 !! k = Some c) as Hc by (by rewrite list_lookup_fmap, Hk).
  split_and!.
  - by eapply list_elem_of_lookup_2.
  - exact (Forall_lookup_1 _ _ _ _ Hwf Hv).
  - apply (f_equal (lookup k)) in Ht. rewrite !list_lookup_fmap in Ht. rewrite Hv, Hk in Ht. simpl in Ht. congruence.
  - apply (f_equal (lookup k)) in Hr. rewrite !list_lookup_fmap in Hr. rewrite Hv, Hk in Hr. simpl in Hr. congruence.
Qed.

Lemma place_early cols off sel pred_sel vs :
  let ps := early_cols (filter_cols filters) ids in
  let fsel := (fun j => default 0 (sel !! j)) <$> pred_sel in
  read_cols cols off sel ps.*2 vs -> Forall (fun j => j < length sel) pred_sel -> length pred_sel <= STANDARD_VECTOR_SIZE ->
  Forall (fun i => passes_all F filters (table_row cols (off + i)) = true) fsel ->
  exists out, foldM (place_filter_col pred_sel) (columns (Initialize (table_type <$> ids))) (zip ps.*1 vs) = Ok out /\
    length out = length ids /\ (forall j, j ∈ (zip ps.*1 vs).*1 -> exists d, out !! j = Some d /\ out_col cols off fsel j d).
Proof.
  intros ps fsel Hrc Hps Hlen Hpass.
  destruct (place_loop (fun dst v => foldM (fun dst i => DataVectorAppend dst v i) dst pred_sel) (out_col cols off fsel)
    (columns (Initialize (table_type <$> ids))) (zip ps.*1 vs)) as (out & Hout & Hl & Hin & _).
  - assert (length vs = length ps) as Hlv.
    { destruct Hrc as [Hr _ _]. apply (f_equal length) in Hr. by rewrite !length_fmap in Hr. }
    rewrite fst_zip by (rewrite length_fmap; lia). apply NoDup_filter_fst.
  - intros j v Hv. destruct (read_cols_at _ _ _ ps vs j v Hrc Hv) as (c & Hc & Hw & Ht & Hr).
    apply list_elem_of_filter in Hc as [Hfc Hc]. apply elem_of_imap_pair in Hc. simpl in Hfc.
    assert (storage_of (table_type c) <> SNone) as Hst by (rewrite <- Ht; apply Hw).
    destruct (Reset0_wf (table_type c) Hst) as [Hw0 Ht0].
    destruct (append_loop_rows v pred_sel (Reset (table_type c) 0)) as (d & Hd & Hdw & Hdt & _ & Hdr).
    + done.
    + by rewrite Ht, Ht0.
    + apply Forall_forall. intros i _. by apply dv_wf_readable.
    + rewrite <- length_dv_rows, dv_rows_Reset0. simpl. lia.
    + exists (Reset (table_type c) 0), d. split_and!; [|done|].
      * simpl. by rewrite !list_lookup_fmap, Hc.
      * assert (dv_rows d = (fun i => row_at (col_of cols c) (off + i)) <$> fsel) as Hrows.
        2: { split; [done|]. split; [|exists c; split_and!; [done|congruence|done]]. apply null_free_full; [done|].
             rewrite Hrows, Forall_fmap. eapply Forall_impl; [exact Hpass|]. intros i Hi. simpl in Hi |- *.
             destruct (passes_null_free F filters _ j Hi Hfc) as [x Hx]. unfold table_row in Hx. rewrite list_lookup_fmap, Hc in Hx.
             simpl in Hx. injection Hx as ->. by eexists. }
        rewrite Hdr, dv_rows_Reset0. simpl. unfold fsel.
        rewrite <- list_fmap_compose. apply list_fmap_ext. intros k i Hi. simpl.
        pose proof (Forall_lookup_1 _ _ _ _ Hps Hi) as Hlt. simpl in Hlt.
        assert (dv_rows v !! i = Some (dv_row v i)) as Hdv by (apply lookup_dv_rows; rewrite <- length_dv_rows, Hr, length_fmap; done).
        rewrite Hr, list_lookup_fmap in Hdv. destruct (lookup_lt_is_Some_2 sel i Hlt) as [x Hx]. rewrite Hx in Hdv |- *. simpl in *. congruence.
  - exists out. split_and!; try done. by rewrite Hl; simpl; rewrite !length_fmap.
Qed.

Lemma zip_fst_ps {A} (ps : list (nat * nat)) (vs : list A) : length vs = length ps -> (zip ps.*1 vs).*1 = ps.*1.
Proof. intros H. apply fst_zip. rewrite length_fmap. lia. Qed.

Lemma read_cols_length cols off sel cs vs : read_cols cols off sel cs vs -> length vs = length cs.
Proof. intros [_ _ Ht]. apply (f_equal length) in Ht. by rewrite !length_fmap in Ht. Qed.

Lemma split_positions j :
  j < length ids -> j ∈ (early_cols (filter_cols filters) ids).*1 \/ j ∈ (late_cols (filter_cols filters) ids).*1.
Proof.
  intros [c Hc]%lookup_lt_is_Some_2. assert ((j, c) ∈ imap pair ids) as Hp by (by apply elem_of_imap_pair).
  destruct (decide (j ∈ filter_cols filters)); [left|right]; apply list_elem_of_fmap; exists (j, c); (split; [done|]);
    by apply list_elem_of_filter.
Qed.

Lemma assemble_Ok ts cols off sel pred_sel early late :
  let fsel := (fun j => default 0 (sel !! j)) <$> pred_sel in
  scan_ready ts -> filters <> [] ->
  read_cols cols off sel (early_cols (filter_cols filters) ids).*2 early ->
  read_cols cols off fsel (late_cols (filter_cols filters) ids).*2 late -> Forall dv_full late ->
  Forall (fun j => j < length sel) pred_sel -> length pred_sel <= STANDARD_VECTOR_SIZE ->
  Forall (fun i => passes_all F filters (table_row cols (off + i)) = true) fsel ->
  exists out, assemble ts pred_sel early late = Ok out /\ batch_ok out /\ col_types out = table_type <$> ids /\
    chunk_rows out = ((fun i => table_row cols (off + i)) <$> fsel) /\ Forall dv_full (columns out).
Proof.
  intros fsel Hts Hne Hre Hrl Hlf0 Hps Hlen Hpass. unfold assemble. destruct (sr_early _ Hts Hne) as [-> _].
  rewrite (sr_out _ Hts), (sr_late _ Hts). destruct filters as [|f0 fl] eqn:Ef; [done|]. rewrite <- Ef in *.
  destruct (place_early cols off sel pred_sel early Hre Hps Hlen Hpass) as (o1 & -> & Hl1 & Hin1). fold fsel in Hin1. cbn [mbind result_bind].
  pose proof (read_cols_length _ _ _ _ _ Hre) as Hle. pose proof (read_cols_length _ _ _ _ _ Hrl) as Hll.
  rewrite length_fmap in Hle, Hll. rewrite zip_fst_ps in Hin1 by done. rewrite place_payload_eq.
  destruct (place_loop (fun _ v => Ok v) (out_col cols off fsel) o1 (zip (late_cols (filter_cols filters) ids).*1 late))
    as (o2 & -> & Hl2 & Hin2 & Hout2).
  - rewrite zip_fst_ps by done. apply NoDup_filter_fst.
  - intros j v Hv. destruct (read_cols_at _ _ _ _ late j v Hrl Hv) as (c & Hc & Hw & Ht & Hr).
    apply list_elem_of_filter in Hc as [_ Hc]. apply elem_of_imap_pair in Hc.
    destruct (lookup_lt_is_Some_2 o1 j) as [dst Hdst]; [rewrite Hl1; by apply lookup_lt_Some in Hc|].
    exists dst, v. split_and!; try done. split; [done|]. split; [|by exists c].
    rewrite Forall_forall in Hlf0. apply Hlf0. by apply (elem_of_zip_r j v (late_cols (filter_cols filters) ids).*1).
  - rewrite zip_fst_ps in Hin2, Hout2 by done. cbn [mbind result_bind]. eexists. split; [done|].
    assert (forall j d, o2 !! j = Some d -> out_col cols off fsel j d) as Hall.
    { intros j d Hd. assert (j < length ids) as Hj by (apply lookup_lt_Some in Hd; lia).
      destruct (decide (j ∈ (late_cols (filter_cols filters) ids).*1)) as [Hin|Hnin].
      - destruct (Hin2 j Hin) as (d' & Hd' & Ho). congruence.
      - destruct (split_positions j Hj) as [He|]; [|done]. rewrite (Hout2 j Hnin) in Hd.
        destruct (Hin1 j He) as (d' & Hd' & Ho). congruence. }
    assert (length pred_sel = length fsel) as Hlf by (unfold fsel; by rewrite length_fmap).
    destruct (chunk_of_columns o2 (length pred_sel) ((fun i => table_row cols (off + i)) <$> fsel)) as [Hb Hr];
      [done|by rewrite length_fmap| | |split; [done|split; [|split; [done|]]]].
    + intros j d Hd. destruct (Hall j d Hd) as (Hw & _ & c & Hc & _ & Hr). split; [done|]. rewrite Hr, <- list_fmap_compose.
      apply list_fmap_ext. intros k i _. simpl. unfold table_row. by rewrite list_lookup_fmap, Hc.
    + rewrite Forall_fmap. apply Forall_true. intros i. simpl. unfold table_row. rewrite length_fmap. lia.
    + apply list_eq_same_length with (n := length ids); [by rewrite length_fmap|unfold col_types; simpl; rewrite length_fmap; lia|].
      unfold col_types. simpl. intros j x y Hj Hx Hy. apply list_lookup_fmap_Some in Hx as (d & -> & Hd).
      destruct (Hall j d Hd) as (_ & _ & c & Hc & Ht & _). rewrite list_lookup_fmap, Hc in Hy. simpl in Hy. congruence.
    + apply Forall_lookup. intros j d Hd. by destruct (Hall j d Hd) as (_ & Hf & _).
Qed.

(** The outcome of a batch over the rows [off, off + n) of a group. *)
Definition batch_of (rg : RowGroup) (cols : list (list (option cell))) (off n : nat) (batch : option DataChunk) : Prop :=
  match batch with
  | Some out => batch_ok out /\ col_types out = table_type <$> ids /\ chunk_rows out = passing_rows (seen_rows rg cols off n) /\ Forall dv_full (columns out)
  | None => passing_rows (seen_rows rg cols off n) = []
  end.

Definition batch_size (rg : RowGroup) (off : nat) : nat := Nat.min STANDARD_VECTOR_SIZE (row_count_ rg - off).

Lemma table_types_of s rg cols (cs : list nat) : group_ok s rg cols -> col_type rg <$> cs = table_type <$> cs.
Proof. intros Hg. apply list_fmap_ext. intros j c _. by apply (group_col_type s rg cols). Qed.

(** Without filters: the plain scan. *)
Lemma plain_batch_Ok ts s rg cols off :
  scan_ready ts -> filters = [] -> group_ok s rg cols -> off < row_count_ rg ->
  exists s' batch, scan_batch F ts tx s rg off = Ok (s', off + batch_size rg off, batch) /\ same_view s s' /\
    batch_of rg cols off (batch_size rg off) batch.
Proof.
  intros Hts Hf Hg Hoff. unfold scan_batch. rewrite (sr_late _ Hts), Hf, (sr_ids _ Hts).
  destruct (rg_Scan_Ok s rg cols off ids (mkChunk [] 0) (tx_id tx) (start_time tx)) as (s' & chunk & -> & Hr & Hv & Hc & Hw & Ht & Hfull);
    [apply Hg|apply Hg|done|by rewrite (group_cols s rg cols Hg)|].
  cbn [mbind result_bind]. fold (batch_size rg off) in *. eexists s', _. split; [done|]. split; [done|].
  split_and!; [split; [done|]| | |done].
  - rewrite Hc. etrans; [apply length_selection|]. unfold batch_size. lia.
  - by rewrite Ht, (table_types_of s rg cols).
  - rewrite <- list_fmap_compose in Hr. rewrite (chunk_rows_of_columns chunk _ _ _ Hw Hc Hr), seen_rows_selection.
    unfold passing_rows. rewrite Hf. symmetry. apply filter_all, Forall_true. done.
Qed.

(** The offsets of the selected rows, for the late read. *)
Lemma final_offsets_Ok off n count sel pred_sel :
  (Z.of_nat count < 2 ^ 32)%Z -> off + n <= count -> Forall (fun i => i < n) sel -> Forall (fun j => j < length sel) pred_sel ->
  exists zs, mapM_r (fun idx => of_option UndefinedBehaviour (((fun i => row_key (off + i)) <$> sel) !! idx)) pred_sel = Ok zs /\
    Z.to_nat <$> zs = Nat.add off <$> ((fun j => default 0 (sel !! j)) <$> pred_sel).
Proof.
  intros Hmax Hle Hsel Hps. induction Hps as [|j js Hj _ (zs & IH & Hzs)]; [by exists []|]. cbn [mapM_r].
  destruct (lookup_lt_is_Some_2 sel j Hj) as [i Hi]. rewrite list_lookup_fmap, Hi. cbn [fmap option_fmap option_map of_option mbind result_bind].
  rewrite IH. cbn [mbind result_bind]. eexists. split; [done|]. rewrite !fmap_cons, Hzs, Hi. f_equal. simpl.
  pose proof (Forall_lookup_1 _ _ _ _ Hsel Hi) as Hin. simpl in Hin. rewrite row_key_small by lia. lia.
Qed.

(** With filters: early columns, selection, late columns. *)
Lemma late_batch_Ok ts s rg cols off :
  scan_ready ts -> filters <> [] -> payload_col_ids_ ts <> [] -> group_ok s rg cols -> filters_defined rg cols ->
  off < row_count_ rg ->
  exists s' batch, scan_batch F ts tx s rg off = Ok (s', off + batch_size rg off, batch) /\ same_view s s' /\
    batch_of rg cols off (batch_size rg off) batch.
Proof.
  intros Hts Hne Hpay Hg Hd Hoff. set (n := batch_size rg off). pose proof (go_rep _ _ _ Hg) as Hrep.
  pose proof (group_cols s rg cols Hg) as Hgc. unfold scan_batch.
  destruct (payload_col_ids_ ts) as [|p0 pl] eqn:Ep; [done|]. clear p0 pl Ep Hpay.
  destruct (sr_early _ Hts Hne) as [_ ->].
  destruct (ScanBatchWithOffsets_Ok s rg cols off (early_cols (filter_cols filters) ids).*2 (mkChunk [] 0) [] (tx_id tx) (start_time tx) Hrep Hoff)
    as (s1 & ec & -> & Her & Hv1 & Hec & Hew & Het); [apply cols_in_range; by rewrite Hgc|].
  fold (batch_size rg off) in *. fold n in Her, Hec |- *. cbn [mbind result_bind].
  set (sel := selection (version_info_ rg) off n (tx_id tx) (start_time tx)) in *.
  rewrite <- list_fmap_compose in Her. unfold compose, visible_rows in Her. fold sel in Her.
  assert (length sel <= n) as Hsn by apply length_selection.
  assert (n <= STANDARD_VECTOR_SIZE) as Hnb by (unfold n, batch_size; lia).
  assert (batch_ok ec) as Heb by (split; [done|lia]).
  assert (forall j, j < length sel -> Expr.row_at ec j = early_row cols (off + default 0 (sel !! j))) as Hrow
    by (intros j Hj; by rewrite (row_at_of_columns ec _ _ _ j Hew Hec Her)).
  assert (passing_rows (seen_rows rg cols off n) = (fun i => table_row cols (off + i)) <$>
    filter (fun i => passes_all F filters (table_row cols (off + i)) = true) sel) as Hpass.
  { unfold passing_rows. rewrite seen_rows_selection. fold sel. clearbody sel. clear. induction sel as [|i sel IH]; [done|].
    rewrite fmap_cons, !filter_cons. case_decide; rewrite ?fmap_cons, IH; done. }
  rewrite Hec. case_decide as Hzero.
  { eexists s1, None. split; [done|]. split; [done|]. simpl. rewrite Hpass. by rewrite (nil_length_inv sel). }
  rewrite apply_filters_Ok.
  2: done.
  2: { rewrite Het, (table_types_of s rg cols), (sr_filters _ Hts) by done. apply early_typed. }
  2: { rewrite (sr_filters _ Hts), Forall_fmap. apply Forall_forall. intros f Hf. unfold defined_on. simpl.
       rewrite (chunk_rows_of_columns ec _ _ _ Hew Hec Her), Forall_fmap. apply Forall_forall. intros i Hi. simpl.
       change (is_Some (eval_row F (CloneAndRemap f (to_early (filter_cols filters) ids)) (early_row cols (off + i)))).
       rewrite early_eval by done. pose proof (defined_on_batch rg cols off n f Hd ltac:(unfold n, batch_size; lia) Hf) as Hdf.
       rewrite seen_rows_selection, Forall_fmap, Forall_forall in Hdf. by apply Hdf. }
  cbn [mbind result_bind]. rewrite Hec.
  set (pred_sel := filter _ (seq 0 (length sel))).
  assert (pred_sel = filter (fun j => passes_all F filters (table_row cols (off + default 0 (sel !! j))) = true) (seq 0 (length sel))) as Hps.
  { apply filter_ext_Forall, Forall_forall. intros j Hj. apply elem_of_seq in Hj. rewrite Hrow by lia. by rewrite early_passes. }
  assert ((fun j => default 0 (sel !! j)) <$> pred_sel = filter (fun i => passes_all F filters (table_row cols (off + i)) = true) sel) as Hfs
    by (rewrite Hps; apply (pick_filter (fun i => passes_all F filters (table_row cols (off + i))))).
  assert (Forall (fun j => j < length sel) pred_sel) as Hlt.
  { apply Forall_forall. intros j Hj. apply list_elem_of_filter in Hj as [_ Hj]. apply elem_of_seq in Hj. lia. }
  assert (length pred_sel <= length sel) as Hpl by (unfold pred_sel; etrans; [apply length_filter|by rewrite length_seq]).
  clearbody pred_sel. destruct pred_sel as [|j0 js] eqn:Ejs.
  { eexists s1, None. split; [done|]. split; [done|]. simpl. rewrite Hpass, <- Hfs. done. }
  rewrite <- Ejs in *. clear j0 js Ejs. pose proof (selection_bound (version_info_ rg) off n (tx_id tx) (start_time tx)) as Hsb.
  fold sel in Hsb. assert (off + n <= row_count_ rg) as Hon by (unfold n, batch_size; lia).
  destruct (final_offsets_Ok off n (row_count_ rg) sel pred_sel (go_small _ _ _ Hg) Hon Hsb Hlt) as (zs & -> & Hzs).
  cbn [mbind result_bind]. rewrite Hzs, (sr_late_table _ Hts Hne).
  pose proof (group_ok_same_view _ _ _ _ Hv1 Hg) as Hg1.
  destruct (ScanLate_Ok s1 rg cols off n ((fun j => default 0 (sel !! j)) <$> pred_sel) (late_cols (filter_cols filters) ids).*2)
    as (s2 & lc & -> & Hlc & Hlr & Hv2 & Hlw & Hlty & Hlf).
  - apply Hg1.
  - done.
  - done.
  - rewrite Hfs. apply StronglySorted_filter, StronglySorted_filter, StronglySorted_seq.
  - rewrite Hfs. apply Forall_forall. intros i Hi. apply list_elem_of_filter in Hi as [_ Hi]. rewrite Forall_forall in Hsb. by apply Hsb.
  - rewrite length_fmap. lia.
  - apply cols_in_range. by rewrite Hgc.
  - cbn [mbind result_bind].
    destruct (assemble_Ok ts cols off sel pred_sel (columns ec) (columns lc) Hts Hne) as (out & -> & Hob & Hot & Hor & Hof).
    + split; [exact Her| |by rewrite <- (table_types_of s rg cols)]. eapply Forall_impl; [exact Hew|]. by intros v [? _].
    + split; [exact Hlr|done|by rewrite <- (table_types_of s rg cols)].
    + done.
    + done.
    + lia.
    + rewrite Hfs. apply Forall_forall. intros i Hi. by apply list_elem_of_filter in Hi as [? _].
    + cbn [mbind result_bind]. eexists s2, (Some out). split; [done|]. split; [by apply (same_view_trans s s1)|].
      split_and!; [done|done| |done]. by rewrite Hor, Hfs, Hpass.
Qed.

(** ** Skipping segments *)

(** The predicates stand at the same position in the output and in the table. *)
Hypothesis preds_aligned :
  Forall (fun sp => ids !! pred_col_idx sp = Some (pred_col_idx sp)) (omap TryExtractPredicate filters).

Lemma extracted_bound_wf tys f sp : TryExtractPredicate f = Some sp -> well_typed tys f = true -> Value_wf (pred_bound sp).
Proof.
  intros He Hty. assert (literal_ok (pred_bound sp) = true) as Hl.
  { destruct f as [| |rt s0 [] []| | |]; try done; simpl in He; (destruct is_null; [done|]); destruct (scan_op _ _); try done;
      injection He as <-; cbn [well_typed] in Hty; apply andb_true_iff in Hty as [[H1 H2]%andb_true_iff _]; simpl in *; congruence. }
  unfold literal_ok, Value_wf in *. destruct (vtype (pred_bound sp)), (data (pred_bound sp)); done.
Qed.

(** No row of the group between the two offsets passes the filters. *)
Definition none_pass (rg : RowGroup) (cols : list (list (option cell))) (off off' : nat) : Prop :=
  forall i, off <= i < off' -> i < row_count_ rg -> passes_all F filters (table_row cols i) = false.

Lemma passes_all_false f r : f ∈ filters -> row_passes F f r = false -> passes_all F filters r = false.
Proof.
  intros Hf Hr. apply not_true_is_false. unfold passes_all. rewrite forallb_forall. intros H.
  rewrite H in Hr; [done|]. by apply list_elem_of_In.
Qed.

Lemma rg_skip_Ok s rg cols off :
  group_ok s rg cols ->
  exists n, rg_ZoneMapSkipRows rg off (omap TryExtractPredicate filters) = Ok n /\ none_pass rg cols off (off + n).
Proof.
  intros Hg. assert (forall l, l ⊆ filters -> Forall (fun sp => ids !! pred_col_idx sp = Some (pred_col_idx sp)) (omap TryExtractPredicate l) ->
    exists n, rg_ZoneMapSkipRows rg off (omap TryExtractPredicate l) = Ok n /\ none_pass rg cols off (off + n)) as H;
    [|by apply H, preds_aligned].
  induction l as [|f l IH]; intros Hl Hal; [exists 0; split; [done|]; intros i Hi; lia|].
  simpl in *. destruct (TryExtractPredicate f) as [sp|] eqn:He; [|apply IH; [set_solver|done]].
  apply Forall_cons in Hal as [Hsp Hal]. destruct IH as (n' & Hn' & Hnp); [set_solver|done|]. cbn [rg_ZoneMapSkipRows].
  assert (f ∈ filters) as Hf by set_solver. pose proof filters_ok as Hok. rewrite Forall_forall in Hok. destruct (Hok f Hf) as [Hty _].
  pose proof (Forall_lookup_1 _ _ _ _ ids_ok Hsp) as Hc. simpl in Hc. rewrite <- (group_cols s rg cols Hg) in Hc.
  destruct (lookup_lt_is_Some_2 cols _ Hc) as [col Hcol].
  destruct (Forall2_lookup_r _ _ _ _ _ (go_zone _ _ _ Hg) Hcol) as (cc & Hcc & Hz). rewrite Hcc.
  pose proof (extracted_bound_wf _ f sp He Hty) as Hb.
  destruct (ZoneMapSkipRows_total s cc col off (pred_op sp) (pred_bound sp) Hz Hb) as [n Hn]. rewrite Hn. cbn [mbind result_bind].
  case_decide; [|by exists n']. exists n. split; [done|]. intros i Hi Hr. apply (passes_all_false f); [done|].
  apply (excluded_row F (table_type <$> ids) f sp _ (row_at col i) (type_ cc)); try done.
  - unfold table_row. rewrite list_lookup_fmap, Hsp. simpl. unfold col_of. by rewrite Hcol.
  - intros c Hx. apply (ZoneMapSkipRows_sound s cc col off (pred_op sp) (pred_bound sp) n Hz Hb Hn i c Hi).
    unfold row_at in Hx. destruct (col !! i) eqn:E; simpl in Hx; congruence.
Qed.

Lemma none_pass_trans rg cols a b c : none_pass rg cols a b -> none_pass rg cols b c -> none_pass rg cols a c.
Proof. intros H1 H2 i Hi Hr. destruct (decide (i < b)); [apply H1|apply H2]; lia. Qed.

Lemma zone_skip_Ok fuel s rg cols off :
  group_ok s rg cols -> row_count_ rg - off < fuel ->
  exists off', zone_skip fuel rg off (omap TryExtractPredicate filters) = Ok off' /\ off <= off' /\ none_pass rg cols off off'.
Proof.
  intros Hg. revert off. induction fuel as [|fuel IH]; intros off Hf; [lia|]. cbn [zone_skip].
  assert (none_pass rg cols off off) as H0 by (intros i Hi; lia). case_decide; [|by exists off].
  destruct (rg_skip_Ok s rg cols off Hg) as (n & -> & Hn). cbn [mbind result_bind]. case_decide; [by exists off|].
  destruct (IH (off + n)) as (off' & -> & Hle & Hn'); [lia|]. exists off'. split_and!; [done|lia|]. by eapply none_pass_trans.
Qed.

Lemma skip_segments_Ok ts s rg cols off :
  scan_ready ts -> group_ok s rg cols ->
  exists off', skip_segments rg off (scan_predicates_ ts) = Ok off' /\ off <= off' /\ none_pass rg cols off off'.
Proof.
  intros Hts Hg. rewrite (sr_preds _ Hts). 
  assert (forall preds, skip_segments rg off preds =
    if decide (preds = []) then Ok off else zone_skip (Datatypes.S (row_count_ rg)) rg off preds) as -> by (by intros []).
  case_decide.
  - exists off. split_and!; try done. intros i Hi; lia.
  - apply (zone_skip_Ok _ s); [done|lia].
Qed.

(** ** The loop over row groups *)

(** What the split of the columns must leave: a column for the late read. *)
Definition late_column : Prop := filters = [] \/ (late_cols (filter_cols filters) ids).*1 <> [].

Lemma scan_batch_Ok ts s rg cols off :
  scan_ready ts -> late_column -> group_ok s rg cols -> filters_defined rg cols -> off < row_count_ rg ->
  exists s' batch, scan_batch F ts tx s rg off = Ok (s', off + batch_size rg off, batch) /\ same_view s s' /\
    batch_of rg cols off (batch_size rg off) batch.
Proof.
  intros Hts [Hl|Hl] Hg Hd Hoff; [by apply plain_batch_Ok|].
  destruct (decide (filters = [])); [by apply plain_batch_Ok|]. apply late_batch_Ok; try done.
  rewrite (sr_late _ Hts). by destruct filters.
Qed.

Lemma seen_rows_app rg cols off a b : seen_rows rg cols off (a + b) = seen_rows rg cols off a ++ seen_rows rg cols (off + a) b.
Proof. unfold seen_rows. by rewrite seq_app, filter_app, fmap_app. Qed.

Lemma passing_rows_app a b : passing_rows (a ++ b) = passing_rows a ++ passing_rows b.
Proof. apply filter_app. Qed.

Lemma none_pass_rows rg cols off n : off + n <= row_count_ rg -> none_pass rg cols off (off + n) -> passing_rows (seen_rows rg cols off n) = [].
Proof.
  intros Hle Hn. apply elem_of_nil_inv. intros r [Hp Hr]%list_elem_of_filter. apply list_elem_of_fmap in Hr as (i & -> & Hi).
  apply list_elem_of_filter in Hi as [_ Hi]. apply elem_of_seq in Hi. rewrite Hn in Hp by lia. done.
Qed.

(** The passing rows of a group from an offset on. *)
Definition rows_from (rg : RowGroup) (cols : list (list (option cell))) (off : nat) : list sql_row :=
  passing_rows (seen_rows rg cols off (row_count_ rg - off)).

Lemma rows_from_skip rg cols off off' : off <= off' -> none_pass rg cols off off' -> rows_from rg cols off = rows_from rg cols off'.
Proof.
  intros Hle Hn. unfold rows_from. destruct (decide (off' <= row_count_ rg)).
  - replace (row_count_ rg - off) with ((off' - off) + (row_count_ rg - off')) by lia.
    rewrite seen_rows_app, passing_rows_app, none_pass_rows; [|lia|by replace (off + (off' - off)) with off' by lia].
    simpl. do 2 f_equal. lia.
  - replace (row_count_ rg - off') with 0 by lia. destruct (decide (off <= row_count_ rg)).
    + apply none_pass_rows; [lia|]. intros i Hi Hr. apply Hn; lia.
    + by replace (row_count_ rg - off) with 0 by lia.
Qed.

Context (rgs : list RowGroup) (contents : list (list (list (option cell)))).

(** Group [i] of the table. *)
Definition group_rows (off i : nat) : list sql_row :=
  match rgs !! i, contents !! i with Some rg, Some cols => rows_from rg cols off | _, _ => [] end.

(** What is still to be handed out, and the rounds it takes. *)
Definition remaining (idxs : list nat) (idx off : nat) : list sql_row :=
  match drop idx idxs with [] => [] | i :: rest => group_rows off i ++ concat (group_rows 0 <$> rest) end.
Definition rounds (idxs : list nat) (idx off : nat) : nat :=
  match drop idx idxs with
  | [] => 0
  | i :: rest => Datatypes.S (group_rounds rgs i - Datatypes.S off) + sum_list_with (group_rounds rgs) rest
  end.

Definition groups_ok (s : S) : Prop := bs_ok s /\ Forall2 (group_ok s) rgs contents /\ Forall2 filters_defined rgs contents.

Lemma groups_ok_same_view s s' : same_view s s' -> groups_ok s -> groups_ok s'.
Proof.
  intros Hv (_ & H1 & H2). split_and!; [apply Hv| |done]. eapply Forall2_impl; [exact H1|]. intros rg cols. by apply group_ok_same_view.
Qed.

Lemma drop_lookup_cons (idxs : list nat) idx i : idxs !! idx = Some i -> drop idx idxs = i :: drop (idx + 1) idxs.
Proof. intros H. rewrite Nat.add_1_r. by apply drop_S. Qed.

Lemma remaining_next idxs idx :
  remaining idxs (idx + 1) 0 = concat (group_rows 0 <$> drop (idx + 1) idxs) /\
  rounds idxs (idx + 1) 0 = sum_list_with (group_rounds rgs) (drop (idx + 1) idxs).
Proof.
  unfold remaining, rounds. destruct (drop (idx + 1) idxs) as [|i l]; [done|]. split; [done|]. simpl. unfold group_rounds at 1 3.
  destruct (rgs !! i); lia.
Qed.

(** The position after a batch, and what it leaves. *)
Definition next_position (rg : RowGroup) (idx off : nat) : nat * nat :=
  if decide (row_count_ rg <= off) then (idx + 1, 0) else (idx, off).

Lemma remaining_batch idxs idx i rg cols off :
  idxs !! idx = Some i -> rgs !! i = Some rg -> contents !! i = Some cols -> off < row_count_ rg ->
  let n := batch_size rg off in let p := next_position rg idx (off + n) in
  remaining idxs idx off = passing_rows (seen_rows rg cols off n) ++ remaining idxs p.1 p.2 /\
  rounds idxs p.1 p.2 < rounds idxs idx off.
Proof.
  intros Hi Hrg Hcols Hoff n p. destruct (remaining_next idxs idx) as [Hr1 Hd1].
  assert (group_rows off i = passing_rows (seen_rows rg cols off n) ++ rows_from rg cols (off + n)) as Hsplit.
  { unfold group_rows, rows_from. rewrite Hrg, Hcols.
    replace (row_count_ rg - off) with (n + (row_count_ rg - (off + n))) by (unfold n, batch_size; lia).
    by rewrite seen_rows_app, passing_rows_app. }
  assert (0 < n) as Hn by (unfold n, batch_size, STANDARD_VECTOR_SIZE; lia).
  unfold remaining at 1, rounds at 2. rewrite (drop_lookup_cons _ _ _ Hi), Hsplit, <- app_assoc.
  unfold group_rounds at 1. rewrite Hrg. unfold p, next_position. case_decide as Hd; cbn [fst snd].
  - rewrite Hr1, Hd1. unfold rows_from. replace (row_count_ rg - (off + n)) with 0 by lia. split; [done|lia].
  - unfold remaining, rounds. rewrite (drop_lookup_cons _ _ _ Hi). unfold group_rows at 2, group_rounds at 1. rewrite Hrg, Hcols.
    split; [done|lia].
Qed.

Lemma remaining_skip idxs idx i rg cols off off' :
  idxs !! idx = Some i -> rgs !! i = Some rg -> contents !! i = Some cols -> off <= off' -> none_pass rg cols off off' ->
  remaining idxs idx off = remaining idxs idx off' /\ rounds idxs idx off' <= rounds idxs idx off.
Proof.
  intros Hi Hrg Hcols Hle Hn. unfold remaining, rounds. rewrite (drop_lookup_cons _ _ _ Hi). unfold group_rows at 1 3. rewrite Hrg, Hcols.
  split; [by rewrite (rows_from_skip _ _ off off')|lia].
Qed.

Lemma remaining_end idxs idx i rg cols off :
  idxs !! idx = Some i -> rgs !! i = Some rg -> contents !! i = Some cols -> row_count_ rg <= off ->
  remaining idxs idx off = remaining idxs (idx + 1) 0 /\ rounds idxs (idx + 1) 0 < rounds idxs idx off.
Proof.
  intros Hi Hrg Hcols Hle. destruct (remaining_next idxs idx) as [-> ->]. unfold remaining, rounds.
  rewrite (drop_lookup_cons _ _ _ Hi). unfold group_rows at 1, rows_from. rewrite Hrg, Hcols.
  replace (row_count_ rg - off) with 0 by lia. split; [done|lia].
Qed.

(** A batch the scan hands out; its arrays have an element for every row, NULL or
    not. *)
Definition scan_out_ok (c : DataChunk) : Prop :=
  batch_ok c /\ 0 < ch_count c /\ col_types c = table_type <$> ids /\ Forall dv_full (columns c).

(** A call of the loop finds the next batch or the end. *)
Lemma scan_groups_Ok ts idxs fuel s idx off :
  scan_ready ts -> late_column -> groups_ok s -> Forall (fun i => i < length rgs) idxs -> rounds idxs idx off < fuel ->
  exists found o s' idx' off',
    (forall out0, ch_count out0 = 0 -> exists out, scan_groups F fuel ts tx s rgs idxs idx off out0 = Ok (found, out, s', idx', off') /\
       if found : bool then out = o else ch_count out = 0) /\ same_view s s' /\
    if found : bool then scan_out_ok o /\
      remaining idxs idx off = chunk_rows o ++ remaining idxs idx' off' /\ rounds idxs idx' off' < rounds idxs idx off
    else remaining idxs idx off = [].
Proof.
  intros Hts Hlc Hgs Hidx. revert s idx off Hgs. induction fuel as [|fuel IH]; intros s idx off Hgs Hf; [lia|]. cbn [scan_groups].
  pose proof Hgs as (Hok & HF & HD). destruct (idxs !! idx) as [i|] eqn:Hi.
  2: { exists false, (mkChunk [] 0), s, idx, off. split_and!; [|done|].
       - intros out0 H0. by exists out0.
       - unfold remaining. by rewrite drop_ge by by apply lookup_ge_None. }
  pose proof (Forall_lookup_1 _ _ _ _ Hidx Hi) as Hlt. simpl in Hlt. destruct (lookup_lt_is_Some_2 rgs i Hlt) as [rg Hrg].
  destruct (Forall2_lookup_l _ _ _ _ _ HF Hrg) as (cols & Hcols & Hg).
  pose proof (Forall2_lookup_lr _ _ _ _ _ _ HD Hrg Hcols) as Hd. rewrite Hrg. cbn [of_option mbind result_bind].
  destruct (skip_segments_Ok ts s rg cols off Hts Hg) as (off1 & -> & Hle & Hnp). cbn [mbind result_bind].
  destruct (remaining_skip idxs idx i rg cols off off1 Hi Hrg Hcols Hle Hnp) as [-> Hrounds]. case_decide as Hend.
  - destruct (remaining_end idxs idx i rg cols off1 Hi Hrg Hcols Hend) as [-> Hr1].
    destruct (IH s (idx + 1) 0 Hgs) as (found & o & s' & idx' & off' & H1 & H2 & H3); [lia|].
    exists found, o, s', idx', off'. split_and!; try done. destruct found; [|done]. destruct H3 as (? & ? & ?).
    split_and!; try done. lia.
  - destruct (scan_batch_Ok ts s rg cols off1 Hts Hlc Hg Hd) as (s1 & batch & -> & Hv1 & Hb); [lia|]. cbn [mbind result_bind].
    destruct (remaining_batch idxs idx i rg cols off1 Hi Hrg Hcols) as [-> Hr1]; [lia|].
    set (p := next_position rg idx (off1 + batch_size rg off1)) in *. 
    change (if decide (row_count_ rg <= off1 + batch_size rg off1) then (idx + 1, 0) else (idx, off1 + batch_size rg off1)) with p.
    pose proof (groups_ok_same_view _ _ Hv1 Hgs) as Hgs1.
    destruct (IH s1 p.1 p.2 Hgs1) as (found & o & s' & idx' & off' & H1 & H2 & H3); [lia|].
    pose proof (same_view_trans _ _ _ Hv1 H2) as Hv2. destruct p as [idx1 off2]. cbn [fst snd] in *.
    assert (passing_rows (seen_rows rg cols off1 (batch_size rg off1)) = [] ->
      if found then scan_out_ok o /\
        passing_rows (seen_rows rg cols off1 (batch_size rg off1)) ++ remaining idxs idx1 off2 = chunk_rows o ++ remaining idxs idx' off' /\
        rounds idxs idx' off' < rounds idxs idx off
      else passing_rows (seen_rows rg cols off1 (batch_size rg off1)) ++ remaining idxs idx1 off2 = []) as Hskip.
    { intros ->. destruct found; [|done]. destruct H3 as (? & ? & ?). split_and!; try done. lia. }
    destruct batch as [out|]; [|exists found, o, s', idx', off'; split_and!; try done; by apply Hskip].
    destruct Hb as (Hbo & Hty & Hrows & Hfl). case_decide as Hc.
    + exists true, out, s1, idx1, off2. split_and!; try done; [intros out0 _; by exists out|by rewrite Hrows|lia].
    + exists found, o, s', idx', off'. split_and!; [|done|apply Hskip; rewrite <- Hrows; apply chunk_rows_empty; lia].
      intros out0 H0. apply H1. lia.
Qed.

Lemma rounds_fuel idxs idx off : rounds idxs idx off < scan_fuel rgs idxs.
Proof.
  assert (forall l, sum_list_with (group_rounds rgs) (drop idx l) <= sum_list_with (group_rounds rgs) l) as H.
  { clear. revert idx. intros idx l. revert idx. induction l as [|x l IH]; intros [|idx]; simpl; try lia.
    etrans; [apply IH|]. lia. }
  specialize (H idxs). unfold rounds, scan_fuel. destruct (drop idx idxs) as [|i l]; [lia|]. simpl in H.
  assert (0 < group_rounds rgs i) by (unfold group_rounds; destruct (rgs !! i); lia). lia.
Qed.

(** ** The source of a table that is not partitioned *)

Section source.
Context (ts : PhysicalTableScan) (ctx : ScanContext) (e : TableCatalogEntry).
Hypothesis Hts : scan_ready ts.
Hypothesis Hlate : late_column.
Hypothesis Htable : get_table ctx (ts_schema_name ts) (ts_table_name ts) = Some (tx, e).
Hypothesis Hrgs : row_groups e = rgs.

(** One call: the next batch or the end; blocks may be loaded, none changes. *)
Lemma flat_GetData_Ok s st :
  active_partition_ids_ ts = [] -> groups_ok s ->
  exists (found : bool) o s' st', (forall c, ch_count c = 0 -> exists out, GetData F ts ctx (s, st) c =
      Ok (if found then HAVE_MORE_OUTPUT else FINISHED, out, (s', st')) /\ if found then out = o else ch_count out = 0) /\ same_view s s' /\
    let left st := remaining (seq 0 (length rgs)) (row_group_idx st) (row_offset_in_group st) in
    let steps st := rounds (seq 0 (length rgs)) (row_group_idx st) (row_offset_in_group st) in
    if found then scan_out_ok o /\ left st = chunk_rows o ++ left st' /\ steps st' < steps st else left st = [].
Proof.
  intros Ha Hgs.
  destruct (scan_groups_Ok ts (seq 0 (length rgs)) (scan_fuel rgs (seq 0 (length rgs))) s (row_group_idx st) (row_offset_in_group st))
    as (found & o & s' & idx' & off' & H1 & Hv & H3); [done|done|done| |apply rounds_fuel|].
  { apply Forall_forall. intros i Hi. apply elem_of_seq in Hi. lia. }
  exists found, o, s', (mkScanState idx' off' (partition_idx st)). split_and!; [|done|done].
  intros c Hc. destruct (H1 c Hc) as (out & Hsg & Hout). exists out. split; [|done]. unfold GetData. rewrite Htable, Ha, Hrgs, Hsg. done.
Qed.

Lemma flat_produces s st :
  active_partition_ids_ ts = [] -> groups_ok s ->
  exists cs, produces (GetData F ts ctx) (s, st) cs /\ Forall scan_out_ok cs /\
    stream_rows cs = remaining (seq 0 (length rgs)) (row_group_idx st) (row_offset_in_group st).
Proof.
  intros Ha. remember (rounds (seq 0 (length rgs)) (row_group_idx st) (row_offset_in_group st)) as m eqn:Hm.
  revert s st Hm. induction (lt_wf m) as [m _ IH]. intros s st -> Hgs.
  destruct (flat_GetData_Ok s st Ha Hgs) as (found & o & s' & st' & Hget & Hv & H3). cbv zeta in H3. destruct found.
  - destruct H3 as (Hb & Hrem & Hlt). destruct (IH _ Hlt s' st' eq_refl) as (cs & Hp & HF & Hr); [by apply (groups_ok_same_view s)|].
    exists (o :: cs). split_and!; [|by constructor|].
    + eapply produces_more; [|exact Hp]. intros c0 H0. destruct (Hget c0 H0) as (out & -> & ->). done.
    + unfold stream_rows in *. rewrite fmap_cons. simpl. rewrite Hr, Hrem. done.
  - exists []. split_and!; [|constructor|by rewrite H3]. apply produces_done. intros c Hc.
    destruct (Hget c Hc) as (out & -> & Ho). eauto.
Qed.

(** ** The source of a partitioned table *)

Definition part_idxs (pid : Z) : list nat := default [] (partition_rg_indices e !! Z.to_nat pid).

Definition partition_ok (pid : Z) : Prop :=
  is_Some (partition_rg_indices e !! Z.to_nat pid) /\ Forall (fun i => i < length rgs) (part_idxs pid).

Definition part_remaining (pids : list Z) (st : TableScanState) : list sql_row :=
  match pids with
  | [] => []
  | pid :: rest => remaining (part_idxs pid) (row_group_idx st) (row_offset_in_group st) ++
      concat ((fun p => remaining (part_idxs p) 0 0) <$> rest)
  end.

Definition part_rounds (pids : list Z) (st : TableScanState) : nat :=
  match pids with
  | [] => 0
  | pid :: rest => Datatypes.S (rounds (part_idxs pid) (row_group_idx st) (row_offset_in_group st)) +
      sum_list_with (fun p => Datatypes.S (rounds (part_idxs p) 0 0)) rest
  end.

Lemma part_next pids k : part_remaining pids (mkScanState 0 0 k) = concat ((fun p => remaining (part_idxs p) 0 0) <$> pids) /\
  part_rounds pids (mkScanState 0 0 k) = sum_list_with (fun p => Datatypes.S (rounds (part_idxs p) 0 0)) pids.
Proof. by destruct pids. Qed.

Lemma scan_partitions_Ok pids s st :
  groups_ok s -> Forall partition_ok pids ->
  exists r o s' st',
    (forall out0, ch_count out0 = 0 -> exists out, scan_partitions F ts tx e s pids st out0 = Ok (r, out, s', st') /\
       if decide (r = HAVE_MORE_OUTPUT) then out = o else r = FINISHED /\ ch_count out = 0) /\ same_view s s' /\
    if decide (r = HAVE_MORE_OUTPUT) then scan_out_ok o /\ partition_idx st <= partition_idx st' /\
      let rest := drop (partition_idx st' - partition_idx st) pids in
      part_remaining pids st = chunk_rows o ++ part_remaining rest st' /\ part_rounds rest st' < part_rounds pids st
    else part_remaining pids st = [].
Proof.
  intros Hgs Hpids. revert s st Hgs. induction Hpids as [|pid pids [[idxs Hidxs] Hlt] _ IH]; intros s st Hgs; cbn [scan_partitions].
  { exists FINISHED, (mkChunk [] 0), s, st. split_and!; [|split; [apply Hgs|done]|done]. intros out0 H0. by exists out0. }
  rewrite Hidxs, Hrgs. cbn [of_option mbind result_bind].
  assert (part_idxs pid = idxs) as Hpi by (unfold part_idxs; by rewrite Hidxs). rewrite Hpi in Hlt.
  destruct (scan_groups_Ok ts idxs (scan_fuel rgs idxs) s (row_group_idx st) (row_offset_in_group st))
    as (found & o & s' & idx' & off' & H1 & Hv & H3); [done..|apply rounds_fuel|].
  destruct found.
  - destruct H3 as (Hb & Hrem & Hr). exists HAVE_MORE_OUTPUT, o, s', (mkScanState idx' off' (partition_idx st)).
    split_and!; [|done|].
    + intros out0 H0. destruct (H1 out0 H0) as (out & -> & ->). by exists o.
    + rewrite decide_True by done. cbn [partition_idx]. rewrite Nat.sub_diag, drop_0. split_and!; try done.
      * cbn [part_remaining row_group_idx row_offset_in_group]. rewrite Hpi, Hrem. by rewrite <- app_assoc.
      * cbn [part_rounds row_group_idx row_offset_in_group]. rewrite Hpi. lia.
  - destruct (part_next pids (partition_idx st + 1)) as [Hn1 Hn2].
    destruct (IH s' (mkScanState 0 0 (partition_idx st + 1))) as (r & o' & s2 & st' & G1 & G2 & G3);
      [by apply (groups_ok_same_view s)|].
    exists r, o', s2, st'. split_and!; [|by apply (same_view_trans s s')|].
    + intros out0 H0. destruct (H1 out0 H0) as (out & -> & Hout). cbn [mbind result_bind]. by apply G1.
    + cbn [part_remaining part_rounds partition_idx] in *. rewrite Hpi, H3. case_decide.
      * destruct G3 as (Ho & Hpx & G3). replace (partition_idx st' - partition_idx st) with (Datatypes.S (partition_idx st' - (partition_idx st + 1))) by lia.
        cbn [drop]. rewrite Hn1, Hn2 in G3. simpl. split_and!; try done; [lia|apply G3|]. destruct G3 as [_ G3]. lia.
      * by rewrite <- Hn1.
Qed.

Lemma partitioned_produces s st :
  active_partition_ids_ ts <> [] -> Forall partition_ok (active_partition_ids_ ts) -> groups_ok s ->
  exists cs, produces (GetData F ts ctx) (s, st) cs /\ Forall scan_out_ok cs /\
    stream_rows cs = part_remaining (drop (partition_idx st) (active_partition_ids_ ts)) st.
Proof.
  intros Hne Hall. remember (part_rounds (drop (partition_idx st) (active_partition_ids_ ts)) st) as m eqn:Hm.
  revert s st Hm. induction (lt_wf m) as [m _ IH]. intros s st -> Hgs.
  destruct (scan_partitions_Ok (drop (partition_idx st) (active_partition_ids_ ts)) s st Hgs) as (r & o & s' & st' & H1 & Hv & H3);
    [by apply Forall_drop|].
  assert (forall c, ch_count c = 0 -> exists out, GetData F ts ctx (s, st) c = Ok (r, out, (s', st')) /\
    if decide (r = HAVE_MORE_OUTPUT) then out = o else r = FINISHED /\ ch_count out = 0) as Hget.
  { intros c Hc. destruct (H1 c Hc) as (out & Hsg & Hout). exists out. split; [|done].
    unfold GetData. rewrite Htable. destruct (active_partition_ids_ ts) as [|a0 al]; [done|]. by rewrite Hsg. }
  case_decide as Hr.
  - destruct H3 as (Ho & Hpx & Hrem & Hlt). subst r.
    assert (drop (partition_idx st' - partition_idx st) (drop (partition_idx st) (active_partition_ids_ ts)) =
      drop (partition_idx st') (active_partition_ids_ ts)) as Hdrop by (rewrite drop_drop; f_equal; lia).
    rewrite Hdrop in Hrem, Hlt.
    destruct (IH _ Hlt s' st' eq_refl) as (cs & Hp & HF & Hst); [by apply (groups_ok_same_view s)|].
    exists (o :: cs). split_and!; [|by constructor|].
    + eapply produces_more; [|exact Hp]. intros c0 H0. destruct (Hget c0 H0) as (out & -> & ->). done.
    + unfold stream_rows in *. rewrite fmap_cons. simpl. rewrite Hst, Hrem. done.
  - exists []. split_and!; [|constructor|by rewrite H3]. apply produces_done. intros c Hc.
    destruct (Hget c Hc) as (out & -> & -> & Ho). eauto.
Qed.

End source.
End batches.

(** ** What InitScan sets up *)

Lemma InitScan_ready H schema table ids filters types ctx ts :
  InitScan H (Scan_new schema table ids filters (table_type types <$> ids)) ctx = Ok ts ->
  scan_ready types ids filters ts /\ ts_schema_name ts = schema /\ ts_table_name ts = table.
Proof.
  unfold InitScan. cbn [column_ids pushed_filters ts_output_types ts_schema_name ts_table_name Scan_new]. intros Hi.
  destruct (match get_table _ _ _ with Some _ => _ | None => _ end) as [active|] eqn:Ea; [|done]. cbn [mbind result_bind] in Hi.
  injection Hi as <-. split; [|done]. split; cbn; try done.
  - intros Hne. by destruct filters.
  - by destruct filters.
  - intros Hne. by destruct filters.
  - by destruct filters.
Qed.

(** ** Theorems *)

(** The row groups a scan visits. *)
Definition scanned_groups (e : TableCatalogEntry) (active : list Z) : list nat :=
  match active with [] => seq 0 (length (row_groups e)) | _ => concat (part_idxs e <$> active) end.

(** The rows of a group that the transaction sees, at the columns of the scan. *)
Definition visible_group (ids : list nat) (tx : Transaction) (e : TableCatalogEntry)
    (contents : list (list (list (option cell)))) (i : nat) : list sql_row :=
  match row_groups e !! i, contents !! i with
  | Some rg, Some cols => seen_rows ids tx rg cols 0 (row_count_ rg)
  | _, _ => []
  end.

Lemma remaining_all F ids filters tx e contents idxs :
  remaining F ids filters tx (row_groups e) contents idxs 0 0 =
  passing_rows F filters (concat (visible_group ids tx e contents <$> idxs)).
Proof.
  assert (remaining F ids filters tx (row_groups e) contents idxs 0 0 =
    concat (group_rows F ids filters tx (row_groups e) contents 0 <$> idxs)) as ->
    by (unfold remaining; by destruct idxs).
  induction idxs as [|i idxs IH]; [done|]. rewrite !fmap_cons. cbn [concat]. rewrite passing_rows_app, IH. f_equal.
  unfold group_rows, visible_group, rows_from. destruct (row_groups e !! i) as [rg|]; [|done].
  destruct (contents !! i); [|done]. by rewrite Nat.sub_0_r.
Qed.

Lemma parts_all F ids filters tx e contents pids :
  concat ((fun p => remaining F ids filters tx (row_groups e) contents (part_idxs e p) 0 0) <$> pids) =
  passing_rows F filters (concat (visible_group ids tx e contents <$> concat (part_idxs e <$> pids))).
Proof.
  induction pids as [|p pids IH]; [done|]. rewrite !fmap_cons. cbn [concat].
  by rewrite IH, remaining_all, fmap_app, concat_app, passing_rows_app.
Qed.

(** C11: a table scan hands out, in order, exactly the rows of the visited row
    groups that its transaction sees and that pass the pushed filters, whatever
    the zone maps skip, provided that there is no filter or some scanned column
    is used by none, every zone-map predicate stands at the position its column
    has in the table, the filters are well typed, BOOLEAN or integer and have a
    value on every row seen, and the row groups have truthful statistics, the
    types of the table, fewer than 2^32 rows and markers that keep the protocol
    of [vstep]. Without the first two conditions it fails:
    [covered_scan_ignores_filters], [zone_map_of_wrong_column]. *)
Theorem table_scan_rows {S} `{BlockStoreLaws S} F Hs ctx tx e (s : S) schema table ids filters ts contents :
  get_table ctx schema table = Some (tx, e) ->
  InitScan Hs (Scan_new schema table ids filters (table_type (ColumnTypes e) <$> ids)) ctx = Ok ts ->
  Forall (fun c => c < length (ColumnTypes e)) ids ->
  Forall (filter_ok (table_type (ColumnTypes e) <$> ids)) filters ->
  late_column ids filters ->
  Forall (fun sp => ids !! pred_col_idx sp = Some (pred_col_idx sp)) (omap TryExtractPredicate filters) ->
  groups_ok F (ColumnTypes e) ids filters tx (row_groups e) contents s ->
  Forall (partition_ok (row_groups e) e) (active_partition_ids_ ts) ->
  exists cs, produces (GetData F ts ctx) (s, CreateScanState) cs /\
    Forall (scan_out_ok (ColumnTypes e) ids) cs /\
    stream_rows cs = passing_rows F filters (concat (visible_group ids tx e contents <$> scanned_groups e (active_partition_ids_ ts))).
Proof.
  intros Htable Hinit Hids Hfilters Hlate Hal Hgs Hparts.
  destruct (InitScan_ready _ _ _ _ _ _ _ _ Hinit) as (Hts & Hsn & Htn).
  destruct (active_partition_ids_ ts) as [|a0 al] eqn:Ha.
  - destruct (flat_produces F (ColumnTypes e) ids filters tx Hids Hfilters Hal (row_groups e) contents ts ctx e Hts Hlate
      ltac:(by rewrite Hsn, Htn) eq_refl s CreateScanState Ha Hgs) as (cs & Hp & HF & Hr).
    exists cs. split_and!; try done. rewrite Hr. apply remaining_all.
  - destruct (partitioned_produces F (ColumnTypes e) ids filters tx Hids Hfilters Hal (row_groups e) contents ts ctx e Hts Hlate
      ltac:(by rewrite Hsn, Htn) eq_refl s CreateScanState) as (cs & Hp & HF & Hr); [by rewrite Ha|by rewrite Ha|done|].
    exists cs. split_and!; try done. rewrite Hr, Ha. cbn [partition_idx CreateScanState drop scanned_groups].
    by rewrite <- parts_all.
Qed.

(** ** A sample table: three columns, five rows, the second one deleted *)

(** A column with pending rows only, and statistics that cover them. *)
Lemma pending_zone {S} `{BlockStoreLaws S} (s : S) t v st :
  bs_ok s -> dv_wf v -> dv_full v -> dv_type v = t -> Forall row_ok (dv_rows v) -> covers t st (dv_rows v) -> stats_ordered st ->
  zone_rep s (mkCC t [] v 0 st) (dv_rows v).
Proof. intros Hs Hwf Hf Ht Hr Hc Ho. exists []. split_and!; try done. split; try done; [constructor|apply Hc]. Qed.

Definition scan_vec_b : DataVector := mkDV INT64 5 [7; 7; 7; 8; 9]%Z [] [] 31%Z.
Definition scan_vec_c : DataVector := mkDV VARCHAR 5 [] [] ["p"; "q"; "r"; "s"; "t"] 31%Z.
Definition scan_cc_b : ColumnChunk := mkCC INT64 [] scan_vec_b 0 (mkStats (Value_Integer 7) (Value_Integer 9) false).
Definition scan_cc_c : ColumnChunk := mkCC VARCHAR [] scan_vec_c 0 (mkStats (Value_Varchar "p") (Value_Varchar "t") false).

Definition scan_rg : RowGroup :=
  mkRG 0 5 [INT32; INT64; VARCHAR] [sample_cc; scan_cc_b; scan_cc_c] sample_vi 0 INVALID_TRANSACTION.

Definition scan_cols : list (list (option cell)) := [sample_rows; dv_rows scan_vec_b; dv_rows scan_vec_c].

Definition scan_entry : TableCatalogEntry :=
  mkEntry "t" "main" 1 1 INVALID_TRANSACTION INVALID_TIMESTAMP
    [mkCol "a" INT32 false false; mkCol "b" INT64 false false; mkCol "c" VARCHAR false false]
    [scan_rg] (mkPI PT_NONE [] [] 0 []) [].

Definition scan_tx : Transaction := Tx_new 9 4 true.
Definition scan_ctx : ScanContext :=
  mkScanContext (Some (mkCatalog {["main" := mkSchema "main" {["t" := [scan_entry]]}]})) (Some scan_tx).

Lemma scan_group_ok : group_ok (ColumnTypes scan_entry) sample_bm scan_rg scan_cols.
Proof.
  assert (dv_wf scan_vec_b) as Hb by (apply dv_wf_bool; [done|vm_compute; lia|vm_compute; lia|by vm_compute]).
  assert (dv_wf scan_vec_c) as Hc by (apply dv_wf_bool; [done|vm_compute; lia|vm_compute; lia|by vm_compute]).
  assert (Forall2 (zone_rep sample_bm) (column_chunks_ scan_rg) scan_cols) as Hz.
  { constructor; [apply sample_zone|]. constructor; [|constructor; [|constructor]].
    - apply pending_zone; try done; [apply sample_bm_ok|vm_compute; lia|repeat constructor; unfold is_i64; lia|].
      split; [right; done|]. intros c Hin. split_and!; try done.
      all: change (Some c ∈ [Some (CInt 7); Some (CInt 7); Some (CInt 7); Some (CInt 8); Some (CInt 9)]) in Hin.
      all: rewrite !elem_of_cons, elem_of_nil in Hin; naive_solver.
    - apply pending_zone; try done; [apply sample_bm_ok|vm_compute; lia|repeat constructor|].
      split; [right; done|]. intros c Hin. split_and!; try done.
      all: change (Some c ∈ [Some (CStr "p"); Some (CStr "q"); Some (CStr "r"); Some (CStr "s"); Some (CStr "t")]) in Hin.
      all: rewrite !elem_of_cons, elem_of_nil in Hin; naive_solver. }
  split; [|done|done|apply sample_vi_reachable|simpl; lia].
  split; [apply sample_bm_ok| |repeat constructor|apply NoDup_singleton].
  eapply Forall2_impl; [exact Hz|]. intros cc rows. apply zone_rep_chunk.
Qed.

(** [SELECT a, c FROM t WHERE a > 1000] after pruning. *)
Definition scan_filter : LogicalExpr :=
  LogicalBinaryOp BOOLEAN ">" (BoundColumnRef INT32 0 "a") (LogicalLit INT64 (Value_Integer 1000) false).

Definition init_scan (ids : list nat) (filters : list LogicalExpr) : PhysicalTableScan :=
  match InitScan sample_hashes (Scan_new "main" "t" ids filters (table_type (ColumnTypes scan_entry) <$> ids)) scan_ctx with
  | Ok ts => ts
  | Err _ => Scan_new "main" "t" ids filters []
  end.

Lemma table_scan_rows_witness :
  exists cs, produces (GetData sample_FPU (init_scan [0; 2] [scan_filter]) scan_ctx) (sample_bm, CreateScanState) cs /\
    Forall (scan_out_ok (ColumnTypes scan_entry) [0; 2]) cs /\ stream_rows cs = [[Some (CInt 1001); Some (CStr "r")]].
Proof.
  destruct (table_scan_rows sample_FPU sample_hashes scan_ctx scan_tx scan_entry sample_bm "main" "t" [0; 2] [scan_filter]
    (init_scan [0; 2] [scan_filter]) [scan_cols]) as (cs & Hp & HF & Hr).
  - vm_compute. reflexivity.
  - vm_compute. reflexivity.
  - repeat constructor; simpl; lia.
  - repeat constructor.
  - right. vm_compute. discriminate.
  - repeat constructor.
  - split_and!; [apply sample_bm_ok|constructor; [apply scan_group_ok|constructor]|].
    constructor; [|constructor]. constructor; [|constructor].
    replace (seen_rows [0; 2] scan_tx scan_rg scan_cols 0 (row_count_ scan_rg)) with
      [[Some (CInt 1000); Some (CStr "p")]; [Some (CInt 1001); Some (CStr "r")]; [Some (CInt 5); Some (CStr "s")]; [None; Some (CStr "t")]]
      by (vm_compute; reflexivity).
    repeat (apply Forall_cons; split; [vm_compute; eauto|]). apply Forall_nil_2.
  - constructor.
  - exists cs. split_and!; [exact Hp|exact HF|]. rewrite Hr. vm_compute. reflexivity.
Defined.

(** A scan whose columns are all used by its filters takes the path without
    late materialization, which does not apply the filters: every visible row
    is handed out. *)
Theorem covered_scan_ignores_filters {S} `{BlockStoreLaws S} F (s : S) types ids filters tx ts rg cols off :
  scan_ready types ids filters ts -> late_cols (filter_cols filters) ids = [] ->
  Forall (fun c => c < length types) ids -> group_ok types s rg cols -> off < row_count_ rg ->
  exists s' out, scan_batch F ts tx s rg off = Ok (s', off + batch_size rg off, Some out) /\
    chunk_rows out = seen_rows ids tx rg cols off (batch_size rg off).
Proof.
  intros Hts Hl Hids Hg Hoff. unfold scan_batch. rewrite (sr_late _ _ _ _ Hts), (sr_ids _ _ _ _ Hts), Hl.
  replace (match filters with [] => [] | _ => [].*1 end) with (@nil nat) by (by destruct filters).
  destruct (rg_Scan_Ok s rg cols off ids (mkChunk [] 0) (tx_id tx) (start_time tx)) as (s' & chunk & -> & Hr & Hv & Hc & Hw & Ht & Hfull);
    [apply Hg|apply Hg|done|by rewrite (group_cols types s rg cols Hg)|].
  cbn [mbind result_bind]. fold (batch_size rg off) in *. eexists s', _. split; [done|].
  rewrite <- list_fmap_compose in Hr. by rewrite (chunk_rows_of_columns chunk _ _ _ Hw Hc Hr), seen_rows_selection.
Qed.

(** [SELECT a FROM t WHERE a > 1000] returns 1000, 1001, 5 and NULL. *)
Lemma covered_scan_ignores_filters_witness :
  exists s' out, scan_batch sample_FPU (init_scan [0] [scan_filter]) scan_tx sample_bm scan_rg 0 = Ok (s', 5, Some out) /\
    chunk_rows out = [[Some (CInt 1000)]; [Some (CInt 1001)]; [Some (CInt 5)]; [None]] /\
    row_passes sample_FPU scan_filter [Some (CInt 1000)] = false.
Proof.
  destruct (covered_scan_ignores_filters sample_FPU sample_bm (ColumnTypes scan_entry) [0] [scan_filter] scan_tx
    (init_scan [0] [scan_filter]) scan_rg scan_cols 0) as (s' & out & H1 & H2).
  - apply (InitScan_ready sample_hashes "main" "t" [0] [scan_filter] (ColumnTypes scan_entry) scan_ctx). vm_compute. reflexivity.
  - vm_compute. reflexivity.
  - repeat constructor.
  - apply scan_group_ok.
  - simpl. lia.
  - exists s', out. split; [exact H1|]. split; [|vm_compute; reflexivity]. rewrite H2. vm_compute. reflexivity.
Defined.

(** [SELECT c FROM t WHERE b = 7] after pruning: column [b] is at position 0 of
    the scan and 1 of the table. *)
Definition scan_filter_b : LogicalExpr :=
  LogicalBinaryOp BOOLEAN "=" (BoundColumnRef INT64 0 "b") (LogicalLit INT64 (Value_Integer 7) false).

(** The zone maps are consulted at the position of the column in the scan:
    here the predicate on [b] is tested against the statistics of [a], and the
    segment of [a] is skipped although its rows satisfy [b = 7] and are
    visible. *)
Theorem zone_map_of_wrong_column :
  chunk_rows <$> (snd <$> (fst <$> GetData sample_FPU (init_scan [1; 2] [scan_filter_b]) scan_ctx (sample_bm, CreateScanState) (mkChunk [] 0)))
    = Ok [] /\
  passing_rows sample_FPU [scan_filter_b] (seen_rows [1; 2] scan_tx scan_rg scan_cols 0 5)
    = [[Some (CInt 7); Some (CStr "p")]; [Some (CInt 7); Some (CStr "r")]].
Proof. vm_compute. done. Qed.
