(* ===== verification/CatalogCheckpoint.v ===== *)
(** * The checkpoint image of the catalog

    [Catalog::Serialize] and [Catalog::Deserialize] of [catalog/catalog.cpp]:
    the catalog block of a checkpoint.  The claim is the round trip: a fresh
    catalog that reads the block back has, under every name, the live version
    of the table with its columns, its partitioning and the segments of its
    row groups.  What the format leaves out is in [checkpoint_image]: primary
    keys, statistics, pending rows and version markers. *)

From Stdlib Require Import ZArith String.
From stdpp Require Import base gmap strings list.
From S2P Require Import Prelude Types Compression PartitionInfo Transaction BufferManager ColumnChunk VersionInfo RowGroup Schema Catalog.

(** ** Writing *)

(** The length is cut to 16 bits and so are the bytes. *)
Definition CkptWriteStr (s : string) : list Z :=
  le_bytes 2 (Z.of_nat (String.length s)) ++ take (Z.to_nat (u16 (Z.of_nat (String.length s)))) (string_bytes s).
Definition CkptWriteU8 (v : Z) : list Z := [u8 v].
Definition CkptWriteU32 (v : Z) : list Z := le_bytes 4 v.
Definition CkptWriteU64 (v : Z) : list Z := le_bytes 8 v.

(** A counted list. *)
Definition ser_list {A} (f : A -> list Z) (l : list A) : list Z :=
  CkptWriteU32 (Z.of_nat (length l)) ++ concat (map f l).
Definition ser_list_r {A} (f : A -> result (list Z)) (l : list A) : result (list Z) :=
  bs ← mapM_r f l; Ok (CkptWriteU32 (Z.of_nat (length l)) ++ concat bs).

(** [WriteVal] *)
Definition ser_value (v : Value) : result (list Z) :=
  payload ← (if decide (vtype v = VARCHAR) then s ← GetVarchar v; Ok (CkptWriteStr s)
             else if is_float_type (vtype v) then d ← GetFloat64 v; Ok (CkptWriteU64 d)
             else z ← GetInt64 v; Ok (CkptWriteU64 (u64 z)));
  Ok (CkptWriteU8 (TypeId_u8 (vtype v)) ++ payload).

Definition PartitionType_u8 (t : PartitionType) : Z :=
  match t with PT_NONE => 0 | PT_RANGE => 1 | PT_HASH => 2 | PT_LIST => 3 end%Z.

Definition ser_column (c : ColumnDefinition) : list Z :=
  CkptWriteStr (cd_name c) ++ CkptWriteU8 (TypeId_u8 (cd_type c)) ++ CkptWriteU8 (if not_null c then 1 else 0).

Definition ser_defs (pi : PartitionInfo) : result (list Z) :=
  match ptype pi with
  | PT_RANGE => ser_list_r (fun d => ser_list_r ser_value (upper_bounds d)) (defs pi)
  | PT_LIST => ser_list_r (fun d => ser_list_r (ser_list_r ser_value) (list_values d)) (defs pi)
  | _ => Ok []
  end.

Definition ser_indices (idxs : list nat) : list Z := ser_list (fun i => CkptWriteU32 (Z.of_nat i)) idxs.

Definition ser_partition (e : TableCatalogEntry) : result (list Z) :=
  let pi := partition_info e in
  if IsPartitioned pi then
    ds ← ser_defs pi;
    idx ← mapM_r (fun pid => idxs ← of_option UndefinedBehaviour (partition_rg_indices e !! pid); Ok (ser_indices idxs))
            (seq 0 (Z.to_nat (num_partitions pi)));
    Ok (CkptWriteU8 (PartitionType_u8 (ptype pi)) ++ ser_list CkptWriteStr (partition_cols pi)
        ++ CkptWriteU32 (num_partitions pi) ++ ds ++ concat idx)
  else Ok (CkptWriteU8 (PartitionType_u8 (ptype pi))).

Definition ser_segment (seg : ColumnSegment) : list Z :=
  CkptWriteU64 (block_id seg) ++ CkptWriteU8 (CompressionType_u8 (compression seg))
  ++ CkptWriteU8 (TypeId_u8 (column_type seg)) ++ CkptWriteU32 (Z.of_nat (row_count seg))
  ++ CkptWriteU32 (Z.of_nat (row_offset seg)).

Definition ser_row_group (rg : RowGroup) : list Z :=
  CkptWriteU64 (Z.of_nat (row_count_ rg))
  ++ concat (map (fun cc => ser_list ser_segment (segments_ cc)) (column_chunks_ rg)).

Definition ser_table (e : TableCatalogEntry) : result (list Z) :=
  part ← ser_partition e;
  Ok (CkptWriteStr (e_name e) ++ ser_list ser_column (tbl_columns e) ++ part ++ ser_list ser_row_group (row_groups e)).

Definition visible_tables `{MapOrder} (s : Schema) : list TableCatalogEntry :=
  filter (fun e => live e = true) (concat (map_order (entries_ s)).*2).

Definition ser_schema `{MapOrder} (p : string * Schema) : result (list Z) :=
  tables ← ser_list_r ser_table (visible_tables p.2);
  Ok (CkptWriteStr p.1 ++ tables).

Definition catalog_bytes `{MapOrder} (c : Catalog) : result (list Z) :=
  ser_list_r ser_schema (map_order (schemas_ c)).

(** The bytes go to the front of the block; the source ignores the size. *)
Definition Serialize `{MapOrder} (c : Catalog) (block : list Z) : result (list Z) :=
  bs ← catalog_bytes c; write_at 0 bs block.

(** ** Reading *)

Definition CkptReadU8 : reader Z := rd_le 1.
Definition CkptReadU32 : reader Z := rd_le 4.
Definition CkptReadU64 : reader Z := rd_le 8.
Definition CkptReadStr : reader string := rd_str16.

Definition rd_list {A} (rd : reader A) : reader (list A) := fun bs =>
  '(n, bs) ← CkptReadU32 bs; rd_many rd (Z.to_nat n) bs.

Definition rd_type : reader TypeId := fun bs =>
  '(b, bs) ← CkptReadU8 bs; t ← TypeId_of_u8 b; Ok (t, bs).

(** [ReadVal] *)
Definition rd_value : reader Value := fun bs =>
  '(t, bs) ← rd_type bs;
  if decide (t = VARCHAR) then '(s, bs) ← CkptReadStr bs; Ok (Value_Varchar s, bs)
  else if is_float_type t then '(d, bs) ← CkptReadU64 bs; Ok (mkValue t (VDouble d), bs)
  else '(z, bs) ← CkptReadU64 bs; Ok (mkValue t (VInt (i64 z)), bs).

Definition PartitionType_of_u8 (b : Z) : result PartitionType :=
  match b with
  | 0 => Ok PT_NONE | 1 => Ok PT_RANGE | 2 => Ok PT_HASH | 3 => Ok PT_LIST | _ => Err UndefinedBehaviour
  end%Z.

Definition rd_column : reader ColumnDefinition := fun bs =>
  '(name, bs) ← CkptReadStr bs;
  '(t, bs) ← rd_type bs;
  '(nn, bs) ← CkptReadU8 bs;
  Ok (mkCol name t (negb (Z.eqb nn 0)) false, bs).

Definition rd_defs (t : PartitionType) : reader (list PartitionDef) := fun bs =>
  match t with
  | PT_RANGE => rd_list (fun bs => '(ub, bs) ← rd_list rd_value bs; Ok (mkDef ub [], bs)) bs
  | PT_LIST => rd_list (fun bs => '(lv, bs) ← rd_list (rd_list rd_value) bs; Ok (mkDef [] lv, bs)) bs
  | _ => Ok ([], bs)
  end.

Definition rd_index : reader nat := fun bs => '(i, bs) ← CkptReadU32 bs; Ok (Z.to_nat i, bs).

Definition rd_partition : reader (PartitionInfo * list (list nat)) := fun bs =>
  '(b, bs) ← CkptReadU8 bs;
  t ← PartitionType_of_u8 b;
  if decide (t = PT_NONE) then Ok (PI_none, [], bs) else
  '(cols, bs) ← rd_list CkptReadStr bs;
  '(n, bs) ← CkptReadU32 bs;
  '(ds, bs) ← rd_defs t bs;
  '(idx, bs) ← rd_many (rd_list rd_index) (Z.to_nat n) bs;
  Ok (mkPI t cols [] n ds, idx, bs).

(** The segments come back without statistics. *)
Definition rd_segment : reader ColumnSegment := fun bs =>
  '(id, bs) ← CkptReadU64 bs;
  '(ct, bs) ← CkptReadU8 bs;
  comp ← of_option UndefinedBehaviour (CompressionType_of_u8 ct);
  '(t, bs) ← rd_type bs;
  '(n, bs) ← CkptReadU32 bs;
  '(off, bs) ← CkptReadU32 bs;
  Ok (mkSegment id comp t (Z.to_nat n) (Z.to_nat off) Stats_empty, bs).

(** [RGMeta] *)
Record RGMeta : Type := mkRGMeta { rgm_row_count : nat; col_segments : list (list ColumnSegment) }.

Definition rd_rgmeta (col_count : nat) : reader RGMeta := fun bs =>
  '(n, bs) ← CkptReadU64 bs;
  '(segs, bs) ← rd_many (rd_list rd_segment) col_count bs;
  Ok (mkRGMeta (Z.to_nat n) segs, bs).

(** Everything the block holds of one table. *)
Record TableMeta : Type := mkTableMeta {
  tm_name : string;
  tm_columns : list ColumnDefinition;
  tm_partition : PartitionInfo;
  tm_indices : list (list nat);
  tm_row_groups : list RGMeta;
}.

Definition rd_table : reader TableMeta := fun bs =>
  '(name, bs) ← CkptReadStr bs;
  '(cols, bs) ← rd_list rd_column bs;
  '(pi, idx, bs) ← rd_partition bs;
  '(rgs, bs) ← rd_list (rd_rgmeta (length cols)) bs;
  Ok (mkTableMeta name cols pi idx rgs, bs).

(** ** Rebuilding the catalog *)

Definition sys_tx : Transaction := mkTx INVALID_TRANSACTION 0 0 false false [] ∅.

(** A row group with the segments [AddSegment] puts into its chunks. *)
Definition restore_row_group (types : list TypeId) (ri : nat) (rgm : RGMeta) : RowGroup :=
  let rg := RG_new (row_key ri) types in
  SetRowCount (with_chunks rg
    (zip_with (fun t segs => mkCC t segs (Reset t 0) 0 Stats_empty) types (col_segments rgm))) (rgm_row_count rgm).

Definition restore_entry (m : TableMeta) (e : TableCatalogEntry) : TableCatalogEntry :=
  let pi := partition_info e in
  let e := if IsPartitioned pi
           then set_partition e (mkPI (ptype pi) (partition_cols pi) (FindColumn e <$> partition_cols pi)
                                   (num_partitions pi) (defs pi)) (tm_indices m)
           else e in
  set_row_groups e (imap (restore_row_group (cd_type <$> tm_columns m)) (tm_row_groups m)).

(** The entry that is filled is the first version of that name. *)
Definition add_table (sname : string) (c : Catalog) (m : TableMeta) : result Catalog :=
  c ← CreateTable c sname (tm_name m) (tm_columns m) sys_tx (tm_partition m);
  let c := CommitEntry c sname (tm_name m) INVALID_TRANSACTION 0 in
  Ok (update_entry c sname (tm_name m) 0 (restore_entry m)).

(** [n] tables of a schema. *)
Fixpoint de_tables (sname : string) (n : nat) (c : Catalog) (bs : list Z) : result (Catalog * list Z) :=
  match n with
  | O => Ok (c, bs)
  | S n => '(m, bs) ← rd_table bs; c ← add_table sname c m; de_tables sname n c bs
  end.

Definition ensure_schema (c : Catalog) (sname : string) : Catalog :=
  match GetSchema c sname with Some _ => c | None => with_schema c sname (Schema_new sname) end.

Fixpoint de_schemas (n : nat) (c : Catalog) (bs : list Z) : result (Catalog * list Z) :=
  match n with
  | O => Ok (c, bs)
  | S n =>
      '(sname, bs) ← CkptReadStr bs;
      let c := ensure_schema c sname in
      '(tn, bs) ← CkptReadU32 bs;
      '(c, bs) ← de_tables sname (Z.to_nat tn) c bs;
      de_schemas n c bs
  end.

Definition Deserialize (c : Catalog) (block : list Z) : result Catalog :=
  '(n, bs) ← CkptReadU32 block; '(c, _) ← de_schemas (Z.to_nat n) c bs; Ok c.

(** ** Writers and readers that agree

    [wr] succeeds on the values of [P] and [rd] reads [f x] back from what it
    wrote for [x]. *)
Definition decodes {A B} (P : A -> Prop) (wr : A -> result (list Z)) (rd : reader B) (f : A -> B) : Prop :=
  forall x, P x -> exists bs, wr x = Ok bs /\ forall rest, rd (bs ++ rest) = Ok (f x, rest).

Definition small (n : nat) : Prop := (Z.of_nat n < 2 ^ 32)%Z.

Lemma read_u32 v rest : is_u32 v -> CkptReadU32 (CkptWriteU32 v ++ rest) = Ok (v, rest).
Proof. apply (codec_le 4). Qed.
Lemma read_u64 v rest : is_u64 v -> CkptReadU64 (CkptWriteU64 v ++ rest) = Ok (v, rest).
Proof. apply (codec_le 8). Qed.
Lemma read_u8 v rest : is_u8 v -> CkptReadU8 (CkptWriteU8 v ++ rest) = Ok (v, rest).
Proof.
  intros Hv. unfold CkptReadU8, CkptWriteU8, u8. rewrite Z.mod_small by done.
  unfold rd_le. rewrite (rd_bytes_app [v]). cbn [mbind result_bind]. by rewrite le_val_one.
Qed.

Lemma read_str s rest :
  (Z.of_nat (String.length s) < 2 ^ 16)%Z -> CkptReadStr (CkptWriteStr s ++ rest) = Ok (s, rest).
Proof.
  intros Hs. unfold CkptWriteStr. rewrite u16_id by (unfold is_u16; lia).
  rewrite take_ge by (rewrite length_string_bytes; lia). by apply codec_str16.
Qed.

Lemma decodes_many {A B} (P : A -> Prop) wr (rd : reader B) f :
  decodes P wr rd f -> forall l, Forall P l ->
  exists bs, mapM_r wr l = Ok bs /\ forall rest, rd_many rd (length l) (concat bs ++ rest) = Ok (f <$> l, rest).
Proof.
  intros Hd l. induction 1 as [|x l Hx _ (bs & Hm & Hr)]; [by exists []|].
  destruct (Hd x Hx) as (b & Hb & Hrb). exists (b :: bs). simpl. rewrite Hb, Hm. split; [done|]. intros rest.
  simpl. rewrite <- app_assoc, Hrb. cbn. by rewrite Hr.
Qed.

Lemma decodes_list {A B} (P : A -> Prop) wr (rd : reader B) f :
  decodes P wr rd f ->
  decodes (fun l => Forall P l /\ small (length l)) (ser_list_r wr) (rd_list rd) (fmap f).
Proof.
  intros Hd l [Hl Hn]. destruct (decodes_many P wr rd f Hd l Hl) as (bs & Hm & Hr).
  unfold ser_list_r. rewrite Hm. cbn. eexists. split; [done|]. intros rest. unfold rd_list.
  rewrite <- app_assoc, read_u32 by (unfold is_u32, small in *; lia). cbn. by rewrite Nat2Z.id.
Qed.

(** Writers that cannot fail. *)
Definition pure_wr {A} (wr : A -> list Z) : A -> result (list Z) := fun x => Ok (wr x).

Lemma mapM_r_pure {A} (f : A -> list Z) l : mapM_r (pure_wr f) l = Ok (map f l).
Proof. by apply mapM_r_Ok. Qed.

Lemma ser_list_pure {A} (f : A -> list Z) l : ser_list_r (pure_wr f) l = Ok (ser_list f l).
Proof. unfold ser_list_r. by rewrite mapM_r_pure. Qed.

Lemma decodes_pure_list {A B} (P : A -> Prop) wr (rd : reader B) f :
  decodes P (pure_wr wr) rd f ->
  decodes (fun l => Forall P l /\ small (length l)) (pure_wr (ser_list wr)) (rd_list rd) (fmap f).
Proof.
  intros Hd l Hl. destruct (decodes_list P _ rd f Hd l Hl) as (bs & Hb & Hr).
  rewrite ser_list_pure in Hb. injection Hb as <-. by eexists.
Qed.

Lemma pure_read {A B} (P : A -> Prop) wr (rd : reader B) f x rest :
  decodes P (pure_wr wr) rd f -> P x -> rd (wr x ++ rest) = Ok (f x, rest).
Proof. intros Hd Hx. destruct (Hd x Hx) as (bs & [= <-] & Hr). apply Hr. Qed.

(** ** The parts of a table *)

Definition short (s : string) : Prop := (Z.of_nat (String.length s) < 2 ^ 16)%Z.

Lemma read_type t rest : rd_type (CkptWriteU8 (TypeId_u8 t) ++ rest) = Ok (t, rest).
Proof.
  unfold rd_type. rewrite read_u8 by (unfold is_u8; destruct t; simpl; lia). by destruct t.
Qed.

(** The values a partition bound may have: [WriteVal] has no format for a
    boolean or a NULL. *)
Definition storable_value (v : Value) : Prop :=
  match vtype v, data v with
  | (INT8 | INT16 | INT32 | INT64), VInt z => is_i64 z
  | (FLOAT32 | FLOAT64), VDouble d => is_u64 d
  | VARCHAR, VStr s => short s
  | _, _ => False
  end.

Lemma read_i64 z rest : is_i64 z -> CkptReadU64 (CkptWriteU64 (u64 z) ++ rest) = Ok (u64 z, rest).
Proof. intros _. apply read_u64, u64_range. Qed.

Definition value_payload (v : Value) : list Z :=
  match data v with VInt z => CkptWriteU64 (u64 z) | VDouble d => CkptWriteU64 d | VStr s => CkptWriteStr s | VBool _ => [] end.

Lemma decodes_value : decodes storable_value ser_value rd_value id.
Proof.
  intros v Hv. exists (CkptWriteU8 (TypeId_u8 (vtype v)) ++ value_payload v). destruct v as [t d]. split.
  - unfold storable_value in Hv. by destruct t, d.
  - intros rest. unfold rd_value, value_payload. rewrite <- app_assoc, read_type. cbn [mbind result_bind vtype data].
    unfold storable_value in Hv. cbn [vtype data] in Hv.
    destruct t, d as [z|b|b|s]; try done; cbn [decide is_float_type];
      rewrite ?read_i64, ?read_u64, ?read_str by done; cbn; by rewrite ?i64_u64, ?i64_id.
Qed.

Definition column_ok (c : ColumnDefinition) : Prop := short (cd_name c).
Definition column_image (c : ColumnDefinition) : ColumnDefinition := mkCol (cd_name c) (cd_type c) (not_null c) false.

Lemma decodes_column : decodes column_ok (pure_wr ser_column) rd_column column_image.
Proof.
  intros c Hc. eexists. split; [done|]. intros rest. unfold ser_column, rd_column.
  rewrite <- !app_assoc, read_str by done. cbn [mbind result_bind]. rewrite read_type. cbn [mbind result_bind].
  rewrite read_u8 by (unfold is_u8; destruct (not_null c); simpl; lia). cbn.
  unfold column_image. by destruct (not_null c).
Qed.

Definition segment_ok (seg : ColumnSegment) : Prop :=
  is_u64 (block_id seg) /\ small (row_count seg) /\ small (row_offset seg).
Definition segment_image (seg : ColumnSegment) : ColumnSegment :=
  mkSegment (block_id seg) (compression seg) (column_type seg) (row_count seg) (row_offset seg) Stats_empty.

Lemma decodes_segment : decodes segment_ok (pure_wr ser_segment) rd_segment segment_image.
Proof.
  intros seg (Hb & Hn & Ho). eexists. split; [done|]. intros rest. unfold ser_segment, rd_segment.
  rewrite <- !app_assoc, read_u64 by done. cbn [mbind result_bind].
  rewrite read_u8 by (unfold is_u8; destruct (compression seg); simpl; lia). cbn [mbind result_bind].
  assert (CompressionType_of_u8 (CompressionType_u8 (compression seg)) = Some (compression seg)) as ->
    by (by destruct (compression seg)).
  cbn [of_option mbind result_bind]. rewrite read_type. cbn [mbind result_bind].
  unfold small in *. rewrite !read_u32 by (unfold is_u32; lia). cbn [mbind result_bind].
  rewrite read_u32 by (unfold is_u32; lia). cbn. by rewrite !Nat2Z.id.
Qed.

Definition chunk_ok (cc : ColumnChunk) : Prop := Forall segment_ok (segments_ cc) /\ small (length (segments_ cc)).
Definition rg_ok (ncols : nat) (rg : RowGroup) : Prop :=
  length (column_chunks_ rg) = ncols /\ Forall chunk_ok (column_chunks_ rg) /\ (Z.of_nat (row_count_ rg) < 2 ^ 64)%Z.
Definition rg_meta (rg : RowGroup) : RGMeta :=
  mkRGMeta (row_count_ rg) ((fun cc => segment_image <$> segments_ cc) <$> column_chunks_ rg).

Lemma decodes_chunk :
  decodes chunk_ok (pure_wr (fun cc => ser_list ser_segment (segments_ cc))) (rd_list rd_segment)
    (fun cc => segment_image <$> segments_ cc).
Proof. intros cc Hcc. apply (decodes_pure_list _ _ _ _ decodes_segment (segments_ cc) Hcc). Qed.

Lemma decodes_row_group ncols : decodes (rg_ok ncols) (pure_wr ser_row_group) (rd_rgmeta ncols) rg_meta.
Proof.
  intros rg (<- & Hc & Hn). eexists. split; [done|]. intros rest. unfold ser_row_group, rd_rgmeta.
  rewrite <- app_assoc, read_u64 by (unfold is_u64; lia). cbn [mbind result_bind].
  destruct (decodes_many _ _ _ _ decodes_chunk _ Hc) as (bs & Hb & Hr).
  rewrite mapM_r_pure in Hb. injection Hb as <-. rewrite Hr. cbn. by rewrite Nat2Z.id.
Qed.

Definition values_ok (vs : list Value) : Prop := Forall storable_value vs /\ small (length vs).

(** A definition as the partitioning scheme uses it. *)
Definition def_ok (t : PartitionType) (d : PartitionDef) : Prop :=
  match t with
  | PT_RANGE => list_values d = [] /\ values_ok (upper_bounds d)
  | PT_LIST => upper_bounds d = [] /\ Forall values_ok (list_values d) /\ small (length (list_values d))
  | _ => False
  end.

Lemma decodes_defs pi rest_ok :
  Forall (def_ok (ptype pi)) (defs pi) -> small (length (defs pi)) -> rest_ok = ptype pi ->
  exists bs, ser_defs pi = Ok bs /\ forall rest, rd_defs rest_ok (bs ++ rest) = Ok (defs pi, rest).
Proof.
  intros Hd Hn ->. pose proof (decodes_list _ _ _ _ decodes_value) as Hvals. unfold ser_defs.
  destruct (ptype pi); try (destruct (defs pi); [by exists []|by apply Forall_cons in Hd as [? _]]).
  - destruct (decodes_list (def_ok PT_RANGE) (fun d => ser_list_r ser_value (upper_bounds d))
      (fun bs => '(ub, bs) ← rd_list rd_value bs; Ok (mkDef ub [], bs)) id) with (x := defs pi) as (bs & Hb & Hr); [|done|].
    + intros [ub lv] [Hlv Hub]. simpl in *. subst. destruct (Hvals ub Hub) as (bs & Hb & Hr). exists bs.
      split; [done|]. intros rest. rewrite Hr. cbn. by rewrite list_fmap_id.
    + exists bs. split; [done|]. intros rest. simpl. by rewrite Hr, list_fmap_id.
  - pose proof (decodes_list _ _ _ _ Hvals) as Htup.
    destruct (decodes_list (def_ok PT_LIST) (fun d => ser_list_r (ser_list_r ser_value) (list_values d))
      (fun bs => '(lv, bs) ← rd_list (rd_list rd_value) bs; Ok (mkDef [] lv, bs)) id) with (x := defs pi) as (bs & Hb & Hr); [|done|].
    + intros [ub lv] [Hub Hlv]. simpl in *. subst. destruct (Htup lv Hlv) as (bs & Hb & Hr). exists bs.
      split; [done|]. intros rest. rewrite Hr. cbn. do 3 f_equal.
      rewrite <- (list_fmap_id lv) at 2. apply list_fmap_ext. intros i x _. apply list_fmap_id.
    + exists bs. split; [done|]. intros rest. simpl. by rewrite Hr, list_fmap_id.
Qed.

Definition indices_ok (idxs : list nat) : Prop := Forall small idxs /\ small (length idxs).

Lemma decodes_indices : decodes indices_ok (pure_wr ser_indices) (rd_list rd_index) id.
Proof.
  intros idxs Hi. unfold ser_indices.
  destruct (decodes_pure_list small (fun i => CkptWriteU32 (Z.of_nat i)) rd_index id) with (x := idxs) as (bs & Hb & Hr); [|done|].
  - intros i Hs. eexists. split; [done|]. intros rest. unfold rd_index, small in *.
    rewrite read_u32 by (unfold is_u32; lia). cbn. by rewrite Nat2Z.id.
  - exists bs. split; [done|]. intros rest. by rewrite Hr, list_fmap_id.
Qed.

Lemma mapM_r_lookup {A B} (g : A -> B) (pre l : list A) :
  mapM_r (fun i => x ← of_option UndefinedBehaviour ((pre ++ l) !! i); Ok (g x)) (seq (length pre) (length l))
    = Ok (map g l).
Proof.
  revert pre. induction l as [|y l IH]; intros pre; [done|]. simpl. rewrite lookup_app_r, Nat.sub_diag by lia. cbn.
  specialize (IH (pre ++ [y])). rewrite length_app, <- app_assoc, Nat.add_1_r in IH. simpl in IH. by rewrite IH.
Qed.

(** The partitioning of a table that [CREATE TABLE] and [ALTER TABLE] produce. *)
Definition partition_ok (e : TableCatalogEntry) : Prop :=
  let pi := partition_info e in
  match ptype pi with
  | PT_NONE => pi = PI_none /\ partition_rg_indices e = []
  | t =>
      Forall short (partition_cols pi) /\ small (length (partition_cols pi)) /\ is_u32 (num_partitions pi) /\
      Z.of_nat (length (partition_rg_indices e)) = num_partitions pi /\
      Forall indices_ok (partition_rg_indices e) /\ Forall (def_ok t) (defs pi) /\ small (length (defs pi))
  end.

(** The column positions are recomputed by the reader. *)
Definition pi_meta (pi : PartitionInfo) : PartitionInfo :=
  mkPI (ptype pi) (partition_cols pi) [] (num_partitions pi) (defs pi).

Lemma decodes_strings : decodes (fun l => Forall short l /\ small (length l)) (pure_wr (ser_list CkptWriteStr)) (rd_list CkptReadStr) id.
Proof.
  intros l Hl. destruct (decodes_pure_list short CkptWriteStr CkptReadStr id) with (x := l) as (bs & Hb & Hr); [|done|].
  - intros s Hs. eexists. split; [done|]. intros rest. by apply read_str.
  - exists bs. split; [done|]. intros rest. by rewrite Hr, list_fmap_id.
Qed.

Lemma decodes_partition :
  decodes partition_ok ser_partition rd_partition (fun e => (pi_meta (partition_info e), partition_rg_indices e)).
Proof.
  intros e He. unfold ser_partition, rd_partition. set (pi := partition_info e) in *.
  assert (Htype : forall rest, CkptReadU8 (CkptWriteU8 (PartitionType_u8 (ptype pi)) ++ rest) = Ok (PartitionType_u8 (ptype pi), rest))
    by (intros rest; apply read_u8; unfold is_u8; destruct (ptype pi); simpl; lia).
  assert (Hof : PartitionType_of_u8 (PartitionType_u8 (ptype pi)) = Ok (ptype pi)) by (by destruct (ptype pi)).
  destruct (decide (ptype pi = PT_NONE)) as [Hn|Hn].
  - unfold IsPartitioned. rewrite bool_decide_true by done. eexists. split; [done|]. intros rest.
    rewrite Htype. cbn [mbind result_bind]. rewrite Hof. cbn [mbind result_bind]. rewrite decide_True by done.
    unfold partition_ok in He. fold pi in He. rewrite Hn in He. destruct He as [Hpi ->]. unfold pi_meta. by rewrite Hpi.
  - unfold IsPartitioned. rewrite bool_decide_false by done. cbn [negb].
    assert (Forall short (partition_cols pi) /\ small (length (partition_cols pi)) /\ is_u32 (num_partitions pi) /\
      Z.of_nat (length (partition_rg_indices e)) = num_partitions pi /\ Forall indices_ok (partition_rg_indices e) /\
      Forall (def_ok (ptype pi)) (defs pi) /\ small (length (defs pi))) as (Hc & Hcn & Hnp & Hlen & Hidx & Hd & Hdn)
      by (unfold partition_ok in He; fold pi in He; by destruct (ptype pi)).
    destruct (decodes_defs pi (ptype pi) Hd Hdn eq_refl) as (ds & -> & Hrd). cbn [mbind result_bind].
    assert (Z.to_nat (num_partitions pi) = length (partition_rg_indices e)) as Hnum by lia. rewrite Hnum.
    pose proof (mapM_r_lookup ser_indices [] (partition_rg_indices e)) as Hl. simpl in Hl. rewrite Hl. cbn [mbind result_bind].
    eexists. split; [done|]. intros rest. rewrite <- !app_assoc, Htype. cbn [mbind result_bind]. rewrite Hof.
    cbn [mbind result_bind]. rewrite decide_False by done.
    rewrite (pure_read _ _ _ _ _ _ decodes_strings (conj Hc Hcn)). cbn [mbind result_bind].
    rewrite read_u32 by done. cbn [mbind result_bind]. rewrite Hrd. cbn [mbind result_bind].
    destruct (decodes_many _ _ _ _ decodes_indices _ Hidx) as (bs & Hb & Hr).
    rewrite mapM_r_pure in Hb. injection Hb as <-. rewrite Hnum, Hr. cbn. by rewrite list_fmap_id.
Qed.

Definition table_ok (e : TableCatalogEntry) : Prop :=
  short (e_name e) /\ (Forall column_ok (tbl_columns e) /\ small (length (tbl_columns e))) /\ partition_ok e /\
  (Forall (rg_ok (length (tbl_columns e))) (row_groups e) /\ small (length (row_groups e))).

Definition table_meta (e : TableCatalogEntry) : TableMeta :=
  mkTableMeta (e_name e) (column_image <$> tbl_columns e) (pi_meta (partition_info e)) (partition_rg_indices e)
    (rg_meta <$> row_groups e).

Lemma decodes_table : decodes table_ok ser_table rd_table table_meta.
Proof.
  intros e (Hn & Hc & Hp & Hg). destruct (decodes_partition e Hp) as (part & Hb & Hr).
  unfold ser_table. rewrite Hb. cbn. eexists. split; [done|]. intros rest. unfold rd_table.
  rewrite <- !app_assoc, read_str by done. cbn [mbind result_bind].
  rewrite (pure_read _ _ _ _ _ _ (decodes_pure_list _ _ _ _ decodes_column) Hc). cbn [mbind result_bind].
  rewrite Hr. cbn [mbind result_bind]. rewrite length_fmap.
  by rewrite (pure_read _ _ _ _ _ _ (decodes_pure_list _ _ _ _ (decodes_row_group _)) Hg).
Qed.

(** ** The image of a table *)

Definition rg_image (types : list TypeId) (ri : nat) (rg : RowGroup) : RowGroup :=
  mkRG (row_key ri) (row_count_ rg) types
    (zip_with (fun t cc => mkCC t (segment_image <$> segments_ cc) (Reset t 0) 0 Stats_empty) types (column_chunks_ rg))
    VI_empty 0 INVALID_TRANSACTION.

Definition pi_image (e : TableCatalogEntry) : PartitionInfo :=
  let pi := partition_info e in
  mkPI (ptype pi) (partition_cols pi) (FindColumn e <$> partition_cols pi) (num_partitions pi) (defs pi).

(** What is left of a live table: an entry created at time 0. *)
Definition checkpoint_image (sname : string) (e : TableCatalogEntry) : TableCatalogEntry :=
  mkEntry (e_name e) sname INVALID_TRANSACTION 0 INVALID_TRANSACTION INVALID_TIMESTAMP
    (column_image <$> tbl_columns e) (imap (rg_image (ColumnTypes e)) (row_groups e)) (pi_image e)
    (partition_rg_indices e).

Lemma find_column_image cols name i : find_column (column_image <$> cols) name i = find_column cols name i.
Proof. revert i. induction cols as [|c cols IH]; intros i; [done|]. simpl. by rewrite IH. Qed.

Lemma restore_row_group_meta types ri rg : restore_row_group types ri (rg_meta rg) = rg_image types ri rg.
Proof. unfold restore_row_group, rg_image, rg_meta, SetRowCount, with_chunks. simpl. by rewrite zip_with_fmap_r. Qed.

Lemma column_types_image (cols : list ColumnDefinition) : cd_type <$> (column_image <$> cols) = cd_type <$> cols.
Proof. rewrite <- list_fmap_compose. by apply list_fmap_ext. Qed.

Lemma imap_meta types (rgs : list RowGroup) : imap (restore_row_group types) (rg_meta <$> rgs) = imap (rg_image types) rgs.
Proof. rewrite imap_fmap. apply imap_ext. intros i rg _. apply restore_row_group_meta. Qed.

(** The entry [CreateTable] and [CommitEntry] leave for a table. *)
Definition fresh_entry (sname : string) (m : TableMeta) : TableCatalogEntry :=
  mkEntry (tm_name m) sname INVALID_TRANSACTION 0 INVALID_TRANSACTION INVALID_TIMESTAMP (tm_columns m) []
    (tm_partition m) (if IsPartitioned (tm_partition m) then replicate (Z.to_nat (num_partitions (tm_partition m))) [] else []).

Lemma restore_image sname e :
  partition_ok e -> restore_entry (table_meta e) (fresh_entry sname (table_meta e)) = checkpoint_image sname e.
Proof.
  intros Hp. unfold restore_entry, fresh_entry, checkpoint_image, pi_image, ColumnTypes, FindColumn. simpl.
  rewrite column_types_image, imap_meta.
  destruct (IsPartitioned (pi_meta (partition_info e))) eqn:E.
  - unfold set_row_groups, set_partition, FindColumn. simpl. do 2 f_equal.
    apply list_fmap_ext. intros i name _. apply find_column_image.
  - unfold set_row_groups. simpl. unfold IsPartitioned, pi_meta in E. simpl in E.
    apply negb_false_iff, bool_decide_eq_true in E. unfold partition_ok in Hp. rewrite E in Hp.
    destruct Hp as [Hpi ->]. unfold pi_meta. by rewrite Hpi.
Qed.

Lemma table_versions_create c sname s e sch n :
  GetSchema c sname = Some s ->
  table_versions (with_schema c sname (schema_CreateEntry s e)) sch n =
    if decide (sname = sch /\ e_name e = n) then table_versions c sch n ++ [e] else table_versions c sch n.
Proof.
  intros Hs. unfold table_versions, with_schema, GetSchema in *. simpl.
  destruct (decide (sname = sch)) as [->|]; simpl_map; [|by rewrite decide_False by naive_solver].
  simpl. rewrite versions_of_create, ?Hs. simpl. do 2 case_decide; naive_solver.
Qed.

(** The schemas a catalog has. *)
Definition has_schema (c : Catalog) (sch : string) : Prop := is_Some (GetSchema c sch).

Lemma has_schema_alter c schema f sch : has_schema (on_schema c schema f) sch <-> has_schema c sch.
Proof.
  unfold has_schema, on_schema, GetSchema. simpl.
  destruct (decide (schema = sch)) as [->|]; simpl_map; [|done]. by rewrite fmap_is_Some.
Qed.

Lemma has_schema_with c schema s sch : has_schema (with_schema c schema s) sch <-> schema = sch \/ has_schema c sch.
Proof. unfold has_schema, with_schema, GetSchema. simpl. by rewrite lookup_insert_is_Some'. Qed.

Lemma update_entry_eq c schema name i f :
  update_entry c schema name i f = on_schema c schema (alter_versions (alter f i) name).
Proof. done. Qed.

Lemma add_table_image sname c e :
  has_schema c sname -> partition_ok e -> table_versions c sname (e_name e) = [] ->
  exists c', add_table sname c (table_meta e) = Ok c' /\
    (forall sch, has_schema c' sch <-> has_schema c sch) /\
    (forall sch n, table_versions c' sch n =
       if decide (sname = sch /\ e_name e = n) then [checkpoint_image sname e] else table_versions c sch n).
Proof.
  intros [s Hs] Hp Hempty. unfold add_table, CreateTable, need_schema. rewrite Hs. cbn [of_option mbind result_bind].
  unfold schema_GetEntry. assert (Hv : versions_of s (e_name e) = []) by (unfold table_versions in Hempty; by rewrite Hs in Hempty).
  cbn [tm_name table_meta]. rewrite Hv. cbn [last_visible mbind result_bind].
  eexists. split; [done|]. split.
  - intros sch. rewrite update_entry_eq, has_schema_alter. unfold CommitEntry.
    rewrite has_schema_alter, has_schema_with. split; [intros [<-|?]; [by exists s|done]|auto].
  - intros sch n. rewrite update_entry_eq, table_versions_alter by done. unfold CommitEntry, schema_CommitEntry. rewrite table_versions_alter by done.
    rewrite (table_versions_create _ _ s) by done. cbn [e_name]. case_decide as Heq; [|done].
    destruct Heq as [<- <-]. rewrite Hempty. cbn [app fmap list_fmap]. rewrite <- restore_image by done. done.
Qed.

(** ** The loops *)

Definition of_name (n : string) (e : TableCatalogEntry) : Prop := e_name e = n.
#[local] Instance of_name_dec n e : Decision (of_name n e).
Proof. unfold of_name. apply _. Defined.

Lemma de_tables_image sname es : forall c,
  has_schema c sname -> Forall table_ok es -> NoDup (e_name <$> es) ->
  (forall e, e ∈ es -> table_versions c sname (e_name e) = []) ->
  exists bs, mapM_r ser_table es = Ok bs /\ forall rest, exists c',
    de_tables sname (length es) c (concat bs ++ rest) = Ok (c', rest) /\
    (forall sch, has_schema c' sch <-> has_schema c sch) /\
    (forall sch n, table_versions c' sch n =
       if decide (sname = sch) then table_versions c sch n ++ (checkpoint_image sname <$> filter (of_name n) es)
       else table_versions c sch n).
Proof.
  induction es as [|e es IH]; intros c Hs Hok Hnd Hempty.
  { exists []. split; [done|]. intros rest. exists c. split_and!; try done. intros sch n. case_decide; [by rewrite app_nil_r|done]. }
  apply Forall_cons in Hok as [He Hok]. apply NoDup_cons in Hnd as [Hnot Hnd].
  destruct (decodes_table e He) as (b & Hb & Hr).
  destruct (add_table_image sname c e Hs ltac:(apply He) (Hempty e ltac:(apply list_elem_of_here))) as (c1 & Hadd & Hsch & Htv).
  assert (Hother : forall e', e' ∈ es -> e_name e <> e_name e')
    by (intros e' He' Heq; apply Hnot; rewrite Heq; by apply list_elem_of_fmap_2).
  destruct (IH c1) as (bs & Hbs & Hloop); try done; [by apply Hsch| |].
  { intros e' He'. rewrite Htv, decide_False by (intros [_ ?]; by apply (Hother e')).
    apply Hempty. by apply list_elem_of_further. }
  exists (b :: bs). simpl. rewrite Hb, Hbs. split; [done|]. intros rest.
  destruct (Hloop rest) as (c' & Hde & Hsch' & Htv'). exists c'. split_and!.
  - by rewrite <- app_assoc, Hr; cbn; rewrite Hadd.
  - intros sch. by rewrite Hsch'.
  - intros sch n. rewrite Htv', Htv, filter_cons. unfold of_name at 2.
    destruct (decide (sname = sch)) as [<-|Hne]; [|by rewrite decide_False by tauto].
    destruct (decide (e_name e = n)) as [<-|Hn]; [|by rewrite decide_False by tauto].
    rewrite decide_True by done. by rewrite (Hempty e) by apply list_elem_of_here.
Qed.

(** A schema the format can hold: the names of the tables are those of the
    map, and at most one version of a name is live. *)
Definition versions_ok (n : string) (l : list TableCatalogEntry) : Prop :=
  Forall (fun e => e_name e = n /\ (live e = true -> table_ok e)) l /\
  length (filter (fun e => live e = true) l) <= 1.

Definition schema_ok `{MapOrder} (sname : string) (s : Schema) : Prop :=
  short sname /\ small (length (visible_tables s)) /\ map_Forall versions_ok (entries_ s).

Lemma map_order_keys `{MapOrder} {A} (m : gmap string A) : NoDup (map_order m).*1.
Proof. rewrite map_order_perm. apply NoDup_fst_map_to_list. Qed.

Lemma map_order_map `{MapOrder} {A} (m : gmap string A) : list_to_map (map_order m) = m.
Proof.
  rewrite <- (list_to_map_to_list m) at 2. apply list_to_map_proper; [apply map_order_keys|apply map_order_perm].
Qed.

Lemma map_order_dom `{MapOrder} (m : gmap string Schema) k : k ∈ (map_order m).*1 <-> is_Some (m !! k).
Proof.
  rewrite map_order_perm, list_elem_of_fmap. split.
  - intros ([k' s] & -> & Hin%elem_of_map_to_list). by exists s.
  - intros [s Hs]. exists (k, s). by rewrite elem_of_map_to_list.
Qed.

Lemma filter_none {A} (P : A -> Prop) `{forall x, Decision (P x)} l : (forall x, x ∈ l -> ~ P x) -> filter P l = [].
Proof.
  intros HP. induction l as [|x l IH]; [done|]. rewrite filter_cons_False by (apply HP, list_elem_of_here).
  apply IH. intros y Hy. apply HP. by apply list_elem_of_further.
Qed.

(** The entries of a name among all entries of the schema. *)
Lemma filter_versions (ps : list (string * list TableCatalogEntry)) n :
  NoDup ps.*1 -> Forall (fun p => Forall (of_name p.1) p.2) ps ->
  filter (of_name n) (concat ps.*2) = default [] (list_to_map (M:=gmap string (list TableCatalogEntry)) ps !! n).
Proof.
  induction ps as [|[k l] ps IH]; intros Hnd Hok; [done|]. apply NoDup_cons in Hnd as [Hk Hnd].
  apply Forall_cons in Hok as [Hl Hok]. change (concat ((k, l) :: ps).*2) with (l ++ concat ps.*2).
  rewrite filter_app, IH by done. simpl in *.
  destruct (decide (k = n)) as [->|Hne].
  - rewrite lookup_insert_eq, not_elem_of_list_to_map_1 by done. simpl. rewrite app_nil_r. by apply filter_id.
  - rewrite lookup_insert_ne by done. rewrite filter_none; [done|]. intros e He. rewrite Forall_forall in Hl.
    unfold of_name in *. by rewrite (Hl e He).
Qed.

Lemma NoDup_visible (ps : list (string * list TableCatalogEntry)) :
  NoDup ps.*1 -> Forall (fun p => versions_ok p.1 p.2) ps ->
  NoDup (e_name <$> filter (fun e => live e = true) (concat ps.*2)).
Proof.
  induction ps as [|[k l] ps IH]; intros Hnd Hok; [constructor|]. apply NoDup_cons in Hnd as [Hk Hnd].
  apply Forall_cons in Hok as [[Hl Hone] Hok]. cbn [fst snd] in Hl, Hone. change (concat ((k, l) :: ps).*2) with (l ++ concat ps.*2).
  rewrite filter_app, fmap_app. apply NoDup_app. split_and!.
  - destruct (filter _ l) as [|x [|y l']]; [by apply NoDup_nil|apply NoDup_singleton|simpl in Hone; lia].
  - intros n (e & -> & [_ He]%list_elem_of_filter)%list_elem_of_fmap (e' & Heq & [_ He']%list_elem_of_filter)%list_elem_of_fmap.
    rewrite Forall_forall in Hl. apply Hk. destruct (Hl e He) as [Hke _]. rewrite <- Hke, Heq.
    apply list_elem_of_In, in_concat in He' as (l' & Hl' & He'%list_elem_of_In).
    apply list_elem_of_In, list_elem_of_fmap in Hl' as ([k' l''] & -> & Hin).
    rewrite Forall_forall in Hok. destruct (Hok _ Hin) as [Hv _]. rewrite Forall_forall in Hv.
    destruct (Hv e' He') as [-> _]. by apply (list_elem_of_fmap_2 fst) in Hin.
  - by apply IH.
Qed.

Lemma filter_swap {A} (P Q : A -> Prop) `{forall x, Decision (P x)} `{forall x, Decision (Q x)} (l : list A) :
  filter P (filter Q l) = filter Q (filter P l).
Proof.
  induction l as [|x l IH]; [done|].
  destruct (decide (P x)), (decide (Q x)); repeat (rewrite ?filter_cons_True, ?filter_cons_False by done); by rewrite ?IH.
Qed.

Lemma visible_tables_ok `{MapOrder} sname s :
  schema_ok sname s ->
  Forall table_ok (visible_tables s) /\ NoDup (e_name <$> visible_tables s) /\
  (forall n, filter (of_name n) (visible_tables s) = filter (fun e => live e = true) (versions_of s n)).
Proof.
  intros (_ & _ & Hv).
  assert (Hps : Forall (fun p => versions_ok p.1 p.2) (map_order (entries_ s))).
  { rewrite Forall_forall. intros [n l] Hin. rewrite map_order_perm in Hin. apply elem_of_map_to_list in Hin. by apply Hv. }
  split_and!.
  - unfold visible_tables. rewrite Forall_forall in Hps. rewrite Forall_forall. intros e [Hlive He]%list_elem_of_filter.
    apply list_elem_of_In, in_concat in He as (l & Hl & He%list_elem_of_In).
    apply list_elem_of_In, list_elem_of_fmap in Hl as ([n l'] & -> & Hin).
    destruct (Hps _ Hin) as [Hl _]. rewrite Forall_forall in Hl. by apply (Hl e He).
  - apply NoDup_visible; [apply map_order_keys|done].
  - intros n. unfold visible_tables. rewrite filter_swap, filter_versions, map_order_map; [done|apply map_order_keys|].
    eapply Forall_impl; [exact Hps|]. intros p [Hl _]. eapply Forall_impl; [exact Hl|]. by intros e [? _].
Qed.

Lemma has_schema_ensure c sname sch : has_schema (ensure_schema c sname) sch <-> sname = sch \/ has_schema c sch.
Proof.
  unfold ensure_schema. destruct (GetSchema c sname) as [s|] eqn:E; [|apply has_schema_with].
  split; [auto|]. intros [<-|?]; [by exists s|done].
Qed.

Lemma table_versions_ensure c sname sch n : table_versions (ensure_schema c sname) sch n = table_versions c sch n.
Proof.
  unfold ensure_schema, table_versions. destruct (GetSchema c sname) as [s|] eqn:E; [done|].
  unfold GetSchema, with_schema in *. simpl. destruct (decide (sname = sch)) as [->|]; simpl_map; [|done].
  by rewrite ?E.
Qed.

(** What the reader leaves of a schema. *)
Definition live_images (sname : string) (s : Schema) (n : string) : list TableCatalogEntry :=
  checkpoint_image sname <$> filter (fun e => live e = true) (versions_of s n).

Lemma de_schemas_image `{MapOrder} ps : forall c,
  NoDup ps.*1 -> Forall (fun p => schema_ok p.1 p.2) ps ->
  (forall p n, p ∈ ps -> table_versions c p.1 n = []) ->
  exists bs, mapM_r ser_schema ps = Ok bs /\ forall rest, exists c',
    de_schemas (length ps) c (concat bs ++ rest) = Ok (c', rest) /\
    (forall sch, has_schema c' sch <-> sch ∈ ps.*1 \/ has_schema c sch) /\
    (forall sch n, table_versions c' sch n =
       match list_to_map (M:=gmap string Schema) ps !! sch with
       | Some s => live_images sch s n
       | None => table_versions c sch n
       end).
Proof.
  induction ps as [|[k s] ps IH]; intros c Hnd Hok Hempty.
  { exists []. split; [done|]. intros rest. exists c. split_and!; try done. intros sch. rewrite elem_of_nil. tauto. }
  apply NoDup_cons in Hnd as [Hk Hnd]. apply Forall_cons in Hok as [Hs Hok]. cbn [fst snd] in Hs.
  destruct (visible_tables_ok k s Hs) as (Htok & Htnd & Hfilter). destruct Hs as (Hshort & Hsmall & _).
  destruct (de_tables_image k (visible_tables s) (ensure_schema c k)) as (tb & Htb & Htl); try done.
  { apply has_schema_ensure. by left. }
  { intros e _. rewrite table_versions_ensure. apply (Hempty (k, s)), list_elem_of_here. }
  set (wr := CkptWriteStr k ++ CkptWriteU32 (Z.of_nat (length (visible_tables s))) ++ concat tb).
  assert (Hwr : ser_schema (k, s) = Ok wr) by (unfold ser_schema, ser_list_r; simpl; by rewrite Htb).
  assert (Hc1 : forall rest, exists c1,
     de_tables k (length (visible_tables s)) (ensure_schema c k) (concat tb ++ rest) = Ok (c1, rest) /\
     (forall sch, has_schema c1 sch <-> k = sch \/ has_schema c sch) /\
     (forall sch n, table_versions c1 sch n = if decide (k = sch) then live_images k s n else table_versions c sch n)).
  { intros rest. destruct (Htl rest) as (c1 & Hde & Hsch & Htv). exists c1. split_and!; [done| |].
    - intros sch. rewrite Hsch. apply has_schema_ensure.
    - intros sch n. rewrite Htv, table_versions_ensure. case_decide as Heq; [|done]. subst sch.
      rewrite (Hempty (k, s)), Hfilter by apply list_elem_of_here. done. }
  clear Htl. destruct (IH c) as (bs & Hbs & _); try done.
  { intros p n Hp. apply Hempty. by apply list_elem_of_further. }
  exists (wr :: bs). cbn [mapM_r]. rewrite Hwr, Hbs. split; [done|]. intros rest.
  destruct (Hc1 (concat bs ++ rest)) as (c1 & Hde & Hsch & Htv).
  destruct (IH c1) as (bs' & Hbs' & Hrest); try done.
  { intros [k' s'] n Hp. cbn [fst]. rewrite Htv, decide_False.
    - apply (Hempty (k', s')). by apply list_elem_of_further.
    - intros ->. by apply Hk, (list_elem_of_fmap_2 fst _ _ Hp). }
  rewrite Hbs in Hbs'. injection Hbs' as <-. destruct (Hrest rest) as (c' & Hde' & Hsch' & Htv').
  exists c'. split_and!.
  - cbn [de_schemas length concat]. unfold wr. rewrite <- !app_assoc, read_str by done. cbn [mbind result_bind].
    rewrite read_u32 by (unfold is_u32, small in *; lia). cbn [mbind result_bind]. rewrite Nat2Z.id, Hde.
    cbn [mbind result_bind]. done.
  - intros sch. rewrite Hsch', Hsch, fmap_cons, elem_of_cons. simpl. naive_solver.
  - intros sch n. rewrite Htv', Htv. simpl. destruct (decide (k = sch)) as [<-|Hne].
    + rewrite lookup_insert_eq, not_elem_of_list_to_map_1 by done. done.
    + by rewrite lookup_insert_ne.
Qed.

(** A catalog the checkpoint format can hold. *)
Definition catalog_ok `{MapOrder} (c : Catalog) : Prop :=
  small (size (schemas_ c)) /\ map_Forall schema_ok (schemas_ c).


(** ** A concrete checkpoint *)

Definition sample_segment : ColumnSegment := mkSegment 3 BIT_PACKED INT64 1024 0 Stats_empty.

Definition sample_table : TableCatalogEntry :=
  mkEntry "t" "main" 2 5 INVALID_TRANSACTION INVALID_TIMESTAMP [mkCol "a" INT64 true true; mkCol "b" VARCHAR false false]
    [mkRG 0 1024 [INT64; VARCHAR] [mkCC INT64 [sample_segment] (Reset INT64 0) 1024 Stats_empty; CC_new VARCHAR]
       VI_empty 0 INVALID_TRANSACTION]
    (mkPI PT_RANGE ["a"]%string [0]%Z 2 [mkDef [Value_Integer 10] []; mkDef [] []]) [[0]; []].

Definition sample_catalog : Catalog := mkCatalog {["main" := mkSchema "main" {["t" := [sample_table]]}]}.

Lemma sample_table_ok : table_ok sample_table.
Proof.
  unfold table_ok, partition_ok, indices_ok, short, small. simpl.
  split_and!; try lia; repeat constructor; unfold column_ok, short, small, is_u32, is_u64, is_i64; simpl; lia.
Qed.

