(* ===== verification/Wal.v ===== *)
(** * The write-ahead log

    [storage/wal.hpp], [wal.cpp], [Transaction::WriteToWAL] of
    [transaction/transaction.cpp] and the payload readers of
    [main/database.cpp].  The log is a file of framed entries; the file system
    is modelled as in [BlockFile], with a second script for the results of
    [fsync].  The claims are that a log cut off anywhere replays a prefix of
    its entries, that a checkpoint truncation keeps the entries from the
    marker on, that the payloads of CREATE TABLE and DELETE are read back, and
    the two defects of the format: inserted rows cannot be read back, and a
    marker at the start of the file makes [Truncate] drop the entries that
    follow it. *)

From Stdlib Require Import ZArith String.
From stdpp Require Import base gmap strings list.
From S2P Require Import Prelude Types PartitionInfo Transaction BlockFile CatalogCheckpoint Schema.

Inductive WALEntryType : Type :=
  | WAL_CREATE_TABLE | WAL_DROP_TABLE | WAL_INSERT | WAL_DELETE | WAL_UPDATE
  | WAL_CREATE_SCHEMA | WAL_DROP_SCHEMA | WAL_CHECKPOINT | WAL_ALTER_TABLE.

Definition WALEntryType_u8 (t : WALEntryType) : Z :=
  match t with
  | WAL_CREATE_TABLE => 1 | WAL_DROP_TABLE => 2 | WAL_INSERT => 3 | WAL_DELETE => 4 | WAL_UPDATE => 5
  | WAL_CREATE_SCHEMA => 6 | WAL_DROP_SCHEMA => 7 | WAL_CHECKPOINT => 8 | WAL_ALTER_TABLE => 9
  end%Z.

(** A decoded entry; its type is any byte. *)
Record WALEntry : Type := mkWALEntry { we_type : Z; we_data : list Z }.

(** [w_file] and [w_pos] are the bytes behind [fd_] and its offset. *)
Record WAL : Type := mkWAL {
  w_file : list Z;
  w_pos : nat;
  w_io : list Z;
  w_sync : list Z;
  write_buffer_ : list Z;
  file_size_ : nat;
  checkpoint_pos_ : nat;
}.

(** [WAL::Create] truncates the file, [OpenForReplay] reads it from the start. *)
Definition WAL_Create (io sync : list Z) : WAL := mkWAL [] 0 io sync [] 0 0.
Definition OpenForReplay (file io : list Z) : WAL := mkWAL file 0 io [] [] (length file) 0.

(** ** Framing *)

Definition with_buffer (w : WAL) (buf : list Z) : WAL :=
  mkWAL (w_file w) (w_pos w) (w_io w) (w_sync w) buf (file_size_ w) (checkpoint_pos_ w).

(** The packed five-byte header and the payload. *)
Definition frame (e : WALEntry) : list Z :=
  we_type e :: le_bytes 4 (Z.of_nat (length (we_data e))) ++ we_data e.

Definition AppendEntry (w : WAL) (t : WALEntryType) (payload : list Z) : WAL :=
  with_buffer w (write_buffer_ w ++ frame (mkWALEntry (WALEntryType_u8 t) payload)).

Definition WriteCheckpointMarker (w : WAL) : WAL :=
  let w' := mkWAL (w_file w) (w_pos w) (w_io w) (w_sync w) (write_buffer_ w) (file_size_ w)
              (file_size_ w + length (write_buffer_ w)) in
  AppendEntry w' WAL_CHECKPOINT [].

(** The result of the next [fsync]. *)
Definition next_sync (l : list Z) : Z * list Z := match l with [] => (0%Z, []) | z :: l => (z, l) end.

Definition Flush (w : WAL) : result WAL :=
  if decide (write_buffer_ w = []) then Ok w else
  '(file, io) ← pwrite_loop "WAL::Flush: write failed" (w_io w) (w_pos w) (write_buffer_ w) (w_file w);
  let n := length (write_buffer_ w) in
  let (r, sync) := next_sync (w_sync w) in
  _ ← require (Z.eqb r 0) (IOError "WAL::Flush: fsync failed");
  Ok (mkWAL file (w_pos w + n) io sync [] (file_size_ w + n) (checkpoint_pos_ w)).

(** One [read]: what it returns, the bytes and the log after it. *)
Definition read_once (w : WAL) (want : Z) : Z * list Z * WAL :=
  let avail := Z.min want (Z.of_nat (length (w_file w) - w_pos w)) in
  let (n, io) := match w_io w with [] => (avail, []) | z :: io => (Z.min z avail, io) end in
  let k := Z.to_nat n in
  (n, slice (w_pos w) k (w_file w),
   mkWAL (w_file w) (w_pos w + k) io (w_sync w) (write_buffer_ w) (file_size_ w) (checkpoint_pos_ w)).

Definition MAX_ENTRY : Z := (128 * 1024 * 1024)%Z.

(** [None] is the return value [false]. *)
Definition ReadNextEntry (w : WAL) : result (option WALEntry * WAL) :=
  let '(n, hdr, w) := read_once w 5 in
  if Z.ltb n 5 then Ok (None, w) else
  let size := le_val (drop 1 hdr) in
  _ ← require (negb (Z.ltb MAX_ENTRY size)) (IOError "WAL: entry too large (corrupted?)");
  t ← of_option UndefinedBehaviour (head hdr);
  if Z.ltb 0 size then
    let '(n, data, w) := read_once w size in
    if Z.ltb n size then Ok (None, w) else Ok (Some (mkWALEntry t data), w)
  else Ok (Some (mkWALEntry t []), w).

(** The loop of [ReplayWAL] that collects the entries; an entry takes at least
    five bytes, so the length of the file bounds the rounds. *)
Fixpoint read_entries (fuel : nat) (w : WAL) : result (list WALEntry) :=
  match fuel with
  | O => Ok []
  | S fuel =>
      '(e, w) ← ReadNextEntry w;
      match e with
      | None => Ok []
      | Some e => es ← read_entries fuel w; Ok (e :: es)
      end
  end.
Definition read_log (file : list Z) : result (list WALEntry) :=
  read_entries (S (length file)) (OpenForReplay file []).

(** The entries behind the last checkpoint marker. *)
Definition is_marker (e : WALEntry) : bool := Z.eqb (we_type e) (WALEntryType_u8 WAL_CHECKPOINT).
Fixpoint replay_entries (es : list WALEntry) : list WALEntry :=
  match es with
  | [] => []
  | e :: es => if existsb is_marker es then replay_entries es else if is_marker e then es else e :: es
  end.

(** With the marker beyond the end of the file the unsigned subtraction wraps
    and no vector of that size exists. *)
Definition Truncate (w : WAL) : result WAL :=
  if decide (checkpoint_pos_ w = 0) then
    Ok (mkWAL [] 0 (w_io w) (w_sync w) (write_buffer_ w) 0 0)
  else if decide (file_size_ w < checkpoint_pos_ w) then Err UndefinedBehaviour else
  let keep_size := file_size_ w - checkpoint_pos_ w in
  '(tail, io) ← pread_loop "WAL::Truncate: read failed" (w_io w) (checkpoint_pos_ w) keep_size (w_file w);
  '(file, io) ← pwrite_loop "WAL::Truncate: write failed" io 0 tail [];
  Ok (mkWAL file keep_size io (if decide (0 < keep_size) then snd (next_sync (w_sync w)) else w_sync w)
        (write_buffer_ w) keep_size 0).

(** ** Payloads *)

Definition WriteStr : string -> list Z := str16.
Definition WriteU32 (n : nat) : list Z := le_bytes 4 (Z.of_nat n).

Definition wal_list {A} (f : A -> list Z) (l : list A) : list Z := WriteU32 (length l) ++ concat (map f l).
Definition wal_list_r {A} (f : A -> result (list Z)) (l : list A) : result (list Z) :=
  bs ← mapM_r f l; Ok (WriteU32 (length l) ++ concat bs).

(** One byte of the validity bitmap of a column. *)
Definition bitmap_step (col : DataVector) (count i : nat) (b : Z) (bit : nat) : Z :=
  if decide (i * 8 + bit < count) then
    if IsNull col (i * 8 + bit) then b else Z.lor b (u8 (Z.shiftl 1 (Z.of_nat bit)))
  else b.
Definition bitmap_byte (col : DataVector) (count i : nat) : Z := foldl (bitmap_step col count i) 0%Z (seq 0 8).

Definition chunk_cell (col : DataVector) (r : nat) : result (list Z) :=
  if IsNull col r then Ok [] else
  match storage_of (dv_type col) with
  | SInt => z ← of_option UndefinedBehaviour (int_data col !! r); Ok (le_bytes 8 (u64 z))
  | SFloat => d ← of_option UndefinedBehaviour (float_data col !! r); Ok (le_bytes 8 d)
  | SStr => s ← of_option UndefinedBehaviour (str_data col !! r); Ok (WriteStr s)
  | SNone => Ok []
  end.

Definition ser_chunk_column (count : nat) (col : DataVector) : result (list Z) :=
  vals ← mapM_r (chunk_cell col) (seq 0 count);
  Ok (TypeId_u8 (dv_type col) :: map (bitmap_byte col count) (seq 0 ((count + 7) / 8)) ++ concat vals).

Definition SerializeChunk (chunk : DataChunk) : result (list Z) :=
  cols ← mapM_r (ser_chunk_column (ch_count chunk)) (columns chunk);
  Ok (WriteU32 (ch_count chunk) ++ WriteU32 (ColumnCount chunk) ++ concat cols).

Definition WriteInsert (w : WAL) (schema table : string) (chunk : DataChunk) : result WAL :=
  bs ← SerializeChunk chunk; Ok (AppendEntry w WAL_INSERT (WriteStr schema ++ WriteStr table ++ bs)).

Definition delete_payload (schema table : string) (row_ids : list Z) : list Z :=
  WriteStr schema ++ WriteStr table ++ wal_list (le_bytes 8) row_ids.
Definition WriteDelete (w : WAL) (schema table : string) (row_ids : list Z) : WAL :=
  AppendEntry w WAL_DELETE (delete_payload schema table row_ids).

Definition WriteUpdate (w : WAL) (schema table : string) (col_ids : list nat) (row_ids : list Z)
    (new_values : DataChunk) : result WAL :=
  bs ← SerializeChunk new_values;
  Ok (AppendEntry w WAL_UPDATE
        (WriteStr schema ++ WriteStr table ++ wal_list WriteU32 col_ids ++ wal_list (le_bytes 8) row_ids ++ bs)).

(** [WriteVal] of [WriteCreateTable] and [WriteAlterTable]. *)
Definition wal_value (v : Value) : result (list Z) :=
  payload ← (if decide (vtype v = VARCHAR) then s ← GetVarchar v; Ok (WriteStr s)
             else if is_float_type (vtype v) then d ← GetFloat64 v; Ok (le_bytes 8 d)
             else z ← GetInt64 v; Ok (le_bytes 8 (u64 z)));
  Ok (TypeId_u8 (vtype v) :: payload).

Definition wal_defs (pi : PartitionInfo) : result (list Z) :=
  match ptype pi with
  | PT_RANGE => wal_list_r (fun d => wal_list_r wal_value (upper_bounds d)) (defs pi)
  | PT_LIST => wal_list_r (fun d => wal_list_r (wal_list_r wal_value) (list_values d)) (defs pi)
  | _ => Ok []
  end.

Definition wal_partition (pi : PartitionInfo) : result (list Z) :=
  if IsPartitioned pi then
    ds ← wal_defs pi;
    Ok (PartitionType_u8 (ptype pi) :: wal_list WriteStr (partition_cols pi)
        ++ le_bytes 4 (num_partitions pi) ++ ds)
  else Ok [PartitionType_u8 (ptype pi)].

(** [col_types[i]] for a name without a type is out of range. *)
Definition wal_column (names : list string) (types : list TypeId) (i : nat) : result (list Z) :=
  n ← of_option UndefinedBehaviour (names !! i);
  t ← of_option UndefinedBehaviour (types !! i);
  Ok (WriteStr n ++ [TypeId_u8 t]).
Definition wal_columns (names : list string) (types : list TypeId) : result (list Z) :=
  bs ← mapM_r (wal_column names types) (seq 0 (length names));
  Ok (WriteU32 (length names) ++ concat bs).

Definition create_payload (schema table : string) (names : list string) (types : list TypeId)
    (pi : PartitionInfo) : result (list Z) :=
  cols ← wal_columns names types;
  part ← wal_partition pi;
  Ok (WriteStr schema ++ WriteStr table ++ cols ++ part).
Definition WriteCreateTable (w : WAL) (schema table : string) (names : list string) (types : list TypeId)
    (pi : PartitionInfo) : result WAL :=
  bs ← create_payload schema table names types pi; Ok (AppendEntry w WAL_CREATE_TABLE bs).

Definition WriteDropTable (w : WAL) (schema table : string) : WAL :=
  AppendEntry w WAL_DROP_TABLE (WriteStr schema ++ WriteStr table).

Definition WriteAlterTable (w : WAL) (schema table : string) (pi : PartitionInfo) (idx : list (list nat)) : result WAL :=
  part ← wal_partition pi;
  Ok (AppendEntry w WAL_ALTER_TABLE
        (WriteStr schema ++ WriteStr table ++ part ++ wal_list (wal_list (fun i => le_bytes 8 (Z.of_nat i))) idx)).

Definition WriteCreateSchema (w : WAL) (schema : string) : WAL := AppendEntry w WAL_CREATE_SCHEMA (WriteStr schema).
Definition WriteDropSchema (w : WAL) (schema : string) : WAL := AppendEntry w WAL_DROP_SCHEMA (WriteStr schema).

(** ** The undo buffer in the log *)

Definition log_entry (w : WAL) (e : UndoEntry) : result WAL :=
  match e with
  | UndoCatalog e =>
      if was_create e then WriteCreateTable w (cu_schema e) (cu_table e) (cu_col_names e) (cu_col_types e) (cu_partition_info e)
      else Ok (WriteDropTable w (cu_schema e) (cu_table e))
  | UndoInsert e =>
      if decide (0 < ch_count (inserted_rows e)) then WriteInsert w (iu_schema e) (iu_table e) (inserted_rows e) else Ok w
  | UndoDelete e =>
      if decide (du_row_ids e <> []) then Ok (WriteDelete w (du_schema e) (du_table e) (du_row_ids e)) else Ok w
  | UndoUpdate e =>
      if decide (uu_row_ids e <> [] /\ 0 < ch_count (new_values e))
      then WriteUpdate w (uu_schema e) (uu_table e) (uu_col_ids e) (uu_row_ids e) (new_values e) else Ok w
  | UndoAlter e => WriteAlterTable w (au_schema e) (au_table e) (new_partition_info e) (new_partition_rg_indices e)
  end.

Definition WriteToWAL (tx : Transaction) (w : WAL) : result WAL :=
  w ← ForEachForward log_entry w (undo_buffer tx); Flush w.

(** ** Reading payloads *)

(** The readers [RdU8] ... [RdStr] of [database.cpp] are those of the
    checkpoint format. *)
Definition RdU8 : reader Z := rd_le 1.
Definition RdU32 : reader Z := rd_le 4.
Definition RdU64 : reader Z := rd_le 8.
Definition RdStr : reader string := rd_str16.

(** [vec.x[r] = v]: the vectors [Initialize] makes have no elements yet. *)
Definition store {A} (l : list A) (r : nat) (x : A) : result (list A) :=
  if decide (r < length l) then Ok (<[r := x]> l) else Err UndefinedBehaviour.

Definition de_cell (bitmap : list Z) (st : DataVector * list Z) (r : nat) : result (DataVector * list Z) :=
  let '(vec, bs) := st in
  b ← of_option UndefinedBehaviour (bitmap !! (r / 8));
  if negb (Z.testbit b (Z.of_nat (r mod 8))) then vec ← SetNull vec r; Ok (vec, bs) else
  vec ← SetValid vec r;
  match storage_of (dv_type vec) with
  | SInt => '(z, bs) ← RdU64 bs; l ← store (int_data vec) r (i64 z); Ok (with_int l vec, bs)
  | SFloat => '(d, bs) ← RdU64 bs; l ← store (float_data vec) r d; Ok (with_float l vec, bs)
  | SStr => '(s, bs) ← RdStr bs; l ← store (str_data vec) r s; Ok (with_str l vec, bs)
  | SNone => Ok (vec, bs)
  end.

Definition de_chunk_column (count : nat) (t : TypeId) : reader DataVector := fun bs =>
  '(bitmap, bs) ← rd_many RdU8 ((count + 7) / 8) bs;
  foldM (de_cell bitmap) (with_count count (Reset t 0), bs) (seq 0 count).

Fixpoint de_chunk_columns (count : nat) (types : list TypeId) : reader (list DataVector) := fun bs =>
  match types with
  | [] => Ok ([], bs)
  | t :: types =>
      '(v, bs) ← de_chunk_column count t bs;
      '(vs, bs) ← de_chunk_columns count types bs;
      Ok (v :: vs, bs)
  end.

Definition DeserializeChunkPayload : reader DataChunk := fun bs =>
  '(rows, bs) ← RdU32 bs;
  '(cols, bs) ← RdU32 bs;
  '(types, bs) ← rd_many rd_type (Z.to_nat cols) bs;
  '(vs, bs) ← de_chunk_columns (Z.to_nat rows) types bs;
  Ok (mkChunk vs (Z.to_nat rows), bs).

(** The payload of [WAL_DELETE]. *)
Definition rd_delete : reader (string * string * list Z) := fun bs =>
  '(schema, bs) ← RdStr bs;
  '(table, bs) ← RdStr bs;
  '(ids, bs) ← rd_list RdU64 bs;
  Ok (schema, table, ids, bs).

(** The payload of [WAL_CREATE_TABLE]; a key column that does not exist gets
    no position. *)
Definition rd_wal_column : reader ColumnDefinition := fun bs =>
  '(n, bs) ← RdStr bs; '(t, bs) ← rd_type bs; Ok (mkCol n t false false, bs).

Definition key_positions (cols : list ColumnDefinition) (keys : list string) : list Z :=
  omap (fun k => let i := find_column cols k 0 in if Z.eqb i (-1) then None else Some i) keys.

Definition rd_wal_partition (cols : list ColumnDefinition) : reader PartitionInfo := fun bs =>
  '(b, bs) ← RdU8 bs;
  t ← PartitionType_of_u8 b;
  if decide (t = PT_NONE) then Ok (PI_none, bs) else
  '(keys, bs) ← rd_list RdStr bs;
  '(n, bs) ← RdU32 bs;
  '(ds, bs) ← rd_defs t bs;
  Ok (mkPI t keys (key_positions cols keys) n ds, bs).

Definition rd_create : reader (string * string * list ColumnDefinition * PartitionInfo) := fun bs =>
  '(schema, bs) ← RdStr bs;
  '(table, bs) ← RdStr bs;
  '(cols, bs) ← rd_list rd_wal_column bs;
  '(pi, bs) ← rd_wal_partition cols bs;
  Ok (schema, table, cols, pi, bs).

(** ** A log cut off anywhere *)

Definition entry_ok (e : WALEntry) : Prop := (Z.of_nat (length (we_data e)) <= MAX_ENTRY)%Z.

(** The log that remains to be read, all reads being full. *)
Definition remaining (w : WAL) (bs : list Z) : Prop := w_io w = [] /\ drop (w_pos w) (w_file w) = bs.

Lemma read_once_rem w bs want :
  remaining w bs -> (0 <= want)%Z ->
  exists w', read_once w want = (Z.min want (Z.of_nat (length bs)), take (Z.to_nat want) bs, w') /\
    remaining w' (drop (Z.to_nat want) bs).
Proof.
  intros [Hio Hd] Hw. unfold read_once. rewrite Hio.
  assert (Hlen : length (w_file w) - w_pos w = length bs) by (rewrite <- Hd, length_drop; done).
  rewrite Hlen. set (n := Z.min want (Z.of_nat (length bs))).
  assert (Hs : slice (w_pos w) (Z.to_nat n) (w_file w) = take (Z.to_nat want) bs /\
               drop (w_pos w + Z.to_nat n) (w_file w) = drop (Z.to_nat want) bs).
  { unfold slice. rewrite <- drop_drop, Hd. unfold n. destruct (Z.le_ge_cases want (Z.of_nat (length bs))).
    - by rewrite Z.min_l by done.
    - rewrite Z.min_r, !take_ge, !drop_ge by lia. done. }
  destruct Hs as [-> Hs2]. eexists. split; [reflexivity|]. by split.
Qed.

Lemma length_frame e : length (frame e) = 5 + length (we_data e).
Proof. unfold frame. simpl. by rewrite length_app, length_le_bytes. Qed.

(** A complete frame is read, and an incomplete one ends the replay. *)
Lemma ReadNextEntry_frame w e rest :
  entry_ok e -> remaining w (frame e ++ rest) ->
  exists w', ReadNextEntry w = Ok (Some e, w') /\ remaining w' rest.
Proof.
  intros He Hw. unfold ReadNextEntry.
  destruct (read_once_rem w _ 5 Hw ltac:(lia)) as (w1 & -> & Hw1).
  rewrite length_app, length_frame. rewrite (proj2 (Z.ltb_ge _ 5)) by lia.
  set (sz := Z.of_nat (length (we_data e))) in *.
  assert (Hhdr : take (Z.to_nat 5) (frame e ++ rest) = we_type e :: le_bytes 4 sz) by done.
  assert (Hrest : drop (Z.to_nat 5) (frame e ++ rest) = we_data e ++ rest) by done.
  rewrite Hhdr. rewrite Hrest in Hw1. change (drop 1 (we_type e :: le_bytes 4 sz)) with (le_bytes 4 sz). rewrite le_val_le_bytes.
  unfold entry_ok, MAX_ENTRY in *. fold sz in He.
  rewrite Z.mod_small by (simpl; lia). rewrite (proj2 (Z.ltb_ge (128 * 1024 * 1024) sz)) by lia.
  cbn [negb require mbind result_bind head of_option].
  destruct (Z.ltb_spec 0 sz) as [Hpos|Hzero].
  - destruct (read_once_rem w1 _ sz Hw1 ltac:(lia)) as (w2 & -> & Hw2).
    rewrite length_app, (proj2 (Z.ltb_ge _ sz)) by lia. exists w2.
    unfold sz in *. rewrite Nat2Z.id, take_app_length in *. rewrite drop_app_length in Hw2.
    split; [by destruct e|done].
  - assert (we_data e = []) as Hnil by (apply length_zero_iff_nil; lia). exists w1. rewrite Hnil in Hw1.
    split; [destruct e; simpl in *; by subst|done].
Qed.

Lemma ReadNextEntry_torn w e k :
  entry_ok e -> k < length (frame e) -> remaining w (take k (frame e)) -> exists w', ReadNextEntry w = Ok (None, w').
Proof.
  intros He Hk Hw. rewrite length_frame in Hk. unfold ReadNextEntry.
  destruct (read_once_rem w _ 5 Hw ltac:(lia)) as (w1 & -> & Hw1).
  rewrite length_take, length_frame. destruct (Z.ltb_spec (Z.min 5 (Z.of_nat (k `min` (5 + length (we_data e))))) 5) as [Hs|Hs].
  { by eexists. }
  set (sz := Z.of_nat (length (we_data e))) in *.
  assert (exists k', k = 5 + k') as [k' ->] by (exists (k - 5); lia).
  change (Z.to_nat 5) with 5 in *. rewrite take_take in *. replace (5 `min` (5 + k')) with 5 in * by lia.
  assert (Hhdr : take 5 (frame e) = we_type e :: le_bytes 4 sz) by done. rewrite Hhdr.
  assert (Hrest : drop 5 (take (5 + k') (frame e)) = take k' (we_data e)) by done. rewrite Hrest in Hw1.
  change (drop 1 (we_type e :: le_bytes 4 sz)) with (le_bytes 4 sz). rewrite le_val_le_bytes. unfold entry_ok, MAX_ENTRY in *. fold sz in He.
  rewrite Z.mod_small by (simpl; lia). rewrite (proj2 (Z.ltb_ge (128 * 1024 * 1024) sz)) by lia.
  cbn [negb require mbind result_bind head of_option]. rewrite (proj2 (Z.ltb_lt 0 sz)) by lia.
  destruct (read_once_rem w1 _ sz Hw1 ltac:(lia)) as (w2 & -> & Hw2).
  rewrite length_take, (proj2 (Z.ltb_lt _ sz)) by lia. by exists w2.
Qed.

Lemma ReadNextEntry_end w : remaining w [] -> exists w', ReadNextEntry w = Ok (None, w').
Proof.
  intros Hw. unfold ReadNextEntry. destruct (read_once_rem w _ 5 Hw ltac:(lia)) as (w1 & -> & _). by exists w1.
Qed.

Definition log_bytes (es : list WALEntry) : list Z := concat (map frame es).

Lemma read_entries_cut es : forall fuel w k,
  Forall entry_ok es -> k < fuel -> remaining w (take k (log_bytes es)) ->
  exists j, read_entries fuel w = Ok (take j es) /\ j <= length es /\ length (log_bytes (take j es)) <= k /\
    (j < length es -> k < length (log_bytes (take (S j) es))).
Proof.
  induction es as [|e es IH]; intros fuel w k Hok Hf Hw; (destruct fuel as [|fuel]; [lia|]).
  - exists 0. unfold log_bytes in Hw. simpl in Hw. rewrite take_nil in Hw.
    destruct (ReadNextEntry_end w Hw) as (w' & Hr). simpl. rewrite Hr. cbn. split_and!; try done; lia.
  - apply Forall_cons in Hok as [He Hok]. change (log_bytes (e :: es)) with (frame e ++ log_bytes es) in Hw.
    pose proof (length_frame e) as Hlf. destruct (decide (k < length (frame e))) as [Hk|Hk].
    + exists 0. rewrite take_app_le in Hw by lia.
      destruct (ReadNextEntry_torn w e k He Hk Hw) as (w' & Hr). simpl. rewrite Hr. cbn.
      split_and!; try done; try lia. intros _. rewrite app_nil_r. done.
    + assert (exists k', k = length (frame e) + k') as [k' ->] by (exists (k - length (frame e)); lia).
      rewrite take_app_add in Hw.
      destruct (ReadNextEntry_frame w e _ He Hw) as (w' & Hr & Hw').
      destruct (IH fuel w' k') as (j & Hj & Hle & Hlo & Hhi); try done; [lia|].
      exists (S j). cbn [read_entries take]. rewrite Hr. cbn [mbind result_bind]. rewrite Hj. split_and!; try done; [simpl; lia| |].
      * change (log_bytes (e :: take j es)) with (frame e ++ log_bytes (take j es)). rewrite length_app. lia.
      * intros Hlt. change (log_bytes (e :: take (S j) es)) with (frame e ++ log_bytes (take (S j) es)).
        rewrite length_app. specialize (Hhi ltac:(simpl in Hlt; lia)). lia.
Qed.

(** C9: however many bytes of a log of entries of at most 128 MiB survive a
    crash, the replay succeeds and returns exactly the entries whose bytes are
    all there. *)
Theorem torn_log_replays_prefix es k :
  Forall entry_ok es -> k <= length (log_bytes es) ->
  exists j, read_log (take k (log_bytes es)) = Ok (take j es) /\ j <= length es /\
    length (log_bytes (take j es)) <= k /\ (j < length es -> k < length (log_bytes (take (S j) es))).
Proof.
  intros Hok Hk. unfold read_log. rewrite length_take. replace (k `min` length (log_bytes es)) with k by lia.
  apply read_entries_cut; [done|lia|]. split; [done|]. simpl. by rewrite drop_0.
Qed.

(** ** Checkpoints of the log *)

(** The log as it is while the database runs: the file offset is at the end
    and no system call fails. *)
Record wal_ok (w : WAL) : Prop := {
  wo_pos : w_pos w = length (w_file w);
  wo_size : file_size_ w = length (w_file w);
  wo_io : io_ok (w_io w);
  wo_sync : Forall (eq 0%Z) (w_sync w);
}.

Lemma next_sync_ok l : Forall (eq 0%Z) l -> (next_sync l).1 = 0%Z /\ Forall (eq 0%Z) (next_sync l).2.
Proof. intros H. destruct H; simpl; [done|]. by subst. Qed.

Lemma wal_Flush_Ok w :
  wal_ok w ->
  exists w', Flush w = Ok w' /\ wal_ok w' /\ w_file w' = w_file w ++ write_buffer_ w /\
    write_buffer_ w' = [] /\ checkpoint_pos_ w' = checkpoint_pos_ w.
Proof.
  intros [Hp Hs Hio Hsy]. unfold Flush. case_decide as Hb.
  { exists w. rewrite Hb, app_nil_r. split_and!; done. }
  destruct (pwrite_loop_Ok "WAL::Flush: write failed" (w_io w) (w_pos w) (write_buffer_ w) (w_file w) Hio)
    as (io' & -> & Hio'); [lia|]. cbn [mbind result_bind].
  destruct (next_sync_ok (w_sync w) Hsy) as [Hr Hsy']. destruct (next_sync (w_sync w)) as [r sync]. simpl in Hr. subst r.
  cbn [require Z.eqb mbind result_bind]. eexists. split; [done|]. simpl.
  assert (Hfw : file_write (w_pos w) (write_buffer_ w) (w_file w) = w_file w ++ write_buffer_ w).
  { rewrite file_write_eq by lia. rewrite take_ge, drop_ge by lia. by rewrite app_nil_r. }
  rewrite Hfw. split_and!; try done. split; simpl; try done; rewrite length_app; lia.
Qed.

Definition append_all (w : WAL) (es : list (WALEntryType * list Z)) : WAL :=
  foldl (fun w e => AppendEntry w e.1 e.2) w es.
Definition entries_of (es : list (WALEntryType * list Z)) : list WALEntry :=
  map (fun e => mkWALEntry (WALEntryType_u8 e.1) e.2) es.

Lemma append_all_eq w es : append_all w es = with_buffer w (write_buffer_ w ++ log_bytes (entries_of es)).
Proof.
  revert w. induction es as [|e es IH]; intros w; simpl.
  - unfold log_bytes. simpl. rewrite app_nil_r. by destruct w.
  - rewrite IH. unfold AppendEntry, log_bytes, with_buffer. simpl. by rewrite <- app_assoc.
Qed.

Definition marker : WALEntry := mkWALEntry (WALEntryType_u8 WAL_CHECKPOINT) [].

Lemma wal_ok_buffer w buf cp :
  wal_ok w -> wal_ok (mkWAL (w_file w) (w_pos w) (w_io w) (w_sync w) buf (file_size_ w) cp).
Proof. intros []. by split. Qed.

(** The marker is written and flushed, then entries follow and are flushed. *)
Lemma checkpoint_then_entries w es :
  wal_ok w ->
  exists w1 w2, Flush (WriteCheckpointMarker w) = Ok w1 /\ Flush (append_all w1 es) = Ok w2 /\ wal_ok w2 /\
    w_file w2 = (w_file w ++ write_buffer_ w) ++ log_bytes (marker :: entries_of es) /\
    write_buffer_ w2 = [] /\ checkpoint_pos_ w2 = length (w_file w ++ write_buffer_ w).
Proof.
  intros Hw. destruct (wal_Flush_Ok (WriteCheckpointMarker w)) as (w1 & H1 & Hw1 & Hf1 & Hb1 & Hc1).
  { exact (wal_ok_buffer w _ _ Hw). }
  destruct (wal_Flush_Ok (append_all w1 es)) as (w2 & H2 & Hw2 & Hf2 & Hb2 & Hc2).
  { rewrite append_all_eq. exact (wal_ok_buffer w1 _ _ Hw1). }
  exists w1, w2. rewrite append_all_eq in *. simpl in *. rewrite Hb1 in Hf2. simpl in Hf2. split_and!; try done.
  - rewrite Hf2, Hf1. unfold log_bytes. simpl. by rewrite <- !app_assoc.
  - rewrite Hc2, Hc1, length_app, (wo_size _ Hw). done.
Qed.

Lemma read_log_all es : Forall entry_ok es -> read_log (log_bytes es) = Ok es.
Proof.
  intros Hok. destruct (read_entries_cut es (S (length (log_bytes es))) (OpenForReplay (log_bytes es) []) (length (log_bytes es)))
    as (j & Hj & Hle & Hlo & Hhi); [done|lia| |].
  { split; [done|]. simpl. by rewrite drop_0, take_ge. }
  unfold read_log. rewrite Hj. f_equal. apply take_ge. destruct (decide (j < length es)) as [Hlt|]; [|lia].
  specialize (Hhi Hlt). pose proof (f_equal length (take_drop (S j) es)) as Hsplit.
  assert (length (log_bytes (take (S j) es)) <= length (log_bytes es)); [|lia].
  rewrite <- (take_drop (S j) es) at 2. unfold log_bytes. rewrite map_app, concat_app, length_app. lia.
Qed.

Lemma replay_after_marker es : existsb is_marker es = false -> replay_entries (marker :: es) = es.
Proof. intros Hn. simpl. by rewrite Hn. Qed.

(** C31: when the log is not empty before the checkpoint marker and no system
    call fails, then after marker, flush, more entries (each at most 128 MiB and
    none a marker), flush and Truncate, the next replay applies exactly the
    entries behind the marker. A marker at the start of an empty log is taken
    for no marker and the entries are lost ([truncate_at_start_loses_entries]).
    *)
Theorem truncate_keeps_new_entries w es :
  wal_ok w -> w_file w ++ write_buffer_ w <> [] ->
  Forall entry_ok (entries_of es) -> existsb is_marker (entries_of es) = false ->
  exists w1 w2 w3 log, Flush (WriteCheckpointMarker w) = Ok w1 /\ Flush (append_all w1 es) = Ok w2 /\
    Truncate w2 = Ok w3 /\ wal_ok w3 /\ read_log (w_file w3) = Ok log /\ replay_entries log = entries_of es.
Proof.
  intros Hw Hne Hok Hnm. destruct (checkpoint_then_entries w es Hw) as (w1 & w2 & H1 & H2 & Hw2 & Hf & Hb & Hc).
  set (old := w_file w ++ write_buffer_ w) in *. set (new := log_bytes (marker :: entries_of es)) in *.
  assert (Hold : 0 < length old) by (destruct old; [done|simpl; lia]).
  pose proof (wo_size _ Hw2) as Hsz. rewrite Hf, length_app in Hsz.
  destruct (pread_loop_Ok "WAL::Truncate: read failed" (w_io w2) (checkpoint_pos_ w2) (file_size_ w2 - checkpoint_pos_ w2) (w_file w2))
    as (io1 & Hr & Hio1); [apply Hw2|rewrite Hf, length_app; lia|].
  assert (Htail : slice (checkpoint_pos_ w2) (file_size_ w2 - checkpoint_pos_ w2) (w_file w2) = new).
  { unfold slice. rewrite Hf, Hc, drop_app_length. apply take_ge. lia. }
  rewrite Htail in Hr.
  destruct (pwrite_loop_Ok "WAL::Truncate: write failed" io1 0 new [] Hio1) as (io2 & Hw' & Hio2); [simpl; lia|].
  assert (Hnew : file_write 0 new [] = new)
    by (rewrite file_write_eq by (simpl; lia); by rewrite take_nil, drop_nil, app_nil_r).
  assert (HT : exists w3, Truncate w2 = Ok w3 /\ wal_ok w3 /\ w_file w3 = new).
  { unfold Truncate. rewrite decide_False by lia. rewrite decide_False by lia. rewrite Hr. cbn [mbind result_bind].
    rewrite Hw'. cbn [mbind result_bind]. eexists. split; [done|]. rewrite Hnew.
    split; [|done]. split; cbn [w_pos w_file file_size_ w_io w_sync]; try done; try lia.
    destruct (decide _); [apply next_sync_ok|]; apply Hw2. }
  destruct HT as (w3 & HT & Hw3 & Hf3). exists w1, w2, w3, (marker :: entries_of es).
  split_and!; try done; [|by apply replay_after_marker].
  rewrite Hf3. apply read_log_all. by constructor.
Qed.

(** A marker at the very start of the file is taken for no marker: when
    the log is empty before the checkpoint, [Truncate] drops every entry
    written behind the marker. *)
Theorem truncate_at_start_loses_entries w es :
  wal_ok w -> w_file w = [] -> write_buffer_ w = [] ->
  exists w1 w2 w3, Flush (WriteCheckpointMarker w) = Ok w1 /\ Flush (append_all w1 es) = Ok w2 /\
    read_log (w_file w2) = read_log (log_bytes (marker :: entries_of es)) /\
    Truncate w2 = Ok w3 /\ read_log (w_file w3) = Ok [].
Proof.
  intros Hw Hfile Hbuf. destruct (checkpoint_then_entries w es Hw) as (w1 & w2 & H1 & H2 & Hw2 & Hf & _ & Hc).
  rewrite Hfile, Hbuf in Hf, Hc. simpl app in Hf. simpl in Hc.
  exists w1, w2. eexists. split_and!; [done|done|by rewrite Hf| |].
  - unfold Truncate. by rewrite decide_True.
  - done.
Qed.

(** ** Payloads that are read back *)

Lemma wal_str_eq s : short s -> WriteStr s = CkptWriteStr s.
Proof.
  intros Hs. unfold WriteStr, str16, CkptWriteStr, short in *. rewrite u16_id by (unfold is_u16; lia).
  by rewrite take_ge by (rewrite length_string_bytes; lia).
Qed.

Lemma wal_value_eq v : storable_value v -> wal_value v = ser_value v.
Proof.
  unfold storable_value, wal_value, ser_value, GetVarchar, GetFloat64, GetInt64. destruct v as [t d]; simpl.
  intros Hv. destruct t, d as [| | |s]; try done.
  change (Ok (TypeId_u8 VARCHAR :: WriteStr s) = Ok (TypeId_u8 VARCHAR :: CkptWriteStr s)). by rewrite wal_str_eq.
Qed.

Lemma wal_list_eq {A} (f g : A -> result (list Z)) l :
  (forall x, x ∈ l -> f x = g x) -> wal_list_r f l = ser_list_r g l.
Proof.
  intros Hfg. unfold wal_list_r, ser_list_r.
  assert (mapM_r f l = mapM_r g l) as ->; [|done].
  induction l as [|x l IH]; [done|]. simpl. rewrite (Hfg x) by apply list_elem_of_here.
  rewrite IH; [done|]. intros y Hy. apply Hfg. by apply list_elem_of_further.
Qed.

Lemma wal_values_eq vs : values_ok vs -> wal_list_r wal_value vs = ser_list_r ser_value vs.
Proof. intros [Hv _]. rewrite Forall_forall in Hv. apply wal_list_eq. intros v Hin. apply wal_value_eq; auto. Qed.

Lemma wal_defs_eq pi : Forall (def_ok (ptype pi)) (defs pi) -> wal_defs pi = ser_defs pi.
Proof.
  intros Hd. unfold wal_defs, ser_defs. rewrite Forall_forall in Hd. destruct (ptype pi); try done.
  - apply wal_list_eq. intros d Hin. apply wal_values_eq. by apply (Hd d Hin).
  - apply wal_list_eq. intros d Hin. destruct (Hd d Hin) as (_ & Hl & _). rewrite Forall_forall in Hl.
    apply wal_list_eq. intros t Ht. by apply wal_values_eq, Hl.
Qed.

(** The partitioning a CREATE TABLE entry can carry. *)
Definition wal_pi_ok (pi : PartitionInfo) : Prop :=
  match ptype pi with
  | PT_NONE => pi = PI_none
  | t => (Forall short (partition_cols pi) /\ small (length (partition_cols pi))) /\ is_u32 (num_partitions pi) /\
         Forall (def_ok t) (defs pi) /\ small (length (defs pi))
  end.

Definition with_positions (cols : list ColumnDefinition) (pi : PartitionInfo) : PartitionInfo :=
  mkPI (ptype pi) (partition_cols pi) (key_positions cols (partition_cols pi)) (num_partitions pi) (defs pi).

Lemma wal_strings_eq l : Forall short l -> wal_list WriteStr l = ser_list CkptWriteStr l.
Proof.
  intros Hl. unfold wal_list, ser_list. f_equal. f_equal. apply map_ext_Forall.
  eapply Forall_impl; [exact Hl|]. apply wal_str_eq.
Qed.

Lemma wal_partition_read cols pi :
  wal_pi_ok pi ->
  exists bs, wal_partition pi = Ok bs /\ forall rest, rd_wal_partition cols (bs ++ rest) = Ok (with_positions cols pi, rest).
Proof.
  intros Hp. unfold wal_partition, rd_wal_partition.
  assert (Htype : forall rest, RdU8 (PartitionType_u8 (ptype pi) :: rest) = Ok (PartitionType_u8 (ptype pi), rest)).
  { intros rest. rewrite <- (read_u8 (PartitionType_u8 (ptype pi)) rest) by (unfold is_u8; destruct (ptype pi); simpl; lia).
    by destruct (ptype pi). }
  assert (Hof : PartitionType_of_u8 (PartitionType_u8 (ptype pi)) = Ok (ptype pi)) by (by destruct (ptype pi)).
  unfold IsPartitioned. destruct (decide (ptype pi = PT_NONE)) as [Hn|Hn].
  - rewrite bool_decide_true by done. eexists. split; [done|]. intros rest. simpl app.
    rewrite Htype. cbn [mbind result_bind]. rewrite Hof. cbn [mbind result_bind]. rewrite decide_True by done.
    unfold wal_pi_ok in Hp. rewrite Hn in Hp. by subst pi.
  - rewrite bool_decide_false by done. cbn [negb].
    assert ((Forall short (partition_cols pi) /\ small (length (partition_cols pi))) /\ is_u32 (num_partitions pi) /\
      Forall (def_ok (ptype pi)) (defs pi) /\ small (length (defs pi))) as (Hc & Hnp & Hd & Hdn)
      by (unfold wal_pi_ok in Hp; by destruct (ptype pi)).
    rewrite wal_defs_eq by done. destruct (decodes_defs pi (ptype pi) Hd Hdn eq_refl) as (ds & -> & Hrd).
    cbn [mbind result_bind]. eexists. split; [done|]. intros rest. rewrite wal_strings_eq by apply Hc. simpl app.
    rewrite Htype. cbn [mbind result_bind]. rewrite Hof. cbn [mbind result_bind]. rewrite decide_False by done.
    rewrite <- !app_assoc. change RdStr with CkptReadStr. rewrite (pure_read _ _ _ _ _ _ decodes_strings Hc). cbn [mbind result_bind].
    change RdU32 with CkptReadU32. rewrite (read_u32 (num_partitions pi)) by done. cbn [mbind result_bind].
    by rewrite Hrd.
Qed.

Definition named_columns (names : list string) (types : list TypeId) : list ColumnDefinition :=
  zip_with (fun n t => mkCol n t false false) names types.

Definition ckpt_column (p : string * TypeId) : list Z := CkptWriteStr p.1 ++ CkptWriteU8 (TypeId_u8 p.2).

Lemma wal_columns_from names types ns ts :
  length names = length types -> length ns = length ts -> Forall short ns ->
  mapM_r (wal_column (names ++ ns) (types ++ ts)) (seq (length names) (length ns)) = Ok (map ckpt_column (zip ns ts)).
Proof.
  revert names types ts. induction ns as [|n ns IH]; intros names types [|t ts] Hl Hl' Hs; try done.
  apply Forall_cons in Hs as [Hn Hs].
  assert (Hhead : wal_column (names ++ n :: ns) (types ++ t :: ts) (length names) = Ok (ckpt_column (n, t))).
  { unfold wal_column. rewrite !lookup_app_r, Hl, !Nat.sub_diag by lia. cbn [lookup list_lookup of_option mbind result_bind].
    rewrite wal_str_eq by done. by destruct t. }
  specialize (IH (names ++ [n]) (types ++ [t]) ts). rewrite !length_app, <- !app_assoc in IH. simpl in IH.
  rewrite Nat.add_1_r in IH. cbn [length seq mapM_r]. rewrite Hhead. cbn [mbind result_bind].
  rewrite IH by (try done; simpl in *; lia). done.
Qed.

Lemma decodes_wal_column :
  decodes (fun p => short p.1) (pure_wr ckpt_column) rd_wal_column (fun p => mkCol p.1 p.2 false false).
Proof.
  intros [n t] Hn. eexists. split; [done|]. intros rest. unfold ckpt_column, rd_wal_column.
  rewrite <- app_assoc. change RdStr with CkptReadStr. rewrite read_str by done. cbn [mbind result_bind].
  by rewrite read_type.
Qed.

Lemma wal_columns_read names types :
  length names = length types -> Forall short names -> small (length names) ->
  exists bs, wal_columns names types = Ok bs /\
    forall rest, rd_list rd_wal_column (bs ++ rest) = Ok (named_columns names types, rest).
Proof.
  intros Hlen Hs Hn. exists (ser_list ckpt_column (zip names types)). split.
  - unfold wal_columns, ser_list. pose proof (wal_columns_from [] [] names types eq_refl Hlen Hs) as Hm.
    simpl in Hm. rewrite Hm. cbn. by rewrite length_zip_with, <- Hlen, Nat.min_id.
  - intros rest. rewrite (pure_read _ _ _ _ _ _ (decodes_pure_list _ _ _ _ decodes_wal_column)).
    + do 2 f_equal. unfold named_columns. clear. revert types. induction names as [|n names IH]; intros [|t types]; try done.
      simpl. by rewrite <- IH.
    + split; [|rewrite length_zip_with; unfold small in *; lia]. clear Hlen Hn. revert types.
      induction Hs as [|n names Hn _ IH]; intros [|t types]; constructor; auto.
Qed.

(** A CREATE TABLE entry is read back: the replay finds the schema, the
    table, the column names and types and the partitioning that the commit
    logged, for every table within the limits of the format.  (The entry has
    no room for NOT NULL and PRIMARY KEY, so the replayed columns have
    neither.) *)
Theorem create_entry_roundtrip schema table names types pi :
  short schema -> short table -> length names = length types -> Forall short names -> small (length names) ->
  wal_pi_ok pi ->
  exists bs, create_payload schema table names types pi = Ok bs /\
    forall rest, rd_create (bs ++ rest) =
      Ok (schema, table, named_columns names types, with_positions (named_columns names types) pi, rest).
Proof.
  intros Hs Ht Hlen Hn Hsm Hp. destruct (wal_columns_read names types Hlen Hn Hsm) as (cs & Hcs & Hrc).
  destruct (wal_partition_read (named_columns names types) pi Hp) as (ps & Hps & Hrp).
  unfold create_payload. rewrite Hcs. cbn [mbind result_bind]. rewrite Hps. cbn [mbind result_bind].
  eexists. split; [done|]. intros rest. rewrite !wal_str_eq by done. unfold rd_create. change RdStr with CkptReadStr.
  rewrite <- !app_assoc, read_str by done. cbn [mbind result_bind]. rewrite read_str by done. cbn [mbind result_bind].
  rewrite Hrc. cbn [mbind result_bind]. by rewrite Hrp.
Qed.

(** DELETE entries are read back too. *)
Lemma delete_entry_roundtrip schema table ids rest :
  short schema -> short table -> Forall is_u64 ids -> small (length ids) ->
  rd_delete (delete_payload schema table ids ++ rest) = Ok (schema, table, ids, rest).
Proof.
  intros Hs Ht Hi Hn. unfold delete_payload. rewrite !wal_str_eq by done. unfold rd_delete. change RdStr with CkptReadStr.
  rewrite <- !app_assoc, read_str by done. cbn [mbind result_bind]. rewrite read_str by done. cbn [mbind result_bind].
  assert (Hids : decodes is_u64 (pure_wr (le_bytes 8)) RdU64 id).
  { intros z Hz. eexists. split; [done|]. intros r. by apply read_u64. }
  change (wal_list (le_bytes 8) ids) with (ser_list (le_bytes 8) ids).
  rewrite (pure_read _ _ _ _ _ _ (decodes_pure_list _ _ _ _ Hids)) by done. cbn. by rewrite list_fmap_id.
Qed.

(** ** Inserted rows cannot be replayed *)

Lemma u8_lor a b : is_u8 a -> is_u8 b -> is_u8 (Z.lor a b).
Proof.
  intros Ha Hb. rewrite <- (Z.mod_small a (2 ^ 8)), <- (Z.mod_small b (2 ^ 8)) by done.
  rewrite <- !land_255_mod, <- Z.land_lor_distr_l. apply land_255_range.
Qed.

Lemma bitmap_byte_range col count i : is_u8 (bitmap_byte col count i).
Proof.
  unfold bitmap_byte. generalize (seq 0 8) as bits. intros bits.
  assert (H0 : is_u8 0) by (unfold is_u8; lia). revert H0. generalize 0%Z as b.
  induction bits as [|bit bits IH]; intros b Hb; [done|]. simpl. apply IH. unfold bitmap_step.
  case_decide; [|done]. destruct (IsNull col _); [done|]. apply u8_lor; [done|]. apply Z.mod_pos_bound. lia.
Qed.

(** The bit of the first row is set by the first step and stays set. *)
Lemma bitmap_byte_first col count :
  0 < count -> IsNull col 0 = false -> Z.testbit (bitmap_byte col count 0) 0 = true.
Proof.
  intros Hc Hn. unfold bitmap_byte. change (seq 0 8) with (0 :: seq 1 7). generalize (seq 1 7) as bits. intros bits.
  cbn [foldl]. assert (H1 : Z.testbit (bitmap_step col count 0 0 0) 0 = true).
  { unfold bitmap_step. rewrite decide_True by (simpl; lia). change (0 * 8 + 0) with 0. by rewrite Hn. }
  revert H1. generalize (bitmap_step col count 0 0 0) as b.
  induction bits as [|bit bits IH]; intros b Hb; [done|]. cbn [foldl]. apply IH. unfold bitmap_step.
  case_decide; [|done]. destruct (IsNull col (0 * 8 + bit)); [done|]. by rewrite Z.lor_spec, Hb.
Qed.

Lemma read_bitmap bytes rest : Forall is_u8 bytes -> rd_many RdU8 (length bytes) (bytes ++ rest) = Ok (bytes, rest).
Proof.
  induction 1 as [|b bytes Hb _ IH]; [done|]. cbn [length rd_many app].
  change RdU8 with CkptReadU8. pose proof (read_u8 b (bytes ++ rest) Hb) as Hr.
  unfold CkptWriteU8, u8 in Hr. rewrite Z.mod_small in Hr by done. simpl app in Hr. rewrite Hr. cbn [mbind result_bind].
  change CkptReadU8 with RdU8. by rewrite IH.
Qed.

(** Storing a value into a vector without elements. *)
Lemma de_cell_undefined bitmap vec z more b :
  bitmap !! 0 = Some b -> Z.testbit b 0 = true -> storage_of (dv_type vec) = SInt -> int_data vec = [] -> is_u64 z ->
  de_cell bitmap (vec, le_bytes 8 z ++ more) 0 = Err UndefinedBehaviour.
Proof.
  intros Hb Ht Hst Hi Hz. unfold de_cell. change (0 / 8) with 0. rewrite Hb. cbn [of_option mbind result_bind].
  change (Z.of_nat (0 mod 8)) with 0%Z. rewrite Ht. cbn [negb].
  unfold SetValid, bitset_set. rewrite decide_True by (unfold STANDARD_VECTOR_SIZE; lia). cbn [mbind result_bind].
  cbn [dv_type with_validity]. rewrite Hst. change RdU64 with CkptReadU64. rewrite (read_u64 z) by done.
  cbn [mbind result_bind int_data with_validity]. unfold store. rewrite Hi. by rewrite decide_False by (simpl; lia).
Qed.

(** An INSERT entry cannot be replayed: the reader makes vectors without
    elements and stores the first row into them.  For every chunk of one
    integer or boolean column whose first row is not NULL the logged bytes
    lead [DeserializeChunkPayload] into undefined behaviour. *)
Theorem insert_entry_undefined col rest :
  storage_of (dv_type col) = SInt -> dv_wf col -> 0 < dv_count col -> IsNull col 0 = false ->
  exists bs, SerializeChunk (mkChunk [col] (dv_count col)) = Ok bs /\
    DeserializeChunkPayload (bs ++ rest) = Err UndefinedBehaviour.
Proof.
  intros Hst Hwf Hpos Hn. set (count := dv_count col) in *.
  assert (Hlen : forall r, IsNull col r = false -> r < length (int_data col)).
  { intros r Hr. apply (wf_cells _ Hwf) in Hr. unfold cells in Hr. rewrite Hst in Hr. by rewrite length_fmap in Hr. }
  assert (Hcount : (Z.of_nat count < 2 ^ 32)%Z).
  { pose proof (wf_count _ Hwf). unfold STANDARD_VECTOR_SIZE, count in *. lia. }
  set (g := fun r => if IsNull col r then [] else le_bytes 8 (u64 (default 0%Z (int_data col !! r)))).
  assert (Hcells : mapM_r (chunk_cell col) (seq 0 count) = Ok (map g (seq 0 count))).
  { apply mapM_r_Ok. intros r Hr%elem_of_seq. unfold chunk_cell, g. destruct (IsNull col r) eqn:Er; [done|]. rewrite Hst.
    destruct (lookup_lt_is_Some_2 (int_data col) r) as [z Hz]; [auto|]. by rewrite Hz. }
  set (bitmap := map (bitmap_byte col count) (seq 0 ((count + 7) / 8))).
  unfold SerializeChunk. cbn [columns ch_count mapM_r]. unfold ser_chunk_column. rewrite Hcells. cbn [mbind result_bind].
  eexists. split; [done|]. fold bitmap. unfold DeserializeChunkPayload, WriteU32. change RdU32 with CkptReadU32.
  rewrite <- !app_assoc. rewrite (read_u32 (Z.of_nat count)) by (unfold is_u32; lia). cbn [mbind result_bind].
  change (Z.of_nat (ColumnCount _)) with 1%Z. rewrite (read_u32 1) by (unfold is_u32; lia). cbn [mbind result_bind].
  change (Z.to_nat 1) with 1. cbn [concat]. rewrite app_nil_r. cbn [rd_many app].
  assert (Hty : forall r, rd_type (TypeId_u8 (dv_type col) :: r) = Ok (dv_type col, r)).
  { intros r. rewrite <- (read_type (dv_type col) r). by destruct (dv_type col). }
  rewrite Hty. cbn [mbind result_bind de_chunk_columns]. rewrite Nat2Z.id. unfold de_chunk_column.
  assert (Hbl : (count + 7) / 8 = length bitmap) by (unfold bitmap; by rewrite length_map, length_seq).
  rewrite Hbl, <- app_assoc, read_bitmap.
  2: { unfold bitmap. apply Forall_map, Forall_forall. intros i _. apply bitmap_byte_range. }
  cbn [mbind result_bind]. assert (exists n, count = S n) as [n Ec] by (exists (count - 1); lia).
  assert (Hseq : seq 0 count = 0 :: seq 1 n) by (by rewrite Ec). rewrite Hseq. cbn [map concat foldM].
  assert (Hb0 : bitmap !! 0 = Some (bitmap_byte col count 0)).
  { unfold bitmap. destruct ((count + 7) / 8) eqn:Ed; [|done]. pose proof (Nat.div_str_pos (count + 7) 8). lia. }
  unfold g at 1. rewrite Hn, <- app_assoc, (de_cell_undefined _ _ _ _ _ Hb0); try done.
  - by apply bitmap_byte_first.
  - unfold Reset. by rewrite Hst.
  - unfold Reset. by rewrite Hst.
  - apply u64_range.
Qed.

(** ** Witnesses *)

Definition sample_entries : list (WALEntryType * list Z) :=
  [(WAL_DELETE, delete_payload "main" "t" [3; 4]%Z); (WAL_DROP_TABLE, WriteStr "main" ++ WriteStr "t")].

(** A log in the middle of its life, written with short transfers. *)
Definition sample_wal : WAL := mkWAL [2; 0; 0; 0; 0]%Z 5 [3; 1]%Z [] [] 5 0.

Lemma sample_wal_ok : wal_ok sample_wal.
Proof. split; try done; repeat constructor. Qed.

Lemma sample_entries_ok : Forall entry_ok (entries_of sample_entries).
Proof. repeat constructor; apply Z.leb_le; vm_compute; reflexivity. Qed.

Lemma torn_log_replays_prefix_witness :
  exists j, read_log (take 40 (log_bytes (entries_of sample_entries))) = Ok (take j (entries_of sample_entries)) /\
    j <= 2 /\ length (log_bytes (take j (entries_of sample_entries))) <= 40 /\
    (j < 2 -> 40 < length (log_bytes (take (S j) (entries_of sample_entries)))).
Proof. apply (torn_log_replays_prefix (entries_of sample_entries) 40 sample_entries_ok). vm_compute. lia. Defined.

Lemma truncate_keeps_new_entries_witness :
  exists w1 w2 w3 log, Flush (WriteCheckpointMarker sample_wal) = Ok w1 /\ Flush (append_all w1 sample_entries) = Ok w2 /\
    Truncate w2 = Ok w3 /\ wal_ok w3 /\ read_log (w_file w3) = Ok log /\ replay_entries log = entries_of sample_entries.
Proof.
  apply (truncate_keeps_new_entries sample_wal sample_entries sample_wal_ok); [done|apply sample_entries_ok|reflexivity].
Defined.

Lemma truncate_at_start_loses_entries_witness :
  exists w1 w2 w3, Flush (WriteCheckpointMarker (WAL_Create [] [])) = Ok w1 /\ Flush (append_all w1 sample_entries) = Ok w2 /\
    read_log (w_file w2) = read_log (log_bytes (marker :: entries_of sample_entries)) /\
    Truncate w2 = Ok w3 /\ read_log (w_file w3) = Ok [].
Proof. apply (truncate_at_start_loses_entries (WAL_Create [] []) sample_entries); try done. split; done || constructor. Defined.

Lemma create_entry_roundtrip_witness :
  exists bs, create_payload "main" "t" ["a"; "b"]%string [INT64; VARCHAR] range_table = Ok bs /\
    forall rest, rd_create (bs ++ rest) =
      Ok ("main", "t", [mkCol "a" INT64 false false; mkCol "b" VARCHAR false false], range_table, rest)%string.
Proof.
  apply (create_entry_roundtrip "main" "t" ["a"; "b"]%string [INT64; VARCHAR] range_table); try (unfold short, small; simpl; lia).
  - repeat constructor; unfold short; simpl; lia.
  - unfold wal_pi_ok, short, small, is_u32. simpl.
    split_and!; try lia; repeat constructor; unfold short, small, is_i64; simpl; lia.
Defined.

Lemma insert_entry_undefined_witness :
  exists bs, SerializeChunk (mkChunk [mkDV INT64 2 [7; 0]%Z [] [] 1] 2) = Ok bs /\
    DeserializeChunkPayload (bs ++ []) = Err UndefinedBehaviour.
Proof.
  apply (insert_entry_undefined (mkDV INT64 2 [7; 0]%Z [] [] 1) []); try (simpl; (done || lia)).
  split; simpl; try done; [unfold STANDARD_VECTOR_SIZE; lia| |].
  - intros i Hi. unfold IsNull. simpl. destruct i as [|i]; [lia|]. apply negb_true_iff. 
    rewrite Z.testbit_odd. rewrite Z.shiftr_div_pow2 by lia. rewrite Z.div_small; [done|]. split; [lia|].
    apply Z.pow_gt_1; lia.
  - intros i Hi. unfold IsNull in Hi. simpl in Hi. destruct i as [|i]; [simpl; lia|]. exfalso.
    rewrite Z.testbit_odd, Z.shiftr_div_pow2, Z.div_small in Hi; [done| |lia].
    split; [lia|]. apply Z.pow_gt_1; lia.
Defined.
