(* ===== verification/TransactionManager.v ===== *)
(** * The transaction manager

    [transaction/transaction_manager.hpp] and [transaction_manager.cpp]:
    BEGIN, COMMIT and ROLLBACK.  A commit logs the undo buffer, draws a commit
    time and replays the buffer forwards over the catalog and the version
    markers; a rollback replays it backwards.  The claims are about the clock
    (what started earlier commits at or after the start times of the running
    transactions, which is what the snapshot claims of [VersionInfo] and
    [Catalog] assume) and about deletes: a commit hides the deleted rows from
    exactly the transactions that begin later, a rollback from nobody. *)

From Stdlib Require Import ZArith String.
From stdpp Require Import base gmap strings list relations.
From S2P Require Import Prelude Types PartitionInfo Transaction BufferManager ColumnChunk VersionInfo RowGroup Schema Catalog Wal.

(** The two atomic counters, the registry, and what the manager refers to. *)
Record TransactionManager : Type := mkTM {
  catalog_ : Catalog;
  wal_ : option WAL;
  next_tx_id_ : Z;
  commit_counter_ : Z;
  active_transactions_ : gmap Z Transaction;
}.

Definition TM_new (c : Catalog) (w : option WAL) : TransactionManager := mkTM c w 1 0 ∅.

Definition BeginTransaction (tm : TransactionManager) (auto : bool) : TransactionManager * Transaction :=
  let tx := Tx_new (next_tx_id_ tm) (commit_counter_ tm + 1) auto in
  (mkTM (catalog_ tm) (wal_ tm) (next_tx_id_ tm + 1) (commit_counter_ tm)
     (<[tx_id tx := tx]> (active_transactions_ tm)), tx).

Definition CurrentCommitTime (tm : TransactionManager) : Z := commit_counter_ tm.
Definition ActiveTransactionCount (tm : TransactionManager) : nat := size (active_transactions_ tm).

(** ** Replaying undo entries *)

(** A change of the row group [rg] of the entry at position [i]; groups that do
    not exist are passed over. *)
Definition on_row_group (schema table : string) (i : nat) (rg : nat) (f : RowGroup -> RowGroup) (c : Catalog) : Catalog :=
  update_entry c schema table i (fun e => set_row_groups e (alter f rg (row_groups e))).

Definition on_version (f : VersionInfo -> VersionInfo) (rg : RowGroup) : RowGroup := with_version rg (f (version_info_ rg)).

(** [f(offset)] on the markers of every row. *)
Definition for_rows (schema table : string) (i : nat) (f : VersionInfo -> Z -> VersionInfo) (row_ids : list Z) (c : Catalog) : Catalog :=
  foldl (fun c r => on_row_group schema table i (Z.to_nat (RowIdGroup r)) (on_version (fun vi => f vi (RowIdOffset r))) c)
    c row_ids.

Definition apply_entry (tx : Transaction) (c : Catalog) (e : UndoEntry) : Catalog :=
  match e with
  | UndoCatalog e => CommitEntry c (cu_schema e) (cu_table e) (tx_id tx) (commit_time tx)
  | UndoInsert e =>
      match GetTable c (iu_schema e) (iu_table e) tx with
      | Some (i, _) => on_row_group (iu_schema e) (iu_table e) i (iu_row_group_id e) (fun rg => CommitAppend rg (commit_time tx)) c
      | None => c
      end
  | UndoDelete e =>
      match GetTable c (du_schema e) (du_table e) tx with
      | Some (i, _) => for_rows (du_schema e) (du_table e) i (fun vi o => CommitDelete vi o (commit_time tx)) (du_row_ids e) c
      | None => c
      end
  | UndoUpdate e =>
      match GetTable c (uu_schema e) (uu_table e) tx with
      | Some (i, _) => for_rows (uu_schema e) (uu_table e) i (fun vi o => CommitUpdate vi o (commit_time tx)) (uu_row_ids e) c
      | None => c
      end
  | UndoAlter _ => c
  end.

Definition ApplyUndoBuffer (tx : Transaction) (c : Catalog) : Catalog := foldl (apply_entry tx) c (undo_buffer tx).

Section Rollback.
Context {S : Type} {BSops : BlockStore S}.

(** The old values go back column by column. *)
Fixpoint restore_columns (s : S) (ccs : list ColumnChunk) (offsets : list nat) (col_ids : list nat)
    (olds : list DataVector) : result (S * list ColumnChunk) :=
  match col_ids, olds with
  | c :: col_ids, v :: olds =>
      match ccs !! c with
      | Some cc =>
          '(s, cc) ← WriteRows s cc offsets v;
          restore_columns s (<[c := cc]> ccs) offsets col_ids olds
      | None => restore_columns s ccs offsets col_ids olds
      end
  | _, _ => Ok (s, ccs)
  end.

Definition revert_update (s : S) (tx : Transaction) (c : Catalog) (e : UpdateUndoEntry) : result (S * Catalog) :=
  match GetTable c (uu_schema e) (uu_table e) tx with
  | None => Ok (s, c)
  | Some (i, t) =>
      let n := Nat.min (length (uu_row_ids e)) (ch_count (old_values e)) in
      let rows := take n (uu_row_ids e) in
      match rows with
      | [] => Ok (s, c)
      | first :: _ =>
          let g := Z.to_nat (RowIdGroup first) in
          match row_groups t !! g with
          | None => Ok (s, c)
          | Some rg =>
              let offsets := RowIdOffset <$> rows in
              '(s, ccs) ← restore_columns s (column_chunks_ rg) (Z.to_nat <$> offsets) (uu_col_ids e) (columns (old_values e));
              let rg := with_version (with_chunks rg ccs) (foldl RevertUpdate (version_info_ rg) offsets) in
              Ok (s, on_row_group (uu_schema e) (uu_table e) i g (fun _ => rg) c)
          end
      end
  end.

(** A rolled-back append may throw only through its column chunks. *)
Definition revert_insert (tx : Transaction) (c : Catalog) (e : InsertUndoEntry) : result Catalog :=
  match GetTable c (iu_schema e) (iu_table e) tx with
  | Some (i, t) =>
      match row_groups t !! iu_row_group_id e with
      | Some rg => rg ← RevertAppend rg; Ok (on_row_group (iu_schema e) (iu_table e) i (iu_row_group_id e) (fun _ => rg) c)
      | None => Ok c
      end
  | None => Ok c
  end.

Definition revert_entry (tx : Transaction) (st : S * Catalog) (e : UndoEntry) : result (S * Catalog) :=
  let '(s, c) := st in
  match e with
  | UndoCatalog e =>
      Ok (s, if was_create e then RollbackCreate c (cu_schema e) (cu_table e) (tx_id tx)
             else RollbackDrop c (cu_schema e) (cu_table e) (tx_id tx))
  | UndoInsert e => c ← revert_insert tx c e; Ok (s, c)
  | UndoDelete e =>
      Ok (s, match GetTable c (du_schema e) (du_table e) tx with
             | Some (i, _) => for_rows (du_schema e) (du_table e) i ClearDeleteMarker (du_row_ids e) c
             | None => c
             end)
  | UndoUpdate e => revert_update s tx c e
  | UndoAlter e =>
      Ok (s, RestorePartitionState c (au_schema e) (au_table e) (old_partition_info e) (old_partition_rg_indices e) tx)
  end.

Definition UndoBufferReverse (s : S) (tx : Transaction) (c : Catalog) : result (S * Catalog) :=
  ForEachReverse (revert_entry tx) (s, c) (undo_buffer tx).

(** [GarbageCollect] does nothing yet. *)
Definition Rollback (s : S) (tm : TransactionManager) (tx : Transaction) : result (S * TransactionManager * Transaction) :=
  '(s, c) ← UndoBufferReverse s tx (catalog_ tm);
  Ok (s, mkTM c (wal_ tm) (next_tx_id_ tm) (commit_counter_ tm) (delete (tx_id tx) (active_transactions_ tm)),
      clear_local_storage tx).
End Rollback.

Definition Commit (tm : TransactionManager) (tx : Transaction) : result (TransactionManager * Transaction) :=
  w ← match wal_ tm with
      | Some w => if UB_IsEmpty (undo_buffer tx) then Ok (Some w) else w ← WriteToWAL tx w; Ok (Some w)
      | None => Ok None
      end;
  let t := (commit_counter_ tm + 1)%Z in
  let tx := with_commit_time tx t in
  Ok (mkTM (ApplyUndoBuffer tx (catalog_ tm)) w (next_tx_id_ tm) t (delete (tx_id tx) (active_transactions_ tm)), tx).

(** ** The clock *)

Section Clock.
Context {S : Type} {BSops : BlockStore S}.

(** What happens between BEGIN and the end of a transaction changes the
    catalog, the log and the undo buffers, not the clock. *)
Inductive tm_step : S * TransactionManager -> S * TransactionManager -> Prop :=
  | tm_begin s tm auto : tm_step (s, tm) (s, (BeginTransaction tm auto).1)
  | tm_work s s' tm c w tx tx' :
      active_transactions_ tm !! tx_id tx = Some tx -> tx_id tx' = tx_id tx -> start_time tx' = start_time tx ->
      tm_step (s, tm) (s', mkTM c w (next_tx_id_ tm) (commit_counter_ tm) (<[tx_id tx := tx']> (active_transactions_ tm)))
  | tm_commit s tm tm' tx tx' :
      active_transactions_ tm !! tx_id tx = Some tx -> Commit tm tx = Ok (tm', tx') -> tm_step (s, tm) (s, tm')
  | tm_rollback s s' tm tm' tx tx' :
      active_transactions_ tm !! tx_id tx = Some tx -> Rollback s tm tx = Ok (s', tm', tx') -> tm_step (s, tm) (s', tm').

Record clock_inv (tm : TransactionManager) : Prop := {
  ci_counter : (0 <= commit_counter_ tm)%Z;
  ci_next : (1 <= next_tx_id_ tm)%Z;
  ci_active : forall id tx, active_transactions_ tm !! id = Some tx ->
    tx_id tx = id /\ (1 <= id < next_tx_id_ tm)%Z /\ (1 <= start_time tx <= commit_counter_ tm + 1)%Z;
}.

Lemma Commit_clock tm tx tm' tx' :
  Commit tm tx = Ok (tm', tx') ->
  commit_counter_ tm' = (commit_counter_ tm + 1)%Z /\ next_tx_id_ tm' = next_tx_id_ tm /\
  active_transactions_ tm' = delete (tx_id tx) (active_transactions_ tm) /\
  commit_time tx' = (commit_counter_ tm + 1)%Z /\ catalog_ tm' = ApplyUndoBuffer tx' (catalog_ tm) /\
  tx' = with_commit_time tx (commit_counter_ tm + 1).
Proof. unfold Commit. intros (w & _ & H)%bind_Ok_inv. by injection H as <- <-. Qed.

Lemma Rollback_clock s tm tx s' tm' tx' :
  Rollback s tm tx = Ok (s', tm', tx') ->
  commit_counter_ tm' = commit_counter_ tm /\ next_tx_id_ tm' = next_tx_id_ tm /\
  active_transactions_ tm' = delete (tx_id tx) (active_transactions_ tm).
Proof. unfold Rollback. intros ([s1 c1] & _ & H)%bind_Ok_inv. by injection H as <- <- <-. Qed.

Lemma tm_step_inv st st' :
  tm_step st st' -> clock_inv st.2 ->
  clock_inv st'.2 /\ (commit_counter_ st.2 <= commit_counter_ st'.2)%Z /\ (next_tx_id_ st.2 <= next_tx_id_ st'.2)%Z.
Proof.
  intros [s tm auto|s s' tm c w tx tx' Ha Hid Hst|s tm tm' tx tx' Ha Hc|s s' tm tm' tx tx' Ha Hr] [H0 H1 Hact]; simpl in *.
  - split_and!; simpl; try lia. split; simpl; [lia|lia|]. intros id tx.
    destruct (decide (next_tx_id_ tm = id)) as [<-|Hne]; simpl_map; [intros [= <-]; simpl; split_and!; lia|].
    intros Hl. destruct (Hact id tx Hl) as (? & ? & ?). split_and!; (done || lia).
  - split_and!; simpl; try lia. split; simpl; [done|done|]. intros id tx0.
    destruct (decide (tx_id tx = id)) as [<-|Hne]; simpl_map; [intros [= <-]|apply Hact].
    destruct (Hact _ _ Ha) as (? & ? & ?). rewrite Hid, Hst. done.
  - destruct (Commit_clock _ _ _ _ Hc) as (Hcnt & Hn & Hd & _). split_and!; [|lia|lia].
    split; [lia|lia|]. rewrite Hcnt, Hn, Hd. intros id tx0 [_ Hl]%lookup_delete_Some.
    destruct (Hact id tx0 Hl) as (? & ? & ?). split_and!; (done || lia).
  - destruct (Rollback_clock _ _ _ _ _ _ Hr) as (Hcnt & Hn & Hd). split_and!; [|lia|lia].
    split; [lia|lia|]. rewrite Hcnt, Hn, Hd. intros id tx0 [_ Hl]%lookup_delete_Some. by apply Hact.
Qed.

Lemma tm_steps_inv st st' :
  rtc tm_step st st' -> clock_inv st.2 -> clock_inv st'.2 /\ (commit_counter_ st.2 <= commit_counter_ st'.2)%Z.
Proof.
  induction 1 as [|x y z Hxy _ IH]; intros Hi; [done|]. destruct (tm_step_inv _ _ Hxy Hi) as (Hi' & Hle & _).
  destruct (IH Hi') as [? ?]. split; [done|lia].
Qed.

Lemma TM_new_inv c w : clock_inv (TM_new c w).
Proof. split; simpl; try lia. intros id tx H. by rewrite lookup_empty in H. Qed.

(** C10: the clock gives snapshots: in every history, the commit time a
    transaction draws is not below the start time of any transaction running
    at that moment, and below the start time of every transaction that begins
    afterwards, whose identifier is new and valid. *)
Theorem clock_orders_snapshots s c w s1 tm tx tm1 tx1 :
  rtc tm_step (s, TM_new c w) (s1, tm) -> Commit tm tx = Ok (tm1, tx1) ->
  (forall id T, active_transactions_ tm !! id = Some T -> (start_time T <= commit_time tx1)%Z) /\
  (forall s2 tm2 auto, rtc tm_step (s1, tm1) (s2, tm2) ->
     let T := (BeginTransaction tm2 auto).2 in
     (commit_time tx1 < start_time T)%Z /\ tx_id T <> INVALID_TRANSACTION /\
     active_transactions_ tm2 !! tx_id T = None).
Proof.
  intros Hreach Hc. destruct (tm_steps_inv _ _ Hreach (TM_new_inv c w)) as [Hi _]. simpl in Hi.
  destruct (Commit_clock _ _ _ _ Hc) as (Hcnt & Hn & Hd & Ht & _). split.
  - intros id T HT. destruct (ci_active _ Hi id T HT) as (_ & _ & ?). lia.
  - intros s2 tm2 auto Hr T.
    assert (Hi1 : clock_inv tm1).
    { destruct Hi as [H0 H1 Hact]. split; [lia|lia|]. rewrite Hcnt, Hn, Hd. intros id tx0 [_ Hl]%lookup_delete_Some.
      destruct (Hact id tx0 Hl) as (? & ? & ?). split_and!; (done || lia). }
    destruct (tm_steps_inv _ _ Hr Hi1) as [Hi2 Hle]. simpl in *. split_and!; [lia| |].
    + destruct Hi2 as [_ H1 _]. unfold INVALID_TRANSACTION. lia.
    + destruct (active_transactions_ tm2 !! next_tx_id_ tm2) as [tx0|] eqn:E; [|done].
      destruct (ci_active _ Hi2 _ _ E) as (_ & ? & _). lia.
Qed.
End Clock.

(** ** Rows under commit and rollback *)

(** The position of a row: its row group and offset. *)
Definition row_pos (r : Z) : nat * Z := (Z.to_nat (RowIdGroup r), RowIdOffset r).

(** Does the transaction see the row of the table? *)
Definition row_visible (c : Catalog) (schema table : string) (r : Z) (tx : Transaction) : bool :=
  match GetTable c schema table tx with
  | Some (_, e) =>
      match row_groups e !! (row_pos r).1 with
      | Some rg => IsVisible (version_info_ rg) (row_pos r).2 (tx_id tx) (start_time tx)
      | None => false
      end
  | None => false
  end.

Lemma last_visible_alter tx f i l :
  (forall e, IsCatalogEntryVisible (f e) tx = IsCatalogEntryVisible e tx) ->
  last_visible tx (alter f i l) =
    (fun p : nat * TableCatalogEntry => (p.1, if decide (p.1 = i) then f p.2 else p.2)) <$> last_visible tx l.
Proof.
  intros Hf. revert i. induction l as [|e l IH]; intros i; [done|]. destruct i as [|i]; simpl.
  - rewrite Hf. assert (Hid : last_visible tx l = last_visible tx l) by done.
    destruct (last_visible tx l) as [[j e']|]; simpl; [done|]. by destruct (IsCatalogEntryVisible e tx).
  - change (list_alter f i l) with (alter f i l). rewrite IH. destruct (last_visible tx l) as [[j e']|]; simpl.
    + by do 2 case_decide; try lia.
    + by destruct (IsCatalogEntryVisible e tx).
Qed.

Lemma GetTable_on_row_group c schema table i g f tx :
  GetTable (on_row_group schema table i g f c) schema table tx =
    (fun p : nat * TableCatalogEntry =>
       (p.1, if decide (p.1 = i) then set_row_groups p.2 (alter f g (row_groups p.2)) else p.2))
    <$> GetTable c schema table tx.
Proof.
  rewrite !GetTable_eq. unfold on_row_group, update_entry, GetSchema. simpl. rewrite lookup_alter_eq.
  destruct (schemas_ c !! schema) as [s|]; [|done]. simpl. unfold versions_of, alter_versions. simpl.
  rewrite lookup_alter_eq. destruct (entries_ s !! table) as [l|]; [|done]. simpl. by apply last_visible_alter.
Qed.

(** The row groups after a change of the markers of some rows. *)
Definition mark_rows (f : VersionInfo -> Z -> VersionInfo) (rows : list Z) (rgs : list RowGroup) : list RowGroup :=
  foldl (fun rgs r => alter (on_version (fun vi => f vi (row_pos r).2)) (row_pos r).1 rgs) rgs rows.

Lemma set_row_groups_twice e a b : set_row_groups (set_row_groups e a) b = set_row_groups e b.
Proof. done. Qed.

Lemma GetTable_for_rows schema table i f rows tx e : forall c,
  GetTable c schema table tx = Some (i, e) ->
  GetTable (for_rows schema table i f rows c) schema table tx = Some (i, set_row_groups e (mark_rows f rows (row_groups e))).
Proof.
  revert e. unfold for_rows, mark_rows. induction rows as [|r rows IH]; intros e c Hc; cbn [foldl];
    [rewrite Hc; destruct e; reflexivity|].
  rewrite (IH (set_row_groups e (alter (on_version (fun vi => f vi (row_pos r).2)) (row_pos r).1 (row_groups e)))); [reflexivity|].
  rewrite GetTable_on_row_group, Hc. cbn [fmap option_fmap option_map fst snd]. by rewrite decide_True.
Qed.

(** A marker operation that acts on one offset by [h], the same however often
    it is applied. *)
Class MarkerOp (f : VersionInfo -> Z -> VersionInfo) (h : option VersionMarker -> option VersionMarker) : Prop := {
  mo_lookup : forall vi o o', markers_ (f vi o) !! o' = if decide (o = o') then h (markers_ vi !! o') else markers_ vi !! o';
  mo_idem : forall m, h (h m) = h m;
}.

#[export] Instance CommitDelete_op t : MarkerOp (fun vi o => CommitDelete vi o t) (fmap (set_commit_time t)).
Proof.
  split; [|by intros [[]|]]. intros vi o o'. unfold CommitDelete.
  destruct (markers_ vi !! o) as [m|] eqn:E; simpl; case_decide as Ho; subst; simpl_map; try done.
  by rewrite E.
Qed.

#[export] Instance ClearDeleteMarker_op : MarkerOp ClearDeleteMarker (fun _ => None).
Proof.
  split; [|done]. intros vi o o'. unfold ClearDeleteMarker.
  destruct (markers_ vi !! o) as [m|] eqn:E; simpl; case_decide as Ho; subst; simpl_map; done.
Qed.

Lemma mark_rows_lookup `{MarkerOp f h} rows g o : forall rgs rg,
  rgs !! g = Some rg ->
  exists rg', mark_rows f rows rgs !! g = Some rg' /\
    markers_ (version_info_ rg') !! o =
      if decide ((g, o) ∈ row_pos <$> rows) then h (markers_ (version_info_ rg) !! o) else markers_ (version_info_ rg) !! o.
Proof.
  unfold mark_rows. induction rows as [|r rows IH]; intros rgs rg Hg; cbn [foldl].
  { exists rg. split; [done|]. rewrite decide_False; [done|apply not_elem_of_nil]. }
  destruct (decide ((row_pos r).1 = g)) as [Hr|Hr].
  - destruct (IH (alter (on_version (fun vi => f vi (row_pos r).2)) (row_pos r).1 rgs)
                (on_version (fun vi => f vi (row_pos r).2) rg)) as (rg' & Hl & Hm).
    { rewrite Hr, list_lookup_alter_eq, Hg. done. }
    exists rg'. split; [exact Hl|]. rewrite Hm. cbn [on_version with_version version_info_]. rewrite !mo_lookup, fmap_cons.
    destruct (decide ((row_pos r).2 = o)) as [Ho|Ho].
    + rewrite (decide_True (P := (g, o) ∈ row_pos r :: (row_pos <$> rows))) by (rewrite <- Hr, <- Ho; destruct (row_pos r); apply list_elem_of_here).
      case_decide; [by rewrite mo_idem|done].
    + destruct (decide ((g, o) ∈ row_pos <$> rows)) as [Hin|Hin].
      * rewrite decide_True; [done|by apply list_elem_of_further].
      * rewrite decide_False; [done|]. rewrite elem_of_cons. intros [Heq|?]; [|done]. apply Ho. by rewrite <- Heq.
  - destruct (IH (alter (on_version (fun vi => f vi (row_pos r).2)) (row_pos r).1 rgs) rg) as (rg' & Hl & Hm).
    { by rewrite list_lookup_alter_ne. }
    exists rg'. split; [exact Hl|]. rewrite Hm, fmap_cons. destruct (decide ((g, o) ∈ row_pos <$> rows)) as [Hin|Hin].
    + rewrite decide_True; [done|by apply list_elem_of_further].
    + rewrite decide_False; [done|]. rewrite elem_of_cons. intros [Heq|?]; [|done]. apply Hr. by rewrite <- Heq.
Qed.

Lemma last_visible_ext tx tx' l :
  tx_id tx' = tx_id tx -> start_time tx' = start_time tx -> last_visible tx' l = last_visible tx l.
Proof.
  intros Hi Hs. assert (Hv : forall e, IsCatalogEntryVisible e tx' = IsCatalogEntryVisible e tx)
    by (intros e; unfold IsCatalogEntryVisible; by rewrite Hi, Hs).
  induction l as [|e l IH]; simpl; [done|]. by rewrite IH, Hv.
Qed.

Lemma GetTable_ext c schema table tx tx' :
  tx_id tx' = tx_id tx -> start_time tx' = start_time tx -> GetTable c schema table tx' = GetTable c schema table tx.
Proof.
  intros Hi Hs. rewrite !GetTable_eq. destruct (GetSchema c schema); [|done]. simpl. by apply last_visible_ext.
Qed.

(** The visibility of a row after the markers of some rows were changed. *)
Lemma row_visible_for_rows `{MarkerOp f h} c schema table i rows V e r rg :
  GetTable c schema table V = Some (i, e) -> row_groups e !! (row_pos r).1 = Some rg ->
  row_visible (for_rows schema table i f rows c) schema table r V =
    if decide (row_pos r ∈ row_pos <$> rows)
    then match h (markers_ (version_info_ rg) !! (row_pos r).2) with
         | None => true
         | Some m => marker_visible m (tx_id V) (start_time V)
         end
    else row_visible c schema table r V.
Proof.
  intros HV Hg. unfold row_visible. rewrite (GetTable_for_rows schema table i f rows V e c HV), HV.
  cbn [row_groups set_row_groups].
  destruct (mark_rows_lookup (f:=f) (h:=h) rows (row_pos r).1 (row_pos r).2 (row_groups e) rg Hg) as (rg' & -> & Hm).
  rewrite Hg. unfold IsVisible. rewrite Hm, <- (surjective_pairing (row_pos r)). repeat case_decide; reflexivity || contradiction.
Qed.


(** A rolled-back delete leaves the rows to everyone: after the rollback
    every transaction sees the deleted rows again and every other row as
    before. *)
Theorem rollback_restores_deleted_rows {S} `{BlockStore S} (s : S) tm T schema table rows V i e0 e r rg :
  undo_buffer T = [UndoDelete (mkDeleteUndo schema table rows)] ->
  GetTable (catalog_ tm) schema table T = Some (i, e0) ->
  GetTable (catalog_ tm) schema table V = Some (i, e) ->
  row_groups e !! (row_pos r).1 = Some rg ->
  exists tm' T', Rollback s tm T = Ok (s, tm', T') /\
  row_visible (catalog_ tm') schema table r V =
    if decide (row_pos r ∈ row_pos <$> rows) then true else row_visible (catalog_ tm) schema table r V.
Proof.
  intros Hu HT HV Hg. unfold Rollback, UndoBufferReverse, ForEachReverse. rewrite Hu.
  cbn [rev app foldM revert_entry mbind result_bind du_schema du_table du_row_ids]. rewrite HT. cbn [mbind result_bind].
  eexists _, _. split; [reflexivity|]. cbn [catalog_].
  by rewrite (row_visible_for_rows _ _ _ _ _ _ _ _ _ HV Hg).
Qed.

(** ** A concrete table under transactions *)

(** Table [t] of two rows, the second deleted by transaction 1, which runs. *)
Definition deleter : Transaction := log_change (Tx_new 1 1 false) (UndoDelete (mkDeleteUndo "main" "t" [1%Z])).

Definition two_rows : RowGroup :=
  mkRG 0 2 [INT64] [CC_new INT64] (MarkDeleted VI_empty 1 1) 0 INVALID_TRANSACTION.

Definition busy_tm : TransactionManager :=
  mkTM (update_entry one_table "main" "t" 0 (fun e => set_row_groups e [two_rows])) None 2 0 {[1%Z := deleter]}.

Lemma clock_orders_snapshots_witness :
  exists tm1 tx1, Commit (BeginTransaction (TM_new one_table None) true).1 (Tx_new 1 1 true) = Ok (tm1, tx1) /\
  forall s2 tm2 auto, rtc (tm_step (S := BufferManager)) ((empty_bm 4), tm1) (s2, tm2) ->
     let T := (BeginTransaction tm2 auto).2 in
     (commit_time tx1 < start_time T)%Z /\ tx_id T <> INVALID_TRANSACTION /\ active_transactions_ tm2 !! tx_id T = None.
Proof.
  eexists _, _. split; [reflexivity|].
  apply (clock_orders_snapshots (S := BufferManager) (empty_bm 4) one_table None (empty_bm 4)
           (BeginTransaction (TM_new one_table None) true).1 (Tx_new 1 1 true)); [|reflexivity].
  apply rtc_once, tm_begin.
Defined.


Lemma rollback_restores_deleted_rows_witness :
  exists tm' T', Rollback (empty_bm 4) busy_tm deleter = Ok ((empty_bm 4), tm', T') /\
    row_visible (catalog_ tm') "main" "t" 1 (tx_at 2 1) = true.
Proof.
  apply (rollback_restores_deleted_rows (empty_bm 4) busy_tm deleter "main" "t" [1%Z] (tx_at 2 1) 0
           (set_row_groups (default (mkEntry "" "" 0 0 0 0 [] [] PI_none []) (table_versions one_table "main" "t" !! 0)) [two_rows])
           (set_row_groups (default (mkEntry "" "" 0 0 0 0 [] [] PI_none []) (table_versions one_table "main" "t" !! 0)) [two_rows])
           1 two_rows); vm_compute; reflexivity.
Defined.
