(* ===== verification/TaskScheduler.v ===== *)
(** * The task scheduler

    [parallel/task_scheduler.cpp]: worker threads that take tasks from a queue
    guarded by a mutex, and sleep on a condition variable while it is empty.

    Threads run in any order, so the scheduler is a transition system.  An
    action is what one thread does without another one being able to see an
    intermediate state: the critical section of [Submit], one evaluation of the
    predicate of [cv_.wait], the release of the mutex by a thread that goes to
    sleep, a notification.  The mutex is held by the worker that evaluates the
    predicate.  The lists of tasks that were pushed, started and executed are
    kept beside the members for the statements.

    The claims are that no task is lost or executed twice and that tasks start in
    the order of submission; that a shutdown whose notification finds no worker on
    its way to sleep terminates after every task was executed; and that one that
    does find such a worker waits for it forever. *)

From Stdlib Require Import ZArith String.
From stdpp Require Import base list gmap fin_maps relations.
From S2P Require Import Prelude.

(** ** Threads *)

Section scheduler.
Context {Task : Type}.

(** Where a worker is in [WorkerLoop]: before the mutex, behind it with the
    predicate to evaluate, with the predicate false and the mutex still held,
    asleep, executing a task, or returned. *)
Inductive Worker : Type :=
  | Idle
  | Locked
  | Blocking
  | Waiting
  | Running (task : Task)
  | Exited.

(** Where the thread that calls [Shutdown] is. *)
Inductive Closer : Type := Open | Stored | Joining | Joined.

Record TaskScheduler : Type := mkScheduler {
  workers_ : list Worker;
  queue_ : list Task;
  shutdown_ : bool;
  closer : Closer;
  submitting : list Task;
  notifying : nat;
  pushed : list Task;
  started : list Task;
  executed : list Task;
}.

(** [TaskScheduler(num_threads)] and the first call of [Initialize]; a later one
    does nothing. *)
Definition Initialize_workers (num_threads : nat) : TaskScheduler :=
  mkScheduler (replicate num_threads Idle) [] false Open [] 0 [] [] [].

Definition holds_mutex (w : Worker) : bool := match w with Locked | Blocking => true | _ => false end.
Definition mutex_free (st : TaskScheduler) : bool := forallb (fun w => negb (holds_mutex w)) (workers_ st).
Definition is_waiting (w : Worker) : bool := match w with Waiting => true | _ => false end.
Definition is_exited (w : Worker) : bool := match w with Exited => true | _ => false end.
Definition wake (w : Worker) : Worker := match w with Waiting => Idle | _ => w end.

Definition set_worker (st : TaskScheduler) (i : nat) (w : Worker) : TaskScheduler :=
  mkScheduler (<[i := w]> (workers_ st)) (queue_ st) (shutdown_ st) (closer st) (submitting st) (notifying st) (pushed st) (started st) (executed st).

(** ** Actions *)

Inductive action : Type :=
  | SubmitCheck (task : Task)
  | SubmitPush (k : nat)
  | NotifyOne (i : nat)
  | NotifyNobody
  | StoreShutdown
  | NotifyAll
  | Join
  | Acquire (i : nat)
  | Evaluate_predicate (i : nat)
  | Block (i : nat)
  | Execute_task (i : nat).

(** [Submit]: the test of the flag, which throws when it is set, the push under
    the mutex, and [notify_one], which wakes a sleeping worker if there is one. *)
Definition submit_check (st : TaskScheduler) (t : Task) : option TaskScheduler :=
  if shutdown_ st then None
  else Some (mkScheduler (workers_ st) (queue_ st) (shutdown_ st) (closer st) (submitting st ++ [t]) (notifying st) (pushed st) (started st) (executed st)).

Definition submit_push (st : TaskScheduler) (k : nat) : option TaskScheduler :=
  match submitting st !! k with
  | Some t =>
      if mutex_free st then
        Some (mkScheduler (workers_ st) (queue_ st ++ [t]) (shutdown_ st) (closer st) (delete k (submitting st)) (notifying st + 1)
                (pushed st ++ [t]) (started st) (executed st))
      else None
  | None => None
  end.

Definition with_notifying (st : TaskScheduler) (n : nat) : TaskScheduler :=
  mkScheduler (workers_ st) (queue_ st) (shutdown_ st) (closer st) (submitting st) n (pushed st) (started st) (executed st).

Definition notify_one (st : TaskScheduler) (i : nat) : option TaskScheduler :=
  match notifying st, workers_ st !! i with
  | S n, Some Waiting => Some (set_worker (with_notifying st n) i Idle)
  | _, _ => None
  end.
Definition notify_nobody (st : TaskScheduler) : option TaskScheduler :=
  match notifying st with
  | S n => if existsb is_waiting (workers_ st) then None else Some (with_notifying st n)
  | 0 => None
  end.

(** [Shutdown]: the flag is stored without the mutex, then [notify_all], then
    every worker is joined.  The threads stay in the list when they are joined,
    where the code clears it. *)
Definition with_closer (st : TaskScheduler) (ws : list Worker) (flag : bool) (c : Closer) : TaskScheduler :=
  mkScheduler ws (queue_ st) flag c (submitting st) (notifying st) (pushed st) (started st) (executed st).

Definition store_shutdown (st : TaskScheduler) : option TaskScheduler :=
  match closer st with Open => Some (with_closer st (workers_ st) true Stored) | _ => None end.
Definition notify_all (st : TaskScheduler) : option TaskScheduler :=
  match closer st with Stored => Some (with_closer st (wake <$> workers_ st) (shutdown_ st) Joining) | _ => None end.
Definition join (st : TaskScheduler) : option TaskScheduler :=
  match closer st with
  | Joining => if forallb is_exited (workers_ st) then Some (with_closer st (workers_ st) (shutdown_ st) Joined) else None
  | _ => None
  end.

(** [WorkerLoop] *)
Definition acquire (st : TaskScheduler) (i : nat) : option TaskScheduler :=
  match workers_ st !! i with Some Idle => if mutex_free st then Some (set_worker st i Locked) else None | _ => None end.

Definition evaluate_predicate (st : TaskScheduler) (i : nat) : option TaskScheduler :=
  match workers_ st !! i with
  | Some Locked =>
      match queue_ st with
      | t :: q =>
          Some (mkScheduler (<[i := Running t]> (workers_ st)) q (shutdown_ st) (closer st) (submitting st) (notifying st) (pushed st)
                  (started st ++ [t]) (executed st))
      | [] => Some (set_worker st i (if shutdown_ st then Exited else Blocking))
      end
  | _ => None
  end.

Definition block (st : TaskScheduler) (i : nat) : option TaskScheduler :=
  match workers_ st !! i with Some Blocking => Some (set_worker st i Waiting) | _ => None end.

(** What a task throws is caught and printed. *)
Definition execute_task (st : TaskScheduler) (i : nat) : option TaskScheduler :=
  match workers_ st !! i with
  | Some (Running t) =>
      Some (mkScheduler (<[i := Idle]> (workers_ st)) (queue_ st) (shutdown_ st) (closer st) (submitting st) (notifying st) (pushed st)
              (started st) (executed st ++ [t]))
  | _ => None
  end.

Definition perform (a : action) (st : TaskScheduler) : option TaskScheduler :=
  match a with
  | SubmitCheck t => submit_check st t
  | SubmitPush k => submit_push st k
  | NotifyOne i => notify_one st i
  | NotifyNobody => notify_nobody st
  | StoreShutdown => store_shutdown st
  | NotifyAll => notify_all st
  | Join => join st
  | Acquire i => acquire st i
  | Evaluate_predicate i => evaluate_predicate st i
  | Block i => block st i
  | Execute_task i => execute_task st i
  end.

(** A step of the program; the operating system may also wake a sleeping worker
    on its own. *)
Definition moves (st st' : TaskScheduler) : Prop := exists a, perform a st = Some st'.
Inductive sched_step (st : TaskScheduler) : TaskScheduler -> Prop :=
  | sched_move st' : moves st st' -> sched_step st st'
  | sched_spurious i : workers_ st !! i = Some Waiting -> sched_step st (set_worker st i Idle).

Definition performs (as_ : list action) (st : TaskScheduler) : option TaskScheduler :=
  foldl (fun o a => o ≫= perform a) (Some st) as_.

(** ** Every task, once, in order *)

Definition in_hand (w : Worker) : list Task := match w with Running t => [t] | _ => [] end.
Definition running (st : TaskScheduler) : list Task := concat (in_hand <$> workers_ st).

(** The workers that hold the mutex. *)
Definition holders (ws : list Worker) : nat := length (filter (fun w => holds_mutex w = true) ws).

#[local] Arguments holders : simpl never.

Record sched_inv (st : TaskScheduler) : Prop := {
  inv_fifo : started st ++ queue_ st = pushed st;
  inv_tasks : executed st ++ running st ≡ₚ started st;
  inv_mutex : holders (workers_ st) <= 1;
}.

(** One worker of many. *)
Lemma split_workers {A} (ws : list A) i w w' :
  ws !! i = Some w -> exists l r, ws = l ++ w :: r /\ <[i := w']> ws = l ++ w' :: r.
Proof.
  intros Hi. exists (take i ws), (drop (S i) ws). split; [by rewrite take_drop_middle|].
  rewrite insert_take_drop; [done|]. by eapply lookup_lt_Some.
Qed.

Lemma holders_app l r : holders (l ++ r) = holders l + holders r.
Proof. unfold holders. by rewrite filter_app, length_app. Qed.
Lemma holders_cons w r : holders (w :: r) = (if holds_mutex w then 1 else 0) + holders r.
Proof. unfold holders. rewrite filter_cons. destruct (holds_mutex w); [by rewrite decide_True|by rewrite decide_False]. Qed.

Lemma mutex_free_holders st : mutex_free st = true -> holders (workers_ st) = 0.
Proof.
  unfold mutex_free. induction (workers_ st) as [|w ws IH]; [done|]. cbn [forallb]. rewrite andb_true_iff, negb_true_iff. intros [Hw Hr].
  rewrite holders_cons, Hw, IH; done.
Qed.

Lemma running_eq l w r : concat (in_hand <$> l ++ w :: r) ≡ₚ in_hand w ++ concat (in_hand <$> l ++ r).
Proof. rewrite !fmap_app, !concat_app. cbn [fmap list_fmap concat]. by rewrite Permutation_app_swap_app. Qed.

Lemma running_wake ws : concat (in_hand <$> (wake <$> ws)) = concat (in_hand <$> ws).
Proof. induction ws as [|[] ws IH]; cbn; [done|exact IH..|by f_equal|exact IH]. Qed.
Lemma holders_wake ws : holders (wake <$> ws) = holders ws.
Proof. induction ws as [|w ws IH]; [done|]. rewrite fmap_cons, !holders_cons, IH. by destruct w. Qed.

(** Moving one worker between states without a task. *)
Lemma set_worker_inv st i w w' :
  sched_inv st -> workers_ st !! i = Some w -> in_hand w = [] -> in_hand w' = [] ->
  holders (workers_ st) + (if holds_mutex w' then 1 else 0) <= 1 + (if holds_mutex w then 1 else 0) -> sched_inv (set_worker st i w').
Proof.
  intros [Hf Ht Hm] Hi Hw Hw' Hh. destruct (split_workers _ i w w' Hi) as (l & r & Hl & Hl'). split; cbn; [done| |].
  - unfold running in *. cbn [workers_ set_worker]. rewrite Hl', running_eq, Hw'. rewrite Hl, running_eq, Hw in Ht. done.
  - rewrite Hl'. rewrite Hl in Hh. rewrite !holders_app, !holders_cons in *. destruct (holds_mutex w), (holds_mutex w'); lia.
Qed.

Lemma perform_inv a st st' : sched_inv st -> perform a st = Some st' -> sched_inv st'.
Proof.
  intros Hinv Hp. pose proof Hinv as [Hf Ht Hm]. destruct a as [t|k|i| | | | |i|i|i|i]; cbn in Hp.
  - unfold submit_check in Hp. destruct (shutdown_ st); simplify_eq. done.
  - unfold submit_push in Hp. destruct (submitting st !! k) as [t|]; [|done]. destruct (mutex_free st); simplify_eq.
    split; cbn; [by rewrite app_assoc, Hf|done|done].
  - unfold notify_one in Hp. destruct (notifying st) as [|n]; [done|]. destruct (workers_ st !! i) as [[]|] eqn:Hi; simplify_eq.
    apply (set_worker_inv (with_notifying st n) i Waiting); [done|done|done|done|]. cbn. lia.
  - unfold notify_nobody in Hp. destruct (notifying st); [done|]. destruct (existsb _ _); simplify_eq. done.
  - unfold store_shutdown in Hp. destruct (closer st); simplify_eq. done.
  - unfold notify_all in Hp. destruct (closer st); simplify_eq. split; cbn; [done| |].
    + unfold running in *. cbn. by rewrite running_wake.
    + by rewrite holders_wake.
  - unfold join in Hp. destruct (closer st); [done|done| |done]. destruct (forallb _ _); simplify_eq. done.
  - unfold acquire in Hp. destruct (workers_ st !! i) as [[]|] eqn:Hi; try done. destruct (mutex_free st) eqn:Hfree; simplify_eq.
    apply (set_worker_inv st i Idle); [done|done|done|done|]. rewrite mutex_free_holders by done. cbn. lia.
  - unfold evaluate_predicate in Hp. destruct (workers_ st !! i) as [[]|] eqn:Hi; try done. destruct (queue_ st) as [|t q] eqn:Hq; simplify_eq.
    + apply (set_worker_inv st i Locked); [done|done|done|by destruct (shutdown_ st)|]. destruct (shutdown_ st); cbn; lia.
    + destruct (split_workers _ i Locked (Running t) Hi) as (l & r & Hl & Hl'). split; cbn.
      * by rewrite <- app_assoc.
      * unfold running in *. cbn [workers_]. rewrite Hl', running_eq. rewrite Hl, running_eq in Ht. cbn [in_hand app] in *.
        rewrite <- Ht, <- app_assoc. f_equiv. by rewrite Permutation_cons_append.
      * rewrite Hl'. rewrite Hl in Hm.
        rewrite !holders_app, !holders_cons in *. cbn in *. lia.
  - unfold block in Hp. destruct (workers_ st !! i) as [[]|] eqn:Hi; simplify_eq.
    apply (set_worker_inv st i Blocking); [done|done|done|done|]. cbn. lia.
  - unfold execute_task in Hp. destruct (workers_ st !! i) as [[]|] eqn:Hi; simplify_eq.
    destruct (split_workers _ i _ Idle Hi) as (l & r & Hl & Hl'). split; cbn; [done| |].
    + unfold running in *. cbn [workers_]. rewrite Hl', running_eq. rewrite Hl, running_eq in Ht. cbn [in_hand app] in *.
      rewrite <- app_assoc. done.
    + rewrite Hl'. rewrite Hl in Hm.
      rewrite !holders_app, !holders_cons in *. cbn in *. lia.
Qed.

Lemma sched_step_inv st st' : sched_inv st -> sched_step st st' -> sched_inv st'.
Proof.
  intros Hinv [st1 [a Ha]|i Hi]; [by eapply perform_inv|]. apply (set_worker_inv st i Waiting); [done|done|done|done|].
  destruct Hinv as [_ _ Hm]. cbn. lia.
Qed.

Lemma initial_inv n : sched_inv (Initialize_workers n).
Proof.
  split; cbn; [done| |].
  - unfold running. cbn. induction n; cbn; done.
  - assert (holders (replicate n Idle) = 0) as ->; [|lia]. induction n; [done|]. cbn [replicate]. by rewrite holders_cons.
Qed.

Lemma reachable_inv n st : rtc sched_step (Initialize_workers n) st -> sched_inv st.
Proof.
  intros Hr. assert (sched_inv (Initialize_workers n)) as Hi by apply initial_inv. revert Hi.
  induction Hr as [|st1 st2 st3 Hs _ IH]; [done|]. intros Hi. apply IH. by eapply sched_step_inv.
Qed.

(** C37: in every execution tasks are started in the order in which they were
    pushed, each one once; what was started is executed or in the hands of a
    worker; and at most one worker holds the mutex. *)
Theorem tasks_run_once n st :
  rtc sched_step (Initialize_workers n) st ->
  started st ++ queue_ st = pushed st /\ executed st ++ running st ≡ₚ started st /\ holders (workers_ st) <= 1.
Proof. intros Hr. destruct (reachable_inv n st Hr) as [Hf Ht Hm]. done. Qed.

(** ** Shutdown *)

Definition awake (w : Worker) : Prop := w <> Waiting /\ w <> Blocking.

(** The flag is stored, the notification was sent, nobody submits, no worker
    sleeps or is about to, and the queue has a worker left if it has a task. *)
Record draining (st : TaskScheduler) : Prop := {
  dr_flag : shutdown_ st = true;
  dr_closer : closer st = Joining \/ closer st = Joined;
  dr_submit : submitting st = [];
  dr_awake : Forall awake (workers_ st);
  dr_queue : queue_ st = [] \/ Exists (fun w => is_exited w = false) (workers_ st);
}.

Definition weight (w : Worker) : nat := match w with Running _ => 3 | Idle => 2 | Locked => 1 | _ => 0 end.
Definition weights (ws : list Worker) : nat := sum_list_with weight ws.
#[local] Arguments weights : simpl never.
Definition closer_weight (c : Closer) : nat := match c with Joining => 1 | _ => 0 end.
Definition work_left (st : TaskScheduler) : nat := 3 * length (queue_ st) + weights (workers_ st) + notifying st + closer_weight (closer st).

Lemma weights_update ws i w w' : ws !! i = Some w -> weights (<[i := w']> ws) + weight w = weights ws + weight w'.
Proof.
  intros Hi. destruct (split_workers ws i w w' Hi) as (l & r & Hl & Hl'). rewrite Hl', Hl. unfold weights.
  rewrite !sum_list_with_app. cbn. lia.
Qed.

Lemma awake_update ws i w' : Forall awake ws -> awake w' -> Forall awake (<[i := w']> ws).
Proof. intros Hws Hw. by apply Forall_insert. Qed.

Lemma exists_update ws i w w' : ws !! i = Some w -> is_exited w' = false -> Exists (fun w => is_exited w = false) (<[i := w']> ws).
Proof. intros Hi Hw. apply Exists_exists. exists w'. split; [|done]. apply list_elem_of_lookup. exists i. apply list_lookup_insert_eq. by eapply lookup_lt_Some. Qed.

Lemma draining_worker st i w : draining st -> workers_ st !! i = Some w -> awake w.
Proof. intros Hd Hi. by eapply (Forall_lookup_1 _ _ _ _ (dr_awake _ Hd)). Qed.

(** Every move keeps the shutdown going and leaves less to do. *)
Lemma draining_move st st' :
  draining st -> moves st st' -> draining st' /\ work_left st' < work_left st /\ pushed st' = pushed st.
Proof.
  intros Hd [a Hp]. pose proof Hd as [Hflag Hcl Hsub Hawake Hq].
  destruct a as [t|k|i| | | | |i|i|i|i]; cbn in Hp.
  - unfold submit_check in Hp. by rewrite Hflag in Hp.
  - unfold submit_push in Hp. by rewrite Hsub in Hp.
  - unfold notify_one in Hp. destruct (notifying st); [done|]. destruct (workers_ st !! i) as [[]|] eqn:Hi; try done.
    by destruct (draining_worker st i Waiting Hd Hi).
  - unfold notify_nobody in Hp. destruct (notifying st) as [|n] eqn:Hn; [done|]. destruct (existsb _ _); simplify_eq.
    split; [by split|]. unfold work_left. cbn. rewrite Hn. split; [lia|done].
  - unfold store_shutdown in Hp. by destruct Hcl as [Hcl|Hcl]; rewrite Hcl in Hp.
  - unfold notify_all in Hp. by destruct Hcl as [Hcl|Hcl]; rewrite Hcl in Hp.
  - unfold join in Hp. destruct (closer st) eqn:Hc; try done. destruct (forallb _ _); simplify_eq.
    split; [split; cbn; auto|]. unfold work_left. cbn. rewrite Hc. cbn. split; [lia|done].
  - unfold acquire in Hp. destruct (workers_ st !! i) as [[]|] eqn:Hi; try done. destruct (mutex_free st); simplify_eq.
    pose proof (weights_update _ i _ Locked Hi) as Hw. split.
    + split; cbn; [done|done|done|by apply awake_update|]. right. by eapply exists_update.
    + unfold work_left. cbn in *. split; [lia|done].
  - unfold evaluate_predicate in Hp. destruct (workers_ st !! i) as [[]|] eqn:Hi; try done.
    destruct (queue_ st) as [|t q] eqn:Hqe; simplify_eq.
    + rewrite Hflag. pose proof (weights_update _ i _ Exited Hi) as Hw. split.
      * split; cbn; [done|done|done|by apply awake_update|by left].
      * unfold work_left. cbn in *. rewrite Hqe. split; [lia|done].
    + pose proof (weights_update _ i _ (Running t) Hi) as Hw. split.
      * split; cbn; [done|done|done|by apply awake_update|]. right. by eapply exists_update.
      * unfold work_left. cbn in *. rewrite Hqe. cbn. split; [lia|done].
  - unfold block in Hp. destruct (workers_ st !! i) as [[]|] eqn:Hi; try done. by destruct (draining_worker st i Blocking Hd Hi).
  - unfold execute_task in Hp. destruct (workers_ st !! i) as [[]|] eqn:Hi; simplify_eq.
    pose proof (weights_update _ i _ Idle Hi) as Hw. split.
    + split; cbn; [done|done|done|by apply awake_update|]. right. by eapply exists_update.
    + unfold work_left. cbn in *. split; [lia|done].
Qed.

Lemma draining_step st st' : draining st -> sched_step st st' -> draining st' /\ work_left st' < work_left st /\ pushed st' = pushed st.
Proof. intros Hd [st1 Hm|i Hi]; [by apply draining_move|]. by destruct (draining_worker st i Waiting Hd Hi). Qed.

(** While a worker has not returned, something can move. *)
Lemma draining_progress st w : draining st -> w ∈ workers_ st -> is_exited w = false -> exists st', moves st st'.
Proof.
  intros Hd Hw Hne. destruct (mutex_free st) eqn:Hfree.
  - apply list_elem_of_lookup in Hw as [i Hi]. destruct (draining_worker st i w Hd Hi) as [Hnw Hnb]. destruct w; try done.
    + eexists. exists (Acquire i). cbn. unfold acquire. by rewrite Hi, Hfree.
    + exfalso. apply mutex_free_holders in Hfree. destruct (split_workers _ i Locked Locked Hi) as (l & r & Hl & _).
      rewrite Hl, holders_app, holders_cons in Hfree. cbn in Hfree. lia.
    + eexists. exists (Execute_task i). cbn. unfold execute_task. by rewrite Hi.
  - unfold mutex_free in Hfree. apply not_true_iff_false in Hfree. rewrite forallb_forall in Hfree.
    assert (exists v, v ∈ workers_ st /\ holds_mutex v = true) as (v & Hv & Hh).
    { destruct (decide (Exists (fun v => holds_mutex v = true) (workers_ st))) as [He|Hn].
      - by apply Exists_exists in He.
      - exfalso. apply Hfree. intros v Hv. apply list_elem_of_In in Hv. destruct (holds_mutex v) eqn:Hhv; [|done]. exfalso. apply Hn. apply Exists_exists. eauto. }
    apply list_elem_of_lookup in Hv as [i Hi]. destruct (draining_worker st i v Hd Hi) as [_ Hnb]. destruct v; try done.
    destruct (queue_ st) as [|t q] eqn:Hq; eexists; exists (Evaluate_predicate i); cbn; unfold evaluate_predicate; by rewrite Hi, Hq.
Qed.

Lemma draining_end st : sched_inv st -> draining st -> nf sched_step st -> closer st = Joined /\ executed st ≡ₚ pushed st.
Proof.
  intros [Hf Ht _] Hd Hnf. assert (Forall (fun w => is_exited w = true) (workers_ st)) as Hex.
  { apply Forall_forall. intros w Hw. destruct (is_exited w) eqn:He; [done|]. destruct (draining_progress st w Hd Hw He) as [st' Hm].
    exfalso. apply Hnf. exists st'. by constructor. }
  assert (queue_ st = []) as Hq.
  { destruct (dr_queue _ Hd) as [Hq|He]; [done|]. apply Exists_exists in He as (w & Hw & Hne). rewrite Forall_forall in Hex. by rewrite Hex in Hne. }
  assert (running st = []) as Hrun.
  { unfold running. clear -Hex. induction Hex as [|w ws Hw _ IH]; [done|]. by destruct w. }
  rewrite Hq, app_nil_r in Hf. rewrite Hrun, app_nil_r in Ht. split; [|by rewrite <- Hf].
  destruct (dr_closer _ Hd) as [Hc|Hc]; [|done]. exfalso. apply Hnf. eexists. constructor. exists Join. cbn. unfold join. rewrite Hc.
  assert (forallb is_exited (workers_ st) = true) as ->; [|reflexivity]. apply forallb_forall. intros w Hw. apply list_elem_of_In in Hw.
  rewrite Forall_forall in Hex. by apply Hex.
Qed.

(** C27: from a reachable state in which the shutdown flag is stored and the
    notification sent, no submitter is between its test of the flag and its
    push, no worker is asleep or about to sleep, and a worker is left if the
    queue is not empty, every execution is finite, and when no step is left the
    workers are joined and every task that was pushed has been executed. A
    submitter still under way can lose its task ([task_lost_at_shutdown]), and a
    worker about to sleep can miss the notification ([shutdown_can_hang]). *)
Theorem shutdown_drains n st :
  rtc sched_step (Initialize_workers n) st -> draining st ->
  sn sched_step st /\
  forall st', rtc sched_step st st' -> nf sched_step st' -> closer st' = Joined /\ executed st' ≡ₚ pushed st.
Proof.
  intros Hr Hd. split.
  - clear Hr. remember (work_left st) as m eqn:Hm. revert st Hm Hd. induction (lt_wf m) as [m _ IH]. intros st -> Hd.
    constructor. intros st' Hs. destruct (draining_step st st' Hd Hs) as (Hd' & Hlt & _). by eapply IH.
  - intros st' Hs. apply reachable_inv in Hr. revert Hr Hd. induction Hs as [st|st1 st2 st3 Hs _ IH]; intros Hinv Hd Hnf; [by apply draining_end|].
    destruct (draining_step st1 st2 Hd Hs) as (Hd2 & _ & Hp). rewrite <- Hp. apply IH; [by eapply sched_step_inv|done|done].
Qed.

End scheduler.
Arguments Worker : clear implicits.
Arguments TaskScheduler : clear implicits.
Arguments action : clear implicits.

(** ** Runs *)

Lemma performs_rtc {Task} (acts : list (action Task)) (st st' : TaskScheduler Task) : performs acts st = Some st' -> rtc sched_step st st'.
Proof.
  revert st. induction acts as [|a acts IH]; intros st; unfold performs; cbn; [by intros [= ->]|].
  intros Hp. destruct (perform a st) as [st1|] eqn:Ha; cycle 1.
  { exfalso. clear -Hp. induction acts as [|b acts IH]; [done|]. by apply IH. }
  eapply rtc_l; [constructor; by exists a|]. by apply IH.
Qed.

(** Two tasks and one worker, and a shutdown while the first task runs. *)
Definition drained_run : list (action nat) :=
  [SubmitCheck 1; SubmitPush 0; NotifyNobody; Acquire 0; Evaluate_predicate 0; SubmitCheck 2; SubmitPush 0; StoreShutdown; NotifyAll].

Lemma tasks_run_once_witness :
  exists st, performs (drained_run ++ [Execute_task 0]) (Initialize_workers 1) = Some st /\
    started st ++ queue_ st = [1; 2] /\ executed st ++ running st ≡ₚ started st /\ holders (workers_ st) <= 1.
Proof.
  destruct (performs (drained_run ++ [Execute_task 0]) (Initialize_workers 1)) as [st|] eqn:E; [|vm_compute in E; discriminate].
  exists st. split; [reflexivity|]. destruct (tasks_run_once 1 st (performs_rtc _ _ _ E)) as (Hf & Ht & Hm).
  split; [|split; [exact Ht|exact Hm]]. rewrite Hf. vm_compute in E. injection E as <-. reflexivity.
Defined.

Lemma shutdown_drains_witness :
  exists st, performs drained_run (Initialize_workers 1) = Some st /\ sn sched_step st /\
    forall st', rtc sched_step st st' -> nf sched_step st' -> closer st' = Joined /\ executed st' ≡ₚ [1; 2].
Proof.
  destruct (performs drained_run (Initialize_workers 1)) as [st|] eqn:E; [|vm_compute in E; discriminate].
  exists st. split; [reflexivity|]. assert (draining st /\ pushed st = [1; 2]) as [Hd Hp].
  { vm_compute in E. injection E as <-. split; [|reflexivity]. split; cbn; [reflexivity|by left|reflexivity|repeat constructor; discriminate|].
    right. by constructor. }
  destruct (shutdown_drains 1 st (performs_rtc _ _ _ E) Hd) as [Hsn Hend]. split; [exact Hsn|]. rewrite <- Hp. exact Hend.
Defined.

(** The flag is stored and the notification sent between the evaluation of the
    predicate and the sleep of the worker: it sleeps, nobody will notify it, and
    [Shutdown] waits for it, unless the system wakes it without reason. *)
Definition lost_wakeup : list (action nat) := [Acquire 0; Evaluate_predicate 0; StoreShutdown; NotifyAll; Block 0].

(** A shutdown can hang: there is an execution after which the closing
    thread is joining, the only worker sleeps, and no thread can move. *)
Theorem shutdown_can_hang :
  exists st, rtc sched_step (Initialize_workers 1) st /\ closer st = Joining /\ workers_ st = [Waiting] /\
    nf (moves (Task := nat)) st.
Proof.
  destruct (performs lost_wakeup (Initialize_workers 1)) as [st|] eqn:E; [|vm_compute in E; discriminate].
  exists st. split; [by eapply performs_rtc|]. vm_compute in E. injection E as <-. split; [reflexivity|]. split; [reflexivity|].
  intros [st' [a Ha]]. destruct a as [t|k|i| | | | |i|i|i|i]; try done.
  all: destruct i as [|i]; done.
Qed.

(** A task accepted before the flag and pushed after the workers have returned is
    never executed. *)
Example task_lost_at_shutdown :
  exists st, performs [SubmitCheck 7; StoreShutdown; NotifyAll; Acquire 0; Evaluate_predicate 0; Join; SubmitPush 0; NotifyNobody] (Initialize_workers 1) = Some st /\
    closer st = Joined /\ queue_ st = [7] /\ executed st = [].
Proof. eexists. split; [vm_compute; reflexivity|]. split_and!; reflexivity. Qed.
