(* ===== verification/CheckpointManager.v ===== *)
(** * Checkpoints

    [checkpoint/checkpoint_manager.hpp] and [checkpoint_manager.cpp]: the
    checkpoint writes the marker to the log, flushes the row groups, writes
    the catalog to block 0 and cuts the log.  The claims: a checkpoint is
    refused while uncommitted versions exist and then changes nothing, and the
    catalog block is written over the first segment of the database when a
    segment was stored before the first checkpoint. *)

From Stdlib Require Import ZArith String.
From stdpp Require Import base gmap strings list.
From S2P Require Import Prelude Types PartitionInfo Transaction BlockFile BufferManager ColumnChunk VersionInfo RowGroup Schema Catalog CatalogCheckpoint Wal TaskScheduler.

(** What the manager refers to; [checkpoint_lock_] is held by another
    checkpoint or not, [is_checkpointing_] is reset on every path. *)
Record CheckpointState : Type := mkCS {
  cs_catalog : Catalog;
  cs_bm : BufferManager;
  cs_wal : WAL;
  checkpoint_locked : bool;
}.

(** [block_file_.BlockCount()] of the file behind the buffer manager. *)
Definition BlockCount (bm : BufferManager) : Z := match file_ bm with Some f => block_count_ f | None => 0%Z end.

(** The handle of the catalog block: its number and the pool with it pinned. *)
Definition catalog_block (bm : BufferManager) : result (Z * BufferManager) :=
  if Z.eqb (BlockCount bm) 0 then AllocateBlock bm else bm ← Pin bm 0; Ok (0%Z, bm).

(** The handle is unpinned when it goes out of scope, after the log was cut. *)
Definition CreateCheckpoint `{MapOrder} (st : CheckpointState) : result (bool * CheckpointState) :=
  if checkpoint_locked st then Ok (false, st) else
  if HasUncommittedVersionMarkers (cs_catalog st) then Ok (false, st) else
  w ← Wal.Flush (WriteCheckpointMarker (cs_wal st));
  '(id, bm) ← catalog_block (cs_bm st);
  '(bm, c) ← FlushAllRowGroups bm (cs_catalog st);
  buf ← block_data bm id;
  buf ← Serialize c buf;
  bm ← BufferManager.Flush (MarkDirty (set_block_data bm id buf) id);
  w ← Truncate w;
  Ok (true, mkCS c (Unpin bm id) w (checkpoint_locked st)).

(** ** Checkpoints in the background *)

(** [Task], whose only implementation is the checkpoint, and [Task::TaskResult]. *)
Inductive Task : Type := AsyncCheckpointTask.
Inductive TaskResult : Type := TASK_FINISHED | TASK_ERROR.

(** [AsyncCheckpointTask::Execute]: whether the checkpoint ran is not reported. *)
Definition Task_Execute `{MapOrder} (t : Task) (st : CheckpointState) : result (TaskResult * CheckpointState) :=
  match t with AsyncCheckpointTask => '(_, st) ← CreateCheckpoint st; Ok (TASK_FINISHED, st) end.

(** [ScheduleAsyncCheckpoint]: the beginning of [Submit], whose push and
    notification follow as steps of the scheduler; it throws behind a shutdown. *)
Definition ScheduleAsyncCheckpoint (sched : TaskScheduler Task) : option (TaskScheduler Task) := submit_check sched AsyncCheckpointTask.

(** What the executed tasks have done to the database, one after the other;
    an exception ends its task only. *)
Definition executed_checkpoints `{MapOrder} (sched : TaskScheduler Task) (st : CheckpointState) : CheckpointState :=
  foldl (fun st t => match Task_Execute t st with Ok (_, st) => st | Err _ => st end) st (executed sched).

(** A checkpoint waits for the running writers: while a live table has an
    uncommitted version marker, [CreateCheckpoint] returns false and neither
    the catalog, the blocks nor the log change. *)
Theorem checkpoint_refused_while_writing `{MapOrder} st sch s n l e rg r m :
  schemas_ (cs_catalog st) !! sch = Some s -> entries_ s !! n = Some l -> e ∈ l -> live e = true ->
  rg ∈ row_groups e -> markers_ (version_info_ rg) !! r = Some m -> mcommit_time m = INVALID_TIMESTAMP ->
  CreateCheckpoint st = Ok (false, st).
Proof.
  intros Hs Hn He Hlive Hrg Hm Ht. unfold CreateCheckpoint. destruct (checkpoint_locked st); [done|].
  assert (HasUncommittedVersionMarkers (cs_catalog st) = true) as ->; [|done].
  unfold HasUncommittedVersionMarkers. apply existsb_exists. exists (sch, s). split.
  { apply list_elem_of_In. rewrite map_order_perm. by apply elem_of_map_to_list. }
  apply existsb_exists. exists (n, l). split.
  { apply list_elem_of_In. rewrite map_order_perm. by apply elem_of_map_to_list. }
  apply existsb_exists. exists e. split; [by apply list_elem_of_In|]. rewrite Hlive. simpl.
  apply existsb_exists. exists rg. split; [by apply list_elem_of_In|].
  unfold HasUncommittedMarkers. apply existsb_exists. exists (r, m).
  split; [apply list_elem_of_In; by apply elem_of_map_to_list|]. simpl. by rewrite Ht.
Qed.

(** ** The catalog block of the first checkpoint *)

(** A database on a new file: table [t] with 1100 rows, whose first 1024 rows
    were stored in a segment when the second append filled the vector. *)
Definition filled_database : result CheckpointState :=
  '(bm, rg) ← Append (BM_new 65536 512 (Some (bf_open [] 512 []))) (RG_new 0 [INT64]) (many_rows 1000 7) [0] 1;
  '(bm, rg) ← Append bm (CommitAppend rg 1) (many_rows 100 7) [0] 2;
  Ok (mkCS (update_entry one_table "main" "t" 0 (fun e => set_row_groups e [CommitAppend rg 2])) bm (WAL_Create [] []) false).

(** The number and the bytes of the block of the first segment of [t]. *)
Definition first_segment_block (st : CheckpointState) : result (Z * list Z) :=
  e ← of_option UndefinedBehaviour (head (table_versions (cs_catalog st) "main" "t"));
  rg ← of_option UndefinedBehaviour (head (row_groups e));
  cc ← of_option UndefinedBehaviour (head (column_chunks_ rg));
  seg ← of_option UndefinedBehaviour (head (segments_ cc));
  '(b, _) ← read_block (cs_bm st) (block_id seg);
  Ok (block_id seg, b).

(** The first checkpoint overwrites data: a segment stored before it has
    block 0, [BlockCount] is then not 0, so the checkpoint takes block 0 for
    the catalog and writes the schemas over the rows of the segment. *)
Theorem first_checkpoint_overwrites_segment :
  match (st ← filled_database;
         '(id, before) ← first_segment_block st;
         '(done, st') ← @CreateCheckpoint sorted_order st;
         '(id', after) ← first_segment_block st';
         Ok (id, id', done, before, after)) with
  | Ok (id, id', done, before, after) =>
      id = 0%Z /\ id' = 0%Z /\ done = true /\
      take 5 before = le_bytes 1 (Compression.CompressionType_u8 Compression.RLE) ++ le_bytes 4 1024 /\
      take 10 after = CkptWriteU32 1 ++ CkptWriteStr "main"
  | Err _ => False
  end.
Proof. vm_compute. by split_and!. Qed.

Lemma checkpoint_refused_while_writing_witness :
  let rg := mkRG 0 2 [INT64] [CC_new INT64] (MarkDeleted VI_empty 1 1) 0 INVALID_TRANSACTION in
  let st := mkCS (update_entry one_table "main" "t" 0 (fun e => set_row_groups e [rg])) (BM_new 65536 512 None) (WAL_Create [] []) false in
  @CreateCheckpoint sorted_order st = Ok (false, st).
Proof.
  intros rg st.
  eapply (@checkpoint_refused_while_writing sorted_order st "main" _ "t" _ _ rg 1%Z (mkMarker DELETE 1 INVALID_TIMESTAMP));
    try (vm_compute; reflexivity).
  - apply list_elem_of_here.
  - vm_compute. reflexivity.
  - apply list_elem_of_here.
Defined.

(** Two checkpoints are scheduled and the scheduler is shut down: the only worker
    runs both, and the catalog is on disk. *)
Example background_checkpoint :
  exists sched,
    (s ← ScheduleAsyncCheckpoint (Initialize_workers 1);
     s ← performs [SubmitPush 0; NotifyNobody] s;
     s ← ScheduleAsyncCheckpoint s;
     performs [SubmitPush 0; NotifyNobody; StoreShutdown; NotifyAll; Acquire 0; Evaluate_predicate 0; Execute_task 0;
               Acquire 0; Evaluate_predicate 0; Execute_task 0; Acquire 0; Evaluate_predicate 0; Join] s) = Some sched /\
    closer sched = Joined /\
    let st := @executed_checkpoints sorted_order sched (mkCS one_table (BM_new 65536 512 (Some (bf_open [] 512 []))) (WAL_Create [] []) false) in
    match read_block (cs_bm st) 0 with Ok (b, _) => take 10 b = CkptWriteU32 1 ++ CkptWriteStr "main" | Err _ => False end.
Proof. eexists. split; [vm_compute; reflexivity|]. split; [reflexivity|]. vm_compute. reflexivity. Qed.
