(* ===== verification/Dml.v ===== *)
(** * Statements that write

    [execution/operator/physical_insert], [physical_delete], [physical_update],
    [physical_create_table], [physical_drop_table] and [physical_alter_table].

    These operators change the catalog and its row groups through pointers while
    they run, and log in the undo buffer what a rollback has to take back.  What
    was changed before an exception stays changed, so a step is a function on the
    whole context that returns the new context also when it throws.  A call into
    the storage layer that throws is taken to leave the context as it was.

    The claims are about DELETE, whose markers and undo record are exactly the
    visible rows that match, about INSERT, which appends its rows behind those of
    the last row group and logs their range, and about UPDATE that throws, which
    leaves markers no rollback removes. *)

From Stdlib Require Import ZArith String.
From stdpp Require Import base gmap strings list fin_maps sorting.
From S2P Require Import Prelude Types Double Expr VersionInfo BlockFile BufferManager ColumnChunk RowGroup PartitionInfo Operators Transaction Schema LogicalPlan PhysicalPlanner Catalog TableScan TransactionManager.

(** ** The context and its steps *)

Section steps.
Context {S : Type}.

(** The parts of [ClientContext] the operators reach: the block store, the
    catalog and the transaction. *)
Record ExecContext : Type := mkExec {
  ex_store : S;
  ex_catalog : Catalog;
  ex_tx : Transaction;
}.

Definition step (A : Type) : Type := ExecContext -> ExecContext * result A.

#[export] Instance step_ret : MRet step := fun A x c => (c, Ok x).
#[export] Instance step_bind : MBind step := fun A B f m c =>
  match m c with (c, Ok x) => f x c | (c, Err e) => (c, Err e) end.

Definition fail {A} (e : error) : step A := fun c => (c, Err e).
Definition pure_r {A} (r : result A) : step A := fun c => (c, r).
Definition current : step ExecContext := fun c => (c, Ok c).
Definition with_catalog (f : Catalog -> Catalog) : step unit := fun c => (mkExec (ex_store c) (f (ex_catalog c)) (ex_tx c), Ok tt).
Definition with_tx (f : Transaction -> Transaction) : step unit := fun c => (mkExec (ex_store c) (ex_catalog c) (f (ex_tx c)), Ok tt).

(** A call into the storage layer. *)
Definition storage {A} (f : S -> result (S * A)) : step A := fun c =>
  match f (ex_store c) with Ok (s, x) => (mkExec s (ex_catalog c) (ex_tx c), Ok x) | Err e => (c, Err e) end.

(** [transaction->undo_buffer.Push...] *)
Definition push_undo (e : UndoEntry) : step unit := with_tx (fun tx => log_change tx e).

(** [for (x : l) acc = f(acc, x)] *)
Fixpoint each_step {A B} (f : A -> B -> step A) (a : A) (l : list B) : step A :=
  match l with [] => mret a | x :: l => a ← f a x; each_step f a l end.

(** A pointer to a table: the schema, the name and the version. *)
Record TableRef : Type := mkRef { ref_schema : string; ref_table : string; ref_pos : nat }.

Definition entry_at (c : Catalog) (t : TableRef) : option TableCatalogEntry := table_versions c (ref_schema t) (ref_table t) !! ref_pos t.

Definition read_table (t : TableRef) : step TableCatalogEntry :=
  c ← current; pure_r (of_option UndefinedBehaviour (entry_at (ex_catalog c) t)).
Definition write_table (t : TableRef) (f : TableCatalogEntry -> TableCatalogEntry) : step unit :=
  with_catalog (fun c => update_entry c (ref_schema t) (ref_table t) (ref_pos t) f).

Definition read_group (t : TableRef) (g : nat) : step RowGroup :=
  e ← read_table t; pure_r (of_option UndefinedBehaviour (row_groups e !! g)).
Definition write_group (t : TableRef) (g : nat) (rg : RowGroup) : step unit :=
  with_catalog (on_row_group (ref_schema t) (ref_table t) (ref_pos t) g (fun _ => rg)).

(** [ctx.catalog->GetTable(...)], which must find the table. *)
Definition need_table (schema table what : string) : step TableRef :=
  c ← current;
  match GetTable (ex_catalog c) schema table (ex_tx c) with
  | Some (i, _) => mret (mkRef schema table i)
  | None => fail (RuntimeError (what +:+ ": table not found: " +:+ table))
  end.

End steps.
Arguments ExecContext : clear implicits.
Arguments mkExec {S}.

(** ** Order of the standard library

    [std::sort] of row numbers and the traversal of an [unordered_map]. *)
Class InsertOrder : Type := {
  sort_rows : (nat -> nat -> bool) -> list nat -> list nat;
  bucket_order : list Z -> list Z;
  sort_rows_perm : forall less l, sort_rows less l ≡ₚ l;
  bucket_order_perm : forall l, bucket_order l ≡ₚ l;
}.

Section operators.
Context {S : Type} {BSops : BlockStore S} (H : Hashes) (F : FPU) {IO : InsertOrder}.

Notation step := (step (S := S)).

(** ** INSERT *)

(** [CompareRowsByKey]; the key of a row is not NULL, so its array holds it. *)
Definition CompareRowsByKey (chunk : DataChunk) (col_idx a b : nat) : bool :=
  match columns chunk !! col_idx with
  | None => false
  | Some v =>
      if is_float (dv_type v) then f64_ltb (default 0%Z (float_data v !! a)) (default 0%Z (float_data v !! b))
      else if bool_decide (dv_type v = VARCHAR) then String.ltb (default ""%string (str_data v !! a)) (default ""%string (str_data v !! b))
      else Z.ltb (default 0%Z (int_data v !! a)) (default 0%Z (int_data v !! b))
  end.

(** Appends [chunk] to row group [g] and logs the range. *)
Definition append_logged (t : TableRef) (g : nat) (chunk : DataChunk) (column_ids : list nat) : step unit :=
  rg ← read_group t g;
  c ← current;
  rg' ← storage (fun s => Append s rg chunk column_ids (tx_id (ex_tx c)));
  _ ← write_group t g rg';
  push_undo (UndoInsert (mkInsertUndo (ref_schema t) (ref_table t) g (row_count_ rg) (ch_count chunk) chunk)).

(** The position in the batch of each partition key, of which eight are used. *)
Definition key_position (column_ids : list nat) (col : Z) : result nat :=
  match list_find (fun c => Z.of_nat c = col) column_ids with
  | Some (i, _) => Ok i
  | None => Err (RuntimeError "INSERT: partition key column not included in INSERT")
  end.

Definition used_keys (pi : PartitionInfo) : nat := Nat.min (length (partition_col_idxs pi)) 8.

(** The key value of row [r]. *)
Definition row_key_value (chunk : DataChunk) (r : nat) (pos : nat) : result Value :=
  v ← of_option UndefinedBehaviour (columns chunk !! pos);
  if IsNull v r then Err (RuntimeError "partition key must not be NULL")
  else if is_float (dv_type v) then x ← of_option UndefinedBehaviour (float_data v !! r); Ok (mkValue (dv_type v) (VDouble x))
  else if bool_decide (dv_type v = VARCHAR) then x ← of_option UndefinedBehaviour (str_data v !! r); Ok (Value_Varchar x)
  else x ← of_option UndefinedBehaviour (int_data v !! r); Ok (mkValue (dv_type v) (VInt x)).

Definition route_row (pi : PartitionInfo) (chunk : DataChunk) (positions : list nat) (r : nat) : result Z :=
  keys ← mapM_r (row_key_value chunk r) positions; RouteRow H pi keys.

(** The rows of partition [pid], sorted by the leading key, behind those of its
    last row group. *)
Definition insert_partition (t : TableRef) (chunk : DataChunk) (column_ids : list nat) (sort_col : nat) (routes : list Z) (pid : Z)
    : step unit :=
  let rows := filter (fun r => routes !! r = Some pid) (seq 0 (ch_count chunk)) in
  slice ← pure_r (DataChunkSlice chunk (sort_rows (CompareRowsByKey chunk sort_col) rows));
  e ← read_table t;
  '(e', g) ← pure_r (GetOrAddRowGroupForPartition e (Z.to_nat pid));
  _ ← write_table t (fun _ => e');
  append_logged t g slice column_ids.

Definition DoInsertChunk (t : TableRef) (chunk : DataChunk) (column_ids : list nat) : step unit :=
  e ← read_table t;
  let pi := partition_info e in
  if negb (IsPartitioned pi) then
    let '(e', g) := GetOrAddRowGroup e in
    _ ← write_table t (fun _ => e');
    append_logged t g chunk column_ids
  else
    positions ← pure_r (mapM_r (key_position column_ids) (take (used_keys pi) (partition_col_idxs pi)));
    routes ← pure_r (mapM_r (route_row pi chunk positions) (seq 0 (ch_count chunk)));
    sort_col ← pure_r (of_option UndefinedBehaviour (head positions));
    each_step (fun _ pid => insert_partition t chunk column_ids sort_col routes pid) tt (bucket_order (remove_dups routes)).

(** [GetData] of the source for VALUES and [Consume] of the sink for SELECT: both
    insert one batch, and ignore an empty one. *)
Definition Insert_batch (schema table : string) (column_ids : list nat) (rows : DataChunk) : step unit :=
  if Nat.eqb (ch_count rows) 0 then mret tt
  else t ← need_table schema table "INSERT"; DoInsertChunk t rows column_ids.

(** ** DELETE *)

(** The rows of the batch that match. *)
Definition matching_rows (predicate : option LogicalExpr) (batch : DataChunk) : result (list nat) :=
  match predicate with Some p => EvaluatePredicate F p batch | None => Ok (seq 0 (ch_count batch)) end.

(** [GetVersionInfo().MarkDeleted(...)] and the row number of one row. *)
Definition delete_row (t : TableRef) (g : nat) (offsets : list Z) (ids : list Z) (bi : nat) : step (list Z) :=
  off ← pure_r (of_option UndefinedBehaviour (offsets !! bi));
  rg ← read_group t g;
  c ← current;
  _ ← write_group t g (on_version (fun vi => MarkDeleted vi off (tx_id (ex_tx c))) rg);
  mret (ids ++ [MakeRowId (row_key g) off]).

(** [while (row_offset < rg->RowCount())]; every turn advances [row_offset]. *)
Fixpoint delete_batches (fuel : nat) (t : TableRef) (g : nat) (predicate : option LogicalExpr) (scan_ids : list nat) (row_offset : nat)
    (ids : list Z) : step (list Z) :=
  match fuel with
  | 0 => fail UndefinedBehaviour
  | Datatypes.S fuel =>
      rg ← read_group t g;
      if Nat.ltb row_offset (row_count_ rg) then
        c ← current;
        '(next, batch, offsets, count) ← storage (fun s =>
           '(s, next, batch, offsets, count) ← ScanBatchWithOffsets s rg row_offset scan_ids (mkChunk [] 0) [] (tx_id (ex_tx c)) (start_time (ex_tx c));
           Ok (s, (next, batch, offsets, count)));
        if Nat.eqb (ch_count batch) 0 then delete_batches fuel t g predicate scan_ids next ids
        else
          matching ← pure_r (matching_rows predicate batch);
          ids ← each_step (delete_row t g offsets) ids matching;
          delete_batches fuel t g predicate scan_ids next ids
      else mret ids
  end.

Definition delete_group (t : TableRef) (predicate : option LogicalExpr) (scan_ids : list nat) (ids : list Z) (g : nat) : step (list Z) :=
  rg ← read_group t g;
  delete_batches (Datatypes.S (row_count_ rg)) t g predicate scan_ids 0 ids.

Definition Delete (schema table : string) (predicate : option LogicalExpr) : step unit :=
  t ← need_table schema table "DELETE";
  e ← read_table t;
  let scan_ids := match predicate with Some _ => seq 0 (length (tbl_columns e)) | None => [] end in
  ids ← each_step (delete_group t predicate scan_ids) [] (seq 0 (length (row_groups e)));
  match ids with
  | [] => mret tt
  | _ :: _ => push_undo (UndoDelete (mkDeleteUndo schema table ids))
  end.

(** ** UPDATE *)

(** Marks one row and returns its offset and row number. *)
Definition mark_updated (t : TableRef) (g : nat) (offsets : list Z) (acc : list Z * list Z) (bi : nat) : step (list Z * list Z) :=
  off ← pure_r (of_option UndefinedBehaviour (offsets !! bi));
  rg ← read_group t g;
  c ← current;
  _ ← write_group t g (on_version (fun vi => MarkUpdated vi off (tx_id (ex_tx c))) rg);
  mret (acc.1 ++ [off], acc.2 ++ [MakeRowId (row_key g) off]).

(** The position of a column in the scan: the last one, as in the map. *)
Definition scan_position (scan_ids : list nat) (col : nat) : option nat :=
  last (filter (fun i => scan_ids !! i = Some col) (seq 0 (length scan_ids))).

Definition select_rows (dst src : DataVector) (rows : list nat) : result DataVector :=
  foldM (fun dst bi => DataVectorAppend dst src bi) dst rows.

(** One SET clause: the old values, the new ones, and the write. *)
Definition update_column (t : TableRef) (g : nat) (scan_ids : list nat) (exprs : list LogicalExpr) (batch : DataChunk) (matching : list nat)
    (offsets : list Z) (acc : list DataVector * list DataVector) (u : nat * (nat * TypeId)) : step (list DataVector * list DataVector) :=
  let '(ui, (col, type)) := u in
  scan_idx ← pure_r (of_option (RuntimeError "UPDATE: missing scanned value for updated column") (scan_position scan_ids col));
  src ← pure_r (of_option UndefinedBehaviour (columns batch !! scan_idx));
  old ← pure_r (select_rows (Reset type 0) src matching);
  expr ← pure_r (of_option UndefinedBehaviour (exprs !! ui));
  full ← pure_r (Evaluate F expr batch);
  new ← pure_r (select_rows (Reset type 0) full matching);
  rg ← read_group t g;
  cc ← pure_r (of_option UndefinedBehaviour (column_chunks_ rg !! col));
  cc ← storage (fun s => WriteRows s cc (Z.to_nat <$> offsets) new);
  _ ← write_group t g (with_chunks rg (<[col := cc]> (column_chunks_ rg)));
  mret (acc.1 ++ [old], acc.2 ++ [new]).

(** What one UPDATE names. *)
Record UpdateSpec : Type := mkUpdateSpec {
  us_cols : list nat;
  us_types : list TypeId;
  us_exprs : list LogicalExpr;
  us_scan : list nat;
  us_pred : option LogicalExpr;
}.

Definition update_batch (t : TableRef) (g : nat) (u : UpdateSpec) (batch : DataChunk) (batch_offsets : list Z) : step unit :=
  matching ← pure_r (matching_rows (us_pred u) batch);
  match matching with
  | [] => mret tt
  | _ :: _ =>
      '(offsets, row_ids) ← each_step (mark_updated t g batch_offsets) ([], []) matching;
      '(olds, news) ← each_step (update_column t g (us_scan u) (us_exprs u) batch matching offsets) ([], [])
                        (imap pair (zip (us_cols u) (us_types u)));
      push_undo (UndoUpdate (mkUpdateUndo (ref_schema t) (ref_table t) row_ids (us_cols u)
                               (mkChunk olds (length matching)) (mkChunk news (length matching))))
  end.

Fixpoint update_batches (fuel : nat) (t : TableRef) (g : nat) (u : UpdateSpec) (row_offset : nat) : step unit :=
  match fuel with
  | 0 => fail UndefinedBehaviour
  | Datatypes.S fuel =>
      rg ← read_group t g;
      if Nat.ltb row_offset (row_count_ rg) then
        c ← current;
        '(next, batch, offsets, count) ← storage (fun s =>
           '(s, next, batch, offsets, count) ← ScanBatchWithOffsets s rg row_offset (us_scan u) (mkChunk [] 0) [] (tx_id (ex_tx c)) (start_time (ex_tx c));
           Ok (s, (next, batch, offsets, count)));
        _ ← (if Nat.eqb (ch_count batch) 0 then mret tt else update_batch t g u batch offsets);
        update_batches fuel t g u next
      else mret tt
  end.

Definition update_group (t : TableRef) (u : UpdateSpec) (g : nat) : step unit :=
  rg ← read_group t g; update_batches (Datatypes.S (row_count_ rg)) t g u 0.

Definition Update (schema table : string) (update_col_ids scan_col_ids : list nat) (exprs : list LogicalExpr) (predicate : option LogicalExpr)
    : step unit :=
  t ← need_table schema table "UPDATE";
  e ← read_table t;
  types ← pure_r (mapM_r (fun c => of_option UndefinedBehaviour (cd_type <$> tbl_columns e !! c)) update_col_ids);
  let scan_ids := match scan_col_ids with [] => update_col_ids | _ :: _ => scan_col_ids end in
  each_step (fun _ g => update_group t (mkUpdateSpec update_col_ids types exprs scan_ids predicate) g) tt (seq 0 (length (row_groups e))).

(** ** DDL *)

(** A catalog operation that may throw. *)
Definition catalog_op (f : Catalog -> result Catalog) : step unit := fun c =>
  match f (ex_catalog c) with Ok cat => (mkExec (ex_store c) cat (ex_tx c), Ok tt) | Err e => (c, Err e) end.

(** [catch (const CppColDBException&)]: whether the operation was done. *)
Definition is_db_exception (e : error) : bool :=
  match e with ParseError _ _ | BindError _ | RuntimeError _ | IOError _ => true | _ => false end.
Definition try_step (m : step unit) : step bool := fun c =>
  match m c with
  | (c, Ok _) => (c, Ok true)
  | (c, Err e) => if is_db_exception e then (c, Ok false) else (c, Err e)
  end.
Definition guarded (quiet : bool) (m : step unit) : step bool := if quiet then try_step m else (_ ← m; mret true).

Definition Create_Table (schema table : string) (columns : list ColumnDefinition) (if_not_exists : bool) (pi : PartitionInfo) : step unit :=
  c ← current;
  created ← guarded if_not_exists (catalog_op (fun cat => CreateTable cat schema table columns (ex_tx c) pi));
  if created : bool then push_undo (UndoCatalog (mkCatalogUndo schema table true (cd_name <$> columns) (cd_type <$> columns) pi)) else mret tt.

Definition Drop_Table (schema table : string) (if_exists : bool) : step unit :=
  c ← current;
  dropped ← guarded if_exists (catalog_op (fun cat => DropTable cat schema table (ex_tx c)));
  if dropped : bool then push_undo (UndoCatalog (mkCatalogUndo schema table false [] [] PI_none)) else mret tt.

(** A catalog operation that also returns the old partition state. *)
Definition partition_op (f : Catalog -> result (Catalog * PartitionInfo * list (list nat))) : step (PartitionInfo * list (list nat)) := fun c =>
  match f (ex_catalog c) with Ok (cat, pi, idx) => (mkExec (ex_store c) cat (ex_tx c), Ok (pi, idx)) | Err e => (c, Err e) end.

Definition Alter_Table (a : LogicalAlter) : step unit :=
  c ← current;
  '(old_pi, old_idx) ← partition_op (fun cat =>
     match alter_kind a with
     | DROP_PARTITION => DropPartition cat (alter_schema_name a) (alter_table_name a) (Z.to_nat (alter_partition_idx a)) (ex_tx c)
     | ADD_PARTITION => AddPartition cat (alter_schema_name a) (alter_table_name a) (LogicalPlan.new_bound a) (LogicalPlan.new_values a) (ex_tx c)
     end);
  c ← current;
  let '(new_pi, new_idx) :=
    match GetTable (ex_catalog c) (alter_schema_name a) (alter_table_name a) (ex_tx c) with
    | Some (_, e) => (partition_info e, partition_rg_indices e)
    | None => (PI_none, [])
    end in
  push_undo (UndoAlter (mkAlterUndo (alter_schema_name a) (alter_table_name a) (match alter_kind a with LogicalPlan.DROP_PARTITION => Transaction.DROP_PARTITION | LogicalPlan.ADD_PARTITION => Transaction.ADD_PARTITION end)
    old_pi old_idx new_pi new_idx)).

End operators.

(** ** Running the steps on one table

    While an operator runs, only the row groups of its table and the store
    change. *)

Definition put_groups (t : TableRef) (rgs : list RowGroup) (c : Catalog) : Catalog :=
  update_entry c (ref_schema t) (ref_table t) (ref_pos t) (fun e => set_row_groups e rgs).

Lemma update_entry_versions c schema name i f :
  table_versions (update_entry c schema name i f) schema name = alter f i (table_versions c schema name).
Proof.
  unfold table_versions, update_entry, GetSchema. cbn [schemas_]. rewrite lookup_alter_eq. destruct (schemas_ c !! schema) as [s|]; [|done].
  cbn. unfold versions_of, alter_versions. cbn [entries_]. rewrite lookup_alter_eq. by destruct (entries_ s !! name).
Qed.

Lemma update_entry_twice c schema name i f f' :
  update_entry (update_entry c schema name i f) schema name i f' = update_entry c schema name i (fun e => f' (f e)).
Proof.
  unfold update_entry. cbn [schemas_]. f_equal. apply map_eq. intros k. destruct (decide (k = schema)) as [->|]; [|by rewrite !lookup_alter_ne].
  rewrite !lookup_alter_eq. destruct (schemas_ c !! schema) as [s|]; [|done]. cbn. f_equal. unfold alter_versions. cbn. f_equal.
  apply map_eq. intros n. destruct (decide (n = name)) as [->|]; [|by rewrite !lookup_alter_ne]. rewrite !lookup_alter_eq.
  destruct (entries_ s !! name) as [l|]; [|done]. cbn. f_equal. by rewrite list_alter_alter_eq.
Qed.

Lemma update_entry_ext c schema name i f f' e :
  table_versions c schema name !! i = Some e -> f e = f' e -> update_entry c schema name i f = update_entry c schema name i f'.
Proof.
  intros He Hf. unfold update_entry. f_equal. apply map_eq. intros k. destruct (decide (k = schema)) as [->|]; [|by rewrite !lookup_alter_ne].
  unfold table_versions, GetSchema in He. rewrite !lookup_alter_eq. destruct (schemas_ c !! schema) as [s|]; [|done]. cbn in *. f_equal.
  unfold alter_versions. f_equal. apply map_eq. intros n. destruct (decide (n = name)) as [->|]; [|by rewrite !lookup_alter_ne].
  unfold versions_of in He. rewrite !lookup_alter_eq. destruct (entries_ s !! name) as [l|]; [|done]. cbn in *. f_equal.
  apply list_eq. intros j. destruct (decide (j = i)) as [->|]; [|by rewrite !list_lookup_alter_ne].
  rewrite !list_lookup_alter_eq, He. cbn. by f_equal.
Qed.

Lemma update_entry_id c schema name i e :
  table_versions c schema name !! i = Some e -> update_entry c schema name i (fun e => e) = c.
Proof.
  intros He. destruct c as [m]. unfold update_entry. cbn. f_equal. apply map_eq. intros k.
  destruct (decide (k = schema)) as [->|]; [|by rewrite lookup_alter_ne]. rewrite lookup_alter_eq. destruct (m !! schema) as [[n es]|]; [|done].
  cbn. f_equal. unfold alter_versions. cbn. f_equal. apply map_eq. intros n'. destruct (decide (n' = name)) as [->|]; [|by rewrite lookup_alter_ne].
  rewrite lookup_alter_eq. destruct (es !! name) as [l|]; [|done]. cbn. f_equal. apply list_eq. intros j. destruct (decide (j = i)) as [->|]; [|by rewrite list_lookup_alter_ne]. rewrite list_lookup_alter_eq. by destruct (l !! i).
Qed.

Lemma alter_const {A} (x : A) i (l : list A) : alter (fun _ => x) i l = <[i := x]> l.
Proof.
  apply list_eq. intros j. destruct (decide (i = j)) as [->|]; [|by rewrite list_lookup_alter_ne, list_lookup_insert_ne].
  rewrite list_lookup_alter_eq. destruct (l !! j) as [y|] eqn:E; cbn.
  - by rewrite list_lookup_insert_eq by (by eapply lookup_lt_Some).
  - symmetry. apply lookup_ge_None. rewrite length_insert. by apply lookup_ge_None.
Qed.

Section table.
Context {S : Type} (c0 : Catalog) (t : TableRef) (e : TableCatalogEntry).
Hypothesis Hentry : entry_at c0 t = Some e.

(** The context with these row groups in the table. *)
Definition at_groups (s : S) (rgs : list RowGroup) (tx : Transaction) : ExecContext S := mkExec s (put_groups t rgs c0) tx.

Lemma at_groups_start s tx : at_groups s (row_groups e) tx = mkExec s c0 tx.
Proof.
  unfold at_groups, put_groups. f_equal. rewrite (update_entry_ext _ _ _ _ _ (fun e => e) e Hentry); [by apply (update_entry_id _ _ _ _ e)|].
  by destruct e.
Qed.

Lemma read_table_at s rgs tx : read_table t (at_groups s rgs tx) = (at_groups s rgs tx, Ok (set_row_groups e rgs)).
Proof.
  unfold read_table, entry_at, current, mbind, step_bind, pure_r, at_groups, put_groups. cbn [ex_catalog].
  rewrite update_entry_versions, list_lookup_alter_eq. unfold entry_at in Hentry. rewrite Hentry. done.
Qed.

Lemma read_group_at s rgs tx g rg : rgs !! g = Some rg -> read_group t g (at_groups s rgs tx) = (at_groups s rgs tx, Ok rg).
Proof. intros Hg. unfold read_group, mbind, step_bind. rewrite read_table_at. cbn. unfold pure_r. by rewrite Hg. Qed.

Lemma write_group_at s rgs tx g rg : write_group t g rg (at_groups s rgs tx) = (at_groups s (<[g := rg]> rgs) tx, Ok tt).
Proof.
  unfold write_group, with_catalog, at_groups, put_groups, on_row_group. cbn. rewrite update_entry_twice. do 2 f_equal.
  apply (update_entry_ext _ _ _ _ _ _ e Hentry). cbn. f_equal. apply alter_const.
Qed.

End table.

Lemma step_run {S A B} (m : step (S := S) A) (f : A -> step B) c c' x : m c = (c', Ok x) -> (m ≫= f) c = f x c'.
Proof. intros Hm. unfold mbind, step_bind. by rewrite Hm. Qed.

(** A loop whose steps keep an invariant. *)
Lemma each_step_inv {S A B} (f : A -> B -> step (S := S) A) (P : list B -> A -> ExecContext S -> Prop) a l c :
  P [] a c ->
  (forall pre x a c, P pre a c -> (exists suf, l = pre ++ x :: suf) -> exists a' c', f a x c = (c', Ok a') /\ P (pre ++ [x]) a' c') ->
  exists a' c', each_step f a l c = (c', Ok a') /\ P l a' c'.
Proof.
  intros H0 Hstep. enough (forall pre suf a c, l = pre ++ suf -> P pre a c -> exists a' c', each_step f a suf c = (c', Ok a') /\ P l a' c') as Hall
    by (by apply (Hall [] l)).
  intros pre suf; revert pre; induction suf as [|x suf IH]; intros pre a1 c1 Hl HP; cbn [each_step].
  - exists a1, c1. split; [done|]. rewrite Hl, app_nil_r. done.
  - destruct (Hstep pre x a1 c1 HP) as (a2 & c2 & Hf & HP'); [eauto|]. rewrite (step_run _ _ _ _ _ Hf).
    apply (IH (pre ++ [x])); [by rewrite <- app_assoc|done].
Qed.

(** ** DELETE: the rows that match *)

Section delete.
Context {S : Type} {BSops : BlockStore S} {BSlaws : BlockStoreLaws S} (F : FPU).
Context (c0 : Catalog) (t : TableRef) (e : TableCatalogEntry) (tx : Transaction) (predicate : option LogicalExpr) (ids : list nat).
Hypothesis Hentry : entry_at c0 t = Some e.

(** A row group of the table with these columns. *)
Record group_fit (s : S) (rg : RowGroup) (cols : list (list (option cell))) : Prop := {
  gf_rep : rg_rep s rg cols;
  gf_types : type_ <$> column_chunks_ rg = ColumnTypes e;
  gf_small : (Z.of_nat (row_count_ rg) < 2 ^ 32)%Z;
}.

Definition row_matches_where (cols : list (list (option cell))) (o : nat) : bool :=
  match predicate with Some p => row_passes F p (table_row ids cols o) | None => true end.

Definition hit (rg : RowGroup) (cols : list (list (option cell))) (o : nat) : bool := sees tx rg o && row_matches_where cols o.

(** The offsets of the matching rows of a range. *)
Definition hits (rg : RowGroup) (cols : list (list (option cell))) (off n : nat) : list Z :=
  row_key <$> filter (fun o => hit rg cols o = true) (seq off n).

(** The predicate is a typed condition with a value on every visible row of a
    range. *)
Definition where_on (rg : RowGroup) (cols : list (list (option cell))) (off n : nat) : Prop :=
  match predicate with
  | Some p => filter_ok (table_type (ColumnTypes e) <$> ids) p /\
      Forall (fun r => is_Some (eval_row F p r)) (seen_rows ids tx rg cols off n)
  | None => True
  end.
Definition where_ok (rg : RowGroup) (cols : list (list (option cell))) : Prop := where_on rg cols 0 (row_count_ rg).

Lemma seen_rows_sub rg cols off n off' n' r :
  off' <= off -> off + n <= off' + n' -> r ∈ seen_rows ids tx rg cols off n -> r ∈ seen_rows ids tx rg cols off' n'.
Proof.
  intros H1 H2 Hr. unfold seen_rows in *. apply list_elem_of_fmap in Hr as (i & -> & Hi). apply list_elem_of_fmap_2.
  apply list_elem_of_filter in Hi as [Hs Hi]. apply elem_of_seq in Hi. apply list_elem_of_filter. split; [done|apply elem_of_seq; lia].
Qed.

Lemma where_on_sub rg cols off n off' n' : off' <= off -> off + n <= off' + n' -> where_on rg cols off' n' -> where_on rg cols off n.
Proof.
  unfold where_on. destruct predicate as [p|]; [|done]. intros H1 H2 [Hp Hd]. split; [done|]. rewrite Forall_forall in Hd.
  apply Forall_forall. intros r Hr. apply Hd. by eapply seen_rows_sub.
Qed.

Definition marked (rg : RowGroup) (os : list Z) : RowGroup := on_version (fun vi => foldl (fun vi o => MarkDeleted vi o (tx_id tx)) vi os) rg.

Hypothesis Hids : Forall (fun c => c < length (tbl_columns e)) ids.

(** The hits of a range among the visible rows of the batch. *)
Lemma hits_filter rg cols off n :
  filter (fun o => hit rg cols o = true) (seq off n) = Nat.add off <$>
    filter (fun i => row_matches_where cols (off + i) = true) (selection (version_info_ rg) off n (tx_id tx) (start_time tx)).
Proof.
  unfold hit, sees, selection. replace (seq off n) with (Nat.add off <$> seq 0 n) by by rewrite fmap_add_seq, Nat.add_0_r.
  induction (seq 0 n) as [|j js IH]; [done|]. rewrite fmap_cons, !filter_cons.
  destruct (IsVisible (version_info_ rg) (row_key (off + j)) (tx_id tx) (start_time tx)); cbn [andb];
    [|rewrite !decide_False by done; apply IH].
  rewrite (decide_True (P := true = true)) by done. rewrite filter_cons.
  destruct (row_matches_where cols (off + j)); [rewrite !decide_True by done; rewrite !fmap_cons, IH; done|].
  rewrite !decide_False by done. apply IH.
Qed.

Lemma hits_selection rg cols off n :
  hits rg cols off n = (fun i => row_key (off + i)) <$>
    filter (fun i => row_matches_where cols (off + i) = true) (selection (version_info_ rg) off n (tx_id tx) (start_time tx)).
Proof. unfold hits. rewrite hits_filter, <- list_fmap_compose. done. Qed.

Lemma matching_hits rg cols off n chunk :
  let sel := selection (version_info_ rg) off n (tx_id tx) (start_time tx) in
  where_on rg cols off n -> n <= STANDARD_VECTOR_SIZE -> chunk_wf chunk -> ch_count chunk = length sel ->
  dv_rows <$> columns chunk = visible_rows (version_info_ rg) (tx_id tx) (start_time tx) off n <$> (col_of cols <$> ids) ->
  col_types chunk = table_type (ColumnTypes e) <$> ids ->
  exists ms, matching_rows F predicate chunk = Ok ms /\
    (fun m => ((fun i => row_key (off + i)) <$> sel) !! m) <$> ms = Some <$> hits rg cols off n /\
    Forall (fun m => m < length sel) ms /\
    (fun m => off + default 0 (sel !! m)) <$> ms = filter (fun o => hit rg cols o = true) (seq off n).
Proof.
  intros sel Hw Hn Hwf Hc Hr Hty. set (P := fun i => row_matches_where cols (off + i)).
  assert (filter (fun i => row_matches_where cols (off + i) = true) sel =
      (fun j => default 0 (sel !! j)) <$> filter (fun j => P (default 0 (sel !! j)) = true) (seq 0 (length sel))) as Hpick
      by (symmetry; exact (pick_filter P sel 0)).
  assert (Forall (fun m => m < length sel) (filter (fun j => P (default 0 (sel !! j)) = true) (seq 0 (length sel)))) as Hlt.
  { apply Forall_forall. intros m Hm. apply list_elem_of_filter in Hm as [_ Hm]. apply elem_of_seq in Hm. lia. }
  exists (filter (fun j => P (default 0 (sel !! j)) = true) (seq 0 (length sel))). split; [|split; [|split; [done|]]].
  - unfold matching_rows, P, row_matches_where, where_on in *. destruct predicate as [p|].
    + destruct Hw as [[Hp1 Hp2] Hd]. rewrite <- list_fmap_compose in Hr. rewrite EvaluatePredicate_Ok; try done.
      * f_equal. rewrite Hc. apply filter_seq_ext. intros j Hj. f_equal.
        apply (row_at_of_columns chunk (fun c i => ColumnChunk.row_at (col_of cols c) (off + i)) ids sel); done.
      * rewrite Hc. etrans; [apply length_selection|done].
      * by rewrite Hty.
      * unfold defined_on. rewrite (chunk_rows_of_columns chunk (fun c i => ColumnChunk.row_at (col_of cols c) (off + i)) ids sel) by done.
        rewrite Forall_forall in Hd. apply Forall_forall. intros r Hin. apply Hd. apply list_elem_of_fmap in Hin as (i & -> & Hi).
        unfold sel, selection in Hi. apply list_elem_of_filter in Hi as [Hv Hi]. apply elem_of_seq in Hi.
        unfold seen_rows. apply (list_elem_of_fmap_2' _ _ (off + i)); [|done]. apply list_elem_of_filter. split; [done|apply elem_of_seq; lia].
    + f_equal. rewrite Hc. symmetry. apply filter_all. by apply Forall_true.
  - rewrite hits_selection. fold sel. rewrite Hpick, <- !list_fmap_compose. apply list_fmap_ext. intros k m Hm. cbn.
    pose proof (Forall_lookup_1 _ _ _ _ Hlt Hm) as Hml. cbn in Hml. rewrite list_lookup_fmap.
    destruct (lookup_lt_is_Some_2 sel m Hml) as [x Hx]. by rewrite Hx.
  - rewrite hits_filter. fold sel. rewrite Hpick, <- list_fmap_compose. done.
Qed.

(** The markers of one batch, one row after the other. *)
Lemma marked_snoc rg os o : on_version (fun vi => MarkDeleted vi o (tx_id tx)) (marked rg os) = marked rg (os ++ [o]).
Proof. unfold marked, on_version, with_version. cbn. by rewrite foldl_app. Qed.

Lemma marked_count rg os : row_count_ (marked rg os) = row_count_ rg.
Proof. done. Qed.

Lemma marked_nil rg : marked rg [] = rg.
Proof. by destruct rg. Qed.

Lemma marked_app rg os os' : marked (marked rg os) os' = marked rg (os ++ os').
Proof. unfold marked, on_version, with_version. cbn. by rewrite foldl_app. Qed.

Lemma delete_rows_run (s : S) rgs g rg offsets acc ms os :
  rgs !! g = Some rg -> (fun m => offsets !! m) <$> ms = Some <$> os ->
  each_step (delete_row t g offsets) acc ms (at_groups c0 t s rgs tx) =
    (at_groups c0 t s (<[g := marked rg os]> rgs) tx, Ok (acc ++ (MakeRowId (row_key g) <$> os))).
Proof.
  intros Hg Hms.
  destruct (each_step_inv (delete_row t g offsets) (fun pre a c => c = at_groups c0 t s (<[g := marked rg (take (length pre) os)]> rgs) tx /\
      a = acc ++ (MakeRowId (row_key g) <$> take (length pre) os)) acc ms (at_groups c0 t s rgs tx)) as (a' & c' & -> & -> & ->).
  - cbn [length]. rewrite take_0, marked_nil, list_insert_id, fmap_nil, app_nil_r by done. done.
  - intros pre m a c [-> ->] [suf ->]. rewrite fmap_app, fmap_cons in Hms.
    assert (exists o, offsets !! m = Some o /\ os !! length pre = Some o) as (o & Ho & Hos).
    { assert ((Some <$> os) !! length pre = Some (offsets !! m)) as Hl by (rewrite <- Hms, lookup_app_r, length_fmap, Nat.sub_diag by (by rewrite length_fmap); done).
      rewrite list_lookup_fmap in Hl. apply fmap_Some in Hl as (o & Ho & Heq). exists o. done. }
    assert (g < length rgs) as Hlt by (by eapply lookup_lt_Some).
    unfold delete_row. rewrite (step_run _ _ _ (at_groups c0 t s (<[g:=marked rg (take (length pre) os)]> rgs) tx) o) by (unfold pure_r; by rewrite Ho).
    rewrite (step_run _ _ _ _ _ (read_group_at c0 t e Hentry s _ tx g (marked rg (take (length pre) os)) ltac:(by rewrite list_lookup_insert_eq))).
    rewrite (step_run current _ _ _ _ eq_refl). cbn [ex_tx at_groups].
    rewrite (step_run _ _ _ _ _ (write_group_at c0 t e Hentry s _ tx g _)). do 2 eexists. split; [done|].
    rewrite length_app. cbn [length]. rewrite Nat.add_1_r, (take_S_r _ _ _ Hos), list_insert_insert_eq, marked_snoc. split; [done|].
    rewrite fmap_app, app_assoc. done.
  - assert (length ms = length os) as -> by (apply (f_equal length) in Hms; by rewrite !length_fmap in Hms). by rewrite firstn_all.
Qed.

(** Markers at other offsets do not change what is seen. *)
Lemma MarkDeleted_markers vi o u : markers_ (MarkDeleted vi o u) = <[o := mkMarker DELETE u INVALID_TIMESTAMP]> (markers_ vi).
Proof. unfold MarkDeleted. by destruct (markers_ vi !! o). Qed.

Lemma marked_markers rg os o :
  markers_ (version_info_ (marked rg os)) !! o =
    if decide (o ∈ os) then Some (mkMarker DELETE (tx_id tx) INVALID_TIMESTAMP) else markers_ (version_info_ rg) !! o.
Proof.
  unfold marked. cbn. generalize (version_info_ rg). induction os as [|x os IH] using rev_ind; intros vi; [done|].
  rewrite foldl_app. cbn [foldl]. rewrite MarkDeleted_markers. destruct (decide (x = o)) as [->|Hne].
  - rewrite lookup_insert_eq, decide_True; [done|]. apply elem_of_app. right. apply list_elem_of_here.
  - rewrite lookup_insert_ne by done. rewrite IH. destruct (decide (o ∈ os)).
    + rewrite decide_True; [done|]. apply elem_of_app. by left.
    + rewrite decide_False; [done|]. rewrite elem_of_app, list_elem_of_singleton. intros [?|?]; congruence.
Qed.

Lemma row_key_inj i j : (Z.of_nat i < 2 ^ 32)%Z -> (Z.of_nat j < 2 ^ 32)%Z -> row_key i = row_key j -> i = j.
Proof. intros Hi Hj. rewrite !row_key_small by done. lia. Qed.

Lemma hits_bounds rg cols off n o :
  o ∈ hits rg cols off n -> exists i, o = row_key i /\ off <= i < off + n /\ hit rg cols i = true.
Proof. intros Ho. apply list_elem_of_fmap in Ho as (i & -> & Hi). apply list_elem_of_filter in Hi as [Hh Hi]. apply elem_of_seq in Hi. eauto. Qed.

Lemma sees_marked rg cols off n i :
  (Z.of_nat (off + n) < 2 ^ 32)%Z -> (Z.of_nat i < 2 ^ 32)%Z -> off + n <= i -> sees tx (marked rg (hits rg cols off n)) i = sees tx rg i.
Proof.
  intros Hsm Hi Hge. unfold sees, IsVisible. rewrite marked_markers, decide_False; [done|].
  intros Hin. apply hits_bounds in Hin as (j & Hj & Hb & _). apply row_key_inj in Hj; lia.
Qed.

Lemma hits_marked rg cols off n n' :
  (Z.of_nat (off + n + n') < 2 ^ 32)%Z -> hits (marked rg (hits rg cols off n)) cols (off + n) n' = hits rg cols (off + n) n'.
Proof.
  intros Hsm. unfold hits at 1 3. f_equal. apply filter_ext_Forall, Forall_forall. intros i Hi%elem_of_seq. unfold hit. by rewrite sees_marked by lia.
Qed.

Lemma hits_app rg cols off n n' : hits rg cols off (n + n') = hits rg cols off n ++ hits rg cols (off + n) n'.
Proof. unfold hits. by rewrite seq_app, filter_app, fmap_app. Qed.

Lemma group_fit_marked s rg cols os : group_fit s rg cols -> group_fit s (marked rg os) cols.
Proof. intros [[Hs HF Hl Hnd] Ht Hsm]. by repeat split. Qed.

Lemma group_fit_view s s' rg cols : same_view s s' -> group_fit s rg cols -> group_fit s' rg cols.
Proof. intros Hv [Hr Ht Hsm]. split; [by eapply same_view_rep|done|done]. Qed.

Lemma where_ok_marked rg cols off n :
  (Z.of_nat (row_count_ rg) < 2 ^ 32)%Z -> off + n <= row_count_ rg -> where_ok rg cols -> where_ok (marked rg (hits rg cols off n)) cols.
Proof.
  intros Hsm Hle. unfold where_ok, where_on. destruct predicate as [p|] eqn:Ep; [|done]. intros [Hp Hd]. split; [done|].
  rewrite Forall_forall in Hd. apply Forall_forall. intros r Hr. apply Hd. unfold seen_rows in *.
  apply list_elem_of_fmap in Hr as (i & -> & Hi). apply list_elem_of_fmap_2. apply list_elem_of_filter in Hi as [Hs Hi].
  apply list_elem_of_filter. split; [|done]. unfold sees, IsVisible in *. rewrite marked_markers in Hs.
  destruct (decide _) as [Hin|]; [|done]. unfold marker_visible in Hs. cbn in Hs. by rewrite Z.eqb_refl in Hs.
Qed.

(** The batches of a group from [off] on. *)
Lemma delete_batches_run fuel : forall (s : S) rgs g rg cols off acc,
  rgs !! g = Some rg -> group_fit s rg cols -> where_ok rg cols -> off <= row_count_ rg -> row_count_ rg - off < fuel ->
  exists s', delete_batches F fuel t g predicate ids off acc (at_groups c0 t s rgs tx) =
      (at_groups c0 t s' (<[g := marked rg (hits rg cols off (row_count_ rg - off))]> rgs) tx,
       Ok (acc ++ (MakeRowId (row_key g) <$> hits rg cols off (row_count_ rg - off)))) /\
    same_view s s'.
Proof.
  induction fuel as [|fuel IH]; intros s rgs g rg cols off acc Hg Hfit Hw Hoff Hfuel; [lia|].
  cbn [delete_batches]. rewrite (step_run _ _ _ _ _ (read_group_at c0 t e Hentry s rgs tx g rg Hg)).
  destruct (Nat.ltb_spec off (row_count_ rg)) as [Hlt|Hge].
  2: { replace (row_count_ rg - off) with 0 by lia. exists s. cbn. rewrite marked_nil, list_insert_id, app_nil_r by done.
       split; [done|]. split; [apply Hfit|done]. }
  pose proof Hfit as [Hrep Hty Hsm]. rewrite (step_run current _ _ _ _ eq_refl).
  set (n := Nat.min STANDARD_VECTOR_SIZE (row_count_ rg - off)).
  assert (length cols = length (tbl_columns e)) as Hlc.
  { destruct Hrep as [_ HF _ _]. apply Forall2_length in HF. rewrite <- HF, <- (length_fmap type_ (column_chunks_ rg)), Hty. apply length_fmap. }
  destruct (ScanBatchWithOffsets_Ok s rg cols off ids (mkChunk [] 0) [] (tx_id tx) (start_time tx) Hrep Hlt) as
    (s1 & chunk & Hscan & Hr & Hv & Hc & Hwf & Hct); [by rewrite Hlc|]. fold n in Hscan, Hr, Hc.
  erewrite step_run by (unfold storage; cbn [at_groups ex_store ex_tx]; rewrite Hscan; reflexivity).
  change (mkExec s1 (ex_catalog (at_groups c0 t s rgs tx)) tx) with (at_groups c0 t s1 rgs tx). cbn beta iota.
  assert (group_fit s1 rg cols) as Hfit1 by (by eapply group_fit_view).
  destruct (matching_hits rg cols off n chunk) as (ms & Hms & Hos & _); [eapply where_on_sub; [| |exact Hw]; lia|lia|done|done|done| |].
  { rewrite Hct. apply list_fmap_ext. intros i c _. unfold col_type, table_type. rewrite <- Hty, list_lookup_fmap. by destruct (column_chunks_ rg !! c). }
  assert (forall s2 rgs2 acc2, rgs2 !! g = Some (marked rg (hits rg cols off n)) -> same_view s s2 ->
    exists s', delete_batches F fuel t g predicate ids (off + n) acc2 (at_groups c0 t s2 rgs2 tx) =
      (at_groups c0 t s' (<[g := marked rg (hits rg cols off (row_count_ rg - off))]> rgs2) tx,
       Ok (acc2 ++ (MakeRowId (row_key g) <$> hits rg cols (off + n) (row_count_ rg - (off + n))))) /\ same_view s s') as Hnext.
  { intros s2 rgs2 acc2 Hg2 Hv2.
    destruct (IH s2 rgs2 g (marked rg (hits rg cols off n)) cols (off + n) acc2 Hg2) as (s' & Hrun & Hv').
    - apply group_fit_marked. by eapply group_fit_view.
    - apply where_ok_marked; [done|lia|done].
    - rewrite marked_count. lia.
    - assert (1 <= n) by (unfold n, STANDARD_VECTOR_SIZE; lia). rewrite marked_count. lia.
    - exists s'. split; [|by eapply same_view_trans]. rewrite Hrun.
      rewrite marked_count, marked_app, hits_marked by lia. do 2 f_equal. rewrite <- hits_app. do 3 f_equal. lia. }
  rewrite Hc. destruct (Nat.eqb_spec (length (selection (version_info_ rg) off n (tx_id tx) (start_time tx))) 0) as [H0|H0].
  - apply length_zero_iff_nil in H0. assert (hits rg cols off n = []) as Hnil by (rewrite hits_selection, H0; done).
    destruct (Hnext s1 rgs acc) as (s' & Hrun & Hv'); [by rewrite Hnil, marked_nil|done|]. exists s'. split; [|done]. rewrite Hrun.
    do 4 f_equal. replace (row_count_ rg - off) with (n + (row_count_ rg - (off + n))) by lia. by rewrite hits_app, Hnil.
  - rewrite (step_run _ _ _ (at_groups c0 t s1 rgs tx) ms) by (unfold pure_r; by rewrite Hms).
    rewrite (step_run _ _ _ _ _ (delete_rows_run s1 rgs g rg _ acc ms (hits rg cols off n) Hg Hos)).
    destruct (Hnext s1 (<[g := marked rg (hits rg cols off n)]> rgs) (acc ++ (MakeRowId (row_key g) <$> hits rg cols off n))) as (s' & Hrun & Hv');
      [rewrite list_lookup_insert_eq; [done|by eapply lookup_lt_Some]|done|]. exists s'. split; [|done]. rewrite Hrun, list_insert_insert_eq.
    do 2 f_equal. replace (row_count_ rg - off) with (n + (row_count_ rg - (off + n))) by lia. by rewrite hits_app, fmap_app, app_assoc.
Qed.

(** ** All groups *)

Definition group_hits (rg : RowGroup) (cols : list (list (option cell))) : list Z := hits rg cols 0 (row_count_ rg).

(** Over the groups and their columns. *)
Definition deleted_groups (ps : list (RowGroup * list (list (option cell)))) : list RowGroup :=
  (fun p => marked p.1 (group_hits p.1 p.2)) <$> ps.

Definition deleted_ids (ps : list (RowGroup * list (list (option cell)))) : list Z :=
  concat (imap (fun g p => MakeRowId (row_key g) <$> group_hits p.1 p.2) ps).

Lemma deleted_ids_snoc ps p : deleted_ids (ps ++ [p]) = deleted_ids ps ++ (MakeRowId (row_key (length ps)) <$> group_hits p.1 p.2).
Proof. unfold deleted_ids. rewrite imap_app, concat_app. cbn. rewrite app_nil_r, Nat.add_0_r. done. Qed.

Lemma delete_groups_run (s : S) ps :
  row_groups e = ps.*1 -> Forall (fun p => group_fit s p.1 p.2 /\ where_ok p.1 p.2) ps -> same_view s s ->
  exists s', each_step (delete_group F t predicate ids) [] (seq 0 (length (row_groups e))) (mkExec s c0 tx) =
      (at_groups c0 t s' (deleted_groups ps) tx, Ok (deleted_ids ps)) /\ same_view s s'.
Proof.
  intros Hps Hall Hsv. rewrite <- (at_groups_start c0 t e Hentry).
  destruct (each_step_inv (delete_group F t predicate ids)
    (fun pre a c => exists s', c = at_groups c0 t s' (deleted_groups (take (length pre) ps) ++ (drop (length pre) ps).*1) tx /\
       a = deleted_ids (take (length pre) ps) /\ same_view s s') [] (seq 0 (length (row_groups e)))
    (at_groups c0 t s (row_groups e) tx)) as (a' & c' & Hrun & s' & -> & -> & Hv').
  - exists s. cbn [length]. rewrite take_0, drop_0, Hps. done.
  - intros pre g a c (s1 & -> & -> & Hv1) [suf Hsuf].
    assert (g = length pre /\ g < length ps) as [-> Hg].
    { assert (seq 0 (length (row_groups e)) !! length pre = Some g) as Hl by (by rewrite Hsuf, lookup_app_r, Nat.sub_diag by done).
      rewrite Hps, length_fmap in Hl. apply lookup_seq in Hl as [-> ?]. lia. }
    destruct (lookup_lt_is_Some_2 _ _ Hg) as [[rg cols] Hp]. destruct (Forall_lookup_1 _ _ _ _ Hall Hp) as [Hfg Hwg]. cbn [fst snd] in *.
    set (k := length pre) in *. set (rgs := deleted_groups (take k ps) ++ (drop k ps).*1).
    assert (length (deleted_groups (take k ps)) = k) as Hk by (unfold deleted_groups; rewrite length_fmap, length_take; lia).
    assert (rgs !! k = Some rg) as Hrk.
    { unfold rgs. rewrite lookup_app_r by lia. rewrite Hk, Nat.sub_diag, list_lookup_fmap, lookup_drop, Nat.add_0_r, Hp. done. }
    unfold delete_group. rewrite (step_run _ _ _ _ _ (read_group_at c0 t e Hentry s1 rgs tx k rg Hrk)).
    destruct (delete_batches_run (Datatypes.S (row_count_ rg)) s1 rgs k rg cols 0 (deleted_ids (take k ps)) Hrk) as (s2 & Hrun & Hv2);
      [by eapply group_fit_view|done|lia|lia|]. rewrite Nat.sub_0_r in Hrun.
    do 2 eexists. split; [exact Hrun|]. exists s2. rewrite length_app. cbn [length]. fold k. rewrite Nat.add_1_r, (take_S_r _ _ _ Hp).
    split_and!; [|rewrite deleted_ids_snoc, length_take, Nat.min_l by lia; done|by eapply same_view_trans].
    f_equal. unfold rgs. rewrite insert_app_r_alt, Hk, Nat.sub_diag by lia. rewrite (drop_S _ _ _ Hp). cbn.
    unfold deleted_groups. rewrite fmap_app, <- app_assoc. done.
  - exists s'. split; [|done]. rewrite Hrun. rewrite length_seq, Hps, length_fmap, firstn_all, drop_all. by rewrite app_nil_r.
Qed.

(** After the marks the transaction sees the rows that did not match. *)
Lemma seen_after_marks s rg cols :
  group_fit s rg cols ->
  seen_rows ids tx (marked rg (group_hits rg cols)) cols 0 (row_count_ rg) =
  table_row ids cols <$> filter (fun o => sees tx rg o && negb (row_matches_where cols o) = true) (seq 0 (row_count_ rg)).
Proof.
  intros [_ _ Hsm]. unfold seen_rows. f_equal. apply filter_ext_Forall, Forall_forall. intros o Ho%elem_of_seq.
  unfold sees at 1, IsVisible. rewrite marked_markers.
  assert (row_key o ∈ group_hits rg cols <-> hit rg cols o = true) as Hin.
  { split.
    - intros Hin. apply hits_bounds in Hin as (j & Hj & Hb & Hh). apply row_key_inj in Hj as ->; [done|lia..].
    - intros Hh. apply list_elem_of_fmap_2, list_elem_of_filter. split; [done|apply elem_of_seq; lia]. }
  unfold hit in Hin. destruct (decide (row_key o ∈ group_hits rg cols)) as [Hd|Hd].
  - apply Hin, andb_true_iff in Hd as [_ ->]. rewrite andb_false_r. unfold marker_visible. cbn. by rewrite Z.eqb_refl.
  - fold (IsVisible (version_info_ rg) (row_key o) (tx_id tx) (start_time tx)). change (IsVisible _ _ _ _) with (sees tx rg o).
    destruct (sees tx rg o); [|done]. destruct (row_matches_where cols o); [|done]. exfalso. by apply Hd, Hin.
Qed.

End delete.

Lemma GetTable_entry c schema table tx i e : GetTable c schema table tx = Some (i, e) -> entry_at c (mkRef schema table i) = Some e.
Proof.
  rewrite GetTable_eq. unfold entry_at, table_versions. cbn [ref_schema ref_table ref_pos]. destruct (GetSchema c schema) as [s|]; [|done].
  intros Hl. by apply last_visible_Some in Hl as [Hl _].
Qed.

Lemma need_table_run {S} (c : ExecContext S) schema table what i e :
  GetTable (ex_catalog c) schema table (ex_tx c) = Some (i, e) -> need_table schema table what c = (c, Ok (mkRef schema table i)).
Proof. intros Hg. unfold need_table. rewrite (step_run current _ _ _ _ eq_refl), Hg. done. Qed.

Lemma read_table_run {S} (c : ExecContext S) t e : entry_at (ex_catalog c) t = Some e -> read_table t c = (c, Ok e).
Proof. intros He. unfold read_table. rewrite (step_run current _ _ _ _ eq_refl). unfold pure_r. by rewrite He. Qed.

(** C23: DELETE whose WHERE is well typed and has a value on every row its
    transaction sees marks exactly the rows that the transaction sees and whose
    WHERE is true, in every row group, and logs their row numbers in one undo
    record; nothing else of the table changes, and afterwards the transaction
    sees the other rows in their order. *)
Theorem delete_marks_matching {S} `{BlockStoreLaws S} F (c : ExecContext S) schema table predicate i e ps :
  let tx := ex_tx c in
  let ids := seq 0 (length (tbl_columns e)) in
  GetTable (ex_catalog c) schema table tx = Some (i, e) -> row_groups e = ps.*1 -> bs_ok (ex_store c) ->
  Forall (fun p => group_fit e (ex_store c) p.1 p.2 /\ where_ok F e tx predicate ids p.1 p.2) ps ->
  let gone := deleted_ids F tx predicate ids ps in
  exists s', Delete F schema table predicate c =
      (mkExec s' (put_groups (mkRef schema table i) (deleted_groups F tx predicate ids ps) (ex_catalog c))
         (match gone with [] => tx | _ :: _ => log_change tx (UndoDelete (mkDeleteUndo schema table gone)) end), Ok tt) /\
    same_view (ex_store c) s' /\
    Forall (fun p => seen_rows ids tx (marked tx p.1 (group_hits F tx predicate ids p.1 p.2)) p.2 0 (row_count_ p.1) =
      table_row ids p.2 <$> filter (fun o => sees tx p.1 o && negb (row_matches_where F predicate ids p.2 o) = true) (seq 0 (row_count_ p.1))) ps.
Proof.
  intros tx ids Hg Hps Hok Hall gone. pose proof (GetTable_entry _ _ _ _ _ _ Hg) as He. unfold Delete.
  rewrite (step_run _ _ _ _ _ (need_table_run c schema table "DELETE" i e Hg)), (step_run _ _ _ _ _ (read_table_run c _ e He)).
  set (t := mkRef schema table i). set (scan := match predicate with Some _ => _ | None => _ end).
  destruct c as [s cat tx0]. cbn [ex_store ex_catalog ex_tx] in *. subst tx.
  assert (Forall (fun c => c < length (tbl_columns e)) scan) as Hscan.
  { unfold scan. destruct predicate; [|constructor]. apply Forall_forall. intros x Hx%elem_of_seq. lia. }
  destruct (delete_groups_run F cat t e tx0 predicate scan He Hscan s ps Hps) as (s' & Hrun & Hv).
  { eapply Forall_impl; [exact Hall|]. intros p [Hf Hw]. split; [done|]. unfold scan, where_ok, where_on in *. by destruct predicate. }
  { by split. }
  assert (deleted_ids F tx0 predicate scan ps = gone /\ deleted_groups F tx0 predicate scan ps = deleted_groups F tx0 predicate ids ps) as [Hi Hd].
  { unfold gone, scan. by destruct predicate. }
  rewrite Hi, Hd in Hrun. rewrite (step_run _ _ _ _ _ Hrun). exists s'. split; [by destruct gone|]. split; [done|].
  eapply Forall_impl; [exact Hall|]. intros p [Hf Hw]. by eapply seen_after_marks.
Qed.

(** ** INSERT into a table without partitions *)

Lemma marks_in vi ks k tx : k ∈ ks -> markers_ (marks vi ks tx) !! k = Some (mkMarker INSERT tx INVALID_TIMESTAMP).
Proof.
  revert vi. induction ks as [|x ks IH]; intros vi Hk; [by apply not_elem_of_nil in Hk|]. cbn [marks foldl]. destruct (decide (k ∈ ks)) as [Hin|Hin].
  - by apply IH.
  - apply elem_of_cons in Hk as [->|]; [|done]. change (foldl _ ?v ks) with (marks v ks tx). rewrite marks_lookup by done. apply lookup_insert_eq.
Qed.

Section insert.
Context {S : Type} {BSops : BlockStore S} {BSlaws : BlockStoreLaws S}.

(** The group after an append that stays in the pending vectors: its rows, and
    who sees the new ones. *)
Record appended (s : S) (rg : RowGroup) (cols : list (list (option cell))) (chunk : DataChunk) (tx : Z) (rg' : RowGroup) : Prop := {
  ap_rep : rg_rep s rg' (zip_with (grown (ch_count chunk)) cols (columns chunk));
  ap_count : row_count_ rg' = row_count_ rg + ch_count chunk;
  ap_new : forall o u start, row_count_ rg <= o < row_count_ rg' ->
    IsVisible (version_info_ rg') (row_key o) u start = bool_decide (tx = u);
  ap_old : forall o u start, o < row_count_ rg -> IsVisible (version_info_ rg') (row_key o) u start = IsVisible (version_info_ rg) (row_key o) u start;
}.

Lemma Append_fits (s : S) rg cols chunk tx :
  rg_rep s rg cols -> Forall2 (fits_col (ch_count chunk)) (column_chunks_ rg) (columns chunk) ->
  tx <> INVALID_TRANSACTION -> (Z.of_nat (row_count_ rg + ch_count chunk) < 2 ^ 32)%Z ->
  exists rg', Append s rg chunk (seq 0 (length (column_chunks_ rg))) tx = Ok (s, rg') /\ appended s rg cols chunk tx rg'.
Proof.
  intros [Hok HF Hl Hnd] HC Htx Hmax. unfold Append.
  destruct (append_columns_fits s (ch_count chunk) (column_chunks_ rg) cols (columns chunk) [] HF HC) as (ccs & Heq & Hsegs & HFc).
  simpl in Heq. rewrite Heq. cbn [mbind result_bind]. rewrite (proj2 (Z.eqb_neq _ _) Htx). eexists. split; [done|]. split.
  - split; cbn [column_chunks_ row_count_]; [done|done| |by rewrite (same_segments_ids (column_chunks_ rg))].
    pose proof (Forall2_length _ _ _ HF) as H1. pose proof (Forall2_length _ _ _ HC) as H2. rewrite Forall_forall in Hl.
    apply Forall_lookup. intros k col Hk. apply lookup_zip_with_Some in Hk as (r & v & -> & Hr & Hv).
    unfold grown. rewrite length_app, length_fmap, length_seq. f_equal. apply Hl. by eapply list_elem_of_lookup_2.
  - done.
  - cbn [row_count_ version_info_]. intros o u start Ho. unfold IsVisible. rewrite mark_inserted_rows_marks, marks_in.
    + unfold marker_visible. cbn. destruct (Z.eqb_spec tx u); by case_bool_decide.
    + apply list_elem_of_fmap_2, elem_of_seq. lia.
  - cbn [row_count_ version_info_]. intros o u start Ho. unfold IsVisible. rewrite mark_inserted_rows_marks, marks_lookup; [done|].
    intros Hin. apply list_elem_of_fmap in Hin as (j & Hj & Hin%elem_of_seq). apply row_key_inj in Hj; lia.
Qed.

(** C32: INSERT of a non-empty batch into all columns, in order, of an
    unpartitioned table appends its rows to the last row group with room, or to
    a new one, and logs an undo record with their position; the transaction sees
    them, no other does, and the older rows keep their visibility; for batches
    that stay in the pending vectors (pending rows and batch together at most
    1024, so that no segment is flushed), with well-formed columns of the
    table's types, a row group below 2^32 rows and a transaction with an id. *)
Theorem insert_appends_rows {IO : InsertOrder} (hashes : Hashes) (c : ExecContext S) schema table chunk i e e' g rg cols :
  GetTable (ex_catalog c) schema table (ex_tx c) = Some (i, e) -> IsPartitioned (partition_info e) = false ->
  GetOrAddRowGroup e = (e', g) -> row_groups e' !! g = Some rg -> rg_rep (ex_store c) rg cols ->
  Forall2 (fits_col (ch_count chunk)) (column_chunks_ rg) (columns chunk) -> ch_count chunk <> 0 ->
  tx_id (ex_tx c) <> INVALID_TRANSACTION -> (Z.of_nat (row_count_ rg + ch_count chunk) < 2 ^ 32)%Z ->
  exists rg', Insert_batch hashes schema table (seq 0 (length (column_chunks_ rg))) chunk c =
      (mkExec (ex_store c) (put_groups (mkRef schema table i) (<[g := rg']> (row_groups e')) (ex_catalog c))
         (log_change (ex_tx c) (UndoInsert (mkInsertUndo schema table g (row_count_ rg) (ch_count chunk) chunk))), Ok tt) /\
    appended (ex_store c) rg cols chunk (tx_id (ex_tx c)) rg'.
Proof.
  intros Hg Hp Hget Hrg Hrep HC Hn Htx Hmax. pose proof (GetTable_entry _ _ _ _ _ _ Hg) as He. set (t := mkRef schema table i).
  destruct (Append_fits (ex_store c) rg cols chunk (tx_id (ex_tx c)) Hrep HC Htx Hmax) as (rg' & Happ & Hap).
  exists rg'. split; [|done]. unfold Insert_batch. rewrite (proj2 (Nat.eqb_neq _ _) Hn).
  rewrite (step_run _ _ _ _ _ (need_table_run c schema table "INSERT" i e Hg)). unfold DoInsertChunk.
  rewrite (step_run _ _ _ _ _ (read_table_run c _ e He)), Hp. cbn [negb]. rewrite Hget.
  assert (e' = set_row_groups e (row_groups e')) as Hsame.
  { unfold GetOrAddRowGroup in Hget. destruct (last (row_groups e)) as [r|]; [destruct (has_room r)|]; injection Hget as <- <-; by destruct e. }
  assert (write_table t (fun _ => e') c = (at_groups (ex_catalog c) t (ex_store c) (row_groups e') (ex_tx c), Ok tt)) as Hw.
  { unfold write_table, with_catalog, at_groups, put_groups. do 2 f_equal. apply (update_entry_ext _ _ _ _ _ _ e He). exact Hsame. }
  rewrite (step_run _ _ _ _ _ Hw). unfold append_logged.
  rewrite (step_run _ _ _ _ _ (read_group_at _ t e He _ _ _ g rg Hrg)), (step_run current _ _ _ _ eq_refl).
  erewrite step_run by (unfold storage; cbn [at_groups ex_store ex_tx]; rewrite Happ; reflexivity).
  change (mkExec (ex_store c) (ex_catalog (at_groups (ex_catalog c) t (ex_store c) (row_groups e') (ex_tx c))) (ex_tx c))
    with (at_groups (ex_catalog c) t (ex_store c) (row_groups e') (ex_tx c)).
  by rewrite (step_run _ _ _ _ _ (write_group_at _ t e He _ _ _ g rg')).
Qed.

End insert.

(** ** Examples *)

Definition dml_catalog : Catalog := mkCatalog {["main"%string := mkSchema "main" {["t"%string := [scan_entry]]}]}.
Definition dml_context : ExecContext BufferManager := mkExec sample_bm dml_catalog scan_tx.

(** [DELETE FROM t WHERE a > 1000] *)
Lemma delete_marks_matching_witness :
  exists s' rgs', Delete sample_FPU "main" "t" (Some scan_filter) dml_context =
      (mkExec s' (put_groups (mkRef "main" "t" 0) rgs' dml_catalog)
         (log_change scan_tx (UndoDelete (mkDeleteUndo "main" "t" [2%Z]))), Ok tt) /\
    seen_rows [0; 1; 2] scan_tx (marked scan_tx scan_rg [2%Z]) scan_cols 0 5 =
      [[Some (CInt 1000); Some (CInt 7); Some (CStr "p")]; [Some (CInt 5); Some (CInt 8); Some (CStr "s")]; [None; Some (CInt 9); Some (CStr "t")]].
Proof.
  destruct (delete_marks_matching sample_FPU dml_context "main" "t" (Some scan_filter) 0 scan_entry [(scan_rg, scan_cols)]) as (s' & Hrun & _ & Hseen).
  - vm_compute. reflexivity.
  - reflexivity.
  - apply sample_bm_ok.
  - constructor; [|constructor]. destruct scan_group_ok as [Hr _ Ht _ Hsm]. split; [by split|]. split; [repeat constructor|].
    replace (seen_rows (seq 0 (length (tbl_columns scan_entry))) (ex_tx dml_context) (scan_rg, scan_cols).1 (scan_rg, scan_cols).2 0
      (row_count_ (scan_rg, scan_cols).1)) with
      [[Some (CInt 1000); Some (CInt 7); Some (CStr "p")]; [Some (CInt 1001); Some (CInt 7); Some (CStr "r")];
       [Some (CInt 5); Some (CInt 8); Some (CStr "s")]; [None; Some (CInt 9); Some (CStr "t")]] by (vm_compute; reflexivity).
    repeat (apply Forall_cons; split; [vm_compute; eauto|]). apply Forall_nil_2.
  - replace (deleted_ids sample_FPU (ex_tx dml_context) (Some scan_filter) (seq 0 (length (tbl_columns scan_entry))) [(scan_rg, scan_cols)])
      with [2%Z] in Hrun by (vm_compute; reflexivity).
    exists s', (deleted_groups sample_FPU (ex_tx dml_context) (Some scan_filter) (seq 0 (length (tbl_columns scan_entry))) [(scan_rg, scan_cols)]).
    split; [exact Hrun|]. vm_compute. reflexivity.
Defined.

(** [INSERT INTO t VALUES (42)] into a table of one column without rows. *)
Definition insert_order : InsertOrder :=
  {| sort_rows := fun _ l => l; bucket_order := fun l => l; sort_rows_perm := fun _ l => reflexivity l; bucket_order_perm := fun l => reflexivity l |}.

Lemma insert_appends_rows_witness :
  exists rg', Insert_batch (IO := insert_order) sample_hashes "main" "t" [0] (one_row 42) (mkExec sample_bm one_table (Tx_new 3 2 true)) =
      (mkExec sample_bm (put_groups (mkRef "main" "t" 0) [rg'] one_table)
         (log_change (Tx_new 3 2 true) (UndoInsert (mkInsertUndo "main" "t" 0 0 1 (one_row 42)))), Ok tt) /\
    appended sample_bm (RG_new 0 [INT64]) [[]] (one_row 42) 3 rg'.
Proof.
  destruct (GetTable one_table "main" "t" (Tx_new 3 2 true)) as [[i e]|] eqn:Hg; [|vm_compute in Hg; discriminate].
  assert (i = 0 /\ GetOrAddRowGroup e = (set_row_groups e [RG_new 0 [INT64]], 0) /\ IsPartitioned (partition_info e) = false) as (-> & Hget & Hp).
  { vm_compute in Hg. injection Hg as <- <-. split_and!; reflexivity. }
  apply (insert_appends_rows (IO := insert_order) sample_hashes (mkExec sample_bm one_table (Tx_new 3 2 true)) "main" "t" (one_row 42) 0 e
    (set_row_groups e [RG_new 0 [INT64]]) 0 (RG_new 0 [INT64]) [[]]); try done.
  - split; [apply sample_bm_ok| |repeat constructor|constructor].
    constructor; [|constructor]. apply CC_new_rep; [apply sample_bm_ok|done].
  - constructor; [|constructor]. split_and!; [|reflexivity|vm_compute; lia|vm_compute; lia|repeat constructor; unfold is_i64; lia].
    apply dv_wf_bool; [done|vm_compute; lia|vm_compute; lia|by vm_compute].
Defined.

(** ** An UPDATE that throws *)

(** [UPDATE t SET b = TRUE]: the literal cannot be put in a vector. *)
Definition failing_update : ExecContext BufferManager * result unit :=
  Update sample_FPU "main" "t" [1] [1] [LogicalLit BOOLEAN (Value_Boolean true) false] None dml_context.

(** The first row group behind it. *)
Definition updated_group : RowGroup :=
  match entry_at (ex_catalog failing_update.1) (mkRef "main" "t" 0) with
  | Some e => default scan_rg (row_groups e !! 0)
  | None => scan_rg
  end.

(** An UPDATE marks its rows before it evaluates its expressions and logs
    them only after it has written them.  One that throws in between leaves
    markers that no undo record names: the rollback does nothing, and the rows
    are invisible to every later transaction for good. *)
Theorem failed_update_hides_rows V :
  (1 < start_time V)%Z -> tx_id V <> tx_id scan_tx -> tx_id V <> INVALID_TRANSACTION ->
  (exists e, failing_update.2 = Err e) /\ row_visible dml_catalog "main" "t" 0 V = true /\
  forall w n k act, exists s' tm' tx',
    Rollback (ex_store failing_update.1) (mkTM (ex_catalog failing_update.1) w n k act) (ex_tx failing_update.1) = Ok (s', tm', tx') /\
    row_visible (catalog_ tm') "main" "t" 0 V = false.
Proof.
  intros Hs Hid Hinv.
  assert (GetTable dml_catalog "main" "t" V = Some (0, scan_entry)) as Hget.
  { rewrite GetTable_eq. change (GetSchema dml_catalog "main") with (Some (mkSchema "main" {["t"%string := [scan_entry]]})).
    change (last_visible V [scan_entry] = Some (0, scan_entry)). cbn [last_visible]. unfold IsCatalogEntryVisible. cbn.
    rewrite (proj2 (Z.leb_gt _ _) Hs). destruct (tx_id V) as [|[]|]; try done. }
  assert (undo_buffer (ex_tx failing_update.1) = []) as Hu by (vm_compute; reflexivity).
  assert (ex_catalog failing_update.1 = on_row_group "main" "t" 0 0 (fun _ => updated_group) dml_catalog) as Hc by (vm_compute; reflexivity).
  split; [eexists; vm_compute; reflexivity|]. split; [unfold row_visible; rewrite Hget; vm_compute; reflexivity|]. intros w n k act.
  unfold Rollback, UndoBufferReverse, ForEachReverse. rewrite Hu. cbn [rev foldM mbind result_bind catalog_]. do 3 eexists. split; [reflexivity|].
  cbn [catalog_]. unfold row_visible. rewrite Hc, GetTable_on_row_group, Hget. cbn [fmap option_fmap option_map fst snd].
  rewrite decide_True by reflexivity. change (row_groups (set_row_groups scan_entry (alter (fun _ => updated_group) 0 (row_groups scan_entry))) !! (row_pos 0).1)
    with (Some updated_group). unfold IsVisible. replace (markers_ (version_info_ updated_group) !! (row_pos 0).2) with
    (Some (mkMarker UPDATE (tx_id scan_tx) INVALID_TIMESTAMP)) by (vm_compute; reflexivity).
  unfold marker_visible. cbn [mtype mtx_id mcommit_time]. rewrite (proj2 (Z.eqb_neq _ _)) by (clear -Hid; congruence). reflexivity.
Qed.

Lemma failed_update_hides_rows_witness :
  row_visible dml_catalog "main" "t" 0 (Tx_new 12 50 true) = true /\
  forall w n k act, exists s' tm' tx',
    Rollback (ex_store failing_update.1) (mkTM (ex_catalog failing_update.1) w n k act) (ex_tx failing_update.1) = Ok (s', tm', tx') /\
    row_visible (catalog_ tm') "main" "t" 0 (Tx_new 12 50 true) = false.
Proof. destruct (failed_update_hides_rows (Tx_new 12 50 true)) as (_ & H1 & H2); [reflexivity|discriminate|discriminate|]. split; [exact H1|exact H2]. Defined.

(** ** DDL *)

(** [CREATE TABLE IF NOT EXISTS] ignores every exception of the catalog, not
    only that the table is there: in a schema that does not exist it does
    nothing and succeeds. *)
Lemma create_if_not_exists_unknown_schema {S} (c : ExecContext S) schema table cols pi :
  GetSchema (ex_catalog c) schema = None -> Create_Table schema table cols true pi c = (c, Ok tt).
Proof.
  intros Hs. unfold Create_Table. rewrite (step_run current _ _ _ _ eq_refl). unfold guarded, try_step, catalog_op, mbind at 1, step_bind at 1.
  unfold CreateTable, need_schema. rewrite Hs. done.
Qed.

(** A guarded catalog operation that succeeds was done, or skipped. *)
Lemma guarded_inv {S} quiet f (c c1 : ExecContext S) b :
  guarded quiet (catalog_op f) c = (c1, Ok b) ->
  (b = true /\ exists cat, f (ex_catalog c) = Ok cat /\ c1 = mkExec (ex_store c) cat (ex_tx c)) \/ (b = false /\ c1 = c).
Proof.
  unfold guarded, try_step, catalog_op, mbind, step_bind, mret, step_ret. destruct quiet, (f (ex_catalog c)) as [cat|err] eqn:E; cbn; intros Heq.
  - simplify_eq. left. eauto.
  - destruct (is_db_exception err); simplify_eq. by right.
  - simplify_eq. left. eauto.
  - done.
Qed.

(** C34: a CREATE TABLE or DROP TABLE that succeeds, with or without its IF
    clause, as the first change of a transaction with an id, leaves an undo
    record whose rollback gives every table the versions it had and leaves the
    blocks as they are, provided that no version of that table was created by
    the transaction or carries a delete marker, of whichever transaction. With a
    delete marker of another transaction the drop of one of the two is lost
    ([concurrent_drop_lost]). *)
Theorem ddl_statement_rolls_back {S} `{BlockStore S} (c c' : ExecContext S) schema table :
  undo_buffer (ex_tx c) = [] -> tx_id (ex_tx c) <> INVALID_TRANSACTION ->
  (forall e, e ∈ table_versions (ex_catalog c) schema table ->
     create_tx_id e <> tx_id (ex_tx c) /\ delete_tx_id e = INVALID_TRANSACTION /\ delete_commit_time e = INVALID_TIMESTAMP) ->
  (exists cols quiet pi, Create_Table schema table cols quiet pi c = (c', Ok tt)) \/ (exists quiet, Drop_Table schema table quiet c = (c', Ok tt)) ->
  exists cat', UndoBufferReverse (ex_store c') (ex_tx c') (ex_catalog c') = Ok (ex_store c, cat') /\
    forall sch n, table_versions cat' sch n = table_versions (ex_catalog c) sch n.
Proof.
  intros Hu Htx Hown Hrun.
  destruct (ddl_rollback_restores (ex_catalog c) schema table (ex_tx c) Htx) as [Hcreate Hdrop];
    [intros e He; destruct (Hown e He) as (? & ? & _); done|intros e He; by apply Hown|].
  destruct Hrun as [(cols & quiet & pi & Hrun)|(quiet & Hrun)].
  - unfold Create_Table in Hrun. rewrite (step_run current _ _ _ _ eq_refl) in Hrun. unfold mbind, step_bind in Hrun.
    destruct (guarded _ _ c) as [c1 [b|]] eqn:Eg; [|done]. apply guarded_inv in Eg as [(-> & cat & Hcat & ->)|(-> & ->)].
    + unfold push_undo, with_tx in Hrun. injection Hrun as <-. cbn [ex_store ex_tx ex_catalog]. unfold UndoBufferReverse, ForEachReverse, log_change, Push.
      cbn [undo_buffer tx_id]. rewrite Hu. cbn. eexists. split; [done|]. by eapply Hcreate.
    + injection Hrun as <-. unfold UndoBufferReverse, ForEachReverse. rewrite Hu. eexists. split; [done|done].
  - unfold Drop_Table in Hrun. rewrite (step_run current _ _ _ _ eq_refl) in Hrun. unfold mbind, step_bind in Hrun.
    destruct (guarded _ _ c) as [c1 [b|]] eqn:Eg; [|done]. apply guarded_inv in Eg as [(-> & cat & Hcat & ->)|(-> & ->)].
    + unfold push_undo, with_tx in Hrun. injection Hrun as <-. cbn [ex_store ex_tx ex_catalog]. unfold UndoBufferReverse, ForEachReverse, log_change, Push.
      cbn [undo_buffer tx_id]. rewrite Hu. cbn. eexists. split; [done|]. by eapply Hdrop.
    + injection Hrun as <-. unfold UndoBufferReverse, ForEachReverse. rewrite Hu. eexists. split; [done|done].
Qed.

Lemma ddl_statement_rolls_back_witness :
  exists c' cat', Create_Table "main" "u" sample_cols false PI_none dml_context = (c', Ok tt) /\
    UndoBufferReverse (ex_store c') (ex_tx c') (ex_catalog c') = Ok (sample_bm, cat') /\
    table_versions (ex_catalog c') "main" "u" <> [] /\ table_versions cat' "main" "u" = [].
Proof.
  destruct (Create_Table "main" "u" sample_cols false PI_none dml_context) as [c' r] eqn:E.
  assert (r = Ok tt /\ table_versions (ex_catalog c') "main" "u" <> []) as [-> Hne].
  { vm_compute in E. injection E as <- <-. split; [reflexivity|]. vm_compute. discriminate. }
  destruct (ddl_statement_rolls_back dml_context c' "main" "u") as (cat' & Hr & Hv); [reflexivity|discriminate| |eauto|].
  - intros e He. replace (table_versions (ex_catalog dml_context) "main" "u") with (@nil TableCatalogEntry) in He by (vm_compute; reflexivity).
    by apply not_elem_of_nil in He.
  - exists c', cat'. split; [reflexivity|]. split; [exact Hr|]. split; [exact Hne|]. rewrite Hv. vm_compute. reflexivity.
Defined.
