(* ===== verification/DmlUpdate.v ===== *)
(** * What UPDATE does

    The operator of [execution/operator/physical_update.cpp] is modelled in [Dml];
    this file proves what it computes.  Rows are updated in place: for every batch
    of a row group the matching rows are marked, every SET clause is evaluated on
    the batch as it was before the statement, the values are written to the
    column, and the old and new values of the batch are logged in one record.

    The claim is that, when the new values can be stored, every visible row that
    matches the condition has the values of the SET clauses computed from its old
    values, that nothing else changes, that the transaction still sees the same
    rows, and that the undo buffer has the old and the new values of exactly
    those rows. *)

From Stdlib Require Import ZArith String.
From stdpp Require Import base gmap strings list fin_maps sorting.
From S2P Require Import Prelude Types Double Expr Operators VersionInfo BlockFile BufferManager ColumnChunk RowGroup PartitionInfo Transaction Schema Catalog Wal TableScan TransactionManager Dml.

Notation column_data := (list (list (option cell))).

(** ** Writing values into a column *)

(** The rows of a column with some of them replaced. *)
Definition replace_rows (f : nat -> option (option cell)) (col : list (option cell)) : list (option cell) :=
  imap (fun o x => default x (f o)) col.

Lemma lookup_replace_rows f col o : replace_rows f col !! o = (fun x => default x (f o)) <$> col !! o.
Proof. apply list_lookup_imap. Qed.

Lemma length_replace_rows f col : length (replace_rows f col) = length col.
Proof. apply length_imap. Qed.

Lemma apply_writes_lookup src ws col o :
  apply_writes src ws col !! o = (fun x => default x (last (omap (fun w => if decide (w.1 = o) then Some (dv_row src w.2) else None) ws))) <$> col !! o.
Proof.
  unfold apply_writes. induction ws as [|w ws IH] using rev_ind; [cbn; by destruct (col !! o)|].
  rewrite foldl_app, omap_app. cbn [foldl omap list_omap]. destruct (decide (w.1 = o)) as [<-|Hne].
  - rewrite last_snoc. destruct (col !! w.1) as [x|] eqn:Ex; cbn.
    + rewrite list_lookup_insert_eq; [done|]. change (foldl _ col ws) with (apply_writes src ws col).
      rewrite length_apply_writes. by eapply lookup_lt_Some.
    + apply lookup_ge_None. rewrite length_insert. change (foldl _ col ws) with (apply_writes src ws col).
      rewrite length_apply_writes. by apply lookup_ge_None.
  - rewrite list_lookup_insert_ne by done. by rewrite app_nil_r.
Qed.

(** Writing the rows of a vector at ascending positions. *)
Lemma apply_writes_replace src os (f : nat -> option cell) col :
  NoDup os -> dv_rows src = f <$> os ->
  apply_writes src (zip os (seq 0 (length os))) col = replace_rows (fun o => if decide (o ∈ os) then Some (f o) else None) col.
Proof.
  intros Hnd Hr. apply list_eq. intros o. rewrite apply_writes_lookup, lookup_replace_rows. destruct (col !! o) as [x|]; [|done]. cbn. f_equal. f_equal.
  assert (forall j p, os !! j = Some p -> dv_row src j = f p) as Hval.
  { intros j p Hj. assert (dv_rows src !! j = Some (f p)) as Hl by (by rewrite Hr, list_lookup_fmap, Hj).
    assert (j < dv_count src) by (rewrite <- length_dv_rows; by eapply lookup_lt_Some). rewrite lookup_dv_rows in Hl by done. congruence. }
  clear Hr x. enough (forall k, (forall j p, os !! j = Some p -> dv_row src (k + j) = f p) ->
    last (omap (fun w : nat * nat => if decide (w.1 = o) then Some (dv_row src w.2) else None) (zip os (seq k (length os)))) =
    if decide (o ∈ os) then Some (f o) else None) as H by (by apply (H 0)).
  clear Hval. induction Hnd as [|p os Hp Hnd IH]; intros k Hval; [done|]. cbn [length seq zip zip_with omap list_omap fst snd].
  assert (forall j q, os !! j = Some q -> dv_row src (Datatypes.S k + j) = f q) as Hval'
    by (intros j q Hj; rewrite Nat.add_succ_comm; by apply Hval).
  specialize (IH (Datatypes.S k) Hval'). destruct (decide (p = o)) as [->|Hne].
  - rewrite (decide_True (P := o ∈ o :: os)) by (apply list_elem_of_here). rewrite decide_False in IH by done.
    apply last_None in IH. change (list_omap ?g ?l) with (omap g l). rewrite IH. cbn. f_equal.
    rewrite <- (Hval 0 o eq_refl). f_equal. lia.
  - change (list_omap ?g ?l) with (omap g l). rewrite IH. destruct (decide (o ∈ os)) as [Hin|Hin].
    + by rewrite decide_True by (by apply list_elem_of_further).
    + rewrite decide_False; [done|]. rewrite elem_of_cons. intros [?|?]; congruence.
Qed.

(** ** The statement *)

Section update.
Context {S : Type} {BSops : BlockStore S} {BSlaws : BlockStoreLaws S} (F : FPU).
Context (c0 : Catalog) (t : TableRef) (e : TableCatalogEntry) (tx : Transaction) (u : UpdateSpec).
Hypothesis Hentry : entry_at c0 t = Some e.

Notation ids := (us_scan u).
Notation ctype := (table_type (ColumnTypes e)).
Notation is_hit rg cols o := (hit F tx (us_pred u) (us_scan u) rg cols o).

(** The value of a SET clause, from the values of the row before the statement. *)
Definition set_value (x : LogicalExpr) (cols : column_data) (o : nat) : option cell := default None (eval_row F x (table_row ids cols o)).

Definition clauses : list (nat * LogicalExpr) := zip (us_cols u) (us_exprs u).

(** The matching rows of a range, and a column with their new values. *)
Definition hit_rows (rg : RowGroup) (cols : column_data) (off n : nat) : list nat := filter (fun o => is_hit rg cols o = true) (seq off n).

Definition set_col (rg : RowGroup) (cols : column_data) (off n c : nat) (x : LogicalExpr) : list (option cell) :=
  replace_rows (fun o => if decide (o ∈ hit_rows rg cols off n) then Some (set_value x cols o) else None) (col_of cols c).

Definition set_cols (ps : list (nat * LogicalExpr)) (rg : RowGroup) (cols : column_data) (off n : nat) : column_data :=
  foldl (fun acc p => <[p.1 := set_col rg cols off n p.1 p.2]> acc) cols ps.

Definition updated_cols : RowGroup -> column_data -> nat -> nat -> column_data := set_cols clauses.

(** A bound UPDATE: distinct columns, among those it reads, and typed clauses. *)
Record update_ok : Prop := {
  uo_ids : Forall (fun c => c < length (tbl_columns e)) ids;
  uo_cols : us_cols u ⊆ ids;
  uo_nodup : NoDup (us_cols u);
  uo_types : us_types u = ctype <$> us_cols u;
  uo_exprs : Forall2 (fun c x => well_typed (ctype <$> ids) x = true /\ storage_of (type_of x) = storage_of (ctype c)) (us_cols u) (us_exprs u);
}.

(** Every clause has a value on the visible rows of a range. *)
Definition sets_on (rg : RowGroup) (cols : column_data) (off n : nat) : Prop :=
  Forall (fun x => Forall (fun r => is_Some (eval_row F x r)) (seen_rows ids tx rg cols off n)) (us_exprs u).

(** The new values can be stored, however far the update has come. *)
Definition storable_on (size : nat) (rg : RowGroup) (cols : column_data) (off n : nat) : Prop :=
  Forall (fun p => forall m, m <= n -> let rows := set_col rg cols off m p.1 p.2 in
    Forall row_ok rows /\ forall start k, k <= STANDARD_VECTOR_SIZE -> rows_rewritable size (ctype p.1) (slice start k rows)) clauses.

Definition update_marks (vi : VersionInfo) (os : list Z) : VersionInfo := foldl (fun vi o => MarkUpdated vi o (tx_id tx)) vi os.

Hypothesis Hok : update_ok.

Lemma fit_width s rg cols : group_fit e s rg cols -> length cols = length (tbl_columns e).
Proof.
  intros [[_ HF _ _] Hty _]. apply Forall2_length in HF. rewrite <- HF, <- (length_fmap type_ (column_chunks_ rg)), Hty. apply length_fmap.
Qed.

(** *** Marking *)

(** The transaction while its undo buffer grows. *)
Definition same_tx (tx' : Transaction) : Prop := tx_id tx' = tx_id tx /\ start_time tx' = start_time tx.

Lemma mark_rows_run (s : S) rgs tx' g rg offsets ms os :
  same_tx tx' -> rgs !! g = Some rg -> (fun m => offsets !! m) <$> ms = Some <$> os ->
  each_step (mark_updated t g offsets) ([], []) ms (at_groups c0 t s rgs tx') =
    (at_groups c0 t s (<[g := on_version (fun vi => update_marks vi os) rg]> rgs) tx', Ok (os, MakeRowId (row_key g) <$> os)).
Proof.
  intros [Htx _] Hg Hms.
  destruct (each_step_inv (mark_updated t g offsets)
      (fun pre a c => c = at_groups c0 t s (<[g := on_version (fun vi => update_marks vi (take (length pre) os)) rg]> rgs) tx' /\
      a = (take (length pre) os, MakeRowId (row_key g) <$> take (length pre) os)) ([], []) ms (at_groups c0 t s rgs tx')) as (a' & c' & -> & -> & ->).
  - cbn [length]. rewrite take_0. split; [|done]. f_equal. symmetry. apply list_insert_id. rewrite Hg. by destruct rg.
  - intros pre m a c [-> ->] [suf ->]. rewrite fmap_app, fmap_cons in Hms.
    assert (exists o, offsets !! m = Some o /\ os !! length pre = Some o) as (o & Ho & Hos).
    { assert ((Some <$> os) !! length pre = Some (offsets !! m)) as Hl by (rewrite <- Hms, lookup_app_r, length_fmap, Nat.sub_diag by (by rewrite length_fmap); done).
      rewrite list_lookup_fmap in Hl. apply fmap_Some in Hl as (o & Ho & Heq). exists o. done. }
    assert (g < length rgs) as Hlt by (by eapply lookup_lt_Some).
    unfold mark_updated. erewrite step_run by (unfold pure_r; rewrite Ho; reflexivity).
    rewrite (step_run _ _ _ _ _ (read_group_at c0 t e Hentry s _ tx' g _ ltac:(by rewrite list_lookup_insert_eq))).
    rewrite (step_run current _ _ _ _ eq_refl). cbn [ex_tx at_groups].
    rewrite (step_run _ _ _ _ _ (write_group_at c0 t e Hentry s _ tx' g _)). do 2 eexists. split; [done|].
    rewrite length_app. cbn [length]. rewrite Nat.add_1_r, (take_S_r _ _ _ Hos), list_insert_insert_eq, Htx. split.
    + do 2 f_equal. unfold on_version, with_version, update_marks. cbn. by rewrite foldl_app.
    + cbn. by rewrite fmap_app.
  - assert (length ms = length os) as -> by (apply (f_equal length) in Hms; by rewrite !length_fmap in Hms). by rewrite firstn_all.
Qed.

(** *** Reading a batch *)

(** What the scan of a batch and the selection of its matching rows gave. *)
Record batch_read (cols : column_data) (os : list nat) (batch : DataChunk) (ms : list nat) : Prop := {
  br_wf : chunk_wf batch;
  br_small : ch_count batch <= STANDARD_VECTOR_SIZE;
  br_types : col_types batch = ctype <$> ids;
  br_rows : Forall2 (fun m o => m < ch_count batch /\ Expr.row_at batch m = table_row ids cols o) ms os;
  br_len : length ms <= ch_count batch;
  br_defined : Forall (fun x => defined_on F x batch) (us_exprs u);
}.

Lemma scan_position_Some c : c ∈ ids -> exists k, scan_position ids c = Some k /\ ids !! k = Some c.
Proof.
  intros [k Hk]%list_elem_of_lookup. unfold scan_position.
  destruct (last (filter (fun i => ids !! i = Some c) (seq 0 (length ids)))) as [j|] eqn:E.
  - exists j. split; [done|]. apply last_Some_elem_of in E. by apply list_elem_of_filter in E as [? _].
  - exfalso. apply last_None in E. assert (k ∈ filter (fun i => ids !! i = Some c) (seq 0 (length ids))) as Hin.
    { apply list_elem_of_filter. split; [done|]. apply elem_of_seq. split; [lia|]. by eapply lookup_lt_Some. }
    rewrite E in Hin. by apply not_elem_of_nil in Hin.
Qed.

(** The matching rows of a vector over the batch. *)
Lemma select_rows_Ok cols os batch ms ty src (f : nat -> option cell) :
  batch_read cols os batch ms -> dv_wf src -> storage_of (dv_type src) = storage_of ty -> dv_count src = ch_count batch ->
  (forall m o, m < ch_count batch -> Expr.row_at batch m = table_row ids cols o -> dv_row src m = f o) ->
  exists v, select_rows (Reset ty 0) src ms = Ok v /\ dv_wf v /\ dv_type v = ty /\ dv_rows v = f <$> os.
Proof.
  intros [_ Hsm _ Hrows Hlen _] Hw Hst Hc Hf.
  assert (storage_of ty <> SNone) as Hne by (rewrite <- Hst; apply Hw). destruct (Reset0_wf ty Hne) as [Hw0 Ht0].
  destruct (append_loop_rows src ms (Reset ty 0)) as (v & Hv & Hvw & Hvt & _ & Hvr).
  - done.
  - by rewrite Ht0.
  - apply Forall_forall. intros m _. by apply dv_wf_readable.
  - rewrite <- length_dv_rows, dv_rows_Reset0. cbn. lia.
  - exists v. split_and!; [exact Hv|done|congruence|]. rewrite Hvr, dv_rows_Reset0. cbn [app].
    clear -Hrows Hf. induction Hrows as [|m o ms os [Hm Hr] _ IH]; [done|]. rewrite !fmap_cons, IH. f_equal. by apply Hf.
Qed.

Lemma old_values_Ok cols os batch ms c :
  batch_read cols os batch ms -> c ∈ us_cols u ->
  exists k src v, scan_position ids c = Some k /\ columns batch !! k = Some src /\
    select_rows (Reset (ctype c) 0) src ms = Ok v /\ dv_wf v /\ dv_type v = ctype c /\ dv_rows v = (fun o => ColumnChunk.row_at (col_of cols c) o) <$> os.
Proof.
  intros Hbr Hc. destruct (scan_position_Some c) as (k & Hk & Hids); [by apply (uo_cols Hok)|].
  assert (exists src, columns batch !! k = Some src /\ dv_type src = ctype c) as (src & Hsrc & Hty).
  { pose proof (br_types _ _ _ _ Hbr) as Ht. apply (f_equal (lookup k)) in Ht. unfold col_types in Ht. rewrite !list_lookup_fmap, Hids in Ht.
    cbn in Ht. apply fmap_Some in Ht as (src & Hs & Heq). by exists src. }
  destruct (Forall_lookup_1 _ _ _ _ (br_wf _ _ _ _ Hbr) Hsrc) as [Hw Hcnt].
  destruct (select_rows_Ok cols os batch ms (ctype c) src (fun o => ColumnChunk.row_at (col_of cols c) o) Hbr Hw) as (v & Hv & Hvw & Hvt & Hvr).
  - by rewrite Hty.
  - done.
  - intros m o Hm Hr. apply (f_equal (lookup k)) in Hr. unfold Expr.row_at, table_row in Hr. rewrite !list_lookup_fmap, Hsrc, Hids in Hr.
    cbn in Hr. congruence.
  - exists k, src, v. done.
Qed.

Lemma new_values_Ok cols os batch ms c x :
  batch_read cols os batch ms -> (c, x) ∈ clauses ->
  exists full v, Evaluate F x batch = Ok full /\ select_rows (Reset (ctype c) 0) full ms = Ok v /\ dv_wf v /\ dv_type v = ctype c /\
    dv_rows v = set_value x cols <$> os.
Proof.
  intros Hbr Hin. apply list_elem_of_lookup in Hin as [k Hk]. unfold clauses in Hk. apply lookup_zip_Some in Hk as [Hkc Hkx].
  destruct (Forall2_lookup_lr _ _ _ _ _ _ (uo_exprs Hok) Hkc Hkx) as [Hwt Hst].
  pose proof (Forall_lookup_1 _ _ _ _ (br_defined _ _ _ _ Hbr) Hkx) as Hdef. destruct (defined_mapM F x batch Hdef) as [vals Hvals].
  pose proof (Evaluate_agrees F x batch (br_wf _ _ _ _ Hbr) (br_small _ _ _ _ Hbr)) as Hev. rewrite (br_types _ _ _ _ Hbr) in Hev.
  specialize (Hev Hwt). rewrite Hvals in Hev. destruct Hev as (full & Hfull & Hw & Hty & Hr). exists full.
  assert (dv_count full = ch_count batch) as Hcnt.
  { rewrite <- length_dv_rows, Hr. apply mapM_Some, Forall2_length in Hvals. unfold chunk_rows in Hvals. by rewrite length_fmap, length_seq in Hvals. }
  destruct (select_rows_Ok cols os batch ms (ctype c) full (set_value x cols) Hbr Hw) as (v & Hv & Hvw & Hvt & Hvr).
  - by rewrite Hty.
  - done.
  - intros m o Hm Hrow. apply mapM_Some in Hvals. rewrite <- Hr in Hvals. unfold set_value. rewrite <- Hrow.
    assert (chunk_rows batch !! m = Some (Expr.row_at batch m)) as Hl by (unfold chunk_rows; by rewrite list_lookup_fmap, lookup_seq_lt).
    destruct (Forall2_lookup_l _ _ _ _ _ Hvals Hl) as (y & Hy & Hey). rewrite lookup_dv_rows in Hy by lia. injection Hy as <-. by rewrite Hey.
  - exists v. done.
Qed.

(** *** Writing a column *)

Lemma concat_disjoint {A} (L : list (list A)) i j a b x :
  NoDup (concat L) -> L !! i = Some a -> L !! j = Some b -> i <> j -> x ∈ a -> x ∉ b.
Proof.
  revert i j. induction L as [|l L IH]; intros i j Hnd Hi Hj Hne Ha Hb; [done|]. cbn in Hnd. apply NoDup_app in Hnd as (_ & Hdis & Hnd).
  assert (forall k c, L !! k = Some c -> x ∈ c -> x ∈ concat L) as Hin.
  { intros k c Hk Hx. apply list_elem_of_In, in_concat. exists c. split; [apply list_elem_of_In; by eapply list_elem_of_lookup_2|by apply list_elem_of_In]. }
  destruct i as [|i], j as [|j]; cbn in Hi, Hj; simplify_eq.
  - eapply (Hdis x); [exact Ha|by eapply Hin].
  - eapply (Hdis x); [exact Hb|by eapply Hin].
  - eapply (IH i j); [done|exact Hi|exact Hj|congruence|done|done].
Qed.

(** A row group in the middle of the statement, against the group before it: the
    columns it has now, and what has not changed. *)
Record stage (s0 : S) (rg0 : RowGroup) (s : S) (rg : RowGroup) (cols : column_data) : Prop := {
  sg_rep : rg_rep s rg cols;
  sg_count : row_count_ rg = row_count_ rg0;
  sg_types : type_ <$> column_chunks_ rg = type_ <$> column_chunks_ rg0;
  sg_ids : chunk_ids <$> column_chunks_ rg = chunk_ids <$> column_chunks_ rg0;
  sg_size : bs_size s = bs_size s0;
  sg_frame : forall id, id ∉ concat (chunk_ids <$> column_chunks_ rg0) -> bs_view s id = bs_view s0 id;
}.

Lemma stage_trans s0 rg0 s1 rg1 cols1 s2 rg2 cols2 :
  stage s0 rg0 s1 rg1 cols1 -> stage s1 rg1 s2 rg2 cols2 -> stage s0 rg0 s2 rg2 cols2.
Proof.
  intros [_ Hc1 Ht1 Hi1 Hz1 Hf1] [Hr2 Hc2 Ht2 Hi2 Hz2 Hf2]. split; try congruence. intros id Hid. rewrite Hf2, Hf1; [done|done|by rewrite Hi1].
Qed.

Lemma write_column (s : S) rg cols c cc col os v (f : nat -> option cell) :
  let rows := replace_rows (fun o => if decide (o ∈ os) then Some (f o) else None) col in
  rg_rep s rg cols -> column_chunks_ rg !! c = Some cc -> cols !! c = Some col ->
  dv_wf v -> dv_type v = type_ cc -> dv_rows v = f <$> os -> StronglySorted lt os -> Forall (fun o => o < row_count_ rg) os ->
  Forall row_ok rows -> (forall start k, k <= STANDARD_VECTOR_SIZE -> rows_rewritable (bs_size s) (type_ cc) (slice start k rows)) ->
  exists s' cc', WriteRows s cc os v = Ok (s', cc') /\
    stage s rg s' (with_chunks rg (<[c := cc']> (column_chunks_ rg))) (<[c := rows]> cols).
Proof.
  intros rows [Hst HF Hl Hnd] Hcc Hcol Hw Hty Hr Hsort Hlt Hro Hrw.
  assert (NoDup os) as Hndo.
  { clear -Hsort. induction Hsort as [|o os Hs IH Ho]; constructor; [|done]. rewrite Forall_forall in Ho. intros Hin. apply Ho in Hin. lia. }
  pose proof (Forall2_lookup_lr _ _ _ _ _ _ HF Hcc Hcol) as Hrep. pose proof (Forall_lookup_1 _ _ _ _ Hl Hcol) as Hlen. cbn in Hlen.
  destruct (WriteRows_Ok s cc col os v Hrep Hw) as (s' & cc' & Hwr & Hrep' & Hsz & Hty' & Hids & Hview).
  - by rewrite Hty.
  - by rewrite <- length_dv_rows, Hr, length_fmap.
  - clear -Hsort. induction Hsort as [|o os Hs IH Ho]; constructor; [done|]. eapply Forall_impl; [exact Ho|]. cbn. lia.
  - by rewrite Hlen.
  - by rewrite (apply_writes_replace v os f).
  - by rewrite (apply_writes_replace v os f).
  - rewrite (apply_writes_replace v os f) in Hrep' by done. fold rows in Hrep'. exists s', cc'. split; [done|].
    assert (c < length (column_chunks_ rg)) as Hc1 by (by eapply lookup_lt_Some).
    assert (c < length cols) as Hc2 by (by eapply lookup_lt_Some).
    assert (bs_ok s') as Hok' by (by destruct Hrep' as (vs & [? _ _ _ _] & _)).
    assert (chunk_ids <$> <[c := cc']> (column_chunks_ rg) = chunk_ids <$> column_chunks_ rg) as Hsame.
    { rewrite list_fmap_insert. apply list_insert_id. rewrite list_lookup_fmap, Hcc. cbn. f_equal. symmetry. exact Hids. }
    split; cbn [column_chunks_ row_count_ with_chunks]; try done.
    + split; cbn [column_chunks_ row_count_ with_chunks]; [done| | |by rewrite Hsame].
      * apply Forall2_same_length_lookup. split; [rewrite !length_insert; by eapply Forall2_length|].
        intros k cck colk Hk Hk'. destruct (decide (c = k)) as [<-|Hne].
        -- rewrite list_lookup_insert_eq in Hk by done. rewrite list_lookup_insert_eq in Hk' by done. congruence.
        -- rewrite list_lookup_insert_ne in Hk by done. rewrite list_lookup_insert_ne in Hk' by done.
           apply (chunk_rep_frame s); [done| |by eapply Forall2_lookup_lr]. intros id b Hin Hb. rewrite Hview; [done|].
           apply (concat_disjoint (chunk_ids <$> column_chunks_ rg) k c (chunk_ids cck) (chunk_ids cc));
             [done|by rewrite list_lookup_fmap, Hk|by rewrite list_lookup_fmap, Hcc|done|done].
      * apply Forall_insert; [done|]. unfold rows. by rewrite length_replace_rows.
    + rewrite list_fmap_insert. apply list_insert_id. rewrite list_lookup_fmap, Hcc. cbn. by rewrite Hty'.
    + intros id Hid. apply Hview. intros Hin. apply Hid. apply list_elem_of_In, in_concat. exists (chunk_ids cc).
      split; [|by apply list_elem_of_In]. apply list_elem_of_In, list_elem_of_fmap_2. by eapply list_elem_of_lookup_2.
Qed.

(** *** The SET clauses *)

Lemma set_cols_other ps rg cols off n c : c ∉ ps.*1 -> set_cols ps rg cols off n !! c = cols !! c.
Proof.
  unfold set_cols. induction ps as [|p ps IH] using rev_ind; intros Hc; [done|]. rewrite fmap_app, elem_of_app in Hc.
  rewrite foldl_app. cbn [foldl]. rewrite list_lookup_insert_ne; [apply IH; tauto|]. intros <-. apply Hc. right. apply list_elem_of_here.
Qed.

Lemma length_set_cols ps rg cols off n : length (set_cols ps rg cols off n) = length cols.
Proof. unfold set_cols. induction ps as [|p ps IH] using rev_ind; [done|]. rewrite foldl_app. cbn. by rewrite length_insert. Qed.

Lemma clause_at k c ty :
  imap pair (zip (us_cols u) (us_types u)) !! k = Some (k, (c, ty)) ->
  exists x, us_cols u !! k = Some c /\ ty = ctype c /\ us_exprs u !! k = Some x /\ clauses !! k = Some (c, x).
Proof.
  intros Hk. rewrite list_lookup_imap in Hk. apply fmap_Some in Hk as (p & Hz & Heq). injection Heq as <-.
  apply lookup_zip_Some in Hz as [Hc Ht]. rewrite (uo_types Hok), list_lookup_fmap, Hc in Ht. injection Ht as <-.
  destruct (Forall2_lookup_l _ _ _ _ _ (uo_exprs Hok) Hc) as (x & Hx & _). exists x. split_and!; try done.
  unfold clauses. apply lookup_zip_Some. done.
Qed.

Lemma hit_rows_sorted rg cols off n : StronglySorted lt (hit_rows rg cols off n).
Proof. apply sorted_lt_filter_seq. Qed.
Lemma hit_rows_bound rg cols off n o : o ∈ hit_rows rg cols off n -> off <= o < off + n.
Proof. intros Ho. apply list_elem_of_filter in Ho as [_ Ho]. apply elem_of_seq in Ho. lia. Qed.

Lemma to_nat_row_keys os count : (Z.of_nat count < 2 ^ 32)%Z -> Forall (fun o => o < count) os -> Z.to_nat <$> (row_key <$> os) = os.
Proof.
  intros Hc Ho. rewrite <- list_fmap_compose. rewrite <- (list_fmap_id os) at 2. apply list_fmap_ext. intros i o Hi. cbn.
  pose proof (Forall_lookup_1 _ _ _ _ Ho Hi) as Hlt. cbn in Hlt. rewrite row_key_small by lia. lia.
Qed.

(** What the clauses have done after [k] of them. *)
Record clauses_done (s0 : S) (rg rg1 : RowGroup) (cols : column_data) (off n k : nat) (s : S) (rg' : RowGroup) (acc : list DataVector * list DataVector) : Prop := {
  cd_stage : stage s0 rg1 s rg' (set_cols (take k clauses) rg cols off n);
  cd_version : version_info_ rg' = version_info_ rg1;
  cd_old : dv_rows <$> acc.1 = (fun c => (fun o => ColumnChunk.row_at (col_of cols c) o) <$> hit_rows rg cols off n) <$> take k (us_cols u);
  cd_new : dv_rows <$> acc.2 = (fun x => set_value x cols <$> hit_rows rg cols off n) <$> take k (us_exprs u);
  cd_wf : Forall dv_wf acc.1;
  cd_types : dv_type <$> acc.1 = ctype <$> take k (us_cols u);
}.

Lemma update_column_run (s0 s : S) rgs tx' g rg rg1 rg' cols off n batch ms k c ty acc :
  let os := hit_rows rg cols off n in
  rgs !! g = Some rg' -> type_ <$> column_chunks_ rg1 = ColumnTypes e -> length cols = length (tbl_columns e) ->
  batch_read cols os batch ms -> Forall (fun o => o < row_count_ rg1) os -> (Z.of_nat (row_count_ rg1) < 2 ^ 32)%Z ->
  Forall (fun p => let rows := set_col rg cols off n p.1 p.2 in
    Forall row_ok rows /\ forall start k, k <= STANDARD_VECTOR_SIZE -> rows_rewritable (bs_size s0) (ctype p.1) (slice start k rows)) clauses ->
  imap pair (zip (us_cols u) (us_types u)) !! k = Some (k, (c, ty)) ->
  clauses_done s0 rg rg1 cols off n k s rg' acc ->
  exists s' rg'' acc', update_column F t g ids (us_exprs u) batch ms (row_key <$> os) acc (k, (c, ty)) (at_groups c0 t s rgs tx') =
      (at_groups c0 t s' (<[g := rg'']> rgs) tx', Ok acc') /\
    clauses_done s0 rg rg1 cols off n (k + 1) s' rg'' acc'.
Proof.
  intros os Hg Hty1 Hlc Hbr Hos Hsm Hst Hk [Hstage Hvi Hold Hnew Hwo Hto].
  destruct (clause_at k c ty Hk) as (x & Hkc & -> & Hkx & Hcl).
  assert (c ∈ us_cols u) as Hcin by (by eapply list_elem_of_lookup_2).
  destruct (old_values_Ok cols os batch ms c Hbr Hcin) as (j & src & vo & Hj & Hsrc & Hvo & Hvow & Hvot & Hvor).
  destruct (new_values_Ok cols os batch ms c x Hbr) as (full & vn & Hfull & Hvn & Hvnw & Hvnt & Hvnr); [by eapply list_elem_of_lookup_2|].
  assert (c < length (tbl_columns e)) as Hclt.
  { pose proof (uo_ids Hok) as Hi. rewrite Forall_forall in Hi. apply Hi. by apply (uo_cols Hok). }
  pose proof Hstage as [Hrep Hcount Htypes Hids Hsize Hframe].
  assert (exists cc, column_chunks_ rg' !! c = Some cc /\ type_ cc = ctype c) as (cc & Hcc & Htc).
  { rewrite Hty1 in Htypes. apply (f_equal (lookup c)) in Htypes. rewrite list_lookup_fmap in Htypes. unfold table_type.
    assert (c < length (ColumnTypes e)) as Hlt by (unfold ColumnTypes; by rewrite length_fmap).
    destruct (lookup_lt_is_Some_2 _ _ Hlt) as [ct Hct]. rewrite Hct in Htypes |- *. apply fmap_Some in Htypes as (cc & Hcc & Heq). exists cc. split; [done|by symmetry]. }
  destruct (lookup_lt_is_Some_2 cols c) as [col Hcol]; [lia|].
  assert (set_cols (take k clauses) rg cols off n !! c = Some col) as Hcur.
  { rewrite set_cols_other; [done|]. intros Hin. rewrite fmap_take in Hin. unfold clauses in Hin.
    rewrite fst_zip in Hin by (by rewrite (Forall2_length _ _ _ (uo_exprs Hok))).
    apply list_elem_of_lookup in Hin as [i Hi]. apply lookup_take_Some in Hi as [Hi Hlt].
    pose proof (NoDup_lookup _ _ _ _ (uo_nodup Hok) Hi Hkc). lia. }
  pose proof (Forall_lookup_1 _ _ _ _ Hst Hcl) as [Hro Hrw]. cbn [fst snd] in Hro, Hrw. unfold set_col in Hro, Hrw.
  assert (col_of cols c = col) as Hcoleq by (unfold col_of; by rewrite Hcol). rewrite Hcoleq in Hro, Hrw.
  destruct (write_column s rg' (set_cols (take k clauses) rg cols off n) c cc col os vn (set_value x cols) Hrep Hcc Hcur Hvnw) as (s' & cc' & Hwr & Hst').
  - by rewrite Htc.
  - done.
  - apply hit_rows_sorted.
  - by rewrite Hcount.
  - done.
  - rewrite Htc, Hsize. done.
  - eexists s', _, (acc.1 ++ [vo], acc.2 ++ [vn])%list. split.
    + unfold update_column. cbn beta iota.
      erewrite step_run by (unfold pure_r; rewrite Hj; reflexivity). erewrite step_run by (unfold pure_r; rewrite Hsrc; reflexivity).
      erewrite step_run by (unfold pure_r; rewrite Hvo; reflexivity). erewrite step_run by (unfold pure_r; rewrite Hkx; reflexivity).
      erewrite step_run by (unfold pure_r; rewrite Hfull; reflexivity). erewrite step_run by (unfold pure_r; rewrite Hvn; reflexivity).
      rewrite (step_run _ _ _ _ _ (read_group_at c0 t e Hentry s rgs tx' g rg' Hg)). erewrite step_run by (unfold pure_r; rewrite Hcc; reflexivity).
      erewrite step_run by (unfold storage; cbn [at_groups ex_store ex_tx]; rewrite (to_nat_row_keys _ (row_count_ rg1)), Hwr by done; reflexivity).
      change (mkExec s' (ex_catalog (at_groups c0 t s rgs tx')) tx') with (at_groups c0 t s' rgs tx').
      rewrite (step_run _ _ _ _ _ (write_group_at c0 t e Hentry s' rgs tx' g _)). reflexivity.
    + rewrite Nat.add_1_r. split; cbn [fst snd].
      * rewrite (take_S_r _ _ _ Hcl). unfold set_cols at 1. rewrite foldl_app. cbn [foldl fst snd]. eapply stage_trans; [exact Hstage|].
        replace (set_col rg cols off n c x) with (replace_rows (fun o => if decide (o ∈ os) then Some (set_value x cols o) else None) col)
          by (unfold set_col; by rewrite Hcoleq).
        exact Hst'.
      * done.
      * rewrite (take_S_r _ _ _ Hkc), !fmap_app, Hold. cbn. by rewrite Hvor.
      * rewrite (take_S_r _ _ _ Hkx), !fmap_app, Hnew. cbn. by rewrite Hvnr.
      * apply Forall_app. split; [done|by constructor].
      * rewrite (take_S_r _ _ _ Hkc), !fmap_app, Hto. cbn. by rewrite Hvot.
Qed.

(** *** A batch *)

(** The rows of an undo record: their numbers, old and new values. *)
Definition undo_rows (ent : UndoEntry) : list (Z * sql_row * sql_row) :=
  match ent with
  | UndoUpdate ue => imap (fun j id => (id, Expr.row_at (old_values ue) j, Expr.row_at (new_values ue) j)) (uu_row_ids ue)
  | _ => []
  end.

(** It names the table and the columns of the statement. *)
Definition update_record (ent : UndoEntry) : Prop :=
  exists ids old new, ent = UndoUpdate (mkUpdateUndo (ref_schema t) (ref_table t) ids (us_cols u) old new).

Definition records (g : nat) (cols : column_data) (os : list nat) : list (Z * sql_row * sql_row) :=
  (fun o => (MakeRowId (row_key g) (row_key o), (fun c => ColumnChunk.row_at (col_of cols c) o) <$> us_cols u,
             (fun x => set_value x cols o) <$> us_exprs u)) <$> os.

(** The record of a batch: the numbers of the matching rows and their values. *)
Inductive batch_undo (g : nat) (rg : RowGroup) (cols : column_data) (off n : nat) : list UndoEntry -> Prop :=
  | batch_nothing : hit_rows rg cols off n = [] -> batch_undo g rg cols off n []
  | batch_record olds news :
      let os := hit_rows rg cols off n in
      os <> [] -> Forall dv_wf olds -> dv_type <$> olds = ctype <$> us_cols u ->
      dv_rows <$> olds = (fun c => (fun o => ColumnChunk.row_at (col_of cols c) o) <$> os) <$> us_cols u ->
      dv_rows <$> news = (fun x => set_value x cols <$> os) <$> us_exprs u ->
      batch_undo g rg cols off n [UndoUpdate (mkUpdateUndo (ref_schema t) (ref_table t) (MakeRowId (row_key g) <$> (row_key <$> os)) (us_cols u)
        (mkChunk olds (length os)) (mkChunk news (length os)))].

Lemma rows_of_columns {K} (vs : list DataVector) (f : K -> nat -> option cell) (L : list K) os j o :
  dv_rows <$> vs = (fun k => f k <$> os) <$> L -> os !! j = Some o -> (fun v => dv_row v j) <$> vs = (fun k => f k o) <$> L.
Proof.
  revert L. induction vs as [|v vs IH]; intros [|k L] Hr Hj; try done. injection Hr as Hv Hr. cbn. f_equal; [|by apply IH].
  assert (dv_rows v !! j = Some (f k o)) as Hl by (by rewrite Hv, list_lookup_fmap, Hj).
  assert (j < dv_count v) by (rewrite <- length_dv_rows; by eapply lookup_lt_Some). rewrite lookup_dv_rows in Hl by done. congruence.
Qed.

Lemma batch_undo_records g rg cols off n ents :
  batch_undo g rg cols off n ents -> Forall update_record ents /\ concat (undo_rows <$> ents) = records g cols (hit_rows rg cols off n).
Proof.
  intros [H0|olds news os Hos Hw Ht Hold Hnew]; [by rewrite H0|]. split; [constructor; [by do 3 eexists|constructor]|].
  cbn. rewrite app_nil_r. unfold records. fold os. apply list_eq. intros j. rewrite list_lookup_imap, !list_lookup_fmap.
  destruct (os !! j) as [o|] eqn:Hj; [|done]. cbn. do 2 f_equal; [f_equal|].
  - unfold Expr.row_at. cbn. exact (rows_of_columns olds (fun c o => ColumnChunk.row_at (col_of cols c) o) (us_cols u) os j o Hold Hj).
  - unfold Expr.row_at. cbn. exact (rows_of_columns news (fun x o => set_value x cols o) (us_exprs u) os j o Hnew Hj).
Qed.

Lemma set_cols_nothing ps rg cols off n : hit_rows rg cols off n = [] -> set_cols ps rg cols off n = cols.
Proof.
  intros H0. unfold set_cols. induction ps as [|p ps IH] using rev_ind; [done|]. rewrite foldl_app, IH. cbn.
  destruct (cols !! p.1) as [col|] eqn:Hc.
  - apply list_insert_id. rewrite Hc. f_equal. unfold set_col. rewrite H0. unfold col_of. rewrite Hc. apply list_eq. intros o.
    rewrite lookup_replace_rows, decide_False by apply not_elem_of_nil. cbn. by destruct (col !! o).
  - apply list_insert_ge. by apply lookup_ge_None.
Qed.

Lemma stage_refl s rg cols : rg_rep s rg cols -> stage s rg s rg cols.
Proof. by split. Qed.

Lemma stage_marked s rg s' rg' cols vi : stage s (with_version rg vi) s' rg' cols -> stage s rg s' rg' cols.
Proof. intros [? ? ? ? ? ?]. by split. Qed.

Lemma set_columns_run (s : S) rgs tx' g rg rg1 cols off n batch ms :
  let os := hit_rows rg cols off n in
  rgs !! g = Some rg1 -> rg_rep s rg1 cols -> type_ <$> column_chunks_ rg1 = ColumnTypes e -> length cols = length (tbl_columns e) ->
  batch_read cols os batch ms -> Forall (fun o => o < row_count_ rg1) os -> (Z.of_nat (row_count_ rg1) < 2 ^ 32)%Z ->
  Forall (fun p => let rows := set_col rg cols off n p.1 p.2 in
    Forall row_ok rows /\ forall start k, k <= STANDARD_VECTOR_SIZE -> rows_rewritable (bs_size s) (ctype p.1) (slice start k rows)) clauses ->
  exists s' rg' acc', each_step (update_column F t g ids (us_exprs u) batch ms (row_key <$> os)) ([], []) (imap pair (zip (us_cols u) (us_types u)))
      (at_groups c0 t s rgs tx') = (at_groups c0 t s' (<[g := rg']> rgs) tx', Ok acc') /\
    clauses_done s rg rg1 cols off n (length clauses) s' rg' acc'.
Proof.
  intros os Hg Hrep Hty Hlc Hbr Hos Hsm Hst.
  assert (length (imap pair (zip (us_cols u) (us_types u))) = length clauses) as Hlen.
  { unfold clauses. rewrite length_imap, !length_zip_with, (uo_types Hok), length_fmap, (Forall2_length _ _ _ (uo_exprs Hok)). lia. }
  destruct (each_step_inv (update_column F t g ids (us_exprs u) batch ms (row_key <$> os))
    (fun pre acc c => exists s' rg', c = at_groups c0 t s' (<[g := rg']> rgs) tx' /\ clauses_done s rg rg1 cols off n (length pre) s' rg' acc)
    ([], []) (imap pair (zip (us_cols u) (us_types u))) (at_groups c0 t s rgs tx')) as (acc' & c' & Hrun & s' & rg' & -> & Hcd).
  - exists s, rg1. cbn [length]. rewrite list_insert_id by done. split; [done|]. split; cbn [fst snd]; rewrite ?take_0; try done.
  - intros pre [k [c ty]] acc ctx (s1 & rg1' & -> & Hcd) [suf Hsuf].
    assert (imap pair (zip (us_cols u) (us_types u)) !! length pre = Some (k, (c, ty))) as Hl by (by rewrite Hsuf, lookup_app_r, Nat.sub_diag by done).
    assert (k = length pre) as -> by (rewrite list_lookup_imap in Hl; by apply fmap_Some in Hl as (p & _ & [= ->])).
    destruct (update_column_run s s1 (<[g := rg1']> rgs) tx' g rg rg1 rg1' cols off n batch ms (length pre) c ty acc) as (s2 & rg2 & acc2 & Hrun & Hcd2); try done.
    { rewrite list_lookup_insert_eq; [done|by eapply lookup_lt_Some]. }
    exists acc2, (at_groups c0 t s2 (<[g := rg2]> (<[g := rg1']> rgs)) tx'). split; [done|]. exists s2, rg2.
    rewrite list_insert_insert_eq, length_app. done.
  - exists s', rg', acc'. rewrite <- Hlen. done.
Qed.

Lemma update_batch_run (s : S) rgs tx' g rg cols off n batch :
  let sel := selection (version_info_ rg) off n (tx_id tx) (start_time tx) in
  let os := hit_rows rg cols off n in
  same_tx tx' -> rgs !! g = Some rg -> group_fit e s rg cols -> off + n <= row_count_ rg -> n <= STANDARD_VECTOR_SIZE ->
  chunk_wf batch -> ch_count batch = length sel -> col_types batch = ctype <$> ids ->
  dv_rows <$> columns batch = visible_rows (version_info_ rg) (tx_id tx) (start_time tx) off n <$> (col_of cols <$> ids) ->
  where_on F e tx (us_pred u) ids rg cols off n -> sets_on rg cols off n -> storable_on (bs_size s) rg cols off n ->
  exists s' rg' ents, update_batch F t g u batch ((fun i => row_key (off + i)) <$> sel) (at_groups c0 t s rgs tx') =
      (at_groups c0 t s' (<[g := rg']> rgs) (foldl log_change tx' ents), Ok tt) /\
    stage s rg s' rg' (updated_cols rg cols off n) /\ version_info_ rg' = update_marks (version_info_ rg) (row_key <$> os) /\
    batch_undo g rg cols off n ents.
Proof.
  intros sel os Htx Hg Hfit Hle Hn Hwf Hc Hty Hr Hw Hsets Hstor. pose proof Hfit as [Hrep Htypes Hsm].
  destruct (matching_hits F e tx (us_pred u) ids rg cols off n batch Hw Hn Hwf Hc Hr Hty) as (ms & Hms & Hmo & Hmlt & Hmos). fold sel in Hmo, Hmlt, Hmos.
  change (filter (fun o => is_hit rg cols o = true) (seq off n)) with os in Hmos. change (hits F tx (us_pred u) ids rg cols off n) with (row_key <$> os) in Hmo.
  unfold update_batch. erewrite step_run by (unfold pure_r; rewrite Hms; reflexivity).
  destruct ms as [|m0 ms0] eqn:Ems.
  { exists s, rg, []. cbn in Hmos. rewrite list_insert_id by done. rewrite <- Hmos. split; [done|]. split_and!; [|done|by constructor].
    unfold updated_cols. rewrite set_cols_nothing by done. by apply stage_refl. }
  rewrite <- Ems in *. assert (os <> []) as Hne by (rewrite <- Hmos, Ems; done). clear Ems m0 ms0.
  assert (length ms = length os) as Hlms by (by rewrite <- Hmos, length_fmap).
  assert (batch_read cols os batch ms) as Hbr.
  { rewrite <- list_fmap_compose in Hr.
    assert (forall j, j < length sel -> Expr.row_at batch j = table_row ids cols (off + default 0 (sel !! j))) as Hrow.
    { intros j Hj. rewrite (row_at_of_columns batch (fun c i => ColumnChunk.row_at (col_of cols c) (off + i)) ids sel j Hwf Hc Hr Hj). done. }
    split; [done| |done| | |].
    - rewrite Hc. etrans; [apply length_selection|done].
    - rewrite <- Hmos. clear -Hmlt Hrow Hc. induction Hmlt as [|m ms Hm _ IH]; constructor; [|done]. rewrite Hc. split; [done|by apply Hrow].
    - rewrite Hc. transitivity (length os); [by rewrite <- Hmos, length_fmap|]. unfold os, hit_rows. rewrite (hits_filter F tx (us_pred u) ids), length_fmap.
      apply length_filter.
    - eapply Forall_impl; [exact Hsets|]. intros x Hx. unfold defined_on.
      rewrite (chunk_rows_of_columns batch (fun c i => ColumnChunk.row_at (col_of cols c) (off + i)) ids sel Hwf Hc Hr).
      rewrite seen_rows_selection in Hx. exact Hx. }
  rewrite (step_run _ _ _ _ _ (mark_rows_run s rgs tx' g rg _ ms (row_key <$> os) Htx Hg Hmo)).
  set (rg1 := on_version (fun vi => update_marks vi (row_key <$> os)) rg).
  assert (g < length rgs) as Hlt by (by eapply lookup_lt_Some).
  assert (Forall (fun o => o < row_count_ rg) os) as Hos by (apply Forall_forall; intros o Ho; apply hit_rows_bound in Ho; lia).
  destruct (set_columns_run s (<[g := rg1]> rgs) tx' g rg rg1 cols off n batch ms) as (s' & rg' & [olds news] & Hrun & [Hstage Hvi Hold Hnew Hwo Hto]); try done.
  { by rewrite list_lookup_insert_eq. }
  { destruct Hrep as [? ? ? ?]. by split. }
  { by eapply fit_width. }
  { eapply Forall_impl; [exact Hstor|]. intros p Hp. by apply Hp. }
  rewrite (step_run _ _ _ _ _ Hrun). cbn [fst snd] in Hold, Hnew, Hwo, Hto. rewrite list_insert_insert_eq.
  assert (length clauses = length (us_cols u)) as Hlcl by (unfold clauses; rewrite length_zip_with, (Forall2_length _ _ _ (uo_exprs Hok)); lia).
  rewrite Hlcl, take_ge in Hold, Hto by done. rewrite Hlcl, (Forall2_length _ _ _ (uo_exprs Hok)), take_ge in Hnew by done.
  rewrite take_ge in Hstage by done.
  eexists s', rg', [_]. split; [reflexivity|]. split; [by apply (stage_marked s rg s' rg' _ (update_marks (version_info_ rg) (row_key <$> os)))|].
  split; [by rewrite Hvi|]. rewrite Hlms. by constructor.
Qed.

(** *** All batches of a group *)

Lemma row_at_replaced f col o : f o = None -> ColumnChunk.row_at (replace_rows f col) o = ColumnChunk.row_at col o.
Proof. intros Hf. unfold ColumnChunk.row_at. rewrite lookup_replace_rows, Hf. by destruct (col !! o). Qed.

Lemma row_at_set_cols ps rg cols off n c o :
  o ∉ hit_rows rg cols off n -> ColumnChunk.row_at (col_of (set_cols ps rg cols off n) c) o = ColumnChunk.row_at (col_of cols c) o.
Proof.
  intros Ho. unfold set_cols. induction ps as [|p ps IH] using rev_ind; [done|]. rewrite foldl_app. cbn [foldl].
  set (acc := foldl _ cols ps) in *. unfold col_of at 1. destruct (decide (p.1 = c)) as [->|Hne].
  - destruct (decide (c < length acc)) as [Hlt|Hge].
    + rewrite list_lookup_insert_eq by done. apply row_at_replaced. by rewrite decide_False.
    + rewrite list_insert_ge by lia. exact IH.
  - rewrite list_lookup_insert_ne by done. exact IH.
Qed.

Lemma set_cols_at ps rg cols off n c x :
  NoDup ps.*1 -> (c, x) ∈ ps -> c < length cols -> set_cols ps rg cols off n !! c = Some (set_col rg cols off n c x).
Proof.
  induction ps as [|p ps IH] using rev_ind; intros Hnd Hin Hc; [by apply not_elem_of_nil in Hin|].
  rewrite fmap_app in Hnd. apply NoDup_app in Hnd as (Hnd & Hdis & _). unfold set_cols. rewrite foldl_app. cbn [foldl].
  change (foldl _ cols ps) with (set_cols ps rg cols off n). apply elem_of_app in Hin as [Hin|Hin%list_elem_of_singleton].
  - rewrite list_lookup_insert_ne; [by apply IH|]. intros Heq. apply (Hdis c).
    + change c with (c, x).1. by apply list_elem_of_fmap_2.
    + rewrite <- Heq. apply list_elem_of_here.
  - subst p. cbn. rewrite list_lookup_insert_eq; [done|]. by rewrite length_set_cols.
Qed.

Lemma clauses_fst : clauses.*1 = us_cols u.
Proof. unfold clauses. apply fst_zip. by rewrite (Forall2_length _ _ _ (uo_exprs Hok)). Qed.

Lemma clause_col c x : (c, x) ∈ clauses -> c < length (tbl_columns e).
Proof.
  intros Hin. assert (c ∈ us_cols u) as Hc by (rewrite <- clauses_fst; change c with (c, x).1; by apply list_elem_of_fmap_2).
  pose proof (uo_ids Hok) as Hi. rewrite Forall_forall in Hi. by apply Hi, (uo_cols Hok).
Qed.

Lemma update_marks_lookup vi os o :
  markers_ (update_marks vi os) !! o = if decide (o ∈ os) then Some (mkMarker UPDATE (tx_id tx) INVALID_TIMESTAMP) else markers_ vi !! o.
Proof.
  unfold update_marks. induction os as [|x os IH] using rev_ind; [done|].
  rewrite foldl_app. cbn [foldl MarkUpdated markers_]. destruct (decide (x = o)) as [->|Hne].
  - rewrite lookup_insert_eq, decide_True; [done|]. apply elem_of_app. right. apply list_elem_of_here.
  - rewrite lookup_insert_ne, IH by done. destruct (decide (o ∈ os)).
    + rewrite decide_True; [done|]. apply elem_of_app. by left.
    + rewrite decide_False; [done|]. rewrite elem_of_app, list_elem_of_singleton. intros [?|?]; congruence.
Qed.

(** A row group after its first [n] rows from [off] on have been updated. *)
Record batch_after (rg : RowGroup) (cols : column_data) (off n : nat) (rg1 : RowGroup) (cols1 : column_data) : Prop := {
  ba_cols : cols1 = updated_cols rg cols off n;
  ba_version : version_info_ rg1 = update_marks (version_info_ rg) (row_key <$> hit_rows rg cols off n);
  ba_count : row_count_ rg1 = row_count_ rg;
  ba_small : (Z.of_nat (row_count_ rg) < 2 ^ 32)%Z;
  ba_le : off + n <= row_count_ rg;
  ba_len : length cols = length (tbl_columns e);
}.

Section after.
Context (rg : RowGroup) (cols : column_data) (off n : nat) (rg1 : RowGroup) (cols1 : column_data).
Hypothesis Hafter : batch_after rg cols off n rg1 cols1.

(** The later rows are as they were. *)
Lemma after_sees o : off + n <= o < row_count_ rg -> sees tx rg1 o = sees tx rg o.
Proof.
  destruct Hafter as [_ Hv Hc Hsm Hle _]. intros Ho. unfold sees, IsVisible. rewrite Hv, update_marks_lookup, decide_False; [done|].
  intros Hin. apply list_elem_of_fmap in Hin as (j & Hj & Hin). apply hit_rows_bound in Hin. apply row_key_inj in Hj; lia.
Qed.

Lemma after_row l o : off + n <= o -> table_row l cols1 o = table_row l cols o.
Proof.
  destruct Hafter as [-> _ _ _ _ _]. intros Ho. unfold table_row. apply list_fmap_ext. intros i c _. apply row_at_set_cols.
  intros Hin. apply hit_rows_bound in Hin. lia.
Qed.

Lemma after_hit o : off + n <= o < row_count_ rg -> is_hit rg1 cols1 o = is_hit rg cols o.
Proof. intros Ho. unfold hit, row_matches_where. rewrite after_sees by done. destruct (us_pred u); rewrite ?after_row by lia; done. Qed.

Lemma after_hit_rows m : off + n + m <= row_count_ rg -> hit_rows rg1 cols1 (off + n) m = hit_rows rg cols (off + n) m.
Proof.
  intros Hm. apply filter_ext_Forall, Forall_forall. intros o Ho%elem_of_seq. by rewrite after_hit by lia.
Qed.

Lemma after_seen m : off + n + m <= row_count_ rg -> seen_rows ids tx rg1 cols1 (off + n) m = seen_rows ids tx rg cols (off + n) m.
Proof.
  intros Hm. unfold seen_rows. rewrite (filter_ext_Forall _ (fun i => sees tx rg i = true)).
  - apply list_fmap_ext. intros k o Ho. apply list_elem_of_lookup_2, list_elem_of_filter in Ho as [_ Ho%elem_of_seq]. apply after_row. lia.
  - apply Forall_forall. intros o Ho%elem_of_seq. by rewrite after_sees by lia.
Qed.

Lemma hit_rows_app m : hit_rows rg cols off (n + m) = (hit_rows rg cols off n ++ hit_rows rg cols (off + n) m)%list.
Proof. unfold hit_rows. by rewrite seq_app, filter_app. Qed.

Lemma after_set_value x o : off + n <= o -> set_value x cols1 o = set_value x cols o.
Proof. intros Ho. unfold set_value. by rewrite after_row. Qed.

Lemma after_set_col m c x :
  off + n + m <= row_count_ rg -> (c, x) ∈ clauses -> set_col rg1 cols1 (off + n) m c x = set_col rg cols off (n + m) c x.
Proof.
  intros Hm Hin. assert (col_of cols1 c = set_col rg cols off n c x) as Hcol.
  { unfold col_of. rewrite (ba_cols _ _ _ _ _ _ Hafter). unfold updated_cols. rewrite (set_cols_at _ _ _ _ _ c x); [done| |done|].
    - rewrite clauses_fst. apply (uo_nodup Hok).
    - rewrite (ba_len _ _ _ _ _ _ Hafter). by apply (clause_col c x). }
  unfold set_col at 1. rewrite Hcol. apply list_eq. intros o. unfold set_col. rewrite !lookup_replace_rows.
  destruct (col_of cols c !! o) as [y|]; [|done]. cbn. f_equal. rewrite after_hit_rows, hit_rows_app by done.
  destruct (decide (o ∈ hit_rows rg cols (off + n) m)) as [H1|H1].
  - rewrite (decide_True (P := o ∈ _ ++ _)) by (apply elem_of_app; by right). cbn. apply hit_rows_bound in H1. apply after_set_value. lia.
  - cbn. destruct (decide (o ∈ hit_rows rg cols off n)) as [H2|H2].
    + by rewrite decide_True by (apply elem_of_app; by left).
    + rewrite decide_False; [done|]. rewrite elem_of_app. tauto.
Qed.

Lemma after_updated_cols m : off + n + m <= row_count_ rg -> updated_cols rg1 cols1 (off + n) m = updated_cols rg cols off (n + m).
Proof.
  intros Hm. apply list_eq. intros c. destruct (decide (c ∈ clauses.*1)) as [Hin|Hin].
  - apply list_elem_of_fmap in Hin as ([c' x] & -> & Hin). cbn [fst].
    assert (NoDup clauses.*1) as Hnd by (rewrite clauses_fst; apply (uo_nodup Hok)). pose proof (clause_col _ _ Hin) as Hc.
    unfold updated_cols. rewrite !(set_cols_at _ _ _ _ _ c' x); try done.
    + by rewrite after_set_col.
    + rewrite (ba_len _ _ _ _ _ _ Hafter). done.
    + rewrite (ba_cols _ _ _ _ _ _ Hafter). unfold updated_cols. rewrite length_set_cols, (ba_len _ _ _ _ _ _ Hafter). done.
  - unfold updated_cols. rewrite !set_cols_other by done. rewrite (ba_cols _ _ _ _ _ _ Hafter). unfold updated_cols. by rewrite set_cols_other.
Qed.

Lemma after_records g m : off + n + m <= row_count_ rg -> records g cols1 (hit_rows rg cols (off + n) m) = records g cols (hit_rows rg cols (off + n) m).
Proof.
  intros Hm. apply list_fmap_ext. intros k o Ho. apply list_elem_of_lookup_2, hit_rows_bound in Ho. f_equal; [f_equal|].
  - apply (after_row (us_cols u)). lia.
  - apply list_fmap_ext. intros j x _. apply after_set_value. lia.
Qed.

End after.

Lemma sets_on_sub rg cols off n off' n' : off' <= off -> off + n <= off' + n' -> sets_on rg cols off' n' -> sets_on rg cols off n.
Proof.
  intros H1 H2 Hs. eapply Forall_impl; [exact Hs|]. intros x Hx. cbn in Hx. rewrite Forall_forall in Hx. apply Forall_forall. intros r Hr.
  apply Hx. by eapply seen_rows_sub.
Qed.

(** What the conditions of the statement become behind a batch. *)
Lemma conditions_after size rg cols off n rg1 cols1 m :
  batch_after rg cols off n rg1 cols1 -> off + n + m <= row_count_ rg ->
  where_on F e tx (us_pred u) ids rg cols off (n + m) -> sets_on rg cols off (n + m) -> storable_on size rg cols off (n + m) ->
  where_on F e tx (us_pred u) ids rg1 cols1 (off + n) m /\ sets_on rg1 cols1 (off + n) m /\ storable_on size rg1 cols1 (off + n) m.
Proof.
  intros Ha Hm Hw Hsets Hst. split_and!.
  - apply (where_on_sub F e tx (us_pred u) ids rg cols (off + n) m) in Hw; [|lia..]. unfold where_on in *.
    rewrite (after_seen _ _ _ _ _ _ Ha) by done. exact Hw.
  - unfold sets_on. rewrite (after_seen _ _ _ _ _ _ Ha) by done. apply (sets_on_sub rg cols (off + n) m) in Hsets; [done|lia..].
  - unfold storable_on in *. rewrite Forall_forall in Hst. apply Forall_forall. intros [c x] Hin k Hk. cbn [fst snd].
    rewrite (after_set_col _ _ _ _ _ _ Ha) by (done || lia). apply (Hst (c, x) Hin). lia.
Qed.

(** The records of a range, batch by batch. *)
Inductive undo_trace (g : nat) : RowGroup -> column_data -> nat -> nat -> list UndoEntry -> Prop :=
  | trace_end rg cols off : undo_trace g rg cols off 0 []
  | trace_batch rg cols off n m rg1 ents ents' :
      batch_after rg cols off n rg1 (updated_cols rg cols off n) -> off + n + m <= row_count_ rg -> batch_undo g rg cols off n ents ->
      undo_trace g rg1 (updated_cols rg cols off n) (off + n) m ents' -> undo_trace g rg cols off (n + m) (ents ++ ents').

Lemma trace_records g rg cols off n ents :
  undo_trace g rg cols off n ents -> Forall update_record ents /\ concat (undo_rows <$> ents) = records g cols (hit_rows rg cols off n).
Proof.
  induction 1 as [|rg cols off n m rg1 ents ents' Ha Hm Hb _ [IH1 IH2]]; [done|]. apply batch_undo_records in Hb as [H1 H2].
  rewrite (after_hit_rows _ _ _ _ _ _ Ha) in IH2 by done. split; [by apply Forall_app|].
  rewrite fmap_app, concat_app, H2, IH2, (after_records _ _ _ _ _ _ Ha), hit_rows_app by done. unfold records. by rewrite fmap_app.
Qed.

(** What the rows of a range have become. *)
Record range_done (s : S) (rg : RowGroup) (cols : column_data) (off n : nat) (s' : S) (rg' : RowGroup) : Prop := {
  rd_stage : stage s rg s' rg' (updated_cols rg cols off n);
  rd_version : version_info_ rg' = update_marks (version_info_ rg) (row_key <$> hit_rows rg cols off n);
}.

Lemma range_done_after s rg cols off n s1 rg1 : range_done s rg cols off n s1 rg1 -> group_fit e s rg cols -> off + n <= row_count_ rg ->
  batch_after rg cols off n rg1 (updated_cols rg cols off n) /\ group_fit e s1 rg1 (updated_cols rg cols off n).
Proof.
  intros [[Hrep Hc Ht Hi Hz Hf] Hv] Hfit Hle. pose proof (fit_width _ _ _ Hfit). destruct Hfit as [Hr Hty Hsm].
  split; [by split|]. split; [done|congruence|congruence].
Qed.

Lemma range_done_app s rg cols off n m s1 rg1 s2 rg2 :
  group_fit e s rg cols -> off + n + m <= row_count_ rg ->
  range_done s rg cols off n s1 rg1 -> range_done s1 rg1 (updated_cols rg cols off n) (off + n) m s2 rg2 ->
  range_done s rg cols off (n + m) s2 rg2.
Proof.
  intros Hfit Hm H1 H2. destruct (range_done_after _ _ _ _ _ _ _ H1 Hfit) as [Ha _]; [lia|].
  destruct H1 as [Hs1 Hv1], H2 as [Hs2 Hv2].
  rewrite (after_hit_rows _ _ _ _ _ _ Ha) in Hv2 by done. rewrite (after_updated_cols _ _ _ _ _ _ Ha) in Hs2 by done. split.
  - by eapply stage_trans.
  - rewrite Hv2, Hv1, hit_rows_app, fmap_app. unfold update_marks. by rewrite foldl_app.
Qed.

Lemma stage_view s0 s rg s' rg' cols : same_view s0 s -> stage s rg s' rg' cols -> stage s0 rg s' rg' cols.
Proof. intros (_ & Hz & Hv) [? ? ? ? Hz' Hf]. split; try done; [congruence|]. intros id Hid. by rewrite Hf, Hv. Qed.

Lemma same_tx_log tx' ents : same_tx tx' -> same_tx (foldl log_change tx' ents).
Proof. intros [H1 H2]. induction ents as [|en ents IH] using rev_ind; [done|]. rewrite foldl_app. exact IH. Qed.

Lemma scanned_batch_run (s : S) rgs tx' g rg cols off n batch :
  let sel := selection (version_info_ rg) off n (tx_id tx) (start_time tx) in
  same_tx tx' -> rgs !! g = Some rg -> group_fit e s rg cols -> off + n <= row_count_ rg -> n <= STANDARD_VECTOR_SIZE ->
  chunk_wf batch -> ch_count batch = length sel -> col_types batch = ctype <$> ids ->
  dv_rows <$> columns batch = visible_rows (version_info_ rg) (tx_id tx) (start_time tx) off n <$> (col_of cols <$> ids) ->
  where_on F e tx (us_pred u) ids rg cols off n -> sets_on rg cols off n -> storable_on (bs_size s) rg cols off n ->
  exists s' rg' ents, (if Nat.eqb (ch_count batch) 0 then mret tt else update_batch F t g u batch ((fun i => row_key (off + i)) <$> sel))
      (at_groups c0 t s rgs tx') = (at_groups c0 t s' (<[g := rg']> rgs) (foldl log_change tx' ents), Ok tt) /\
    range_done s rg cols off n s' rg' /\ batch_undo g rg cols off n ents.
Proof.
  intros sel Htx Hg Hfit Hle Hn Hwf Hc Hty Hr Hw Hsets Hst. destruct (Nat.eqb_spec (ch_count batch) 0) as [H0|H0].
  - rewrite Hc in H0. apply length_zero_iff_nil in H0.
    assert (hit_rows rg cols off n = []) as Hnil by (unfold hit_rows; rewrite hits_filter; fold sel; rewrite H0; done).
    exists s, rg, []. rewrite list_insert_id by done. split; [done|]. split; [|by constructor]. split; rewrite ?Hnil; try done.
    unfold updated_cols. rewrite set_cols_nothing by done. apply stage_refl, Hfit.
  - destruct (update_batch_run s rgs tx' g rg cols off n batch) as (s2 & rg2 & ents2 & Hrun & H1 & H2 & H3); try done.
    exists s2, rg2, ents2. done.
Qed.

Lemma update_batches_run fuel : forall (s : S) rgs tx' g rg cols off,
  let n := row_count_ rg - off in
  same_tx tx' -> rgs !! g = Some rg -> group_fit e s rg cols -> off <= row_count_ rg -> n < fuel ->
  where_on F e tx (us_pred u) ids rg cols off n -> sets_on rg cols off n -> storable_on (bs_size s) rg cols off n ->
  exists s' rg' ents, update_batches F fuel t g u off (at_groups c0 t s rgs tx') =
      (at_groups c0 t s' (<[g := rg']> rgs) (foldl log_change tx' ents), Ok tt) /\
    range_done s rg cols off n s' rg' /\ undo_trace g rg cols off n ents.
Proof.
  induction fuel as [|fuel IH]; intros s rgs tx' g rg cols off total Htx Hg Hfit Hoff Hfuel Hw Hsets Hst; [lia|].
  cbn [update_batches]. rewrite (step_run _ _ _ _ _ (read_group_at c0 t e Hentry s rgs tx' g rg Hg)).
  destruct (Nat.ltb_spec off (row_count_ rg)) as [Hlt|Hge].
  2: { unfold total. replace (row_count_ rg - off) with 0 by lia. exists s, rg, []. rewrite list_insert_id by done. split; [done|].
       split; [|constructor]. split; try done. unfold updated_cols. rewrite set_cols_nothing by done. apply stage_refl, Hfit. }
  pose proof Hfit as [Hrep Hty Hsm]. rewrite (step_run current _ _ _ _ eq_refl). cbn [at_groups ex_tx].
  destruct Htx as [Hid Hstart]. rewrite Hid, Hstart. change (mkExec s (put_groups t rgs c0) tx') with (at_groups c0 t s rgs tx').
  set (n := Nat.min STANDARD_VECTOR_SIZE (row_count_ rg - off)). set (m := row_count_ rg - (off + n)).
  assert (1 <= n /\ total = n + m) as [Hn Htot] by (unfold m, total, n, STANDARD_VECTOR_SIZE; lia). rewrite Htot in Hw, Hsets, Hst.
  destruct (ScanBatchWithOffsets_Ok s rg cols off ids (mkChunk [] 0) [] (tx_id tx) (start_time tx) Hrep Hlt) as
    (s1 & batch & Hscan & Hr & Hv & Hc & Hwf & Hct).
  { rewrite (fit_width _ _ _ Hfit). apply (uo_ids Hok). }
  fold n in Hscan, Hr, Hc.
  erewrite step_run by (unfold storage; cbn [at_groups ex_store ex_tx]; rewrite Hscan; reflexivity).
  change (mkExec s1 (ex_catalog (at_groups c0 t s rgs tx')) tx') with (at_groups c0 t s1 rgs tx'). cbn beta iota.
  assert (group_fit e s1 rg cols) as Hfit1 by (by eapply group_fit_view).
  destruct (scanned_batch_run s1 rgs tx' g rg cols off n batch) as (s2 & rg2 & ents2 & Hrun & Hdone & Hundo); try done; [lia|lia|..].
  { rewrite Hct. apply list_fmap_ext. intros i c _. unfold col_type, table_type. rewrite <- Hty, list_lookup_fmap. by destruct (column_chunks_ rg !! c). }
  { eapply where_on_sub; [| |exact Hw]; lia. }
  { eapply sets_on_sub; [| |exact Hsets]; lia. }
  { destruct Hv as (_ & -> & _). eapply Forall_impl; [exact Hst|]. intros p Hp k Hk. apply Hp. lia. }
  rewrite (step_run _ _ _ _ _ Hrun).
  destruct (range_done_after _ _ _ _ _ _ _ Hdone Hfit1) as [Ha Hfit2]; [lia|].
  pose proof (rd_stage _ _ _ _ _ _ _ Hdone) as Hstage.
  assert (row_count_ rg2 - (off + n) = m) as Hm by (by rewrite (sg_count _ _ _ _ _ Hstage)).
  destruct (conditions_after (bs_size s) rg cols off n rg2 _ m Ha) as (Hw2 & Hsets2 & Hst2); [unfold m, n; lia|done..|].
  assert (bs_size s2 = bs_size s) as Hz by (rewrite (sg_size _ _ _ _ _ Hstage); apply Hv).
  destruct (IH s2 (<[g := rg2]> rgs) (foldl log_change tx' ents2) g rg2 (updated_cols rg cols off n) (off + n)) as (s3 & rg3 & ents3 & Hrun3 & Hdone3 & Htrace);
    rewrite ?Hm; try done.
  - by apply same_tx_log.
  - rewrite list_lookup_insert_eq; [done|by eapply lookup_lt_Some].
  - rewrite (sg_count _ _ _ _ _ Hstage). lia.
  - lia.
  - by rewrite Hz.
  - exists s3, rg3, (ents2 ++ ents3)%list. rewrite Hm in Hdone3, Htrace. rewrite Hrun3, list_insert_insert_eq, foldl_app. split; [done|].
    rewrite Htot. destruct (range_done_app s1 rg cols off n m s2 rg2 s3 rg3 Hfit1) as [H1 H2]; [unfold m, n; lia|done..|].
    split; [split; [by eapply stage_view|done]|]. econstructor; [exact Ha|unfold m, n; lia|done|done].
Qed.

(** *** All groups *)

Definition group_ids (rg : RowGroup) : list Z := concat (chunk_ids <$> column_chunks_ rg).

(** A group that can be updated, and what it has become. *)
Record group_ready (s : S) (p : RowGroup * column_data) : Prop := {
  gr_fit : group_fit e s p.1 p.2;
  gr_where : where_ok F e tx (us_pred u) ids p.1 p.2;
  gr_sets : sets_on p.1 p.2 0 (row_count_ p.1);
  gr_storable : storable_on (bs_size s) p.1 p.2 0 (row_count_ p.1);
}.

Definition group_hit_rows (p : RowGroup * column_data) : list nat := hit_rows p.1 p.2 0 (row_count_ p.1).
Definition group_cols_after (p : RowGroup * column_data) : column_data := updated_cols p.1 p.2 0 (row_count_ p.1).

Record group_updated (s : S) (p : RowGroup * column_data) (rg' : RowGroup) : Prop := {
  gu_rep : rg_rep s rg' (group_cols_after p);
  gu_count : row_count_ rg' = row_count_ p.1;
  gu_types : type_ <$> column_chunks_ rg' = ColumnTypes e;
  gu_ids : group_ids rg' = group_ids p.1;
  gu_version : version_info_ rg' = update_marks (version_info_ p.1) (row_key <$> group_hit_rows p);
}.

Definition all_records (ps : list (RowGroup * column_data)) : list (Z * sql_row * sql_row) :=
  concat (imap (fun g p => records g p.2 (group_hit_rows p)) ps).

Lemma all_records_snoc ps p : all_records (ps ++ [p]) = (all_records ps ++ records (length ps) p.2 (group_hit_rows p))%list.
Proof. unfold all_records. rewrite imap_app, concat_app. cbn. by rewrite app_nil_r, Nat.add_0_r. Qed.

Lemma rg_rep_frame (s s' : S) rg cols :
  bs_ok s' -> (forall id, id ∈ group_ids rg -> bs_view s' id = bs_view s id) -> rg_rep s rg cols -> rg_rep s' rg cols.
Proof.
  intros Hok' Hv [_ HF Hl Hnd]. split; try done. apply Forall2_same_length_lookup. split; [by eapply Forall2_length|].
  intros k cc col Hcc Hcol. apply (chunk_rep_frame s); [done| |by eapply Forall2_lookup_lr]. intros id b Hin Hb. rewrite Hv; [done|].
  apply list_elem_of_In, in_concat. exists (chunk_ids cc). split; [|by apply list_elem_of_In].
  apply list_elem_of_In, list_elem_of_fmap_2. by eapply list_elem_of_lookup_2.
Qed.

Lemma group_ready_frame (s s' : S) p :
  bs_ok s' -> bs_size s' = bs_size s -> (forall id, id ∈ group_ids p.1 -> bs_view s' id = bs_view s id) -> group_ready s p -> group_ready s' p.
Proof.
  intros Hok' Hz Hv [[Hr Ht Hsm] Hw Hs Hst]. split; try done; [|by rewrite Hz]. split; try done. by eapply rg_rep_frame.
Qed.

Lemma group_updated_frame (s s' : S) p rg' :
  bs_ok s' -> (forall id, id ∈ group_ids p.1 -> bs_view s' id = bs_view s id) -> group_updated s p rg' -> group_updated s' p rg'.
Proof. intros Hok' Hv [Hr Hc Ht Hi Hver]. split; try done. eapply rg_rep_frame; [done| |exact Hr]. by rewrite Hi. Qed.

Lemma update_group_run (s : S) rgs tx' g p :
  same_tx tx' -> rgs !! g = Some p.1 -> group_ready s p ->
  exists s' rg' ents, update_group F t u g (at_groups c0 t s rgs tx') = (at_groups c0 t s' (<[g := rg']> rgs) (foldl log_change tx' ents), Ok tt) /\
    group_updated s' p rg' /\ bs_size s' = bs_size s /\ (forall id, id ∉ group_ids p.1 -> bs_view s' id = bs_view s id) /\
    undo_trace g p.1 p.2 0 (row_count_ p.1) ents.
Proof.
  intros Htx Hg [Hfit Hw Hs Hst]. unfold update_group. rewrite (step_run _ _ _ _ _ (read_group_at c0 t e Hentry s rgs tx' g p.1 Hg)).
  destruct (update_batches_run (Datatypes.S (row_count_ p.1)) s rgs tx' g p.1 p.2 0) as (s' & rg' & ents & Hrun & [[Hr Hc Ht Hi Hz Hf] Hv] & Htr);
    rewrite ?Nat.sub_0_r in *; try done; [lia|lia|].
  exists s', rg', ents. split; [done|]. split_and!; try done. split; try done.
  - rewrite Ht. apply Hfit.
  - unfold group_ids. by rewrite Hi.
Qed.

(** The records of the groups. *)
Definition group_traces (ps : list (RowGroup * column_data)) (entss : list (list UndoEntry)) : Prop :=
  Forall2 (fun gp ents => undo_trace gp.1 gp.2.1 gp.2.2 0 (row_count_ gp.2.1) ents) (imap pair ps) entss.

Lemma group_traces_snoc ps p entss ents : group_traces ps entss -> undo_trace (length ps) p.1 p.2 0 (row_count_ p.1) ents ->
  group_traces (ps ++ [p]) (entss ++ [ents]).
Proof.
  intros H1 H2. unfold group_traces. rewrite imap_app. apply Forall2_app; [done|]. cbn. constructor; [|constructor]. cbn. by rewrite Nat.add_0_r.
Qed.

Lemma group_traces_records ps entss : group_traces ps entss ->
  Forall update_record (concat entss) /\ concat (undo_rows <$> concat entss) = all_records ps.
Proof.
  intros Htr. unfold all_records. replace (imap (fun g p => records g p.2 (group_hit_rows p)) ps) with
    ((fun gp : nat * (RowGroup * column_data) => records gp.1 gp.2.2 (group_hit_rows gp.2)) <$> imap pair ps) by (by rewrite fmap_imap).
  unfold group_traces in Htr. induction Htr as [|[g p] ents gps entss Htr _ [IH1 IH2]]; [done|]. apply trace_records in Htr as [H1 H2]. cbn.
  split; [by apply Forall_app|]. by rewrite fmap_app, concat_app, H2, IH2.
Qed.

(** The groups after the first [k] of them. *)
Record groups_at (ps : list (RowGroup * column_data)) (k : nat) (s : S) (rgs : list RowGroup) (entss : list (list UndoEntry)) : Prop := {
  ga_done : Forall2 (group_updated s) (take k ps) (take k rgs);
  ga_rest : drop k rgs = (drop k ps).*1;
  ga_ready : Forall (group_ready s) (drop k ps);
  ga_traces : group_traces (take k ps) entss;
}.

Lemma groups_at_next ps k s rgs entss p s' rg' ents :
  NoDup (concat (group_ids <$> ps.*1)) -> groups_at ps k s rgs entss -> ps !! k = Some p -> k < length rgs ->
  group_updated s' p rg' -> bs_size s' = bs_size s -> (forall id, id ∉ group_ids p.1 -> bs_view s' id = bs_view s id) ->
  undo_trace k p.1 p.2 0 (row_count_ p.1) ents ->
  groups_at ps (k + 1) s' (<[k := rg']> rgs) (entss ++ [ents]).
Proof.
  intros Hnd [Hd Hr Hrd Htr] Hk Hlt Hup Hz Hv Htr'.
  assert (bs_ok s') as Hok' by apply Hup. assert (k < length ps) as Hkp by (by eapply lookup_lt_Some).
  assert (forall j q id, ps !! j = Some q -> j <> k -> id ∈ group_ids q.1 -> bs_view s' id = bs_view s id) as Hother.
  { intros j q id Hj Hne Hid. apply Hv. apply (concat_disjoint (group_ids <$> ps.*1) j k (group_ids q.1) (group_ids p.1)); try done.
    - by rewrite !list_lookup_fmap, Hj.
    - by rewrite !list_lookup_fmap, Hk. }
  rewrite Nat.add_1_r. split.
  - rewrite (take_S_r _ _ _ Hk), (take_S_r _ _ rg') by (by rewrite list_lookup_insert_eq). rewrite take_insert_ge by lia.
    apply Forall2_app; [|by constructor]. apply Forall2_same_length_lookup. split; [by eapply Forall2_length|].
    intros j q rgj Hj Hrgj. apply (group_updated_frame s); [done| |by eapply Forall2_lookup_lr].
    apply lookup_take_Some in Hj as [Hj Hjk]. intros id Hid. eapply (Hother j); [done|lia|done].
  - rewrite (drop_S _ _ _ Hk) in Hr. rewrite drop_insert_lt by lia.
    destruct (lookup_lt_is_Some_2 _ _ Hlt) as [r Hrk]. rewrite (drop_S _ _ _ Hrk) in Hr. by injection Hr.
  - rewrite (drop_S _ _ _ Hk) in Hrd. apply Forall_cons_1 in Hrd as [_ Hrd]. apply Forall_lookup_2. intros j q Hj.
    apply (group_ready_frame s); [done|done| |by eapply Forall_lookup_1]. rewrite lookup_drop in Hj. intros id Hid.
    eapply (Hother (Datatypes.S k + j)); [done|lia|done].
  - rewrite (take_S_r _ _ _ Hk). apply group_traces_snoc; [done|]. by rewrite length_take, Nat.min_l by lia.
Qed.

Lemma update_groups_run (s : S) ps :
  row_groups e = ps.*1 -> Forall (group_ready s) ps -> NoDup (concat (group_ids <$> ps.*1)) ->
  exists s' rgs entss, each_step (fun _ g => update_group F t u g) tt (seq 0 (length (row_groups e))) (mkExec s c0 tx) =
      (at_groups c0 t s' rgs (foldl log_change tx (concat entss)), Ok tt) /\
    bs_size s' = bs_size s /\ Forall2 (group_updated s') ps rgs /\ group_traces ps entss.
Proof.
  intros Hps Hready Hnd. rewrite <- (at_groups_start c0 t e Hentry).
  destruct (each_step_inv (fun (_ : unit) g => update_group F t u g)
    (fun pre _ c => exists s' rgs entss, c = at_groups c0 t s' rgs (foldl log_change tx (concat entss)) /\
       length rgs = length ps /\ bs_size s' = bs_size s /\ groups_at ps (length pre) s' rgs entss)
    tt (seq 0 (length (row_groups e))) (at_groups c0 t s (row_groups e) tx)) as ([] & c' & Hrun & s' & rgs & entss & -> & Hl & Hz & [Hd _ _ Htr]).
  - exists s, (row_groups e), []. rewrite Hps, length_fmap. split_and!; try done. split; try done. constructor.
  - intros pre g [] c (s1 & rgs & entss & -> & Hl & Hz1 & Hat) [suf Hsuf].
    assert (g = length pre /\ g < length ps) as [-> Hg].
    { assert (seq 0 (length (row_groups e)) !! length pre = Some g) as Hlk by (by rewrite Hsuf, lookup_app_r, Nat.sub_diag by done).
      rewrite Hps, length_fmap in Hlk. apply lookup_seq in Hlk as [-> ?]. lia. }
    set (k := length pre) in *. destruct (lookup_lt_is_Some_2 _ _ Hg) as [p Hp]. pose proof Hat as [_ Hrest Hrd _].
    rewrite (drop_S _ _ _ Hp) in Hrd, Hrest. apply Forall_cons_1 in Hrd as [Hrd _].
    destruct (lookup_lt_is_Some_2 rgs k) as [r Hrk]; [lia|]. rewrite (drop_S _ _ _ Hrk) in Hrest. injection Hrest as -> _.
    destruct (update_group_run s1 rgs (foldl log_change tx (concat entss)) k p) as (s2 & rg' & ents' & Hrun & Hup & Hz & Hv & Htr); try done.
    { by apply same_tx_log. }
    eexists tt, _. split; [exact Hrun|]. exists s2, (<[k := rg']> rgs), (entss ++ [ents'])%list.
    rewrite concat_app, foldl_app, length_insert, length_app. cbn. rewrite app_nil_r.
    split_and!; try done; [congruence|]. eapply groups_at_next; try done. lia.
  - exists s', rgs, entss. rewrite length_seq, Hps, length_fmap in *. rewrite !take_ge in Hd by lia. rewrite take_ge in Htr by lia. done.
Qed.

(** The new values of a row. *)
Definition clause_for (c : nat) : option LogicalExpr := snd <$> head (filter (fun p => p.1 = c) clauses).

Definition new_value (rg : RowGroup) (cols : column_data) (o c : nat) : option cell :=
  match clause_for c with
  | Some x => if is_hit rg cols o then set_value x cols o else ColumnChunk.row_at (col_of cols c) o
  | None => ColumnChunk.row_at (col_of cols c) o
  end.

Lemma clause_for_Some c x : clause_for c = Some x -> (c, x) ∈ clauses.
Proof.
  unfold clause_for. intros Hx. apply fmap_Some in Hx as ([c' x'] & Hh & ->).
  assert ((c', x') ∈ filter (fun p => p.1 = c) clauses) as Hin by (destruct (filter _ clauses); [done|]; injection Hh as ->; apply list_elem_of_here).
  apply list_elem_of_filter in Hin as [Heq Hin]. cbn in Heq. by subst.
Qed.

Lemma clause_for_None c : clause_for c = None -> c ∉ clauses.*1.
Proof.
  unfold clause_for. intros Hx Hin. apply list_elem_of_fmap in Hin as (p & -> & Hin).
  assert (p ∈ filter (fun q => q.1 = p.1) clauses) as Hf by (by apply list_elem_of_filter).
  destruct (filter _ clauses); [by apply not_elem_of_nil in Hf|done].
Qed.

Lemma updated_value s p c o : group_fit e s p.1 p.2 -> c < length (tbl_columns e) -> o < row_count_ p.1 ->
  ColumnChunk.row_at (col_of (group_cols_after p) c) o = new_value p.1 p.2 o c.
Proof.
  intros Hfit Hc Ho. pose proof (fit_width _ _ _ Hfit) as Hw. destruct p as [rg cols]. cbn [fst snd] in *.
  unfold new_value, group_cols_after. cbn [fst snd]. destruct (clause_for c) as [x|] eqn:Hcl.
  - apply clause_for_Some in Hcl. unfold col_of at 1, updated_cols. rewrite (set_cols_at _ _ _ _ _ c x); [|rewrite clauses_fst; apply (uo_nodup Hok)|done|lia].
    cbn. unfold ColumnChunk.row_at, set_col. rewrite lookup_replace_rows.
    destruct (lookup_lt_is_Some_2 cols c) as [col Hcol]; [lia|]. pose proof (Forall_lookup_1 _ _ _ _ (rr_len _ _ _ (gf_rep _ _ _ _ Hfit)) Hcol) as Hlen.
    cbn in Hlen. unfold col_of. rewrite Hcol. cbn. destruct (lookup_lt_is_Some_2 col o) as [y Hy]; [lia|]. rewrite Hy. cbn.
    destruct (is_hit rg cols o) eqn:Hh.
    + rewrite decide_True; [done|]. apply list_elem_of_filter. split; [done|apply elem_of_seq; lia].
    + rewrite decide_False; [done|]. intros Hin. apply list_elem_of_filter in Hin as [Hh' _]. congruence.
  - unfold col_of, updated_cols. by rewrite set_cols_other by (by apply clause_for_None).
Qed.

(** The transaction sees the rows it saw, with their new values. *)
Lemma seen_after_update s s' p rg' l : group_fit e s p.1 p.2 -> group_updated s' p rg' -> Forall (fun c => c < length (tbl_columns e)) l ->
  seen_rows l tx rg' (group_cols_after p) 0 (row_count_ rg') =
    (fun o => new_value p.1 p.2 o <$> l) <$> filter (fun o => sees tx p.1 o = true) (seq 0 (row_count_ p.1)).
Proof.
  intros Hfit [_ Hc _ _ Hv] Hl. unfold seen_rows. rewrite Hc. rewrite (filter_ext_Forall _ (fun i => sees tx p.1 i = true)).
  - apply list_fmap_ext. intros k o Ho. apply list_elem_of_lookup_2, list_elem_of_filter in Ho as [_ Ho%elem_of_seq].
    unfold table_row. apply list_fmap_ext. intros j c Hj. pose proof (Forall_lookup_1 _ _ _ _ Hl Hj). eapply updated_value; [done|done|lia].
  - apply Forall_forall. intros o Ho%elem_of_seq. unfold sees at 1, IsVisible. rewrite Hv, update_marks_lookup.
    destruct (decide _) as [Hin|_]; [|done]. unfold marker_visible. cbn. rewrite Z.eqb_refl.
    apply list_elem_of_fmap in Hin as (i & Hi & Hin). pose proof (hit_rows_bound _ _ _ _ _ Hin) as Hb. pose proof (gf_small _ _ _ _ Hfit).
    apply row_key_inj in Hi as <-; [|lia..]. apply list_elem_of_filter in Hin as [Hh _]. unfold hit in Hh. apply andb_true_iff in Hh as [-> _]. done.
Qed.

End update.

(** The columns the operator reads. *)
Definition update_scan (update_cols scan_cols : list nat) : list nat := match scan_cols with [] => update_cols | _ :: _ => scan_cols end.

Lemma update_types_run {S} (c : ExecContext S) e cols :
  Forall (fun k => k < length (tbl_columns e)) cols ->
  pure_r (mapM_r (fun k => of_option UndefinedBehaviour (cd_type <$> tbl_columns e !! k)) cols) c = (c, Ok (table_type (ColumnTypes e) <$> cols)).
Proof.
  intros Hc. unfold pure_r. f_equal. induction Hc as [|k cols Hk _ IH]; [done|]. cbn [mapM_r].
  destruct (lookup_lt_is_Some_2 _ _ Hk) as [cd Hcd]. rewrite Hcd. cbn [fmap option_fmap option_map of_option mbind result_bind].
  rewrite IH. cbn. do 2 f_equal. unfold table_type, ColumnTypes. by rewrite list_lookup_fmap, Hcd.
Qed.

Lemma Update_run {S} `{BlockStoreLaws S} F (c : ExecContext S) schema table upd scan exprs pred i e ps :
  let tx := ex_tx c in
  let u := mkUpdateSpec upd (table_type (ColumnTypes e) <$> upd) exprs (update_scan upd scan) pred in
  let t := mkRef schema table i in
  GetTable (ex_catalog c) schema table tx = Some (i, e) -> row_groups e = ps.*1 -> update_ok e u ->
  Forall (group_ready F e tx u (ex_store c)) ps -> NoDup (concat (group_ids <$> ps.*1)) ->
  exists s' rgs entss, Update F schema table upd scan exprs pred c =
      (mkExec s' (put_groups t rgs (ex_catalog c)) (foldl log_change tx (concat entss)), Ok tt) /\
    bs_size s' = bs_size (ex_store c) /\ Forall2 (group_updated F e tx u s') ps rgs /\ group_traces F t e tx u ps entss.
Proof.
  intros tx u t Hg Hps Hok Hready Hnd. pose proof (GetTable_entry _ _ _ _ _ _ Hg) as He. unfold Update.
  rewrite (step_run _ _ _ _ _ (need_table_run c schema table "UPDATE" i e Hg)), (step_run _ _ _ _ _ (read_table_run c _ e He)).
  assert (Forall (fun k => k < length (tbl_columns e)) upd) as Hupd.
  { pose proof (uo_ids _ _ Hok) as Hids. rewrite Forall_forall in Hids. apply Forall_forall. intros k Hk. by apply Hids, (uo_cols _ _ Hok). }
  rewrite (step_run _ _ _ _ _ (update_types_run c e upd Hupd)). destruct c as [s cat tx0]. cbn [ex_store ex_catalog ex_tx] in *. subst tx.
  exact (update_groups_run F cat t e tx0 u He Hok s ps Hps Hready Hnd).
Qed.

(** C24: UPDATE gives every visible row that matches the condition the values of
    the SET clauses, computed from the row before the statement, changes no
    other value, leaves the transaction the same rows with the new values, and
    logs the numbers, old and new values of exactly the changed rows, provided
    that the columns set are distinct and the clauses well typed, condition and
    clauses have a value on every row seen, the blocks of the row groups are
    distinct, groups have fewer than 2^32 rows, and at every stage of the update
    each range of at most 1024 rows of a column that is set can be stored by the
    compression picked for it ([storable_on]). The last condition excludes the
    columns of [bitpack_null_corrupts] and [delta_gap_corrupts], whose other
    rows an UPDATE corrupts. *)
Theorem update_sets_matching {S} `{BlockStoreLaws S} F (c : ExecContext S) schema table upd scan exprs pred i e ps :
  let tx := ex_tx c in
  let u := mkUpdateSpec upd (table_type (ColumnTypes e) <$> upd) exprs (update_scan upd scan) pred in
  let all := seq 0 (length (tbl_columns e)) in
  GetTable (ex_catalog c) schema table tx = Some (i, e) -> row_groups e = ps.*1 -> update_ok e u ->
  Forall (group_ready F e tx u (ex_store c)) ps -> NoDup (concat (group_ids <$> ps.*1)) ->
  exists s' rgs ents, Update F schema table upd scan exprs pred c =
      (mkExec s' (put_groups (mkRef schema table i) rgs (ex_catalog c)) (foldl log_change tx ents), Ok tt) /\
    Forall2 (group_updated F e tx u s') ps rgs /\
    Forall2 (fun p rg => seen_rows all tx rg (group_cols_after F tx u p) 0 (row_count_ rg) =
      (fun o => new_value F tx u p.1 p.2 o <$> all) <$> filter (fun o => sees tx p.1 o = true) (seq 0 (row_count_ p.1))) ps rgs /\
    Forall (update_record (mkRef schema table i) u) ents /\ concat (undo_rows <$> ents) = all_records F tx u ps.
Proof.
  intros tx u all Hg Hps Hok Hready Hnd.
  destruct (Update_run F c schema table upd scan exprs pred i e ps Hg Hps Hok Hready Hnd) as (s' & rgs & entss & Hrun & _ & Hup & Htr).
  apply group_traces_records in Htr as [Hents Hrec].
  exists s', rgs, (concat entss). split; [exact Hrun|]. split_and!; try done.
  apply Forall2_same_length_lookup. split; [by eapply Forall2_length|]. intros k p rg Hp Hrg.
  pose proof (Forall_lookup_1 _ _ _ _ Hready Hp) as [Hfit _ _ _]. pose proof (Forall2_lookup_lr _ _ _ _ _ _ Hup Hp Hrg) as Hu.
  eapply seen_after_update; try done. apply Forall_forall. intros x Hx%elem_of_seq. lia.
Qed.

(** ** [UPDATE t SET a = b + 10 WHERE a > 5] on a table with the rows (5, 5) and
    (7, 7). *)
Definition pair_rg : RowGroup := mkRG 0 2 [INT64; INT64] [cc_57; cc_57] VI_empty 0 INVALID_TRANSACTION.
Definition pair_cols : column_data := [[Some (CInt 5); Some (CInt 7)]; [Some (CInt 5); Some (CInt 7)]].
Definition pair_entry : TableCatalogEntry :=
  mkEntry "t" "main" 1 1 INVALID_TRANSACTION INVALID_TIMESTAMP [mkCol "a" INT64 false false; mkCol "b" INT64 false false]
    [pair_rg] (mkPI PT_NONE [] [] 0 []) [].
Definition pair_catalog : Catalog := mkCatalog {["main"%string := mkSchema "main" {["t"%string := [pair_entry]]}]}.
Definition pair_context : ExecContext BufferManager := mkExec (empty_bm default_block) pair_catalog scan_tx.
Definition pair_set : LogicalExpr := LogicalBinaryOp INT64 "+" (BoundColumnRef INT64 1 "b") (LogicalLit INT64 (Value_Integer 10) false).
Definition pair_where : LogicalExpr := LogicalBinaryOp BOOLEAN ">" (BoundColumnRef INT64 0 "a") (LogicalLit INT64 (Value_Integer 5) false).
Definition pair_spec : UpdateSpec := mkUpdateSpec [0] [INT64] [pair_set] [0; 1] (Some pair_where).

Lemma pair_ready : group_ready sample_FPU pair_entry scan_tx pair_spec (empty_bm default_block) (pair_rg, pair_cols).
Proof.
  assert (seen_rows [0; 1] scan_tx pair_rg pair_cols 0 2 = [[Some (CInt 5); Some (CInt 5)]; [Some (CInt 7); Some (CInt 7)]]) as Hseen
    by (vm_compute; reflexivity). split.
  - split; [|reflexivity|done]. pose proof cc_57_rep as Hrep. split; [apply empty_bm_ok, default_block_size|by repeat constructor|by repeat constructor|constructor].
  - split; [repeat constructor|]. cbn [us_scan us_pred pair_spec fst snd row_count_ pair_rg] in *. fold pair_rg. rewrite Hseen.
    repeat (apply Forall_cons; split; [vm_compute; eauto|]). apply Forall_nil_2.
  - unfold sets_on. cbn [us_scan us_exprs pair_spec fst snd]. change (row_count_ pair_rg) with 2. rewrite Hseen.
    repeat constructor; vm_compute; eauto.
  - constructor; [|constructor]. intros m Hm. cbn [fst snd] in *. change (row_count_ pair_rg) with 2 in Hm.
    assert (Forall (narrow 0) (set_col sample_FPU scan_tx pair_spec pair_rg pair_cols 0 m 0 pair_set)) as Hn.
    { assert (set_col sample_FPU scan_tx pair_spec pair_rg pair_cols 0 m 0 pair_set = [Some (CInt 5); Some (CInt 7)] \/
        set_col sample_FPU scan_tx pair_spec pair_rg pair_cols 0 m 0 pair_set = [Some (CInt 5); Some (CInt 17)]) as Hcase
        by (destruct m as [|[|[|m]]]; [left; vm_compute; reflexivity|left; vm_compute; reflexivity|right; vm_compute; reflexivity|lia]).
      destruct Hcase as [->| ->]; repeat constructor; eexists; (split; [reflexivity|]); unfold is_i64; lia. }
    split; [eapply Forall_impl; [exact Hn|apply narrow_row_ok]|]. intros start k _. apply (narrow_rewritable _ _ 0); [done| |by apply Forall_take, Forall_drop].
    apply default_block_size.
Qed.

Lemma pair_update_ok : update_ok pair_entry pair_spec.
Proof.
  split; cbn [us_scan us_cols us_types us_exprs pair_spec].
  - repeat constructor.
  - intros c Hc. apply list_elem_of_singleton in Hc as ->. apply list_elem_of_here.
  - apply NoDup_singleton.
  - reflexivity.
  - repeat constructor.
Qed.

Lemma update_sets_matching_witness :
  exists s' rg' ents, Update sample_FPU "main" "t" [0] [0; 1] [pair_set] (Some pair_where) pair_context =
      (mkExec s' (put_groups (mkRef "main" "t" 0) [rg'] pair_catalog) (foldl log_change scan_tx ents), Ok tt) /\
    seen_rows [0; 1] scan_tx rg' [[Some (CInt 5); Some (CInt 17)]; [Some (CInt 5); Some (CInt 7)]] 0 2 =
      [[Some (CInt 5); Some (CInt 5)]; [Some (CInt 17); Some (CInt 7)]] /\
    concat (undo_rows <$> ents) = [(1%Z, [Some (CInt 7)], [Some (CInt 17)])].
Proof.
  destruct (update_sets_matching sample_FPU pair_context "main" "t" [0] [0; 1] [pair_set] (Some pair_where) 0 pair_entry [(pair_rg, pair_cols)])
    as (s' & rgs & ents & Hrun & Hup & Hseen & _ & Hrec).
  - vm_compute. reflexivity.
  - reflexivity.
  - apply pair_update_ok.
  - constructor; [apply pair_ready|constructor].
  - constructor.
  - inversion Hup as [|p rg' ps' rgs' Hu Hnil]; subst. inversion Hnil; subst. inversion Hseen as [|p q l l' Hs _]; subst. cbn [fst] in *.
    exists s', rg', ents. split; [exact Hrun|]. split; [|rewrite Hrec; vm_compute; reflexivity].
    rewrite (gu_count _ _ _ _ _ _ _ Hu) in Hs.
    assert (group_cols_after sample_FPU (ex_tx pair_context) (mkUpdateSpec [0] (table_type (ColumnTypes pair_entry) <$> [0]) [pair_set]
      (update_scan [0] [0; 1]) (Some pair_where)) (pair_rg, pair_cols) = [[Some (CInt 5); Some (CInt 17)]; [Some (CInt 5); Some (CInt 7)]]) as Hc
      by (vm_compute; reflexivity).
    rewrite Hc in Hs. etrans; [exact Hs|]. vm_compute. reflexivity.
Defined.
