(* ===== verification/UpdateRollback.v ===== *)
(** * A rolled-back UPDATE

    [TransactionManager] models the rollback of [transaction/transaction_manager.cpp],
    which reads the undo buffer from its end and writes the old values of every
    UPDATE record back; [DmlUpdate] proves what the statement wrote.  This file
    puts the two together: the rollback of an UPDATE returns every column to what
    it was, batch by batch in the opposite order, and deletes the markers of the
    rows the statement had marked. *)

From Stdlib Require Import ZArith String.
From stdpp Require Import base gmap strings list fin_maps sorting.
From S2P Require Import Prelude Types Double Expr Operators VersionInfo BlockFile BufferManager ColumnChunk RowGroup PartitionInfo Transaction Schema Catalog Wal TableScan TransactionManager Dml DmlUpdate.

(** ** Row numbers *)

Lemma MakeRowId_parts g o : (0 <= g < 2 ^ 32)%Z -> (0 <= o < 2 ^ 32)%Z -> RowIdGroup (MakeRowId g o) = g /\ RowIdOffset (MakeRowId g o) = o.
Proof.
  intros Hg Ho. assert (MakeRowId g o = (g * 2 ^ 32 + o)%Z) as ->.
  { unfold MakeRowId, u64. rewrite Z.mod_small by (rewrite Z.shiftl_mul_pow2; lia). rewrite Z.lor_comm, lor_shiftl_add by lia. lia. }
  unfold RowIdGroup, RowIdOffset, u32. rewrite Z.shiftr_div_pow2, Z.div_add_l, (Z.div_small o) by lia. split.
  - rewrite Z.add_0_r. by apply Z.mod_small.
  - rewrite Z.add_comm, Z.mod_add by lia. by apply Z.mod_small.
Qed.

Lemma row_key_range i : (0 <= row_key i < 2 ^ 32)%Z.
Proof. unfold row_key, u32. apply Z.mod_pos_bound. lia. Qed.

(** ** The records of a statement, in the opposite order *)

Lemma revert_updates_lookup vi os k :
  markers_ (foldl RevertUpdate vi os) !! k = if decide (k ∈ os) then None else markers_ vi !! k.
Proof.
  induction os as [|o os IH] using rev_ind; [done|]. rewrite foldl_app. cbn [foldl]. set (vi' := foldl RevertUpdate vi os) in *.
  assert (markers_ (RevertUpdate vi' o) !! k = if decide (o = k) then None else markers_ vi' !! k) as ->.
  { unfold RevertUpdate. destruct (markers_ vi' !! o) as [m|] eqn:Ho; cbn [markers_]; destruct (decide (o = k)) as [<-|Hne]; try done.
    - by rewrite lookup_delete_eq.
    - by rewrite lookup_delete_ne. }
  rewrite IH. destruct (decide (o = k)) as [<-|Hne].
  - rewrite decide_True; [done|]. apply elem_of_app. right. apply list_elem_of_here.
  - apply decide_ext. rewrite elem_of_app, list_elem_of_singleton. naive_solver.
Qed.

Section rollback.
Context {S : Type} {BSops : BlockStore S} {BSlaws : BlockStoreLaws S} (F : FPU).
Context (c0 : Catalog) (t : TableRef) (e : TableCatalogEntry) (tx : Transaction) (u : UpdateSpec).
Hypothesis Hget : GetTable c0 (ref_schema t) (ref_table t) tx = Some (ref_pos t, e).
Hypothesis Hok : update_ok e u.

Notation ctype := (table_type (ColumnTypes e)).
Notation hit_rows := (DmlUpdate.hit_rows F tx u).
Notation set_col := (DmlUpdate.set_col F tx u).
Notation set_cols := (DmlUpdate.set_cols F tx u).
Notation updated_cols := (DmlUpdate.updated_cols F tx u).

Lemma GetTable_put rgs tx' : same_tx tx tx' ->
  GetTable (put_groups t rgs c0) (ref_schema t) (ref_table t) tx' = Some (ref_pos t, set_row_groups e rgs).
Proof.
  intros [Hid Hst]. rewrite (GetTable_ext _ _ _ tx tx') by done. rewrite GetTable_eq in *. unfold put_groups, update_entry, GetSchema in *. simpl.
  rewrite lookup_alter_eq. destruct (schemas_ c0 !! ref_schema t) as [s|]; [|done]. simpl. unfold versions_of, alter_versions in *. simpl.
  rewrite lookup_alter_eq. simpl in Hget. destruct (entries_ s !! ref_table t) as [l|]; [|by simpl in Hget]. simpl in *. rewrite last_visible_alter by done. rewrite Hget. simpl.
  by rewrite decide_True.
Qed.

Lemma put_group_at rgs g rg : on_row_group (ref_schema t) (ref_table t) (ref_pos t) g (fun _ => rg) (put_groups t rgs c0) = put_groups t (<[g := rg]> rgs) c0.
Proof.
  unfold on_row_group, put_groups. rewrite update_entry_twice. pose proof (GetTable_entry _ _ _ _ _ _ Hget) as He.
  apply (update_entry_ext _ _ _ _ _ _ e); [by destruct t|]. cbn. f_equal. apply alter_const.
Qed.

(** *** One record *)

(** Writing the old values back. *)
Lemma restored_column rg cols off n c x :
  replace_rows (fun o => if decide (o ∈ hit_rows rg cols off n) then Some (ColumnChunk.row_at (col_of cols c) o) else None) (set_col rg cols off n c x) = col_of cols c.
Proof.
  apply list_eq. intros o. unfold DmlUpdate.set_col. rewrite !lookup_replace_rows. destruct (col_of cols c !! o) as [y|] eqn:Hy; [|done]. cbn. f_equal.
  destruct (decide _); [|done]. cbn. unfold ColumnChunk.row_at. by rewrite Hy.
Qed.

Lemma unset_cols p ps rg cols off n : NoDup (p :: ps).*1 -> p.1 < length cols ->
  <[p.1 := col_of cols p.1]> (set_cols (p :: ps) rg cols off n) = set_cols ps rg cols off n.
Proof.
  intros Hnd Hlt. destruct p as [c x]. cbn [fst] in *. cbn [fmap list_fmap fst] in Hnd. apply NoDup_cons in Hnd as [Hc Hnd].
  apply list_eq. intros k. destruct (decide (c = k)) as [<-|Hne].
  - rewrite list_lookup_insert_eq by (by rewrite length_set_cols). rewrite set_cols_other by done. unfold col_of.
    destruct (lookup_lt_is_Some_2 _ _ Hlt) as [col Hcol]. by rewrite Hcol.
  - rewrite list_lookup_insert_ne by done. destruct (decide (k ∈ ps.*1)) as [Hin|Hin].
    + apply list_elem_of_fmap in Hin as ([k' y] & -> & Hin). cbn [fst] in *.
      destruct (decide (k' < length cols)) as [Hk|Hk].
      * rewrite !(set_cols_at _ _ _ _ _ _ _ _ k' y); try done; [cbn; by apply NoDup_cons|by apply list_elem_of_further].
      * rewrite !lookup_ge_None_2; [done|rewrite length_set_cols; lia..].
    + rewrite !set_cols_other; [done|done|]. cbn. rewrite elem_of_cons. naive_solver.
Qed.

Lemma restore_columns_run rg cols off n ps : forall (s : S) rg' olds,
  let os := hit_rows rg cols off n in
  NoDup ps.*1 -> Forall (fun p => p.1 < length (tbl_columns e)) ps -> length cols = length (tbl_columns e) ->
  group_fit e s rg' (set_cols ps rg cols off n) -> Forall (fun o => o < row_count_ rg') os ->
  Forall (fun p => let rows := col_of cols p.1 in
    Forall row_ok rows /\ forall start k, k <= STANDARD_VECTOR_SIZE -> rows_rewritable (bs_size s) (ctype p.1) (slice start k rows)) ps ->
  Forall2 (fun p v => dv_wf v /\ dv_type v = ctype p.1 /\ dv_rows v = (fun o => ColumnChunk.row_at (col_of cols p.1) o) <$> os) ps olds ->
  exists s' ccs, restore_columns s (column_chunks_ rg') os ps.*1 olds = Ok (s', ccs) /\ stage s rg' s' (with_chunks rg' ccs) cols.
Proof.
  induction ps as [|p ps IH]; intros s rg' olds os Hnd Hlt Hlc Hfit Hos Hst Hv; inversion Hv as [|? v ? olds' [Hw [Ht Hr]] Hv']; subst.
  { exists s, (column_chunks_ rg'). split; [done|]. destruct Hfit as [Hrep _ _]. destruct rg'. by apply stage_refl. }
  pose proof (Forall_cons_1 _ _ _ Hlt) as [Hp Hlt']. pose proof (Forall_cons_1 _ _ _ Hst) as [[Hro Hrw] Hst']. pose proof Hfit as [Hrep Hty Hsm].
  set (now := set_cols (p :: ps) rg cols off n) in *.
  assert (now !! p.1 = Some (set_col rg cols off n p.1 p.2)) as Hnow.
  { unfold now. destruct p as [c x]. apply (set_cols_at _ _ _ _ _ _ _ _ c x); [done|apply list_elem_of_here|cbn in *; lia]. }
  destruct (lookup_lt_is_Some_2 (column_chunks_ rg') p.1) as [cc Hcc].
  { rewrite <- (length_fmap type_), Hty. unfold ColumnTypes. by rewrite length_fmap. }
  assert (type_ cc = ctype p.1) as Htc.
  { unfold table_type. rewrite <- Hty, list_lookup_fmap, Hcc. done. }
  assert (replace_rows (fun o => if decide (o ∈ os) then Some (ColumnChunk.row_at (col_of cols p.1) o) else None) (set_col rg cols off n p.1 p.2)
    = col_of cols p.1) as Hback by apply restored_column.
  destruct (write_column s rg' now p.1 cc _ os v (fun o => ColumnChunk.row_at (col_of cols p.1) o) Hrep Hcc Hnow Hw) as (s1 & cc' & Hwr & Hst1);
    [by rewrite Htc|done|apply hit_rows_sorted|done|by rewrite Hback|intros start k Hk; rewrite Hback, Htc; by apply Hrw|].
  rewrite Hback in Hst1. unfold now in Hst1. rewrite unset_cols in Hst1 by (done || lia).
  destruct (IH s1 (with_chunks rg' (<[p.1 := cc']> (column_chunks_ rg'))) olds') as (s2 & ccs & Hrun & Hst2); try done.
  - cbn in Hnd. by apply NoDup_cons in Hnd as [_ ?].
  - destruct Hst1 as [H1 H2 H3 H4 H5 H6]. split; [done|by rewrite H3|done].
  - by rewrite (sg_size _ _ _ _ _ Hst1).
  - exists s2, ccs. rewrite fmap_cons. cbn [restore_columns]. rewrite Hcc, Hwr. cbn [mbind result_bind].
    split; [exact Hrun|]. eapply stage_trans; [exact Hst1|]. exact Hst2.
Qed.

(** The records [ents] take the group with the columns [cols'] back to [cols]. *)
Definition reverts (size g count : nat) (cols cols' : column_data) (os : list nat) (ents : list UndoEntry) : Prop :=
  forall (s : S) rgs rg' tx', same_tx tx tx' -> rgs !! g = Some rg' -> group_fit e s rg' cols' -> row_count_ rg' = count -> bs_size s = size ->
  exists s' rg'', foldM (revert_entry tx') (s, put_groups t rgs c0) (rev ents) = Ok (s', put_groups t (<[g := rg'']> rgs) c0) /\
    stage s rg' s' rg'' cols /\
    forall k, markers_ (version_info_ rg'') !! k = if decide (k ∈ row_key <$> os) then None else markers_ (version_info_ rg') !! k.

Lemma reverts_nothing size g count cols : reverts size g count cols cols [] [].
Proof.
  intros s rgs rg' tx' _ Hg [Hrep _ _] _ _. exists s, rg'. cbn. rewrite list_insert_id by done. split_and!; [done|by apply stage_refl|].
  intros k. by rewrite decide_False by apply not_elem_of_nil.
Qed.

Lemma reverts_app size g count cols cols1 cols2 os1 os2 ents1 ents2 :
  reverts size g count cols cols1 os1 ents1 -> reverts size g count cols1 cols2 os2 ents2 -> reverts size g count cols cols2 (os1 ++ os2) (ents1 ++ ents2).
Proof.
  intros H1 H2 s rgs rg' tx' Htx Hg Hfit Hc Hz. rewrite rev_app_distr, foldM_app.
  destruct (H2 s rgs rg' tx' Htx Hg Hfit Hc Hz) as (s1 & rg1 & -> & Hst1 & Hm1). cbn [mbind result_bind].
  pose proof Hst1 as [Hr1 Hc1 Ht1 _ Hz1 _]. destruct Hfit as [_ Hty Hsm].
  destruct (H1 s1 (<[g := rg1]> rgs) rg1 tx' Htx) as (s2 & rg2 & -> & Hst2 & Hm2).
  - rewrite list_lookup_insert_eq; [done|by eapply lookup_lt_Some].
  - split; [done|by rewrite Ht1|by rewrite Hc1].
  - by rewrite Hc1.
  - by rewrite Hz1.
  - exists s2, rg2. rewrite list_insert_insert_eq. split_and!; [done|by eapply stage_trans|]. intros k. rewrite Hm2, Hm1, fmap_app.
    destruct (decide (k ∈ row_key <$> os1)) as [H|H]; [by rewrite decide_True by (apply elem_of_app; by left)|].
    apply decide_ext. rewrite elem_of_app. tauto.
Qed.

Lemma storable_start size rg cols off n :
  storable_on F e tx u size rg cols off n ->
  Forall (fun p => let rows := col_of cols p.1 in
    Forall row_ok rows /\ forall start k, k <= STANDARD_VECTOR_SIZE -> rows_rewritable size (ctype p.1) (slice start k rows)) (clauses u).
Proof.
  intros Hst. eapply Forall_impl; [exact Hst|]. intros p Hp. specialize (Hp 0 ltac:(lia)).
  assert (set_col rg cols off 0 p.1 p.2 = col_of cols p.1) as Heq; [|by rewrite Heq in Hp].
  apply list_eq. intros o. unfold DmlUpdate.set_col. rewrite lookup_replace_rows, decide_False; [by destruct (col_of cols p.1 !! o)|].
  intros Hin. apply hit_rows_bound in Hin. lia.
Qed.

Lemma batch_reverts size g rg cols off n ents :
  (Z.of_nat g < 2 ^ 32)%Z -> (Z.of_nat (row_count_ rg) < 2 ^ 32)%Z -> off + n <= row_count_ rg -> length cols = length (tbl_columns e) ->
  storable_on F e tx u size rg cols off n -> batch_undo F t e tx u g rg cols off n ents ->
  reverts size g (row_count_ rg) cols (updated_cols rg cols off n) (hit_rows rg cols off n) ents.
Proof.
  intros Hg Hsm Hle Hlc Hst [H0|olds news os Hne Hw Ht Hold _].
  { unfold DmlUpdate.updated_cols. rewrite set_cols_nothing, H0 by done. apply reverts_nothing. }
  intros s rgs rg' tx' Htx Hgr Hfit Hc <-. apply storable_start in Hst. cbn [rev app foldM revert_entry mbind result_bind].
  unfold revert_update. cbn [uu_schema uu_table uu_row_ids uu_col_ids old_values ch_count columns]. rewrite (GetTable_put rgs tx' Htx).
  assert (Forall (fun o => o < row_count_ rg') os) as Hos by (apply Forall_forall; intros o Ho; apply hit_rows_bound in Ho; lia).
  assert (RowIdOffset <$> (MakeRowId (row_key g) <$> (row_key <$> os)) = row_key <$> os) as Hoffs.
  { rewrite <- !list_fmap_compose. apply list_fmap_ext. intros i o _. cbn. by apply MakeRowId_parts; apply row_key_range. }
  rewrite !length_fmap, Nat.min_id, take_ge by (by rewrite !length_fmap). destruct os as [|o0 os0] eqn:Eos; [done|].
  rewrite !fmap_cons. cbn [row_groups set_row_groups].
  assert (Z.to_nat (RowIdGroup (MakeRowId (row_key g) (row_key o0))) = g) as ->.
  { rewrite (proj1 (MakeRowId_parts _ _ (row_key_range g) (row_key_range o0))), row_key_small by done. lia. }
  rewrite Hgr. rewrite <- !fmap_cons, Hoffs, <- Eos in *. rewrite (to_nat_row_keys os (row_count_ rg')) by (done || congruence).
  destruct (restore_columns_run rg cols off n (clauses u) s rg' olds) as (s' & ccs & Hrun & Hstage); try done.
  { rewrite (clauses_fst e u Hok). apply (uo_nodup _ _ Hok). }
  { apply Forall_forall. intros [c x] Hin. by eapply clause_col. }
  { pose proof (clauses_fst e u Hok) as Hfst. apply Forall2_same_length_lookup. split.
    { apply (f_equal length) in Ht. rewrite !length_fmap in Ht. by rewrite Ht, <- Hfst, length_fmap. }
    intros k p v Hp Hv. rewrite <- Hfst in Ht, Hold. apply (f_equal (lookup k)) in Ht, Hold. rewrite !list_lookup_fmap, Hp, Hv in Ht.
    rewrite !list_lookup_fmap, Hp, Hv in Hold. injection Ht as Ht. injection Hold as Hold. split; [by eapply Forall_lookup_1|]. done. }
  rewrite (clauses_fst e u Hok) in Hrun. unfold os. rewrite Hrun. cbn [mbind result_bind].
  eexists s', _. rewrite put_group_at. split; [reflexivity|]. split.
  - destruct Hstage as [[? ? ? ?] ? ? ? ? ?]. by split.
  - intros k. cbn. apply revert_updates_lookup.
Qed.

Lemma trace_reverts size g rg cols off n ents :
  undo_trace F t e tx u g rg cols off n ents -> (Z.of_nat g < 2 ^ 32)%Z -> storable_on F e tx u size rg cols off n ->
  reverts size g (row_count_ rg) cols (updated_cols rg cols off n) (hit_rows rg cols off n) ents.
Proof.
  induction 1 as [rg cols off|rg cols off n m rg1 ents ents' Ha Hm Hb _ IH]; intros Hg Hst.
  { unfold DmlUpdate.updated_cols. rewrite set_cols_nothing by done. apply reverts_nothing. }
  pose proof (ba_small _ _ _ _ _ _ _ _ _ _ Ha) as Hsm. pose proof (ba_len _ _ _ _ _ _ _ _ _ _ Ha) as Hlen.
  rewrite hit_rows_app, <- (after_updated_cols F e tx u Hok _ _ _ _ _ _ Ha) by done. eapply reverts_app.
  - apply batch_reverts; try done; [lia|]. eapply Forall_impl; [exact Hst|]. intros p Hp k Hk. apply Hp. lia.
  - rewrite <- (after_hit_rows F e tx u _ _ _ _ _ _ Ha), <- (ba_count _ _ _ _ _ _ _ _ _ _ Ha) by done. apply IH; [done|].
    unfold storable_on in *. rewrite Forall_forall in Hst. apply Forall_forall. intros [c x] Hin k Hk. cbn [fst snd].
    rewrite (after_set_col F e tx u Hok _ _ _ _ _ _ Ha) by (done || lia). apply (Hst (c, x) Hin). lia.
Qed.

(** *** All groups *)

(** A group after the rollback, against the group before the statement. *)
Record group_restored (s : S) (p : RowGroup * column_data) (rg : RowGroup) : Prop := {
  gs_rep : rg_rep s rg p.2;
  gs_count : row_count_ rg = row_count_ p.1;
  gs_types : type_ <$> column_chunks_ rg = ColumnTypes e;
  gs_ids : group_ids rg = group_ids p.1;
  gs_markers : forall k, markers_ (version_info_ rg) !! k =
    if decide (k ∈ row_key <$> group_hit_rows F tx u p) then None else markers_ (version_info_ p.1) !! k;
}.

Lemma group_restored_frame (s s' : S) p rg :
  bs_ok s' -> (forall id, id ∈ group_ids p.1 -> bs_view s' id = bs_view s id) -> group_restored s p rg -> group_restored s' p rg.
Proof. intros Hok' Hv [Hr Hc Ht Hi Hver]. split; try done. eapply rg_rep_frame; [done| |exact Hr]. by rewrite Hi. Qed.

Lemma groups_revert size ps :
  NoDup (concat (group_ids <$> ps.*1)) -> (Z.of_nat (length ps) <= 2 ^ 32)%Z ->
  Forall (fun p => (Z.of_nat (row_count_ p.1) < 2 ^ 32)%Z /\ storable_on F e tx u size p.1 p.2 0 (row_count_ p.1)) ps ->
  forall k entss (s : S) rgs tx', same_tx tx tx' -> k <= length ps -> group_traces F t e tx u (take k ps) entss -> length rgs = length ps -> bs_size s = size ->
  Forall2 (group_updated F e tx u s) (take k ps) (take k rgs) -> Forall2 (group_restored s) (drop k ps) (drop k rgs) ->
  exists s' rgs', foldM (revert_entry tx') (s, put_groups t rgs c0) (rev (concat entss)) = Ok (s', put_groups t rgs' c0) /\
    Forall2 (group_restored s') ps rgs'.
Proof.
  intros Hnd Hlen Hps. induction k as [|k IH]; intros entss s rgs tx' Htx Hk Htr Hl Hz Hup Hre.
  { unfold group_traces in Htr. cbn in Htr. inversion Htr. subst. exists s, rgs. done. }
  destruct (lookup_lt_is_Some_2 ps k) as [p Hp]; [lia|]. destruct (lookup_lt_is_Some_2 rgs k) as [rg Hrg]; [lia|].
  rewrite (take_S_r _ _ _ Hp) in Htr, Hup. rewrite (take_S_r _ _ _ Hrg) in Hup.
  unfold group_traces in Htr. rewrite imap_app in Htr. apply Forall2_app_inv_l in Htr as (entss0 & tail & Htr & Ht & ->).
  cbn in Ht. apply Forall2_cons_inv_l in Ht as (ents & nil & Ht & Hnil & ->). apply Forall2_nil_inv_l in Hnil as ->.
  cbn in Ht. rewrite Nat.add_0_r, length_take, Nat.min_l in Ht by lia.
  apply Forall2_app_inv in Hup as [Hup Hp1]; [|rewrite !length_take; lia]. apply Forall2_cons_1 in Hp1 as [Hp1 _].
  destruct (Forall_lookup_1 _ _ _ _ Hps Hp) as [Hsm Hst]. destruct Hp1 as [Hr Hc Hty Hi Hver].
  rewrite concat_app, rev_app_distr, foldM_app. cbn [concat]. rewrite app_nil_r.
  destruct (trace_reverts size k p.1 p.2 0 (row_count_ p.1) ents Ht ltac:(lia) Hst s rgs rg tx' Htx Hrg) as (s1 & rg1 & -> & Hst1 & Hm1); try done.
  { split; [done|done|by rewrite Hc]. }
  cbn [mbind result_bind]. destruct Hst1 as [Hr1 Hc1 Ht1 Hi1 Hz1 Hf1].
  assert (bs_ok s1) as Hok1 by apply Hr1.
  assert (forall j q id, ps !! j = Some q -> j <> k -> id ∈ group_ids q.1 -> bs_view s1 id = bs_view s id) as Hother.
  { intros j q id Hj Hne Hid. apply Hf1. change (concat (chunk_ids <$> column_chunks_ rg)) with (group_ids rg). rewrite Hi.
    apply (concat_disjoint (group_ids <$> ps.*1) j k (group_ids q.1) (group_ids p.1)); try done.
    - by rewrite !list_lookup_fmap, Hj.
    - by rewrite !list_lookup_fmap, Hp. }
  apply (IH entss0 s1 (<[k := rg1]> rgs) tx'); try done; [lia|by rewrite length_insert|congruence|..].
  - rewrite take_insert_ge by lia. apply Forall2_same_length_lookup. split; [by eapply Forall2_length|]. intros j q r Hj Hr2.
    eapply group_updated_frame; [done| |by eapply Forall2_lookup_lr]. apply lookup_take_Some in Hj as [Hj Hjk].
    intros id Hid. eapply (Hother j); [done|lia|done].
  - rewrite (drop_S _ _ _ Hp), (drop_S _ rg1 k) by (rewrite list_lookup_insert_eq by lia; done). rewrite drop_insert_lt by lia. constructor.
    + split; try done; [congruence|congruence|unfold group_ids; rewrite Hi1; exact Hi|]. intros j. rewrite Hm1, Hver, update_marks_lookup.
      unfold group_hit_rows. by destruct (decide _).
    + apply Forall2_same_length_lookup. split; [by eapply Forall2_length|]. intros j q r Hj Hr2.
      eapply group_restored_frame; [done| |by eapply Forall2_lookup_lr]. rewrite lookup_drop in Hj.
      intros id Hid. eapply (Hother (Datatypes.S k + j)); [done|lia|done].
Qed.

End rollback.

Lemma undo_buffer_log tx ents : undo_buffer (foldl log_change tx ents) = (undo_buffer tx ++ ents)%list.
Proof.
  induction ents as [|en ents IH] using rev_ind; [by rewrite app_nil_r|]. rewrite foldl_app. cbn. rewrite IH. unfold Push. by rewrite app_assoc.
Qed.

(** Who sees which rows of a restored group. *)
Lemma sees_restored {S} `{BlockStoreLaws S} F e tx u (s s0 : S) p rg V o :
  group_restored F e tx u s p rg -> group_fit e s0 p.1 p.2 -> o < row_count_ p.1 ->
  sees V rg o = sees V p.1 o || hit F tx (us_pred u) (us_scan u) p.1 p.2 o.
Proof.
  intros [_ _ _ _ Hm] [_ _ Hsm] Ho. unfold sees at 1, IsVisible. rewrite Hm. destruct (decide _) as [Hin|Hin].
  - apply list_elem_of_fmap in Hin as (j & Hj & Hin). pose proof (hit_rows_bound _ _ _ _ _ _ _ _ Hin) as Hb.
    apply row_key_inj in Hj as <-; [|lia..]. apply list_elem_of_filter in Hin as [-> _]. by rewrite orb_true_r.
  - fold (IsVisible (version_info_ p.1) (row_key o) (tx_id V) (start_time V)). change (IsVisible _ _ _ _) with (sees V p.1 o).
    destruct (hit F tx (us_pred u) (us_scan u) p.1 p.2 o) eqn:Hh; [|by rewrite orb_false_r]. exfalso. apply Hin.
    apply list_elem_of_fmap_2, list_elem_of_filter. split; [done|apply elem_of_seq; lia].
Qed.

(** C26: an UPDATE of distinct columns with well-typed clauses ([update_ok]),
    whose condition and clauses have a value on every row seen and whose values
    the picked compression can store at every stage ([group_ready],
    [storable_on]), that is the first change of its transaction, on a table of
    at most 2^32 row groups with distinct blocks, followed by the rollback of
    the transaction returns every column of every row group to what it was; the
    transaction sees the rows it saw, and every transaction sees the rows it saw
    and also those the statement had matched, whose markers the rollback
    deletes. *)
Theorem rollback_undoes_update {S} `{BlockStoreLaws S} F (c : ExecContext S) schema table upd scan exprs pred i e ps :
  let tx := ex_tx c in
  let u := mkUpdateSpec upd (table_type (ColumnTypes e) <$> upd) exprs (update_scan upd scan) pred in
  GetTable (ex_catalog c) schema table tx = Some (i, e) -> row_groups e = ps.*1 -> update_ok e u ->
  Forall (group_ready F e tx u (ex_store c)) ps -> NoDup (concat (group_ids <$> ps.*1)) -> (Z.of_nat (length ps) <= 2 ^ 32)%Z ->
  undo_buffer tx = [] ->
  exists c', Update F schema table upd scan exprs pred c = (c', Ok tt) /\
    forall w next_id counter active, exists s' rgs tm' tx',
      Rollback (ex_store c') (mkTM (ex_catalog c') w next_id counter active) (ex_tx c') = Ok (s', tm', tx') /\
      catalog_ tm' = put_groups (mkRef schema table i) rgs (ex_catalog c) /\
      Forall2 (fun p rg => rg_rep s' rg p.2 /\ row_count_ rg = row_count_ p.1 /\
        (forall ids, seen_rows ids tx rg p.2 0 (row_count_ rg) = seen_rows ids tx p.1 p.2 0 (row_count_ p.1)) /\
        (forall V o, o < row_count_ p.1 -> sees V rg o = sees V p.1 o || hit F tx pred (us_scan u) p.1 p.2 o)) ps rgs.
Proof.
  intros tx u Hg Hps Hok Hready Hnd Hlen Hub.
  destruct (Update_run F c schema table upd scan exprs pred i e ps Hg Hps Hok Hready Hnd) as (s1 & rgs1 & entss & Hrun & Hz & Hup & Htr).
  fold tx in Hup, Htr, Hrun. fold u in Hup, Htr. eexists. split; [exact Hrun|]. intros w next_id counter active. cbn [ex_store ex_catalog ex_tx].
  assert (length rgs1 = length ps) as Hl by (symmetry; by eapply Forall2_length).
  destruct (groups_revert F (ex_catalog c) (mkRef schema table i) e tx u Hg Hok (bs_size (ex_store c)) ps Hnd Hlen) with
    (k := length ps) (entss := entss) (s := s1) (rgs := rgs1) (tx' := foldl log_change tx (concat entss)) as (s2 & rgs2 & Hrev & Hre); try done.
  - eapply Forall_impl; [exact Hready|]. intros p [Hfit _ _ Hst]. split; [apply Hfit|done].
  - by apply same_tx_log.
  - by rewrite firstn_all.
  - rewrite firstn_all, take_ge by lia. done.
  - rewrite !drop_ge by lia. constructor.
  - unfold Rollback, UndoBufferReverse, ForEachReverse. cbn [catalog_]. rewrite undo_buffer_log, Hub. cbn [app]. rewrite Hrev. cbn [mbind result_bind].
    do 4 eexists. split; [reflexivity|]. cbn [catalog_]. split; [reflexivity|].
    apply Forall2_same_length_lookup. split; [by eapply Forall2_length|]. intros k p rg Hp Hrg.
    pose proof (Forall_lookup_1 _ _ _ _ Hready Hp) as [Hfit _ _ _]. pose proof (Forall2_lookup_lr _ _ _ _ _ _ Hre Hp Hrg) as Hr.
    pose proof (fun V o Ho => sees_restored F e tx u s2 (ex_store c) p rg V o Hr Hfit Ho) as Hsee.
    split_and!; [apply Hr|apply Hr| |done]. intros ids. rewrite (gs_count _ _ _ _ _ _ _ Hr). unfold seen_rows. f_equal.
    apply filter_ext_Forall, Forall_forall. intros o Ho%elem_of_seq. rewrite Hsee by lia. unfold hit.
    destruct (sees tx p.1 o); [done|]. done.
Qed.

Lemma rollback_undoes_update_witness :
  exists c', Update sample_FPU "main" "t" [0] [0; 1] [pair_set] (Some pair_where) pair_context = (c', Ok tt) /\
    forall w next_id counter active, exists s' rg tm' tx',
      Rollback (ex_store c') (mkTM (ex_catalog c') w next_id counter active) (ex_tx c') = Ok (s', tm', tx') /\
      catalog_ tm' = put_groups (mkRef "main" "t" 0) [rg] pair_catalog /\ rg_rep s' rg pair_cols.
Proof.
  destruct (rollback_undoes_update sample_FPU pair_context "main" "t" [0] [0; 1] [pair_set] (Some pair_where) 0 pair_entry [(pair_rg, pair_cols)])
    as (c' & Hrun & Hroll).
  - vm_compute. reflexivity.
  - reflexivity.
  - apply pair_update_ok.
  - constructor; [apply pair_ready|constructor].
  - constructor.
  - cbn. lia.
  - reflexivity.
  - exists c'. split; [exact Hrun|]. intros w next_id counter active. destruct (Hroll w next_id counter active) as (s' & rgs & tm' & tx' & H1 & H2 & H3).
    inversion H3 as [|p rg ps' rgs' [Hr _] Hnil]; subst. inversion Hnil; subst. exists s', rg, tm', tx'. exact (conj H1 (conj H2 Hr)).
Defined.
