(* ===== verification/Executor.v ===== *)
(** * The executor

    [execution/executor.cpp]: a physical plan is cut into pipelines at the
    operators that need their whole input (sort, aggregation, the build side of
    a join), the pipelines are ordered by their dependencies, and each one runs
    from its source to its sink.

    Pipelines are objects that others point to; the model numbers them in the
    order of their creation, and the buffer or hash table that a sink shares with
    a source or a probe is found under the number of the pipeline that fills it.

    The claims are that the order is always the one in which the pipelines were
    built, with every pipeline behind those it reads from, and that a SELECT over
    one table returns the window of the projections of the rows its transaction
    sees and its filters let pass. *)

From Stdlib Require Import ZArith String.
From stdpp Require Import base gmap strings list fin_maps.
From S2P Require Import Prelude Types Double Expr VersionInfo BlockFile BufferManager ColumnChunk RowGroup PartitionInfo Operators HashJoin Pipeline Sorting Sort Aggregate Transaction Schema LogicalPlan PhysicalPlanner Catalog TableScan TransactionManager Dml.

(** ** Pipelines *)

Inductive SourceOp : Type :=
  | SrcScan (scan : PhysicalTableScan)
  | SrcSort (sink : nat)
  | SrcAgg (op : AggregationSource) (sink : nat)
  | SrcStatement (op : PhysicalPlan).

Inductive PipelineOp : Type :=
  | PoFilter (predicate : LogicalExpr)
  | PoProjection (exprs : list LogicalExpr)
  | PoLimit (limit offset : Z)
  | PoProbe (probe : HashJoinProbe) (build : nat).

Inductive SinkOp : Type :=
  | SinkCollector
  | SinkSort (top_k : Z) (sort_keys : list LogicalExpr) (ascending : list bool)
  | SinkAgg (op : HashAggregation)
  | SinkBuild (key_col_idxs : list nat) (right_partition_info : option PartitionInfo)
  | SinkInsert (schema table : string) (column_ids : list nat).

(** [struct Pipeline] *)
Record Pipeline : Type := mkPipeline {
  pipe_id : nat;
  source : option SourceOp;
  operators : list PipelineOp;
  sink : SinkOp;
  dependencies : list nat;
}.

Definition set_source (p : Pipeline) (s : SourceOp) : Pipeline := mkPipeline (pipe_id p) (Some s) (operators p) (sink p) (dependencies p).
Definition prepend (p : Pipeline) (op : PipelineOp) : Pipeline :=
  mkPipeline (pipe_id p) (source p) (op :: operators p) (sink p) (dependencies p).
Definition set_sink (p : Pipeline) (k : SinkOp) : Pipeline := mkPipeline (pipe_id p) (source p) (operators p) k (dependencies p).
Definition depend (p : Pipeline) (d : nat) : Pipeline :=
  mkPipeline (pipe_id p) (source p) (operators p) (sink p) (dependencies p ++ [d]).

(** The members of [Executor] that change: the number of the next pipeline and
    [pipelines_]. *)
Record Builder : Type := mkBuilder { next_id : nat; pipelines_ : list Pipeline }.

(** [std::make_unique<Pipeline>()] with its sink, and [pipelines_.push_back]. *)
Definition new_pipeline (b : Builder) (k : SinkOp) : Pipeline * Builder :=
  (mkPipeline (next_id b) None [] k [], mkBuilder (next_id b + 1) (pipelines_ b)).
Definition push_pipeline (b : Builder) (p : Pipeline) : Builder := mkBuilder (next_id b) (pipelines_ b ++ [p]).

Definition probe_of (out : OutputSchema) (parts : option (PartitionInfo * PartitionInfo)) (lk : list nat) : HashJoinProbe :=
  mkProbe lk (match parts with Some (lpi, _) => lpi | None => PI_none end) (output_types out).

(** [Executor::BuildPipelines] *)
Fixpoint BuildPipelines (op : PhysicalPlan) (cur : Pipeline) (b : Builder) : Pipeline * Builder :=
  match op with
  | PTableScan out s t ids filters => (set_source cur (SrcScan (Scan_new s t ids filters (output_types out))), b)
  | PFilter _ p c => BuildPipelines c (prepend cur (PoFilter p)) b
  | PProjection _ es c => BuildPipelines c (prepend cur (PoProjection es)) b
  | PLimit _ l o c => BuildPipelines c (prepend cur (PoLimit l o)) b
  | PHashJoin out parts lk rk _ _ l r =>
      let '(build, b) := new_pipeline b (SinkBuild rk (snd <$> parts)) in
      let '(build, b) := BuildPipelines r build b in
      BuildPipelines l (depend (prepend cur (PoProbe (probe_of out parts lk) (pipe_id build))) (pipe_id build)) (push_pipeline b build)
  | PHashAggregation _ agg _ src c =>
      let '(consume, b) := new_pipeline b (SinkAgg agg) in
      let '(consume, b) := BuildPipelines c consume b in
      (set_source (depend cur (pipe_id consume)) (SrcAgg src (pipe_id consume)), push_pipeline b consume)
  | PSort _ top_k keys asc c =>
      let '(consume, b) := new_pipeline b (SinkSort top_k keys asc) in
      let '(consume, b) := BuildPipelines c consume b in
      (set_source (depend cur (pipe_id consume)) (SrcSort (pipe_id consume)), push_pipeline b consume)
  | PInsert s t ids _ (Some select) => BuildPipelines select (set_sink cur (SinkInsert s t ids)) b
  | PInsert _ _ _ _ None | PDelete _ _ _ | PUpdate _ _ _ _ _ _ | PCreateTable _ _ _ _ _ | PDropTable _ _ _ | PAlterTable _ =>
      (set_source cur (SrcStatement op), b)
  end.

(** [Executor::Initialize] *)
Definition Initialize_pipelines (plan : PhysicalPlan) : list Pipeline :=
  let '(top, b) := new_pipeline (mkBuilder 0 []) SinkCollector in
  let '(top, b) := BuildPipelines plan top b in
  pipelines_ (push_pipeline b top).

(** ** The order of execution *)

Definition find_pipeline (ps : list Pipeline) (d : nat) : option Pipeline := snd <$> list_find (fun p => pipe_id p = d) ps.

(** The lambda [visit]: the pipelines in post-order and the visited ones.  The
    fuel bounds the depth of the recursion. *)
Fixpoint visit (fuel : nat) (ps : list Pipeline) (st : list Pipeline * gset nat) (p : Pipeline) : result (list Pipeline * gset nat) :=
  match fuel with
  | 0 => Err UndefinedBehaviour
  | S fuel =>
      let '(done_, visited) := st in
      if decide (pipe_id p ∈ visited) then Ok st
      else
        '(done_, visited) ← foldM (fun st d => q ← of_option UndefinedBehaviour (find_pipeline ps d); visit fuel ps st q)
                              (done_, {[pipe_id p]} ∪ visited) (dependencies p);
        Ok (done_ ++ [p], visited)
  end.

(** [Executor::TopologicalSort] *)
Definition TopologicalSort (ps : list Pipeline) : result (list Pipeline) :=
  '(done_, _) ← foldM (visit (S (length ps)) ps) ([], ∅) ps; Ok done_.

(** ** Running a pipeline *)

(** The objects that sinks fill: [PhysicalResultCollector::result_], the sort
    buffer, the groups, the tables of a join; INSERT keeps nothing. *)
Inductive SinkState : Type :=
  | StCollector (chunks : list DataChunk)
  | StSort (buf : SortBuffer)
  | StAgg (groups : AggregateHashTable)
  | StBuild (tables : JoinTables)
  | StInsert.

(** The objects as the planner creates them. *)
Definition sink_object (k : SinkOp) : SinkState :=
  match k with
  | SinkCollector => StCollector []
  | SinkSort _ _ _ => StSort SortBuffer_empty
  | SinkAgg op => StAgg (AggregateHashTable_new (length (aggr_exprs op)) 256)
  | SinkBuild _ parts =>
      StBuild (mkJoinTables ∅ (match parts with Some pi => replicate (Z.to_nat (num_partitions pi)) ∅ | None => [] end))
  | SinkInsert _ _ _ => StInsert
  end.

(** A source with its [ScanState]. *)
Inductive SourceState : Type :=
  | SsScan (scan : PhysicalTableScan) (st : TableScanState)
  | SsSort (buf : SortBuffer) (chunk_idx : nat)
  | SsAgg (op : AggregationSource) (groups : AggregateHashTable) (entry_idx : nat)
  | SsStatement (op : PhysicalPlan) (row_offset : nat).

(** The heap functions of the standard library, and the number of positions there
    is memory for. *)
Record HeapFns : Type := mkHeapFns {
  push_heap : forall A : Type, (A -> A -> bool) -> list A -> list A;
  pop_heap : forall A : Type, (A -> A -> bool) -> list A -> list A;
  heap_memory : N;
}.

Section execution.
Context {S : Type} {BSops : BlockStore S} (env : ExecEnv) (heap : HeapFns) {IO : InsertOrder}.

Notation step := (step (S := S)).
Notation objects := (gmap nat SinkState).

#[export] Instance Lift_step : Lift step := fun A r => pure_r r.

Definition scan_context (c : ExecContext S) : ScanContext := mkScanContext (Some (ex_catalog c)) (Some (ex_tx c)).

(** [CreateScanState] and [InitScan] *)
Definition open_source (objs : objects) (src : SourceOp) : step SourceState :=
  match src with
  | SrcScan ts => c ← current; ts ← pure_r (InitScan (env_hash env) ts (scan_context c)); mret (SsScan ts CreateScanState)
  | SrcSort k => match objs !! k with Some (StSort buf) => mret (SsSort buf 0) | _ => fail UndefinedBehaviour end
  | SrcAgg op k => match objs !! k with Some (StAgg g) => mret (SsAgg op g 0) | _ => fail UndefinedBehaviour end
  | SrcStatement op => mret (SsStatement op 0)
  end.

(** The sources that execute a statement on their first call. *)
Definition run_statement (op : PhysicalPlan) : step unit :=
  match op with
  | PInsert s t ids rows None => Insert_batch (env_hash env) s t ids rows
  | PDelete s t p => Delete (env_fpu env) s t p
  | PUpdate s t u sc es p => Update (env_fpu env) s t u sc es p
  | PCreateTable s t cols ine pi => Create_Table s t cols ine pi
  | PDropTable s t ie => Drop_Table s t ie
  | PAlterTable a => Alter_Table a
  | _ => fail UndefinedBehaviour
  end.

(** [source->GetData] *)
Definition Source_GetData (src : SourceState) (output : DataChunk) : step (OperatorResultType * DataChunk * SourceState) :=
  match src with
  | SsScan ts st =>
      c ← current;
      '(r, output, st) ← storage (fun s =>
         '(r, output, (s, st)) ← GetData (env_fpu env) ts (scan_context c) (s, st) output; Ok (s, (r, output, st)));
      mret (r, output, SsScan ts st)
  | SsSort buf i => '(r, output, i) ← pure_r (SortSource_GetData buf i output); mret (r, output, SsSort buf i)
  | SsAgg op g i => '(r, output, i) ← pure_r (AggSource_GetData (env_fpu env) op g i output); mret (r, output, SsAgg op g i)
  | SsStatement op n =>
      if Nat.ltb 0 n then mret (FINISHED, output, src)
      else _ ← run_statement op; mret (FINISHED, output, SsStatement op (n + 1))
  end.

(** The operator with the object it shares with the build side. *)
Definition open_operator (objs : objects) (op : PipelineOp) : result PhysicalOp :=
  match op with
  | PoFilter p => Ok (OpFilter p)
  | PoProjection es => Ok (OpProjection es)
  | PoLimit l o => Ok (OpLimit l o)
  | PoProbe probe k => match objs !! k with Some (StBuild jt) => Ok (OpProbe probe jt) | _ => Err UndefinedBehaviour end
  end.

(** [sink->Consume] *)
Definition Sink_Consume (k : SinkOp) (st : SinkState) (input : DataChunk) : step SinkState :=
  match k, st with
  | SinkCollector, StCollector cs => cs ← pure_r (Collector_Consume cs input); mret (StCollector cs)
  | SinkSort _ _ _, StSort buf => buf ← pure_r (Sort_Consume buf input); mret (StSort buf)
  | SinkAgg op, StAgg g => g ← pure_r (Agg_Consume (env_fpu env) (env_hash env) op g input); mret (StAgg g)
  | SinkBuild rk parts, StBuild jt =>
      jt ← pure_r (Build_Consume (env_hash env) rk (default PI_none parts) jt input); mret (StBuild jt)
  | SinkInsert s t ids, StInsert => _ ← Insert_batch (env_hash env) s t ids input; mret StInsert
  | _, _ => fail UndefinedBehaviour
  end.

(** [sink->Finalize]: only the sort does anything. *)
Definition Sink_Finalize (k : SinkOp) (st : SinkState) : result SinkState :=
  match k, st with
  | SinkSort top_k keys asc, StSort buf =>
      buf ← Sort_Finalize (env_fpu env) (heap_memory heap) (push_heap heap) (pop_heap heap) keys asc top_k buf; Ok (StSort buf)
  | _, _ => Ok st
  end.

(** [PipelineExecutor(ctx_, *p).Execute()]; a pipeline without a source is a null
    pointer. *)
Definition run_pipeline (fuel inner : nat) (objs : objects) (p : Pipeline) : step objects :=
  src ← match source p with Some src => open_source objs src | None => fail UndefinedBehaviour end;
  ops ← pure_r (mapM_r (open_operator objs) (operators p));
  st ← pure_r (of_option UndefinedBehaviour (objs !! pipe_id p));
  st ← PipelineExecute env (Sink_Consume (sink p)) Source_GetData fuel inner src ops st;
  st ← pure_r (Sink_Finalize (sink p) st);
  mret (<[pipe_id p := st]> objs).

(** [Executor::Execute] on a fresh executor, and the collector it leaves: the
    sink of the first pipeline, unless INSERT has taken its place. *)
Definition initial_objects (ps : list Pipeline) : objects := list_to_map ((fun p => (pipe_id p, sink_object (sink p))) <$> ps).

Definition Execute_plan (fuel inner : nat) (plan : PhysicalPlan) : step (list DataChunk) :=
  let ps := Initialize_pipelines plan in
  ordered ← pure_r (TopologicalSort ps);
  objs ← each_step (run_pipeline fuel inner) (initial_objects ps) ordered;
  match objs !! 0 with Some (StCollector chunks) => mret chunks | _ => mret [] end.

End execution.

(** ** Ordering *)

(** Every dependency of a pipeline is among [seen] or before it in the list. *)
Fixpoint deps_first (seen : list nat) (ps : list Pipeline) : Prop :=
  match ps with
  | [] => True
  | p :: ps => Forall (fun d => d ∈ seen) (dependencies p) /\ deps_first (seen ++ [pipe_id p]) ps
  end.

Lemma deps_first_app seen ps qs : deps_first seen (ps ++ qs) <-> deps_first seen ps /\ deps_first (seen ++ (pipe_id <$> ps)) qs.
Proof.
  revert seen. induction ps as [|p ps IH]; intros seen; csimpl.
  - rewrite app_nil_r. tauto.
  - rewrite IH, <- app_assoc. tauto.
Qed.

Lemma deps_first_mono seen seen' ps : seen ⊆ seen' -> deps_first seen ps -> deps_first seen' ps.
Proof.
  revert seen seen'. induction ps as [|p ps IH]; intros seen seen' Hs; [done|]. intros [Hd Hr]. split.
  - eapply Forall_impl; [exact Hd|]. set_solver.
  - eapply IH, Hr. set_solver.
Qed.

(** The pipelines whose sinks a pipeline reads from: each is a dependency. *)
Definition reads (p : Pipeline) : list nat :=
  match source p with Some (SrcSort k) | Some (SrcAgg _ k) => [k] | _ => [] end ++
  omap (fun op => match op with PoProbe _ k => Some k | _ => None end) (operators p).
Definition reads_ok (p : Pipeline) : Prop := reads p ⊆ dependencies p.

(** What one call of [BuildPipelines] adds: pipelines with fresh numbers in
    order, and dependencies of the current pipeline on some of them. *)
Record adds (cur : Pipeline) (b : Builder) (cur' : Pipeline) (b' : Builder) (ps : list Pipeline) : Prop := {
  adds_id : pipe_id cur' = pipe_id cur;
  adds_next : next_id b <= next_id b';
  adds_pushed : pipelines_ b' = pipelines_ b ++ ps;
  adds_fresh : Forall (fun p => next_id b <= pipe_id p < next_id b') ps;
  adds_distinct : NoDup (pipe_id <$> ps);
  adds_ordered : deps_first [] ps;
  adds_deps : exists ds, dependencies cur' = dependencies cur ++ ds /\ Forall (fun d => d ∈ pipe_id <$> ps) ds;
  adds_reads : Forall reads_ok ps;
  adds_current : reads_ok cur -> reads_ok cur';
}.

(** Changing the source, the sink or the operators of a pipeline adds nothing. *)
Lemma adds_nothing cur cur' b :
  pipe_id cur' = pipe_id cur -> dependencies cur' = dependencies cur -> (reads_ok cur -> reads_ok cur') -> adds cur b cur' b [].
Proof. 
  intros Hi Hd Hr. split; [done|done|by rewrite app_nil_r|by apply Forall_nil|by apply NoDup_nil|done| |by apply Forall_nil|done].
  exists []. rewrite app_nil_r. split; [done|by apply Forall_nil].
Qed.

Lemma adds_same cur pre b cur' b' ps :
  adds pre b cur' b' ps -> pipe_id pre = pipe_id cur -> dependencies pre = dependencies cur -> (reads_ok cur -> reads_ok pre) ->
  adds cur b cur' b' ps.
Proof. intros [] Hi Hd Hr. split; try done; [congruence|by rewrite <- Hd|auto]. Qed.

Lemma fresh_ids n m p ps : Forall (fun p => n <= pipe_id p < m) ps -> p ∈ pipe_id <$> ps -> n <= p < m.
Proof. intros Hf (q & -> & Hq)%list_elem_of_fmap. by eapply (proj1 (Forall_forall _ _) Hf). Qed.

(** A pipeline of its own for the child, then the rest of the current one. *)
Lemma adds_child b k cur pre child b1 ps1 cur2 b2 ps2 :
  adds (new_pipeline b k).1 (new_pipeline b k).2 child b1 ps1 ->
  adds pre (push_pipeline b1 child) cur2 b2 ps2 ->
  pipe_id pre = pipe_id cur -> dependencies pre = dependencies cur ++ [pipe_id child] ->
  (reads_ok cur -> reads_ok pre) -> adds cur b cur2 b2 (ps1 ++ [child] ++ ps2).
Proof.
  intros [Hi1 Hn1 Hp1 Hf1 Hd1 Ho1 (ds1 & Hds1 & Hin1) Hr1 Hc1] [Hi2 Hn2 Hp2 Hf2 Hd2 Ho2 (ds2 & Hds2 & Hin2) Hr2 Hc2] Hpre Hdep Hr.
  cbn [new_pipeline push_pipeline fst snd pipe_id next_id pipelines_ dependencies app] in *. split.
  - congruence.
  - lia.
  - by rewrite Hp2, Hp1, <- !app_assoc.
  - rewrite Forall_app, Forall_cons. split; [eapply Forall_impl; [exact Hf1|]; cbn; lia|]. split; [lia|]. eapply Forall_impl; [exact Hf2|]; cbn; lia.
  - rewrite fmap_app, fmap_cons. apply NoDup_app. split; [done|]. split.
    + intros x Hx1 Hx2. apply (fresh_ids _ _ _ _ Hf1) in Hx1. rewrite elem_of_cons in Hx2.
      destruct Hx2 as [->|Hx2]; [lia|]. apply (fresh_ids _ _ _ _ Hf2) in Hx2. lia.
    + apply NoDup_cons. split; [|done]. intros Hx. apply (fresh_ids _ _ _ _ Hf2) in Hx. lia.
  - rewrite deps_first_app. split; [done|]. cbn. split.
    + by rewrite Hds1.
    + eapply deps_first_mono, Ho2. set_solver.
  - exists (pipe_id child :: ds2). rewrite Hds2, Hdep, <- app_assoc. split; [done|]. rewrite fmap_app, fmap_cons.
    apply Forall_cons. split; [set_solver|]. eapply Forall_impl; [exact Hin2|]. set_solver.
  - rewrite Forall_app, Forall_cons. split; [done|]. split; [|done]. apply Hc1. intros x Hx. by apply not_elem_of_nil in Hx.
  - auto.
Qed.

(** The reads after one change of the current pipeline. *)
Ltac reads_tac := unfold reads_ok, reads, set_source, prepend, set_sink, depend in *; cbn in *; set_solver.

Lemma BuildPipelines_adds op cur b : exists ps, adds cur b (BuildPipelines op cur b).1 (BuildPipelines op cur b).2 ps.
Proof.
  revert op cur b. fix IH 1. intros op cur b.
  destruct op as [out s t ids fs|o p c|o es c|o l off c|o k ks asc c|o agg ts src c|o parts lk rk lt rt l r|
    s t ids rows [sel|]|s t p|s t u sc es p|s t cols ine pi|s t ie|a]; cbn [BuildPipelines new_pipeline fst snd];
    try (exists []; apply adds_nothing; [done|done|reads_tac]).
  - destruct (IH c (prepend cur (PoFilter p)) b) as [ps Hps]. exists ps. eapply adds_same; [exact Hps|done|done|reads_tac].
  - destruct (IH c (prepend cur (PoProjection es)) b) as [ps Hps]. exists ps. eapply adds_same; [exact Hps|done|done|reads_tac].
  - destruct (IH c (prepend cur (PoLimit l off)) b) as [ps Hps]. exists ps. eapply adds_same; [exact Hps|done|done|reads_tac].
  - destruct (IH c (new_pipeline b (SinkSort k ks asc)).1 (new_pipeline b (SinkSort k ks asc)).2) as [ps Hps].
    cbn [new_pipeline fst snd] in Hps. destruct (BuildPipelines c _ _) as [child b1]. cbn [fst snd] in *.
    exists (ps ++ [child] ++ []). eapply adds_child; [exact Hps|apply (adds_nothing (depend cur (pipe_id child))); [done|done|reads_tac]|done|done|reads_tac].
  - destruct (IH c (new_pipeline b (SinkAgg agg)).1 (new_pipeline b (SinkAgg agg)).2) as [ps Hps].
    cbn [new_pipeline fst snd] in Hps. destruct (BuildPipelines c _ _) as [child b1]. cbn [fst snd] in *.
    exists (ps ++ [child] ++ []). eapply adds_child; [exact Hps|apply (adds_nothing (depend cur (pipe_id child))); [done|done|reads_tac]|done|done|reads_tac].
  - destruct (IH r (new_pipeline b (SinkBuild rk (snd <$> parts))).1 (new_pipeline b (SinkBuild rk (snd <$> parts))).2) as [ps Hps].
    cbn [new_pipeline fst snd] in Hps. destruct (BuildPipelines r _ _) as [child b1]. cbn [fst snd] in *.
    destruct (IH l (depend (prepend cur (PoProbe (probe_of o parts lk) (pipe_id child))) (pipe_id child)) (push_pipeline b1 child)) as [ps2 Hps2].
    exists (ps ++ [child] ++ ps2). eapply adds_child; [exact Hps|exact Hps2|done|done|reads_tac].
  - destruct (IH sel (set_sink cur (SinkInsert s t ids)) b) as [ps Hps]. exists ps. eapply adds_same; [exact Hps|done|done|reads_tac].
Qed.

(** When every pipeline comes behind its dependencies, a visit finds them done. *)
Lemma visit_ordered all fuel pre p :
  NoDup (pipe_id <$> all) -> (forall d, d ∈ dependencies p -> d ∈ pipe_id <$> pre) -> pre ⊆ all -> pipe_id p ∉ pipe_id <$> pre ->
  visit (S (S fuel)) all (pre, list_to_set (pipe_id <$> pre)) p =
    Ok (pre ++ [p], {[pipe_id p]} ∪ list_to_set (pipe_id <$> pre)).
Proof.
  intros Hnd Hdeps Hsub Hp. cbn [visit]. rewrite decide_False by set_solver.
  assert (forall ds st, (forall d, d ∈ ds -> d ∈ pipe_id <$> pre) -> list_to_set (pipe_id <$> pre) ⊆ st.2 ->
    foldM (fun st d => q ← of_option UndefinedBehaviour (find_pipeline all d); visit (S fuel) all st q) st ds = Ok st) as Hfold.
  { induction ds as [|d ds IH]; intros [done_ visited] Hds Hst; [done|]. cbn [foldM].
    destruct (list_elem_of_fmap pipe_id pre d) as [Hin _]. destruct Hin as (q & -> & Hq); [apply Hds; set_solver|].
    unfold find_pipeline. destruct (list_find _ all) as [[i q']|] eqn:Ef; cycle 1.
    { apply list_find_None in Ef. rewrite Forall_forall in Ef. exfalso. by eapply (Ef q); [apply Hsub|]. }
    apply list_find_Some in Ef as (Hi & Heq & _). cbn [fmap option_fmap option_map of_option mbind result_bind snd visit].
    rewrite decide_True by (cbn in Hst; apply Hst; rewrite elem_of_list_to_set, Heq; by apply list_elem_of_fmap_2).
    cbn. apply IH; [|done]. intros d Hd. apply Hds. set_solver. }
  rewrite Hfold; [done|done|]. cbn. set_solver.
Qed.

Lemma sort_ordered all pre ps :
  all = pre ++ ps -> NoDup (pipe_id <$> all) -> deps_first (pipe_id <$> pre) ps ->
  exists visited, foldM (visit (S (length all)) all) (pre, list_to_set (pipe_id <$> pre)) ps = Ok (all, visited).
Proof.
  revert pre. induction ps as [|p ps IH]; intros pre Hall Hnd Hdeps.
  { exists (list_to_set (pipe_id <$> pre)). by rewrite Hall, app_nil_r. }
  destruct Hdeps as [Hd Hdeps]. destruct (IH (pre ++ [p])) as [v Hv]; [by rewrite <- app_assoc|done|by rewrite fmap_app|].
  destruct (length all) as [|n] eqn:El; [rewrite Hall, length_app in El; cbn in El; lia|].
  cbn [foldM]. rewrite visit_ordered; [|done|by apply Forall_forall|rewrite Hall; set_solver|].
  - cbn [mbind result_bind]. exists v. rewrite <- Hv. do 2 f_equal. rewrite fmap_app. cbn. set_solver.
  - rewrite Hall, fmap_app, NoDup_app in Hnd. destruct Hnd as (_ & Hnd & _). intros Hp. apply (Hnd _ Hp). set_solver.
Qed.

(** The pipelines of a plan, in the order of [pipelines_]. *)
Lemma pipelines_ordered plan :
  deps_first [] (Initialize_pipelines plan) /\ NoDup (pipe_id <$> Initialize_pipelines plan) /\ Forall reads_ok (Initialize_pipelines plan).
Proof.
  destruct (BuildPipelines_adds plan (mkPipeline 0 None [] SinkCollector []) (mkBuilder 1 [])) as [ps [Hi _ Hp Hf Hd Ho (ds & Hds & Hin) Hr Hc]].
  unfold Initialize_pipelines. cbn [new_pipeline next_id pipelines_]. destruct (BuildPipelines plan _ _) as [top b].
  cbn [fst snd pipe_id dependencies pipelines_ app push_pipeline] in *. rewrite Hp. split_and!.
  - rewrite deps_first_app; cbn. by rewrite Hds.
  - rewrite fmap_app, NoDup_app. split; [done|]. split; [|apply NoDup_singleton]. intros x Hx ->%list_elem_of_singleton.
    apply (fresh_ids _ _ _ _ Hf) in Hx. cbn in Hx. lia.
  - rewrite Forall_app, Forall_singleton. split; [done|]. apply Hc. intros x Hx. by apply not_elem_of_nil in Hx.
Qed.

Lemma TopologicalSort_ordered ps : deps_first [] ps -> NoDup (pipe_id <$> ps) -> TopologicalSort ps = Ok ps.
Proof.
  intros Ho Hn. unfold TopologicalSort. destruct (sort_ordered ps [] ps) as [v Hv]; [done..|].
  change (list_to_set (pipe_id <$> [])) with (∅ : gset nat) in Hv. by rewrite Hv.
Qed.

(** C36: the pipelines of every plan run in the order in which they were built:
    the topological sort terminates and finds each pipeline behind all its
    dependencies, and each one depends on every pipeline whose sort buffer,
    groups or hash table it reads. *)
Theorem pipelines_in_order plan :
  TopologicalSort (Initialize_pipelines plan) = Ok (Initialize_pipelines plan) /\
  deps_first [] (Initialize_pipelines plan) /\ NoDup (pipe_id <$> Initialize_pipelines plan) /\
  Forall reads_ok (Initialize_pipelines plan).
Proof. destruct (pipelines_ordered plan) as (Ho & Hn & Hr). split; [by apply TopologicalSort_ordered|done]. Qed.

(** ** Pipelines that only read *)

(** A sink that computes without the database, inside the object [emb] makes of
    it, and a source whose calls keep a relation between the contexts: the run
    in the database is the run of the same loop on pairs of a source and a
    context. *)
Section reading.
Context {S : Type} (env : ExecEnv) {Sink SinkS Source : Type} (emb : Sink -> SinkS).
Context (Consume : Sink -> DataChunk -> result Sink) (ConsumeS : SinkS -> DataChunk -> step (S := S) SinkS).
Context (GetDataS : Source -> DataChunk -> step (S := S) (OperatorResultType * DataChunk * Source)).
Context (R : relation (ExecContext S)) `{!PreOrder R} (reader : Source -> ExecContext S -> Prop).
Hypothesis Hconsume : forall s chunk c, ConsumeS (emb s) chunk c = (c, s' ← Consume s chunk; Ok (emb s')).
Hypothesis Hread : forall src chunk c, ch_count chunk = 0 -> reader src c ->
  R c (GetDataS src chunk c).1 /\ match (GetDataS src chunk c).2 with Ok (_, _, src') => reader src' (GetDataS src chunk c).1 | Err _ => True end.

Definition paired_GetData (src : Source * ExecContext S) (chunk : DataChunk)
    : result (OperatorResultType * DataChunk * (Source * ExecContext S)) :=
  match GetDataS src.1 chunk src.2 with
  | (c, Ok (r, out, s)) => Ok (r, out, (s, c))
  | (_, Err e) => Err e
  end.

(** A computation that leaves the context alone, bound to others that do. *)
Lemma bind_pure {A A' B B'} (h : A -> A') (h' : B -> B') (m : step (S := S) A') (r : result A) (f : A' -> step B') (g : A -> result B) c :
  m c = (c, x ← r; Ok (h x)) -> (forall x, f (h x) c = (c, y ← g x; Ok (h' y))) -> (m ≫= f) c = (c, y ← (r ≫= g); Ok (h' y)).
Proof. intros Hm Hf. unfold mbind, step_bind, result_bind in *. rewrite Hm. destruct r; [apply Hf|done]. Qed.

Lemma consume_pure s chunk c : consume_to_sink ConsumeS (emb s) chunk c = (c, s' ← consume_to_sink Consume s chunk; Ok (emb s')).
Proof. unfold consume_to_sink. by case_decide. Qed.

Definition emb_run (x : bool * list (PhysicalOp * OpState) * DataChunk * Sink) : bool * list (PhysicalOp * OpState) * DataChunk * SinkS :=
  (x.1, emb x.2).

Lemma lift_pure {A} (r : result A) (c : ExecContext S) : lift r c = (c, x ← r; Ok (id x)).
Proof. by destruct r. Qed.

Lemma run_operators_pure fuel ops ci oc sink c :
  run_operators env ConsumeS fuel ops ci oc (emb sink) c = (c, x ← run_operators env Consume fuel ops ci oc sink; Ok (emb_run x)).
Proof.
  revert ops ci oc sink. induction fuel as [|fuel IH]; intros ops ci oc sink; [done|].
  destruct ops as [|[op st] rest]; [done|]. cbn [run_operators].
  apply (bind_pure id); [apply lift_pure|]. intros [[[] out] st']; cbn [id].
  - apply (bind_pure emb); [apply consume_pure|done].
  - destruct rest; [apply (bind_pure emb); [apply consume_pure|]; intros sink'; apply IH|].
    apply (bind_pure emb_run); [apply IH|]. by intros [[[] ?] ?].
  - case_decide; [|done]. apply (bind_pure id); [apply lift_pure|]. intros [rest' last]. apply (bind_pure emb); [apply consume_pure|done].
Qed.

Lemma run_source_pure fuel inner src ops ic oc sink c sink' :
  reader src c -> run_source env Consume paired_GetData fuel inner (src, c) ops ic oc sink = Ok sink' ->
  exists c', run_source env ConsumeS GetDataS fuel inner src ops ic oc (emb sink) c = (c', Ok (emb sink')) /\ R c c'.
Proof.
  revert src ops ic oc sink c. induction fuel as [|fuel IH]; intros src ops ic oc sink c Hsrc; [done|]. cbn [run_source].
  destruct (Hread src (Chunk_Reset ic) c eq_refl Hsrc) as [Hr Hsrc1]. unfold mbind at 1, result_bind at 1, paired_GetData at 1. unfold mbind at 3, step_bind at 1. cbn [fst snd].
  destruct (GetDataS src (Chunk_Reset ic) c) as [c1 [[[r out] src1]|]]; [|done]. cbn [fst snd] in Hr, Hsrc1.
  case_decide; [rewrite !flush_nothing; intros [= ->]; by exists c1|].
  assert (forall ops oc s, (if decide (r = FINISHED) then flush_operators env Consume ops oc s else run_source env Consume paired_GetData fuel inner (src1, c1) ops out oc s) = Ok sink' ->
    exists c', (if decide (r = FINISHED) then flush_operators env ConsumeS ops oc (emb s) else run_source env ConsumeS GetDataS fuel inner src1 ops out oc (emb s)) c1 = (c', Ok (emb sink')) /\ R c c') as Hnext.
  { intros ops' oc' s Hs. case_decide; [rewrite flush_nothing in Hs |- *; injection Hs as ->; by exists c1|]. destruct (IH _ _ _ _ _ _ Hsrc1 Hs) as (c' & Hc' & HR).
    exists c'. split; [done|]. by etrans. }
  destruct ops as [|o ops].
  - unfold mbind, result_bind, step_bind. rewrite consume_pure. destruct (consume_to_sink Consume sink out) as [s|]; [apply Hnext|done].
  - unfold mbind, result_bind, step_bind. rewrite run_operators_pure.
    destruct (run_operators env Consume inner (o :: ops) (Some out) oc sink) as [[[[stop ops'] oc'] s]|]; [|done].
    destruct stop; [intros [= ->]; by exists c1|apply Hnext].
Qed.

End reading.

(** The context up to the blocks in the buffer pool: their contents are the
    same. *)
Definition same_database {S} `{BlockStoreLaws S} : relation (ExecContext S) := fun c c' =>
  ex_catalog c' = ex_catalog c /\ ex_tx c' = ex_tx c /\ (bs_ok (ex_store c) -> same_view (ex_store c) (ex_store c')).
#[export] Instance same_database_preorder {S} `{BlockStoreLaws S} : PreOrder (same_database (S := S)).
Proof.
  split; [done|]. intros c1 c2 c3 (H1 & H2 & H5) (H3 & H4 & H6). split_and!; [congruence..|]. intros Hok. specialize (H5 Hok).
  eapply same_view_trans; [exact H5|apply H6, H5].
Qed.

(** ** SELECT over one table *)

(** The rows of a table that a transaction sees, with all their columns. *)
Definition database_rows (tx : Transaction) (e : TableCatalogEntry) (contents : list (list (list (option cell)))) : list sql_row :=
  concat (visible_group (seq 0 (length (ColumnTypes e))) tx e contents <$> seq 0 (length (row_groups e))).

Lemma select_table_row ids n cols i :
  Forall (fun c => c < n) ids -> select_cols ids (table_row (seq 0 n) cols i) = table_row ids cols i.
Proof.
  intros Hids. unfold select_cols, table_row. apply list_fmap_ext. intros k c Hk.
  rewrite list_lookup_fmap, (lookup_seq_lt 0 n c); [done|]. by eapply (Forall_lookup_1 _ _ _ _ Hids).
Qed.

Lemma select_database_rows ids tx e contents :
  Forall (fun c => c < length (ColumnTypes e)) ids ->
  select_cols ids <$> database_rows tx e contents = concat (visible_group ids tx e contents <$> seq 0 (length (row_groups e))).
Proof.
  intros Hids. unfold database_rows. induction (seq 0 (length (row_groups e))) as [|g gs IH]; [done|].
  cbn [fmap list_fmap concat]. rewrite fmap_app. f_equal; [|apply IH].
  unfold visible_group. destruct (row_groups e !! g) as [rg|], (contents !! g) as [cols|]; try done.
  unfold seen_rows. rewrite <- list_fmap_compose. apply list_fmap_ext. intros k i _. by apply select_table_row.
Qed.

(** What the scan of an unpartitioned table needs of it. *)
Record scannable {S} `{BlockStoreLaws S} (F : FPU) (c : ExecContext S) (e : TableCatalogEntry) (contents : list (list (list (option cell))))
    (ids : list nat) (filters : list LogicalExpr) : Prop := {
  sn_flat : IsPartitioned (partition_info e) = false;
  sn_ids : Forall (fun i => i < length (ColumnTypes e)) ids;
  sn_filters : Forall (filter_ok (table_type (ColumnTypes e) <$> ids)) filters;
  sn_late : late_column ids filters;
  sn_aligned : Forall (fun sp => ids !! pred_col_idx sp = Some (pred_col_idx sp)) (omap TryExtractPredicate filters);
  sn_groups : groups_ok F (ColumnTypes e) ids filters (ex_tx c) (row_groups e) contents (ex_store c);
}.

(** A scan that can be called again. *)
Definition scan_reads {S} `{BlockStoreLaws S} (F : FPU) (ts : PhysicalTableScan) (c : ExecContext S) : Prop :=
  exists e contents ids filters, scannable F c e contents ids filters /\ scan_ready (ColumnTypes e) ids filters ts /\
    get_table (scan_context c) (ts_schema_name ts) (ts_table_name ts) = Some (ex_tx c, e) /\ active_partition_ids_ ts = [].

Lemma scan_reads_next {S} `{BlockStoreLaws S} F ts (c : ExecContext S) st chunk :
  ch_count chunk = 0 -> scan_reads F ts c ->
  exists r out s' st', GetData F ts (scan_context c) (ex_store c, st) chunk = Ok (r, out, (s', st')) /\ same_view (ex_store c) s' /\
    scan_reads F ts (mkExec s' (ex_catalog c) (ex_tx c)).
Proof.
  intros Hc (e & contents & ids & filters & [Hflat Hids Hfs Hlate Hal Hgs] & Hts & Htable & Ha).
  destruct (flat_GetData_Ok F (ColumnTypes e) ids filters (ex_tx c) Hids Hfs Hal (row_groups e) contents ts (scan_context c) e Hts Hlate
    Htable eq_refl (ex_store c) st Ha Hgs) as (found & o & s' & st' & Hget & Hv & _).
  destruct (Hget chunk Hc) as (out & Hg & _). do 4 eexists. split; [exact Hg|]. split; [done|].
  exists e, contents, ids, filters. split_and!; try done. split; try done. by eapply groups_ok_same_view.
Qed.

Lemma open_scan {S} `{BlockStoreLaws S} F Hs (c : ExecContext S) schema table i e contents ids filters :
  GetTable (ex_catalog c) schema table (ex_tx c) = Some (i, e) -> scannable F c e contents ids filters ->
  exists ts cs, InitScan Hs (Scan_new schema table ids filters (table_type (ColumnTypes e) <$> ids)) (scan_context c) = Ok ts /\
    scan_reads F ts c /\ produces (GetData F ts (scan_context c)) (ex_store c, CreateScanState) cs /\
    Forall (scan_out_ok (ColumnTypes e) ids) cs /\
    stream_rows cs = passing_rows F filters (select_cols ids <$> database_rows (ex_tx c) e contents).
Proof.
  intros Hget [Hflat Hids Hfs Hlate Hal Hgs].
  assert (get_table (scan_context c) schema table = Some (ex_tx c, e)) as Htable by (unfold get_table; cbn; by rewrite Hget).
  destruct (InitScan Hs (Scan_new schema table ids filters (table_type (ColumnTypes e) <$> ids)) (scan_context c)) as [ts|] eqn:Hinit;
    unfold InitScan in Hinit; cbn [ts_schema_name ts_table_name Scan_new] in Hinit; rewrite Htable, Hflat in Hinit; [|done].
  assert (active_partition_ids_ ts = []) as Ha by (injection Hinit as <-; done).
  assert (InitScan Hs (Scan_new schema table ids filters (table_type (ColumnTypes e) <$> ids)) (scan_context c) = Ok ts) as Hinit'
    by (unfold InitScan; cbn [ts_schema_name ts_table_name Scan_new]; by rewrite Htable, Hflat).
  destruct (InitScan_ready _ _ _ _ _ _ _ _ Hinit') as (Hts & Hsn & Htn).
  destruct (flat_produces F (ColumnTypes e) ids filters (ex_tx c) Hids Hfs Hal (row_groups e) contents ts (scan_context c) e Hts Hlate
      ltac:(by rewrite Hsn, Htn) eq_refl (ex_store c) CreateScanState Ha Hgs) as (cs & Hp & HF & Hr).
  exists ts, cs. split; [done|]. split; [|split; [done|split; [done|]]].
  - exists e, contents, ids, filters. split_and!; try done. by rewrite Hsn, Htn.
  - rewrite Hr, select_database_rows by done. apply remaining_all.
Qed.

Section select.
Context {S : Type} `{BlockStoreLaws S} (env : ExecEnv) (heap : HeapFns) {IO : InsertOrder}.

Notation GetDataS := (Source_GetData (BSops := _) env).

(** A scan called through the source interface. *)
Lemma scan_GetData ts st chunk (s : S) cat tx :
  paired_GetData GetDataS (SsScan ts st, mkExec s cat tx) chunk =
  ('(r, out, (s, st)) ← GetData (env_fpu env) ts (mkScanContext (Some cat) (Some tx)) (s, st) chunk; Ok (r, out, (SsScan ts st, mkExec s cat tx))).
Proof.
  unfold paired_GetData. cbn [fst snd Source_GetData]. unfold mbind at 1 2, step_bind, current, storage. cbn [ex_store ex_catalog ex_tx scan_context].
  unfold scan_context. cbn [ex_catalog ex_tx]. destruct (GetData (env_fpu env) ts _ _ _) as [[[r out] [s' st']]|]; done.
Qed.

Lemma scan_produces ts cat tx src cs :
  produces (GetData (env_fpu env) ts (mkScanContext (Some cat) (Some tx))) src cs ->
  produces (paired_GetData GetDataS) (SsScan ts src.2, mkExec (src.1 : S) cat tx) cs.
Proof.
  induction 1 as [[s st] Hg|[s st] c [s' st'] Hpos Hg|[s st] c [s' st'] cs Hg Hprod IH].
  - apply produces_done. intros c Hc. destruct (Hg c Hc) as (c' & [s' st'] & Hx & Hc'). rewrite scan_GetData. cbn [fst snd]. rewrite Hx. cbn. eauto.
  - eapply produces_last; [done|]. intros c0 Hc0. rewrite scan_GetData. cbn [fst snd]. rewrite (Hg c0 Hc0). done.
  - eapply produces_more; [|exact IH]. intros c0 Hc0. rewrite scan_GetData. cbn [fst snd]. rewrite (Hg c0 Hc0). done.
Qed.

(** The sources that do not write. *)
Definition reading_source (src : SourceState) (c : ExecContext S) : Prop :=
  match src with SsScan ts _ => scan_reads (env_fpu env) ts c | SsStatement _ _ => False | _ => True end.

Lemma reading_GetData src chunk c :
  ch_count chunk = 0 -> reading_source src c ->
  same_database c (GetDataS src chunk c).1 /\
  match (GetDataS src chunk c).2 with Ok (_, _, src') => reading_source src' (GetDataS src chunk c).1 | Err _ => True end.
Proof.
  intros Hc. destruct src as [ts st|buf i|op g i|]; intros Hr; [| | |done]; cbn [Source_GetData]; unfold mbind, step_bind, result_bind, current, storage, pure_r; cbn [fst snd].
  - destruct (scan_reads_next (env_fpu env) ts c st chunk Hc Hr) as (r & out & s' & st' & Hg & Hv & Hr').
    unfold mbind, result_bind. rewrite Hg. cbn. split; [|done]. by split_and!.
  - by destruct (SortSource_GetData buf i chunk) as [[[r out] j]|].
  - by destruct (AggSource_GetData (env_fpu env) op g i chunk) as [[[r out] j]|].
Qed.

(** A source that only reads a sink, called through the same interface. *)
Lemma reader_produces {A} (K : A -> SourceState) (G : A -> DataChunk -> result (OperatorResultType * DataChunk * A)) i (c : ExecContext S) cs :
  (forall j chunk, GetDataS (K j) chunk c = (c, '(r, out, j) ← G j chunk; Ok (r, out, K j))) ->
  produces G i cs -> produces (paired_GetData GetDataS) (K i, c) cs.
Proof.
  intros HK. assert (forall j chunk, paired_GetData GetDataS (K j, c) chunk = ('(r, out, j) ← G j chunk; Ok (r, out, (K j, c)))) as Hget.
  { intros j chunk. unfold paired_GetData. cbn [fst snd]. rewrite HK. by destruct (G j chunk) as [[[r out] j']|]. }
  induction 1 as [j Hg|j x j' Hpos Hg|j x j' cs Hg Hprod IH].
  - apply produces_done. intros x Hx. destruct (Hg x Hx) as (x' & j' & Hj & Hx'). rewrite Hget, Hj. cbn. eauto.
  - eapply produces_last; [done|]. intros x0 Hx0. by rewrite Hget, (Hg x0 Hx0).
  - eapply produces_more; [|exact IH]. intros x0 Hx0. by rewrite Hget, (Hg x0 Hx0).
Qed.

Lemma sort_produces buf i (c : ExecContext S) cs :
  produces (SortSource_GetData buf) i cs -> produces (paired_GetData GetDataS) (SsSort buf i, c) cs.
Proof.
  apply (reader_produces (SsSort buf)). intros j chunk. cbn [Source_GetData]. unfold mbind, step_bind, result_bind, pure_r.
  by destruct (SortSource_GetData buf j chunk) as [[[r out] j']|].
Qed.

Lemma agg_produces op g i (c : ExecContext S) cs :
  produces (AggSource_GetData (env_fpu env) op g) i cs -> produces (paired_GetData GetDataS) (SsAgg op g i, c) cs.
Proof.
  apply (reader_produces (SsAgg op g)). intros j chunk. cbn [Source_GetData]. unfold mbind, step_bind, result_bind, pure_r.
  by destruct (AggSource_GetData (env_fpu env) op g j chunk) as [[[r out] j']|].
Qed.

(** The plan of [SELECT es FROM t WHERE filters ORDER BY ... LIMIT ...]. *)
Definition limit_plan (lim : option (OutputSchema * Z * Z)) (child : PhysicalPlan) : PhysicalPlan :=
  match lim with Some (out, l, o) => PLimit out l o child | None => child end.
Definition limit_of (lim : option (OutputSchema * Z * Z)) : option (Z * Z) := (fun '(_, l, o) => (l, o)) <$> lim.
Notation sort_spec := (option (OutputSchema * Z * list LogicalExpr * list bool)).
Definition sort_plan (srt : sort_spec) (child : PhysicalPlan) : PhysicalPlan :=
  match srt with Some (out, top_k, keys, asc) => PSort out top_k keys asc child | None => child end.
Definition scan_select_plan (lim : option (OutputSchema * Z * Z)) (out : OutputSchema) (es : list LogicalExpr) (srt : sort_spec)
    (scan_out : OutputSchema) (schema table : string) (ids : list nat) (filters : list LogicalExpr) : PhysicalPlan :=
  limit_plan lim (PProjection out es (sort_plan srt (PTableScan scan_out schema table ids filters))).

(** The pipeline that ends in the collector, and the one that fills the sort
    buffer it reads. *)
Definition collect_pipeline (es : list LogicalExpr) (lim : option (Z * Z)) (src : SourceOp) (deps : list nat) : Pipeline :=
  mkPipeline 0 (Some src) (PoProjection es :: match lim with Some (l, o) => [PoLimit l o] | None => [] end) SinkCollector deps.

Lemma select_pipelines lim out es srt scan_out schema table ids filters :
  let scan := SrcScan (Scan_new schema table ids filters (output_types scan_out)) in
  Initialize_pipelines (scan_select_plan lim out es srt scan_out schema table ids filters) =
  match srt with
  | None => [collect_pipeline es (limit_of lim) scan []]
  | Some (_, top_k, keys, asc) =>
      [mkPipeline 1 (Some scan) [] (SinkSort top_k keys asc) []; collect_pipeline es (limit_of lim) (SrcSort 1) [1]]
  end.
Proof. by destruct lim as [[[o l] off]|], srt as [[[[o' k] ks] asc]|]. Qed.

Lemma elem_of_stream cs x r : x ∈ cs -> r ∈ chunk_rows x -> r ∈ stream_rows cs.
Proof.
  intros Hx Hr. unfold stream_rows. apply list_elem_of_In, in_concat. exists (chunk_rows x). rewrite <- !list_elem_of_In.
  split; [|done]. apply list_elem_of_fmap. by exists x.
Qed.

Lemma stream_length cs : Forall (fun c => 0 < ch_count c) cs -> length cs <= length (stream_rows cs).
Proof.
  induction 1 as [|c cs Hc _ IH]; [done|]. unfold stream_rows in *. cbn [fmap list_fmap concat length].
  rewrite length_app, length_chunk_rows. cbn. lia.
Qed.

Lemma collect_pure s chunk (c0 : ExecContext S) :
  Sink_Consume (BSops := _) env SinkCollector (StCollector s) chunk c0 = (c0, s' ← Collector_Consume s chunk; Ok (StCollector s')).
Proof. cbn [Sink_Consume]. unfold mbind, step_bind, result_bind, pure_r. by destruct (Collector_Consume s chunk). Qed.

(** The operators and the sink of that plan. *)
Lemma run_select lim es types (c : ExecContext S) src cs rows fuel inner :
  reading_source src c -> produces (paired_GetData GetDataS) (src, c) cs -> Forall (fun c => batch_ok c /\ col_types c = types) cs ->
  Forall (fun e => well_typed types e = true) es -> mapM (project_row (env_fpu env) es) (stream_rows cs) = Some rows -> length cs < fuel ->
  exists c' chunks,
    PipelineExecute env (Sink_Consume (BSops := _) env SinkCollector) GetDataS fuel (Datatypes.S inner) src (OpProjection es :: limit_ops lim) (StCollector []) c =
      (c', Ok (StCollector chunks)) /\
    stream_rows chunks = limited lim LimitState_init rows /\ same_database c c'.
Proof.
  intros Hsrc Hprod Hcs Hes Hm Hf. unfold PipelineExecute. rewrite fmap_cons.
  assert ((fun op => (op, CreateOperatorState op)) <$> limit_ops lim = limit_states lim LimitState_init) as -> by (by destruct lim as [[l o]|]).
  destruct (project_run env types es Collector_Consume stream_rows Hes (paired_GetData GetDataS) fuel inner lim (src, c) cs LimitState_init
    (mkChunk [] 0) (mkChunk [] 0) [] rows) as (chunks & Hrun & Hrows); try done.
  destruct (run_source_pure env StCollector Collector_Consume _ GetDataS same_database reading_source collect_pure reading_GetData
    _ _ _ _ _ _ _ _ _ Hsrc Hrun) as (c' & Hrun' & HR).
  exists c', chunks. split; [exact Hrun'|done].
Qed.

(** The rows of the plan, on any database whose table has the rows the
    transaction sees. *)
Definition ordered_rows (F : FPU) (srt : sort_spec) (rows : list sql_row) : list sql_row :=
  match srt with
  | Some (_, top_k, keys, asc) =>
      let sorted := LogicalPlan.sort_rows F keys asc rows in if Z.leb 0 top_k then take (Z.to_nat top_k) sorted else sorted
  | None => rows
  end.

Lemma scan_select_rows F tables lim out es srt scan_out schema table ids filters rows :
  phys_rows F tables (scan_select_plan lim out es srt scan_out schema table ids filters) = Some rows ->
  exists projected, mapM (project_row F es) (ordered_rows F srt (passing_rows F filters (select_cols ids <$> tables schema table))) = Some projected /\
    rows = limited (limit_of lim) LimitState_init projected.
Proof.
  unfold scan_select_plan, limit_plan, limit_of, sort_plan.
  destruct lim as [[[o l] off]|], srt as [[[[o' k] ks] asc]|]; cbn [phys_rows mbind option_bind fmap option_fmap option_map ordered_rows].
  1, 2: intros (projected & Hp & ->)%fmap_Some; by exists projected.
  all: intros Hp; by exists rows.
Qed.

(** The keys of an ORDER BY have a value on every row, which is not NaN, and there
    is memory for the rows its LIMIT asks for. *)
Definition sort_ok (F : FPU) (memory : N) (types : list TypeId) (srt : sort_spec) (rows : list sql_row) : Prop :=
  match srt with
  | Some (_, top_k, keys, asc) =>
      reserve memory top_k = Ok tt /\ length keys <= length asc /\
      Forall (fun k => well_typed types k = true /\ Forall (fun r => exists x, eval_row F k r = Some x /\ not_nan x) rows) keys
  | None => True
  end.

Lemma ordered_length F srt rows : length (ordered_rows F srt rows) <= length rows.
Proof.
  unfold ordered_rows, LogicalPlan.sort_rows. destruct srt as [[[[o k] ks] asc]|]; [|done].
  destruct (Z.leb 0 k); rewrite ?length_take, length_stable_sort; lia.
Qed.

(** One pipeline, from the objects before it to those behind it. *)
Lemma pipeline_run p objs (c c' : ExecContext S) so src ops st st' st'' fuel inner :
  source p = Some so -> open_source env objs so c = (c, Ok src) -> mapM_r (open_operator objs) (operators p) = Ok ops ->
  objs !! pipe_id p = Some st -> PipelineExecute env (Sink_Consume (BSops := _) env (sink p)) GetDataS fuel inner src ops st c = (c', Ok st') ->
  Sink_Finalize env heap (sink p) st' = Ok st'' ->
  run_pipeline (BSops := _) env heap fuel inner objs p c = (c', Ok (<[pipe_id p := st'']> objs)).
Proof.
  intros Hso Hopen Hops Hst Hrun Hfin. unfold run_pipeline. rewrite Hso, (step_run _ _ c c src Hopen), Hops, Hst.
  rewrite (step_run (pure_r _) _ c c ops eq_refl), (step_run (pure_r _) _ c c st eq_refl), (step_run _ _ c c' st' Hrun), Hfin. done.
Qed.

(** Filling a sink from a source, without operators between them. *)
Lemma run_sink {A} (k : SinkOp) (emb : A -> SinkState) (Consume : A -> DataChunk -> result A) (c : ExecContext S) src cs st st' fuel inner :
  (forall s chunk c0, Sink_Consume (BSops := _) env k (emb s) chunk c0 = (c0, s' ← Consume s chunk; Ok (emb s'))) ->
  reading_source src c -> produces (paired_GetData GetDataS) (src, c) cs -> Forall (fun x => 0 < ch_count x) cs -> length cs < fuel ->
  foldM Consume st cs = Ok st' ->
  exists c', PipelineExecute env (Sink_Consume (BSops := _) env k) GetDataS fuel inner src [] (emb st) c = (c', Ok (emb st')) /\ same_database c c'.
Proof.
  intros Hcollect Hsrc Hprod Hcs Hf Hfold.
  assert (run_source env Consume (paired_GetData GetDataS) fuel inner (src, c) [] (mkChunk [] 0) (mkChunk [] 0) st = Ok st') as Hrun
    by (by eapply consume_run).
  destruct (run_source_pure env emb Consume _ GetDataS same_database reading_source Hcollect reading_GetData
    _ _ _ _ _ _ _ _ _ Hsrc Hrun) as (c' & Hrun' & HR).
  exists c'. split; [exact Hrun'|exact HR].
Qed.

(** The sort buffer. *)
Lemma run_sort top_k keys asc types (c : ExecContext S) src cs fuel inner :
  reading_source src c -> produces (paired_GetData GetDataS) (src, c) cs ->
  Forall (fun x => 0 < ch_count x /\ Forall dv_full (columns x) /\ sortable (env_fpu env) types keys x) cs -> length cs < fuel ->
  exists c' buf,
    PipelineExecute env (Sink_Consume (BSops := _) env (SinkSort top_k keys asc)) GetDataS fuel inner src [] (StSort SortBuffer_empty) c =
      (c', Ok (StSort buf)) /\
    stream_rows (sort_chunks buf) = stream_rows cs /\ Forall (sortable (env_fpu env) types keys) (sort_chunks buf) /\ same_database c c'.
Proof.
  intros Hsrc Hprod Hcs Hf. destruct (Sort_Consume_all (env_fpu env) types keys cs SortBuffer_empty Hcs) as (buf & Hfold & Hrows & Hall).
  destruct (run_sink (SinkSort top_k keys asc) StSort Sort_Consume c src cs SortBuffer_empty buf fuel inner) as (c' & Hrun & HR); try done.
  - intros s chunk c0. cbn [Sink_Consume]. unfold mbind, step_bind, result_bind, pure_r. by destruct (Sort_Consume s chunk).
  - eapply Forall_impl; [exact Hcs|]. by intros x [? _].
  - exists c', buf. split; [exact Hrun|]. split; [exact Hrows|]. split; [by apply Hall|done].
Qed.

(** A batch of a source whose rows have sort keys. *)
Lemma sortable_batches F types keys rows cs :
  Forall (fun k => well_typed types k = true /\ Forall (fun r => exists x, eval_row F k r = Some x /\ not_nan x) rows) keys ->
  stream_rows cs = rows -> Forall (fun x => batch_ok x /\ 0 < ch_count x /\ col_types x = types /\ Forall dv_full (columns x)) cs ->
  Forall (fun x => 0 < ch_count x /\ Forall dv_full (columns x) /\ sortable F types keys x) cs.
Proof.
  intros Hk <- Hcs. apply Forall_forall. intros x Hx. rewrite Forall_forall in Hcs. destruct (Hcs x Hx) as (Hb & Hpos & Ht & Hf).
  split_and!; [done..|]. split; [done|done|]. eapply Forall_impl; [exact Hk|]. intros k [Hty Hr]. split; [done|].
  rewrite Forall_forall in Hr. apply Forall_forall. intros r Hin. apply Hr. by eapply elem_of_stream.
Qed.

Lemma execute_select `{!StdHeap (push_heap heap) (pop_heap heap)} lim out es srt scan_out schema table ids filters (c : ExecContext S)
    i e contents tables rows fuel inner :
  let types := table_type (ColumnTypes e) <$> ids in let F := env_fpu env in
  GetTable (ex_catalog c) schema table (ex_tx c) = Some (i, e) -> scannable F c e contents ids filters ->
  output_types scan_out = types -> Forall (fun x => well_typed types x = true) es ->
  tables schema table = database_rows (ex_tx c) e contents -> length (tables schema table) < fuel ->
  sort_ok F (heap_memory heap) types srt (passing_rows F filters (select_cols ids <$> tables schema table)) ->
  phys_rows F tables (scan_select_plan lim out es srt scan_out schema table ids filters) = Some rows ->
  exists c' chunks, Execute_plan (BSops := _) env heap fuel (Datatypes.S inner) (scan_select_plan lim out es srt scan_out schema table ids filters) c =
      (c', Ok chunks) /\
    stream_rows chunks = rows /\ same_database c c'.
Proof.
  intros types F Hget Hscan Hout Hes Htab Hfuel Hsort Hrows. apply scan_select_rows in Hrows as (projected & Hm & ->).
  destruct (open_scan F (env_hash env) c schema table i e contents ids filters Hget Hscan) as (ts & cs & Hinit & Hreads & Hprod & Hcs & Hstream).
  rewrite Htab, <- Hstream in Hm, Hsort.
  assert (produces (paired_GetData GetDataS) (SsScan ts CreateScanState, c) cs) as Hsource
    by (destruct c as [s cat tx]; exact (scan_produces ts cat tx (s, CreateScanState) cs Hprod)).
  assert (length (stream_rows cs) < fuel) as Hlen.
  { rewrite Hstream. unfold passing_rows. eapply Nat.le_lt_trans; [apply length_filter|]. by rewrite length_fmap, <- Htab. }
  assert (length cs < fuel) as Hcsf.
  { eapply Nat.le_lt_trans; [apply stream_length|exact Hlen]. eapply Forall_impl; [exact Hcs|]. by intros x (_ & ? & _). }
  assert (open_source env (initial_objects (Initialize_pipelines (scan_select_plan lim out es srt scan_out schema table ids filters)))
    (SrcScan (Scan_new schema table ids filters (output_types scan_out))) c = (c, Ok (SsScan ts CreateScanState))) as Hopen.
  { cbn [open_source]. rewrite Hout, (step_run current _ c c c eq_refl). unfold types. rewrite Hinit. done. }
  destruct (pipelines_ordered (scan_select_plan lim out es srt scan_out schema table ids filters)) as (Ho & Hn & _).
  unfold Execute_plan. rewrite TopologicalSort_ordered by done. rewrite (step_run (pure_r _) _ c c _ eq_refl).
  rewrite select_pipelines in *. clear Ho Hn.
  assert (forall objs, mapM_r (open_operator objs) (operators (collect_pipeline es (limit_of lim) (SrcSort 1) [1])) =
    Ok (OpProjection es :: limit_ops (limit_of lim))) as Hops by (intros objs; by destruct (limit_of lim) as [[l o]|]).
  destruct srt as [[[[out' top_k] keys] asc]|]; cbn [ordered_rows sort_ok] in Hm, Hsort; cbn [each_step].
  - destruct Hsort as (Hres & Hasc & Hkeys).
    destruct (run_sort top_k keys asc types c (SsScan ts CreateScanState) cs fuel (Datatypes.S inner)) as (c1 & buf & Hrun1 & Hbuf & Hsortable & Hsame1);
      [done|done| |done|].
    { eapply sortable_batches; [exact Hkeys|done|exact Hcs]. }
    destruct (Sort_Finalize_rows F (heap_memory heap) (push_heap heap) (pop_heap heap) types keys asc top_k buf Hsortable Hasc Hres)
      as (buf' & Hfin & Hsorted & Hchunks & Hin & Horder).
    rewrite Hbuf in Horder. fold (LogicalPlan.sort_rows F keys asc (stream_rows cs)) in Horder.
    destruct (source_produces buf' types Hsorted) with (idx := 0) as (cs' & Hprod' & Hcs' & Hr').
    { rewrite Hchunks. eapply Forall_impl; [exact Hsortable|]. by intros x [? ? _]. }
    { by rewrite Hchunks. }
    rewrite drop_0, Hchunks, Horder in Hr'. cbn zeta in Hr', Hm. rewrite <- Hr' in Hm.
    destruct (run_select (limit_of lim) es types c1 (SsSort buf' 0) cs' projected fuel inner) as (c2 & chunks & Hrun2 & Hr2 & Hsame2);
      [done|by apply sort_produces| |done|done| |].
    { eapply Forall_impl; [exact Hcs'|]. by intros x [? _]. }
    { eapply Nat.le_lt_trans; [apply stream_length|].
      - eapply Forall_impl; [exact Hcs'|]. by intros x [_ ?].
      - rewrite Hr'. eapply Nat.le_lt_trans; [|exact Hlen]. exact (ordered_length F (Some (out', top_k, keys, asc)) (stream_rows cs)). }
    exists c2, chunks. split; [|split; [done|by etrans]].
    erewrite (step_run _ _ c c2); [|erewrite (step_run _ _ c c1); [|eapply pipeline_run; [done|exact Hopen|done|done|exact Hrun1|]]].
    3: { unfold Sink_Finalize. cbn [sink]. fold F. rewrite Hfin. reflexivity. }
    2: { erewrite (step_run _ _ c1 c2); [done|]. eapply pipeline_run; [done| |apply Hops|done|exact Hrun2|done]. done. }
    done.
  - destruct (run_select (limit_of lim) es types c (SsScan ts CreateScanState) cs projected fuel inner) as (c' & chunks & Hrun & Hr & Hsame);
      [done|done| |done|done|done|].
    { eapply Forall_impl; [exact Hcs|]. by intros x (? & _ & ? & _). }
    exists c', chunks. split; [|done].
    erewrite (step_run _ _ c c'); [|erewrite (step_run _ _ c c'); [done|eapply pipeline_run; [done|exact Hopen|apply Hops|done|exact Hrun|done]]].
    done.
Qed.

End select.
