(* ===== verification/Profiler.v ===== *)
(** * The profiler

    [profiler/query_profiler.cpp], [profiling_result.hpp] and
    [operator_profiler.hpp]: the times of the phases of a query, the calls of its
    operators, and the report that EXPLAIN ANALYZE prints; from
    [execution/executor.cpp] the registration of the operators of a plan.

    A reading of [std::chrono::steady_clock] is an argument of the functions that
    take one, in nanoseconds; that the clock never goes back is a hypothesis.
    The claims are that the phases of a query never add up to more than its
    total, and that the profile of an operator adds up its calls. *)

From Stdlib Require Import ZArith String Ascii SpecFloat.
From stdpp Require Import base strings list pretty.
From S2P Require Import Prelude Types Double Expr LogicalPlan PhysicalPlanner.

#[local] Open Scope string_scope.
#[local] Open Scope Z_scope.

Inductive QueryPhase : Type := PARSE | BIND | OPTIMIZE | PHYSICAL_PLAN | EXECUTE.

Definition PhaseName (p : QueryPhase) : string :=
  match p with
  | PARSE => "PARSE" | BIND => "BIND" | OPTIMIZE => "OPTIMIZE" | PHYSICAL_PLAN => "PHYSICAL_PLAN" | EXECUTE => "EXECUTE"
  end.

Record PhaseProfile : Type := mkPhase { pp_phase : QueryPhase; phase_name : string; duration_us : Z }.

Record OperatorProfile : Type := mkOpProfile {
  operator_name : string;
  total_time_ns : Z;
  call_count : Z;
  prof_rows_in : Z;
  prof_rows_out : Z;
}.

Record ProfilingResult : Type := mkProfile {
  prof_sql : string;
  total_duration_us : Z;
  phases : list PhaseProfile;
  prof_operators : list OperatorProfile;
}.

Record QueryProfiler : Type := mkProfiler {
  active_ : bool;
  sql_ : string;
  query_start_ : Z;
  current_phase_ : QueryPhase * Z;
  phase_profiles_ : list PhaseProfile;
  operator_profiles_ : list OperatorProfile;
}.

Definition QueryProfiler_new : QueryProfiler := mkProfiler false "" 0 (PARSE, 0) [] [].

(** [duration_cast<microseconds>]: towards zero. *)
Definition micros (ns : Z) : Z := Z.quot ns 1000.

(** [int64_t] addition, which may not overflow. *)
Definition add_i64 (a b : Z) : result Z := if decide (INT64_MIN <= a + b <= INT64_MAX) then Ok (a + b) else Err UndefinedBehaviour.

Definition StartQuery (p : QueryProfiler) (sql : string) (now : Z) : QueryProfiler := mkProfiler true sql now (current_phase_ p) [] [].

Definition StartPhase (p : QueryProfiler) (phase : QueryPhase) (now : Z) : QueryProfiler :=
  if active_ p then mkProfiler (active_ p) (sql_ p) (query_start_ p) (phase, now) (phase_profiles_ p) (operator_profiles_ p) else p.

Definition EndPhase (p : QueryProfiler) (phase : QueryPhase) (now : Z) : QueryProfiler :=
  if active_ p then
    mkProfiler (active_ p) (sql_ p) (query_start_ p) (current_phase_ p)
      (phase_profiles_ p ++ [mkPhase phase (PhaseName phase) (micros (now - (current_phase_ p).2))]) (operator_profiles_ p)
  else p.

Definition RegisterOperator (p : QueryProfiler) (name : string) : QueryProfiler * nat :=
  (mkProfiler (active_ p) (sql_ p) (query_start_ p) (current_phase_ p) (phase_profiles_ p) (operator_profiles_ p ++ [mkOpProfile name 0 0 0 0]),
   length (operator_profiles_ p)).

(** One call added to the profile of its operator. *)
Definition add_call (op : OperatorProfile) (ns rows_in rows_out : Z) : result OperatorProfile :=
  t ← add_i64 (total_time_ns op) ns;
  n ← add_i64 (call_count op) 1;
  i ← add_i64 (prof_rows_in op) rows_in;
  o ← add_i64 (prof_rows_out op) rows_out;
  Ok (mkOpProfile (operator_name op) t n i o).

Definition RecordOperatorCall (p : QueryProfiler) (idx : nat) (duration_ns rows_in rows_out : Z) : result QueryProfiler :=
  if active_ p then
    op ← of_option UndefinedBehaviour (operator_profiles_ p !! idx);
    op ← add_call op duration_ns rows_in rows_out;
    Ok (mkProfiler (active_ p) (sql_ p) (query_start_ p) (current_phase_ p) (phase_profiles_ p) (<[idx := op]> (operator_profiles_ p)))
  else Ok p.

Definition EndQuery (p : QueryProfiler) (now : Z) : QueryProfiler * ProfilingResult :=
  (mkProfiler false (sql_ p) (query_start_ p) (current_phase_ p) [] [],
   mkProfile (sql_ p) (micros (now - query_start_ p)) (phase_profiles_ p) (operator_profiles_ p)).

(** [OperatorProfileGuard] around a call of an operator that starts at [start]
    and ends at [stop]; [rows_out] stays 0 when the call throws. *)
Definition guarded_call (p : QueryProfiler) (idx : nat) (rows_in start stop : Z) (rows_out : option Z) : result QueryProfiler :=
  RecordOperatorCall p idx (stop - start) rows_in (default 0 rows_out).

(** ** The report *)

(** [std::fixed << std::setprecision(3)] on a double: the exact value rounded to
    three places, ties to even. *)
Definition round_even (n d : Z) : Z :=
  let q := n / d in let r := 2 * (n mod d) in
  if Z.ltb r d then q else if Z.ltb d r then q + 1 else if Z.even q then q else q + 1.

Definition decimal_digit (n : Z) : string := pretty (n mod 10).

Definition fixed3 (bits : Z) : string :=
  let sign := if Z.testbit bits 63 then "-" else "" in
  match f64_to_SF bits with
  | S754_zero _ => sign +:+ "0.000"
  | S754_infinity _ => sign +:+ "inf"
  | S754_nan => sign +:+ "nan"
  | S754_finite _ m e =>
      let n := if Z.leb 0 e then Zpos m * 2 ^ e * 1000 else round_even (Zpos m * 1000) (2 ^ (- e)) in
      sign +:+ pretty (n / 1000) +:+ "." +:+ decimal_digit (n / 100) +:+ decimal_digit (n / 10) +:+ decimal_digit n
  end.

Definition eol : string := String "010"%char "".

(** [us / 1000.0] *)
Definition millis (F : FPU) (us : Z) : string := fixed3 (f64_div F (f64_of_i64 us) (f64_of_i64 1000)).

Definition phase_line (F : FPU) (ph : PhaseProfile) : string := "  " +:+ phase_name ph +:+ ": " +:+ millis F (duration_us ph) +:+ " ms" +:+ eol.

Definition operator_line (F : FPU) (total_ns : Z) (op : OperatorProfile) : string :=
  let pct := if Z.ltb 0 total_ns
             then f64_div F (f64_mul F (f64_of_i64 100) (f64_of_i64 (total_time_ns op))) (f64_of_i64 total_ns) else f64_of_i64 0 in
  "  " +:+ operator_name op +:+ "  time=" +:+ fixed3 (f64_div F (f64_of_i64 (total_time_ns op)) (f64_of_i64 1000000)) +:+ "ms" +:+
  "  rows_in=" +:+ pretty (prof_rows_in op) +:+ "  rows_out=" +:+ pretty (prof_rows_out op) +:+
  "  calls=" +:+ pretty (call_count op) +:+ "  (" +:+ fixed3 pct +:+ "%)" +:+ eol.

Definition ProfilingResult_ToString (F : FPU) (r : ProfilingResult) : result string :=
  let head := "Query: " +:+ prof_sql r +:+ eol +:+ "Total: " +:+ millis F (total_duration_us r) +:+ " ms" +:+ eol +:+ eol +:+
              "Phases:" +:+ eol +:+ String.concat "" (phase_line F <$> phases r) in
  match prof_operators r with
  | [] => Ok head
  | ops =>
      total_ns ← foldM (fun acc op => add_i64 acc (total_time_ns op)) 0 ops;
      Ok (head +:+ eol +:+ "Operators:" +:+ eol +:+ String.concat "" (operator_line F total_ns <$> ops))
  end.

(** ** The operators of a plan *)

(** [RegisterOperators]: depth first, the operators that are no children behind
    the children; an operator's index is its position. *)
Fixpoint registered_names (p : PhysicalPlan) : list string :=
  match p with
  | PTableScan _ _ _ _ _ => ["PhysicalTableScan"]
  | PFilter _ _ c => "PhysicalFilter" :: registered_names c
  | PProjection _ _ c => "PhysicalProjection" :: registered_names c
  | PLimit _ _ _ c => "PhysicalLimit" :: registered_names c
  | PSort _ _ _ _ c => "PhysicalSort" :: registered_names c ++ ["PhysicalSortSource"]
  | PHashAggregation _ _ _ _ c => "PhysicalHashAggregation" :: registered_names c ++ ["PhysicalAggregationSource"]
  | PHashJoin _ _ _ _ _ _ l r => "PhysicalHashJoinProbe" :: registered_names l ++ "PhysicalHashJoinBuild" :: registered_names r
  | PInsert _ _ _ _ None => ["PhysicalInsert"]
  | PInsert _ _ _ _ (Some c) => "PhysicalInsert" :: registered_names c
  | PDelete _ _ _ => ["PhysicalDelete"]
  | PUpdate _ _ _ _ _ _ => ["PhysicalUpdate"]
  | PCreateTable _ _ _ _ _ => ["PhysicalCreateTable"]
  | PDropTable _ _ _ => ["PhysicalDropTable"]
  | PAlterTable _ => ["PhysicalAlterTable"]
  end%list.

Definition RegisterOperators (p : QueryProfiler) (plan : PhysicalPlan) : QueryProfiler :=
  foldl (fun p name => (RegisterOperator p name).1) p (registered_names plan).

(** ** A profiled query *)

(** What happens between [StartQuery] and [EndQuery]: a phase from one reading of
    the clock to another, the registration of a plan, a call of an operator. *)
Inductive event : Type :=
  | Phase (phase : QueryPhase) (start stop : Z)
  | Register (plan : PhysicalPlan)
  | Call (idx : nat) (duration_ns rows_in rows_out : Z).

Definition profile_event (p : QueryProfiler) (ev : event) : result QueryProfiler :=
  match ev with
  | Phase ph start stop => Ok (EndPhase (StartPhase p ph start) ph stop)
  | Register plan => Ok (RegisterOperators p plan)
  | Call idx ns i o => RecordOperatorCall p idx ns i o
  end.

Definition profile_query (p : QueryProfiler) (sql : string) (start : Z) (evs : list event) (stop : Z) : result ProfilingResult :=
  p ← foldM profile_event (StartQuery p sql start) evs; Ok (EndQuery p stop).2.

(** *** What it adds up *)

Definition zsum (l : list Z) : Z := foldr Z.add 0 l.

Lemma zsum_app l k : zsum (l ++ k) = zsum l + zsum k.
Proof. induction l as [|x l IH]; [done|]. unfold zsum in *. cbn. rewrite IH. lia. Qed.
Lemma zsum_nonneg l : Forall (Z.le 0) l -> 0 <= zsum l.
Proof. induction 1 as [|x l Hx _ IH]; [done|]. unfold zsum in *. cbn. lia. Qed.

(** The calls of one operator: durations, rows in and rows out. *)
Definition calls (idx : nat) (evs : list event) : list (Z * Z * Z) :=
  omap (fun ev => match ev with Call i ns a b => if decide (i = idx) then Some (ns, a, b) else None | _ => None end) evs.

Definition registered (evs : list event) : list string :=
  concat ((fun ev => match ev with Register plan => registered_names plan | _ => [] end) <$> evs).

(** What the profile of the operator should say. *)
Definition summary (evs : list event) (idx : nat) (name : string) : OperatorProfile :=
  let cs := calls idx evs in
  mkOpProfile name (zsum (cs.*1.*1)) (Z.of_nat (length cs)) (zsum (cs.*1.*2)) (zsum (cs.*2)).

Definition phases_of (evs : list event) : list PhaseProfile :=
  omap (fun ev => match ev with Phase ph a b => Some (mkPhase ph (PhaseName ph) (micros (b - a))) | _ => None end) evs.

(** The readings of the clock between [t] and [stop]. *)
Fixpoint in_order (t : Z) (evs : list event) (stop : Z) : Prop :=
  match evs with
  | [] => t <= stop
  | Phase _ a b :: evs => t <= a <= b /\ in_order b evs stop
  | _ :: evs => in_order t evs stop
  end.

(** Calls of operators that are registered, with counts that fit. *)
Fixpoint calls_ok (n : nat) (evs : list event) : Prop :=
  match evs with
  | [] => True
  | Register plan :: evs => calls_ok (n + length (registered_names plan)) evs
  | Call idx ns a b :: evs => (idx < n)%nat /\ 0 <= ns /\ 0 <= a /\ 0 <= b /\ calls_ok n evs
  | _ :: evs => calls_ok n evs
  end.

Definition sums_fit (evs : list event) : Prop :=
  forall idx, let cs := calls idx evs in
    zsum (cs.*1.*1) <= INT64_MAX /\ Z.of_nat (length cs) <= INT64_MAX /\ zsum (cs.*1.*2) <= INT64_MAX /\ zsum (cs.*2) <= INT64_MAX.

Lemma calls_app idx evs evs' : calls idx (evs ++ evs') = (calls idx evs ++ calls idx evs')%list.
Proof. apply omap_app. Qed.

Lemma calls_nonneg n evs idx : calls_ok n evs -> Forall (fun c : Z * Z * Z => 0 <= c.1.1 /\ 0 <= c.1.2 /\ 0 <= c.2) (calls idx evs).
Proof.
  revert n. induction evs as [|[ph a b|plan|i ns a b] evs IH]; intros n Hok; cbn in *; [constructor|by eapply IH|by eapply IH|].
  destruct Hok as (_ & Hns & Ha & Hb & Hok). case_decide; [|by eapply IH]. constructor; [done|by eapply IH].
Qed.

Lemma calls_ok_app n evs evs' : calls_ok n (evs ++ evs') -> calls_ok n evs /\ calls_ok (n + length (registered evs)) evs'.
Proof.
  revert n. induction evs as [|[ph a b|plan|i ns a b] evs IH]; intros n Hok; cbn in *.
  - by rewrite Nat.add_0_r.
  - by apply IH.
  - destruct (IH _ Hok) as [H1 H2]. split; [done|]. unfold registered. cbn. rewrite length_app. by rewrite Nat.add_assoc.
  - destruct Hok as (Hi & Hns & Ha & Hb & Hok). by destruct (IH _ Hok) as [H1 H2].
Qed.

Lemma registered_app evs evs' : registered (evs ++ evs') = (registered evs ++ registered evs')%list.
Proof. unfold registered. by rewrite fmap_app, concat_app. Qed.

Lemma RegisterOperators_eq p plan :
  RegisterOperators p plan = mkProfiler (active_ p) (sql_ p) (query_start_ p) (current_phase_ p) (phase_profiles_ p)
    (operator_profiles_ p ++ ((fun name => mkOpProfile name 0 0 0 0) <$> registered_names plan)).
Proof.
  unfold RegisterOperators. generalize (registered_names plan) as l. intros l. revert p.
  induction l as [|x l IH]; intros p; [destruct p; cbn; by rewrite app_nil_r|]. cbn [foldl]. rewrite IH. cbn. by rewrite <- app_assoc.
Qed.

(** A call that is not recorded yet. *)
Lemma calls_none idx n evs : calls_ok n evs -> (n + length (registered evs) <= idx)%nat -> calls idx evs = [].
Proof.
  revert n. induction evs as [|[ph a b|plan|i ns a b] evs IH]; intros n Hok Hle; cbn in *; [done|by eapply IH| |].
  - eapply IH; [exact Hok|]. unfold registered in Hle |- *. cbn in Hle. rewrite length_app in Hle. lia.
  - destruct Hok as (Hi & _ & _ & _ & Hok). rewrite decide_False by (unfold registered in Hle; cbn in Hle; lia). by eapply IH.
Qed.

Lemma add_i64_ok a b : 0 <= a -> 0 <= b -> a + b <= INT64_MAX -> add_i64 a b = Ok (a + b).
Proof. intros. unfold add_i64. rewrite decide_True; [done|]. unfold INT64_MIN. lia. Qed.

(** One more call. *)
Lemma summary_call pre idx name ns a b post :
  calls_ok 0 (pre ++ Call idx ns a b :: post) -> sums_fit (pre ++ Call idx ns a b :: post) ->
  add_call (summary pre idx name) ns a b = Ok (summary (pre ++ [Call idx ns a b]) idx name).
Proof.
  intros Hok Hfit. destruct (calls_ok_app _ _ _ Hok) as [Hpre Hpost]. specialize (Hfit idx). cbn zeta in Hfit. rewrite calls_app in Hfit.
  pose proof (calls_nonneg _ _ idx Hpre) as Hnn. pose proof (calls_nonneg _ _ idx Hpost) as Hnn'. cbn [calls omap list_omap] in Hfit, Hnn'.
  rewrite decide_True in Hfit, Hnn' by done. fold (calls idx post) in Hfit, Hnn'. cbn in Hpost.
  rewrite !fmap_app, !zsum_app, length_app in Hfit. unfold zsum in Hfit. cbn [fmap list_fmap foldr fst snd length] in Hfit. fold zsum in Hfit.
  apply Forall_cons in Hnn' as [_ Hnn'].
  assert (forall (f : Z * Z * Z -> Z) l, Forall (fun c : Z * Z * Z => 0 <= f c) l -> 0 <= zsum (f <$> l)) as Hsum
    by (intros f l Hl; apply zsum_nonneg; by apply Forall_fmap).
  assert (forall l, Forall (fun c : Z * Z * Z => 0 <= c.1.1 /\ 0 <= c.1.2 /\ 0 <= c.2) l ->
    0 <= zsum (l.*1.*1) /\ 0 <= zsum (l.*1.*2) /\ 0 <= zsum (l.*2)) as Hsums.
  { intros l Hl. rewrite <- !list_fmap_compose. split_and!; apply Hsum; (eapply Forall_impl; [exact Hl|]); intros [[x y] z]; cbn; lia. }
  destruct (Hsums _ Hnn) as (? & ? & ?), (Hsums _ Hnn') as (? & ? & ?).
  unfold add_call, summary. cbn [total_time_ns call_count prof_rows_in prof_rows_out operator_name].
  unfold zsum in *. rewrite !add_i64_ok by lia. cbn [mbind result_bind]. rewrite calls_app. cbn [calls omap list_omap]. rewrite decide_True by done.
  fold zsum in *. rewrite !fmap_app, !zsum_app, length_app. cbn. unfold zsum. cbn. f_equal. f_equal; lia.
Qed.

(** The profiler behind the events [evs]. *)
Definition profiled (sql : string) (start : Z) (evs : list event) (p : QueryProfiler) : Prop :=
  active_ p = true /\ sql_ p = sql /\ query_start_ p = start /\ phase_profiles_ p = phases_of evs /\
  operator_profiles_ p = imap (summary evs) (registered evs).

Lemma summary_other evs ev idx name : calls idx [ev] = [] -> summary (evs ++ [ev]) idx name = summary evs idx name.
Proof. intros H. unfold summary. by rewrite calls_app, H, app_nil_r. Qed.

Lemma profiled_event sql start pre ev post p :
  calls_ok 0 (pre ++ ev :: post) -> sums_fit (pre ++ ev :: post) -> profiled sql start pre p ->
  exists p', profile_event p ev = Ok p' /\ profiled sql start (pre ++ [ev]) p'.
Proof.
  intros Hok Hfit (Hact & Hsql & Hstart & Hph & Hops). unfold profiled. rewrite registered_app.
  assert (phases_of (pre ++ [ev]) = (phases_of pre ++ phases_of [ev])%list) as -> by apply omap_app.
  destruct ev as [ph a b|plan|idx ns a b]; cbn [profile_event].
  - eexists. split; [done|]. unfold EndPhase, StartPhase. rewrite Hact. cbn. rewrite ?Hact. cbn. split_and!; try done.
    + by rewrite Hph.
    + rewrite app_nil_r, Hops. apply imap_ext. intros i x _. by rewrite summary_other.
  - eexists. split; [done|]. rewrite RegisterOperators_eq. cbn. rewrite !app_nil_r. split_and!; try done.
    destruct (calls_ok_app _ _ _ Hok) as [Hpre _]. rewrite Hops, imap_app. f_equal.
    + apply imap_ext. intros i x _. by rewrite summary_other.
    + apply list_eq. intros i. rewrite list_lookup_imap, list_lookup_fmap. destruct (registered_names plan !! i); cbn; [|done].
      rewrite summary_other by done. unfold summary. rewrite (calls_none _ 0 pre); [done|done|lia].
  - destruct (calls_ok_app _ _ _ Hok) as [_ [Hlt _]]. rewrite Nat.add_0_l in Hlt.
    destruct (lookup_lt_is_Some_2 _ _ Hlt) as [name Hname]. unfold RecordOperatorCall.
    rewrite Hact, Hops, list_lookup_imap, Hname. cbn [fmap option_fmap option_map of_option mbind result_bind].
    rewrite (summary_call pre idx name ns a b post Hok Hfit). cbn [mbind result_bind]. eexists. split; [done|]. cbn.
    rewrite !app_nil_r. split_and!; try done. apply list_eq. intros i. rewrite list_lookup_imap.
    destruct (decide (i = idx)) as [->|Hne].
    + rewrite list_lookup_insert_eq by (rewrite length_imap; done). by rewrite Hname.
    + rewrite list_lookup_insert_ne, list_lookup_imap by done. destruct (registered pre !! i); cbn; [|done]. f_equal. symmetry.
      apply summary_other. cbn. by rewrite decide_False by done.
Qed.

Lemma micros_sum a b : 0 <= a -> 0 <= b -> micros a + micros b <= micros (a + b).
Proof. intros. unfold micros. rewrite !Z.quot_div_nonneg by lia. apply Z.div_le_lower_bound; [lia|]. pose proof (Z.mul_div_le a 1000). pose proof (Z.mul_div_le b 1000). lia. Qed.

Lemma phases_sum t evs stop : in_order t evs stop -> t <= stop /\ 0 <= zsum (duration_us <$> phases_of evs) <= micros (stop - t).
Proof.
  revert t. induction evs as [|[ph a b|plan|i ns a b] evs IH]; intros t Hin; cbn in Hin.
  - split; [done|]. cbn. unfold micros. rewrite Z.quot_div_nonneg by lia. split; [done|]. apply Z.div_pos; lia.
  - destruct Hin as [[Hta Hab] Hin]. destruct (IH b Hin) as (Hle & H0 & Hsum). split; [lia|].
    change (phases_of (Phase ph a b :: evs)) with (mkPhase ph (PhaseName ph) (micros (b - a)) :: phases_of evs).
    rewrite fmap_cons. unfold zsum in *. cbn [foldr duration_us].
    pose proof (micros_sum (b - a) (stop - b) ltac:(lia) ltac:(lia)). pose proof (micros_sum (a - t) (stop - a) ltac:(lia) ltac:(lia)).
    assert (0 <= micros (b - a)) by (unfold micros; apply Z.quot_pos; lia). assert (0 <= micros (a - t)) by (unfold micros; apply Z.quot_pos; lia).
    replace (b - a + (stop - b)) with (stop - a) in * by lia. replace (a - t + (stop - a)) with (stop - t) in * by lia. lia.
  - by apply IH.
  - by apply IH.
Qed.

(** When the clock does not go back and the counts fit in 64 bits, a profiled
    query has a profile: its phases are those that ran, in order, and
    take no more than the total; its operators are those of the plan, and the
    time, calls and rows of each are the sums over its calls. *)
Theorem profile_adds_up p sql start evs stop :
  in_order start evs stop -> calls_ok 0 evs -> sums_fit evs ->
  exists r, profile_query p sql start evs stop = Ok r /\
    phases r = phases_of evs /\ 0 <= zsum (duration_us <$> phases r) <= total_duration_us r /\
    prof_operators r = imap (summary evs) (registered evs).
Proof.
  intros Hclock Hok Hfit. unfold profile_query.
  destruct (foldM_invariant (profiled sql start) profile_event (StartQuery p sql start) evs) as (q & -> & _ & _ & Hs & Hph & Hops).
  - done.
  - intros pre ev q Hq [post ->]. by apply (profiled_event _ _ _ _ post).
  - cbn [mbind result_bind]. eexists. split; [done|]. cbn. rewrite Hs, Hph. split; [done|]. split; [by apply phases_sum|done].
Qed.

(** *** A report *)

Definition sample_events : list event :=
  [Phase PARSE 1000 41000; Phase BIND 41000 55000; Phase OPTIMIZE 56000 60000; Phase PHYSICAL_PLAN 60000 61500;
   Register (PLimit no_output 2 0 (PTableScan no_output "main" "t" [0%nat] []));
   Call 1 20000 0 3; Call 0 4000 3 2; Phase EXECUTE 62000 1299999].

Lemma profile_adds_up_witness :
  exists r, profile_query QueryProfiler_new "q" 0 sample_events 1300500 = Ok r /\
    phases r = phases_of sample_events /\ 0 <= zsum (duration_us <$> phases r) <= total_duration_us r /\
    prof_operators r = [mkOpProfile "PhysicalLimit" 4000 1 3 2; mkOpProfile "PhysicalTableScan" 20000 1 0 3].
Proof.
  apply (profile_adds_up QueryProfiler_new "q" 0 sample_events 1300500).
  - cbn. lia.
  - cbn. lia.
  - intros [|[|idx]]; vm_compute; split_and!; discriminate.
Defined.

Example sample_report :
  (r ← profile_query QueryProfiler_new "q" 0 sample_events 1300500; ProfilingResult_ToString sample_FPU r) = Ok (
"Query: q
Total: 1.300 ms

Phases:
  PARSE: 0.040 ms
  BIND: 0.014 ms
  OPTIMIZE: 0.004 ms
  PHYSICAL_PLAN: 0.001 ms
  EXECUTE: 1.237 ms

Operators:
  PhysicalLimit  time=0.004ms  rows_in=3  rows_out=2  calls=1  (16.667%)
  PhysicalTableScan  time=0.020ms  rows_in=0  rows_out=3  calls=1  (83.333%)
").
Proof. vm_compute. reflexivity. Qed.
