(* ===== verification/ClientContext.v ===== *)
(** * Connections and the client context

    [main/client_context.cpp]: the way of one SQL text through the tokenizer,
    the parser, the binder, the optimizer, the planner and the executor, with
    EXPLAIN and the conversion of exceptions to error results.
    [main/connection.cpp]: the transactions of a connection, explicit or one per
    statement.

    The claims are that a SELECT over one table returns the rows of the plan its
    text is bound to, and that a connection has a transaction open exactly when
    the transaction manager counts it among the active ones.

    The profiler is represented by the flag that switches it on: what it measures
    is an argument, which EXPLAIN ANALYZE prints. *)

From Stdlib Require Import ZArith String Ascii.
From stdpp Require Import base gmap strings list fin_maps pretty.
From S2P Require Import Prelude Types Double Expr VersionInfo BlockFile BufferManager ColumnChunk RowGroup PartitionInfo Operators HashJoin Pipeline Sorting Sort Aggregate Transaction Schema LogicalPlan PhysicalPlanner Profiler Optimizer Catalog Ast Tokenizer Parser Binder TableScan Wal TransactionManager Dml Executor.

#[local] Open Scope string_scope.

(** ** EXPLAIN *)

Fixpoint spaces (n : nat) : string := match n with 0 => "" | S n => " " +:+ spaces n end.
Definition newline : string := String "010" "".

Definition partition_type_name (t : PartitionType) : string :=
  match t with PT_RANGE => "RANGE" | PT_HASH => "HASH" | _ => "LIST" end.

(** The line of one node. *)
Definition plan_line (node : LogicalPlan) : string :=
  match node with
  | LGet _ g =>
      let pi := get_partition_info g in
      "Scan " +:+ get_schema_name g +:+ "." +:+ get_table_name g +:+
      (if IsPartitioned pi then
         " [partition=" +:+ partition_type_name (ptype pi) +:+ "(" +:+ String.concat "," (partition_cols pi) +:+
         "), partitions=" +:+ pretty (num_partitions pi) +:+ "]"
       else "")
  | LFilter _ _ _ => "Filter"
  | LProjection _ _ _ => "Projection"
  | LLimit _ limit offset _ =>
      "Limit" +:+ (if Z.leb 0 limit then " limit=" +:+ pretty limit else "") +:+
      (if Z.ltb 0 offset then " offset=" +:+ pretty offset else "")
  | LSort _ _ _ _ => "Sort"
  | LAggregate _ _ _ _ => "Aggregate"
  | LJoin _ _ _ _ _ _ => "HashJoin"
  | LInsert _ s t _ _ _ => "Insert " +:+ s +:+ "." +:+ t
  | LDelete _ s t _ => "Delete " +:+ s +:+ "." +:+ t
  | LUpdate _ s t _ _ _ => "Update " +:+ s +:+ "." +:+ t
  | LCreateTable _ s t _ _ _ => "CreateTable " +:+ s +:+ "." +:+ t
  | LDropTable _ s t _ => "DropTable " +:+ s +:+ "." +:+ t
  | LAlterTable _ a =>
      "AlterTable " +:+ alter_schema_name a +:+ "." +:+ alter_table_name a +:+
      match alter_kind a with
      | DROP_PARTITION => " DROP PARTITION " +:+ pretty (alter_partition_idx a)
      | ADD_PARTITION => " ADD PARTITION"
      end
  end.

(** [FormatLogicalPlan] *)
Fixpoint FormatLogicalPlan (node : LogicalPlan) (depth : nat) : string :=
  let line := spaces (depth * 2) +:+ plan_line node in
  let below c := newline +:+ FormatLogicalPlan c (depth + 1) in
  match node with
  | LFilter _ _ c | LProjection _ _ c | LLimit _ _ _ c | LSort _ _ _ c | LAggregate _ _ _ c | LDelete _ _ _ c | LUpdate _ _ _ _ _ c
  | LInsert _ _ _ _ _ (Some c) => line +:+ below c
  | LJoin _ _ _ _ l r => line +:+ below l +:+ below r
  | _ => line
  end.

(** ** Query results *)

Record QueryResult : Type := mkResult {
  result_names : list string;
  result_types : list TypeId;
  result_chunks : list DataChunk;
  success : bool;
  error_message : string;
}.

Definition result_rows (r : QueryResult) : list sql_row := stream_rows (result_chunks r).

(** The batch with one string that EXPLAIN returns. *)
Definition text_result (text : string) : result QueryResult :=
  v ← SetValid (with_count 1 (with_str [text] (Reset VARCHAR 0))) 0;
  Ok (mkResult ["QUERY PLAN"] [VARCHAR] [mkChunk [v] 1] true "").

Definition error_result (msg : string) : QueryResult := mkResult [] [] [] false msg.

(** [e.what()]; the texts of the standard library's exceptions are its own. *)
Definition what (std : error -> string) (e : error) : string :=
  match e with ParseError m _ | BindError m | RuntimeError m | IOError m => m | _ => std e end.

(** What an executor's result collector announces. *)
Definition plan_schema (p : PhysicalPlan) : OutputSchema :=
  match p with
  | PTableScan o _ _ _ _ | PFilter o _ _ | PProjection o _ _ | PLimit o _ _ _ | PSort o _ _ _ _
  | PHashAggregation o _ _ _ _ | PHashJoin o _ _ _ _ _ _ _ => o
  | _ => no_output
  end.

Section query.
Context {S : Type} {BSops : BlockStore S} (env : ExecEnv) (heap : HeapFns) {IO : InsertOrder}.
Context (std_what : error -> string) (fuel inner : nat).

Notation step := (step (S := S)).

(** BIND, OPTIMIZE, PHYSICAL_PLAN and EXECUTE *)
Definition run_bound (stmt : ParsedStatement) : step QueryResult :=
  c ← current;
  logical ← pure_r (Bind (ex_catalog c) (ex_tx c) stmt);
  logical ← pure_r (Optimize (env_fpu env) OptimizerConfig_default logical);
  let physical := Plan logical in
  chunks ← Execute_plan env heap fuel inner physical;
  mret (mkResult (output_names (plan_schema physical)) (output_types (plan_schema physical)) chunks true "").

(** The body of the [try] block, behind the parser. *)
Definition run_parsed (profile : ProfilingResult) (stmt : ParsedStatement) : step QueryResult :=
  match stmt with
  | StmtExplain false inner_stmt =>
      c ← current;
      logical ← pure_r (Bind (ex_catalog c) (ex_tx c) inner_stmt);
      pure_r (text_result (FormatLogicalPlan logical 0))
  | StmtExplain true inner_stmt => _ ← run_bound inner_stmt; text ← pure_r (ProfilingResult_ToString (env_fpu env) profile); pure_r (text_result text)
  | _ => run_bound stmt
  end.

(** [catch (const std::exception&)]: every exception becomes an error result;
    undefined behaviour is no exception. *)
Definition catch_all (m : step QueryResult) : step QueryResult := fun c =>
  match m c with
  | (c, Err UndefinedBehaviour) => (c, Err UndefinedBehaviour)
  | (c, Err e) => (c, Ok (error_result (what std_what e)))
  | r => r
  end.

(** [ClientContext::Query] *)
Definition Context_Query (profile : ProfilingResult) (sql : string) : step QueryResult :=
  catch_all (stmt ← pure_r (ParseSQL sql); run_parsed profile stmt).

(** The destructor of [ProfRestore]: [profiling_enabled_] after the query. *)
Definition profiling_after (enabled : bool) (sql : string) : bool :=
  match ParseSQL sql with Ok (StmtExplain true _) => false | _ => enabled end.

End query.

(** ** Connections *)

(** [std::tolower] in the C locale. *)
Definition tolower (c : ascii) : ascii :=
  let n := nat_of_ascii c in if Nat.leb 65 n && Nat.leb n 90 then ascii_of_nat (n + 32) else c.

Fixpoint skip_spaces (s : string) : string :=
  match s with String c rest => if isspace c then skip_spaces rest else s | EmptyString => s end.

(** The rest of [s] behind the keyword, when it starts with it. *)
Fixpoint strip_keyword (kw s : string) : option string :=
  match kw, s with
  | EmptyString, _ => Some s
  | String k kw, String c s => if Ascii.eqb (tolower c) k then strip_keyword kw s else None
  | String _ _, EmptyString => None
  end.

(** The lambda [starts_with_kw]: the whole text is the keyword, white space and
    at most one semicolon. *)
Definition starts_with_kw (sql kw : string) : bool :=
  match strip_keyword kw (skip_spaces sql) with
  | Some rest =>
      match skip_spaces rest with
      | String c rest => if Ascii.eqb c ";" then String.eqb (skip_spaces rest) "" else false
      | EmptyString => true
      end
  | None => false
  end.

(** A connection and the parts of the database it shares with others. *)
Record Session (S : Type) : Type := mkSession {
  se_store : S;
  se_tm : TransactionManager;
  active_tx_ : option Transaction;
  profiling_enabled_ : bool;
}.
Arguments mkSession {S}. Arguments se_store {S}. Arguments se_tm {S}. Arguments active_tx_ {S}. Arguments profiling_enabled_ {S}.

Section connection.
Context {S : Type} {BSops : BlockStore S} (env : ExecEnv) (heap : HeapFns) {IO : InsertOrder}.
Context (std_what : error -> string) (fuel inner : nat).

(** [Connection::Connection] on a database. *)
Definition Connect (s : S) (tm : TransactionManager) : Session S := mkSession s tm None false.

Definition Connection_Begin (se : Session S) : Session S * result unit :=
  match active_tx_ se with
  | Some _ => (se, Err (RuntimeError "Transaction already active"))
  | None =>
      let '(tm, tx) := BeginTransaction (se_tm se) false in
      (mkSession (se_store se) tm (Some tx) (profiling_enabled_ se), Ok tt)
  end.

(** The transaction manager's [Commit] and [Rollback] for [active_tx_]; when
    they throw, the connection keeps its transaction. *)
Definition commit_active (se : Session S) (tx : Transaction) : Session S * result unit :=
  match Commit (se_tm se) tx with
  | Ok (tm, _) => (mkSession (se_store se) tm None (profiling_enabled_ se), Ok tt)
  | Err e => (se, Err e)
  end.
Definition rollback_active (se : Session S) (tx : Transaction) : Session S * result unit :=
  match Rollback (se_store se) (se_tm se) tx with
  | Ok (s, tm, _) => (mkSession s tm None (profiling_enabled_ se), Ok tt)
  | Err e => (se, Err e)
  end.

Definition Connection_Commit (se : Session S) : Session S * result unit :=
  match active_tx_ se with Some tx => commit_active se tx | None => (se, Err (RuntimeError "No active transaction")) end.
Definition Connection_Rollback (se : Session S) : Session S * result unit :=
  match active_tx_ se with Some tx => rollback_active se tx | None => (se, Err (RuntimeError "No active transaction")) end.

(** [make_ok] and [make_err] around one of them. *)
Definition control (r : Session S * result unit) : Session S * result QueryResult :=
  match r with
  | (se, Ok _) => (se, Ok (mkResult [] [] [] true ""))
  | (se, Err UndefinedBehaviour) => (se, Err UndefinedBehaviour)
  | (se, Err e) => (se, Ok (error_result (what std_what e)))
  end.

(** The statement in transaction [tx], which the manager's map points to too. *)
Definition run_in (profile : ProfilingResult) (sql : string) (se : Session S) (tx : Transaction) : Session S * Transaction * result QueryResult :=
  let '(c, r) := Context_Query env heap std_what fuel inner profile sql (mkExec (se_store se) (catalog_ (se_tm se)) tx) in
  let tm := se_tm se in
  (mkSession (ex_store c)
     (mkTM (ex_catalog c) (wal_ tm) (next_tx_id_ tm) (commit_counter_ tm) (<[tx_id tx := ex_tx c]> (active_transactions_ tm)))
     (Some (ex_tx c)) (profiling_after (profiling_enabled_ se) sql), ex_tx c, r).

(** [Connection::Query] *)
Definition Connection_Query (profile : ProfilingResult) (sql : string) (se : Session S) : Session S * result QueryResult :=
  if starts_with_kw sql "begin" then control (Connection_Begin se)
  else if starts_with_kw sql "commit" then control (Connection_Commit se)
  else if starts_with_kw sql "rollback" then control (Connection_Rollback se)
  else match active_tx_ se with
       | Some tx => let '(se, _, r) := run_in profile sql se tx in (se, r)
       | None =>
           let '(tm, tx) := BeginTransaction (se_tm se) true in
           let '(se, tx, r) := run_in profile sql (mkSession (se_store se) tm (Some tx) (profiling_enabled_ se)) tx in
           match r with
           | Err e => (se, Err e)
           | Ok q =>
               let '(se, ended) := if success q then commit_active se tx else rollback_active se tx in
               (se, match ended with Ok _ => Ok q | Err e => Err e end)
           end
       end.

(** [Connection::~Connection]: exceptions of the rollback are dropped. *)
Definition Disconnect (se : Session S) : Session S :=
  match active_tx_ se with Some tx => let '(se, _) := rollback_active se tx in mkSession (se_store se) (se_tm se) None (profiling_enabled_ se) | None => se end.

End connection.

(** ** SELECT, from the text to the rows *)

Section select.
Context {S : Type} `{BlockStoreLaws S} (env : ExecEnv) (heap : HeapFns) {IO : InsertOrder} (std_what : error -> string).
Context `{!StdHeap (push_heap heap) (pop_heap heap)}.

(** The statement from its text to its result, given the run of its plan. *)
Lemma Context_Query_select (c : ExecContext S) profile sql stmt p p' fuel inner c' chunks :
  ParseSQL sql = Ok (StmtSelect stmt) -> BindSelect (ex_catalog c) (ex_tx c) stmt = Ok p -> Optimize (env_fpu env) OptimizerConfig_default p = Ok p' ->
  Execute_plan (BSops := _) env heap fuel inner (Plan p') c = (c', Ok chunks) ->
  exists q, Context_Query (BSops := _) env heap std_what fuel inner profile sql c = (c', Ok q) /\ success q = true /\ result_rows q = stream_rows chunks.
Proof.
  intros Hparse Hbind Hopt Hrun. unfold Context_Query, catch_all. rewrite Hparse. rewrite (step_run (pure_r _) _ c c _ eq_refl). cbn [run_parsed].
  unfold run_bound. rewrite (step_run current _ c c c eq_refl). cbn [Bind]. rewrite Hbind, (step_run (pure_r _) _ c c _ eq_refl).
  rewrite Hopt, (step_run (pure_r _) _ c c _ eq_refl). cbn zeta. rewrite (step_run _ _ c c' chunks Hrun). eexists. split; [reflexivity|]. done.
Qed.

(** The statement is planned as the scan of an unpartitioned table, with its
    filters, an ORDER BY, a projection and a LIMIT, on a table the scan can read. *)
Record table_select (c : ExecContext S) (tables : string -> string -> list sql_row) (p : LogicalPlan) : Prop := {
  sel_exact : exact_plan (env_fpu env) p = true;
  sel_planned : exists lim out es srt scan_out schema table ids filters p' i e contents,
    Optimize (env_fpu env) OptimizerConfig_default p = Ok p' /\ Plan p' = scan_select_plan lim out es srt scan_out schema table ids filters /\
    GetTable (ex_catalog c) schema table (ex_tx c) = Some (i, e) /\ scannable (env_fpu env) c e contents ids filters /\
    output_types scan_out = table_type (ColumnTypes e) <$> ids /\
    Forall (fun x => well_typed (table_type (ColumnTypes e) <$> ids) x = true) es /\
    sort_ok (env_fpu env) (heap_memory heap) (table_type (ColumnTypes e) <$> ids) srt (passing_rows (env_fpu env) filters (select_cols ids <$> tables schema table)) /\
    tables schema table = database_rows (ex_tx c) e contents;
  sel_tables : tables_fit (ex_catalog c) (ex_tx c) tables;
  sel_empty : tables "" "__empty__" = [];
}.

(** C1: a SELECT over one unpartitioned table with WHERE, ORDER BY and LIMIT,
    given as text, succeeds and returns exactly the rows of the plan it is bound
    to, in order, evaluated on the rows its transaction sees, and changes
    neither the catalog, the transaction nor a block, under the conditions of
    [table_select]: constant folding computes what the evaluator computes; the
    scan has no filter or reads a column that no filter uses; every zone-map
    predicate stands at its column's position in the table; the row groups have
    truthful statistics and keep the marker protocol of [vstep]; expressions are
    well typed (no BOOLEAN literal), filters and sort keys have a value on every
    row and no sort key is NaN; LIMIT plus OFFSET fits int64_t and the heap for
    them can be reserved. Outside these conditions it fails:
    [query_ignores_where]. *)
Theorem query_select_rows (c : ExecContext S) tables profile sql stmt p rows fuel inner :
  ParseSQL sql = Ok (StmtSelect stmt) -> BindSelect (ex_catalog c) (ex_tx c) stmt = Ok p ->
  has_aggregates stmt = false -> equi_joins p = true ->
  (default 0 (sel_limit stmt) + Z.max 0 (default 0 (sel_offset stmt)) <= INT64_MAX)%Z ->
  table_select c tables p -> (forall schema table, length (tables schema table) < fuel) ->
  query_rows (env_fpu env) tables p = Some rows ->
  exists c' q, Context_Query (BSops := _) env heap std_what fuel (Datatypes.S inner) profile sql c = (c', Ok q) /\
    success q = true /\ result_rows q = rows /\ same_database c c'.
Proof.
  intros Hparse Hbind Hagg Hjoin Hlim [Hexact Hplanned Hfit Hno] Hfuel Hrows.
  destruct Hplanned as
    (lim & out & es & srt & scan_out & schema & table & ids & filters & p' & i & e & contents & Hopt & Hplan & Hget & Hscan & Hout & Hes & Hsort & Htab).
  destruct (BindSelect_plain (env_fpu env) _ _ tables Hfit stmt p Hbind Hagg Hjoin Hlim) as (lim0 & out0 & es0 & srt0 & c0 & -> & Hs & Hok & Hlits).
  assert (phys_rows (env_fpu env) tables (Plan p') = Some rows) as Hphys
    by (eapply optimized_plan_rows; [exact Hno|exact Hs|by apply exact_fold_ok|exact Hok|exact Hrows|exact Hopt]).
  rewrite Hplan in Hphys.
  destruct (execute_select env heap lim out es srt scan_out schema table ids filters c i e contents tables rows fuel inner)
    as (c' & chunks & Hrun & Hr & Hsame); try done.
  rewrite <- Hplan in Hrun. destruct (Context_Query_select c profile sql stmt _ p' fuel (Datatypes.S inner) c' chunks Hparse Hbind Hopt Hrun) as (q & Hq & Hsucc & Hres).
  exists c', q. split_and!; try done. by rewrite Hres.
Qed.

End select.

(** *** A query on the sample table *)

Definition no_profile : ProfilingResult := mkProfile "" 0 [] [].
Definition sample_heap : HeapFns := mkHeapFns sorted_push_heap sorted_pop_heap 1000.
Definition sample_sql : string := "SELECT c, a FROM t WHERE b < 9 ORDER BY a DESC LIMIT 2;".
Definition sample_database (schema table : string) : list sql_row :=
  if String.eqb schema "main" && String.eqb table "t" then database_rows scan_tx scan_entry [scan_cols] else [].
Definition sample_where : LogicalExpr := LogicalBinaryOp BOOLEAN "<" (BoundColumnRef INT64 1 "b") (LogicalLit INT64 (Value_Integer 9) false).

Lemma sample_scannable : scannable sample_FPU dml_context scan_entry [scan_cols] [0; 1; 2] [sample_where].
Proof.
  split; [done|repeat constructor; simpl; lia|repeat constructor|right; vm_compute; discriminate|repeat constructor|].
  split_and!; [apply sample_bm_ok|constructor; [apply scan_group_ok|constructor]|].
  constructor; [|constructor]. constructor; [|constructor].
  replace (seen_rows [0; 1; 2] (ex_tx dml_context) scan_rg scan_cols 0 (row_count_ scan_rg)) with (database_rows scan_tx scan_entry [scan_cols])
    by (vm_compute; reflexivity).
  replace (database_rows scan_tx scan_entry [scan_cols]) with
    [[Some (CInt 1000); Some (CInt 7); Some (CStr "p")]; [Some (CInt 1001); Some (CInt 7); Some (CStr "r")];
     [Some (CInt 5); Some (CInt 8); Some (CStr "s")]; [None; Some (CInt 9); Some (CStr "t")]] by (vm_compute; reflexivity).
  repeat (apply Forall_cons; split; [vm_compute; eauto|]). apply Forall_nil_2.
Qed.

Lemma sample_database_fits : tables_fit (ex_catalog dml_context) (ex_tx dml_context) sample_database.
Proof.
  intros schema name i table Hg. unfold sample_database.
  destruct (String.eqb_spec schema "main") as [->|]; [|constructor]. destruct (String.eqb_spec name "t") as [->|]; [|constructor].
  vm_compute in Hg. injection Hg as <- <-. cbn [andb].
  replace (database_rows scan_tx scan_entry [scan_cols]) with
    [[Some (CInt 1000); Some (CInt 7); Some (CStr "p")]; [Some (CInt 1001); Some (CInt 7); Some (CStr "r")];
     [Some (CInt 5); Some (CInt 8); Some (CStr "s")]; [None; Some (CInt 9); Some (CStr "t")]] by (vm_compute; reflexivity).
  repeat constructor; intros; by simplify_eq.
Qed.

Lemma query_select_rows_witness :
  exists c' q, Context_Query (IO := insert_order) sample_env sample_heap (fun _ => "") 5 1 no_profile sample_sql dml_context = (c', Ok q) /\
    success q = true /\ result_rows q = [[Some (CStr "r"); Some (CInt 1001)]; [Some (CStr "p"); Some (CInt 1000)]] /\
    same_database dml_context c'.
Proof.
  destruct (ParseSQL sample_sql) as [[stmt| | | | | | | | | |]|] eqn:Hparse; try (vm_compute in Hparse; discriminate).
  destruct (BindSelect (ex_catalog dml_context) (ex_tx dml_context) stmt) as [p|] eqn:Hbind.
  2: { vm_compute in Hparse. injection Hparse as <-. vm_compute in Hbind. discriminate. }
  vm_compute in Hparse. injection Hparse as <-. vm_compute in Hbind. injection Hbind as <-.
  eapply (query_select_rows (IO := insert_order) sample_env sample_heap (fun _ => "") (StdHeap0 := sorted_StdHeap) dml_context sample_database no_profile sample_sql);
    [vm_compute; reflexivity|vm_compute; reflexivity|reflexivity|reflexivity|vm_compute; discriminate| | |vm_compute; reflexivity].
  - split; [vm_compute; reflexivity| |apply sample_database_fits|reflexivity].
    exists (Some (mkOut [VARCHAR; INT32] ["c"; "a"], 2%Z, 0%Z)), (mkOut [VARCHAR; INT32] ["c"; "a"]),
      [BoundColumnRef VARCHAR 2 "c"; BoundColumnRef INT32 0 "a"],
      (Some (mkOut [INT32; INT64; VARCHAR] ["a"; "b"; "c"], 2%Z, [BoundColumnRef INT32 0 "a"], [false])),
      (mkOut [INT32; INT64; VARCHAR] ["a"; "b"; "c"]), "main", "t", [0; 1; 2], [sample_where].
    eexists _, 0, scan_entry, [scan_cols]. split; [vm_compute; reflexivity|]. split; [vm_compute; reflexivity|].
    split; [vm_compute; reflexivity|]. split; [apply sample_scannable|]. split; [reflexivity|]. split; [repeat constructor|].
    split; [|reflexivity]. split; [reflexivity|]. split; [simpl; lia|]. constructor; [|constructor]. split; [reflexivity|].
    replace (passing_rows _ _ _) with
      [[Some (CInt 1000); Some (CInt 7); Some (CStr "p")]; [Some (CInt 1001); Some (CInt 7); Some (CStr "r")]; [Some (CInt 5); Some (CInt 8); Some (CStr "s")]]
      by (vm_compute; reflexivity).
    repeat (apply Forall_cons; split; [by eexists|]). apply Forall_nil_2.
  - intros schema table. unfold sample_database. destruct (_ && _); vm_compute; lia.
Defined.

(** The WHERE clause is lost when it uses every column the query reads. *)
Example query_ignores_where :
  exists c' q, Context_Query (IO := insert_order) sample_env sample_heap (fun _ => "") 5 1 no_profile "SELECT b FROM t WHERE b > 8" dml_context = (c', Ok q) /\
    success q = true /\ result_rows q = [[Some (CInt 7)]; [Some (CInt 7)]; [Some (CInt 8)]; [Some (CInt 9)]].
Proof. do 2 eexists. split; [vm_compute; reflexivity|]. split; vm_compute; reflexivity. Qed.

(** ** What a statement does to its transaction *)

(** A statement only adds to the undo buffer of its transaction. *)
Definition logs (tx tx' : Transaction) : Prop :=
  exists l, tx' = mkTx (tx_id tx) (start_time tx) (commit_time tx) (auto_commit tx) (is_invalid tx) (undo_buffer tx ++ l)%list (local_storage tx).

#[export] Instance logs_preorder : PreOrder logs.
Proof.
  split.
  - intros [id st ct ac inv ub ls]. exists []. by rewrite app_nil_r.
  - intros tx1 tx2 tx3 [l1 ->] [l2 ->]. exists (l1 ++ l2)%list. cbn. by rewrite app_assoc.
Qed.

Section logging.
Context {S : Type}.

Definition keeps {A} (m : step (S := S) A) : Prop := forall c, logs (ex_tx c) (ex_tx (m c).1).

Lemma keeps_ret {A} (x : A) : keeps (mret x).
Proof. intros c. cbn. reflexivity. Qed.
Lemma keeps_fail {A} e : keeps (fail (A := A) e).
Proof. intros c. cbn. reflexivity. Qed.
Lemma keeps_pure {A} (r : result A) : keeps (pure_r r).
Proof. intros c. cbn. reflexivity. Qed.
Lemma keeps_current : keeps current.
Proof. intros c. cbn. reflexivity. Qed.
Lemma keeps_catalog f : keeps (with_catalog f).
Proof. intros c. cbn. reflexivity. Qed.
Lemma keeps_storage {A} (f : S -> result (S * A)) : keeps (storage f).
Proof. intros c. unfold storage. destruct (f _) as [[? ?]|]; cbn; reflexivity. Qed.
Lemma keeps_push e : keeps (push_undo e).
Proof. intros c. unfold push_undo, with_tx, log_change. cbn. by exists [e]. Qed.

Lemma keeps_bind {A B} (m : step A) (f : A -> step B) : keeps m -> (forall x, keeps (f x)) -> keeps (m ≫= f).
Proof.
  intros Hm Hf c. unfold mbind, step_bind. specialize (Hm c). destruct (m c) as [c1 [x|]]; cbn in *; [|done].
  etrans; [exact Hm|apply Hf].
Qed.

Lemma keeps_each {A B} (f : A -> B -> step A) a l : (forall a b, keeps (f a b)) -> keeps (each_step f a l).
Proof. intros Hf. revert a. induction l as [|b l IH]; intros a; cbn; [apply keeps_ret|]. apply keeps_bind; [apply Hf|done]. Qed.

Lemma keeps_catalog_op f : keeps (catalog_op f).
Proof. intros c. unfold catalog_op. destruct (f _); cbn; reflexivity. Qed.
Lemma keeps_partition_op f : keeps (partition_op f).
Proof. intros c. unfold partition_op. destruct (f _) as [[[? ?] ?]|]; cbn; reflexivity. Qed.
Lemma keeps_try m : keeps m -> keeps (try_step m).
Proof. intros Hm c. unfold try_step. specialize (Hm c). destruct (m c) as [c1 [x|e]]; cbn in *; [done|]. by destruct (is_db_exception e). Qed.

End logging.

Create HintDb keeps.
#[export] Hint Resolve keeps_ret keeps_fail keeps_pure keeps_current keeps_catalog keeps_storage keeps_push keeps_each keeps_catalog_op keeps_partition_op keeps_try : keeps.

(** Splits a step into its parts. *)
Ltac keeps_tac :=
  repeat first [ progress intros | solve [auto with keeps] | apply keeps_bind | apply keeps_each | progress case_match | progress cbn zeta ].

Section statements.
Context {S : Type} {BSops : BlockStore S} (env : ExecEnv) (heap : HeapFns) {IO : InsertOrder}.

Lemma keeps_need schema table w : keeps (S := S) (need_table schema table w).
Proof. unfold need_table. keeps_tac. Qed.
Lemma keeps_read_table t : keeps (S := S) (read_table t).
Proof. unfold read_table. keeps_tac. Qed.
Lemma keeps_read_group t g : keeps (S := S) (read_group t g).
Proof. unfold read_group, read_table. keeps_tac. Qed.
Lemma keeps_write_table t f : keeps (S := S) (write_table t f).
Proof. apply keeps_catalog. Qed.
Lemma keeps_write_group t g rg : keeps (S := S) (write_group t g rg).
Proof. apply keeps_catalog. Qed.
Lemma keeps_append t g chunk ids : keeps (append_logged (S := S) t g chunk ids).
Proof. unfold append_logged, read_group, read_table, write_group. keeps_tac. Qed.
#[local] Hint Resolve keeps_need keeps_read_table keeps_write_table keeps_read_group keeps_write_group keeps_append : keeps.

Lemma keeps_insert H s t ids rows : keeps (S := S) (Insert_batch H s t ids rows).
Proof.
  unfold Insert_batch, DoInsertChunk, insert_partition. keeps_tac.
Qed.

Lemma keeps_delete_batches F fuel t g p ids off acc : keeps (S := S) (delete_batches F fuel t g p ids off acc).
Proof. revert off acc. induction fuel as [|fuel IH]; intros off acc; cbn [delete_batches]; unfold delete_row; keeps_tac. Qed.
Lemma keeps_delete F s t p : keeps (S := S) (Delete F s t p).
Proof. unfold Delete, delete_group. keeps_tac; apply keeps_delete_batches. Qed.

Lemma keeps_update_batch F t g u batch offs : keeps (S := S) (update_batch F t g u batch offs).
Proof. unfold update_batch, mark_updated, update_column. keeps_tac. Qed.
#[local] Hint Resolve keeps_update_batch : keeps.
Lemma keeps_update_batches F fuel t g u off : keeps (S := S) (update_batches F fuel t g u off).
Proof. revert off. induction fuel as [|fuel IH]; intros off; cbn [update_batches]; keeps_tac. Qed.
Lemma keeps_update F s t u sc es p : keeps (S := S) (Update F s t u sc es p).
Proof. unfold Update, update_group. keeps_tac; apply keeps_update_batches. Qed.

Lemma keeps_statement op : keeps (S := S) (run_statement env op).
Proof.
  destruct op as [| | | | | | |s t ids rows [sel|]| | | | |]; cbn [run_statement];
    auto using keeps_insert, keeps_delete, keeps_update with keeps.
  - unfold Create_Table, guarded. keeps_tac.
  - unfold Drop_Table, guarded. keeps_tac.
  - unfold Alter_Table. keeps_tac.
Qed.
#[local] Hint Resolve keeps_statement keeps_insert : keeps.

Lemma keeps_GetData src chunk : keeps (S := S) (Source_GetData env src chunk).
Proof. destruct src; cbn [Source_GetData]; keeps_tac. Qed.
Lemma keeps_Consume k st chunk : keeps (S := S) (Sink_Consume env k st chunk).
Proof. destruct k, st; cbn [Sink_Consume]; keeps_tac. Qed.
#[local] Hint Resolve keeps_GetData keeps_Consume : keeps.

Lemma keeps_lift {A} (r : result A) : keeps (S := S) (Pipeline.lift r).
Proof. apply keeps_pure. Qed.
#[local] Hint Resolve keeps_lift : keeps.

Lemma keeps_operators k fuel ops ci oc st : keeps (S := S) (run_operators env (Sink_Consume env k) fuel ops ci oc st).
Proof.
  revert ops ci oc st. induction fuel as [|fuel IH]; intros ops ci oc st; cbn [run_operators]; unfold consume_to_sink; keeps_tac.
Qed.
Lemma keeps_flush k ops oc st : keeps (S := S) (flush_operators env (Sink_Consume env k) ops oc st).
Proof. rewrite flush_nothing. apply keeps_ret. Qed.
#[local] Hint Resolve keeps_operators keeps_flush : keeps.
Lemma keeps_source k fuel inner src ops ic oc st :
  keeps (S := S) (run_source env (Sink_Consume env k) (Source_GetData env) fuel inner src ops ic oc st).
Proof.
  revert src ops ic oc st. induction fuel as [|fuel IH]; intros src ops ic oc st; cbn [run_source]; unfold consume_to_sink; keeps_tac.
Qed.

Lemma keeps_query std fuel inner profile sql : keeps (S := S) (Context_Query env heap std fuel inner profile sql).
Proof.
  assert (forall objs p, keeps (S := S) (run_pipeline env heap fuel inner objs p)) as Hpipe.
  { intros objs p. unfold run_pipeline, open_source, PipelineExecute. keeps_tac; apply keeps_source. }
  assert (forall plan, keeps (S := S) (Execute_plan env heap fuel inner plan)) as Hplan by (intros plan; unfold Execute_plan; keeps_tac).
  assert (forall stmt, keeps (S := S) (run_bound env heap fuel inner stmt)) as Hbound by (intros stmt; unfold run_bound; keeps_tac).
  assert (keeps (S := S) (stmt ← pure_r (ParseSQL sql); run_parsed env heap fuel inner profile stmt)) as Hparsed
    by (unfold run_parsed; keeps_tac).
  intros c. unfold Context_Query, catch_all. specialize (Hparsed c).
  destruct (mbind (M := step (S := S)) _ _ c) as [c1 [q|[]]]; done.
Qed.

(** ** The transactions of a connection *)

Context (std_what : error -> string) (fuel inner : nat).

(** What a client does with a connection. *)
Inductive session_step (se : Session S) : Session S -> Prop :=
  | step_query profile sql : session_step se (Connection_Query env heap std_what fuel inner profile sql se).1
  | step_begin : session_step se (Connection_Begin se).1
  | step_commit : session_step se (Connection_Commit se).1
  | step_rollback : session_step se (Connection_Rollback se).1.

(** The manager's active transactions are the [others] and that of the
    connection; numbers not given out yet are free. *)
Record session_ok (others : gmap Z Transaction) (se : Session S) : Prop := {
  so_active : match active_tx_ se with
              | Some tx => active_transactions_ (se_tm se) = <[tx_id tx := tx]> others /\ others !! tx_id tx = None /\ (tx_id tx < next_tx_id_ (se_tm se))%Z
              | None => active_transactions_ (se_tm se) = others
              end;
  so_fresh : forall id, is_Some (others !! id) -> (id < next_tx_id_ (se_tm se))%Z;
}.

Lemma begin_ok others s tm auto prof :
  session_ok others (mkSession s tm None prof) ->
  session_ok others (mkSession s (BeginTransaction tm auto).1 (Some (BeginTransaction tm auto).2) prof).
Proof.
  intros [Ha Hf]. cbn in *. split; cbn.
  - split; [by rewrite Ha|]. split; [|lia]. destruct (others !! next_tx_id_ tm) eqn:E; [|done].
    specialize (Hf (next_tx_id_ tm)). rewrite E in Hf. pose proof (Hf (ex_intro _ _ eq_refl)). lia.
  - intros id Hid. specialize (Hf id Hid). lia.
Qed.

Lemma end_ok others se tx s tm prof :
  active_tx_ se = Some tx -> session_ok others se -> active_transactions_ tm = delete (tx_id tx) (active_transactions_ (se_tm se)) ->
  next_tx_id_ tm = next_tx_id_ (se_tm se) -> session_ok others (mkSession s tm None prof).
Proof.
  intros Htx [Ha Hf] Hd Hn. rewrite Htx in Ha. destruct Ha as (Ha & Hnone & _). split; cbn.
  - by rewrite Hd, Ha, delete_insert_id.
  - by rewrite Hn.
Qed.

Lemma commit_active_ok others se tx :
  active_tx_ se = Some tx -> session_ok others se -> session_ok others (commit_active se tx).1.
Proof.
  intros Htx Hok. unfold commit_active. destruct (Commit (se_tm se) tx) as [[tm tx']|] eqn:E; [|done]. cbn.
  unfold Commit in E. destruct (match wal_ _ with Some _ => _ | None => _ end); [|done]. injection E as <- _.
  eapply end_ok; [exact Htx|exact Hok|done|done].
Qed.
Lemma rollback_active_ok others se tx :
  active_tx_ se = Some tx -> session_ok others se -> session_ok others (rollback_active se tx).1.
Proof.
  intros Htx Hok. unfold rollback_active. destruct (Rollback (se_store se) (se_tm se) tx) as [[[s tm] tx']|] eqn:E; [|done]. cbn.
  unfold Rollback in E. destruct (UndoBufferReverse _ _ _) as [[s1 c1]|]; [|done]. injection E as <- <- _.
  eapply end_ok; [exact Htx|exact Hok|done|done].
Qed.

Lemma run_in_ok others profile sql se tx :
  active_tx_ se = Some tx -> session_ok others se ->
  session_ok others (run_in env heap std_what fuel inner profile sql se tx).1.1 /\
  active_tx_ (run_in env heap std_what fuel inner profile sql se tx).1.1 = Some (run_in env heap std_what fuel inner profile sql se tx).1.2.
Proof.
  intros Htx [Ha Hf]. rewrite Htx in Ha. destruct Ha as (Ha & Hnone & Hlt). unfold run_in.
  pose proof (keeps_query std_what fuel inner profile sql (mkExec (se_store se) (catalog_ (se_tm se)) tx)) as [l Hl].
  destruct (Context_Query _ _ _ _ _ _ _ _) as [c r]. cbn in *. split; [|done]. split; cbn; [|done].
  rewrite Hl. cbn. rewrite Ha, insert_insert_eq. done.
Qed.

Lemma Begin_ok others se : session_ok others se -> session_ok others (Connection_Begin se).1.
Proof.
  intros Hok. unfold Connection_Begin. destruct se as [s tm [tx|] prof]; cbn [active_tx_ se_tm se_store profiling_enabled_]; [done|].
  apply (begin_ok others s tm false prof Hok).
Qed.
Lemma Commit_ok others se : session_ok others se -> session_ok others (Connection_Commit se).1.
Proof. intros Hok. unfold Connection_Commit. destruct (active_tx_ se) eqn:Htx; [by apply commit_active_ok|done]. Qed.
Lemma Rollback_ok others se : session_ok others se -> session_ok others (Connection_Rollback se).1.
Proof. intros Hok. unfold Connection_Rollback. destruct (active_tx_ se) eqn:Htx; [by apply rollback_active_ok|done]. Qed.

Lemma control_state r : (control (S := S) std_what r).1 = r.1.
Proof. by destruct r as [se [|[]]]. Qed.

Lemma Query_ok others profile sql se :
  session_ok others se -> session_ok others (Connection_Query env heap std_what fuel inner profile sql se).1.
Proof.
  intros Hok. unfold Connection_Query. destruct (starts_with_kw sql "begin"); [rewrite control_state; by apply Begin_ok|].
  destruct (starts_with_kw sql "commit"); [rewrite control_state; by apply Commit_ok|].
  destruct (starts_with_kw sql "rollback"); [rewrite control_state; by apply Rollback_ok|].
  destruct se as [s tm [tx|] prof]; cbn [active_tx_ se_tm se_store profiling_enabled_].
  - destruct (run_in_ok others profile sql (mkSession s tm (Some tx) prof) tx eq_refl Hok) as [Hrun _].
    by destruct (run_in _ _ _ _ _ _ _ _ _) as [[se' tx'] r].
  - pose proof (begin_ok others s tm true prof Hok) as Hb. destruct (BeginTransaction tm true) as [tm1 tx1]. cbn [fst snd] in Hb.
    destruct (run_in_ok others profile sql (mkSession s tm1 (Some tx1) prof) tx1 eq_refl Hb) as [Hrun Htx].
    destruct (run_in _ _ _ _ _ _ _ _ _) as [[se' tx'] [q|e]]; [|exact Hrun]. cbn [fst snd] in Hrun, Htx. destruct (success q).
    + pose proof (commit_active_ok others se' tx' Htx Hrun) as Hc. by destruct (commit_active se' tx').
    + pose proof (rollback_active_ok others se' tx' Htx Hrun) as Hc. by destruct (rollback_active se' tx').
Qed.

(** C33: a connection never loses a transaction and never leaves one behind:
    after any sequence of statements and calls, the transaction it has open is
    the only one it has added to the active transactions of the manager, and
    without one it has added none. *)
Theorem connection_transactions s tm se :
  (forall id, is_Some (active_transactions_ tm !! id) -> (id < next_tx_id_ tm)%Z) ->
  rtc session_step (Connect s tm) se ->
  active_transactions_ (se_tm se) =
    match active_tx_ se with Some tx => <[tx_id tx := tx]> (active_transactions_ tm) | None => active_transactions_ tm end /\
  (forall tx, active_tx_ se = Some tx -> active_transactions_ tm !! tx_id tx = None).
Proof.
  intros Hf Hsteps. assert (session_ok (active_transactions_ tm) se) as [Ha _].
  { assert (session_ok (active_transactions_ tm) (Connect s tm)) as Hinit by done. revert Hinit.
    induction Hsteps as [se|se1 se2 se3 Hstep _ IH]; [done|]. intros Hok. apply IH.
    destruct Hstep; [by apply Query_ok|by apply Begin_ok|by apply Commit_ok|by apply Rollback_ok]. }
  destruct (active_tx_ se) as [tx|]; [|done]. destruct Ha as (Ha & Hnone & _). split; [done|]. by intros ? [= <-].
Qed.

End statements.

Lemma connection_transactions_witness :
  let se := (Connection_Query (IO := insert_order) sample_env sample_heap (fun _ => "") 5 1 no_profile "Begin ;"
               (Connect sample_bm (mkTM dml_catalog None 10 4 ∅))).1 in
  active_transactions_ (se_tm se) = {[10%Z := Tx_new 10 5 false]}.
Proof.
  intros se. destruct (connection_transactions (IO := insert_order) sample_env sample_heap (fun _ => "") 5 1 sample_bm (mkTM dml_catalog None 10 4 ∅) se) as [Ha _].
  - cbn [active_transactions_]. intros id [x Hx]. by rewrite lookup_empty in Hx.
  - apply rtc_once. apply step_query.
  - rewrite Ha. vm_compute. reflexivity.
Defined.

(** A statement whose commit throws (here because [fsync] fails) leaves its own
    transaction open: the connection is no longer in auto-commit mode, and the
    next statement is executed in it and not committed. *)
Definition faulty_session : Session BufferManager :=
  Connect sample_bm (mkTM dml_catalog (Some (mkWAL [] 0 [] [(-1)%Z] [] 0 0)) 10 4 ∅).
Definition run_faulty (sql : string) (se : Session BufferManager) : Session BufferManager * result QueryResult :=
  Connection_Query (IO := insert_order) sample_env sample_heap (fun _ => "") 5 1 no_profile sql se.

Example failed_commit_leaves_transaction :
  let '(se1, r1) := run_faulty "DELETE FROM t WHERE b = 9" faulty_session in
  let '(se2, r2) := run_faulty "DELETE FROM t WHERE b = 8" se1 in
  r1 = Err (IOError "WAL::Flush: fsync failed") /\ r2 = Ok (mkResult [] [] [] true "") /\
  (exists tx, active_tx_ se2 = Some tx /\ auto_commit tx = true /\ length (undo_buffer tx) = 2) /\ commit_counter_ (se_tm se2) = 4%Z.
Proof. vm_compute. split_and!; [reflexivity|reflexivity|eexists; split_and!; reflexivity|reflexivity]. Qed.

(** EXPLAIN ANALYZE switches the profiler off for good. *)
Lemma explain_analyze_stops_profiling : profiling_after true "EXPLAIN ANALYZE SELECT 1 FROM t" = false.
Proof. vm_compute. reflexivity. Qed.
