(* ===== verification/GroupBy.v ===== *)
(** * GROUP BY, from the text to the rows

    [Aggregate] proves that the sink and the source of a hash aggregation compute
    GROUP BY on any stream of batches, [Executor] cuts a plan into pipelines.  Here
    the two meet: a SELECT with GROUP BY or aggregates over one table runs as two
    pipelines, the scan with its filter into the hash table, and the groups through
    the projection and the LIMIT into the result.  A filter below an aggregation is
    not moved into the scan, so it is an operator of the first pipeline. *)

From Stdlib Require Import ZArith String.
From stdpp Require Import base gmap strings list fin_maps.
From S2P Require Import Prelude Types Double Expr VersionInfo BlockFile BufferManager ColumnChunk RowGroup PartitionInfo Operators HashJoin Pipeline Sorting Sort Aggregate Transaction Schema LogicalPlan PhysicalPlanner Optimizer Catalog Ast Tokenizer Parser Binder TableScan TransactionManager Dml Executor Profiler ClientContext.

(** ** The number of groups *)

Lemma length_insert_group k new groups : length (insert_group k new groups) <= Datatypes.S (length groups).
Proof. induction groups as [|[k' rs] groups IH]; cbn [insert_group]; [done|]. destruct (keys_eqb k' k); cbn; lia. Qed.

Lemma length_group_rows F gs rows : length (Aggregate.group_rows F gs rows) <= length rows.
Proof.
  unfold Aggregate.group_rows. induction rows as [|r rows IH] using rev_ind; [done|]. rewrite foldl_snoc, length_app. cbn [length].
  etrans; [apply length_insert_group|]. lia.
Qed.

Lemma length_aggregate_rows F gs aggs rows out : aggregate_rows F gs aggs rows = Some out -> length out <= Nat.max 1 (length rows).
Proof.
  unfold aggregate_rows. intros Hm. apply mapM_Some, Forall2_length in Hm. rewrite <- Hm. pose proof (length_group_rows F gs rows).
  unfold sql_groups. destruct gs, rows; cbn [length] in *; lia.
Qed.

(** ** The first pipeline *)

Definition where_ops (w : option LogicalExpr) : list PhysicalOp := match w with Some p => [OpFilter p] | None => [] end.
Definition where_rows (F : FPU) (w : option LogicalExpr) (rows : list sql_row) : list sql_row :=
  match w with Some p => filter (fun r => row_passes F p r = true) rows | None => rows end.

(** The condition is typed and has a value on every row. *)
Definition where_ready (F : FPU) (types : list TypeId) (w : option LogicalExpr) (rows : list sql_row) : Prop :=
  match w with
  | Some p => well_typed types p = true /\ is_intlike (type_of p) = true /\ Forall (fun r => is_Some (eval_row F p r)) rows
  | None => True
  end.

Definition typed_batch (types : list TypeId) (c : DataChunk) : Prop := batch_ok c /\ 0 < ch_count c /\ col_types c = types.

Section execution.
Context {S : Type} `{BlockStoreLaws S} (env : ExecEnv) (heap : HeapFns) {IO : InsertOrder}.
Notation F := (env_fpu env).
Notation GetDataS := (Source_GetData (BSops := _) env).

(** A source through the filter into a sink: the sink consumes batches of the rows
    that pass. *)
Lemma run_where_sink {A} (k : SinkOp) (emb : A -> SinkState) (Consume : A -> DataChunk -> result A) (c : ExecContext S) src cs w types :
  (forall s chunk c0, Sink_Consume (BSops := _) env k (emb s) chunk c0 = (c0, s' ← Consume s chunk; Ok (emb s'))) ->
  reading_source env src c -> produces (paired_GetData GetDataS) (src, c) cs -> Forall (typed_batch types) cs -> where_ready F types w (stream_rows cs) ->
  exists fs, Forall (typed_batch types) fs /\ stream_rows fs = where_rows F w (stream_rows cs) /\
    forall fuel inner st st', length cs < fuel -> foldM Consume st fs = Ok st' ->
      exists c', PipelineExecute env (Sink_Consume (BSops := _) env k) GetDataS fuel (Datatypes.S inner) src (where_ops w) (emb st) c = (c', Ok (emb st')) /\
        same_database c c'.
Proof.
  intros Hcollect Hsrc Hprod Hcs Hw. destruct w as [p|]; cbn [where_ops where_rows where_ready] in *.
  - destruct Hw as (Hty & Hint & Hdef).
    destruct (filter_run env types p Consume Hty Hint (paired_GetData GetDataS) (src, c) cs Hprod) as (fs & Hfs & Hr & Hrun).
    { rewrite Forall_forall in Hcs. rewrite Forall_forall in Hdef. apply Forall_forall. intros x Hx. destruct (Hcs x Hx) as (Hb & _ & Ht).
      split_and!; [done..|]. apply Forall_forall. intros r Hin. apply Hdef. by eapply elem_of_stream. }
    exists fs. split_and!; [done|done|]. intros fuel inner st st' Hf Hfold.
    destruct (run_source_pure env emb Consume _ GetDataS same_database (reading_source env) Hcollect (reading_GetData env)
      _ _ _ _ _ _ _ _ _ Hsrc (Hrun fuel inner (mkChunk [] 0) (mkChunk [] 0) st st' Hf Hfold)) as (c' & Hrun' & HR).
    exists c'. split; [exact Hrun'|exact HR].
  - exists cs. split_and!; [done|done|]. intros fuel inner st st' Hf Hfold.
    eapply (run_sink env k emb); try done. eapply Forall_impl; [exact Hcs|]. by intros x (_ & ? & _).
Qed.

(** *** Both pipelines *)

(** The plan of [SELECT es FROM t WHERE w GROUP BY gs LIMIT ...]. *)
Definition where_plan (w : option (OutputSchema * LogicalExpr)) (child : PhysicalPlan) : PhysicalPlan :=
  match w with Some (out, p) => PFilter out p child | None => child end.
Definition group_plan (lim : option (OutputSchema * Z * Z)) (out : OutputSchema) (es : list LogicalExpr) (agg_out : OutputSchema)
    (gs aggs : list LogicalExpr) (agg_types : list TypeId) (w : option (OutputSchema * LogicalExpr))
    (scan_out : OutputSchema) (schema table : string) (ids : list nat) (filters : list LogicalExpr) : PhysicalPlan :=
  limit_plan lim (PProjection out es (PHashAggregation agg_out (mkHashAgg gs aggs) agg_types (source_of gs aggs)
    (where_plan w (PTableScan scan_out schema table ids filters)))).

Lemma group_pipelines lim out es agg_out gs aggs agg_types w scan_out schema table ids filters :
  Initialize_pipelines (group_plan lim out es agg_out gs aggs agg_types w scan_out schema table ids filters) =
    [mkPipeline 1 (Some (SrcScan (Scan_new schema table ids filters (output_types scan_out))))
       (match w with Some (_, p) => [PoFilter p] | None => [] end) (SinkAgg (mkHashAgg gs aggs)) [];
     collect_pipeline es (limit_of lim) (SrcAgg (source_of gs aggs) 1) [1]].
Proof. by destruct lim as [[[o l] off]|], w as [[o' p]|]. Qed.

(** The rows an aggregation can consume, and the groups it can emit. *)
Record group_ready (types : list TypeId) (gs aggs : list LogicalExpr) (rows groups : list sql_row) : Prop := {
  gr_aggs : Forall (agg_ok types) aggs;
  gr_groups : Forall (fun x => well_typed types x = true) gs;
  gr_rows : Forall (row_ok F gs aggs) rows;
  gr_result : aggregate_rows F gs aggs rows = Some groups;
  gr_no_nulls : Forall no_nulls groups;
}.

Lemma group_plan_rows tables lim out es agg_out gs aggs agg_types w scan_out schema table ids filters rows :
  phys_rows F tables (group_plan lim out es agg_out gs aggs agg_types w scan_out schema table ids filters) = Some rows ->
  exists groups projected,
    aggregate_rows F gs aggs (where_rows F (snd <$> w) (passing_rows F filters (select_cols ids <$> tables schema table))) = Some groups /\
    mapM (project_row F es) groups = Some projected /\ rows = limited (limit_of lim) LimitState_init projected.
Proof.
  unfold group_plan, limit_plan, limit_of. intros Hr.
  assert (exists projected, phys_rows F tables (PProjection out es (PHashAggregation agg_out (mkHashAgg gs aggs) agg_types (source_of gs aggs)
    (where_plan w (PTableScan scan_out schema table ids filters)))) = Some projected /\ rows = limited (limit_of lim) LimitState_init projected)
    as (projected & Hp & ->).
  { destruct lim as [[[o l] off]|]; [|by exists rows]. cbn [phys_rows] in Hr. apply fmap_Some in Hr as (projected & Hp & ->). by exists projected. }
  cbn [phys_rows group_exprs aggr_exprs] in Hp. apply bind_Some in Hp as (groups & Hg & Hp). apply bind_Some in Hg as (input & Hin & Hg).
  assert (input = where_rows F (snd <$> w) (passing_rows F filters (select_cols ids <$> tables schema table))) as ->.
  { destruct w as [[o p]|]; cbn in Hin; by injection Hin as <-. }
  unfold aggregated in Hg. destruct (defined_rows _ _ _); [|done]. by exists groups, projected.
Qed.

Context `{!HashLaws (env_hash env)}.

Lemma execute_group lim out es agg_out gs aggs agg_types w scan_out schema table ids filters (c : ExecContext S) i e contents tables rows fuel inner :
  let types := table_type (ColumnTypes e) <$> ids in
  let seen := passing_rows F filters (select_cols ids <$> tables schema table) in
  GetTable (ex_catalog c) schema table (ex_tx c) = Some (i, e) -> scannable F c e contents ids filters ->
  output_types scan_out = types -> Forall (fun x => well_typed ((type_of <$> gs) ++ (result_type <$> aggs)) x = true) es ->
  tables schema table = database_rows (ex_tx c) e contents -> length (tables schema table) < fuel -> 1 < fuel ->
  where_ready F types (snd <$> w) seen ->
  (forall groups, aggregate_rows F gs aggs (where_rows F (snd <$> w) seen) = Some groups -> group_ready types gs aggs (where_rows F (snd <$> w) seen) groups) ->
  phys_rows F tables (group_plan lim out es agg_out gs aggs agg_types w scan_out schema table ids filters) = Some rows ->
  exists c' chunks, Execute_plan (BSops := _) env heap fuel (Datatypes.S inner)
      (group_plan lim out es agg_out gs aggs agg_types w scan_out schema table ids filters) c = (c', Ok chunks) /\
    stream_rows chunks = rows /\ same_database c c'.
Proof.
  intros types seen Hget Hscan Hout Hes Htab Hfuel Hfuel1 Hw Hready Hrows.
  apply group_plan_rows in Hrows as (groups & projected & Hg & Hm & ->). destruct (Hready groups Hg) as [Haggs Hgs Hrok _ Hnn].
  destruct (open_scan F (env_hash env) c schema table i e contents ids filters Hget Hscan) as (ts & cs & Hinit & Hreads & Hprod & Hcs & Hstream).
  assert (stream_rows cs = seen) as Hseen by (by rewrite Hstream; unfold seen; rewrite Htab).
  assert (produces (paired_GetData GetDataS) (SsScan ts CreateScanState, c) cs) as Hsource
    by (destruct c as [s cat tx]; exact (scan_produces env ts cat tx (s, CreateScanState) cs Hprod)).
  assert (Forall (typed_batch types) cs) as Hbatches by (eapply Forall_impl; [exact Hcs|]; by intros x (? & ? & ? & _)).
  assert (length seen < fuel) as Hlen.
  { unfold seen, passing_rows. eapply Nat.le_lt_trans; [apply length_filter|]. by rewrite length_fmap. }
  assert (length cs < fuel) as Hcsf.
  { eapply Nat.le_lt_trans; [apply stream_length|by rewrite Hseen]. eapply Forall_impl; [exact Hbatches|]. by intros x (_ & ? & _). }
  destruct (run_where_sink (SinkAgg (mkHashAgg gs aggs)) StAgg (Agg_Consume F (env_hash env) (mkHashAgg gs aggs)) c (SsScan ts CreateScanState) cs
    (snd <$> w) types) as (fs & Hfs & Hfr & Hfill); try done.
  { intros s chunk c0. cbn [Sink_Consume]. unfold mbind, step_bind, result_bind, pure_r. by destruct (Agg_Consume _ _ _ s chunk). }
  { by rewrite Hseen. }
  rewrite Hseen in Hfr.
  destruct (aggregate_stream F (env_hash env) gs aggs types fs groups) as (ht & outs & Hfold & Houts & Hok & Hor); try done.
  { rewrite Forall_forall in Hfs. rewrite Forall_forall in Hrok. apply Forall_forall. intros x Hx. destruct (Hfs x Hx) as (Hb & _ & Ht).
    split_and!; [done..|]. apply Forall_forall. intros r Hin. apply Hrok. rewrite <- Hfr. by eapply elem_of_stream. }
  { by rewrite Hfr. }
  destruct (Hfill fuel inner _ ht Hcsf Hfold) as (c1 & Hrun1 & Hsame1).
  rewrite <- Hor in Hm.
  destruct (run_select env (limit_of lim) es ((type_of <$> gs) ++ (result_type <$> aggs)) c1 (SsAgg (source_of gs aggs) ht 0) outs projected fuel inner)
    as (c2 & chunks & Hrun2 & Hr2 & Hsame2); [done|by apply agg_produces| |done|done| |].
  { eapply Forall_impl; [exact Hok|]. by intros x (? & _ & ?). }
  { eapply Nat.le_lt_trans; [apply stream_length|].
    - eapply Forall_impl; [exact Hok|]. by intros x (_ & ? & _).
    - rewrite Hor. eapply Nat.le_lt_trans; [by eapply length_aggregate_rows|]. apply Nat.max_lub_lt; [done|].
      eapply Nat.le_lt_trans; [|exact Hlen]. destruct w as [[o p]|]; [apply length_filter|done]. }
  exists c2, chunks. split; [|split; [done|by etrans]].
  destruct (pipelines_ordered (group_plan lim out es agg_out gs aggs agg_types w scan_out schema table ids filters)) as (Ho & Hn & _).
  unfold Execute_plan. rewrite TopologicalSort_ordered by done. rewrite (step_run (pure_r _) _ c c _ eq_refl).
  rewrite group_pipelines. clear Ho Hn. cbn [each_step].
  assert (forall objs, mapM_r (open_operator objs) (operators (collect_pipeline es (limit_of lim) (SrcAgg (source_of gs aggs) 1) [1])) =
    Ok (OpProjection es :: limit_ops (limit_of lim))) as Hops by (intros objs; by destruct (limit_of lim) as [[l o]|]).
  erewrite (step_run _ _ c c2); [|erewrite (step_run _ _ c c1); [|eapply pipeline_run; [done| | |done|exact Hrun1|done]]].
  2: { erewrite (step_run _ _ c1 c2); [done|]. eapply pipeline_run; [done| |apply Hops|done|exact Hrun2|done]. done. }
  2: { cbn [open_source]. rewrite Hout, (step_run current _ c c c eq_refl). unfold types. rewrite Hinit. done. }
  2: { by destruct w as [[o p]|]. }
  done.
Qed.

End execution.

(** ** The statement *)

Section query.
Context {S : Type} `{BlockStoreLaws S} (env : ExecEnv) (heap : HeapFns) {IO : InsertOrder} (std_what : error -> string).
Context `{!HashLaws (env_hash env)}.
Notation F := (env_fpu env).

(** The statement is planned as an aggregation of the scan of an unpartitioned
    table that can be read, whose columns stand at their own positions. *)
Record grouped_select (c : ExecContext S) (tables : string -> string -> list sql_row) (p : LogicalPlan) : Prop := {
  gsel_exact : exact_plan F p = true;
  gsel_planned : exists lim out es agg_out gs aggs agg_types w scan_out schema table ids filters p' i e contents,
    let types := table_type (ColumnTypes e) <$> ids in
    let seen := passing_rows F filters (select_cols ids <$> tables schema table) in
    Optimize F OptimizerConfig_default p = Ok p' /\ plan_ok F tables p' /\
    Plan p' = group_plan lim out es agg_out gs aggs agg_types w scan_out schema table ids filters /\
    GetTable (ex_catalog c) schema table (ex_tx c) = Some (i, e) /\ scannable F c e contents ids filters /\ output_types scan_out = types /\
    Forall (fun x => well_typed ((type_of <$> gs) ++ (result_type <$> aggs)) x = true) es /\ where_ready F types (snd <$> w) seen /\
    (forall groups, aggregate_rows F gs aggs (where_rows F (snd <$> w) seen) = Some groups ->
       group_ready env types gs aggs (where_rows F (snd <$> w) seen) groups) /\
    tables schema table = database_rows (ex_tx c) e contents;
  gsel_tables : tables_fit (ex_catalog c) (ex_tx c) tables;
  gsel_empty : tables "" "__empty__" = [];
}.

(** C21: a SELECT with GROUP BY or aggregates over one unpartitioned table, with
    WHERE and LIMIT and without ORDER BY, given as text, succeeds and returns
    the rows of the plan it is bound to, evaluated on the rows its transaction
    sees: one per group, in the order of their first row; the database is not
    changed. The conditions of [grouped_select]: the scan conditions
    ([scannable]: no filter or a scanned column no filter uses, zone-map
    predicates at their columns' positions, filters with a value on every row,
    truthful statistics, markers that keep the protocol of [vstep]); folding
    computes what the evaluator computes; aggregates and keys read columns that
    stand at their own positions in the scan; WHERE has a value on every row;
    all expressions are well typed; no group key of a row and no column of the
    groups is NULL; LIMIT plus OFFSET fits int64_t. Without them it fails:
    [aggregate_reads_wrong_column], [null_group_merges_zero]. *)
Theorem query_group_rows (c : ExecContext S) tables profile sql stmt p rows fuel inner :
  ParseSQL sql = Ok (StmtSelect stmt) -> BindSelect (ex_catalog c) (ex_tx c) stmt = Ok p ->
  grouped_select c tables p -> (forall schema table, length (tables schema table) < fuel) -> 1 < fuel ->
  query_rows F tables p = Some rows ->
  exists c' q, Context_Query (BSops := _) env heap std_what fuel (Datatypes.S inner) profile sql c = (c', Ok q) /\
    success q = true /\ result_rows q = rows /\ same_database c c'.
Proof.
  intros Hparse Hbind [Hexact Hplanned Hfit Hno] Hfuel Hfuel1 Hrows.
  destruct Hplanned as (lim & out & es & agg_out & gs & aggs & agg_types & w & scan_out & schema & table & ids & filters & p' & i & e & contents & Hpl).
  cbv zeta in Hpl. destruct Hpl as (Hopt & Hok & Hplan & Hget & Hscan & Hout & Hes & Hw & Hg & Htab).
  pose proof (bound_select_optimizes F _ _ tables OptimizerConfig_default stmt p p' rows Hno Hfit Hbind Hexact Hrows Hopt) as Hq.
  assert (phys_rows F tables (Plan p') = Some rows) as Hphys.
  { unfold query_rows in Hq. apply fmap_Some in Hq as (rows1 & Hr1 & ->).
    destruct (PlanNode_rows F tables p' None rows1 Hok Hr1) as (rows' & Hp & [->|(k & [=] & _)]). done. }
  rewrite Hplan in Hphys.
  destruct (execute_group env heap lim out es agg_out gs aggs agg_types w scan_out schema table ids filters c i e contents tables rows fuel inner)
    as (c' & chunks & Hrun & Hr & Hsame); try done.
  rewrite <- Hplan in Hrun. destruct (Context_Query_select env heap std_what c profile sql stmt p p' fuel (Datatypes.S inner) c' chunks) as (q & Hquery & Hsucc & Hres); try done.
  exists c', q. split_and!; try done. by rewrite Hres.
Qed.

End query.

(** *** A query on the sample table *)

Definition group_sql : string := "SELECT b, COUNT(*), MAX(a) FROM t WHERE b < 9 GROUP BY b LIMIT 2;".

Lemma group_scannable : scannable sample_FPU dml_context scan_entry [scan_cols] [0; 1] [].
Proof.
  split; [done|repeat constructor; simpl; lia|constructor|by left|constructor|].
  split_and!; [apply sample_bm_ok|constructor; [apply scan_group_ok|constructor]|]. constructor; [|constructor]. constructor.
Qed.

Definition group_out : OutputSchema := mkOut [INT64; INT64; INT32] ["b"; "COUNT(*)"; "MAX"].
Definition group_keys : list LogicalExpr := [BoundColumnRef INT64 1 "b"].
Definition group_aggs : list LogicalExpr := [LogicalAggrExpr INT64 COUNT true None; LogicalAggrExpr INT32 MAX false (Some (BoundColumnRef INT32 0 "a"))].
Definition group_where : LogicalExpr := LogicalBinaryOp BOOLEAN "<" (BoundColumnRef INT64 1 "b") (LogicalLit INT64 (Value_Integer 9) false).
Definition group_input : list sql_row := [[Some (CInt 1000); Some (CInt 7)]; [Some (CInt 1001); Some (CInt 7)]; [Some (CInt 5); Some (CInt 8)]].

Lemma group_sample_ready groups :
  aggregate_rows sample_FPU group_keys group_aggs group_input = Some groups -> group_ready sample_env [INT32; INT64] group_keys group_aggs group_input groups.
Proof.
  intros Hg. split; [| | |exact Hg|].
  - repeat constructor; eexists; repeat split.
  - repeat constructor.
  - assert (forall a b, row_ok sample_FPU group_keys group_aggs [Some (CInt a); Some (CInt b)]) as Hrow.
    { intros a b. split; repeat constructor; eexists; (split; [reflexivity|]); try by intros c [= <-]. by split. }
    repeat (apply Forall_cons; split; [apply Hrow|]). apply Forall_nil_2.
  - vm_compute in Hg. injection Hg as <-. repeat constructor; eexists; reflexivity.
Qed.

Lemma query_group_rows_witness :
  exists c' q, Context_Query (IO := insert_order) sample_env sample_heap (fun _ => "") 5 1 no_profile group_sql dml_context = (c', Ok q) /\
    success q = true /\ result_rows q = [[Some (CInt 7); Some (CInt 2); Some (CInt 1001)]; [Some (CInt 8); Some (CInt 1); Some (CInt 5)]] /\
    same_database dml_context c'.
Proof.
  destruct (ParseSQL group_sql) as [[stmt| | | | | | | | | |]|] eqn:Hparse; try (vm_compute in Hparse; discriminate).
  destruct (BindSelect (ex_catalog dml_context) (ex_tx dml_context) stmt) as [p|] eqn:Hbind.
  2: { vm_compute in Hparse. injection Hparse as <-. vm_compute in Hbind. discriminate. }
  vm_compute in Hparse. injection Hparse as <-. vm_compute in Hbind. injection Hbind as <-.
  eapply (query_group_rows (IO := insert_order) sample_env sample_heap (fun _ => "") dml_context sample_database no_profile group_sql);
    [vm_compute; reflexivity|vm_compute; reflexivity| | |lia|vm_compute; reflexivity].
  2: { intros schema table. unfold sample_database. destruct (_ && _); vm_compute; lia. }
  split; [vm_compute; reflexivity| |apply sample_database_fits|reflexivity].
  exists (Some (group_out, 2%Z, 0%Z)), group_out, [BoundColumnRef INT64 0 "b"; BoundColumnRef INT64 1 "COUNT(*)"; BoundColumnRef INT32 2 "MAX"],
    group_out, group_keys, group_aggs, [INT64; INT32], (Some (mkOut [INT32; INT64; VARCHAR] ["a"; "b"; "c"], group_where)),
    (mkOut [INT32; INT64] ["a"; "b"]), "main", "t", [0; 1], [].
  eexists _, 0, scan_entry, [scan_cols]. cbv zeta. split; [vm_compute; reflexivity|].
  assert (where_rows sample_FPU (Some group_where) (passing_rows sample_FPU [] (select_cols [0; 1] <$> sample_database "main" "t")) = group_input) as Hin
    by (vm_compute; reflexivity).
  assert (passing_rows sample_FPU [] (select_cols [0; 1] <$> sample_database "main" "t") = (group_input ++ [[None; Some (CInt 9)]])%list) as Hseen
    by (vm_compute; reflexivity).
  split_and!.
  - cbn [plan_ok]. assert (forall l r i, i ∈ refs (LogicalBinaryOp BOOLEAN "<" (BoundColumnRef INT64 1 l) (LogicalLit INT64 r false)) -> i = 1) as Hw.
    { intros l r i Hi. rewrite refs_binary in Hi. unfold refs in Hi. cbn in Hi. set_solver. }
    split_and!; [vm_compute; discriminate|split; [reflexivity|by intros g [=]]| |split; [reflexivity|]| |right; constructor].
    + intros g i [= <-] _ Hi. cbn in Hi. unfold refs in Hi. cbn in Hi.
      assert (i = 0 \/ i = 1) as [->| ->] by set_solver; reflexivity.
    + intros g [= <-]. right. constructor; [|constructor]. intros i Hi. apply Hw in Hi as ->. cbn. set_solver.
    + replace (table_of _ _) with (database_rows scan_tx scan_entry [scan_cols]) by reflexivity.
      replace (database_rows scan_tx scan_entry [scan_cols]) with
        [[Some (CInt 1000); Some (CInt 7); Some (CStr "p")]; [Some (CInt 1001); Some (CInt 7); Some (CStr "r")];
         [Some (CInt 5); Some (CInt 8); Some (CStr "s")]; [None; Some (CInt 9); Some (CStr "t")]] by (vm_compute; reflexivity).
      repeat constructor; cbn; lia.
  - vm_compute. reflexivity.
  - vm_compute. reflexivity.
  - apply group_scannable.
  - reflexivity.
  - repeat constructor.
  - change (env_fpu sample_env) with sample_FPU. rewrite Hseen. split_and!; [reflexivity|reflexivity|].
    repeat (apply Forall_cons; split; [vm_compute; eauto|]). apply Forall_nil_2.
  - cbn [fmap option_fmap option_map snd]. change (env_fpu sample_env) with sample_FPU. rewrite Hin. apply group_sample_ready.
  - reflexivity.
Defined.
