(* ===== verification/JoinQuery.v ===== *)
(** * JOIN, from the text to the rows

    [HashJoin] proves that building the hash table and probing it computes the
    nested-loop join of two streams.  Here the join runs where the program runs it:
    the scan of the right table fills the hash table in a pipeline of its own, and
    the scan of the left table goes through the probe, the projection and the LIMIT
    into the result.

    The executor loses the batch of a probe that fills its output while operators
    follow it ([Pipeline.join_overflow_loses_batch]), and a projection always
    follows: the statement is about joins in which no batch of the left side has
    as many matches as a batch has rows. *)

From Stdlib Require Import ZArith String.
From stdpp Require Import base gmap strings list fin_maps.
From S2P Require Import Prelude Types Double Expr VersionInfo BlockFile BufferManager ColumnChunk RowGroup PartitionInfo Operators HashJoin Pipeline Sorting Sort Aggregate Transaction Schema LogicalPlan PhysicalPlanner Optimizer Catalog Ast Tokenizer Parser Binder TableScan TransactionManager Dml Executor Profiler ClientContext GroupBy.

(** ** The probe, the projection and the LIMIT *)

Definition join_chain (p : HashJoinProbe) (jt : JoinTables) (es : list LogicalExpr) (lim : option (Z * Z)) (ls : LimitState)
    : list (PhysicalOp * OpState) :=
  (OpProbe p jt, StProbe JoinProbeState_init) :: (OpProjection es, NoState) :: limit_states lim ls.

Section chain.
Context (env : ExecEnv) {Sink : Type} (Consume : Sink -> DataChunk -> result Sink) (sink_rows : Sink -> list sql_row).
Context `{!RowSink Consume sink_rows}.
Notation F := (env_fpu env).

(** One batch whose matches fit into one output batch. *)
Lemma join_batch p jt es lim inner c out rows :
  Probe_Execute (env_hash env) p jt JoinProbeState_init c = Ok (NEED_MORE_INPUT, out, JoinProbeState_init) -> batch_ok out ->
  Forall (fun e => well_typed (col_types out) e = true) es -> mapM (project_row F es) (chunk_rows out) = Some rows ->
  limited_step env Consume sink_rows lim (S inner) (join_chain p jt es lim) c rows.
Proof.
  intros Hprobe Hb Hes Hm ls oc sink Hls.
  assert (Execute env (OpProbe p jt) (StProbe JoinProbeState_init) c (Chunk_Reset oc) = Ok (NEED_MORE_INPUT, out, StProbe JoinProbeState_init)) as E
    by (cbn [Execute]; by rewrite Hprobe).
  unfold join_chain at 1. cbn [run_operators]. rewrite E. cbn [mbind result_bind mret result_ret Pipeline.lift Lift_result]. case_decide as Hpos.
  - destruct (Projection_Execute_Ok F es out) as (out2 & Hx & Hb2 & _ & Hrows); [done|done|by apply (project_defined F es out rows)|].
    rewrite Hm in Hrows. injection Hrows as ->.
    destruct (limit_stage env lim ls out2 false Hb2 Hls) as (ls' & last & Hstage & Hbl & Hls' & Hlast & Happ).
    cbn [stage_loop Execute]. rewrite Hx. cbn [mbind result_bind]. rewrite Hstage. cbn [mbind result_bind mret result_ret Pipeline.lift Lift_result].
    destruct (consume_rows Consume sink_rows sink last Hbl) as (sink' & -> & Hsink). cbn [mbind result_bind mret result_ret].
    exists ls', out, sink'. split; [done|]. split; [done|]. split; [by rewrite Hsink, Hlast|]. intros more. by rewrite Happ, Hlast.
  - rewrite chunk_rows_empty in Hm by lia. injection Hm as <-.
    assert (limited lim ls [] = []) as Hnil by (destruct lim as [[l o]|]; [apply window_all_skipped; simpl; lia|done]).
    exists ls, out, sink. rewrite Hnil, app_nil_r. done.
Qed.

(** The rows a join can read, and no batch of the left side with too many
    matches. *)
Record join_ready (lt : list TypeId) (lk : list nat) (rt : list TypeId) (rk : list nat) (L R : list sql_row) : Prop := {
  jr_hashable : keys_hashable lt lk;
  jr_storage : Forall (fun t => storage_of t <> SNone) (lt ++ rt);
  jr_left : Forall (fun r => is_Some (key_of lt lk r)) L;
  jr_right : Forall (row_fits rt) R;
  jr_keys : Forall (fun k => k < length rt) rk;
  jr_arity : length rk = length lk;
  jr_few : forall pre batch post, L = pre ++ batch ++ post -> length batch <= STANDARD_VECTOR_SIZE ->
    length (nested_loop_join lt lk rt rk batch R) < STANDARD_VECTOR_SIZE;
}.

Lemma nested_loop_app lt lk rt rk L1 L2 R :
  nested_loop_join lt lk rt rk (L1 ++ L2) R = nested_loop_join lt lk rt rk L1 R ++ nested_loop_join lt lk rt rk L2 R.
Proof. apply bind_app. Qed.

Lemma join_ready_tail lt lk rt rk L1 L2 R : join_ready lt lk rt rk (L1 ++ L2) R -> join_ready lt lk rt rk L2 R.
Proof.
  intros [H1 H2 H3 H4 H5 H6 H7]. split; try done; [by apply Forall_app in H3 as [_ H3]|].
  intros pre batch post -> Hb. apply (H7 (L1 ++ pre) batch post); [by rewrite <- app_assoc|done].
Qed.

Lemma typed_batch_length types c : typed_batch types c -> length (chunk_rows c) <= STANDARD_VECTOR_SIZE.
Proof. intros ([_ Hn] & _). by rewrite length_chunk_rows. Qed.

Context `{!HashLaws (env_hash env)}.

(** The whole left side. *)
Lemma join_batches p t es lim inner lt rt rk cs R rows :
  Forall (typed_batch lt) cs -> probe_output_types p = lt ++ rt -> join_ready lt (left_key_col_idxs p) rt rk (stream_rows cs) R ->
  table_rep (env_hash env) t (entry_of rt rk <$> R) -> Forall (fun e => well_typed (lt ++ rt) e = true) es ->
  mapM (project_row F es) (nested_loop_join lt (left_key_col_idxs p) rt rk (stream_rows cs) R) = Some rows ->
  exists rss, Forall2 (limited_step env Consume sink_rows lim (S inner) (join_chain p (mkJoinTables t []) es lim)) cs rss /\ rows = concat rss.
Proof.
  intros Hcs Hty Hready Hrep Hes. revert rows Hready. induction Hcs as [|c cs Hc _ IH]; intros rows Hready Hm.
  { injection Hm as <-. exists []. by split. }
  unfold stream_rows in Hm, Hready. rewrite fmap_cons in Hm, Hready. cbn [concat] in Hm, Hready. rewrite nested_loop_app in Hm.
  apply mapM_app_Some in Hm as (r1 & r2 & Hm1 & Hm2 & ->).
  destruct (IH r2 (join_ready_tail _ _ _ _ _ _ _ Hready) Hm2) as (rss & Hrss & ->).
  exists (r1 :: rss). split; [|done]. constructor; [|done].
  pose proof (typed_batch_length _ _ Hc) as Hlen. destruct Hc as (Hb & _ & Ht). destruct Hready as [H1 H2 H3 H4 H5 H6 H7].
  destruct (Probe_Execute_join (env_hash env) p rt rk t R c) as (out & Hx & Hbo & Hto & Hro); try done.
  - split; rewrite ?Ht; try done. by apply Forall_app in H3 as [H3 _].
  - by rewrite Ht.
  - by rewrite Hty.
  - rewrite Ht. apply (H7 [] (chunk_rows c) (concat (chunk_rows <$> cs))); done.
  - eapply join_batch; [exact Hx|done| |].
    + by rewrite Hto, Hty.
    + by rewrite Hro, Ht.
Qed.

End chain.

(** A batch of rows of the types of the build side. *)
Lemma build_batch types rk c :
  typed_batch types c -> Forall (row_fits types) (chunk_rows c) -> Forall (fun k => k < length types) rk -> build_ok types rk c.
Proof.
  intros ([Hwf _] & _ & Ht) Hfit Hrk. split; [done|done| | |done].
  - apply Forall_lookup. intros k v Hv Hbool i z Hi Hz. unfold chunk_rows in Hfit. rewrite Forall_fmap in Hfit.
    pose proof (proj1 (Forall_lookup _ _) Hfit i i ltac:(by rewrite lookup_seq_lt)) as Hr. cbn in Hr.
    destruct (Forall2_lookup_r _ _ _ k _ Hr (chunk_row_lookup c i k v Hv)) as (t & Htk & cc & Hcc & Hf).
    rewrite Hz in Hcc. injection Hcc as <-. cbn in Hf. apply Hf. rewrite <- Ht in Htk.
    apply list_lookup_fmap_Some in Htk as (v' & -> & Hv'). congruence.
  - eapply Forall_impl; [exact Hfit|]. intros r Hr. unfold no_nulls. apply Forall_lookup. intros k x Hx.
    destruct (Forall2_lookup_r _ _ _ k x Hr Hx) as (t & _ & cc & -> & _). by eexists.
Qed.

(** ** Both pipelines *)

(** The scan of one side. *)
Record Side : Type := mkSide {
  side_out : OutputSchema;
  side_schema : string;
  side_table : string;
  side_ids : list nat;
  side_filters : list LogicalExpr;
}.

Definition side_plan (d : Side) : PhysicalPlan := PTableScan (side_out d) (side_schema d) (side_table d) (side_ids d) (side_filters d).
Definition side_scan (d : Side) : PhysicalTableScan :=
  Scan_new (side_schema d) (side_table d) (side_ids d) (side_filters d) (output_types (side_out d)).
Definition side_rows (F : FPU) (tables : string -> string -> list sql_row) (d : Side) : list sql_row :=
  passing_rows F (side_filters d) (select_cols (side_ids d) <$> tables (side_schema d) (side_table d)).

(** The plan of [SELECT es FROM l JOIN r ON ... LIMIT ...]. *)
Definition join_plan (lim : option (OutputSchema * Z * Z)) (out : OutputSchema) (es : list LogicalExpr) (join_out : OutputSchema)
    (lk rk : list nat) (lt rt : list TypeId) (l r : Side) : PhysicalPlan :=
  limit_plan lim (PProjection out es (PHashJoin join_out None lk rk lt rt (side_plan l) (side_plan r))).

Lemma join_pipelines lim out es join_out lk rk lt rt l r :
  Initialize_pipelines (join_plan lim out es join_out lk rk lt rt l r) =
    [mkPipeline 1 (Some (SrcScan (side_scan r))) [] (SinkBuild rk None) [];
     mkPipeline 0 (Some (SrcScan (side_scan l)))
       (PoProbe (probe_of join_out None lk) 1 :: PoProjection es :: match limit_of lim with Some (l, o) => [PoLimit l o] | None => [] end)
       SinkCollector [1]].
Proof. by destruct lim as [[[o l'] off]|]. Qed.

Lemma join_plan_rows F tables lim out es join_out lk rk lt rt l r rows :
  phys_rows F tables (join_plan lim out es join_out lk rk lt rt l r) = Some rows ->
  exists projected, mapM (project_row F es) (nested_loop_join lt lk rt rk (side_rows F tables l) (side_rows F tables r)) = Some projected /\
    rows = limited (limit_of lim) LimitState_init projected.
Proof.
  unfold join_plan, limit_plan, limit_of. destruct lim as [[[o l'] off]|]; cbn [phys_rows side_plan mbind option_bind].
  - intros (projected & Hp & ->)%fmap_Some. by exists projected.
  - intros Hp. by exists rows.
Qed.

Section execution.
Context {S : Type} `{BlockStoreLaws S} (env : ExecEnv) (heap : HeapFns) {IO : InsertOrder}.
Notation F := (env_fpu env).
Notation GetDataS := (Source_GetData (BSops := _) env).

(** The side is an unpartitioned table that can be read, with the given rows. *)
Definition side_ready (c : ExecContext S) (tables : string -> string -> list sql_row) (types : list TypeId) (d : Side) : Prop :=
  exists i e contents, GetTable (ex_catalog c) (side_schema d) (side_table d) (ex_tx c) = Some (i, e) /\
    scannable F c e contents (side_ids d) (side_filters d) /\ output_types (side_out d) = types /\
    types = table_type (ColumnTypes e) <$> side_ids d /\ tables (side_schema d) (side_table d) = database_rows (ex_tx c) e contents.

Lemma side_ready_same c c' tables types d : same_database c c' -> side_ready c tables types d -> side_ready c' tables types d.
Proof.
  intros (Hcat & Htx & Hview) (i & e & contents & Hget & [H1 H2 H3 H4 H5 Hgs] & Hout & Hty & Htab). exists i, e, contents. rewrite Hcat, Htx.
  split_and!; try done. split; try done. rewrite Htx. eapply groups_ok_same_view; [apply Hview, Hgs|done].
Qed.

Lemma open_side c tables types d objs :
  side_ready c tables types d ->
  exists src cs, open_source env objs (SrcScan (side_scan d)) c = (c, Ok src) /\ reading_source env src c /\
    produces (paired_GetData GetDataS) (src, c) cs /\ Forall (typed_batch types) cs /\ stream_rows cs = side_rows F tables d.
Proof.
  intros (i & e & contents & Hget & Hscan & Hout & Hty & Htab).
  destruct (open_scan F (env_hash env) c _ _ i e contents _ _ Hget Hscan) as (ts & cs & Hinit & Hreads & Hprod & Hcs & Hstream).
  exists (SsScan ts CreateScanState), cs. split_and!; [|done| | |].
  - cbn [open_source]. rewrite (step_run current _ c c c eq_refl). unfold side_scan. rewrite Hout, Hty, Hinit. done.
  - destruct c as [s cat tx]. exact (scan_produces env ts cat tx (s, CreateScanState) cs Hprod).
  - eapply Forall_impl; [exact Hcs|]. intros x (Hb & Hpos & Ht & _). by rewrite Hty.
  - unfold side_rows. by rewrite Hstream, Htab.
Qed.

Lemma side_batches types tables d cs fuel :
  Forall (typed_batch types) cs -> stream_rows cs = side_rows F tables d -> length (tables (side_schema d) (side_table d)) < fuel ->
  Forall (fun x => 0 < ch_count x) cs /\ length cs < fuel.
Proof.
  intros Hcs Hr Hf. assert (Forall (fun x => 0 < ch_count x) cs) as Hpos by (eapply Forall_impl; [exact Hcs|]; by intros x (_ & ? & _)).
  split; [done|]. eapply Nat.le_lt_trans; [by apply stream_length|]. rewrite Hr. unfold side_rows, passing_rows.
  eapply Nat.le_lt_trans; [apply length_filter|]. by rewrite length_fmap.
Qed.

Context `{!HashLaws (env_hash env)}.

(** The right side into the hash table. *)
Lemma run_build c tables rt rk d R fuel inner objs :
  side_ready c tables rt d -> side_rows F tables d = R -> Forall (row_fits rt) R -> Forall (fun k => k < length rt) rk ->
  length (tables (side_schema d) (side_table d)) < fuel ->
  exists src c' t, open_source env objs (SrcScan (side_scan d)) c = (c, Ok src) /\
    PipelineExecute env (Sink_Consume (BSops := _) env (SinkBuild rk None)) GetDataS fuel inner src [] (StBuild (mkJoinTables ∅ [])) c =
      (c', Ok (StBuild (mkJoinTables t []))) /\ table_rep (env_hash env) t (entry_of rt rk <$> R) /\ same_database c c'.
Proof.
  intros Hside <- Hfit Hrk Hf. destruct (open_side c tables rt d objs Hside) as (src & cs & Hopen & Hreads & Hprod & Hcs & Hr).
  destruct (side_batches rt tables d cs fuel Hcs Hr Hf) as [Hpos Hlen].
  destruct (build_rep (env_hash env) rt rk PI_none cs) as (t & Hfold & Hrep).
  { rewrite Forall_forall in Hcs. rewrite Forall_forall in Hfit. apply Forall_forall. intros x Hx. apply build_batch; [by apply Hcs| |done].
    apply Forall_forall. intros r Hin. apply Hfit. rewrite <- Hr. by eapply elem_of_stream. }
  destruct (run_sink env (SinkBuild rk None) StBuild (Build_Consume (env_hash env) rk PI_none) c src cs (mkJoinTables ∅ []) (mkJoinTables t []) fuel inner)
    as (c' & Hrun & Hsame); try done.
  { intros s chunk c0. cbn [Sink_Consume default]. unfold mbind, step_bind, result_bind, pure_r. by destruct (Build_Consume _ _ _ s chunk). }
  exists src, c', t. rewrite Hr in Hrep. done.
Qed.

(** The left side through the probe into the result. *)
Lemma run_probe c tables p t es lim lt rt rk d R rows fuel inner objs :
  side_ready c tables lt d -> probe_output_types p = lt ++ rt -> join_ready lt (left_key_col_idxs p) rt rk (side_rows F tables d) R ->
  table_rep (env_hash env) t (entry_of rt rk <$> R) -> Forall (fun e => well_typed (lt ++ rt) e = true) es ->
  mapM (project_row F es) (nested_loop_join lt (left_key_col_idxs p) rt rk (side_rows F tables d) R) = Some rows ->
  length (tables (side_schema d) (side_table d)) < fuel ->
  exists src c' chunks, open_source env objs (SrcScan (side_scan d)) c = (c, Ok src) /\
    PipelineExecute env (Sink_Consume (BSops := _) env SinkCollector) GetDataS fuel (Datatypes.S inner) src
      (OpProbe p (mkJoinTables t []) :: OpProjection es :: limit_ops lim) (StCollector []) c = (c', Ok (StCollector chunks)) /\
    stream_rows chunks = limited lim LimitState_init rows /\ same_database c c'.
Proof.
  intros Hside Hty Hready Hrep Hes Hm Hf. destruct (open_side c tables lt d objs Hside) as (src & cs & Hopen & Hreads & Hprod & Hcs & Hr).
  destruct (side_batches lt tables d cs fuel Hcs Hr Hf) as [Hpos Hlen]. rewrite <- Hr in Hready, Hm.
  destruct (join_batches env Collector_Consume stream_rows p t es lim inner lt rt rk cs R rows) as (rss & Hsteps & ->); try done.
  destruct (limited_run env Collector_Consume stream_rows (paired_GetData GetDataS) fuel (Datatypes.S inner) lim (join_chain p (mkJoinTables t []) es lim)
    (src, c) cs rss LimitState_init (mkChunk [] 0) (mkChunk [] 0) []) as (chunks & Hrun & Hrows); try done.
  destruct (run_source_pure env StCollector Collector_Consume _ GetDataS same_database (reading_source env) (collect_pure env) (reading_GetData env)
    _ _ _ _ _ _ _ _ _ Hreads Hrun) as (c' & Hrun' & HR).
  exists src, c', chunks. split_and!; try done. unfold PipelineExecute. rewrite !fmap_cons.
  assert ((fun op => (op, CreateOperatorState op)) <$> limit_ops lim = limit_states lim LimitState_init) as -> by (by destruct lim as [[l o]|]).
  exact Hrun'.
Qed.

Lemma execute_join lim out es join_out lk rk lt rt l r (c : ExecContext S) tables rows fuel inner :
  side_ready c tables lt l -> side_ready c tables rt r -> output_types join_out = lt ++ rt ->
  Forall (fun e => well_typed (lt ++ rt) e = true) es -> join_ready lt lk rt rk (side_rows F tables l) (side_rows F tables r) ->
  (forall schema table, length (tables schema table) < fuel) -> phys_rows F tables (join_plan lim out es join_out lk rk lt rt l r) = Some rows ->
  exists c' chunks, Execute_plan (BSops := _) env heap fuel (Datatypes.S inner) (join_plan lim out es join_out lk rk lt rt l r) c = (c', Ok chunks) /\
    stream_rows chunks = rows /\ same_database c c'.
Proof.
  intros Hl Hr Hout Hes Hready Hfuel Hrows. apply join_plan_rows in Hrows as (projected & Hm & ->).
  pose proof (jr_right _ _ _ _ _ _ Hready) as Hfit. pose proof (jr_keys _ _ _ _ _ _ Hready) as Hrk.
  set (ps := Initialize_pipelines (join_plan lim out es join_out lk rk lt rt l r)).
  destruct (run_build c tables rt rk r _ fuel (Datatypes.S inner) (initial_objects ps) Hr eq_refl Hfit Hrk (Hfuel _ _))
    as (srcr & c1 & t & Hopen1 & Hrun1 & Hrep & Hsame1).
  pose proof (side_ready_same _ _ _ _ _ Hsame1 Hl) as Hl1.
  destruct (run_probe c1 tables (probe_of join_out None lk) t es (limit_of lim) lt rt rk l _ projected fuel inner
    (<[1 := StBuild (mkJoinTables t [])]> (initial_objects ps)) Hl1 Hout Hready Hrep Hes Hm (Hfuel _ _))
    as (srcl & c2 & chunks & Hopen2 & Hrun2 & Hr2 & Hsame2).
  exists c2, chunks. split; [|split; [done|by etrans]].
  destruct (pipelines_ordered (join_plan lim out es join_out lk rk lt rt l r)) as (Ho & Hn & _).
  unfold Execute_plan. fold ps. fold ps in Ho, Hn. rewrite TopologicalSort_ordered by done. rewrite (step_run (pure_r _) _ c c _ eq_refl).
  unfold ps in *. rewrite join_pipelines in *. clear Ho Hn. cbn [each_step].
  erewrite (step_run _ _ c c2); [|erewrite (step_run _ _ c c1); [|eapply pipeline_run; [done|exact Hopen1|done|done|exact Hrun1|done]]].
  2: { erewrite (step_run _ _ c1 c2); [done|]. eapply pipeline_run; [done|exact Hopen2| |done|exact Hrun2|done].
       by destruct (limit_of lim) as [[l' o]|]. }
  done.
Qed.

End execution.

(** ** The statement *)

Section query.
Context {S : Type} `{BlockStoreLaws S} (env : ExecEnv) (heap : HeapFns) {IO : InsertOrder} (std_what : error -> string).
Context `{!HashLaws (env_hash env)}.
Notation F := (env_fpu env).

(** The statement is planned as the join of the scans of two unpartitioned tables
    that can be read. *)
Record joined_select (c : ExecContext S) (tables : string -> string -> list sql_row) (p : LogicalPlan) : Prop := {
  jsel_exact : exact_plan F p = true;
  jsel_planned : exists lim out es join_out lk rk lt rt l r p',
    Optimize F OptimizerConfig_default p = Ok p' /\ Plan p' = join_plan lim out es join_out lk rk lt rt l r /\
    side_ready env c tables lt l /\ side_ready env c tables rt r /\ output_types join_out = lt ++ rt /\
    Forall (fun e => well_typed (lt ++ rt) e = true) es /\ join_ready lt lk rt rk (side_rows F tables l) (side_rows F tables r);
  jsel_tables : tables_fit (ex_catalog c) (ex_tx c) tables;
  jsel_empty : tables "" "__empty__" = [];
}.

(** C22: a SELECT over the equi-join of two unpartitioned tables, with LIMIT and
    without WHERE or ORDER BY, given as text, succeeds and returns the rows of
    the plan it is bound to, evaluated on the rows its transaction sees: the
    pairs of rows with equal keys in the order of the left table and then of the
    right one; the database is not changed. The conditions of [joined_select]:
    the same scan conditions ([scannable]) on both sides; join keys of one type
    and not BOOLEAN; no NULL key on the left and no NULL on the right; fewer
    than 1024 matches for any 1024 consecutive left rows; folding computes what
    the evaluator computes; LIMIT plus OFFSET fits int64_t. Without them it
    fails: [join_overflow_loses_batch], [join_null_key_matches_zero],
    [cast_join_is_cross_product]. *)
Theorem query_join_rows (c : ExecContext S) tables profile sql stmt p rows fuel inner :
  ParseSQL sql = Ok (StmtSelect stmt) -> BindSelect (ex_catalog c) (ex_tx c) stmt = Ok p ->
  has_aggregates stmt = false -> equi_joins p = true ->
  (default 0 (sel_limit stmt) + Z.max 0 (default 0 (sel_offset stmt)) <= INT64_MAX)%Z ->
  joined_select c tables p -> (forall schema table, length (tables schema table) < fuel) ->
  query_rows F tables p = Some rows ->
  exists c' q, Context_Query (BSops := _) env heap std_what fuel (Datatypes.S inner) profile sql c = (c', Ok q) /\
    success q = true /\ result_rows q = rows /\ same_database c c'.
Proof.
  intros Hparse Hbind Hagg Hjoin Hlim [Hexact Hplanned Hfit Hno] Hfuel Hrows.
  destruct Hplanned as (lim & out & es & join_out & lk & rk & lt & rt & l & r & p' & Hopt & Hplan & Hl & Hr & Hout & Hes & Hready).
  destruct (BindSelect_plain F _ _ tables Hfit stmt p Hbind Hagg Hjoin Hlim) as (lim0 & out0 & es0 & srt0 & c0 & -> & Hs & Hok & Hlits).
  assert (phys_rows F tables (Plan p') = Some rows) as Hphys
    by (eapply optimized_plan_rows; [exact Hno|exact Hs|by apply exact_fold_ok|exact Hok|exact Hrows|exact Hopt]).
  rewrite Hplan in Hphys.
  destruct (execute_join env heap lim out es join_out lk rk lt rt l r c tables rows fuel inner) as (c' & chunks & Hrun & Hrr & Hsame); try done.
  rewrite <- Hplan in Hrun. destruct (Context_Query_select env heap std_what c profile sql stmt _ p' fuel (Datatypes.S inner) c' chunks Hparse Hbind Hopt Hrun)
    as (q & Hq & Hsucc & Hres).
  exists c', q. split_and!; try done. by rewrite Hres.
Qed.

End query.

(** *** A query on two sample tables *)

#[local] Open Scope string_scope.

(** [u] has the last two columns of the sample table [t]. *)
Definition join_rg : RowGroup := mkRG 0 5 [INT64; VARCHAR] [scan_cc_b; scan_cc_c] sample_vi 0 INVALID_TRANSACTION.
Definition join_cols : list (list (option cell)) := [dv_rows scan_vec_b; dv_rows scan_vec_c].
Definition join_entry : TableCatalogEntry :=
  mkEntry "u" "main" 1 1 INVALID_TRANSACTION INVALID_TIMESTAMP [mkCol "k" INT64 false false; mkCol "d" VARCHAR false false]
    [join_rg] (mkPI PT_NONE [] [] 0 []) [].
Definition join_catalog : Catalog := mkCatalog {["main" := mkSchema "main" (<["u" := [join_entry]]> {["t" := [scan_entry]]})]}.
Definition join_context : ExecContext BufferManager := mkExec sample_bm join_catalog scan_tx.
Definition join_database (schema table : string) : list sql_row :=
  if String.eqb schema "main" && String.eqb table "u" then database_rows scan_tx join_entry [join_cols] else sample_database schema table.

Definition join_sql : string := "SELECT d, a FROM t JOIN u ON b = k LIMIT 3 OFFSET 1;".
Lemma join_group_ok : group_ok (ColumnTypes join_entry) sample_bm join_rg join_cols.
Proof.
  destruct scan_group_ok as [[Hbm Hrep _ _] Hz _ Hv Hn]. apply Forall2_cons in Hrep as [_ Hrep]. apply Forall2_cons in Hz as [_ Hz].
  split; [|exact Hz|done|exact Hv|exact Hn]. split; [exact Hbm|exact Hrep|repeat constructor|constructor].
Qed.

Lemma join_rows_t : database_rows scan_tx scan_entry [scan_cols] =
  [[Some (CInt 1000); Some (CInt 7); Some (CStr "p")]; [Some (CInt 1001); Some (CInt 7); Some (CStr "r")];
   [Some (CInt 5); Some (CInt 8); Some (CStr "s")]; [None; Some (CInt 9); Some (CStr "t")]].
Proof. vm_compute. reflexivity. Qed.
Lemma join_rows_u : database_rows scan_tx join_entry [join_cols] =
  [[Some (CInt 7); Some (CStr "p")]; [Some (CInt 7); Some (CStr "r")]; [Some (CInt 8); Some (CStr "s")]; [Some (CInt 9); Some (CStr "t")]].
Proof. vm_compute. reflexivity. Qed.

Lemma join_database_fits : tables_fit join_catalog scan_tx join_database.
Proof.
  intros schema name i table Hg. unfold join_database, sample_database.
  destruct (String.eqb_spec schema "main") as [->|]; [|constructor]. destruct (String.eqb_spec name "u") as [->|]; cbn [andb].
  - vm_compute in Hg. injection Hg as <- <-. rewrite join_rows_u. repeat constructor; intros; by simplify_eq.
  - destruct (String.eqb_spec name "t") as [->|]; [|constructor].
    vm_compute in Hg. injection Hg as <- <-. rewrite join_rows_t. repeat constructor; intros; by simplify_eq.
Qed.

Definition join_left : Side := mkSide (mkOut [INT32; INT64; VARCHAR] ["a"; "b"; "c"]) "main" "t" [0; 1; 2] [].
Definition join_right : Side := mkSide (mkOut [INT64; VARCHAR] ["k"; "d"]) "main" "u" [0; 1] [].

Lemma join_sides :
  side_ready sample_env join_context join_database [INT32; INT64; VARCHAR] join_left /\
  side_ready sample_env join_context join_database [INT64; VARCHAR] join_right.
Proof.
  split.
  - exists 0, scan_entry, [scan_cols]. split_and!; [vm_compute; reflexivity| |reflexivity..].
    split; [done|repeat constructor; simpl; lia|constructor|by left|constructor|].
    split_and!; [apply sample_bm_ok|constructor; [apply scan_group_ok|constructor]|]. constructor; [|constructor]. constructor.
  - exists 0, join_entry, [join_cols]. split_and!; [vm_compute; reflexivity| |reflexivity..].
    split; [done|repeat constructor; simpl; lia|constructor|by left|constructor|].
    split_and!; [apply sample_bm_ok|constructor; [apply join_group_ok|constructor]|]. constructor; [|constructor]. constructor.
Qed.

Lemma join_sample_ready :
  join_ready [INT32; INT64; VARCHAR] [1] [INT64; VARCHAR] [0] (side_rows sample_FPU join_database join_left) (side_rows sample_FPU join_database join_right).
Proof.
  assert (side_rows sample_FPU join_database join_left = database_rows scan_tx scan_entry [scan_cols]) as -> by (vm_compute; reflexivity).
  assert (side_rows sample_FPU join_database join_right = database_rows scan_tx join_entry [join_cols]) as -> by (vm_compute; reflexivity).
  split; [by repeat constructor; exists INT64|by repeat constructor| | |by repeat constructor|done|].
  - rewrite join_rows_t. by repeat constructor; eexists.
  - rewrite join_rows_u. repeat constructor; eexists; by repeat split.
  - intros pre batch post Hsplit _.
    assert (length (nested_loop_join [INT32; INT64; VARCHAR] [1] [INT64; VARCHAR] [0] (database_rows scan_tx scan_entry [scan_cols])
      (database_rows scan_tx join_entry [join_cols])) = 6) as Hall by (vm_compute; reflexivity).
    rewrite Hsplit, !nested_loop_app, !length_app in Hall. unfold STANDARD_VECTOR_SIZE. lia.
Qed.

Lemma query_join_rows_witness :
  exists c' q, Context_Query (IO := insert_order) sample_env sample_heap (fun _ => "") 5 1 no_profile join_sql join_context = (c', Ok q) /\
    success q = true /\
    result_rows q = [[Some (CStr "r"); Some (CInt 1000)]; [Some (CStr "p"); Some (CInt 1001)]; [Some (CStr "r"); Some (CInt 1001)]] /\
    same_database join_context c'.
Proof.
  destruct (ParseSQL join_sql) as [[stmt| | | | | | | | | |]|] eqn:Hparse; try (vm_compute in Hparse; discriminate).
  destruct (BindSelect (ex_catalog join_context) (ex_tx join_context) stmt) as [p|] eqn:Hbind.
  2: { vm_compute in Hparse. injection Hparse as <-. vm_compute in Hbind. discriminate. }
  vm_compute in Hparse. injection Hparse as <-. vm_compute in Hbind. injection Hbind as <-.
  eapply (query_join_rows (IO := insert_order) sample_env sample_heap (fun _ => "") join_context join_database no_profile join_sql);
    [vm_compute; reflexivity|vm_compute; reflexivity|reflexivity|reflexivity|vm_compute; discriminate| | |vm_compute; reflexivity].
  2: { intros schema table. unfold join_database, sample_database. repeat destruct (_ && _); vm_compute; lia. }
  split; [vm_compute; reflexivity| |apply join_database_fits|reflexivity].
  exists (Some (mkOut [VARCHAR; INT32] ["d"; "a"], 3%Z, 1%Z)), (mkOut [VARCHAR; INT32] ["d"; "a"]),
    [BoundColumnRef VARCHAR 4 "d"; BoundColumnRef INT32 0 "a"], (mkOut [INT32; INT64; VARCHAR; INT64; VARCHAR] ["a"; "b"; "c"; "k"; "d"]),
    [1], [0], [INT32; INT64; VARCHAR], [INT64; VARCHAR], join_left, join_right.
  eexists _. split; [vm_compute; reflexivity|]. split; [vm_compute; reflexivity|].
  split_and!; [apply join_sides|apply join_sides|reflexivity|by repeat constructor|apply join_sample_ready].
Defined.
