(* ===== verification/Recovery.v ===== *)
(** * Opening a database

    [main/database.cpp]: the start of a database in memory or on a file, the
    replay of the log behind the last checkpoint, and the shutdown.  Each entry
    of the log is replayed in a transaction of its own, which is committed, or
    rolled back when anything throws.

    The claims show that the replay does not bring back what was logged: a table
    created by the log is seen by no transaction but the one that replayed it. *)

From Stdlib Require Import ZArith String.
From stdpp Require Import base gmap strings list fin_maps.
From S2P Require Import Prelude Types Double Expr VersionInfo BlockFile BufferManager ColumnChunk RowGroup PartitionInfo Operators Transaction Schema LogicalPlan Catalog TableScan CatalogCheckpoint Wal TransactionManager CheckpointManager Dml HashJoin Pipeline Executor ClientContext.

(** ** Payloads *)

(** The payload of [WAL_DROP_TABLE]. *)
Definition rd_drop : reader (string * string) := fun bs =>
  '(schema, bs) ← RdStr bs; '(table, bs) ← RdStr bs; Ok (schema, table, bs).

(** The payload of [WAL_INSERT]. *)
Definition rd_insert : reader (string * string * DataChunk) := fun bs =>
  '(schema, bs) ← RdStr bs; '(table, bs) ← RdStr bs;
  '(chunk, bs) ← DeserializeChunkPayload bs;
  Ok (schema, table, chunk, bs).

(** The payload of [WAL_UPDATE]. *)
Definition rd_update : reader (string * string * list nat * list Z * DataChunk) := fun bs =>
  '(schema, bs) ← RdStr bs; '(table, bs) ← RdStr bs;
  '(cols, bs) ← rd_list RdU32 bs;
  '(ids, bs) ← rd_list RdU64 bs;
  '(chunk, bs) ← DeserializeChunkPayload bs;
  Ok (schema, table, map Z.to_nat cols, ids, chunk, bs).

(** The row groups of the partitions in [WAL_ALTER_TABLE]. *)
Definition rd_group_indices : reader (list (list nat)) := fun bs =>
  '(idx, bs) ← rd_list (rd_list RdU64) bs; Ok (map (map Z.to_nat) idx, bs).

Section replay.
Context {S : Type} {BSops : BlockStore S} (H : Hashes) {IO : InsertOrder}.

Notation step := (step (S := S)).

(** ** What the entries do, inside a transaction *)

Definition replay_create (schema table : string) (cols : list ColumnDefinition) (pi : PartitionInfo) : step unit :=
  c ← current; catalog_op (fun cat => CreateTable cat schema table cols (ex_tx c) pi).

Definition replay_drop (schema table : string) : step unit :=
  c ← current; catalog_op (fun cat => DropTable cat schema table (ex_tx c)).

(** The table the transaction sees, if any. *)
Definition lookup_table (schema table : string) : step (option TableRef) :=
  c ← current;
  mret (match GetTable (ex_catalog c) schema table (ex_tx c) with Some (i, _) => Some (mkRef schema table i) | None => None end).

(** The key of a row, read without a look at the validity mask. *)
Definition raw_key_value (chunk : DataChunk) (r : nat) (col : Z) : result Value :=
  v ← of_option UndefinedBehaviour (columns chunk !! Z.to_nat col);
  if is_float (dv_type v) then x ← of_option UndefinedBehaviour (float_data v !! r); Ok (mkValue (dv_type v) (VDouble x))
  else if bool_decide (dv_type v = VARCHAR) then x ← of_option UndefinedBehaviour (str_data v !! r); Ok (Value_Varchar x)
  else x ← of_option UndefinedBehaviour (int_data v !! r); Ok (mkValue (dv_type v) (VInt x)).

Definition replay_partition (t : TableRef) (chunk : DataChunk) (col_ids : list nat) (routes : list Z) (pid : Z) : step unit :=
  let rows := filter (fun r => routes !! r = Some pid) (seq 0 (ch_count chunk)) in
  slice ← pure_r (DataChunkSlice chunk rows);
  e ← read_table t;
  '(e', g) ← pure_r (GetOrAddRowGroupForPartition e (Z.to_nat pid));
  _ ← write_table t (fun _ => e');
  append_logged t g slice col_ids.

Definition replay_insert (schema table : string) (chunk : DataChunk) : step unit :=
  found ← lookup_table schema table;
  match found with
  | None => mret tt
  | Some t =>
      e ← read_table t;
      let col_ids := seq 0 (length (tbl_columns e)) in
      let pi := partition_info e in
      if negb (IsPartitioned pi) then
        let '(e', g) := GetOrAddRowGroup e in
        _ ← write_table t (fun _ => e');
        append_logged t g chunk col_ids
      else
        routes ← pure_r (mapM_r (fun r => keys ← mapM_r (raw_key_value chunk r) (take (used_keys pi) (partition_col_idxs pi)); RouteRow H pi keys)
                           (seq 0 (ch_count chunk)));
        each_step (fun _ pid => replay_partition t chunk col_ids routes pid) tt (bucket_order (remove_dups routes))
  end.

Definition replay_delete_row (t : TableRef) (tx : Z) (rid : Z) : step unit :=
  e ← read_table t;
  let g := Z.to_nat (RowIdGroup rid) in
  match row_groups e !! g with
  | Some rg => write_group t g (on_version (fun vi => MarkDeleted vi (RowIdOffset rid) tx) rg)
  | None => mret tt
  end.

Definition replay_delete (schema table : string) (row_ids : list Z) : step unit :=
  found ← lookup_table schema table;
  match found with
  | None => mret tt
  | Some t =>
      c ← current;
      _ ← each_step (fun _ rid => replay_delete_row t (tx_id (ex_tx c)) rid) tt row_ids;
      push_undo (UndoDelete (mkDeleteUndo schema table row_ids))
  end.

(** One column of one updated row: the old value is read, the new one written,
    and both are collected. *)
Definition replay_update_cell (t : TableRef) (g offset ridx : nat) (new_values : DataChunk) (acc : list DataVector * list DataVector) (u : nat * nat)
    : step (list DataVector * list DataVector) :=
  let '(ui, col) := u in
  rg ← read_group t g;
  cc ← pure_r (of_option UndefinedBehaviour (column_chunks_ rg !! col));
  cur ← storage (fun s => Scan s cc (MakeScanState cc offset) 1);
  old ← pure_r (of_option UndefinedBehaviour (acc.1 !! ui));
  old ← pure_r (DataVectorAppend old cur 0);
  src ← pure_r (of_option UndefinedBehaviour (columns new_values !! ui));
  cc ← storage (fun s => WriteRow s cc offset src ridx);
  _ ← write_group t g (with_chunks rg (<[col := cc]> (column_chunks_ rg)));
  new ← pure_r (of_option UndefinedBehaviour (acc.2 !! ui));
  new ← pure_r (DataVectorAppend new src ridx);
  mret (<[ui := old]> acc.1, <[ui := new]> acc.2).

Definition replay_update_row (t : TableRef) (col_ids : list nat) (new_values : DataChunk)
    (acc : list DataVector * list DataVector * list Z) (p : nat * Z) : step (list DataVector * list DataVector * list Z) :=
  let '(ridx, rid) := p in
  let g := Z.to_nat (RowIdGroup rid) in
  let offset := RowIdOffset rid in
  e ← read_table t;
  match row_groups e !! g with
  | None => mret acc
  | Some _ =>
      '(olds, news) ← each_step (replay_update_cell t g (Z.to_nat offset) ridx new_values) acc.1 (imap pair col_ids);
      rg ← read_group t g;
      c ← current;
      _ ← write_group t g (on_version (fun vi => MarkUpdated vi offset (tx_id (ex_tx c))) rg);
      mret (olds, news, acc.2 ++ [rid])
  end.

Definition replay_update (schema table : string) (col_ids : list nat) (row_ids : list Z) (new_values : DataChunk) : step unit :=
  found ← lookup_table schema table;
  match found with
  | None => mret tt
  | Some t =>
      if Nat.eqb (length row_ids) (ch_count new_values) && Nat.eqb (length col_ids) (length (columns new_values)) then
        e ← read_table t;
        types ← pure_r (mapM_r (fun c => of_option UndefinedBehaviour (cd_type <$> tbl_columns e !! c)) col_ids);
        let fresh := (fun ty => Reset ty 0) <$> types in
        '(olds, news, applied) ← each_step (replay_update_row t col_ids new_values) (fresh, fresh, []) (imap pair row_ids);
        match applied with
        | [] => mret tt
        | _ :: _ => push_undo (UndoUpdate (mkUpdateUndo schema table applied col_ids (mkChunk olds (length applied)) (mkChunk news (length applied))))
        end
      else mret tt
  end.

Definition replay_alter (schema table : string) (pi : PartitionInfo) (idx : list (list nat)) : step unit :=
  c ← current; with_catalog (fun cat => RestorePartitionState cat schema table pi idx (ex_tx c)).

(** ** One transaction per entry *)

(** [BeginTransaction(true)], the work, [Commit]; anything thrown by the work or
    by the commit is followed by a rollback. *)
Definition in_transaction (work : step unit) (st : S * TransactionManager) : result (S * TransactionManager) :=
  let '(tm, tx) := BeginTransaction st.2 true in
  let '(c, r) := work (mkExec st.1 (catalog_ tm) tx) in
  let tm := mkTM (ex_catalog c) (wal_ tm) (next_tx_id_ tm) (commit_counter_ tm) (<[tx_id tx := ex_tx c]> (active_transactions_ tm)) in
  match (_ ← r; Commit tm (ex_tx c)) with
  | Ok (tm, _) => Ok (ex_store c, tm)
  | Err UndefinedBehaviour => Err UndefinedBehaviour
  | Err _ => '(s, tm, _) ← Rollback (ex_store c) tm (ex_tx c); Ok (s, tm)
  end.

(** The partition metadata of [WAL_ALTER_TABLE], whose key positions are those
    of the table that a transaction of its own sees. *)
Definition rd_alter (st : S * TransactionManager) (bs : list Z)
    : result (string * string * PartitionInfo * list (list nat) * (S * TransactionManager)) :=
  '(schema, bs) ← RdStr bs; '(table, bs) ← RdStr bs;
  b ← of_option UndefinedBehaviour (head bs);
  t ← PartitionType_of_u8 b;
  '(cols, st) ← (if decide (t = PT_NONE) then Ok ([], st)
                 else
                   let '(tm, tx) := BeginTransaction st.2 true in
                   let cols := match GetTable (catalog_ tm) schema table tx with Some (_, e) => tbl_columns e | None => [] end in
                   '(s, tm, _) ← Rollback st.1 tm tx; Ok (cols, (s, tm)));
  '(pi, bs) ← rd_wal_partition cols bs;
  '(idx, bs) ← rd_group_indices bs;
  Ok (schema, table, pi, idx, st).

(** The switch over the type of an entry. *)
Definition replay_entry (st : S * TransactionManager) (e : WALEntry) : result (S * TransactionManager) :=
  let of_type t := Z.eqb (we_type e) (WALEntryType_u8 t) in
  if of_type WAL_CREATE_TABLE then
    '(schema, table, cols, pi, _) ← rd_create (we_data e); in_transaction (replay_create schema table cols pi) st
  else if of_type WAL_DROP_TABLE then
    '(schema, table, _) ← rd_drop (we_data e); in_transaction (replay_drop schema table) st
  else if of_type WAL_INSERT then
    '(schema, table, chunk, _) ← rd_insert (we_data e); in_transaction (replay_insert schema table chunk) st
  else if of_type WAL_DELETE then
    '(schema, table, ids, _) ← rd_delete (we_data e); in_transaction (replay_delete schema table ids) st
  else if of_type WAL_UPDATE then
    '(schema, table, cols, ids, chunk, _) ← rd_update (we_data e); in_transaction (replay_update schema table cols ids chunk) st
  else if of_type WAL_ALTER_TABLE then
    '(schema, table, pi, idx, st) ← rd_alter st (we_data e); in_transaction (replay_alter schema table pi idx) st
  else Ok st.

(** [Database::ReplayWAL] *)
Definition ReplayWAL (log : list Z) (st : S * TransactionManager) : result (S * TransactionManager) :=
  entries ← read_log log; foldM replay_entry st (replay_entries entries).

End replay.

(** ** Databases *)

Record DatabaseConfig : Type := mkConfig { buffer_pool_bytes : Z; block_size : nat }.

(** The members of [Database]; the block file belongs to the buffer manager, the
    catalog and the log to the transaction manager. *)
Record Database : Type := mkDatabase {
  buffer_manager_ : BufferManager;
  txn_manager_ : TransactionManager;
  is_in_memory_ : bool;
}.

(** [Database::InitInMemory] *)
Definition InitInMemory (cfg : DatabaseConfig) : Database :=
  mkDatabase (BM_new (buffer_pool_bytes cfg) (block_size cfg) None) (TM_new Catalog_new None) true.

(** The catalog in block 0, when the file has blocks. *)
Definition read_catalog (f : BlockFile) : result (Catalog * BlockFile) :=
  if Z.ltb 0 (block_count_ f) then '(buf, f) ← ReadBlock f 0; c ← Deserialize Catalog_new buf; Ok (c, f)
  else Ok (Catalog_new, f).

(** [Database::InitPersistent] on the bytes of the two files and the scripts of
    the system calls: the log is replayed without a log, then emptied. *)
Definition InitPersistent (H : Hashes) {IO : InsertOrder} (cfg : DatabaseConfig) (file io log wal_io wal_sync : list Z) : result Database :=
  '(c, f) ← read_catalog (bf_open file (block_size cfg) io);
  let bm := BM_new (buffer_pool_bytes cfg) (block_size cfg) (Some f) in
  '(bm, tm) ← (if decide (0 < length log) then ReplayWAL H log (bm, TM_new c None) else Ok (bm, TM_new c None));
  Ok (mkDatabase bm (TM_new (catalog_ tm) (Some (WAL_Create wal_io wal_sync))) false).

(** [Database::Database] *)
Definition Database_open (H : Hashes) {IO : InsertOrder} (cfg : DatabaseConfig) (path : string) (file io log wal_io wal_sync : list Z) : result Database :=
  if String.eqb path ":memory:" then Ok (InitInMemory cfg) else InitPersistent H cfg file io log wal_io wal_sync.

(** [try { ... } catch (...) {}] around a call that returns a new state. *)
Definition swallow {A} (r : result A) (old : A) : result A :=
  match r with Ok x => Ok x | Err UndefinedBehaviour => Err UndefinedBehaviour | Err _ => Ok old end.

(** [Database::Shutdown]; the checkpoint takes its lock and gives it back. *)
Definition Shutdown_database `{MapOrder} (db : Database) : result Database :=
  let tm := txn_manager_ db in
  db ← match wal_ tm with
       | Some w =>
           if is_in_memory_ db then Ok db
           else
             w ← swallow (Wal.Flush w) w;
             let st := mkCS (catalog_ tm) (buffer_manager_ db) w false in
             '(_, st) ← swallow (CreateCheckpoint st) (false, st);
             Ok (mkDatabase (cs_bm st)
                   (mkTM (cs_catalog st) (Some (cs_wal st)) (next_tx_id_ tm) (commit_counter_ tm) (active_transactions_ tm)) false)
       | None => Ok db
       end;
  bm ← swallow (BufferManager.Shutdown (buffer_manager_ db)) (buffer_manager_ db);
  Ok (mkDatabase bm (txn_manager_ db) (is_in_memory_ db)).

(** ** Replayed tables *)

Section lost.
Context {S : Type} {BSops : BlockStore S} (H : Hashes) {IO : InsertOrder}.

(** The replay of CREATE TABLE logs nothing in its undo buffer, so its commit
    does not stamp the new version. *)
Lemma replay_create_unseen schema table cols pi (s s' : S) tm tm' :
  in_transaction (replay_create schema table cols pi) (s, tm) = Ok (s', tm') ->
  next_tx_id_ tm' = (next_tx_id_ tm + 1)%Z /\
  forall T, tx_id T <> INVALID_TRANSACTION -> tx_id T <> next_tx_id_ tm ->
    forall sch n, view T (catalog_ tm') sch n = view T (catalog_ tm) sch n.
Proof.
  unfold in_transaction, BeginTransaction. cbn [snd fst catalog_]. unfold replay_create.
  rewrite (step_run current _ _ _ _ eq_refl). unfold catalog_op. cbn [ex_catalog ex_tx ex_store].
  destruct (CreateTable (catalog_ tm) schema table cols _ pi) as [cat|err] eqn:E; cbn [mbind result_bind ex_catalog ex_tx ex_store].
  - unfold Commit. cbn [wal_ undo_buffer Tx_new]. intros Hc.
    assert (next_tx_id_ tm' = (next_tx_id_ tm + 1)%Z /\ catalog_ tm' = cat) as [-> ->] by (destruct (wal_ tm); cbn in Hc; by simplify_eq).
    split; [done|]. intros T HT Hid sch n. apply ddl_step_view; [done|]. eapply ds_create; [|exact E]. cbn. congruence.
  - intros Hc. destruct err; try done; unfold Rollback, UndoBufferReverse, ForEachReverse in Hc; cbn in Hc; by simplify_eq.
Qed.

Definition is_create (e : WALEntry) : Prop := we_type e = WALEntryType_u8 WAL_CREATE_TABLE.

(** C39: tables that the log brings back are lost: after the replay of any
    number of CREATE TABLE entries, a transaction whose number was not used
    during the replay finds exactly the tables it would have found without
    them. *)
Theorem replayed_tables_lost es (s s' : S) tm tm' T schema table :
  Forall is_create es -> foldM (replay_entry H) (s, tm) es = Ok (s', tm') ->
  (next_tx_id_ tm + Z.of_nat (length es) <= tx_id T)%Z -> tx_id T <> INVALID_TRANSACTION ->
  view T (catalog_ tm') schema table = view T (catalog_ tm) schema table.
Proof.
  intros Hes. revert s tm. induction Hes as [|e es He _ IH]; intros s tm Hrun Hid HT; [by injection Hrun as _ <-|].
  cbn [foldM] in Hrun. apply bind_Ok_inv in Hrun as ([s1 tm1] & He1 & Hrun). cbn [length] in Hid.
  unfold replay_entry in He1. rewrite He, Z.eqb_refl in He1.
  apply bind_Ok_inv in He1 as ([[[[sch n] cols] pi] rest] & _ & He1).
  apply replay_create_unseen in He1 as [Hn Hv]. rewrite (IH s1 tm1 Hrun), (Hv T); [done|done|lia|lia|done].
Qed.

End lost.

(** ** A database that was closed by a crash behind one CREATE TABLE *)

Definition crash_config : DatabaseConfig := mkConfig 4096 1024.
Definition crash_entry : WALEntry :=
  mkWALEntry (WALEntryType_u8 WAL_CREATE_TABLE) (default [] (match create_payload "main" "t" ["a"%string] [INT64] PI_none with Ok bs => Some bs | Err _ => None end)).
Definition crash_log : list Z := frame crash_entry.
Definition reopened : result Database := InitPersistent (IO := insert_order) sample_hashes crash_config [] [] crash_log [] [].

Lemma replayed_tables_lost_witness :
  exists s' tm', foldM (replay_entry (IO := insert_order) sample_hashes) (sample_bm, TM_new Catalog_new None) [crash_entry] = Ok (s', tm') /\
    table_versions (catalog_ tm') "main" "t" <> [] /\ view (Tx_new 2 1 true) (catalog_ tm') "main" "t" = None.
Proof.
  destruct (foldM (replay_entry (IO := insert_order) sample_hashes) (sample_bm, TM_new Catalog_new None) [crash_entry]) as [[s' tm']|] eqn:E.
  2: { vm_compute in E. discriminate. }
  exists s', tm'. split; [reflexivity|]. split.
  - vm_compute in E. injection E as _ <-. vm_compute. discriminate.
  - rewrite (replayed_tables_lost (IO := insert_order) sample_hashes [crash_entry] sample_bm s' (TM_new Catalog_new None) tm' (Tx_new 2 1 true) "main" "t");
      [vm_compute; reflexivity|repeat constructor|exact E|vm_compute; discriminate|discriminate].
Defined.

(** In SQL: the first statement runs in the transaction number that the replay
    had used and finds the table; the second one does not. *)
Example reopened_database_forgets_table :
  match reopened with
  | Ok db =>
      let query sql se := Connection_Query (IO := insert_order) sample_env sample_heap (fun _ => ""%string) 5 5 no_profile sql se in
      let '(se1, r1) := query "SELECT a FROM t"%string (Connect (buffer_manager_ db) (txn_manager_ db)) in
      let '(_, r2) := query "SELECT a FROM t"%string se1 in
      (success <$> r1) = Ok true /\ r2 = Ok (error_result "table not found: t")
  | Err _ => False
  end.
Proof. vm_compute. split; reflexivity. Qed.

(** Opening a database empties its log before any checkpoint has written what
    the replay brought back: after a second crash, on the files the first
    reopening left, the table is gone. *)
Definition crash_again (db : Database) : result Database :=
  match file_ (buffer_manager_ db), wal_ (txn_manager_ db) with
  | Some f, Some w => InitPersistent (IO := insert_order) sample_hashes crash_config (content f) [] (w_file w) [] []
  | _, _ => Err UndefinedBehaviour
  end.

Example second_crash_loses_table :
  (exists db, reopened = Ok db /\ table_versions (catalog_ (txn_manager_ db)) "main" "t" <> []) /\
  (exists db, (db ← reopened; crash_again db) = Ok db /\ table_versions (catalog_ (txn_manager_ db)) "main" "t" = []).
Proof. split; eexists; (split; [vm_compute; reflexivity|]); vm_compute; done. Qed.
