(* ===== verification/Console.v ===== *)
(** * The console

    [src/main.cpp]: the loop that reads a line, hands it to the connection and prints
    the result as a table.  The texts written to the standard output and to the
    standard error are recorded in order.  An exception that leaves
    [Connection::Query] ends the program.

    The claims are that a result whose batches are well formed is printed as the
    table of its rows, and that the loop answers every line up to the first that
    asks it to stop, and nothing behind it. *)

From Stdlib Require Import ZArith String Ascii SpecFloat.
From stdpp Require Import base gmap strings list fin_maps pretty.
From S2P Require Import Prelude Types Double Expr VersionInfo BlockFile BufferManager ColumnChunk RowGroup Operators HashJoin Pipeline Sorting Transaction Schema Catalog PhysicalPlanner Profiler Tokenizer TableScan Wal TransactionManager Dml Executor ClientContext CheckpointManager Recovery.

#[local] Open Scope string_scope.

(** ** [operator<<] *)

(** The default format of a [double]: six significant digits, ties to even, in
    fixed notation when the exponent is at least -4 and below 6, without trailing
    zeros.  [decimal_exponent n d] is the exponent of the first digit of [n / d];
    every value of the type is at least 10^-330. *)
Definition decimal_exponent (n d : Z) : Z :=
  (Z.of_nat (String.length (pretty (n * 10 ^ 330 / d))) - 331)%Z.

Definition significand (n d x : Z) : Z :=
  (if Z.leb x 5 then round_even (n * 10 ^ (5 - x)) d else round_even n (d * 10 ^ (x - 5)))%Z.

Fixpoint zeros (k : nat) : string := match k with 0 => "" | S k => String "0" (zeros k) end.
Definition padded (width : nat) (n : Z) : string := let s := pretty n in zeros (width - String.length s) +:+ s.

Fixpoint strip_zeros (s : string) : string :=
  match s with
  | "" => ""
  | String c s => match strip_zeros s with "" => if Ascii.eqb c "0" then "" else String c "" | s => String c s end
  end.

(** The digits behind the point, and the point when there are any. *)
Definition fraction (digits : string) : string := match strip_zeros digits with "" => "" | s => "." +:+ s end.

Definition format_digits (digits x : Z) : string :=
  if Z.leb (-4) x && Z.ltb x 6 then
    let k := (10 ^ (5 - x))%Z in pretty (digits / k)%Z +:+ fraction (padded (Z.to_nat (5 - x)) (digits mod k)%Z)
  else
    pretty (digits / 100000)%Z +:+ fraction (padded 5 (digits mod 100000)%Z) +:+ "e" +:+ (if Z.ltb x 0 then "-" else "+") +:+ padded 2 (Z.abs x).

Definition print_double (bits : Z) : string :=
  let sign := if Z.testbit bits 63 then "-" else "" in
  match f64_to_SF bits with
  | S754_zero _ => sign +:+ "0"
  | S754_infinity _ => sign +:+ "inf"
  | S754_nan => sign +:+ "nan"
  | S754_finite _ m e =>
      let n := if Z.leb 0 e then Zpos m * 2 ^ e else Zpos m in
      let d := if Z.leb 0 e then 1 else 2 ^ (- e) in
      let x := decimal_exponent n d in
      let digits := significand n d x in
      sign +:+ (if Z.eqb digits 1000000 then format_digits 100000 (x + 1) else format_digits digits x)
  end%Z.

(** ** A result *)

(** The text of one value; the arrays are read without a test of their bounds. *)
Definition print_value (col : DataVector) (r : nat) : result string :=
  if IsNull col r then Ok "NULL"
  else match dv_type col with
       | BOOLEAN => z ← int_at col r; Ok (if Z.eqb z 0 then "false" else "true")
       | INT8 | INT16 | INT32 | INT64 => z ← int_at col r; Ok (pretty z)
       | FLOAT32 | FLOAT64 => b ← float_at col r; Ok (print_double b)
       | VARCHAR => str_at col r
       | INVALID => Ok "?"
       end.

Definition print_row (chunk : DataChunk) (r : nat) : result string :=
  cells ← mapM_r (fun col => print_value col r) (columns chunk); Ok (String.concat " | " cells +:+ newline).

Definition print_chunk (chunk : DataChunk) : result string :=
  lines ← mapM_r (print_row chunk) (seq 0 (ch_count chunk)); Ok (String.concat "" lines).

Definition header (names : list string) : string := match names with [] => "" | _ => String.concat " | " names +:+ newline end.
Definition footer (total_rows : nat) : string :=
  "(" +:+ pretty total_rows +:+ " row" +:+ (if Nat.eqb total_rows 1 then "" else "s") +:+ ")" +:+ newline +:+ newline.

Definition print_result (q : QueryResult) : result string :=
  body ← mapM_r print_chunk (result_chunks q);
  Ok (header (result_names q) +:+ String.concat "" body +:+ footer (foldr (fun c n => ch_count c + n) 0 (result_chunks q))).

(** ** The loop of [main] *)

Inductive Output : Type :=
  | Cout (text : string)
  | Cerr (text : string).

Definition banner (path : string) : list Output :=
  [Cout ("CppColDB — path: " +:+ path +:+ newline); Cout ("Type SQL statements (or 'exit' to quit)." +:+ newline +:+ newline)].
Definition prompt : Output := Cout "cppcoldb> ".
Definition asks_to_stop (line : string) : bool := String.eqb line "exit" || String.eqb line "quit" || String.eqb line "\q".

Section console.
Context {S : Type} {BSops : BlockStore S} (env : ExecEnv) (heap : HeapFns) {IO : InsertOrder}.
Context (std_what : error -> string) (fuel inner : nat).

(** One statement; what the profiler measures during it is an argument. *)
Definition answer (profile : ProfilingResult) (line : string) (se : Session S) : Session S * result Output :=
  let '(se, r) := Connection_Query env heap std_what fuel inner profile line se in
  (se, q ← r; if success q then text ← print_result q; Ok (Cout text) else Ok (Cerr ("Error: " +:+ error_message q +:+ newline))).

(** The lines that are left, each with the measurements of its statement.  At
    the end of the input, as behind a request to stop, the connection is closed. *)
Fixpoint console_loop (input : list (ProfilingResult * string)) (se : Session S) (out : list Output) : Session S * list Output * result unit :=
  match input with
  | [] => (se, (out ++ [prompt])%list, Ok tt)
  | (profile, line) :: input =>
      let out := (out ++ [prompt])%list in
      if String.eqb line "" then console_loop input se out
      else if asks_to_stop line then (se, out, Ok tt)
      else match answer profile line se with
           | (se, Ok text) => console_loop input se (out ++ [text])%list
           | (se, Err e) => (se, out, Err e)
           end
  end.

End console.

(** [main] on the bytes of the files of the database and the scripts of the system
    calls.  The connection is closed before the database; an exception that leaves
    [main] ends the program without closing either. *)
Definition path_of (argv : list string) : string := match argv with _ :: path :: _ => path | _ => ":memory:" end.

Definition main (env : ExecEnv) (heap : HeapFns) {IO : InsertOrder} `{MapOrder} (std_what : error -> string) (fuel inner : nat) (cfg : DatabaseConfig)
    (argv : list string) (file io log wal_io wal_sync : list Z) (input : list (ProfilingResult * string)) : list Output * result Database :=
  let path := path_of argv in
  match Database_open (env_hash env) cfg path file io log wal_io wal_sync with
  | Err e => (banner path, Err e)
  | Ok db =>
      let '(se, out, r) := console_loop env heap std_what fuel inner input (Connect (buffer_manager_ db) (txn_manager_ db)) (banner path) in
      (out, _ ← r; let se := Disconnect se in Shutdown_database (mkDatabase (se_store se) (se_tm se) (is_in_memory_ db)))
  end.

(** ** The printed table *)

Definition render_cell (t : TypeId) (x : option cell) : string :=
  match x with
  | None => "NULL"
  | Some (CInt z) => if decide (t = BOOLEAN) then (if Z.eqb z 0 then "false" else "true") else pretty z
  | Some (CFloat b) => print_double b
  | Some (CStr s) => s
  end.
Definition render_row (types : list TypeId) (r : sql_row) : string := String.concat " | " (zip_with render_cell types r) +:+ newline.
Definition table_text (names : list string) (types : list TypeId) (rows : list sql_row) : string :=
  header names +:+ String.concat "" (render_row types <$> rows) +:+ footer (length rows).

Lemma append_empty (s : string) : s +:+ "" = s.
Proof. induction s as [|c s IH]; [done|]. by rewrite cons_app, IH. Qed.
Lemma join_cons (s : string) l : String.concat "" (s :: l) = s +:+ String.concat "" l.
Proof. destruct l; [symmetry; apply append_empty|reflexivity]. Qed.

Lemma join_app (l1 l2 : list string) : String.concat "" (l1 ++ l2)%list = String.concat "" l1 +:+ String.concat "" l2.
Proof.
  induction l1 as [|s l1 IH]; [done|]. change ((s :: l1) ++ l2)%list with (s :: (l1 ++ l2))%list.
  by rewrite !join_cons, IH, app_assoc_string.
Qed.

Lemma print_value_cell col r : dv_wf col -> print_value col r = Ok (render_cell (dv_type col) (dv_row col r)).
Proof.
  intros Hwf. unfold print_value.
  destruct (dv_row_view col r Hwf) as [Hn Hd|z Hn Hs Ha Hd|z Hn Hs Ha Hd|z Hn Hs Ha Hd]; rewrite Hn, Hd; [done|..];
    rewrite Ha; by destruct (dv_type col).
Qed.

Lemma print_row_cells c r : chunk_wf c -> print_row c r = Ok (render_row (col_types c) (Expr.row_at c r)).
Proof.
  intros Hwf. unfold print_row, render_row, col_types, Expr.row_at.
  assert (mapM_r (fun col => print_value col r) (columns c) = Ok (zip_with render_cell (dv_type <$> columns c) ((fun col => dv_row col r) <$> columns c))) as ->;
    [|done]. unfold chunk_wf in Hwf. induction Hwf as [|col cols [Hcol _] _ IH]; [done|]. cbn [mapM_r]. rewrite print_value_cell by done.
  cbn [mbind result_bind]. by rewrite IH.
Qed.

Lemma print_chunk_rows c : chunk_wf c -> print_chunk c = Ok (String.concat "" (render_row (col_types c) <$> chunk_rows c)).
Proof.
  intros Hwf. unfold print_chunk, chunk_rows.
  assert (forall l, mapM_r (print_row c) l = Ok (render_row (col_types c) <$> (Expr.row_at c <$> l))) as ->; [|done].
  induction l as [|r l IH]; [done|]. cbn [mapM_r]. rewrite print_row_cells by done. cbn [mbind result_bind]. by rewrite IH.
Qed.

(** A result whose batches are well formed and of one type is printed as the table
    of its rows; no array is read behind its end, and the footer counts the rows. *)
Theorem print_result_rows q types :
  Forall (fun c => chunk_wf c /\ col_types c = types) (result_chunks q) ->
  print_result q = Ok (table_text (result_names q) types (result_rows q)).
Proof.
  intros Hall. unfold print_result, table_text, result_rows, stream_rows.
  assert (exists body, mapM_r print_chunk (result_chunks q) = Ok body /\
    String.concat "" body = String.concat "" (render_row types <$> concat (chunk_rows <$> result_chunks q)) /\
    foldr (fun c n => ch_count c + n) 0 (result_chunks q) = length (concat (chunk_rows <$> result_chunks q))) as (body & Hm & Hb & Hn); [|rewrite Hm; cbn [mbind result_bind]; by rewrite Hb, Hn].
  induction Hall as [|c cs [Hwf Ht] _ (body & Hm & Hb & Hn)]; [by exists []|]. cbn [mapM_r]. rewrite print_chunk_rows, Hm by done. cbn [mbind result_bind].
  eexists. split; [reflexivity|]. rewrite fmap_cons. cbn [concat foldr]. rewrite fmap_app, join_app, join_cons, Hb, Ht, length_app, length_chunk_rows, Hn. done.
Qed.

(** ** What the loop does *)

Section loop.
Context {S : Type} {BSops : BlockStore S} (env : ExecEnv) (heap : HeapFns) {IO : InsertOrder}.
Context (std_what : error -> string) (fuel inner : nat).
Notation run_console := (console_loop env heap std_what fuel inner).

(** The console only gives its lines to the connection, so whatever holds of a
    connection after any sequence of statements holds at its end. *)
Lemma console_reachable input se out : rtc (session_step env heap std_what fuel inner) se (run_console input se out).1.1.
Proof.
  revert se out. induction input as [|[profile line] input IH]; intros se out; cbn [console_loop]; [apply rtc_refl|].
  destruct (String.eqb line ""); [apply IH|]. destruct (asks_to_stop line); [apply rtc_refl|].
  pose proof (step_query env heap std_what fuel inner se profile line) as Hstep. unfold answer.
  destruct (Connection_Query _ _ _ _ _ profile line se) as [se1 r]. cbn [fst] in Hstep.
  destruct (q ← r; _) as [text|e]; [eapply rtc_l; [exact Hstep|apply IH]|by apply rtc_once].
Qed.

(** Nothing behind a request to stop is read. *)
Theorem console_stops before profile line after se out :
  asks_to_stop line = true -> run_console (before ++ (profile, line) :: after)%list se out = run_console (before ++ [(profile, line)])%list se out.
Proof.
  intros Hstop. revert se out. induction before as [|[pr l] before IH]; intros se out; cbn [app console_loop].
  - rewrite Hstop. destruct (String.eqb_spec line "") as [->|]; [by vm_compute in Hstop|done].
  - destruct (String.eqb l ""); [apply IH|]. destruct (asks_to_stop l); [done|]. destruct (answer _ _ _ _ _ pr l se) as [se1 [text|e]]; [apply IH|done].
Qed.

End loop.

(** *** A session *)

Definition run_main (argv : list string) (file log : list Z) (sqls : list string) : list Output * result Database :=
  main (IO := insert_order) (H := sorted_order) sample_env sample_heap (fun _ => "") 5 1 crash_config argv file [] log [] [] (pair no_profile <$> sqls).

(** The block file and the log that a run leaves. *)
Definition files_of (r : result Database) : list Z * list Z :=
  match r with
  | Ok db =>
      match BufferManager.file_ (buffer_manager_ db), wal_ (txn_manager_ db) with Some f, Some w => (content f, w_file w) | _, _ => ([], []) end
  | Err _ => ([], [])
  end.

(** The whole program, twice on the same files: what the first run stores is there
    in the second one.  Errors go to the standard error, an empty line is no
    statement, and nothing behind [exit] is executed. *)
Definition first_run : list Output * result Database :=
  run_main ["cppcoldb"; "db"] [] []
    ["CREATE TABLE t (a INTEGER, b VARCHAR)"; "INSERT INTO t VALUES (1, 'x'), (2, 'y')"; ""; "SELECT c FROM t"; "exit"; "DELETE FROM t"].
Definition second_run : list Output * result Database :=
  let '(file, log) := files_of first_run.2 in run_main ["cppcoldb"; "db"] file log ["SELECT b, a FROM t"].

Definition no_rows : Output := Cout ("(0 rows)" +:+ newline +:+ newline).

Example console_keeps_data :
  first_run.1 = (banner "db" ++ [prompt; no_rows; prompt; no_rows; prompt; prompt; Cerr ("Error: column not found: c" +:+ newline); prompt])%list /\
  second_run.1 = (banner "db" ++ [prompt; Cout ("b | a" +:+ newline +:+ "x | 1" +:+ newline +:+ "y | 2" +:+ newline +:+
    "(2 rows)" +:+ newline +:+ newline); prompt])%list.
Proof. vm_compute. split; reflexivity. Qed.

(** Two INSERTs in one transaction: its COMMIT stamps the rows of the second one
    twice and those of the first one never.  The counters of the fast path are then
    wrong, which hides the defect until a DELETE switches the fast path off: the
    first row, committed long ago, is gone. *)
Example two_inserts_lose_row :
  let answers := omap (fun o => match o with Cout t => if String.eqb t "cppcoldb> " then None else Some t | Cerr t => Some t end)
    (drop 2 (run_main ["cppcoldb"] [] []
      ["CREATE TABLE t (a INTEGER)"; "BEGIN"; "INSERT INTO t VALUES (1)"; "INSERT INTO t VALUES (2)"; "COMMIT"; "INSERT INTO t VALUES (3)";
       "SELECT a FROM t"; "DELETE FROM t WHERE a = 3"; "SELECT a FROM t"]).1) in
  answers !! 6 = Some ("a" +:+ newline +:+ "1" +:+ newline +:+ "2" +:+ newline +:+ "3" +:+ newline +:+ "(3 rows)" +:+ newline +:+ newline) /\
  answers !! 8 = Some ("a" +:+ newline +:+ "2" +:+ newline +:+ "(1 row)" +:+ newline +:+ newline).
Proof. vm_compute. split; reflexivity. Qed.

(** 0.1, 10^6 (also 999999.5 rounded), 0.00012345678, the least positive value,
    and 99999.95, whose exact value is below the tie. *)
Example print_double_samples :
  print_double <$> [4591870180066957722; 4696837142389719040; 4548686775266478992; 1; 13837872805049270272; 4681608357448201011]%Z =
    ["0.1"; "1e+06"; "0.000123457"; "4.94066e-324"; "-3.25"; "99999.9"].
Proof. vm_compute. reflexivity. Qed.
